(* ===== verification/_CoqProject ===== *)
-Q . S2P
Prelude.v
GoLib.v
Store.v
Ledger.v
Crypto.v
Stripe.v
Erasure.v
Chunk.v
Pipeline.v
Repair.v
Placement.v
Wire.v
RateLimit.v
Server.v
Node.v
Client.v
Races.v
Codec.v
Manifest.v
Blobs.v
Namespace.v
Merge.v
Base64.v
Root.v
Device.v
Discovery.v
RootStores.v
Files.v
Identity.v
Provider.v
LocalFS.v
Sync.v
Reconcile.v
Defense.v
Abuse.v
Rebalance.v
NetStores.v
Params.v
Diff.v
Commit.v
Reclaim.v
Move.v
Tree.v
Cp.v
Browse.v
Admin.v
Workspace.v
CtlManifest.v
Profile.v
DeviceCmd.v
Upkeep.v
Status.v
