(* ===== verification/Prelude.v ===== *)
(** * A verification development for revika

    revika stores files for a User on nodes the User does not trust. A file is
    cut into chunks, each compressed, encrypted and erasure-coded into shards;
    shards are placed on storage nodes under their SHA-256 address. Directories
    are encrypted blobs of the same kind, so a namespace is a tree of immutable
    blobs under one signed pointer, the root, which is kept in a file and
    published in a DHT. Nodes keep a ledger of who claims which shard, collect
    what nobody claims, repair stripes and move shards to emptier peers. Clients
    are a command line program and a folder synchronizer.

    ** Parts and files

    Foundations:
    - [Prelude] (this file): results, byte strings, machine integers, shared
      lemmas and tactics. [GoLib]: the standard library functions the source
      calls (hex, strings, sort, time, binary64 arithmetic). [Codec]: the
      interface of encoding/json and codecs to evaluate it; [Base64].
    Storing bytes:
    - [Store] (internal/store): the Store interface with its laws, MemStore, and
      DiskStore down to the system calls of Put.
    - [Crypto] (internal/crypto, cap, atrest), [Stripe] (internal/stripe),
      [Erasure], [Chunk], [Pipeline], [Repair], [Placement] (the packages of the
      same names); [Blobs]: the interface of the pipeline to the namespace.
    A storage node:
    - [Ledger], [Browse] (internal/ledger/ledger.go): the SQL tables as finite
      maps; the listing queries and the schema migrations.
    - [Wire] (net/proto.go, auth.go, authcache.go), [RateLimit] (ratelimit.go,
      subnetlimit.go), [Server] (server.go): the shard protocol, byte for byte.
    - [Node]: the collector of cmd/revika-node and the node as a step relation;
      [Races]: the same as interleaved calls of concurrent handlers; [Upkeep]: the
      node's settings, its supervised loops, the repair cycle (main.go).
    - [Client] (net/client.go): NetStore against an arbitrary peer.
    - [Defense] (net/defense.go), [Abuse] (net/abuse.go), [Rebalance]
      (net/balance.go, rebalance.go), [NetStores] (net/dht.go, placement.go,
      repair.go), [Params] (net/params.go, root_proto.go), [Admin] (the map and the
      ledger browser of net/admin_page.go, net/gcstats.go, internal/geoip),
      [Status] (the key file and addresses of net/host.go, net/publicip.go, the
      snapshot of net/metrics.go).
    The namespace:
    - [Manifest], [Namespace], [Merge], [Files], [Root] (internal/manifest),
      [Device] (internal/device), [Discovery] (net/root.go, deviceauth.go).
    - [RootStores], [Identity], [Provider], [Diff] (internal/provider).
    Clients:
    - [LocalFS]: package os and internal/fsmeta; [Sync], [Reconcile]
      (internal/sync).
    - cmd/revika-ctl: [Commit], advancing the root; [Reclaim], rm and revoke;
      [Move], cp and mv inside the namespace; [Tree] and [Cp], copying from and to
      local files; [Workspace], secret files, loadRoot, share, ls and renew;
      [CtlManifest], its file manifests; [Profile], workspaces, keygen and
      connect; [DeviceCmd], the device commands.

    Every state the code keeps is a record (or a finite map for an SQL table, a Go
    map, a file system), every method a function from state to state and result;
    Go errors are the constructors of one error type per component. Where the
    source passes an interface, the model has a class with its laws: [Store],
    [Blobs], [RootStore], [FullRootPublisher], [SyncProvider], [PeerBlocker]. A
    client is proved against the laws and each implementation is shown to obey
    them.

    ** Parameters

    Code that is not in the repository is a parameter with its documented laws:
    SHA-256, AES-GCM, Ed25519, ML-KEM, Argon2id, DEFLATE, Reed-Solomon,
    encoding/json, the DHT and the dialer of libp2p, the kernel behind package os.
    No law says that forging or colliding is impossible unless a theorem states it
    as a hypothesis; witnesses instantiate the parameters by small concrete
    functions. What varies between two runs is an argument: the clock, random
    bytes, the order in which a Go map is ranged over, which system call fails, what
    a remote peer answers. A theorem that quantifies over these arguments holds for
    every schedule, failure and adversary they describe.

    ** What the theorems show

    - Node: no acknowledged shard is lost while a claim on it is live, under any
      order of requests and collections ([node_durable], [gc_cycle]) and under
      interleaving ([put_durable_interleaved]); only an owner's token removes an
      owner's claim; accounts equal the sum of claims and stay below the quota; a
      token is accepted once; the disk store refines the memory store and Put is
      atomic under crashes; a ledger of any earlier release is migrated with its
      rows, and the pages of a listing are exactly the matching rows. A repair cycle
      makes every recorded stripe with K shards left whole
      ([repair_cycle_restores]); the collector's grace holds over its whole run
      ([gc_grace]); a supervised loop is restarted with bounded backoff.
    - Files: loading gives back what was stored, whatever K of the shards of each
      chunk remain; repair restores full redundancy; content-defined chunks
      concatenate to the input within their bounds; a client of an arbitrary peer
      accepts only bytes with the right address.
    - Namespace: graft, remove, rekey, rename and three-way merge change exactly
      what they name; the delta between two roots is complete; root pointers only
      advance; selection in the DHT does not depend on the order of records; a
      removed device cannot open later roots; what the decoders accept is well
      typed.
    - Clients: the plan of a synchronization is the three-way decision at every
      path and never destroys a local edit outside the listed exceptions; a commit
      keeps the durable root or advances it with every published root it saw
      merged in; rm, revoke, cp and mv do what they say and leave a whole tree; a
      tree that is copied in and out again is the same tree, and restoring an
      untrusted directory writes below the destination only, up to the listed
      exception; storing a tree terminates; a shared item opens for its recipient;
      connect leaves a workspace that loads with an identity the network admits;
      device revoke seals the next root to the remaining devices.
    - Network: rebalancing conserves shards and claims and is bounded per round;
      bans survive a restart; a newcomer adopts the strictest policy; the
      dashboard sends no private address to anyone; a node keeps its identity, and
      its status is the ledger's ([status_truthful]).
    - Theorems of kind "error" prove behaviours the comments exclude; each is a
      finding with the line of source it is about.

    ** Bounds and fuel

    Machine integers are [Z] with their wrap-around written out ([u64], [i64]);
    float64 is binary64. Recursion over directory trees takes a depth bound; the
    theorems that use it assume a tree of depth at most that bound and conclude that
    a result is returned, so the bound is never the reason a claim holds. The
    loops of the source that are bounded by a constant (five commit attempts, 40
    symbolic links) keep that constant.

    ** Not modelled

    Command-line parsing, dispatch, printed output and logging; the libp2p host,
    its resource and connection managers, dialing and DHT bootstrap (the
    rest of net/host.go, the start of net/dht.go, dialing in revika-ctl); the HTTP
    server and the rendering of its pages; the SQL engine below the statements; in
    the node's main.go the wiring of run and the tickers that reprovide, discover
    and rebalance, which call the operations modelled here. Only the Linux
    variants of disk usage and file metadata are modelled. Goroutines are modelled
    where the code shares state between them (the node's handlers and collector);
    elsewhere calls are sequential. *)

From Stdlib Require Export ZArith Lia.
From Stdlib Require Import Strings.Byte.
From stdpp Require Export sorting base gmap strings fin_maps numbers list.

Open Scope Z_scope.

(** ** Results

    A Go function that returns [(T, error)] is modelled by a function into
    [result E T]; the error type [E] is one enumeration per component, with a
    constructor per distinct error the source returns. *)

Inductive result (E A : Type) : Type :=
| Ok (a : A)
| Err (e : E).
Arguments Ok {E A} a.
Arguments Err {E A} e.

#[export] Instance result_ret E : MRet (result E) := λ A a, Ok a.
#[export] Instance result_bind E : MBind (result E) := λ A B f r,
  match r with Ok a => f a | Err e => Err e end.
#[export] Instance result_fmap E : FMap (result E) := λ A B f r,
  match r with Ok a => Ok (f a) | Err e => Err e end.
#[export] Instance result_eq_dec E A `{EqDecision E, EqDecision A} : EqDecision (result E A).
Proof. solve_decision. Defined.

#[export] Instance Ok_inj E A : Inj (=) (=) (@Ok E A).
Proof. by intros x y [= ->]. Qed.

Definition is_ok {E A} (r : result E A) : bool :=
  match r with Ok _ => true | Err _ => false end.

Definition map_err {E E' A} (f : E → E') (r : result E A) : result E' A :=
  match r with Ok a => Ok a | Err e => Err (f e) end.

Definition of_option {E A} (e : E) (o : option A) : result E A :=
  match o with Some a => Ok a | None => Err e end.

Lemma bind_Ok {E A B} (r : result E A) (f : A → result E B) b :
  (r ≫= f) = Ok b ↔ ∃ a, r = Ok a ∧ f a = Ok b.
Proof.
  split; [|by intros (a & -> & Hf)]. destruct r; [eauto|done].
Qed.

(** Case analysis on every [match] of a hypothesis or of the goal, discarding
    the branches whose results disagree. *)
Ltac res_cases :=
  repeat (case_match; simplify_eq/=; try done).

(** ** Bytes and fixed-width integers *)

Abbreviation byte := Byte.byte.
Abbreviation bytes := (list Byte.byte).

#[export] Instance byte_eq_dec : EqDecision byte := Byte.byte_eq_dec.
#[export] Program Instance byte_countable : Countable byte :=
  inj_countable Byte.to_N Byte.of_N _.
Next Obligation. intros x; apply Byte.of_to_N. Qed.
#[export] Instance byte_inhabited : Inhabited byte := populate Byte.x00.

Definition b2Z (b : byte) : Z := Z.of_N (Byte.to_N b).
Definition Z2b (z : Z) : byte :=
  default Byte.x00 (Byte.of_N (Z.to_N (z mod 256))).

Lemma b2Z_range b : 0 ≤ b2Z b < 256.
Proof. unfold b2Z. pose proof (Byte.to_N_bounded b). lia. Qed.

Lemma Z2b_b2Z b : Z2b (b2Z b) = b.
Proof.
  unfold Z2b. rewrite Z.mod_small by apply b2Z_range.
  unfold b2Z. by rewrite N2Z.id, Byte.of_to_N.
Qed.

Lemma b2Z_Z2b z : b2Z (Z2b z) = z mod 256.
Proof.
  unfold Z2b, b2Z. pose proof (Z.mod_pos_bound z 256 ltac:(lia)).
  destruct (Byte.of_N _) as [b|] eqn:E; simpl.
  - apply Byte.to_of_N in E. rewrite E. lia.
  - apply Byte.of_N_None_iff in E. lia.
Qed.

#[export] Instance b2Z_inj : Inj (=) (=) b2Z.
Proof. intros x y E. by rewrite <-(Z2b_b2Z x), <-(Z2b_b2Z y), E. Qed.

(** Conversions to the machine widths the source uses. *)
Definition u16 (z : Z) : Z := z mod 2 ^ 16.
Definition u32 (z : Z) : Z := z mod 2 ^ 32.
Definition u64 (z : Z) : Z := z mod 2 ^ 64.
Definition i64 (z : Z) : Z := (z + 2 ^ 63) mod 2 ^ 64 - 2 ^ 63.

Definition in_i64 (z : Z) : Prop := - 2 ^ 63 ≤ z < 2 ^ 63.

Lemma i64_id z : in_i64 z → i64 z = z.
Proof. unfold in_i64, i64. intros. rewrite Z.mod_small; lia. Qed.

Lemma i64_range z : in_i64 (i64 z).
Proof.
  unfold in_i64, i64. pose proof (Z.mod_pos_bound (z + 2 ^ 63) (2 ^ 64) ltac:(lia)).
  lia.
Qed.

Lemma i64_u64 z : i64 (u64 z) = i64 z.
Proof.
  unfold i64, u64. rewrite Z.add_mod_idemp_l by lia. done.
Qed.

Lemma u64_i64 z : u64 (i64 z) = u64 z.
Proof.
  unfold i64, u64. rewrite Zminus_mod_idemp_l.
  by replace (z + 2 ^ 63 - 2 ^ 63) with z by lia.
Qed.

(** ** Big- and little-endian encodings ([encoding/binary]) *)

Fixpoint le_enc (n : nat) (z : Z) : bytes :=
  match n with
  | O => []
  | S n => Z2b z :: le_enc n (z / 256)
  end.

Fixpoint le_dec (l : bytes) : Z :=
  match l with
  | [] => 0
  | b :: l => b2Z b + 256 * le_dec l
  end.

Definition be_enc (n : nat) (z : Z) : bytes := reverse (le_enc n z).
Definition be_dec (l : bytes) : Z := le_dec (reverse l).

Lemma length_le_enc n z : length (le_enc n z) = n.
Proof. revert z; induction n; intros; simpl; auto. Qed.

Lemma length_be_enc n z : length (be_enc n z) = n.
Proof. unfold be_enc. by rewrite length_reverse, length_le_enc. Qed.

Lemma le_dec_range l : 0 ≤ le_dec l < 256 ^ Z.of_nat (length l).
Proof.
  induction l as [|b l IH]; simpl; [lia|].
  rewrite Nat2Z.inj_succ, Z.pow_succ_r by lia. pose proof (b2Z_range b). lia.
Qed.

Lemma le_dec_enc n z : le_dec (le_enc n z) = z mod 256 ^ Z.of_nat n.
Proof.
  revert z; induction n as [|n IH]; intros z; simpl; [by rewrite Z.mod_1_r|].
  rewrite IH, b2Z_Z2b, Nat2Z.inj_succ, Z.pow_succ_r by lia.
  rewrite Z.rem_mul_r by lia. lia.
Qed.

Lemma le_enc_dec l : le_enc (length l) (le_dec l) = l.
Proof.
  induction l as [|b l IH]; simpl; [done|].
  pose proof (b2Z_range b) as Hb.
  replace ((b2Z b + 256 * le_dec l) / 256) with (le_dec l)
    by (rewrite (Z.mul_comm 256), Z.div_add, Z.div_small by lia; lia).
  rewrite IH. f_equal. unfold Z2b.
  rewrite (Z.mul_comm 256), Z_mod_plus_full. apply Z2b_b2Z.
Qed.

Lemma be_dec_enc n z : be_dec (be_enc n z) = z mod 256 ^ Z.of_nat n.
Proof. unfold be_dec, be_enc. by rewrite reverse_involutive, le_dec_enc. Qed.

Lemma be_dec_enc_small n z :
  0 ≤ z < 256 ^ Z.of_nat n → be_dec (be_enc n z) = z.
Proof. intros. rewrite be_dec_enc. by apply Z.mod_small. Qed.

Lemma be_enc_dec n l : length l = n → be_enc n (be_dec l) = l.
Proof.
  intros <-. unfold be_dec, be_enc. rewrite <-(length_reverse l), le_enc_dec.
  apply reverse_involutive.
Qed.

Lemma be_dec_range l : 0 ≤ be_dec l < 256 ^ Z.of_nat (length l).
Proof. unfold be_dec. rewrite <-(length_reverse l). apply le_dec_range. Qed.

Lemma be_enc_inj n y z :
  0 ≤ y < 256 ^ Z.of_nat n → 0 ≤ z < 256 ^ Z.of_nat n →
  be_enc n y = be_enc n z → y = z.
Proof. intros Hy Hz E. by rewrite <-(be_dec_enc_small n y), E, be_dec_enc_small. Qed.

Lemma be_enc_mod n z : be_enc n (z mod 256 ^ Z.of_nat n) = be_enc n z.
Proof.
  rewrite <-be_dec_enc. apply be_enc_dec, length_be_enc.
Qed.

(** ** Lists *)

Lemma take_app_eq {A} (l k : list A) n : n = length l → take n (l ++ k) = l.
Proof. intros ->. apply take_app_length. Qed.

Lemma drop_app_eq {A} (l k : list A) n : n = length l → drop n (l ++ k) = k.
Proof. intros ->. apply drop_app_length. Qed.

(** [group n l] cuts [l] in consecutive pieces of [n] elements: the decoding
    of a flat blob of fixed-width records. *)
Fixpoint group_fuel {A} (fuel n : nat) (l : list A) : list (list A) :=
  match fuel with
  | O => []
  | S f => take n l :: group_fuel f n (drop n l)
  end.
Definition group {A} (n : nat) (l : list A) : list (list A) :=
  group_fuel (length l / n)%nat n l.

Lemma group_fuel_concat {A} n (ls : list (list A)) :
  Forall (λ l, length l = n) ls → group_fuel (length ls) n (concat ls) = ls.
Proof.
  induction 1 as [|l ls Hl _ IH]; simpl; [done|].
  by rewrite take_app_eq, drop_app_eq, IH.
Qed.

Lemma length_concat_uniform {A} n (ls : list (list A)) :
  Forall (λ l, length l = n) ls → length (concat ls) = (length ls * n)%nat.
Proof. induction 1 as [|l ls Hl _ IH]; simpl; [done|]. rewrite length_app. lia. Qed.

Lemma group_concat {A} n (ls : list (list A)) :
  (0 < n)%nat → Forall (λ l, length l = n) ls → group n (concat ls) = ls.
Proof.
  intros Hn H. unfold group. rewrite (length_concat_uniform n) by done.
  rewrite Nat.div_mul by lia. by apply group_fuel_concat.
Qed.

Lemma concat_group_fuel {A} f n (l : list A) :
  length l = (f * n)%nat →
  concat (group_fuel f n l) = l ∧ Forall (λ x, length x = n) (group_fuel f n l).
Proof.
  revert l; induction f as [|f IH]; intros l Hl; simpl in *.
  - by destruct l.
  - destruct (IH (drop n l)) as [E HF]; [rewrite length_drop; lia|].
    rewrite E. split; [apply take_drop|].
    constructor; [rewrite length_take; lia|done].
Qed.

(** ** Sums over a finite map (SQL's [SUM]/[COUNT]) *)

Section msum.
Context {K : Type} `{Countable K} {A : Type}.
Implicit Types (m : gmap K A) (f g : K → A → Z).

Definition msum f m : Z := map_fold (λ k x acc, f k x + acc) 0 m.

Lemma msum_empty f : msum f ∅ = 0.
Proof. apply map_fold_empty. Qed.

Lemma msum_insert f m k x :
  m !! k = None → msum f (<[k:=x]> m) = f k x + msum f m.
Proof. intros. unfold msum. rewrite map_fold_insert_L; [done|lia|done]. Qed.

Lemma msum_delete f m k x :
  m !! k = Some x → msum f m = f k x + msum f (delete k m).
Proof.
  intros Hk. rewrite <-msum_insert by apply lookup_delete_eq.
  by rewrite insert_delete_id.
Qed.

Lemma msum_overwrite f m k x y :
  m !! k = Some x → msum f (<[k:=y]> m) = msum f m - f k x + f k y.
Proof.
  intros Hk. rewrite (msum_delete f m k x Hk).
  rewrite <-insert_delete_eq, msum_insert by apply lookup_delete_eq. lia.
Qed.

Lemma msum_ext f g m :
  (∀ k x, m !! k = Some x → f k x = g k x) → msum f m = msum g m.
Proof.
  induction m as [|k x m Hk IH] using map_ind; intros E; [done|].
  rewrite !msum_insert by done. rewrite IH, E; [done|by simplify_map_eq|].
  intros k' x' Hk'. apply E. rewrite lookup_insert_ne by congruence. done.
Qed.

Lemma msum_zero f m : (∀ k x, m !! k = Some x → f k x = 0) → msum f m = 0.
Proof.
  intros E. rewrite (msum_ext f (λ _ _, 0)) by done. clear E.
  induction m as [|k x m Hk IH] using map_ind; [done|].
  by rewrite msum_insert, IH.
Qed.

Lemma msum_nonneg f m : (∀ k x, m !! k = Some x → 0 ≤ f k x) → 0 ≤ msum f m.
Proof.
  induction m as [|k x m Hk IH] using map_ind; intros E; [by rewrite msum_empty|].
  rewrite msum_insert by done.
  assert (0 ≤ f k x) by (apply E; by simplify_map_eq).
  assert (0 ≤ msum f m); [|lia].
  apply IH. intros k' x' Hk'. apply E. rewrite lookup_insert_ne by congruence. done.
Qed.

Lemma msum_pos f m k x :
  (∀ k x, m !! k = Some x → 0 ≤ f k x) → m !! k = Some x → f k x ≤ msum f m.
Proof.
  intros E Hk. rewrite (msum_delete f m k x Hk).
  assert (0 ≤ msum f (delete k m)); [|lia].
  apply msum_nonneg. intros k' x' Hk'.
  apply lookup_delete_Some in Hk' as [_ ?]. eauto.
Qed.

Lemma msum_sub f g m : msum f m - msum g m = msum (λ k x, f k x - g k x) m.
Proof.
  induction m as [|k x m Hk IH] using map_ind; [by rewrite !msum_empty|].
  rewrite !msum_insert by done. lia.
Qed.

Lemma msum_filter f (P : K * A → Prop) `{∀ p, Decision (P p)} m :
  msum f (filter P m) = msum (λ k x, if decide (P (k, x)) then f k x else 0) m.
Proof.
  induction m as [|k x m Hk IH] using map_ind; [by rewrite map_filter_empty, !msum_empty|].
  rewrite msum_insert by done. case_decide as HP.
  - rewrite map_filter_insert_True by done. rewrite msum_insert; [by rewrite IH|].
    rewrite map_lookup_filter_None. by left.
  - rewrite map_filter_insert_False by done. rewrite delete_id by done. lia.
Qed.

(** Only one key contributes. *)
Lemma msum_single f m k0 :
  (∀ k x, m !! k = Some x → k ≠ k0 → f k x = 0) →
  msum f m = match m !! k0 with Some x => f k0 x | None => 0 end.
Proof.
  intros E. destruct (m !! k0) as [x|] eqn:Hk.
  - rewrite (msum_delete f m k0 x Hk), msum_zero; [lia|].
    intros k y [? ?]%lookup_delete_Some. by apply E.
  - apply msum_zero. intros k y Hy. apply E; [done|]. congruence.
Qed.

Lemma msum_zero_inv f m k x :
  (∀ k x, m !! k = Some x → 0 ≤ f k x) → msum f m = 0 → m !! k = Some x → f k x = 0.
Proof.
  intros Hnn H0 Hk. pose proof (msum_pos f m k x Hnn Hk). specialize (Hnn k x Hk). lia.
Qed.
End msum.

(** ** The development's hint databases *)

Create HintDb revika.
#[export] Hint Resolve b2Z_range le_dec_range be_dec_range : revika.
Create Rewrite HintDb revika_len.
#[export] Hint Rewrite @length_app @length_be_enc @length_le_enc : revika_len.

(** ** Boolean filters and sorted lists *)

Lemma elem_of_List_filter {A} (f : A → bool) (l : list A) x :
  x ∈ List.filter f l ↔ x ∈ l ∧ f x = true.
Proof. rewrite !list_elem_of_In. apply filter_In. Qed.

Lemma sorted_lookup {A} (R : relation A) (l : list A) i j x y :
  StronglySorted R l → (i < j)%nat → l !! i = Some x → l !! j = Some y → R x y.
Proof.
  intros Hs. revert i j. induction Hs as [|a l _ IH Ha]; intros i j Hij Hi Hj; [done|].
  destruct j as [|j]; [lia|]. destruct i as [|i]; simpl in Hi, Hj; [|by apply (IH i j); [lia|..]].
  simplify_eq. rewrite Forall_forall in Ha. by eapply Ha, list_elem_of_lookup_2.
Qed.
