(* ===== verification/GoLib.v ===== *)
(** * Models of the Go standard library functions the source calls

    [encoding/hex] (used by [store.ShardID.String], [manifest.decodeKey],
    [manifest.decodeShardID]), [strings.HasPrefix], [sort] on names. Strings
    are byte strings as in Go: Rocq's [string] is a list of 8-bit characters,
    and [String.le] is Go's bytewise [<=]. *)

From Stdlib Require Import Ascii Floats.SpecFloat.
From S2P Require Import Prelude.

(** ** encoding/hex *)

Module Hex.
Definition digit (n : Z) : ascii :=
  ascii_of_N (Z.to_N (if n <? 10 then 48 + n else 87 + n)).

Definition nibble (c : ascii) : option Z :=
  let n := Z.of_N (N_of_ascii c) in
  if (48 <=? n) && (n <=? 57) then Some (n - 48)
  else if (97 <=? n) && (n <=? 102) then Some (n - 87)
  else if (65 <=? n) && (n <=? 70) then Some (n - 55)
  else None.

Fixpoint EncodeToString (b : bytes) : string :=
  match b with
  | [] => EmptyString
  | x :: b => String (digit (b2Z x / 16)) (String (digit (b2Z x mod 16)) (EncodeToString b))
  end.

Fixpoint DecodeString (s : string) : option bytes :=
  match s with
  | EmptyString => Some []
  | String c EmptyString => None
  | String c (String d s) =>
      x ← nibble c; y ← nibble d; b ← DecodeString s; Some (Z2b (16 * x + y) :: b)
  end.

Lemma nibble_digit_byte (x : byte) :
  nibble (digit (b2Z x / 16)) = Some (b2Z x / 16) ∧
  nibble (digit (b2Z x mod 16)) = Some (b2Z x mod 16).
Proof. by destruct x. Qed.

Lemma Decode_Encode b : DecodeString (EncodeToString b) = Some b.
Proof.
  induction b as [|x b IH]; [done|]. cbn [EncodeToString DecodeString].
  destruct (nibble_digit_byte x) as [-> ->]. simpl. rewrite IH. simpl.
  rewrite <-Z_div_mod_eq_full, Z2b_b2Z. done.
Qed.

#[export] Instance EncodeToString_inj : Inj (=) (=) EncodeToString.
Proof.
  intros x y E. assert (Some x = Some y) as H; [|by simplify_eq].
  by rewrite <-!Decode_Encode, E.
Qed.

(** A digit is never the dot that starts a temporary file name. *)
Lemma digit_not_dot (x : byte) : digit (b2Z x / 16) ≠ "."%char.
Proof. by destruct x. Qed.
End Hex.

(** ** strings *)

Definition HasPrefix (s p : string) : bool := String.prefix p s.

(** The first two characters of a name: [name[:2]]. *)
Definition name_fanout (s : string) : string := String.substring 0 2 s.

(** ** sort

    [sort.Slice] with the comparator [names[i] < names[j]] is modelled by a
    stable merge sort on the names. Go's [sort.Slice] is not stable, which can
    matter only for equal names; the callers sort lists without equal names,
    or are proved insensitive to it. *)
Section sort_by.
Context {A : Type} (key : A → string).
Definition key_le (x y : A) : Prop := (key x ≤ key y)%string.
#[export] Instance key_le_dec : RelDecision key_le.
Proof. intros x y. unfold key_le. apply _. Defined.
#[export] Instance key_le_total : Total key_le.
Proof. intros x y. unfold key_le. apply (total String.le). Qed.
#[export] Instance key_le_trans : Transitive key_le.
Proof. intros x y z. unfold key_le. apply (transitivity (R:=String.le)). Qed.

Definition sort_by (l : list A) : list A := merge_sort key_le l.

Lemma sort_by_perm l : sort_by l ≡ₚ l.
Proof. apply merge_sort_Permutation. Qed.

Lemma sort_by_sorted l : StronglySorted key_le (sort_by l).
Proof. apply StronglySorted_merge_sort; apply _. Qed.
End sort_by.

(** SQL's ORDER BY an integer column, then a BLOB column (compared bytewise):
    sorting on an integer, ties broken by a byte string. *)
Definition bytes_key (b : bytes) : string := String.string_of_list_byte b.

Section sort_by2.
Context {A : Type} (num : A → Z) (key : A → string).
Definition lex_le (x y : A) : Prop :=
  num x < num y ∨ (num x = num y ∧ (key x ≤ key y)%string).
#[export] Instance lex_le_dec : RelDecision lex_le.
Proof. intros x y. unfold lex_le. apply _. Defined.
#[export] Instance lex_le_total : Total lex_le.
Proof.
  intros x y. unfold lex_le. destruct (Z.lt_total (num x) (num y)) as [?|[E|?]]; [by auto| |by auto].
  destruct (total String.le (key x) (key y)); [left|right]; right; done.
Qed.
#[export] Instance lex_le_trans : Transitive lex_le.
Proof.
  intros x y z. unfold lex_le. intros [?|[E ?]] [?|[E' ?]]; [left; lia..|].
  right. split; [lia|]. by transitivity (key y).
Qed.

Definition sort_by2 (l : list A) : list A := merge_sort lex_le l.

Lemma sort_by2_perm l : sort_by2 l ≡ₚ l.
Proof. apply merge_sort_Permutation. Qed.
Lemma sort_by2_sorted l : StronglySorted lex_le (sort_by2 l).
Proof. apply StronglySorted_merge_sort; apply _. Qed.
End sort_by2.

(** Two lists sorted on pairwise distinct keys and with the same elements are
    the same list: sorting is canonical. *)
Lemma sorted_unique {A} (key : A → string) (l k : list A) :
  NoDup (key <$> l) → l ≡ₚ k →
  StronglySorted (key_le key) l → StronglySorted (key_le key) k → l = k.
Proof.
  intros Hnd Hp. revert k Hp. induction l as [|x l IH]; intros k Hp Hl Hk.
  { by apply Permutation_nil_l in Hp. }
  destruct k as [|y k]; [by apply Permutation_nil_r in Hp|].
  inversion Hl as [|?? Hl' Hx]; inversion Hk as [|?? Hk' Hy]; subst.
  simpl in Hnd. apply NoDup_cons in Hnd as [Hxn Hnd].
  assert (x = y) as ->.
  { assert (y ∈ x :: l) as Hyin by (rewrite Hp; set_solver).
    assert (x ∈ y :: k) as Hxin by (rewrite <-Hp; set_solver).
    apply elem_of_cons in Hyin as [->|Hyin]; [done|].
    apply elem_of_cons in Hxin as [->|Hxin]; [done|].
    rewrite Forall_forall in Hx, Hy.
    specialize (Hx _ Hyin). specialize (Hy _ Hxin). unfold key_le in *.
    exfalso. apply Hxn. replace (key x) with (key y) by (by apply (anti_symm String.le)).
    by apply list_elem_of_fmap_2. }
  f_equal. apply IH; [done| |done|done]. by apply Permutation_cons_inv in Hp.
Qed.

(** ** time

    A [time.Time] is its nanosecond count since the Unix epoch, a
    [time.Duration] an int64 count of nanoseconds. *)
Definition Second : Z := 1000000000.
Definition Minute : Z := 60 * Second.
Definition Unix (t : Z) : Z := t / Second.
Definition FromUnix (s : Z) : Z := s * Second.

(** [t.Sub(u)] saturates at the bounds of an int64 duration. *)
Definition Sub (t u : Z) : Z := Z.max (- 2 ^ 63) (Z.min (t - u) (2 ^ 63 - 1)).

Lemma Sub_exact t u : in_i64 (t - u) → Sub t u = t - u.
Proof. unfold Sub, in_i64. lia. Qed.

Lemma Sub_nonneg t u : 0 ≤ Sub t u ↔ u ≤ t.
Proof. unfold Sub. lia. Qed.

(** ** float64

    IEEE 754 binary64 with round-to-nearest-even, by the standard library's
    executable [SpecFloat]; no fused multiply-add. [to_i64] is Go's conversion:
    truncation, with amd64's result [-2^63] when the value does not fit. *)
Module F64.
Definition t : Set := spec_float.
Definition of_Z (z : Z) : t := binary_normalize 53 1024 z 0 false.
Definition add : t → t → t := SFadd 53 1024.
Definition sub : t → t → t := SFsub 53 1024.
Definition mul : t → t → t := SFmul 53 1024.
Definition div : t → t → t := SFdiv 53 1024.
Definition leb : t → t → bool := SFleb.
Definition ltb : t → t → bool := SFltb.

Definition trunc (x : t) : option Z :=
  match x with
  | S754_zero _ => Some 0
  | S754_finite s m e =>
      let a := if 0 <=? e then Z.pos m * 2 ^ e else Z.pos m / 2 ^ (- e) in
      Some (if s then - a else a)
  | _ => None
  end.

Definition to_i64 (x : t) : Z :=
  match trunc x with
  | Some z => if (- 2 ^ 63 <=? z) && (z <? 2 ^ 63) then z else - 2 ^ 63
  | None => - 2 ^ 63
  end.

(** The quotient of two integers, to write a literal such as 0.1. *)
Definition ratio (a b : Z) : t := div (of_Z a) (of_Z b).

Example trunc_3_5 : to_i64 (ratio 7 2) = 3.
Proof. reflexivity. Qed.
Example trunc_neg : to_i64 (ratio (-7) 2) = -3.
Proof. reflexivity. Qed.
End F64.
