(* ===== verification/Store.v ===== *)
(** * internal/store: the content-addressed shard store

    [ShardID], [HashOf], the [Store] interface as a class with its laws, the
    in-memory store ([mem.go]) and the disk store ([disk.go]). The disk store
    is modelled down to the system calls of [Put], so that I/O errors and
    crashes between two calls are part of the model. [crypto/sha256] is a
    parameter: a function with 32-byte results. *)

From Stdlib Require Import Ascii.
From S2P Require Import Prelude GoLib.

(** ** Content addresses (store.go) *)

(** SHA-256, of which the code relies on the 32-byte digest only. *)
Class Sha256 := {
  Sum256 : bytes → bytes;
  Sum256_length : ∀ d, length (Sum256 d) = 32%nat;
}.

(** A shard identifier: the 32-byte array [ShardID]. *)
Abbreviation ShardID := (list Byte.byte).
Definition is_id (id : ShardID) : Prop := length id = 32%nat.

Definition HashOf `{Sha256} (data : bytes) : ShardID := Sum256 data.

Lemma HashOf_is_id `{Sha256} d : is_id (HashOf d).
Proof. apply Sum256_length. Qed.

(** [ShardID.String] *)
Definition id_string (id : ShardID) : string := Hex.EncodeToString id.

#[export] Instance id_string_inj : Inj (=) (=) id_string := Hex.EncodeToString_inj.

Inductive store_err :=
| ErrNotFound       (* store: shard not found *)
| ErrCorrupt        (* store: shard failed integrity check *)
| ErrMkdir | ErrTempFile | ErrWrite | ErrSync | ErrClose | ErrRename
| ErrOpenDir | ErrSyncDir | ErrRead | ErrStat | ErrRemove | ErrReadRoot | ErrReadSub.
#[export] Instance store_err_eq_dec : EqDecision store_err.
Proof. solve_decision. Defined.

(** ** The Store interface *)

Class Store (S : Type) := {
  Put : bytes → S → S * result store_err ShardID;
  Get : ShardID → S → result store_err bytes;
  Has : ShardID → S → result store_err bool;
  Delete : ShardID → S → S * result store_err unit;
}.

(** What a client may rely on in the states [ok] of a store: the contract of
    the comments of [store.go]. [stored s id d] is the abstract content. *)
Class StoreLaws `{Sha256} (S : Type) `{!Store S} (ok : S → Prop) := {
  put_result : ∀ s d, ok s → (Put d s).2 = Ok (HashOf d) ∧ ok (Put d s).1;
  get_sound : ∀ s id d, ok s → Get id s = Ok d → HashOf d = id;
  get_errors : ∀ s id e, ok s → Get id s = Err e → e = ErrNotFound;
  put_get_same : ∀ s d, ok s →
    Get (HashOf d) (Put d s).1 =
      match Get (HashOf d) s with Ok d' => Ok d' | Err _ => Ok d end;
  put_get_other : ∀ s d id, ok s → id ≠ HashOf d → Get id (Put d s).1 = Get id s;
  has_get : ∀ s id, ok s → Has id s = Ok (is_ok (Get id s));
  delete_ok : ∀ s id, ok s → ok (Delete id s).1;
  delete_result : ∀ s id, ok s →
    (Delete id s).2 = if is_ok (Get id s) then Ok tt else Err ErrNotFound;
  delete_get_same : ∀ s id, ok s → Get id (Delete id s).1 = Err ErrNotFound;
  delete_get_other : ∀ s id id', ok s → id ≠ id' → Get id' (Delete id s).1 = Get id' s;
}.

(** [d] does not collide with what [s] already stores under its address. *)
Definition no_collision `{Sha256} {S} `{!Store S} (d : bytes) (s : S) : Prop :=
  ∀ d', Get (HashOf d) s = Ok d' → d' = d.

Lemma put_get_fresh `{Sha256} {S} `{!Store S} {ok} `{!StoreLaws S ok} s d :
  ok s → no_collision d s → Get (HashOf d) (Put d s).1 = Ok d.
Proof.
  intros Hok Hnc. rewrite put_get_same by done.
  destruct (Get (HashOf d) s) eqn:E; [|done]. f_equal. by apply Hnc.
Qed.

(** A later Put never removes or changes a shard that is already readable. *)
Lemma put_get_keeps `{Sha256} {S} `{!Store S} {ok} `{!StoreLaws S ok} s d id x :
  ok s → Get id s = Ok x → Get id (Put d s).1 = Ok x.
Proof.
  intros Hok Hg. destruct (decide (id = HashOf d)) as [->|].
  - by rewrite put_get_same, Hg.
  - by rewrite put_get_other.
Qed.

(** ** MemStore (mem.go) *)

Module Mem.
Record MemStore := mkMem { blobs : gmap ShardID bytes }.

Definition NewMemStore : MemStore := mkMem ∅.

Definition put `{Sha256} (data : bytes) (m : MemStore) : MemStore * result store_err ShardID :=
  let id := HashOf data in
  match blobs m !! id with
  | Some _ => (m, Ok id)
  | None => (mkMem (<[id:=data]> (blobs m)), Ok id)
  end.

Definition get (id : ShardID) (m : MemStore) : result store_err bytes :=
  match blobs m !! id with
  | None => Err ErrNotFound
  | Some b => Ok b
  end.

Definition has (id : ShardID) (m : MemStore) : result store_err bool :=
  Ok (bool_decide (is_Some (blobs m !! id))).

Definition delete (id : ShardID) (m : MemStore) : MemStore * result store_err unit :=
  match blobs m !! id with
  | None => (m, Err ErrNotFound)
  | Some _ => (mkMem (base.delete id (blobs m)), Ok tt)
  end.

(** Go's map iteration order is unspecified; one order is chosen. *)
Definition list_ids (m : MemStore) : result store_err (list ShardID) :=
  Ok (map_to_list (blobs m)).*1.

#[global] Instance mem_store `{Sha256} : Store MemStore := {
  Put := put; Get := get; Has := has; Delete := delete }.

(** Every blob is filed under its own hash. *)
Definition wf `{Sha256} (m : MemStore) : Prop :=
  ∀ id d, blobs m !! id = Some d → HashOf d = id.

Lemma wf_new `{Sha256} : wf NewMemStore.
Proof. intros id d. simpl. by rewrite lookup_empty. Qed.

#[global] Instance mem_laws `{Sha256} : StoreLaws MemStore wf.
Proof.
  split; simpl; unfold wf, put, get, has, delete.
  - intros m d Hwf. destruct (blobs m !! HashOf d) eqn:E; simpl; [done|].
    split; [done|]. intros id d'. rewrite lookup_insert. case_decide; naive_solver.
  - intros m id d Hwf. case_match; naive_solver.
  - intros m id e Hwf. case_match; naive_solver.
  - intros m d Hwf. destruct (blobs m !! HashOf d) eqn:E; simpl; [by rewrite E|].
    by rewrite lookup_insert_eq.
  - intros m d id Hwf Hne. destruct (blobs m !! HashOf d); simpl; [done|].
    by rewrite lookup_insert_ne.
  - intros m id Hwf. by destruct (blobs m !! id).
  - intros m id Hwf. destruct (blobs m !! id) eqn:E; simpl; [|done].
    intros id' d [_ ?]%lookup_delete_Some. eauto.
  - intros m id Hwf. by destruct (blobs m !! id).
  - intros m id Hwf. destruct (blobs m !! id) eqn:E; simpl; [|by rewrite E].
    by rewrite lookup_delete_eq.
  - intros m id id' Hwf Hne. destruct (blobs m !! id); simpl; [|done].
    by rewrite lookup_delete_ne.
Qed.
End Mem.

(** ** DiskStore (disk.go) *)

Module Disk.
(** What a directory entry can be, below [root/ab] and below [root]. *)
Inductive subent := SFile (data : bytes) | SDir.
Inductive topent := TFile (data : bytes) | TDir (es : gmap string subent).

Record DiskStore := mkDisk { root : gmap string topent }.

Definition NewDiskStore : DiskStore := mkDisk ∅.

(** [pathFor]: the fan-out directory and the file name below it. *)
Definition pathFor (id : ShardID) : string * string :=
  let name := id_string id in (name_fanout name, name).

Inductive stat := StatOk | StatNotExist | StatOther.

Definition stat_file (dir name : string) (t : DiskStore) : stat :=
  match root t !! dir with
  | None => StatNotExist
  | Some (TFile _) => StatOther
  | Some (TDir es) => match es !! name with Some _ => StatOk | None => StatNotExist end
  end.

(** *** The system calls of Put *)

Inductive syscall :=
| MkdirAll (dir : string)
| CreateTemp (dir tmp : string)
| Write (dir tmp : string) (data : bytes)
| Sync (dir tmp : string)
| Close (dir tmp : string)
| Rename (dir tmp name : string)
| OpenDir (dir : string)
| SyncDir (dir : string).

Definition set_entry (dir name : string) (e : option subent) (t : DiskStore) : DiskStore :=
  match root t !! dir with
  | Some (TDir es) => mkDisk (<[dir := TDir (partial_alter (λ _, e) name es)]> (root t))
  | _ => t
  end.

(** The effect of a successful call; [None] when the call cannot succeed. *)
Definition exec (c : syscall) (t : DiskStore) : option DiskStore :=
  match c with
  | MkdirAll dir =>
      match root t !! dir with
      | None => Some (mkDisk (<[dir := TDir ∅]> (root t)))
      | Some (TDir _) => Some t
      | Some (TFile _) => None
      end
  | CreateTemp dir tmp =>
      match stat_file dir tmp t with
      | StatNotExist =>
          match root t !! dir with
          | Some (TDir _) => Some (set_entry dir tmp (Some (SFile [])) t)
          | _ => None
          end
      | _ => None
      end
  | Write dir tmp data => Some (set_entry dir tmp (Some (SFile data)) t)
  | Sync _ _ | Close _ _ | OpenDir _ | SyncDir _ => Some t
  | Rename dir tmp name =>
      match root t !! dir with
      | Some (TDir es) =>
          match es !! tmp, es !! name with
          | Some (SFile d), None | Some (SFile d), Some (SFile _) =>
              Some (set_entry dir name (Some (SFile d)) (set_entry dir tmp None t))
          | _, _ => None
          end
      | _ => None
      end
  end.

Definition call_err (c : syscall) : store_err :=
  match c with
  | MkdirAll _ => ErrMkdir | CreateTemp _ _ => ErrTempFile | Write _ _ _ => ErrWrite
  | Sync _ _ => ErrSync | Close _ _ => ErrClose | Rename _ _ _ => ErrRename
  | OpenDir _ => ErrOpenDir | SyncDir _ => ErrSyncDir
  end.

(** [os.Remove(tmpName)] on the error paths after the temp file exists. *)
Definition cleanup (c : syscall) (t : DiskStore) : DiskStore :=
  match c with
  | Write dir tmp _ | Sync dir tmp | Close dir tmp | Rename dir tmp _ =>
      set_entry dir tmp None t
  | _ => t
  end.

Definition prepare_calls (dir tmp : string) (data : bytes) : list syscall :=
  [MkdirAll dir; CreateTemp dir tmp; Write dir tmp data].
Definition commit_calls (dir tmp name : string) : list syscall :=
  [Sync dir tmp; Close dir tmp; Rename dir tmp name; OpenDir dir; SyncDir dir].
Definition put_calls (dir tmp name : string) (data : bytes) : list syscall :=
  prepare_calls dir tmp data ++ commit_calls dir tmp name.

(** [io c] tells whether the operating system refuses the call [c]. *)
Fixpoint run_calls (io : syscall → bool) (cs : list syscall) (t : DiskStore)
    : DiskStore * result store_err unit :=
  match cs with
  | [] => (t, Ok tt)
  | c :: cs =>
      match (if io c then None else exec c t) with
      | Some t' => run_calls io cs t'
      | None => (cleanup c t, Err (call_err c))
      end
  end.

(** [DiskStore.Put]; [rnd] is the random part of the name that
    [os.CreateTemp(dir, ".tmp-*")] chooses. *)
Definition tmp_name (rnd : string) : string := ".tmp-" +:+ rnd.

Definition put_io `{Sha256} (io : syscall → bool) (rnd : string) (data : bytes) (t : DiskStore)
    : DiskStore * result store_err ShardID :=
  let id := HashOf data in
  let '(dir, name) := pathFor id in
  match stat_file dir name t with
  | StatOk => (t, Ok id)
  | _ =>
      let '(t', r) := run_calls io (put_calls dir (tmp_name rnd) name data) t in
      (t', match r with Ok _ => Ok id | Err e => Err e end)
  end.

(** [DiskStore.Get]: reads the file and re-hashes it. *)
Definition get `{Sha256} (id : ShardID) (t : DiskStore) : result store_err bytes :=
  let '(dir, name) := pathFor id in
  match root t !! dir with
  | None => Err ErrNotFound
  | Some (TFile _) => Err ErrRead
  | Some (TDir es) =>
      match es !! name with
      | None => Err ErrNotFound
      | Some SDir => Err ErrRead
      | Some (SFile d) => if decide (HashOf d = id) then Ok d else Err ErrCorrupt
      end
  end.

Definition has (id : ShardID) (t : DiskStore) : result store_err bool :=
  let '(dir, name) := pathFor id in
  match stat_file dir name t with
  | StatOk => Ok true
  | StatNotExist => Ok false
  | StatOther => Err ErrStat
  end.

(** [os.Remove] of a directory entry: an (empty) directory is removed too. *)
Definition delete (id : ShardID) (t : DiskStore) : DiskStore * result store_err unit :=
  let '(dir, name) := pathFor id in
  match stat_file dir name t with
  | StatOk => (set_entry dir name None t, Ok tt)
  | StatNotExist => (t, Err ErrNotFound)
  | StatOther => (t, Err ErrRemove)
  end.

(** [DiskStore.List]: the names below the two-character directories that
    decode to 32 bytes. *)
Definition list_sub (es : gmap string subent) : list ShardID :=
  omap (λ '(name, e),
    match e with
    | SDir => None
    | SFile _ =>
        if HasPrefix name ".tmp-" then None
        else match Hex.DecodeString name with
             | Some raw => if decide (length raw = 32%nat) then Some raw else None
             | None => None
             end
    end) (map_to_list es).

Definition list_ids (t : DiskStore) : result store_err (list ShardID) :=
  Ok (concat (omap (λ '(dir, e),
    match e with
    | TDir es => if decide (String.length dir = 2%nat) then Some (list_sub es) else None
    | TFile _ => None
    end) (map_to_list (root t)))).

(** *** Well-formed disks

    Only fan-out directories below the root; below them only temp files and
    shards filed under their own hash, in the directory of their name. *)
Definition file_at (dir name : string) (t : DiskStore) : option subent :=
  match root t !! dir with Some (TDir es) => es !! name | _ => None end.

Record wf `{Sha256} (t : DiskStore) : Prop := {
  wf_dirs : ∀ dir e, root t !! dir = Some e →
    (∃ es, e = TDir es) ∧ String.length dir = 2%nat;
  wf_files : ∀ dir name e, file_at dir name t = Some e →
    (HasPrefix name ".tmp-" = true ∧ ∃ d, e = SFile d) ∨
    (∃ d, name = id_string (HashOf d) ∧ dir = name_fanout name ∧ e = SFile d);
}.

(** *** Names *)

Lemma id_name_prefix id : HasPrefix (id_string id) ".tmp-" = false.
Proof.
  destruct id as [|x id]; [done|].
  unfold id_string. cbn [Hex.EncodeToString]. unfold HasPrefix.
  cbn [String.prefix]. destruct (ascii_dec _ _) as [E|]; [|done].
  by destruct (Hex.digit_not_dot x).
Qed.

Lemma id_name_fanout id : is_id id → String.length (name_fanout (id_string id)) = 2%nat.
Proof.
  destruct id as [|x id]; [done|]. intros _.
  unfold name_fanout, id_string. cbn [Hex.EncodeToString String.substring].
  by destruct (Hex.EncodeToString id).
Qed.

Lemma tmp_name_prefix rnd : HasPrefix (tmp_name rnd) ".tmp-" = true.
Proof. unfold tmp_name, HasPrefix. by destruct rnd. Qed.

(** *** The effect of the calls on [file_at] *)

Lemma file_at_set_eq dir name e t es :
  root t !! dir = Some (TDir es) → file_at dir name (set_entry dir name e t) = e.
Proof.
  intros E. unfold file_at, set_entry. rewrite E. simpl. rewrite lookup_insert_eq.
  by rewrite lookup_partial_alter_eq.
Qed.

Lemma file_at_set_ne dir name e t dir' name' :
  (dir, name) ≠ (dir', name') →
  file_at dir' name' (set_entry dir name e t) = file_at dir' name' t.
Proof.
  intros Hne. unfold file_at, set_entry.
  destruct (root t !! dir) as [[d|es]|] eqn:E; [done| |done]. simpl.
  destruct (decide (dir = dir')) as [->|].
  - rewrite lookup_insert_eq, E. rewrite lookup_partial_alter_ne by naive_solver. done.
  - by rewrite lookup_insert_ne.
Qed.

Lemma root_set_entry dir name e t dir' x :
  root (set_entry dir name e t) !! dir' = Some x →
  root t !! dir' = Some x ∨
  (dir' = dir ∧ ∃ es es', root t !! dir = Some (TDir es) ∧ x = TDir es').
Proof.
  unfold set_entry. destruct (root t !! dir) as [[d|es]|] eqn:E; [by auto| |by auto].
  simpl. rewrite lookup_insert. case_decide; naive_solver.
Qed.

Lemma root_set_entry_dir dir name e t es :
  root t !! dir = Some (TDir es) →
  ∃ es', root (set_entry dir name e t) !! dir = Some (TDir es').
Proof. intros E. unfold set_entry. rewrite E. simpl. rewrite lookup_insert_eq. eauto. Qed.

Section disk.
Context `{Sha256}.

Lemma wf_set_entry dir name e t :
  wf t →
  (∀ x, e = Some x →
    (HasPrefix name ".tmp-" = true ∧ ∃ d, x = SFile d) ∨
    (∃ d, name = id_string (HashOf d) ∧ dir = name_fanout name ∧ x = SFile d)) →
  wf (set_entry dir name e t).
Proof.
  intros [Hd Hf] He. split.
  - intros dir' x [?|(-> & es & es' & Ht & ->)]%root_set_entry; [by eauto|].
    destruct (Hd _ _ Ht). eauto.
  - intros dir' name' x Hx.
    destruct (decide ((dir, name) = (dir', name'))) as [[= -> ->]|Hne].
    + destruct (root t !! dir') as [[d|es]|] eqn:E.
      * apply Hf. rewrite <-Hx. unfold file_at, set_entry. rewrite E. by rewrite E.
      * rewrite (file_at_set_eq _ _ _ _ es) in Hx by done. eauto.
      * apply Hf. rewrite <-Hx. unfold file_at, set_entry. rewrite E. by rewrite E.
    + rewrite file_at_set_ne in Hx by done. eauto.
Qed.

(** [get], [has] and [delete] in terms of [file_at], on a well-formed disk. *)
Lemma get_file_at t id : wf t →
  get id t = match file_at (pathFor id).1 (pathFor id).2 t with
             | None => Err ErrNotFound
             | Some SDir => Err ErrRead
             | Some (SFile d) => if decide (HashOf d = id) then Ok d else Err ErrCorrupt
             end.
Proof.
  intros Hwf. unfold get, file_at. simpl.
  destruct (root t !! _) as [[d|es]|] eqn:E; [|done|done].
  by destruct (wf_dirs _ Hwf _ _ E) as [[? ?] ?].
Qed.

Lemma stat_file_at t dir name : wf t →
  stat_file dir name t = match file_at dir name t with Some _ => StatOk | None => StatNotExist end.
Proof.
  intros Hwf. unfold stat_file, file_at.
  destruct (root t !! _) as [[d|es]|] eqn:E; [|done|done].
  by destruct (wf_dirs _ Hwf _ _ E) as [[? ?] ?].
Qed.

(** On a well-formed disk the file of a shard holds bytes that hash to it. *)
Lemma wf_shard_file t id e : wf t →
  file_at (pathFor id).1 (pathFor id).2 t = Some e → ∃ d, e = SFile d ∧ HashOf d = id.
Proof.
  intros Hwf Hf. destruct (wf_files _ Hwf _ _ _ Hf) as [[Hp _]|(d & Hn & _ & ->)].
  - simpl in Hp. by rewrite id_name_prefix in Hp.
  - simpl in Hn. apply (inj id_string) in Hn. eauto.
Qed.

(** *** Put: errors and crashes *)

(** [quiet t t']: the disk changed at temporary names only. *)
Definition quiet (t t' : DiskStore) : Prop :=
  wf t' ∧ ∀ dir name, HasPrefix name ".tmp-" = false → file_at dir name t' = file_at dir name t.

(** [committed data t t']: in addition the shard [data] is at its address. *)
Definition committed (data : bytes) (t t' : DiskStore) : Prop :=
  let '(dir, name) := pathFor (HashOf data) in
  wf t' ∧ file_at dir name t' = Some (SFile data) ∧
  ∀ dir' name', HasPrefix name' ".tmp-" = false → (dir, name) ≠ (dir', name') →
    file_at dir' name' t' = file_at dir' name' t.

Lemma quiet_refl t : wf t → quiet t t.
Proof. by split. Qed.
Lemma quiet_trans t1 t2 t3 : quiet t1 t2 → quiet t2 t3 → quiet t1 t3.
Proof. intros [_ H1] [W H2]. split; [done|]. intros. by rewrite H2, H1. Qed.
Lemma quiet_committed data t1 t2 t3 : quiet t1 t2 → committed data t2 t3 → committed data t1 t3.
Proof.
  intros [_ H1] (W & Hf & Ho). split; [done|]. split; [done|].
  intros dir' name' Hp Hne. by rewrite Ho, H1.
Qed.

Lemma quiet_set_tmp dir name e t :
  wf t → HasPrefix name ".tmp-" = true → (∀ x, e = Some x → ∃ d, x = SFile d) →
  quiet t (set_entry dir name e t).
Proof.
  intros Hwf Hp He. split.
  - apply wf_set_entry; [done|]. intros x ->. left. eauto.
  - intros dir' name' Hp'. apply file_at_set_ne. intros [= -> ->]. congruence.
Qed.

(** The calls of [put_calls] other than [Rename] only touch temp names. *)
Definition tmp_call (c : syscall) : Prop :=
  match c with
  | MkdirAll dir => String.length dir = 2%nat
  | CreateTemp _ tmp | Write _ tmp _ => HasPrefix tmp ".tmp-" = true
  | Rename _ _ _ => False
  | _ => True
  end.

Lemma exec_quiet c t t' : wf t → tmp_call c → exec c t = Some t' → quiet t t'.
Proof.
  intros Hwf Hc He. destruct c as [dir|dir tmp|dir tmp d|dir tmp|dir tmp|dir tmp name|dir|dir];
    simpl in *; try (simplify_eq; by apply quiet_refl); try done.
  - destruct (root t !! dir) as [[|es]|] eqn:E; simplify_eq; [by apply quiet_refl|].
    assert (∀ dir' name, file_at dir' name (mkDisk (<[dir:=TDir ∅]> (root t))) =
                         file_at dir' name t) as Hsame.
    { intros dir' name. unfold file_at. simpl. rewrite lookup_insert.
      case_decide; subst; [|done]. by rewrite E, lookup_empty. }
    split; [|by intros; apply Hsame]. split.
    + intros dir' e. simpl. rewrite lookup_insert. case_decide; [|by apply wf_dirs].
      intros [= <-]. subst. eauto.
    + intros dir' name e. rewrite Hsame. by apply wf_files.
  - destruct (stat_file dir tmp t); [done| |done].
    destruct (root t !! dir) as [[|es]|]; simplify_eq.
    apply quiet_set_tmp; naive_solver.
  - simplify_eq. apply quiet_set_tmp; naive_solver.
Qed.

Lemma exec_rename dir tmp t t' data :
  wf t → HasPrefix tmp ".tmp-" = true → dir = (pathFor (HashOf data)).1 →
  file_at dir tmp t = Some (SFile data) →
  exec (Rename dir tmp (pathFor (HashOf data)).2) t = Some t' → committed data t t'.
Proof.
  intros Hwf Hp -> Hf He. unfold committed. simpl in *.
  set (dir := name_fanout (id_string (HashOf data))) in *.
  set (name := id_string (HashOf data)) in *.
  unfold file_at in Hf. destruct (root t !! dir) as [[|es]|] eqn:E; try done.
  rewrite Hf in He.
  assert (t' = set_entry dir name (Some (SFile data)) (set_entry dir tmp None t)) as ->.
  { repeat case_match; by simplify_eq. }
  destruct (root_set_entry_dir dir tmp None t es E) as [es' E'].
  split; [|split].
  - apply wf_set_entry; [by apply wf_set_entry|]. intros x [= <-]. right. by exists data.
  - by eapply file_at_set_eq.
  - intros dir' name' Hp' Hne. rewrite !file_at_set_ne; [done| |done].
    intros [= -> ->]. congruence.
Qed.

Lemma exec_rename_some dir tmp name t d :
  file_at dir tmp t = Some (SFile d) → file_at dir name t = None →
  is_Some (exec (Rename dir tmp name) t).
Proof.
  unfold file_at. simpl. destruct (root t !! dir) as [[|es]|]; [done| |done].
  intros -> ->. eauto.
Qed.

Lemma exec_write_file dir tmp data t :
  is_Some (file_at dir tmp t) →
  ∃ t', exec (Write dir tmp data) t = Some t' ∧ file_at dir tmp t' = Some (SFile data).
Proof.
  intros [e He]. eexists. split; [done|]. unfold file_at in He.
  destruct (root t !! dir) as [[|es]|] eqn:E; try done. by eapply file_at_set_eq.
Qed.

Lemma exec_create_file dir tmp t t' :
  exec (CreateTemp dir tmp) t = Some t' → is_Some (file_at dir tmp t').
Proof.
  simpl. destruct (stat_file dir tmp t); [done| |done].
  destruct (root t !! dir) as [[|es]|] eqn:E; [done| |done]. intros [= <-].
  erewrite file_at_set_eq; eauto.
Qed.

(** The calls after the temp file is complete: commit or clean up. *)
Lemma run_commit io t data rnd :
  let '(dir, name) := pathFor (HashOf data) in let tmp := tmp_name rnd in
  wf t → file_at dir tmp t = Some (SFile data) →
  let '(t', r) := run_calls io (commit_calls dir tmp name) t in
  match r with
  | Ok _ => committed data t t'
  | Err e => (quiet t t' ∧ e ∈ [ErrSync; ErrClose; ErrRename]) ∨
             (committed data t t' ∧ e ∈ [ErrOpenDir; ErrSyncDir])
  end.
Proof.
  simpl. set (dir := name_fanout _). set (name := id_string _). intros Hwf Hf.
  assert (quiet t (set_entry dir (tmp_name rnd) None t)) as Hq.
  { apply quiet_set_tmp; [done|apply tmp_name_prefix|done]. }
  destruct (io (Sync dir _)); simpl; [left; split; [done|set_solver]|].
  destruct (io (Close dir _)); simpl; [left; split; [done|set_solver]|].
  destruct (io (Rename dir _ _)); simpl; [left; split; [done|set_solver]|].
  destruct (exec (Rename dir (tmp_name rnd) name) t) as [t'|] eqn:E; simpl in E; rewrite E;
    [|left; split; [done|set_solver]].
  assert (committed data t t') as Hc.
  { eapply exec_rename; [done|apply (tmp_name_prefix rnd)|done|done|exact E]. }
  destruct (io (OpenDir dir)); simpl; [right; split; [done|set_solver]|].
  destruct (io (SyncDir dir)); simpl; [right; split; [done|set_solver]|done].
Qed.

Lemma run_calls_app io cs1 cs2 t :
  run_calls io (cs1 ++ cs2) t =
    match run_calls io cs1 t with
    | (t', Ok _) => run_calls io cs2 t'
    | (t', Err e) => (t', Err e)
    end.
Proof.
  revert t. induction cs1 as [|c cs1 IH]; intros t; simpl; [done|].
  destruct (if io c then None else exec c t); [apply IH|done].
Qed.

Lemma run_put io t data rnd :
  let '(dir, name) := pathFor (HashOf data) in
  wf t →
  let '(t', r) := run_calls io (put_calls dir (tmp_name rnd) name data) t in
  match r with
  | Ok _ => committed data t t'
  | Err e => quiet t t' ∨ (committed data t t' ∧ e ∈ [ErrOpenDir; ErrSyncDir])
  end.
Proof.
  cbn [pathFor]. set (dir := name_fanout _). set (name := id_string _). intros Hwf.
  pose proof (tmp_name_prefix rnd) as Hp.
  assert (String.length dir = 2%nat) as Hlen by apply id_name_fanout, HashOf_is_id.
  unfold put_calls. rewrite run_calls_app. cbn [prepare_calls run_calls].
  destruct (io (MkdirAll dir)); [by left; apply quiet_refl|].
  destruct (exec (MkdirAll dir) t) as [t1|] eqn:E1; [|by left; apply quiet_refl].
  pose proof (exec_quiet (MkdirAll dir) _ _ Hwf Hlen E1) as Q1.
  destruct (io (CreateTemp dir _)); [by left|].
  destruct (exec (CreateTemp dir (tmp_name rnd)) t1) as [t2|] eqn:E2; [|by left].
  pose proof (exec_quiet (CreateTemp dir _) _ _ (proj1 Q1) Hp E2) as Q2.
  pose proof (quiet_trans _ _ _ Q1 Q2) as Q12.
  destruct (io (Write dir _ _)).
  { left. eapply quiet_trans; [exact Q12|].
    by apply quiet_set_tmp; [apply Q12| |]. }
  destruct (exec_write_file dir (tmp_name rnd) data t2) as (t3 & E3 & Hf3);
    [by eapply exec_create_file|]. rewrite E3.
  pose proof (exec_quiet (Write dir _ data) _ _ (proj1 Q12) Hp E3) as Q3.
  pose proof (quiet_trans _ _ _ Q12 Q3) as Q13.
  pose proof (run_commit io t3 data rnd (proj1 Q13) Hf3) as Hrun.
  fold dir name in Hrun. destruct (run_calls io _ t3) as [t' [[]|e]].
  - by eapply quiet_committed.
  - destruct Hrun as [[? _]|[? ?]]; [left; by eapply quiet_trans|].
    right. split; [by eapply quiet_committed|done].
Qed.

(** What [quiet] and [committed] mean for the readers of the store. *)
Lemma quiet_get t t' id : wf t → quiet t t' → get id t' = get id t.
Proof.
  intros Hwf [Hwf' Hs]. rewrite !get_file_at by done.
  rewrite Hs; [done|]. apply id_name_prefix.
Qed.

Lemma committed_get data t t' : committed data t t' → get (HashOf data) t' = Ok data.
Proof.
  intros (Hwf & Hf & _). rewrite get_file_at by done. simpl. rewrite Hf.
  by rewrite decide_True.
Qed.

Lemma committed_get_other data t t' id :
  wf t → id ≠ HashOf data → committed data t t' → get id t' = get id t.
Proof.
  intros Hwf Hne (Hwf' & _ & Ho). rewrite !get_file_at by done. simpl in *.
  rewrite Ho; [done|apply id_name_prefix|].
  intros [= _ E%(inj id_string)]. by subst.
Qed.

(** A crash of the process between two system calls of [Put], or in the
    middle of the write: the disks that [Put] can leave behind. *)
Fixpoint exec_all (cs : list syscall) (t : DiskStore) : DiskStore :=
  match cs with
  | [] => t
  | c :: cs => match exec c t with Some t' => exec_all cs t' | None => t end
  end.

Inductive put_crash (rnd : string) (data : bytes) (t : DiskStore) : DiskStore → Prop :=
| crash_present :
    stat_file (pathFor (HashOf data)).1 (pathFor (HashOf data)).2 t = StatOk →
    put_crash rnd data t t
| crash_between n :
    stat_file (pathFor (HashOf data)).1 (pathFor (HashOf data)).2 t ≠ StatOk →
    put_crash rnd data t
      (let '(dir, name) := pathFor (HashOf data) in
       exec_all (take n (put_calls dir (tmp_name rnd) name data)) t)
| crash_in_write k :
    stat_file (pathFor (HashOf data)).1 (pathFor (HashOf data)).2 t ≠ StatOk →
    put_crash rnd data t
      (let '(dir, name) := pathFor (HashOf data) in
       exec_all (prepare_calls dir (tmp_name rnd) (take k data)) t).

Lemma exec_all_quiet cs t :
  wf t → Forall tmp_call cs → quiet t (exec_all cs t).
Proof.
  intros Hwf Hcs. revert t Hwf. induction Hcs as [|c cs Hc _ IH]; intros t Hwf; simpl.
  - by apply quiet_refl.
  - destruct (exec c t) as [t'|] eqn:E; [|by apply quiet_refl].
    pose proof (exec_quiet _ _ _ Hwf Hc E) as Q.
    eapply quiet_trans; [exact Q|]. apply IH, Q.
Qed.

(** Either the preparation fails, and no later call runs, or the temp file is
    complete and the commit calls run. *)
Lemma prepare_result dir tmp data t :
  wf t → String.length dir = 2%nat → HasPrefix tmp ".tmp-" = true →
  let t' := exec_all (prepare_calls dir tmp data) t in
  (∀ cs, exec_all (prepare_calls dir tmp data ++ cs) t = t') ∨
  (quiet t t' ∧ file_at dir tmp t' = Some (SFile data) ∧
   ∀ cs, exec_all (prepare_calls dir tmp data ++ cs) t = exec_all cs t').
Proof.
  intros Hwf Hlen Hp. cbn [prepare_calls exec_all app].
  destruct (exec (MkdirAll dir) t) as [t1|] eqn:E1; [|by left].
  pose proof (exec_quiet (MkdirAll dir) _ _ Hwf Hlen E1) as Q1.
  destruct (exec (CreateTemp dir tmp) t1) as [t2|] eqn:E2; [|by left].
  pose proof (exec_quiet (CreateTemp dir tmp) _ _ (proj1 Q1) Hp E2) as Q2.
  destruct (exec_write_file dir tmp data t2) as (t3 & E3 & Hf3);
    [by eapply exec_create_file|]. rewrite E3. right.
  pose proof (exec_quiet (Write dir tmp data) _ _ (proj1 Q2) Hp E3) as Q3.
  split; [|done]. eauto using quiet_trans.
Qed.

Lemma crash_prefix_cases rnd data t n :
  let '(dir, name) := pathFor (HashOf data) in
  let t' := exec_all (take n (put_calls dir (tmp_name rnd) name data)) t in
  wf t → quiet t t' ∨ committed data t t'.
Proof.
  cbn [pathFor]. set (dir := name_fanout _). set (name := id_string _). intros Hwf.
  pose proof (tmp_name_prefix rnd) as Hp.
  assert (String.length dir = 2%nat) as Hlen by apply id_name_fanout, HashOf_is_id.
  set (tmp := tmp_name rnd) in *.
  assert (Forall tmp_call (prepare_calls dir tmp data)) as Hpre by (repeat constructor; done).
  assert (∀ u m, wf u → file_at dir tmp u = Some (SFile data) →
    let u' := exec_all (take m (commit_calls dir tmp name)) u in
    quiet u u' ∨ committed data u u') as Hcommit.
  { intros u m Hu Hf. cbn zeta.
    destruct m as [|[|[|m]]]; [by left; apply quiet_refl..|]. cbn [commit_calls take exec_all].
    change (exec (Sync dir tmp) u) with (Some u). cbn iota.
    change (exec (Close dir tmp) u) with (Some u). cbn iota.
    destruct (exec (Rename dir tmp name) u) as [u'|] eqn:E; [|by left; apply quiet_refl].
    right. replace (exec_all (take m [OpenDir dir; SyncDir dir]) u') with u'
      by (destruct m as [|[|m]]; [done|done|by destruct m]). by eapply exec_rename. }
  unfold put_calls. rewrite take_app.
  destruct (decide (n < 3)%nat).
  { replace (n - length (prepare_calls dir tmp data))%nat with 0%nat by (simpl; lia).
    rewrite take_0, app_nil_r. left. by apply exec_all_quiet; [|by apply Forall_take]. }
  rewrite (take_ge (prepare_calls _ _ _)) by (simpl; lia).
  destruct (prepare_result dir tmp data t Hwf Hlen Hp) as [Hq|(Hq & Hf & Happ)].
  - left. rewrite Hq. by apply exec_all_quiet.
  - rewrite Happ.
    destruct (Hcommit _ (n - length (prepare_calls dir tmp data))%nat (proj1 Hq) Hf);
      [left; by eapply quiet_trans|right; by eapply quiet_committed].
Qed.

(** The directory's names are left free by [os.CreateTemp]: it retries with a
    new random suffix until the name is unused. *)
Lemma substring_full s : String.substring 0 (String.length s) s = s.
Proof. induction s as [|c s IH]; simpl; [done|]. by rewrite IH. Qed.

Definition tmp_suffixes (es : gmap string subent) : gset string :=
  set_map (λ n, String.substring 5 (String.length n - 5) n) (dom es).

Lemma tmp_suffixes_free es r : r ∉ tmp_suffixes es → es !! tmp_name r = None.
Proof.
  intros Hr. apply not_elem_of_dom. intros Hin. apply Hr. unfold tmp_suffixes.
  apply elem_of_map. exists (tmp_name r). split; [|done]. simpl. by rewrite Nat.sub_0_r, substring_full.
Qed.

Definition fresh_rnd (dir : string) (t : DiskStore) : string :=
  match root t !! dir with
  | Some (TDir es) => fresh (tmp_suffixes es)
  | _ => ""
  end.

Lemma fresh_rnd_free dir t es :
  root t !! dir = Some (TDir es) → es !! tmp_name (fresh_rnd dir t) = None.
Proof.
  intros E. apply tmp_suffixes_free. unfold fresh_rnd. rewrite E. apply is_fresh.
Qed.

Definition no_fault (c : syscall) : bool := false.

(** [Put] as its callers see it when the operating system refuses nothing. *)
Definition put (data : bytes) (t : DiskStore) : DiskStore * result store_err ShardID :=
  put_io no_fault (fresh_rnd (pathFor (HashOf data)).1 t) data t.

#[global] Instance disk_store : Store DiskStore := {
  Put := put; Get := get; Has := has; Delete := delete }.

Lemma put_no_fault_ok t data :
  wf t → (put data t).2 = Ok (HashOf data).
Proof.
  intros Hwf. unfold put, put_io. cbn [pathFor].
  set (dir := name_fanout _). set (name := id_string _).
  rewrite stat_file_at by done.
  destruct (file_at dir name t) as [e|] eqn:Hf; [done|].
  unfold put_calls. cbn [prepare_calls commit_calls app run_calls no_fault].
  assert (∃ t1 es1, exec (MkdirAll dir) t = Some t1 ∧ root t1 !! dir = Some (TDir es1) ∧
            es1 !! tmp_name (fresh_rnd dir t) = None ∧ es1 !! name = None)
    as (t1 & es1 & -> & Hr1 & Htmp & Hname).
  { simpl. unfold file_at in Hf. destruct (root t !! dir) as [[d|es]|] eqn:E.
    - by destruct (wf_dirs _ Hwf _ _ E) as [[? ?] _].
    - exists t, es. split_and!; [done|done|by apply fresh_rnd_free|done].
    - eexists _, ∅. split_and!; [done| |done|done]. simpl. by rewrite lookup_insert_eq. }
  set (tmp := tmp_name (fresh_rnd dir t)) in *.
  assert (tmp ≠ name) as Hne.
  { intros Eq. pose proof (id_name_prefix (HashOf data)) as Hn.
    fold name in Hn. rewrite <-Eq in Hn. unfold tmp in Hn. by rewrite tmp_name_prefix in Hn. }
  change (tmp_name (fresh_rnd (pathFor (HashOf data)).1 t)) with tmp.
  replace (exec (CreateTemp dir tmp) t1) with (Some (set_entry dir tmp (Some (SFile [])) t1))
    by (simpl; unfold stat_file; by rewrite Hr1, Htmp).
  destruct (root_set_entry_dir dir tmp (Some (SFile [])) t1 es1 Hr1) as [es2 Hr2].
  set (t2 := set_entry dir tmp _ t1) in *. cbn iota.
  destruct (exec_write_file dir tmp data t2) as (t3 & E3 & Hf3);
    [exists (SFile []); by eapply file_at_set_eq|]. rewrite E3. cbn iota.
  change (exec (Sync dir tmp) t3) with (Some t3). cbn iota.
  change (exec (Close dir tmp) t3) with (Some t3). cbn iota.
  assert (is_Some (exec (Rename dir tmp name) t3)) as [t4 ->]; [|done].
  apply exec_rename_some with data; [done|]. simpl in E3. simplify_eq.
  unfold t2. rewrite !file_at_set_ne by congruence. unfold file_at. by rewrite Hr1.
Qed.

(** The disk store implements the interface on well-formed disks. *)
Lemma put_committed t data :
  wf t →
  (put data t = (t, Ok (HashOf data)) ∧ is_Some (file_at (pathFor (HashOf data)).1 (pathFor (HashOf data)).2 t)) ∨
  (file_at (pathFor (HashOf data)).1 (pathFor (HashOf data)).2 t = None ∧
   committed data t (put data t).1).
Proof.
  intros Hwf. pose proof (put_no_fault_ok t data Hwf) as Hok.
  unfold put, put_io in *. cbn [pathFor fst snd] in *.
  set (dir := name_fanout _) in *. set (name := id_string _) in *.
  rewrite stat_file_at in * by done.
  destruct (file_at dir name t) as [e|] eqn:Hf; [left; eauto|right; split; [done|]].
  pose proof (run_put no_fault t data (fresh_rnd dir t) Hwf) as Hrun.
  fold dir name in Hrun.
  destruct (run_calls no_fault _ t) as [t' [[]|e]]; [exact Hrun|done].
Qed.

Lemma get_cases t id : wf t →
  (get id t = Err ErrNotFound ∧ file_at (pathFor id).1 (pathFor id).2 t = None) ∨
  (∃ d, get id t = Ok d ∧ HashOf d = id ∧
        file_at (pathFor id).1 (pathFor id).2 t = Some (SFile d)).
Proof.
  intros Hwf. rewrite get_file_at by done.
  destruct (file_at _ _ t) as [e|] eqn:Hf; [right|by left].
  destruct (wf_shard_file _ _ _ Hwf Hf) as (d & -> & Hd).
  exists d. by rewrite decide_True.
Qed.

Lemma wf_put t d : wf t → wf (put d t).1.
Proof.
  intros Hwf. destruct (put_committed t d Hwf) as [[-> _]|[_ Hc]]; [done|apply Hc].
Qed.

Lemma wf_delete t id : wf t → wf (delete id t).1.
Proof.
  intros Hwf. unfold delete. simpl. rewrite stat_file_at by done.
  destruct (file_at _ _ t); simpl; [|done]. by apply wf_set_entry.
Qed.

#[global] Instance disk_laws : StoreLaws DiskStore wf.
Proof.
  split.
  - intros t d Hwf. split; [by apply put_no_fault_ok|by apply wf_put].
  - intros t id d Hwf. simpl. destruct (get_cases t id Hwf) as [[-> _]|(d' & -> & ? & _)];
      naive_solver.
  - intros t id e Hwf. simpl. destruct (get_cases t id Hwf) as [[-> _]|(d' & -> & ? & _)];
      naive_solver.
  - intros t d Hwf. simpl.
    destruct (put_committed t d Hwf) as [[-> [e He]]|[Hn Hc]]; simpl.
    + by destruct (get_cases t (HashOf d) Hwf) as [[_ ?]|(d' & -> & _)]; [congruence|].
    + rewrite (committed_get d _ _ Hc).
      by destruct (get_cases t (HashOf d) Hwf) as [[-> _]|(d' & _ & _ & ?)]; [|congruence].
  - intros t d id Hwf Hne. simpl.
    destruct (put_committed t d Hwf) as [[-> _]|[_ Hc]]; [done|].
    by apply (committed_get_other d).
  - intros t id Hwf. simpl. unfold has. simpl. rewrite stat_file_at by done.
    by destruct (get_cases t id Hwf) as [[-> E]|(d' & -> & _ & E)]; simpl in E; rewrite E.
  - intros t id Hwf. by apply wf_delete.
  - intros t id Hwf. simpl. unfold delete. simpl. rewrite stat_file_at by done.
    by destruct (get_cases t id Hwf) as [[-> E]|(d' & -> & _ & E)]; simpl in E; rewrite E.
  - intros t id Hwf. pose proof (wf_delete t id Hwf) as Hwf'. simpl.
    destruct (get_cases _ id Hwf') as [[-> _]|(d' & _ & _ & E)]; [done|exfalso].
    revert E. unfold delete. simpl. rewrite stat_file_at by done.
    destruct (file_at _ _ t) as [e|] eqn:Hf; simpl; [|congruence].
    unfold file_at in Hf. destruct (root t !! _) as [[|es]|] eqn:Hr; try done.
    by rewrite (file_at_set_eq _ _ _ _ es).
  - intros t id id' Hwf Hne. pose proof (wf_delete t id Hwf) as Hwf'. simpl.
    rewrite !get_file_at by done. unfold delete. simpl. rewrite stat_file_at by done.
    destruct (file_at _ (id_string id) t); simpl; [|done].
    rewrite file_at_set_ne; [done|]. intros [= _ E%(inj id_string)]. done.
Qed.

Lemma put_crash_cases rnd data t t' :
  wf t → put_crash rnd data t t' → quiet t t' ∨ committed data t t'.
Proof.
  intros Hwf Hc. destruct Hc as [_|n _|k _].
  - left. by apply quiet_refl.
  - by apply crash_prefix_cases.
  - left. apply exec_all_quiet; [done|]. pose proof (tmp_name_prefix rnd).
    repeat constructor; [|done..]. apply id_name_fanout, HashOf_is_id.
Qed.

Lemma list_ids_elem t id : wf t → is_id id →
  (∃ ids, list_ids t = Ok ids ∧ id ∈ ids) ↔
  is_Some (file_at (pathFor id).1 (pathFor id).2 t).
Proof.
  intros Hwf Hid. unfold list_ids. split.
  - intros (ids & [= <-] & Hin). apply list_elem_of_In, in_concat in Hin as (sub & Hsub & Hin).
    apply list_elem_of_In in Hsub. apply list_elem_of_In in Hin.
    apply list_elem_of_omap in Hsub as ([dir [d|es]] & Hdir & He); [done|].
    apply elem_of_map_to_list in Hdir. case_decide; [|done]. simplify_eq.
    unfold list_sub in Hin. apply list_elem_of_omap in Hin as ([name e] & Hname & He).
    apply elem_of_map_to_list in Hname. destruct e as [d|]; [|done].
    destruct (HasPrefix name ".tmp-") eqn:Hp; [done|].
    assert (file_at dir name t = Some (SFile d)) as Hf by (unfold file_at; by rewrite Hdir).
    destruct (wf_files _ Hwf _ _ _ Hf) as [[? _]|(d' & -> & -> & _)]; [congruence|].
    unfold id_string in He. rewrite Hex.Decode_Encode in He. case_decide; simplify_eq.
    by exists (SFile d).
  - intros [e He]. destruct (wf_shard_file _ _ _ Hwf He) as (d & -> & Hd).
    eexists. split; [done|]. unfold file_at in He.
    destruct (root t !! _) as [[|es]|] eqn:Hr; try done.
    apply list_elem_of_In, in_concat. exists (list_sub es). split; apply list_elem_of_In.
    + apply list_elem_of_omap. exists ((pathFor id).1, TDir es).
      split; [by apply elem_of_map_to_list|]. rewrite decide_True; [done|].
      by apply id_name_fanout.
    + apply list_elem_of_omap. exists ((pathFor id).2, SFile d).
      split; [by apply elem_of_map_to_list|]. simpl. rewrite id_name_prefix.
      unfold id_string. rewrite Hex.Decode_Encode. by rewrite decide_True.
Qed.
End disk.
End Disk.

(** ** The stores behave alike *)

Section observe.
Context `{Sha256}.

Inductive op := OPut (data : bytes) | OGet (id : ShardID) | OHas (id : ShardID) | ODelete (id : ShardID).
Inductive obs :=
| RPut (r : result store_err ShardID) | RGet (r : result store_err bytes)
| RHas (r : result store_err bool) | RDelete (r : result store_err unit).

Definition step {S} `{!Store S} (o : op) (s : S) : S * obs :=
  match o with
  | OPut d => let '(s', r) := Put d s in (s', RPut r)
  | OGet id => (s, RGet (Get id s))
  | OHas id => (s, RHas (Has id s))
  | ODelete id => let '(s', r) := Delete id s in (s', RDelete r)
  end.

Fixpoint observe {S} `{!Store S} (os : list op) (s : S) : list obs :=
  match os with
  | [] => []
  | o :: os => let '(s', r) := step o s in r :: observe os s'
  end.

Context {S1 S2 : Type} `{!Store S1, !Store S2} {ok1 : S1 → Prop} {ok2 : S2 → Prop}.
Context `{!StoreLaws S1 ok1, !StoreLaws S2 ok2}.

(** Two states that the interface cannot tell apart. *)
Definition same_content (s1 : S1) (s2 : S2) : Prop :=
  ok1 s1 ∧ ok2 s2 ∧ ∀ id, Get id s1 = Get id s2.

Lemma step_same o s1 s2 :
  same_content s1 s2 →
  (step o s1).2 = (step o s2).2 ∧ same_content (step o s1).1 (step o s2).1.
Proof.
  intros (Ho1 & Ho2 & Hg). destruct o as [d|id|id|id]; simpl.
  - pose proof (put_result s1 d Ho1) as [E1 O1]. pose proof (put_result s2 d Ho2) as [E2 O2].
    assert (∀ id, Get id (Put d s1).1 = Get id (Put d s2).1) as Hput.
    { intros id. destruct (decide (id = HashOf d)) as [->|].
      - by rewrite !put_get_same, Hg.
      - by rewrite !put_get_other. }
    destruct (Put d s1), (Put d s2); simpl in *; subst. done.
  - split; [by rewrite Hg|done].
  - split; [by rewrite !has_get, Hg|done].
  - pose proof (delete_result s1 id Ho1) as E1. pose proof (delete_result s2 id Ho2) as E2.
    pose proof (delete_ok s1 id Ho1) as O1. pose proof (delete_ok s2 id Ho2) as O2.
    assert (∀ id', Get id' (Delete id s1).1 = Get id' (Delete id s2).1) as Hdel.
    { intros id'. destruct (decide (id = id')) as [->|].
      - by rewrite !delete_get_same.
      - by rewrite !delete_get_other. }
    destruct (Delete id s1), (Delete id s2); simpl in *; subst. by rewrite Hg.
Qed.

Lemma observe_same os s1 s2 : same_content s1 s2 → observe os s1 = observe os s2.
Proof.
  revert s1 s2. induction os as [|o os IH]; intros s1 s2 Hs; simpl; [done|].
  destruct (step_same o s1 s2 Hs) as [E Hs'].
  destruct (step o s1), (step o s2); simpl in *. subst. f_equal. by apply IH.
Qed.
End observe.

(** ** Properties *)

(** A concrete digest function, to evaluate the model: the bytes padded with
    zeros to 32. *)
Definition pad_sha : Sha256.
Proof.
  refine {| Sum256 d := take 32 (d ++ replicate 32 Byte.x00) |}.
  intros d. rewrite length_take, length_app, length_replicate. lia.
Defined.

(** [C24] The on-disk store is indistinguishable from the in-memory map store:
    every sequence of Put, Get, Has and Delete calls returns the same results
    on both, from their constructors on. *)
Theorem disk_refines_mem `{Sha256} (ops : list op) :
  observe ops Disk.NewDiskStore = observe ops Mem.NewMemStore.
Proof.
  apply (observe_same (ok1 := Disk.wf) (ok2 := Mem.wf)).
  split; [|split].
  - split; intros *; simpl; unfold Disk.file_at; simpl; rewrite ?lookup_empty; done.
  - apply Mem.wf_new.
  - intros id. simpl. unfold Disk.get, Mem.get. simpl. by rewrite !lookup_empty.
Qed.

(** [C25] A process crash at any point of [DiskStore.Put] (between two system
    calls or inside the write) leaves a well-formed store in which every shard
    reads as before, and the shard being written reads either as before or as
    its complete bytes: no torn shard is ever served. *)
Theorem disk_put_crash_atomic `{Sha256} (rnd : string) (data : bytes) (t t' : Disk.DiskStore) :
  Disk.wf t → Disk.put_crash rnd data t t' →
  Disk.wf t' ∧
  (∀ id, id ≠ HashOf data → Disk.get id t' = Disk.get id t) ∧
  (Disk.get (HashOf data) t' = Disk.get (HashOf data) t ∨
   Disk.get (HashOf data) t' = Ok data).
Proof.
  intros Hwf Hc. destruct (Disk.put_crash_cases _ _ _ _ Hwf Hc) as [Hq|Hq].
  - split; [apply Hq|]. split; [|left]; intros; by apply Disk.quiet_get.
  - split; [apply Hq|]. split.
    + intros. by apply (Disk.committed_get_other data).
    + right. by apply Disk.committed_get with t.
Qed.

(** Crash in the middle of the write of a 3-byte shard into an empty store. *)
Lemma disk_put_crash_atomic_witness :
  let sh := pad_sha in let data := [Byte.x61; Byte.x62; Byte.x63] in
  let t := Disk.exec_all (Disk.prepare_calls "61" (Disk.tmp_name "7") [Byte.x61]) Disk.NewDiskStore in
  Disk.put_crash "7" data Disk.NewDiskStore t ∧ Disk.wf t.
Proof.
  cbn zeta.
  assert (@Disk.put_crash pad_sha "7" [Byte.x61; Byte.x62; Byte.x63] Disk.NewDiskStore
    (Disk.exec_all (Disk.prepare_calls "61" (Disk.tmp_name "7") [Byte.x61]) Disk.NewDiskStore)) as Hc
    by exact (@Disk.crash_in_write pad_sha "7" [Byte.x61; Byte.x62; Byte.x63] Disk.NewDiskStore 1
                ltac:(discriminate)).
  split; [exact Hc|].
  refine (proj1 (@disk_put_crash_atomic pad_sha "7" [Byte.x61; Byte.x62; Byte.x63]
            Disk.NewDiskStore _ _ Hc)).
  split; intros *; unfold Disk.file_at; simpl; rewrite ?lookup_empty; discriminate.
Defined.

(** Outcome of [DiskStore.Put] whatever system calls fail: on success the
    returned address is the hash and reads back bytes with that hash; on an
    error no other shard changes, and the new shard is either untouched or
    fully stored (the latter exactly for a failing directory sync, where Put
    reports an error although the shard is in place). *)
Theorem disk_put_io_outcome `{Sha256} (io : Disk.syscall → bool) (rnd : string)
    (data : bytes) (t : Disk.DiskStore) :
  Disk.wf t →
  let '(t', r) := Disk.put_io io rnd data t in
  Disk.wf t' ∧
  (∀ id, id ≠ HashOf data → Disk.get id t' = Disk.get id t) ∧
  match r with
  | Ok id => id = HashOf data ∧ ∃ d, Disk.get id t' = Ok d ∧ HashOf d = id ∧
             (Disk.get id t = Err ErrNotFound → d = data)
  | Err e => Disk.get (HashOf data) t' = Disk.get (HashOf data) t ∨
             (Disk.get (HashOf data) t' = Ok data ∧ e ∈ [ErrOpenDir; ErrSyncDir])
  end.
Proof.
  intros Hwf. pose proof (Disk.run_put io t data rnd Hwf) as Hrun.
  unfold Disk.put_io. cbn [Disk.pathFor] in *. rewrite Disk.stat_file_at by done.
  destruct (Disk.file_at _ _ t) as [e|] eqn:Hf.
  - split; [done|]. split; [done|]. split; [done|].
    destruct (Disk.get_cases t (HashOf data) Hwf) as [[_ Hn]|(d & Hg & Hd & _)].
    + simpl in Hn. congruence.
    + exists d. rewrite Hg. naive_solver.
  - destruct (Disk.run_calls io _ t) as [t' [[]|e]].
    + split; [apply Hrun|]. split; [intros; by apply (Disk.committed_get_other data)|].
      split; [done|]. exists data. split; [by apply Disk.committed_get with t|done].
    + destruct Hrun as [Hq|[Hc He]].
      * split; [apply Hq|]. split; [|left]; intros; by apply Disk.quiet_get.
      * split; [apply Hc|]. split; [intros; by apply (Disk.committed_get_other data)|].
        right. split; [by apply Disk.committed_get with t|done].
Qed.

(** The first Put into an empty store, with a failing directory sync. *)
Lemma disk_put_io_outcome_witness :
  let sh := pad_sha in let data := [Byte.x61] in
  let io c := match c with Disk.SyncDir _ => true | _ => false end in
  (Disk.put_io io "7" data Disk.NewDiskStore).2 = Err ErrSyncDir ∧
  Disk.wf (Disk.put_io io "7" data Disk.NewDiskStore).1.
Proof.
  cbn zeta. split; [vm_compute; reflexivity|].
  assert (@Disk.wf pad_sha Disk.NewDiskStore) as Hwf.
  { split; intros *; unfold Disk.file_at; simpl; rewrite ?lookup_empty; discriminate. }
  pose proof (@disk_put_io_outcome pad_sha
    (λ c, match c with Disk.SyncDir _ => true | _ => false end) "7" [Byte.x61]
    Disk.NewDiskStore Hwf) as Ho.
  destruct (Disk.put_io _ _ _ _) as [t' r]. exact (proj1 Ho).
Defined.

(** [DiskStore.List] is exact: on a well-formed store it returns precisely
    the 32-byte addresses that Has reports present, temp files and foreign
    names skipped. *)
Theorem disk_list_exact `{Sha256} (t : Disk.DiskStore) (id : ShardID) :
  Disk.wf t → is_id id →
  (∃ ids, Disk.list_ids t = Ok ids ∧ id ∈ ids) ↔ Disk.has id t = Ok true.
Proof.
  intros Hwf Hid. rewrite Disk.list_ids_elem by done.
  unfold Disk.has. cbn [Disk.pathFor fst snd]. rewrite Disk.stat_file_at by done.
  destruct (Disk.file_at _ _ t); split; naive_solver.
Qed.

Lemma disk_list_exact_witness :
  let sh := pad_sha in let id := HashOf [Byte.x61] in
  ∃ ids, Disk.list_ids (Disk.put [Byte.x61] Disk.NewDiskStore).1 = Ok ids ∧ id ∈ ids.
Proof.
  cbn zeta. apply (@disk_list_exact pad_sha).
  - apply Disk.wf_put. split; intros *; unfold Disk.file_at; simpl; rewrite ?lookup_empty; discriminate.
  - reflexivity.
  - vm_compute. reflexivity.
Defined.

(** Put does not heal: when the file at a shard's address holds bytes with
    another hash, [DiskStore.Put] of the right bytes reports success and leaves
    the disk unchanged, so Get still fails with ErrCorrupt while Has says the
    shard is present. *)
Theorem disk_put_keeps_corruption `{Sha256} (data bad : bytes) (t : Disk.DiskStore) :
  Disk.file_at (Disk.pathFor (HashOf data)).1 (Disk.pathFor (HashOf data)).2 t = Some (Disk.SFile bad) →
  HashOf bad ≠ HashOf data →
  ∀ io rnd, Disk.put_io io rnd data t = (t, Ok (HashOf data)) ∧
            Disk.get (HashOf data) t = Err ErrCorrupt ∧
            Disk.has (HashOf data) t = Ok true.
Proof.
  intros Hf Hbad io rnd. unfold Disk.put_io, Disk.get, Disk.has, Disk.stat_file.
  unfold Disk.file_at in Hf. cbn [Disk.pathFor fst snd] in *.
  destruct (Disk.root t !! _) as [[|es]|]; [done| |done]. rewrite Hf.
  by rewrite decide_False.
Qed.

Lemma disk_put_keeps_corruption_witness :
  let sh := pad_sha in let data := [Byte.x61] in
  let t := Disk.set_entry "61" (id_string (HashOf data)) (Some (Disk.SFile [Byte.x62]))
             (Disk.put data Disk.NewDiskStore).1 in
  Disk.put_io Disk.no_fault "7" data t = (t, Ok (HashOf data)).
Proof.
  cbn zeta. apply (@disk_put_keeps_corruption pad_sha [Byte.x61] [Byte.x62]).
  - vm_compute. reflexivity.
  - vm_compute. discriminate.
Defined.
