(* ===== verification/Ledger.v ===== *)
(** * internal/ledger: ownership, leases, quotas

    The five SQL tables of [ledger.go] as finite maps keyed by their primary
    keys, and every method of [Ledger] that reads or changes them as a function
    of the tables. A method runs in one transaction (or one statement), so it is
    one atomic function here; an early return before [Commit] rolls back, so it
    returns the tables unchanged. The SQL engine itself is trusted: a database
    I/O error is not modelled, and [BIGINT] columns are unbounded integers. The
    foreign key of [stripes] (with ON DELETE CASCADE) is modelled. *)

From Stdlib Require Import Floats.SpecFloat.
From S2P Require Import Prelude GoLib Store.

Abbreviation Owner := (list Byte.byte).

Inductive ledger_err :=
| ErrQuotaExceeded      (* ledger: owner quota exceeded *)
| ErrUnauthorized       (* ledger: caller does not own this shard *)
| ErrEmptyGrant         (* ledger: PutStripe requires a non-empty grant *)
| ErrForeignKey         (* the stripes row references no shards row *)
| ErrSiblingsBlob       (* stripe siblings blob is not a multiple of 32 *)
| ErrIDColumn           (* shard id column has the wrong width *)
| ErrReconcileList.     (* ledger: reconcile list *)
#[export] Instance ledger_err_eq_dec : EqDecision ledger_err.
Proof. solve_decision. Defined.

Record Options := mkOptions {
  QuotaBytes : Z;                  (* 0 = unlimited *)
  LeaseTTL : Z;                    (* nanoseconds; 0 = no expiry *)
  QuotaRamp : Z;                   (* nanoseconds; 0 = no ramp *)
  QuotaInitialFraction : F64.t;
}.

(** The rows of the tables [shards], [owners], [accounts], [stripes] and
    [revoked_grants]. *)
Record ShardRow := mkShard { size : Z; created : Z }.
Record OwnerRow := mkOwner { put_at : Z; expiry : Z }.
Record AccountRow := mkAccount { bytes_used : Z; shard_count : Z; first_seen : Z }.
Record StripeRec := mkStripeRec { st_k : Z; st_m : Z; st_siblings : bytes; st_grant : bytes }.
Record RevokedRow := mkRevoked { rv_owner : Owner; revoked_at : Z }.

Record Ledger := mkLedger {
  shards : gmap ShardID ShardRow;
  owners : gmap (ShardID * Owner) OwnerRow;
  accounts : gmap Owner AccountRow;
  stripes : gmap ShardID StripeRec;
  revoked_grants : gmap bytes RevokedRow;
}.

Definition empty_ledger : Ledger := mkLedger ∅ ∅ ∅ ∅ ∅.

Definition with_shards f l := mkLedger (f (shards l)) (owners l) (accounts l) (stripes l) (revoked_grants l).
Definition with_owners f l := mkLedger (shards l) (f (owners l)) (accounts l) (stripes l) (revoked_grants l).
Definition with_accounts f l := mkLedger (shards l) (owners l) (f (accounts l)) (stripes l) (revoked_grants l).
Definition with_stripes f l := mkLedger (shards l) (owners l) (accounts l) (f (stripes l)) (revoked_grants l).
Definition with_revoked f l := mkLedger (shards l) (owners l) (accounts l) (stripes l) (f (revoked_grants l)).

(** ** Quota *)

Definition effectiveQuota (opts : Options) (firstSeenUnix now : Z) : Z :=
  let full := QuotaBytes opts in
  if QuotaRamp opts <=? 0 then full else
  let frac := QuotaInitialFraction opts in
  if F64.leb frac (F64.of_Z 0) || F64.leb (F64.of_Z 1) frac then full else
  let age := Sub now (FromUnix firstSeenUnix) in
  if QuotaRamp opts <=? age then full else
  let age := Z.max age 0 in
  let ratio := F64.add frac (F64.mul (F64.sub (F64.of_Z 1) frac)
                               (F64.div (F64.of_Z age) (F64.of_Z (QuotaRamp opts)))) in
  Z.max (F64.to_i64 (F64.mul (F64.of_Z full) ratio)) 1.

(** ** Claims *)

Definition lease_expiry (opts : Options) (now : Z) : Z :=
  if 0 <? LeaseTTL opts then Unix (now + LeaseTTL opts) else 0.

(** The quota test of a new claim: [Some] when the claim is refused. *)
Definition quota_refuses (opts : Options) (l : Ledger) (owner : Owner) (sz now : Z) : bool :=
  (0 <? QuotaBytes opts) &&
  let '(used, firstSeen) :=
    match accounts l !! owner with
    | Some a => (bytes_used a, first_seen a)
    | None => (0, Unix now)
    end in
  (0 <? used) && (effectiveQuota opts firstSeen now <? i64 (used + sz)).

(** The account upsert of a new claim. *)
Definition charge_up (owner : Owner) (sz now : Z) (acc : gmap Owner AccountRow) : gmap Owner AccountRow :=
  match acc !! owner with
  | None => <[owner := mkAccount sz 1 (Unix now)]> acc
  | Some a => <[owner := mkAccount (bytes_used a + sz) (shard_count a + 1) (first_seen a)]> acc
  end.

Definition AddOwner (opts : Options) (id : ShardID) (owner : Owner) (sz now : Z) (l : Ledger)
    : Ledger * result ledger_err bool :=
  let exp := lease_expiry opts now in
  match owners l !! (id, owner) with
  | Some _ => (with_owners <[(id, owner) := mkOwner (Unix now) exp]> l, Ok false)
  | None =>
      if quota_refuses opts l owner sz now then (l, Err ErrQuotaExceeded)
      else
        let l1 := match shards l !! id with
                  | None => with_shards <[id := mkShard sz (Unix now)]> l
                  | Some _ => l
                  end in
        let l2 := with_owners <[(id, owner) := mkOwner (Unix now) exp]> l1 in
        (with_accounts (charge_up owner sz now) l2, Ok true)
  end.

Definition RenewLease (opts : Options) (id : ShardID) (owner : Owner) (now : Z) (l : Ledger)
    : Ledger * result ledger_err unit :=
  if LeaseTTL opts =? 0 then (l, Ok tt)
  else
    let exp := Unix (now + LeaseTTL opts) in
    match owners l !! (id, owner) with
    | None => (l, Err ErrUnauthorized)
    | Some _ => (with_owners <[(id, owner) := mkOwner (Unix now) exp]> l, Ok tt)
    end.

(** [chargeDown]: debit one shard; drop the account row at zero shards. *)
Definition charge1 (sz : Z) (a : option AccountRow) : option AccountRow :=
  match a with
  | None => None
  | Some a => let a' := mkAccount (bytes_used a - sz) (shard_count a - 1) (first_seen a) in
              if shard_count a' <=? 0 then None else Some a'
  end.
Definition chargeDown (owner : Owner) (sz : Z) (acc : gmap Owner AccountRow) : gmap Owner AccountRow :=
  partial_alter (charge1 sz) owner acc.

(** SELECT owner FROM owners WHERE shard_id=? *)
Definition owners_of (id : ShardID) (l : Ledger) : list Owner :=
  omap (λ '((id', o), _), if decide (id' = id) then Some o else None) (map_to_list (owners l)).

Definition RemoveOwner (id : ShardID) (owner : Owner) (l : Ledger)
    : Ledger * result ledger_err Z :=
  match owners l !! (id, owner), shards l !! id with
  | Some _, Some s =>
      let l1 := with_owners (delete (id, owner)) l in
      let l2 := with_accounts (chargeDown owner (size s)) l1 in
      (l2, Ok (Z.of_nat (length (owners_of id l2))))
  | _, _ => (l, Err ErrUnauthorized)
  end.

(** ** Dropping records *)

Definition dropRecordTx (id : ShardID) (l : Ledger) : Ledger * bool :=
  match shards l !! id with
  | None => (l, false)
  | Some s =>
      let l1 := with_accounts (λ acc, foldl (λ a o, chargeDown o (size s) a) acc (owners_of id l)) l in
      let l2 := with_owners (filter (λ '((id', _), _), id' ≠ id)) l1 in
      (* DELETE FROM shards; the stripes row cascades *)
      (with_stripes (delete id) (with_shards (delete id) l2), true)
  end.

Definition DropRecord (id : ShardID) (l : Ledger) : Ledger := (dropRecordTx id l).1.

(** A claim is live when the query counts it. *)
Definition live_row (expireLeases : bool) (now : Z) (r : OwnerRow) : bool :=
  if expireLeases then (expiry r =? 0) || (Unix now <=? expiry r) else true.

Definition has_live_owner (id : ShardID) (now : Z) (expireLeases : bool) (l : Ledger) : bool :=
  existsb (λ '((id', _), r), bool_decide (id' = id) && live_row expireLeases now r)
          (map_to_list (owners l)).

Definition CollectRecord (id : ShardID) (now : Z) (expireLeases : bool) (l : Ledger)
    : Ledger * bool :=
  if has_live_owner id now expireLeases l then (l, false) else dropRecordTx id l.

Definition Collectible (now : Z) (expireLeases : bool) (l : Ledger) : list ShardID :=
  List.filter (λ id, negb (has_live_owner id now expireLeases l)) (map_to_list (shards l)).*1.

(** ** Accounts *)

Definition Account (owner : Owner) (l : Ledger) : Z * Z :=
  match accounts l !! owner with
  | None => (0, 0)
  | Some a => (bytes_used a, shard_count a)
  end.

(** SELECT COUNT of the rows, COALESCE(SUM(size), 0) FROM shards, and one entry
    per account ORDER BY bytes_used DESC, owner. *)
Record StatsRes := mkStats { n_shards : Z; phys_bytes : Z; clients : Z; per_owner : list (Owner * Z * Z) }.
Definition Stats (l : Ledger) : StatsRes :=
  let os := sort_by2 (λ '(o, b, c), - b) (λ '(o, b, c), bytes_key o)
              ((λ '(o, a), (o, bytes_used a, shard_count a)) <$> map_to_list (accounts l)) in
  mkStats (Z.of_nat (base.size (shards l))) (msum (λ _ s, size s) (shards l))
          (Z.of_nat (length os)) os.

(** ** Stripe contexts *)

Record StripeRow := mkStripeRow {
  sr_id : ShardID; sr_K : Z; sr_M : Z; sr_siblings : list ShardID; sr_grant : bytes }.

Definition PutStripe (id : ShardID) (k m : Z) (siblings : list ShardID) (grant : bytes) (l : Ledger)
    : Ledger * result ledger_err unit :=
  match grant with
  | [] => (l, Err ErrEmptyGrant)
  | _ =>
      match shards l !! id with
      | None => (l, Err ErrForeignKey)
      | Some _ => (with_stripes <[id := mkStripeRec k m (concat siblings) grant]> l, Ok tt)
      end
  end.

(** [scanStripeRows] on one row. *)
Definition scanStripeRow (id : ShardID) (r : StripeRec) : result ledger_err StripeRow :=
  if decide (length id ≠ 32%nat) then Err ErrIDColumn
  else if decide ((length (st_siblings r) mod 32)%nat ≠ 0%nat) then Err ErrSiblingsBlob
  else Ok (mkStripeRow id (st_k r) (st_m r) (group 32 (st_siblings r)) (st_grant r)).

Fixpoint scan_rows (rows : list (ShardID * StripeRec)) : result ledger_err (list StripeRow) :=
  match rows with
  | [] => Ok []
  | (id, r) :: rows => x ← scanStripeRow id r; xs ← scan_rows rows; Ok (x :: xs)
  end.

Definition Stripes (l : Ledger) : result ledger_err (list StripeRow) :=
  scan_rows (map_to_list (stripes l)).

(** [ColdShards]: oldest shard row first, at most [limit] of them when positive. *)
Definition ColdShards (limit : Z) (l : Ledger) : result ledger_err (list StripeRow) :=
  let rows := omap (λ '(id, r), s ← shards l !! id; Some (id, r, created s)) (map_to_list (stripes l)) in
  let rows := sort_by2 (λ '(id, r, c), c) (λ '(id, r, c), bytes_key id) rows in
  let rows := if 0 <? limit then take (Z.to_nat limit) rows else rows in
  scan_rows ((λ '(id, r, c), (id, r)) <$> rows).

(** ** Revocation *)

Definition RevokeGrant (nonce : bytes) (owner : Owner) (now : Z) (l : Ledger) : Ledger :=
  match revoked_grants l !! nonce with
  | Some _ => l
  | None => with_revoked <[nonce := mkRevoked owner (Unix now)]> l
  end.

Definition IsGrantRevoked (nonce : bytes) (l : Ledger) : bool :=
  bool_decide (is_Some (revoked_grants l !! nonce)).

(** ** Reconcile *)

(** INSERT INTO accounts SELECT owner, SUM(size), COUNT, MIN(put_at) FROM
    owners JOIN shards GROUP BY owner. *)
Definition account_step (l : Ledger) (k : ShardID * Owner) (r : OwnerRow)
    (acc : gmap Owner AccountRow) : gmap Owner AccountRow :=
  match shards l !! k.1 with
  | None => acc
  | Some s =>
      let a := default (mkAccount 0 0 (put_at r)) (acc !! k.2) in
      <[k.2 := mkAccount (size s + bytes_used a) (1 + shard_count a) (Z.min (put_at r) (first_seen a))]> acc
  end.

Definition recomputeAccounts (l : Ledger) : Ledger :=
  with_accounts (λ _, map_fold (account_step l) ∅ (owners l)) l.

Record ReconcileReport := mkReport { OrphanBlobs : Z; DroppedRecords : Z }.

Definition Reconcile (diskIDs : list ShardID) (l : Ledger) : Ledger * ReconcileReport :=
  let ledgerIDs := (map_to_list (shards l)).*1 in
  let gone := List.filter (λ id, negb (bool_decide (id ∈ diskIDs))) ledgerIDs in
  let l1 := foldl (λ l id, DropRecord id l) l gone in
  let orphans := List.filter (λ id, negb (bool_decide (id ∈ ledgerIDs))) diskIDs in
  (recomputeAccounts l1, mkReport (Z.of_nat (length orphans)) (Z.of_nat (length gone))).

(** ** The accounting invariant *)

Definition size_of (l : Ledger) (id : ShardID) : Z := from_option size 0 (shards l !! id).

(** Bytes and shards that the [owners] table charges to [o]. *)
Definition used_by (l : Ledger) (o : Owner) : Z :=
  msum (λ k _, if decide (k.2 = o) then size_of l k.1 else 0) (owners l).
Definition count_by (l : Ledger) (o : Owner) : Z :=
  msum (λ k _, if decide (k.2 = o) then 1 else 0) (owners l).

Record wf (l : Ledger) : Prop := {
  wf_fk : ∀ id o r, owners l !! (id, o) = Some r → is_Some (shards l !! id);
  wf_account : ∀ o a, accounts l !! o = Some a →
    bytes_used a = used_by l o ∧ shard_count a = count_by l o ∧ 0 < shard_count a;
  wf_no_account : ∀ o, accounts l !! o = None → count_by l o = 0;
  wf_stripe : ∀ id r, stripes l !! id = Some r → is_Some (shards l !! id);
  wf_size : ∀ id s, shards l !! id = Some s → 0 ≤ size s;
}.

Lemma wf_empty : wf empty_ledger.
Proof. split; intros *; simpl; rewrite ?lookup_empty; done. Qed.

Lemma size_of_nonneg l id : wf l → 0 ≤ size_of l id.
Proof.
  intros Hwf. unfold size_of. destruct (shards l !! id) eqn:E; simpl; [|lia].
  by eapply wf_size.
Qed.

Lemma used_by_nonneg l o : wf l → 0 ≤ used_by l o.
Proof.
  intros Hwf. apply msum_nonneg. intros k r _. case_decide; [|lia].
  by apply size_of_nonneg.
Qed.

Lemma count_by_zero l id o : count_by l o = 0 → owners l !! (id, o) = None.
Proof.
  intros H0. destruct (owners l !! (id, o)) as [r|] eqn:E; [|done]. exfalso.
  pose proof (msum_zero_inv (λ (k : ShardID * Owner) (_ : OwnerRow), if decide (k.2 = o) then 1 else 0)
    (owners l) (id, o) r) as Hc. simpl in Hc. rewrite decide_True in Hc by done.
  enough (1 = 0) by done. apply Hc; [|done..]. intros. case_decide; lia.
Qed.

(** Sums after adding or removing the claim [(id, o)]. *)
Lemma sum_add_claim (f : ShardID → Z) l id o r o' :
  owners l !! (id, o) = None →
  msum (λ k _, if decide (k.2 = o') then f k.1 else 0) (<[(id, o) := r]> (owners l)) =
  msum (λ k _, if decide (k.2 = o') then f k.1 else 0) (owners l) +
  (if decide (o = o') then f id else 0).
Proof. intros E. rewrite msum_insert by done. simpl. lia. Qed.

Lemma sum_del_claim (f : ShardID → Z) l id o r o' :
  owners l !! (id, o) = Some r →
  msum (λ k _, if decide (k.2 = o') then f k.1 else 0) (delete (id, o) (owners l)) =
  msum (λ k _, if decide (k.2 = o') then f k.1 else 0) (owners l) -
  (if decide (o = o') then f id else 0).
Proof. intros E. rewrite (msum_delete _ (owners l) _ _ E). simpl. lia. Qed.

Lemma sum_del_shard (f : ShardID → Z) l id o :
  msum (λ k _, if decide (k.2 = o) then f k.1 else 0)
       (filter (λ '((id', _), _), id' ≠ id) (owners l)) =
  msum (λ k _, if decide (k.2 = o) then f k.1 else 0) (owners l) -
  match owners l !! (id, o) with Some _ => f id | None => 0 end.
Proof.
  rewrite msum_filter.
  match goal with |- ?G = ?F - ?X => enough (F - G = X) by lia end.
  rewrite msum_sub, (msum_single _ _ (id, o)).
  - destruct (owners l !! (id, o)); [|done]. simpl.
    rewrite decide_True by done. rewrite decide_False by naive_solver. lia.
  - intros [id' o'] r _ Hne. simpl. case_decide; [|case_decide; lia].
    subst. rewrite decide_True by naive_solver. lia.
Qed.

Lemma owners_of_elem id o l : o ∈ owners_of id l ↔ is_Some (owners l !! (id, o)).
Proof.
  unfold owners_of. rewrite list_elem_of_omap. split.
  - intros ([[id' o'] r] & Hin & Hc). apply elem_of_map_to_list in Hin.
    case_decide; simplify_eq. eauto.
  - intros [r Hr]. exists ((id, o), r). split; [by apply elem_of_map_to_list|].
    by rewrite decide_True.
Qed.

Lemma NoDup_omap_inj {A B} (f : A → option B) (l : list A) :
  NoDup l → (∀ x y b, x ∈ l → y ∈ l → f x = Some b → f y = Some b → x = y) → NoDup (omap f l).
Proof.
  induction 1 as [|x l Hx Hl IH]; intros Hinj; simpl; [constructor|].
  destruct (f x) as [b|] eqn:E; [constructor|].
  - rewrite list_elem_of_omap. intros (y & Hy & Ey). apply Hx.
    rewrite (Hinj x y b); [done|set_solver|set_solver|done|done].
  - apply IH. intros x1 x2 b1 ??. apply Hinj; set_solver.
  - apply IH. intros x1 x2 b1 ??. apply Hinj; set_solver.
Qed.

Lemma owners_of_nodup id l : NoDup (owners_of id l).
Proof.
  apply NoDup_omap_inj; [apply NoDup_map_to_list|].
  intros [[id1 o1] r1] [[id2 o2] r2] b H1%elem_of_map_to_list H2%elem_of_map_to_list E1 E2.
  repeat case_decide; simplify_eq. done.
Qed.

(** The credits of [dropRecordTx], account by account. *)
Lemma fold_chargeDown sz os acc o :
  NoDup os →
  foldl (λ a o, chargeDown o sz a) acc os !! o =
  if decide (o ∈ os) then charge1 sz (acc !! o) else acc !! o.
Proof.
  intros Hnd. revert acc. induction Hnd as [|x os Hx Hnd IH]; intros acc; cbn [foldl].
  { destruct (decide (o ∈ [])); [set_solver|done]. }
  rewrite IH. unfold chargeDown. destruct (decide (o = x)) as [->|Hne].
  - destruct (decide (x ∈ os)); [done|]. destruct (decide (x ∈ x :: os)); [|set_solver].
    by rewrite lookup_partial_alter_eq.
  - rewrite lookup_partial_alter_ne by done.
    destruct (decide (o ∈ os)) as [E|E];
      (destruct (decide (o ∈ x :: os)) as [E'|E']; rewrite elem_of_cons in E'; naive_solver).
Qed.

(** ** Every operation preserves the invariant *)

(** Replacing an existing claim's lease changes no sum. *)
Lemma used_by_renew l id o r r' o' :
  owners l !! (id, o) = Some r →
  used_by (with_owners <[(id, o) := r']> l) o' = used_by l o' ∧
  count_by (with_owners <[(id, o) := r']> l) o' = count_by l o'.
Proof.
  intros E. unfold used_by, count_by, size_of; simpl.
  rewrite !(msum_overwrite _ _ _ _ _ E). simpl. lia.
Qed.

Lemma wf_renew l id o r r' :
  wf l → owners l !! (id, o) = Some r → wf (with_owners <[(id, o) := r']> l).
Proof.
  intros Hwf E. split; simpl.
  - intros id' o' r''. rewrite lookup_insert. case_decide; [|by apply wf_fk].
    simplify_eq. intros _. by eapply wf_fk.
  - intros o' a Ha. destruct (used_by_renew l id o r r' o' E) as [-> ->].
    by apply wf_account.
  - intros o' Ha. destruct (used_by_renew l id o r r' o' E) as [_ ->].
    by apply wf_no_account.
  - by apply wf_stripe.
  - by apply wf_size.
Qed.

(** The state of a successful new claim. *)
Definition claimed (opts : Options) (id : ShardID) (owner : Owner) (sz now : Z) (l : Ledger) : Ledger :=
  let l1 := match shards l !! id with
            | None => with_shards <[id := mkShard sz (Unix now)]> l
            | Some _ => l
            end in
  with_accounts (charge_up owner sz now)
    (with_owners <[(id, owner) := mkOwner (Unix now) (lease_expiry opts now)]> l1).

(** The shard row, when present, records the size the caller charges. *)
Definition size_agrees (id : ShardID) (sz : Z) (l : Ledger) : Prop :=
  0 ≤ sz ∧ ∀ s, shards l !! id = Some s → size s = sz.

Lemma claimed_size_of opts id o sz now l id' :
  size_agrees id sz l →
  size_of (claimed opts id o sz now l) id' = if decide (id' = id) then sz else size_of l id'.
Proof.
  intros [_ Hs]. unfold claimed, size_of. simpl.
  destruct (shards l !! id) as [s|] eqn:E; simpl.
  - case_decide; subst; [rewrite E; simpl; by apply Hs|done].
  - rewrite lookup_insert. repeat case_decide; subst; simpl; congruence.
Qed.

Lemma claimed_owners opts id o sz now l :
  owners (claimed opts id o sz now l) =
  <[(id, o) := mkOwner (Unix now) (lease_expiry opts now)]> (owners l).
Proof. unfold claimed. simpl. by destruct (shards l !! id). Qed.

Lemma claimed_accounts opts id o sz now l :
  accounts (claimed opts id o sz now l) = charge_up o sz now (accounts l).
Proof. unfold claimed. simpl. by destruct (shards l !! id). Qed.

Lemma claimed_sums opts id o sz now l o' :
  wf l → size_agrees id sz l → owners l !! (id, o) = None →
  used_by (claimed opts id o sz now l) o' = used_by l o' + (if decide (o = o') then sz else 0) ∧
  count_by (claimed opts id o sz now l) o' = count_by l o' + (if decide (o = o') then 1 else 0).
Proof.
  intros Hwf Hs E. unfold used_by, count_by. rewrite claimed_owners. split.
  - rewrite (sum_add_claim (size_of (claimed opts id o sz now l)) l) by done.
    rewrite claimed_size_of by done. destruct (decide (id = id)); [|done]. f_equal.
    apply msum_ext. intros [id' o''] r Hr. simpl. case_decide; [|done].
    rewrite claimed_size_of by done. case_decide; [|done]. subst.
    destruct (wf_fk _ Hwf _ _ _ Hr) as [s Hsh]. unfold size_of. rewrite Hsh. simpl.
    by symmetry; apply Hs.
  - by rewrite (sum_add_claim (λ _, 1) l).
Qed.

Lemma wf_claimed opts id o sz now l :
  wf l → size_agrees id sz l → owners l !! (id, o) = None → wf (claimed opts id o sz now l).
Proof.
  intros Hwf Hs E.
  assert (∀ i, is_Some (shards l !! i) ∨ i = id → is_Some (shards (claimed opts id o sz now l) !! i)) as Hsh.
  { intros i Hi. unfold claimed. simpl. destruct (shards l !! id) as [s|] eqn:Es; simpl.
    - destruct Hi as [?| ->]; eauto.
    - rewrite lookup_insert. case_decide; [eauto|]. destruct Hi as [?| ->]; done. }
  split.
  - intros id' o' r. rewrite claimed_owners, lookup_insert. case_decide; simplify_eq.
    + intros _. apply Hsh. by right.
    + intros Hr. apply Hsh. left. by eapply wf_fk.
  - intros o' a. rewrite claimed_accounts.
    destruct (claimed_sums opts id o sz now l o' Hwf Hs E) as [-> ->].
    unfold charge_up. destruct (accounts l !! o) as [a0|] eqn:Ea;
      rewrite lookup_insert; case_decide; subst; intros Ha; simplify_eq/=.
    + destruct (wf_account _ Hwf _ _ Ea) as (? & ? & ?). lia.
    + destruct (wf_account _ Hwf _ _ Ha) as (? & ? & ?). lia.
    + pose proof (wf_no_account _ Hwf _ Ea) as Hc.
      assert (used_by l o' = 0); [|lia].
      apply msum_zero. intros [i o''] r Hr. simpl. case_decide; [|done]. subst.
      by rewrite (count_by_zero l i o') in Hr.
    + destruct (wf_account _ Hwf _ _ Ha) as (? & ? & ?). lia.
  - intros o'. rewrite claimed_accounts.
    destruct (claimed_sums opts id o sz now l o' Hwf Hs E) as [_ ->].
    unfold charge_up. destruct (accounts l !! o); rewrite lookup_insert; case_decide; [done| |done|];
      intros Ha; rewrite (wf_no_account _ Hwf _ Ha); lia.
  - intros id' r. unfold claimed at 1. simpl. intros Hr. apply Hsh. left.
    eapply wf_stripe; [done|]. by destruct (shards l !! id).
  - intros id' s. unfold claimed. simpl. destruct (shards l !! id); simpl; [by apply wf_size|].
    rewrite lookup_insert. case_decide; [|by apply wf_size]. intros [= <-]. apply Hs.
Qed.

(** The accounts that [charge1] leaves, against the sums it must match. *)
Lemma charge1_sums sz a a' :
  charge1 sz (Some a) = Some a' →
  bytes_used a' = bytes_used a - sz ∧ shard_count a' = shard_count a - 1 ∧ 0 < shard_count a'.
Proof.
  unfold charge1. simpl. destruct (shard_count a - 1 <=? 0) eqn:E; [done|].
  intros [= <-]. simpl. lia.
Qed.

Lemma charge1_none sz a : charge1 sz (Some a) = None → shard_count a ≤ 1.
Proof.
  unfold charge1. simpl. destruct (shard_count a - 1 <=? 0) eqn:E; [lia|done].
Qed.

Definition released (id : ShardID) (o : Owner) (s : ShardRow) (l : Ledger) : Ledger :=
  with_accounts (chargeDown o (size s)) (with_owners (delete (id, o)) l).

Lemma released_sums id o s r l o' :
  owners l !! (id, o) = Some r → shards l !! id = Some s →
  used_by (released id o s l) o' = used_by l o' - (if decide (o = o') then size s else 0) ∧
  count_by (released id o s l) o' = count_by l o' - (if decide (o = o') then 1 else 0).
Proof.
  intros E Es. unfold used_by, count_by, size_of. simpl. split.
  - rewrite (sum_del_claim (λ i, from_option size 0 (shards l !! i)) l id o r o' E).
    rewrite Es. done.
  - by rewrite (sum_del_claim (λ _, 1) l id o r o' E).
Qed.

Lemma wf_released id o s r l :
  wf l → owners l !! (id, o) = Some r → shards l !! id = Some s → wf (released id o s l).
Proof.
  intros Hwf E Es. split.
  - intros id' o' r' Hr. simpl in Hr. apply lookup_delete_Some in Hr as [_ Hr].
    exact (wf_fk _ Hwf _ _ _ Hr).
  - intros o' a Ha. destruct (released_sums id o s r l o' E Es) as [-> ->].
    simpl in Ha. unfold chargeDown in Ha. destruct (decide (o = o')) as [->|Hne].
    + rewrite lookup_partial_alter_eq in Ha. destruct (accounts l !! o') as [a0|] eqn:Ea; [|done].
      apply charge1_sums in Ha as (? & ? & ?).
      destruct (wf_account _ Hwf _ _ Ea) as (? & ? & _). lia.
    + rewrite lookup_partial_alter_ne in Ha by done.
      destruct (wf_account _ Hwf _ _ Ha) as (? & ? & ?). lia.
  - intros o' Ha. destruct (released_sums id o s r l o' E Es) as [_ ->].
    simpl in Ha. unfold chargeDown in Ha. destruct (decide (o = o')) as [->|Hne].
    + rewrite lookup_partial_alter_eq in Ha. destruct (accounts l !! o') as [a0|] eqn:Ea.
      * apply charge1_none in Ha. destruct (wf_account _ Hwf _ _ Ea) as (_ & <- & ?). lia.
      * pose proof (wf_no_account _ Hwf _ Ea) as H0. by rewrite (count_by_zero l id o' H0) in E.
    + rewrite lookup_partial_alter_ne in Ha by done. rewrite (wf_no_account _ Hwf _ Ha). lia.
  - exact (wf_stripe _ Hwf).
  - exact (wf_size _ Hwf).
Qed.

Lemma RemoveOwner_spec id o l :
  wf l →
  RemoveOwner id o l =
    match owners l !! (id, o), shards l !! id with
    | Some _, Some s =>
        (released id o s l, Ok (Z.of_nat (length (owners_of id (released id o s l)))))
    | _, _ => (l, Err ErrUnauthorized)
    end.
Proof. done. Qed.

Lemma wf_RemoveOwner id o l : wf l → wf (RemoveOwner id o l).1.
Proof.
  intros Hwf. unfold RemoveOwner.
  destruct (owners l !! (id, o)) eqn:E; [|done].
  destruct (shards l !! id) eqn:Es; [|done]. by eapply wf_released.
Qed.

(** Dropping a record: sums and accounts, owner by owner. *)
Lemma drop_sums id l o :
  wf l →
  used_by (DropRecord id l) o =
    used_by l o - (match owners l !! (id, o) with Some _ => size_of l id | None => 0 end) ∧
  count_by (DropRecord id l) o =
    count_by l o - (match owners l !! (id, o) with Some _ => 1 | None => 0 end).
Proof.
  intros Hwf. unfold DropRecord, dropRecordTx.
  destruct (shards l !! id) as [s|] eqn:Es; simpl.
  - unfold used_by, count_by. simpl. split.
    + rewrite <-(sum_del_shard (size_of l)). apply msum_ext.
      intros [i o'] r [Hr Hi]%map_lookup_filter_Some. simpl. case_decide; [|done].
      unfold size_of. simpl. rewrite lookup_delete_ne by naive_solver. done.
    + by rewrite <-(sum_del_shard (λ _, 1)).
  - destruct (owners l !! (id, o)) eqn:E; [|lia].
    destruct (wf_fk _ Hwf _ _ _ E). congruence.
Qed.

Lemma drop_accounts id l o :
  wf l →
  accounts (DropRecord id l) !! o =
    match owners l !! (id, o) with
    | Some _ => charge1 (size_of l id) (accounts l !! o)
    | None => accounts l !! o
    end.
Proof.
  intros Hwf. unfold DropRecord, dropRecordTx.
  destruct (shards l !! id) as [s|] eqn:Es; simpl.
  - rewrite fold_chargeDown by apply owners_of_nodup. unfold size_of. rewrite Es.
    destruct (decide (o ∈ owners_of id l)) as [Hin|Hin]; rewrite owners_of_elem in Hin.
    + by destruct Hin as [r ->].
    + by destruct (owners l !! (id, o)); [destruct Hin; eauto|].
  - destruct (owners l !! (id, o)) eqn:E; [|done].
    destruct (wf_fk _ Hwf _ _ _ E). congruence.
Qed.

Lemma drop_owners id l id' o r :
  wf l →
  owners (DropRecord id l) !! (id', o) = Some r ↔ owners l !! (id', o) = Some r ∧ id' ≠ id.
Proof.
  intros Hwf. unfold DropRecord, dropRecordTx.
  destruct (shards l !! id) as [s|] eqn:Es; simpl.
  - by rewrite map_lookup_filter_Some.
  - split; [|by intros [? _]]. intros E. split; [done|]. intros ->.
    destruct (wf_fk _ Hwf _ _ _ E). congruence.
Qed.

Lemma drop_shards id l : shards (DropRecord id l) = delete id (shards l).
Proof.
  unfold DropRecord, dropRecordTx. destruct (shards l !! id) eqn:E; simpl; [done|].
  by rewrite delete_id.
Qed.

Lemma wf_DropRecord id l : wf l → wf (DropRecord id l).
Proof.
  intros Hwf. split.
  - intros id' o r [Hr Hne]%drop_owners; [|done].
    rewrite drop_shards, lookup_delete_ne by done. by eapply wf_fk.
  - intros o a. rewrite drop_accounts by done. destruct (drop_sums id l o Hwf) as [-> ->].
    destruct (owners l !! (id, o)) as [r|] eqn:E.
    + destruct (accounts l !! o) as [a0|] eqn:Ea; [|done].
      intros (? & ? & ?)%charge1_sums. destruct (wf_account _ Hwf _ _ Ea) as (? & ? & _). lia.
    + intros Ha. destruct (wf_account _ Hwf _ _ Ha) as (? & ? & ?). lia.
  - intros o. rewrite drop_accounts by done. destruct (drop_sums id l o Hwf) as [_ ->].
    destruct (owners l !! (id, o)) as [r|] eqn:E.
    + destruct (accounts l !! o) as [a0|] eqn:Ea.
      * intros Hc%charge1_none. destruct (wf_account _ Hwf _ _ Ea) as (_ & <- & ?). lia.
      * pose proof (wf_no_account _ Hwf _ Ea) as H0. by rewrite (count_by_zero l id o H0) in E.
    + intros Ha. rewrite (wf_no_account _ Hwf _ Ha). lia.
  - intros id' r. rewrite drop_shards. unfold DropRecord, dropRecordTx.
    destruct (shards l !! id) eqn:Es; simpl.
    + intros [? Hr]%lookup_delete_Some. rewrite lookup_delete_ne by done. by eapply wf_stripe.
    + intros Hr. destruct (wf_stripe _ Hwf _ _ Hr) as [s Hs].
      rewrite lookup_delete_ne by congruence. eauto.
  - intros id' s. rewrite drop_shards. intros [_ ?]%lookup_delete_Some. by eapply wf_size.
Qed.

Lemma wf_CollectRecord id now ex l : wf l → wf (CollectRecord id now ex l).1.
Proof.
  intros Hwf. unfold CollectRecord. destruct (has_live_owner _ _ _ _); [done|].
  by apply (wf_DropRecord id).
Qed.

Lemma wf_AddOwner opts id o sz now l :
  wf l → size_agrees id sz l → wf (AddOwner opts id o sz now l).1.
Proof.
  intros Hwf Hs. unfold AddOwner. destruct (owners l !! (id, o)) eqn:E; simpl.
  - by eapply wf_renew.
  - destruct (quota_refuses _ _ _ _ _); [done|]. by apply (wf_claimed opts).
Qed.

Lemma wf_RenewLease opts id o now l : wf l → wf (RenewLease opts id o now l).1.
Proof.
  intros Hwf. unfold RenewLease. case_match; [done|].
  destruct (owners l !! (id, o)) eqn:E; [|done]. by eapply wf_renew.
Qed.

Lemma wf_PutStripe id k m sib g l : wf l → wf (PutStripe id k m sib g l).1.
Proof.
  intros Hwf. unfold PutStripe. destruct g; [done|].
  destruct (shards l !! id) eqn:E; [|done]. split; simpl; try apply Hwf.
  intros id' r. rewrite lookup_insert. case_decide; [|by apply wf_stripe].
  subst. rewrite E. eauto.
Qed.

Lemma wf_RevokeGrant n o now l : wf l → wf (RevokeGrant n o now l).
Proof. intros Hwf. unfold RevokeGrant. case_match; [done|]. by destruct Hwf. Qed.

(** ** Reconcile *)

(** The part of the invariant that does not speak of accounts. *)
Record wf_tables (l : Ledger) : Prop := {
  wt_fk : ∀ id o r, owners l !! (id, o) = Some r → is_Some (shards l !! id);
  wt_stripe : ∀ id r, stripes l !! id = Some r → is_Some (shards l !! id);
  wt_size : ∀ id s, shards l !! id = Some s → 0 ≤ size s;
}.

Lemma wf_wf_tables l : wf l → wf_tables l.
Proof. intros []. by split. Qed.

Lemma tables_owners_drop id l id' o :
  wf_tables l →
  owners (DropRecord id l) !! (id', o) = if decide (id' = id) then None else owners l !! (id', o).
Proof.
  intros Hwt. apply option_eq. intros r. unfold DropRecord, dropRecordTx.
  destruct (shards l !! id) as [s|] eqn:Es; simpl.
  - rewrite map_lookup_filter_Some. case_decide; naive_solver.
  - case_decide; [|done]. subst. split; [|done]. intros E.
    destruct (wt_fk _ Hwt _ _ _ E). congruence.
Qed.

Lemma tables_DropRecord id l : wf_tables l → wf_tables (DropRecord id l).
Proof.
  intros Hwt. split.
  - intros id' o r. rewrite tables_owners_drop by done. case_decide; [done|]. intros Hr.
    rewrite drop_shards, lookup_delete_ne by done. by eapply wt_fk.
  - intros id' r. rewrite drop_shards. unfold DropRecord, dropRecordTx.
    destruct (shards l !! id) eqn:Es; simpl.
    + intros [? Hr]%lookup_delete_Some. rewrite lookup_delete_ne by done. by eapply wt_stripe.
    + intros Hr. destruct (wt_stripe _ Hwt _ _ Hr) as [s Hs].
      rewrite lookup_delete_ne by congruence. eauto.
  - intros id' s. rewrite drop_shards. intros [_ ?]%lookup_delete_Some. by eapply wt_size.
Qed.

Lemma drop_all_tables gone l :
  wf_tables l →
  wf_tables (foldl (λ l id, DropRecord id l) l gone) ∧
  (∀ id, shards (foldl (λ l id, DropRecord id l) l gone) !! id =
         if decide (id ∈ gone) then None else shards l !! id) ∧
  (∀ id o, owners (foldl (λ l id, DropRecord id l) l gone) !! (id, o) =
         if decide (id ∈ gone) then None else owners l !! (id, o)).
Proof.
  revert l. induction gone as [|x gone IH]; intros l Hwt; cbn [foldl].
  { split; [done|]. by split. }
  destruct (IH _ (tables_DropRecord x l Hwt)) as (Hwt' & Hs & Ho).
  split; [done|]. split.
  - intros id. rewrite Hs, drop_shards, lookup_delete.
    destruct (decide (x = id)) as [->|]; destruct (decide (id ∈ gone)) as [E|E];
      (destruct (decide (id ∈ _ :: gone)) as [E'|E']; rewrite elem_of_cons in E'; naive_solver).
  - intros id o. rewrite Ho, tables_owners_drop by done.
    destruct (decide (id = x)) as [->|]; destruct (decide (_ ∈ gone)) as [E|E];
      (destruct (decide (_ ∈ _ :: gone)) as [E'|E']; rewrite elem_of_cons in E'; naive_solver).
Qed.

(** The GROUP BY of [recomputeAccounts] computes the sums over the join. *)
Definition join_bytes (l : Ledger) (o : Owner) (k : ShardID * Owner) (_ : OwnerRow) : Z :=
  if decide (k.2 = o) then size_of l k.1 else 0.
Definition join_rows (l : Ledger) (o : Owner) (k : ShardID * Owner) (_ : OwnerRow) : Z :=
  if decide (k.2 = o) then match shards l !! k.1 with Some _ => 1 | None => 0 end else 0.

Lemma account_fold (l : Ledger) (m : gmap (ShardID * Owner) OwnerRow) (o : Owner) :
  match map_fold (account_step l) ∅ m !! o with
  | Some a => bytes_used a = msum (join_bytes l o) m ∧
              shard_count a = msum (join_rows l o) m ∧ 0 < msum (join_rows l o) m
  | None => msum (join_rows l o) m = 0 ∧ msum (join_bytes l o) m = 0
  end.
Proof.
  apply (map_fold_weak_ind (λ acc m, match acc !! o with
    | Some a => bytes_used a = msum (join_bytes l o) m ∧
                shard_count a = msum (join_rows l o) m ∧ 0 < msum (join_rows l o) m
    | None => msum (join_rows l o) m = 0 ∧ msum (join_bytes l o) m = 0
    end)).
  - by rewrite lookup_empty, !msum_empty.
  - intros [id o'] r m' acc Hk IH. rewrite !msum_insert by done.
    unfold account_step, join_bytes at 1 3, join_rows at 1 3 5, size_of. cbn [fst snd].
    destruct (shards l !! id) as [s|] eqn:Es; simpl.
    + rewrite lookup_insert. destruct (decide (o' = o)) as [->|].
      * destruct (acc !! o) as [a|]; simpl; lia.
      * destruct (acc !! o) as [a|]; lia.
    + destruct (decide (o' = o)); destruct (acc !! o) as [a|]; lia.
Qed.

Lemma wf_recompute l : wf_tables l → wf (recomputeAccounts l).
Proof.
  intros Hwt.
  assert (∀ o, msum (join_rows l o) (owners l) = count_by l o) as Hcount.
  { intros o. apply msum_ext. intros [id o'] r Hr. unfold join_rows. simpl.
    case_decide; [|done]. by destruct (wt_fk _ Hwt _ _ _ Hr) as [s ->]. }
  split; try apply Hwt.
  - intros o a Ha. pose proof (account_fold l (owners l) o) as H.
    simpl in Ha. rewrite Ha, Hcount in H. destruct H as (? & ? & ?).
    split; [done|]. split; [done|]. unfold count_by in *. simpl in *. lia.
  - intros o Ha. pose proof (account_fold l (owners l) o) as H.
    simpl in Ha. rewrite Ha, Hcount in H. apply H.
Qed.

Lemma elem_of_shards l id : id ∈ (map_to_list (shards l)).*1 ↔ is_Some (shards l !! id).
Proof.
  rewrite list_elem_of_fmap. split.
  - intros ([id' s] & -> & Hin%elem_of_map_to_list). eauto.
  - intros [s Hs]. exists (id, s). split; [done|]. by apply elem_of_map_to_list.
Qed.

Lemma reconcile_gone (disk : list ShardID) l id :
  id ∈ List.filter (λ id, negb (bool_decide (id ∈ disk))) (map_to_list (shards l)).*1 ↔
  is_Some (shards l !! id) ∧ id ∉ disk.
Proof.
  rewrite elem_of_List_filter, elem_of_shards. destruct (bool_decide_reflect (id ∈ disk)); naive_solver.
Qed.

(** ** Live claims *)

Lemma has_live_owner_true id now ex l :
  has_live_owner id now ex l = true ↔
  ∃ o r, owners l !! (id, o) = Some r ∧ live_row ex now r = true.
Proof.
  unfold has_live_owner. rewrite existsb_exists. split.
  - intros ([[id' o] r] & Hin & Hc). apply andb_true_iff in Hc as [Hid%bool_decide_eq_true Hl].
    subst. exists o, r. split; [|done]. by apply elem_of_map_to_list, list_elem_of_In.
  - intros (o & r & Hr & Hl). exists ((id, o), r). split.
    + by apply list_elem_of_In, elem_of_map_to_list.
    + rewrite Hl, bool_decide_true; done.
Qed.

(** ** Sequences of operations *)

Inductive ledger_op :=
| LAdd (id : ShardID) (o : Owner) (sz now : Z)
| LRenew (id : ShardID) (o : Owner) (now : Z)
| LRemove (id : ShardID) (o : Owner)
| LDrop (id : ShardID)
| LCollect (id : ShardID) (now : Z) (expireLeases : bool)
| LPutStripe (id : ShardID) (k m : Z) (siblings : list ShardID) (grant : bytes)
| LRevoke (nonce : bytes) (o : Owner) (now : Z)
| LReconcile (disk : list ShardID).

Definition apply_op (opts : Options) (op : ledger_op) (l : Ledger) : Ledger :=
  match op with
  | LAdd id o sz now => (AddOwner opts id o sz now l).1
  | LRenew id o now => (RenewLease opts id o now l).1
  | LRemove id o => (RemoveOwner id o l).1
  | LDrop id => DropRecord id l
  | LCollect id now ex => (CollectRecord id now ex l).1
  | LPutStripe id k m sib g => (PutStripe id k m sib g l).1
  | LRevoke n o now => RevokeGrant n o now l
  | LReconcile disk => (Reconcile disk l).1
  end.

Definition run_ops (opts : Options) (ops : list ledger_op) : Ledger :=
  foldl (λ l op, apply_op opts op l) empty_ledger ops.

(** Shards are content-addressed: the size charged for an address is a
    function of the address. *)
Definition sized (szof : ShardID → Z) (op : ledger_op) : Prop :=
  match op with LAdd id _ sz _ => sz = szof id ∧ 0 ≤ sz | _ => True end.

Definition sizes_ok (szof : ShardID → Z) (l : Ledger) : Prop :=
  ∀ id s, shards l !! id = Some s → size s = szof id.

Lemma sizes_ok_sub szof l l' :
  sizes_ok szof l → (∀ id s, shards l' !! id = Some s → shards l !! id = Some s) → sizes_ok szof l'.
Proof. intros Hs Hsub id s Hid. by apply Hs, Hsub. Qed.

Lemma reconcile_state (disk : list ShardID) l :
  ∃ l1, wf_tables l → (Reconcile disk l).1 = recomputeAccounts l1 ∧ wf_tables l1 ∧
  (∀ id, shards l1 !! id = if decide (id ∈ disk) then shards l !! id else None) ∧
  (∀ id o, owners l1 !! (id, o) = if decide (id ∈ disk) then owners l !! (id, o) else None).
Proof.
  set (gone := List.filter (λ id, negb (bool_decide (id ∈ disk))) (map_to_list (shards l)).*1).
  exists (foldl (λ l id, DropRecord id l) l gone). intros Hwt.
  destruct (drop_all_tables gone l Hwt) as (Hwt' & Hs & Ho). fold gone.
  split; [done|]. split; [done|].
  assert (∀ id, id ∈ gone ↔ is_Some (shards l !! id) ∧ id ∉ disk) as Hgone
    by (intros; apply reconcile_gone).
  split.
  - intros id. rewrite Hs. destruct (decide (id ∈ gone)) as [E|E].
    + apply Hgone in E as [_ E]. by destruct (decide (id ∈ disk)).
    + destruct (decide (id ∈ disk)) as [|E']; [done|].
      destruct (shards l !! id) eqn:Es; [|done]. destruct E. apply Hgone. eauto.
  - intros id o. rewrite Ho. destruct (decide (id ∈ gone)) as [E|E].
    + apply Hgone in E as [_ E]. by destruct (decide (id ∈ disk)).
    + destruct (decide (id ∈ disk)) as [|E']; [done|].
      destruct (owners l !! (id, o)) as [r|] eqn:Er; [|done].
      destruct E. apply Hgone. split; [by eapply wt_fk|done].
Qed.

Lemma apply_op_wf szof opts op l :
  wf l → sizes_ok szof l → sized szof op →
  wf (apply_op opts op l) ∧ sizes_ok szof (apply_op opts op l).
Proof.
  intros Hwf Hs Hop. destruct op as [id o sz now|id o now|id o|id|id now ex|id k m sib g|n o now|disk];
    cbn [apply_op sized] in *.
  - destruct Hop as [-> Hsz]. split.
    + apply wf_AddOwner; [done|]. split; [done|]. intros s Es. by apply Hs.
    + unfold AddOwner. destruct (owners l !! (id, o)); [done|].
      destruct (quota_refuses _ _ _ _ _); [done|]. intros id' s. simpl.
      destruct (shards l !! id) eqn:Es; simpl; [by apply Hs|].
      rewrite lookup_insert. case_decide; [|by apply Hs]. intros [= <-]. by subst.
  - split; [by apply wf_RenewLease|]. unfold RenewLease. repeat case_match; done.
  - split; [by apply wf_RemoveOwner|]. unfold RemoveOwner. repeat case_match; done.
  - split; [by apply wf_DropRecord|]. eapply sizes_ok_sub; [done|]. intros id' s.
    rewrite drop_shards. by intros [_ ?]%lookup_delete_Some.
  - split; [by apply wf_CollectRecord|]. unfold CollectRecord.
    destruct (has_live_owner _ _ _ _); [done|]. eapply sizes_ok_sub; [done|]. intros id' s.
    change (dropRecordTx id l).1 with (DropRecord id l).
    rewrite drop_shards. by intros [_ ?]%lookup_delete_Some.
  - split; [by apply wf_PutStripe|]. unfold PutStripe. repeat case_match; done.
  - split; [by apply wf_RevokeGrant|]. unfold RevokeGrant. repeat case_match; done.
  - destruct (reconcile_state disk l) as [l1 Hl1].
    destruct (Hl1 (wf_wf_tables _ Hwf)) as (E & Hwt & Hsh & _). rewrite E.
    split; [by apply wf_recompute|]. intros id s. simpl. rewrite Hsh.
    case_decide; [by apply Hs|done].
Qed.

Lemma run_ops_wf szof opts ops :
  Forall (sized szof) ops → wf (run_ops opts ops) ∧ sizes_ok szof (run_ops opts ops).
Proof.
  unfold run_ops. induction ops as [|op ops IH] using rev_ind; intros Hops.
  - split; [apply wf_empty|]. intros id s. simpl. by rewrite lookup_empty.
  - apply Forall_app in Hops as [Hops Hop]. rewrite foldl_snoc.
    destruct (IH Hops). apply apply_op_wf; [done..|]. by inversion Hop.
Qed.

(** ** Bytes held per owner *)

Lemma used_by_drop id l o : wf l → used_by (DropRecord id l) o ≤ used_by l o.
Proof.
  intros Hwf. destruct (drop_sums id l o Hwf) as [-> _].
  pose proof (size_of_nonneg l id Hwf). case_match; lia.
Qed.

Lemma used_by_reconcile disk l o : wf l → used_by (Reconcile disk l).1 o ≤ used_by l o.
Proof.
  intros Hwf. unfold Reconcile. simpl.
  set (gone := List.filter _ _).
  change (used_by (foldl (λ l id, DropRecord id l) l gone) o ≤ used_by l o).
  clearbody gone. revert l Hwf. induction gone as [|x gone IH]; intros l Hwf; simpl; [lia|].
  etransitivity; [by apply IH, wf_DropRecord|]. by apply used_by_drop.
Qed.

Lemma used_by_add opts id o sz now l o' :
  wf l → size_agrees id sz l →
  used_by (AddOwner opts id o sz now l).1 o' = used_by l o' ∨
  (o' = o ∧ used_by (AddOwner opts id o sz now l).1 o' = used_by l o' + sz ∧
   quota_refuses opts l o sz now = false).
Proof.
  intros Hwf Hs. unfold AddOwner. destruct (owners l !! (id, o)) as [r|] eqn:E; simpl.
  - left. by eapply used_by_renew.
  - destruct (quota_refuses opts l o sz now) eqn:Eq; simpl; [by left|].
    change (used_by (claimed opts id o sz now l) o' = used_by l o' ∨
      o' = o ∧ used_by (claimed opts id o sz now l) o' = used_by l o' + sz ∧ false = false).
    destruct (claimed_sums opts id o sz now l o' Hwf Hs E) as [-> _].
    case_decide; [right; by subst|left; lia].
Qed.

(** The quota test in terms of the invariant: an accepted charge that is not
    the owner's first stays within the effective quota. *)
Lemma quota_accepts opts l o sz now :
  wf l → 0 < QuotaBytes opts → quota_refuses opts l o sz now = false →
  used_by l o = 0 ∨ ∃ fs, i64 (used_by l o + sz) ≤ effectiveQuota opts fs now.
Proof.
  intros Hwf Hq. unfold quota_refuses. rewrite (proj2 (Z.ltb_lt _ _) Hq). simpl.
  destruct (accounts l !! o) as [a|] eqn:Ea.
  - destruct (wf_account _ Hwf _ _ Ea) as (-> & _).
    pose proof (used_by_nonneg l o Hwf).
    destruct (0 <? used_by l o) eqn:E0; simpl; [|left; lia].
    right. exists (first_seen a). lia.
  - intros _. left. apply msum_zero. intros [i o''] r Hr. simpl. case_decide; [|done]. subst.
    by rewrite (count_by_zero l i o (wf_no_account _ Hwf _ Ea)) in Hr.
Qed.

Lemma effectiveQuota_no_ramp opts fs now :
  QuotaRamp opts ≤ 0 → effectiveQuota opts fs now = QuotaBytes opts.
Proof. intros. unfold effectiveQuota. by rewrite (proj2 (Z.leb_le _ _)). Qed.

Lemma apply_op_quota szof opts M op l :
  0 < QuotaBytes opts → QuotaRamp opts ≤ 0 → 0 ≤ M → Z.max (QuotaBytes opts) M + M < 2 ^ 63 →
  (∀ id, szof id ≤ M) → wf l → sizes_ok szof l → sized szof op →
  (∀ o, used_by l o ≤ Z.max (QuotaBytes opts) M) →
  ∀ o, used_by (apply_op opts op l) o ≤ Z.max (QuotaBytes opts) M.
Proof.
  intros Hq Hr HM Hov Hszof Hwf Hs Hop Hb o'. pose proof (Hb o') as Hb'.
  destruct op as [id o sz now|id o now|id o|id|id now ex|id k m sib g|n o now|disk];
    cbn [apply_op sized] in *.
  - destruct Hop as [-> Hsz]. pose proof (Hszof id).
    assert (size_agrees id (szof id) l) as Ha by (split; [done|]; intros s Es; by apply Hs).
    destruct (used_by_add opts id o (szof id) now l o' Hwf Ha) as [->|(-> & -> & Hacc)]; [done|].
    pose proof (used_by_nonneg l o Hwf).
    destruct (quota_accepts opts l o (szof id) now Hwf Hq Hacc) as [->|[fs Hle]]; [lia|].
    rewrite effectiveQuota_no_ramp in Hle by done. rewrite i64_id in Hle; [lia|].
    unfold in_i64. lia.
  - unfold RenewLease. case_match; [done|]. destruct (owners l !! (id, o)) eqn:E; [|done]. simpl.
    by rewrite (proj1 (used_by_renew l id o _ _ o' E)).
  - unfold RemoveOwner. destruct (owners l !! (id, o)) eqn:E; [|done].
    destruct (shards l !! id) as [s|] eqn:Es; [|done]. simpl.
    change (used_by (released id o s l) o' ≤ Z.max (QuotaBytes opts) M).
    rewrite (proj1 (released_sums id o s _ l o' E Es)).
    pose proof (wf_size _ Hwf _ _ Es). case_decide; lia.
  - pose proof (used_by_drop id l o' Hwf). lia.
  - unfold CollectRecord. destruct (has_live_owner _ _ _ _); [done|].
    pose proof (used_by_drop id l o' Hwf). unfold DropRecord in *. lia.
  - unfold PutStripe. repeat case_match; done.
  - unfold RevokeGrant. repeat case_match; done.
  - pose proof (used_by_reconcile disk l o' Hwf). lia.
Qed.

(** ** Properties *)

(** A small concrete scenario for the witnesses: two owners sharing a shard. *)
Definition ex_opts : Options := mkOptions 100 (10 * Second) 0 (F64.of_Z 0).
Definition ex_id (b : byte) : ShardID := replicate 32 b.
Definition ex_alice : Owner := replicate 32 Byte.x0a.
Definition ex_bob : Owner := replicate 32 Byte.x0b.
Definition ex_ops : list ledger_op :=
  [LAdd (ex_id Byte.x01) ex_alice 40 0; LAdd (ex_id Byte.x01) ex_bob 40 Second;
   LAdd (ex_id Byte.x02) ex_bob 40 (2 * Second); LRemove (ex_id Byte.x01) ex_alice;
   LReconcile [ex_id Byte.x01]].

(** [C7] The books always balance: after any sequence of ledger operations that
    charges each content address its one size, every account row equals the sum
    of the sizes and the number of the owner's claims, an owner without an
    account row has no claim, every claim and every stripe row has its shard
    row, and no account is kept at zero. *)
Theorem ledger_books_balance (szof : ShardID → Z) (opts : Options) (ops : list ledger_op) :
  Forall (sized szof) ops →
  let l := run_ops opts ops in
  wf l ∧ ∀ o, Account o l = (used_by l o, count_by l o).
Proof.
  intros Hops l. destruct (run_ops_wf szof opts ops Hops) as [Hwf _]. fold l in Hwf.
  split; [done|]. intros o. unfold Account.
  destruct (accounts l !! o) as [a|] eqn:Ea.
  - by destruct (wf_account _ Hwf _ _ Ea) as (-> & -> & _).
  - rewrite (wf_no_account _ Hwf _ Ea). f_equal. symmetry.
    apply msum_zero. intros [i o''] r Hr. simpl. case_decide; [|done]. subst.
    by rewrite (count_by_zero l i o (wf_no_account _ Hwf _ Ea)) in Hr.
Qed.

Lemma ledger_books_balance_witness :
  Account ex_bob (run_ops ex_opts ex_ops) = (40, 1) ∧
  Account ex_bob (run_ops ex_opts ex_ops) =
    (used_by (run_ops ex_opts ex_ops) ex_bob, count_by (run_ops ex_opts ex_ops) ex_bob).
Proof.
  split; [vm_compute; reflexivity|].
  apply (ledger_books_balance (λ _, 40) ex_opts ex_ops).
  repeat constructor; simpl; lia.
Defined.

(** [C8] The quota holds in every reachable state: with a per-owner quota and no
    age ramp, no sequence of operations lets an owner hold more than the quota,
    or than one maximal shard when that is larger (the first shard is always
    admitted), as long as the sums fit an int64. *)
Theorem ledger_quota_bound (szof : ShardID → Z) (opts : Options) (M : Z) (ops : list ledger_op) (o : Owner) :
  0 < QuotaBytes opts → QuotaRamp opts ≤ 0 → 0 ≤ M →
  Z.max (QuotaBytes opts) M + M < 2 ^ 63 →
  (∀ id, szof id ≤ M) → Forall (sized szof) ops →
  (Account o (run_ops opts ops)).1 ≤ Z.max (QuotaBytes opts) M.
Proof.
  intros Hq Hr HM Hov Hszof Hops.
  assert (∀ o, used_by (run_ops opts ops) o ≤ Z.max (QuotaBytes opts) M) as Hb.
  { clear o. unfold run_ops. revert Hops. induction ops as [|op ops IH] using rev_ind; intros Hops o.
    - unfold used_by. rewrite msum_zero; [lia|]. intros k r. simpl. by rewrite lookup_empty.
    - apply Forall_app in Hops as [Hops Hop]. rewrite foldl_snoc.
      destruct (run_ops_wf szof opts ops Hops) as [Hwf Hs].
      apply (apply_op_quota szof opts M); try done; [by inversion Hop|by apply IH]. }
  destruct (run_ops_wf szof opts ops Hops) as [Hwf _]. unfold Account.
  destruct (accounts _ !! o) as [a|] eqn:Ea; simpl; [|lia].
  destruct (wf_account _ Hwf _ _ Ea) as (-> & _). apply Hb.
Qed.

(** Bob's third 40-byte shard would pass the 100-byte quota and is refused. *)
Lemma ledger_quota_bound_witness :
  let ops := ex_ops ++ [LAdd (ex_id Byte.x03) ex_bob 40 0; LAdd (ex_id Byte.x04) ex_bob 40 0] in
  (Account ex_bob (run_ops ex_opts ops)).1 = 80 ∧
  (Account ex_bob (run_ops ex_opts ops)).1 ≤ Z.max (QuotaBytes ex_opts) 40.
Proof.
  cbn zeta. split; [vm_compute; reflexivity|].
  apply (ledger_quota_bound (λ _, 40)); simpl; try lia.
  repeat constructor; simpl; lia.
Defined.

(** Owners are isolated: RemoveOwner by [o] leaves every other owner's
    claims, accounts and the shard rows untouched; it fails with
    ErrUnauthorized, changing nothing, exactly when [o] has no claim; and it
    reports 0 remaining owners exactly when no claim on the shard is left. *)
Theorem remove_owner_isolated (id : ShardID) (o : Owner) (l : Ledger) :
  wf l →
  let '(l', r) := RemoveOwner id o l in
  (∀ id' o', (id', o') ≠ (id, o) → owners l' !! (id', o') = owners l !! (id', o')) ∧
  (∀ o', o' ≠ o → accounts l' !! o' = accounts l !! o') ∧
  shards l' = shards l ∧
  match r with
  | Err e => e = ErrUnauthorized ∧ l' = l ∧ owners l !! (id, o) = None
  | Ok n => owners l' !! (id, o) = None ∧ is_Some (owners l !! (id, o)) ∧
            (n = 0 ↔ ∀ o', owners l' !! (id, o') = None)
  end.
Proof.
  intros Hwf. unfold RemoveOwner.
  destruct (owners l !! (id, o)) as [r|] eqn:E; [|by repeat split].
  destruct (wf_fk _ Hwf _ _ _ E) as [s Es]. rewrite Es. simpl.
  split_and!; [intros; by rewrite lookup_delete_ne| |done|apply lookup_delete_eq|done|].
  - intros o' Hne. unfold chargeDown. by rewrite lookup_partial_alter_ne.
  - match goal with |- Z.of_nat (length (owners_of id ?x)) = 0 ↔ _ => set (l2 := x) end.
    split.
    + intros H0 o'. destruct (owners l2 !! (id, o')) as [r'|] eqn:Er; [exfalso|done].
      assert (o' ∈ owners_of id l2) as Hin by (apply owners_of_elem; eauto).
      destruct (owners_of id l2); [by apply elem_of_nil in Hin|done].
    + intros Hno. destruct (owners_of id l2) as [|o' os] eqn:Eo; [done|exfalso].
      assert (o' ∈ owners_of id l2) as Hin by (rewrite Eo; set_solver).
      apply owners_of_elem in Hin as [r' Hr']. specialize (Hno o'). simpl in *. congruence.
Qed.

Lemma remove_owner_isolated_witness :
  let l := run_ops ex_opts (take 3 ex_ops) in
  (RemoveOwner (ex_id Byte.x02) ex_alice l).2 = Err ErrUnauthorized ∧
  accounts (RemoveOwner (ex_id Byte.x01) ex_alice l).1 !! ex_bob = accounts l !! ex_bob.
Proof.
  cbn zeta. split; [vm_compute; reflexivity|].
  assert (wf (run_ops ex_opts (take 3 ex_ops))) as Hwf
    by (apply (run_ops_wf (λ _, 40)); repeat constructor; simpl; lia).
  pose proof (remove_owner_isolated (ex_id Byte.x01) ex_alice _ Hwf) as H.
  destruct (RemoveOwner _ _ _) as [l' r]. apply H. discriminate.
Defined.

(** What AddOwner does, branch by branch: a renewal is free (only the lease
    row changes, added=false); a refused claim changes nothing; an accepted new
    claim charges the owner the shard's size once, records the shard row if it
    was missing, keeps all other claims, and is refused only when the owner
    already holds bytes and the sum exceeds the effective quota. *)
Theorem add_owner_outcomes (opts : Options) (id : ShardID) (o : Owner) (sz now : Z) (l : Ledger) :
  wf l → size_agrees id sz l →
  let '(l', r) := AddOwner opts id o sz now l in
  match r with
  | Ok false => is_Some (owners l !! (id, o)) ∧ accounts l' = accounts l ∧ shards l' = shards l ∧
                owners l' !! (id, o) = Some (mkOwner (Unix now) (lease_expiry opts now))
  | Ok true => owners l !! (id, o) = None ∧
               Account o l' = ((Account o l).1 + sz, (Account o l).2 + 1) ∧
               is_Some (shards l' !! id) ∧
               (∀ k, k ≠ (id, o) → owners l' !! k = owners l !! k) ∧
               (∀ o', o' ≠ o → accounts l' !! o' = accounts l !! o')
  | Err e => e = ErrQuotaExceeded ∧ l' = l ∧ owners l !! (id, o) = None ∧
             0 < QuotaBytes opts ∧ 0 < used_by l o
  end.
Proof.
  intros Hwf Hs. unfold AddOwner. destruct (owners l !! (id, o)) as [r|] eqn:E.
  - split_and!; [eauto|done|done|]. simpl. by rewrite lookup_insert_eq.
  - destruct (quota_refuses opts l o sz now) eqn:Eq.
    + split_and!; [done|done|done| |]; unfold quota_refuses in Eq.
      * apply andb_true_iff in Eq as [Eq _]. lia.
      * apply andb_true_iff in Eq as [_ Eq]. destruct (accounts l !! o) as [a|] eqn:Ea; [|done].
        apply andb_true_iff in Eq as [Eq _]. destruct (wf_account _ Hwf _ _ Ea) as (<- & _). lia.
    + change (with_accounts _ _) with (claimed opts id o sz now l).
      split_and!; [done| | | |].
      * unfold Account. rewrite claimed_accounts. unfold charge_up.
        destruct (accounts l !! o); by rewrite lookup_insert_eq.
      * unfold claimed. simpl. destruct (shards l !! id) eqn:Es; simpl; [eauto|].
        rewrite lookup_insert_eq. eauto.
      * intros k Hk. rewrite claimed_owners. by rewrite lookup_insert_ne.
      * intros o' Hne. rewrite claimed_accounts. unfold charge_up.
        destruct (accounts l !! o); by rewrite lookup_insert_ne.
Qed.

Lemma add_owner_outcomes_witness :
  let l := run_ops ex_opts (take 3 ex_ops) in
  (AddOwner ex_opts (ex_id Byte.x05) ex_bob 40 0 l).2 = Err ErrQuotaExceeded ∧
  (AddOwner ex_opts (ex_id Byte.x02) ex_alice 40 0 l).2 = Ok true ∧
  Account ex_alice (AddOwner ex_opts (ex_id Byte.x02) ex_alice 40 0 l).1 = (80, 2).
Proof.
  cbn zeta. split; [vm_compute; reflexivity|]. split; [vm_compute; reflexivity|].
  assert (wf (run_ops ex_opts (take 3 ex_ops))) as Hwf
    by (apply (run_ops_wf (λ _, 40)); repeat constructor; simpl; lia).
  assert (size_agrees (ex_id Byte.x02) 40 (run_ops ex_opts (take 3 ex_ops))) as Hs.
  { split; [lia|]. vm_compute. intros s [= <-]. reflexivity. }
  pose proof (add_owner_outcomes ex_opts (ex_id Byte.x02) ex_alice 40 0 _ Hwf Hs) as H.
  assert ((AddOwner ex_opts (ex_id Byte.x02) ex_alice 40 0 (run_ops ex_opts (take 3 ex_ops))).2 = Ok true) as Er
    by (vm_compute; reflexivity).
  revert H Er.
  destruct (AddOwner ex_opts (ex_id Byte.x02) ex_alice 40 0 (run_ops ex_opts (take 3 ex_ops))) as [l' r].
  simpl. intros H ->. destruct H as (_ & H & _). rewrite H. vm_compute. reflexivity.
Defined.

(** Garbage collection never drops a claimed shard: CollectRecord drops
    [id] exactly when it is still in the Collectible set of the current tables
    at that time (no owner, or with [expireLeases] only expired leases);
    otherwise the tables are unchanged, and when it drops, all rows of the
    shard, its stripe row included, are gone and nothing else is. *)
Theorem collect_exactly_collectible (id : ShardID) (now : Z) (ex : bool) (l : Ledger) :
  wf l →
  let '(l', dropped) := CollectRecord id now ex l in
  (dropped = true ↔ id ∈ Collectible now ex l) ∧
  (dropped = false → l' = l) ∧
  (dropped = true →
    (∀ o r, owners l !! (id, o) = Some r → live_row ex now r = false) ∧
    shards l' !! id = None ∧ stripes l' !! id = None ∧ (∀ o, owners l' !! (id, o) = None) ∧
    (∀ id', id' ≠ id → shards l' !! id' = shards l !! id' ∧
                       stripes l' !! id' = stripes l !! id' ∧
                       ∀ o, owners l' !! (id', o) = owners l !! (id', o))).
Proof.
  intros Hwf. unfold CollectRecord.
  assert (id ∈ Collectible now ex l ↔ is_Some (shards l !! id) ∧ has_live_owner id now ex l = false) as Hc.
  { unfold Collectible. rewrite elem_of_List_filter, elem_of_shards, negb_true_iff. done. }
  destruct (has_live_owner id now ex l) eqn:El.
  { split_and!; [rewrite Hc; naive_solver|done|done]. }
  destruct (dropRecordTx id l) as [l' b] eqn:Ed.
  assert (l' = DropRecord id l) as -> by (unfold DropRecord; by rewrite Ed).
  assert (b = true ↔ is_Some (shards l !! id)) as Hb.
  { unfold dropRecordTx in Ed. destruct (shards l !! id) as [s|]; simplify_eq/=.
    - split; [by eexists|done].
    - split; [done|by intros [? ?]]. }
  split_and!; [rewrite Hb, Hc; naive_solver| |].
  - intros ->. unfold dropRecordTx in Ed. destruct (shards l !! id); simplify_eq. done.
  - intros ->. destruct (proj1 Hb eq_refl) as [s Es].
    split_and!.
    + intros o r Hr. destruct (live_row ex now r) eqn:E; [|done].
      assert (has_live_owner id now ex l = true); [|congruence].
      apply has_live_owner_true. eauto.
    + rewrite drop_shards. apply lookup_delete_eq.
    + unfold DropRecord, dropRecordTx. rewrite Es. apply lookup_delete_eq.
    + intros o. rewrite (tables_owners_drop id l id o (wf_wf_tables _ Hwf)).
      by destruct (decide (id = id)).
    + intros id' Hne. split_and!.
      * by rewrite drop_shards, lookup_delete_ne.
      * unfold DropRecord, dropRecordTx. rewrite Es. by apply lookup_delete_ne.
      * intros o. rewrite (tables_owners_drop id l id' o (wf_wf_tables _ Hwf)).
        by destruct (decide (id' = id)).
Qed.

(** Alice's lease of 10 s on shard 1 has expired at 20 s, Bob's claim was
    renewed: nothing is collected; without Bob the shard goes. *)
Lemma collect_exactly_collectible_witness :
  let id := ex_id Byte.x01 in
  let l := run_ops ex_opts [LAdd id ex_alice 40 0] in
  let l2 := run_ops ex_opts [LAdd id ex_alice 40 0; LAdd id ex_bob 40 (15 * Second)] in
  (CollectRecord id (20 * Second) true l2).2 = false ∧
  id ∈ Collectible (20 * Second) true l.
Proof.
  cbn zeta. split; [vm_compute; reflexivity|].
  assert (wf (run_ops ex_opts [LAdd (ex_id Byte.x01) ex_alice 40 0])) as Hwf
    by (apply (run_ops_wf (λ _, 40)); repeat constructor; simpl; lia).
  pose proof (collect_exactly_collectible (ex_id Byte.x01) (20 * Second) true _ Hwf) as H.
  assert ((CollectRecord (ex_id Byte.x01) (20 * Second) true
    (run_ops ex_opts [LAdd (ex_id Byte.x01) ex_alice 40 0])).2 = true) as E
    by (vm_compute; reflexivity).
  revert H E. destruct (CollectRecord _ _ _ _) as [l' b]. simpl. intros H ->. by apply H.
Defined.

Lemma length_zero_iff {A} (l : list A) : Z.of_nat (length l) = 0 ↔ ∀ x, x ∉ l.
Proof.
  destruct l as [|a l]; simpl; split; intros H; try done.
  - intros x. apply not_elem_of_nil.
  - destruct (H a). by left.
Qed.

Lemma reconcile_orphan (disk : list ShardID) l id :
  id ∈ List.filter (λ id, negb (bool_decide (id ∈ (map_to_list (shards l)).*1))) disk ↔
  id ∈ disk ∧ ¬ is_Some (shards l !! id).
Proof.
  rewrite elem_of_List_filter, negb_true_iff, bool_decide_eq_false, elem_of_shards. tauto.
Qed.

(** Reconcile repairs drift: started from tables whose accounts are
    arbitrary, it drops exactly the records whose blob is gone, keeps the claims
    of every blob on disk, recomputes balanced accounts, and reports the number
    of dropped records and of blobs the ledger does not know. *)
Theorem reconcile_repairs (disk : list ShardID) (l : Ledger) :
  wf_tables l →
  let '(l', rep) := Reconcile disk l in
  wf l' ∧
  (∀ id, shards l' !! id = if decide (id ∈ disk) then shards l !! id else None) ∧
  (∀ id o, owners l' !! (id, o) = if decide (id ∈ disk) then owners l !! (id, o) else None) ∧
  (DroppedRecords rep = 0 ↔ ∀ id, is_Some (shards l !! id) → id ∈ disk) ∧
  (OrphanBlobs rep = 0 ↔ ∀ id, id ∈ disk → is_Some (shards l !! id)).
Proof.
  intros Hwt. destruct (reconcile_state disk l) as [l1 Hl1].
  destruct (Hl1 Hwt) as (E & Hwt1 & Hs & Ho). clear Hl1.
  destruct (Reconcile disk l) as [l' rep] eqn:ER. simpl in E. subst l'.
  assert (rep = (Reconcile disk l).2) as -> by (by rewrite ER). clear ER. cbn [Reconcile snd OrphanBlobs DroppedRecords].
  split_and!; [by apply wf_recompute|done|done| |].
  - etrans; [apply length_zero_iff|]. setoid_rewrite reconcile_gone. split.
    + intros Hz id Hid. destruct (decide (id ∈ disk)) as [|Hn]; [done|]. by destruct (Hz id).
    + intros Hall id [Hid Hn]. by apply Hn, Hall.
  - etrans; [apply length_zero_iff|]. setoid_rewrite reconcile_orphan. split.
    + intros Hz id Hid. destruct (shards l !! id) eqn:E; [done|]. destruct (Hz id). split; [done|].
      rewrite E. by intros [? ?].
    + intros Hall id [Hid Hn]. by apply Hn, Hall.
Qed.

Lemma reconcile_repairs_witness :
  let l := with_accounts (λ _, ∅) (run_ops ex_opts (take 3 ex_ops)) in
  Account ex_bob (Reconcile [ex_id Byte.x01] l).1 = (40, 1) ∧ wf (Reconcile [ex_id Byte.x01] l).1.
Proof.
  cbn zeta. split; [vm_compute; reflexivity|].
  assert (wf (run_ops ex_opts (take 3 ex_ops))) as Hwf
    by (apply (run_ops_wf (λ _, 40)); repeat constructor; simpl; lia).
  assert (wf_tables (with_accounts (λ _, ∅) (run_ops ex_opts (take 3 ex_ops)))) as Hwt.
  { destruct (wf_wf_tables _ Hwf). by split. }
  pose proof (reconcile_repairs [ex_id Byte.x01] _ Hwt) as H.
  destruct (Reconcile _ _) as [l' rep]. apply H.
Defined.

(** Every stored stripe row scans: 32-byte key, whole 32-byte siblings. *)
Definition wf_stripes (l : Ledger) : Prop :=
  map_Forall (λ id r, is_id id ∧ (length (st_siblings r) mod 32 = 0)%nat) (stripes l).

Lemma scan_rows_ok (rows : list (ShardID * StripeRec)) :
  Forall (λ '(id, r), is_id id ∧ (length (st_siblings r) mod 32 = 0)%nat) rows →
  scan_rows rows =
    Ok ((λ '(id, r), mkStripeRow id (st_k r) (st_m r) (group 32 (st_siblings r)) (st_grant r)) <$> rows).
Proof.
  induction 1 as [|[id r] rows [Hid Hs] _ IH]; [done|]. cbn [scan_rows].
  unfold scanStripeRow. destruct (decide (length id ≠ 32%nat)); [done|].
  destruct (decide _) as [Hn|_]; [done|]. simpl. by rewrite IH.
Qed.

Lemma wf_stripes_put (id : ShardID) (k m : Z) (sib : list ShardID) (grant : bytes) (l : Ledger) :
  is_id id → Forall is_id sib → wf_stripes l → wf_stripes (PutStripe id k m sib grant l).1.
Proof.
  intros Hid Hsib Hl. unfold PutStripe. repeat case_match; try done. apply map_Forall_insert_2; [|done].
  split; [done|]. cbn [st_siblings]. rewrite (length_concat_uniform 32) by done.
  apply Nat.Div0.mod_mul.
Qed.

(** Stripe contexts survive storage: over well-formed stripe rows,
    PutStripe of 32-byte sibling addresses keeps the rows well-formed and the
    Stripes scan succeeds; it returns the shard's row with the same K, M, grant
    and siblings in the same positions, and every other row as it was. *)
Theorem put_stripe_roundtrip (id : ShardID) (k m : Z) (sib : list ShardID) (grant : bytes) (l : Ledger) :
  is_id id → Forall is_id sib → grant ≠ [] → is_Some (shards l !! id) → wf_stripes l →
  ∃ rows old, Stripes (PutStripe id k m sib grant l).1 = Ok rows ∧ Stripes l = Ok old ∧
    wf_stripes (PutStripe id k m sib grant l).1 ∧
    ∀ row, row ∈ rows ↔ row = mkStripeRow id k m sib grant ∨ (row ∈ old ∧ sr_id row ≠ id).
Proof.
  intros Hid Hsib Hg Hs Hl. pose proof (wf_stripes_put id k m sib grant l Hid Hsib Hl) as Hl'.
  unfold Stripes. do 2 eexists. split; [|split; [|split; [exact Hl'|]]].
  1,2: by apply scan_rows_ok, map_Forall_to_list.
  intros row. rewrite !list_elem_of_fmap.
  assert (stripes (PutStripe id k m sib grant l).1 =
          <[id := mkStripeRec k m (concat sib) grant]> (stripes l)) as ->.
  { unfold PutStripe. destruct grant; [done|]. destruct Hs as [s ->]. done. }
  split.
  - intros ([id' r] & -> & [[<- <-]|[Hne Hr]]%elem_of_map_to_list%lookup_insert_Some).
    + left. simpl. by rewrite (group_concat 32) by (done || lia).
    + right. split; [|done]. exists (id', r). split; [done|]. by apply elem_of_map_to_list.
  - intros [->|(([id' r] & -> & Hr%elem_of_map_to_list) & Hne)].
    + exists (id, mkStripeRec k m (concat sib) grant). simpl.
      rewrite (group_concat 32) by (done || lia). split; [done|].
      apply elem_of_map_to_list. by rewrite lookup_insert_eq.
    + exists (id', r). split; [done|]. apply elem_of_map_to_list. by rewrite lookup_insert_ne.
Qed.

Lemma put_stripe_roundtrip_witness :
  let id := ex_id Byte.x01 in let sib := [id; ex_id Byte.x02; ex_id Byte.x03] in
  let l := run_ops ex_opts [LAdd id ex_alice 40 0] in
  ∃ rows, Stripes (PutStripe id 2 1 sib [Byte.x07] l).1 = Ok rows ∧
          mkStripeRow id 2 1 sib [Byte.x07] ∈ rows.
Proof.
  cbn zeta.
  destruct (put_stripe_roundtrip (ex_id Byte.x01) 2 1 [ex_id Byte.x01; ex_id Byte.x02; ex_id Byte.x03]
    [Byte.x07] (run_ops ex_opts [LAdd (ex_id Byte.x01) ex_alice 40 0])) as (rows & old & Hr & _ & _ & H).
  - reflexivity.
  - repeat constructor.
  - discriminate.
  - vm_compute. eexists. reflexivity.
  - apply map_Forall_empty.
  - exists rows. split; [exact Hr|]. apply H. left. reflexivity.
Defined.

(** Revocation is permanent: a grant nonce that was revoked stays revoked
    under every further sequence of ledger operations, garbage collection and
    reconciliation included. *)
Theorem revocation_is_permanent (opts : Options) (nonce : bytes) (ops : list ledger_op) (l : Ledger) (o : Owner) (now : Z) :
  IsGrantRevoked nonce (foldl (λ l op, apply_op opts op l) (RevokeGrant nonce o now l) ops) = true.
Proof.
  assert (∀ op l, is_Some (revoked_grants l !! nonce) → is_Some (revoked_grants (apply_op opts op l) !! nonce)) as Hstep.
  { clear. intros op l Hn.
    assert (∀ id l, revoked_grants (DropRecord id l) = revoked_grants l) as Hdrop.
    { intros id l0. unfold DropRecord, dropRecordTx. by destruct (shards l0 !! id). }
    destruct op; simpl.
    - unfold AddOwner. destruct (owners l !! _); [done|]. destruct (quota_refuses _ _ _ _ _); [done|].
      by destruct (shards l !! id).
    - unfold RenewLease. repeat case_match; done.
    - unfold RemoveOwner. repeat case_match; done.
    - by rewrite Hdrop.
    - unfold CollectRecord. destruct (has_live_owner _ _ _ _); [done|].
      change (dropRecordTx id l).1 with (DropRecord id l). by rewrite Hdrop.
    - unfold PutStripe. repeat case_match; done.
    - unfold RevokeGrant. case_match; [done|]. simpl. rewrite lookup_insert. case_decide; [eauto|done].
    - set (gone := List.filter _ _). clearbody gone. revert l Hn.
      induction gone as [|x gone IH]; intros l Hn; simpl; [done|]. apply IH. by rewrite Hdrop. }
  assert (is_Some (revoked_grants (RevokeGrant nonce o now l) !! nonce)) as H0.
  { unfold RevokeGrant. destruct (revoked_grants l !! nonce) eqn:E; [by rewrite E|].
    simpl. rewrite lookup_insert_eq. eauto. }
  revert H0. generalize (RevokeGrant nonce o now l). clear l.
  induction ops as [|op ops IH]; intros l Hl; simpl; [by apply bool_decide_eq_true|].
  apply IH. by apply Hstep.
Qed.
