(* ===== verification/Crypto.v ===== *)
(** * internal/crypto, internal/cap, internal/atrest, internal/compress

    The byte-level protocols the code builds around the cryptographic
    primitives. The primitives themselves (AES-256-GCM, Ed25519, ML-KEM-768,
    Argon2id, DEFLATE) are parameters, given as classes that state what their
    documentation promises and the code relies on: sizes, and that opening,
    verifying, decapsulating or inflating the output of the matching operation
    succeeds. Nothing is assumed about forged inputs. Fresh randomness is an
    explicit argument; [None] stands for a failing read of the system source. *)

From S2P Require Import Prelude GoLib Store.

(** ** Primitives *)

Class AesGcm := {
  gcm_seal : bytes → bytes → bytes → bytes → bytes;        (* key nonce plaintext aad *)
  gcm_open : bytes → bytes → bytes → bytes → option bytes; (* key nonce ciphertext aad *)
  gcm_open_seal : ∀ k n pt aad, gcm_open k n (gcm_seal k n pt aad) aad = Some pt;
  gcm_seal_length : ∀ k n pt aad, length (gcm_seal k n pt aad) = (length pt + 16)%nat;
}.

Class Ed25519 := {
  ed_public : bytes → bytes;
  ed_sign : bytes → bytes → bytes;
  ed_verify : bytes → bytes → bytes → bool;
  ed_public_length : ∀ k, length (ed_public k) = 32%nat;
  ed_sign_length : ∀ k m, length (ed_sign k m) = 64%nat;
  ed_verify_sign : ∀ k m, ed_verify (ed_public k) m (ed_sign k m) = true;
}.

Class MlKem := {
  kem_public : bytes → option bytes;              (* encapsulation key of a seed *)
  kem_encap : bytes → bytes → option (bytes * bytes); (* key, randomness: shared key, ciphertext *)
  kem_decap : bytes → bytes → option bytes;       (* seed, ciphertext *)
  kem_encap_public : ∀ seed pk rnd, kem_public seed = Some pk → is_Some (kem_encap pk rnd);
  kem_sizes : ∀ pk rnd k ct, kem_encap pk rnd = Some (k, ct) →
    length k = 32%nat ∧ length ct = 1088%nat;
  kem_decap_encap : ∀ seed pk rnd k ct,
    kem_public seed = Some pk → kem_encap pk rnd = Some (k, ct) → kem_decap seed ct = Some k;
}.

Class Argon2 := {
  argon2_IDKey : bytes → bytes → Z → Z → Z → nat → bytes; (* password salt time memory threads keylen *)
  argon2_length : ∀ p s t m l n, length (argon2_IDKey p s t m l n) = n;
}.

(** [compress.Compress] and [compress.Decompress] are the standard library's
    DEFLATE writer and reader run over the whole input. *)
Class Deflate := {
  Compress : bytes → option bytes;
  Decompress : bytes → option bytes;
  Compress_total : ∀ d, is_Some (Compress d);  (* a memory buffer never fails a write *)
  Decompress_Compress : ∀ d p, Compress d = Some p → Decompress p = Some d;
}.

(** ** internal/crypto *)

Inductive crypto_err := ErrDecrypt | ErrNonce | ErrKeyGen.
#[export] Instance crypto_err_eq_dec : EqDecision crypto_err.
Proof. solve_decision. Defined.

Definition KeySize : nat := 32.
Definition NonceSize : nat := 12.

Definition NewKey (rnd : option bytes) : result crypto_err bytes :=
  of_option ErrKeyGen rnd.

(** The 32-byte key is an array, so [aes.NewCipher] and [NewGCM] do not fail. *)
Definition Seal `{AesGcm} (rnd : option bytes) (k plaintext : bytes) : result crypto_err bytes :=
  match rnd with
  | None => Err ErrNonce
  | Some nonce => Ok (nonce ++ gcm_seal k nonce plaintext [])
  end.

Definition Open `{AesGcm} (k sealed : bytes) : result crypto_err bytes :=
  if decide (length sealed < NonceSize)%nat then Err ErrDecrypt
  else
    let nonce := take NonceSize sealed in
    let ct := drop NonceSize sealed in
    match gcm_open k nonce ct [] with
    | None => Err ErrDecrypt
    | Some pt => Ok pt
    end.

Lemma Open_Seal `{AesGcm} k nonce pt sealed :
  length nonce = NonceSize → Seal (Some nonce) k pt = Ok sealed → Open k sealed = Ok pt.
Proof.
  intros Hn [= <-]. unfold Open. rewrite length_app.
  destruct (decide _) as [?|_]; [lia|].
  by rewrite take_app_eq, drop_app_eq, gcm_open_seal.
Qed.

Lemma Seal_length `{AesGcm} k nonce pt sealed :
  length nonce = NonceSize → Seal (Some nonce) k pt = Ok sealed →
  length sealed = (length pt + 28)%nat.
Proof. intros Hn [= <-]. rewrite length_app, gcm_seal_length, Hn. unfold NonceSize. lia. Qed.

(** ** internal/cap: signing.go and pow.go *)

Definition SignPubKeySize : nat := 32.
Definition SignatureSize : nat := 64.

Definition Sign `{Ed25519} (k msg : bytes) : bytes := ed_sign k msg.
Definition Public `{Ed25519} (k : bytes) : bytes := ed_public k.
Definition Verify `{Ed25519} (p msg sig : bytes) : bool := ed_verify p msg sig.

Record Argon2idPuzzle := mkPuzzle { pz_Time : Z; pz_Memory : Z; pz_Threads : Z }.
Definition DefaultArgon2id : Argon2idPuzzle := mkPuzzle 2 (64 * 1024) 1.

Definition powDomain : bytes :=
  String.list_byte_of_string "revika/pow/owner/v1" ++ [Byte.x00].

Definition Sum `{Argon2} (p : Argon2idPuzzle) (pubkey : bytes) : bytes :=
  argon2_IDKey pubkey powDomain (pz_Time p) (pz_Memory p) (pz_Threads p) 32.

(** [bits.LeadingZeros8] *)
Definition LeadingZeros8 (x : byte) : Z :=
  if b2Z x =? 0 then 8 else 7 - Z.log2 (b2Z x).

Fixpoint leadingZeroBits (b : bytes) : Z :=
  match b with
  | [] => 0
  | x :: b => if b2Z x =? 0 then 8 + leadingZeroBits b else LeadingZeros8 x
  end.

Definition MeetsPoW `{Argon2} (puzzle : Argon2idPuzzle) (pubkey : bytes) (d : Z) : bool :=
  if d =? 0 then true else d <=? leadingZeroBits (Sum puzzle pubkey).

(** The grinding loop of one worker of [MintSigningKeyContext]: key pairs are
    drawn until one meets the target; [keys] are the draws it makes before the
    context is cancelled. *)
Fixpoint mint_worker `{Ed25519, Argon2} (puzzle : Argon2idPuzzle) (d : Z) (keys : list bytes)
    : option (bytes * bytes) :=
  match keys with
  | [] => None
  | k :: keys =>
      if MeetsPoW puzzle (Public k) d then Some (k, Public k) else mint_worker puzzle d keys
  end.

Lemma leadingZeroBits_range b : 0 ≤ leadingZeroBits b ≤ 8 * Z.of_nat (length b).
Proof.
  induction b as [|x b IH]; cbn [leadingZeroBits length]; [lia|].
  destruct (Z.eqb_spec (b2Z x) 0); [lia|]. unfold LeadingZeros8.
  destruct (Z.eqb_spec (b2Z x) 0); [done|]. pose proof (b2Z_range x).
  pose proof (Z.log2_nonneg (b2Z x)). pose proof (proj1 (Z.log2_lt_pow2 (b2Z x) 8 ltac:(lia)) ltac:(lia)).
  lia.
Qed.

Lemma pow8_succ (n : nat) : 2 ^ (8 * Z.of_nat (S n)) = 256 * 2 ^ (8 * Z.of_nat n).
Proof.
  replace (8 * Z.of_nat (S n)) with (8 + 8 * Z.of_nat n) by lia.
  rewrite Z.pow_add_r by lia. done.
Qed.

Lemma be_dec_cons x b : be_dec (x :: b) = b2Z x * 2 ^ (8 * Z.of_nat (length b)) + be_dec b.
Proof.
  unfold be_dec. rewrite reverse_cons. rewrite <-(length_reverse b).
  generalize (reverse b). clear b. intros b. induction b as [|y b IH]; simpl.
  { lia. }
  rewrite IH. rewrite pow8_succ. lia.
Qed.

Lemma be_dec_bound b : 0 ≤ be_dec b < 2 ^ (8 * Z.of_nat (length b)).
Proof. rewrite Z.pow_mul_r by lia. apply be_dec_range. Qed.

(** The bits counted are exactly the zeros in front of the number. *)
Lemma leadingZeroBits_spec b k :
  0 ≤ k ≤ 8 * Z.of_nat (length b) →
  k ≤ leadingZeroBits b ↔ be_dec b < 2 ^ (8 * Z.of_nat (length b) - k).
Proof.
  revert k. induction b as [|x b IH]; intros k Hk.
  { simpl in *. assert (k = 0) as -> by lia. done. }
  cbn [leadingZeroBits length]. rewrite be_dec_cons.
  pose proof (be_dec_bound b) as Hb. pose proof (b2Z_range x) as Hx.
  set (n := 8 * Z.of_nat (length b)) in *.
  replace (8 * Z.of_nat (S (length b)) - k) with (n + (8 - k)) by (unfold n; lia).
  assert (0 ≤ n) as Hn by (unfold n; lia).
  assert (8 * Z.of_nat (length (x :: b)) = n + 8) as El by (unfold n; simpl length; lia).
  rewrite El in Hk.
  destruct (Z.eqb_spec (b2Z x) 0) as [E|Hne].
  - rewrite E. destruct (Z.le_gt_cases k 8) as [H8|H8].
    + split; intros _.
      * assert (2 ^ n ≤ 2 ^ (n + (8 - k))) by (apply Z.pow_le_mono_r; lia). lia.
      * pose proof (leadingZeroBits_range b). lia.
    + specialize (IH (k - 8) ltac:(lia)).
      replace (n - (k - 8)) with (n + (8 - k)) in IH by lia. rewrite Z.mul_0_l, Z.add_0_l, <-IH. lia.
  - unfold LeadingZeros8. destruct (Z.eqb_spec (b2Z x) 0); [done|].
    assert (k ≤ 7 - Z.log2 (b2Z x) ↔ b2Z x < 2 ^ (8 - k) ∧ k ≤ 8) as ->.
    { destruct (Z.le_gt_cases k 8); [|pose proof (Z.log2_nonneg (b2Z x)); lia].
      rewrite (Z.log2_lt_pow2 (b2Z x) (8 - k)) by lia. lia. }
    split.
    + intros [Hlt H8]. rewrite Z.pow_add_r by lia. nia.
    + intros Hlt. destruct (Z.le_gt_cases k 8) as [H8|H8].
      * rewrite Z.pow_add_r in Hlt by lia. split; [|lia].
        pose proof (Z.pow_pos_nonneg 2 n). nia.
      * exfalso. assert (2 ^ (n + (8 - k)) ≤ 2 ^ n) by (apply Z.pow_le_mono_r; lia). nia.
Qed.

(** ** internal/cap: cap.go *)

Inductive cap_err := ErrUnwrap | ErrWrap | ErrDerivePublic.
#[export] Instance cap_err_eq_dec : EqDecision cap_err.
Proof. solve_decision. Defined.

Definition CiphertextSize768 : nat := 1088.

Definition Wrap `{AesGcm, MlKem} (encap_rnd : bytes) (nonce : option bytes)
    (recipient plaintext : bytes) : result cap_err bytes :=
  match kem_encap recipient encap_rnd with
  | None => Err ErrWrap
  | Some (sharedKey, kemCiphertext) =>
      match Seal nonce sharedKey plaintext with
      | Err _ => Err ErrWrap
      | Ok dem => Ok (kemCiphertext ++ dem)
      end
  end.

(** Both [NewDecapsulationKey768] and [Decapsulate] are in [kem_decap]: the code
    maps each of their errors to [ErrUnwrap]. *)
Definition Unwrap `{AesGcm, MlKem} (priv sealed : bytes) : result cap_err bytes :=
  if decide (length sealed < CiphertextSize768)%nat then Err ErrUnwrap
  else
    let kemCiphertext := take CiphertextSize768 sealed in
    let dem := drop CiphertextSize768 sealed in
    match kem_decap priv kemCiphertext with
    | None => Err ErrUnwrap
    | Some sharedKey =>
        match Open sharedKey dem with
        | Err _ => Err ErrUnwrap
        | Ok plaintext => Ok plaintext
        end
    end.

(** [PrivateKey.Public] *)
Definition PublicOf `{MlKem} (priv : bytes) : result cap_err bytes :=
  of_option ErrDerivePublic (kem_public priv).

(** ** internal/atrest *)

Module AtRest.
Inductive err := ErrSalt | ErrGenNonce | ErrTooShort | ErrBadPassphrase.

Definition magic : bytes := String.list_byte_of_string "rvk-enc" ++ [Byte.x01].
Definition overhead : nat := 8 + 16 + 12 + 16.

Definition IsEncrypted (b : bytes) : bool := bool_decide (take 8 b = magic).

Definition kdf `{Argon2} (passphrase salt : bytes) : bytes :=
  argon2_IDKey passphrase salt 2 (64 * 1024) 1 32.

Definition Encrypt `{AesGcm, Argon2} (salt nonce : option bytes) (plaintext passphrase : bytes)
    : result err bytes :=
  match salt with
  | None => Err ErrSalt
  | Some salt =>
      match nonce with
      | None => Err ErrGenNonce
      | Some nonce =>
          let key := kdf passphrase salt in
          let ct := gcm_seal key nonce plaintext magic in
          Ok (magic ++ salt ++ nonce ++ ct)
      end
  end.

Definition Decrypt `{AesGcm, Argon2} (ciphertext passphrase : bytes) : result err bytes :=
  if negb (IsEncrypted ciphertext) then Ok ciphertext
  else if decide (length ciphertext < overhead)%nat then Err ErrTooShort
  else
    let salt := take 16 (drop 8 ciphertext) in
    let nonce := take 12 (drop 24 ciphertext) in
    let ct := drop 36 ciphertext in
    match gcm_open (kdf passphrase salt) nonce ct magic with
    | None => Err ErrBadPassphrase
    | Some plain => Ok plain
    end.
End AtRest.

(** ** Concrete primitives, to evaluate the model *)

(** The last [n] bytes of a byte string. *)
Definition last_bytes (n : nat) (b : bytes) : bytes := reverse (take n (reverse b ++ replicate n Byte.x00)).
Lemma length_last_bytes n b : length (last_bytes n b) = n.
Proof. unfold last_bytes. rewrite length_reverse, length_take, length_app, length_replicate. lia. Qed.

(** A 16-byte checksum of a byte string. *)
Definition toy_tag (b : bytes) : bytes := last_bytes 16 b.

Definition toy_gcm : AesGcm.
Proof.
  refine {| gcm_seal k n pt aad := pt ++ toy_tag (k ++ n ++ pt ++ aad);
            gcm_open k n ct aad :=
              let pt := take (length ct - 16) ct in
              if decide (ct = pt ++ toy_tag (k ++ n ++ pt ++ aad)) then Some pt else None |}.
  - intros k n pt aad. cbn zeta. unfold toy_tag. rewrite length_app, length_last_bytes.
    replace (length pt + 16 - 16)%nat with (length pt) by lia. rewrite take_app_length.
    by rewrite decide_True.
  - intros. unfold toy_tag. by rewrite length_app, length_last_bytes.
Defined.

Definition toy_ed : Ed25519.
Proof.
  refine {| ed_public k := take 32 (k ++ replicate 32 Byte.x00);
            ed_sign k m := last_bytes 64 (take 32 (k ++ replicate 32 Byte.x00) ++ m);
            ed_verify p m s := bool_decide (s = last_bytes 64 (p ++ m)) |}.
  - intros k. rewrite length_take, length_app, length_replicate. lia.
  - intros. apply length_last_bytes.
  - intros. by apply bool_decide_eq_true.
Defined.

Definition toy_kem_ct (rnd : bytes) : bytes := replicate 1056 Byte.x00 ++ last_bytes 32 rnd.

Lemma toy_kem_ct_spec rnd :
  length (toy_kem_ct rnd) = 1088%nat ∧ drop 1056 (toy_kem_ct rnd) = last_bytes 32 rnd.
Proof.
  unfold toy_kem_ct. split; [rewrite length_app, length_replicate, length_last_bytes; reflexivity|].
  apply drop_app_eq. symmetry. apply length_replicate.
Qed.

Definition toy_kem : MlKem.
Proof.
  refine {| kem_public seed := Some seed;
            kem_encap pk rnd := Some (last_bytes 32 rnd, toy_kem_ct rnd);
            kem_decap seed ct := Some (drop 1056 ct) |}.
  - intros. eauto.
  - intros pk rnd k ct [E1 E2]%(inj Some)%pair_eq. rewrite <-E1, <-E2.
    split; [apply length_last_bytes|apply toy_kem_ct_spec].
  - intros seed pk rnd k ct _ [E1 E2]%(inj Some)%pair_eq. rewrite <-E1, <-E2.
    apply (f_equal Some), toy_kem_ct_spec.
Defined.

Definition toy_argon : Argon2.
Proof.
  refine {| argon2_IDKey p s t m l n := take n (p ++ replicate n Byte.x00) |}.
  intros. rewrite length_take, length_app, length_replicate. lia.
Defined.

(** Two-byte runs of one byte shrink to a marker, a count and the byte. *)
Definition toy_deflate : Deflate.
Proof.
  refine {| Compress d := match d with
              | [] => Some [Byte.x01]
              | x :: _ =>
                  if decide (d = replicate (length d) x ∧ (length d < 256)%nat)
                  then Some [Byte.x00; Z2b (Z.of_nat (length d)); x] else Some (Byte.x01 :: d)
              end;
            Decompress p := match p with
              | Byte.x00 :: n :: x :: _ => Some (replicate (Z.to_nat (b2Z n)) x)
              | Byte.x01 :: d => Some d
              | _ => None
              end |}.
  { intros [|x d]; [eauto|]. destruct (decide _); eauto. }
  intros [|x d] p; [by intros [= <-]|]. destruct (decide _) as [[E Hl]|_]; [|by intros [= <-]].
  intros <-%(inj Some). rewrite b2Z_Z2b, Z.mod_small by (cbn [length] in *; lia).
  rewrite Nat2Z.id. apply (f_equal Some). by symmetry.
Defined.

(** ** Properties *)

(** Proof of work is a numeric target: an owner key is admitted at
    difficulty [d] exactly when its 32-byte puzzle digest, read as a big-endian
    number, is below 2^(256-d); hence a key admitted at some difficulty is
    admitted at every lower one, and a key a minting worker returns is admitted
    and is the public half of one of its draws. *)
Theorem pow_target `{Ed25519, Argon2} (pz : Argon2idPuzzle) (d : Z) :
  0 ≤ d < 256 →
  (∀ pk, MeetsPoW pz pk d = true ↔ be_dec (Sum pz pk) < 2 ^ (256 - d)) ∧
  (∀ pk d', 0 ≤ d' ≤ d → MeetsPoW pz pk d = true → MeetsPoW pz pk d' = true) ∧
  (∀ keys k pk, mint_worker pz d keys = Some (k, pk) →
     k ∈ keys ∧ pk = Public k ∧ MeetsPoW pz pk d = true).
Proof.
  intros Hd.
  assert (∀ pk, length (Sum pz pk) = 32%nat) as Hlen by (intros; apply argon2_length).
  assert (∀ pk e, 0 ≤ e < 256 → MeetsPoW pz pk e = true ↔ be_dec (Sum pz pk) < 2 ^ (256 - e)) as Hm.
  { intros pk e He. pose proof (leadingZeroBits_spec (Sum pz pk) e) as Hs. rewrite Hlen in Hs.
    change (8 * Z.of_nat 32) with 256 in Hs. specialize (Hs ltac:(lia)). unfold MeetsPoW.
    destruct (Z.eqb_spec e 0) as [->|]; [|by rewrite Z.leb_le].
    pose proof (be_dec_bound (Sum pz pk)) as Hb. rewrite Hlen in Hb. split; [intros _; apply Hb|done]. }
  split_and!; [by auto| |].
  - intros pk d' Hd'. rewrite !Hm by lia. intros Hlt. eapply Z.lt_le_trans; [exact Hlt|].
    apply Z.pow_le_mono_r; lia.
  - induction keys as [|k0 keys IH]; intros k pk; simpl; [done|].
    destruct (MeetsPoW pz (Public k0) d) eqn:E.
    + intros [= <- <-]. split; [by left|done].
    + intros (? & ? & ?)%IH. split; [by right|done].
Qed.

(** A key of 30 zero bytes has a digest below 2^(256-240). *)
Lemma pow_target_witness :
  let pk := replicate 30 Byte.x00 ++ [Byte.x01; Byte.x00] in
  @MeetsPoW toy_argon DefaultArgon2id pk 247 = true ∧ @MeetsPoW toy_argon DefaultArgon2id pk 12 = true.
Proof.
  cbn zeta. split; [vm_compute; reflexivity|].
  refine (proj1 (proj2 (@pow_target toy_ed toy_argon DefaultArgon2id 247 _)) _ 12 _ _);
    [lia|lia|vm_compute; reflexivity].
Defined.

(** A capability sealed to a recipient is opened by the recipient's
    private key, whatever the encapsulation randomness and nonce; sealing to
    the key derived by [Public] always succeeds; a blob shorter than a KEM
    ciphertext and a nonce is refused. *)
Theorem wrap_unwrap `{AesGcm, MlKem} (priv pub rnd nonce plaintext : bytes) :
  PublicOf priv = Ok pub → length nonce = NonceSize →
  ∃ sealed, Wrap rnd (Some nonce) pub plaintext = Ok sealed ∧
    length sealed = (CiphertextSize768 + 28 + length plaintext)%nat ∧
    Unwrap priv sealed = Ok plaintext ∧
    ∀ n, (n < CiphertextSize768 + NonceSize)%nat → Unwrap priv (take n sealed) = Err ErrUnwrap.
Proof.
  intros Hp Hn. unfold PublicOf in Hp. destruct (kem_public priv) as [pk|] eqn:Ep; simplify_eq/=.
  destruct (kem_encap_public priv pub rnd Ep) as [[k ct] Ee].
  destruct (kem_sizes _ _ _ _ Ee) as [Hk Hct].
  destruct (Seal (Some nonce) k plaintext) as [dem|] eqn:Es; [|done].
  exists (ct ++ dem). unfold Wrap. rewrite Ee, Es. split_and!.
  - done.
  - rewrite length_app, (Seal_length k nonce plaintext dem) by done. unfold CiphertextSize768. lia.
  - unfold Unwrap. rewrite length_app. destruct (decide _) as [?|_]; [unfold CiphertextSize768 in *; lia|].
    rewrite take_app_eq, drop_app_eq by done.
    rewrite (kem_decap_encap priv pub rnd k ct) by done. by rewrite (Open_Seal k nonce plaintext).
  - intros n Hlt. unfold Unwrap. destruct (decide _) as [?|Hge]; [done|].
    destruct (kem_decap _ _); [|done]. unfold Open. destruct (decide _) as [?|Hge']; [done|].
    rewrite length_drop, length_take in Hge'. unfold CiphertextSize768, NonceSize in *. lia.
Qed.

Lemma wrap_unwrap_witness :
  let msg := [Byte.x68; Byte.x69] in
  ∃ sealed, @Wrap toy_gcm toy_kem [Byte.x05] (Some (replicate 12 Byte.x09)) [Byte.x01] msg = Ok sealed ∧
            @Unwrap toy_gcm toy_kem [Byte.x01] sealed = Ok msg.
Proof.
  cbn zeta.
  destruct (@wrap_unwrap toy_gcm toy_kem [Byte.x01] [Byte.x01] [Byte.x05] (replicate 12 Byte.x09)
    [Byte.x68; Byte.x69]) as (s & Hw & _ & Hu & _); [reflexivity|reflexivity|].
  exists s. split; [exact Hw|exact Hu].
Defined.

(** Secrets at rest: decrypting with the same passphrase what Encrypt wrote
    gives the plaintext back and the file is recognised as encrypted; a legacy
    plaintext file without the magic prefix passes through unchanged; an
    encrypted file cut below the fixed overhead is an error, never returned
    as plaintext, as long as the magic is intact. *)
Theorem atrest_roundtrip `{AesGcm, Argon2} (salt nonce plaintext pass : bytes) :
  length salt = 16%nat → length nonce = 12%nat →
  ∃ file, AtRest.Encrypt (Some salt) (Some nonce) plaintext pass = Ok file ∧
    length file = (AtRest.overhead + length plaintext)%nat ∧
    AtRest.IsEncrypted file = true ∧
    AtRest.Decrypt file pass = Ok plaintext ∧
    (∀ n, (8 ≤ n < AtRest.overhead)%nat → AtRest.Decrypt (take n file) pass = Err AtRest.ErrTooShort) ∧
    (∀ b, AtRest.IsEncrypted b = false → AtRest.Decrypt b pass = Ok b).
Proof.
  intros Hs Hn. set (ct := gcm_seal (AtRest.kdf pass salt) nonce plaintext AtRest.magic). assert (length ct = (length plaintext + 16)%nat) as Hct
    by apply gcm_seal_length.
  assert (length AtRest.magic = 8%nat) as Hm by reflexivity.
  set (file := AtRest.magic ++ salt ++ nonce ++ ct). exists file. split; [reflexivity|].
  assert (length file = (AtRest.overhead + length plaintext)%nat) as Hf.
  { unfold file. rewrite !length_app, Hm, Hs, Hn, Hct. unfold AtRest.overhead. lia. }
  assert (AtRest.IsEncrypted file = true) as Hi by (apply bool_decide_eq_true; by apply take_app_eq).
  split_and!; [done|done| | |].
  - unfold AtRest.Decrypt. rewrite Hi. simpl negb. cbv iota.
    destruct (decide _) as [?|_]; [lia|].
    assert (drop 8 file = salt ++ nonce ++ ct) as E8 by (by apply drop_app_eq).
    assert (drop 24 file = nonce ++ ct) as E24.
    { change 24%nat with (8 + 16)%nat. rewrite <-drop_drop, E8. by apply drop_app_eq. }
    assert (drop 36 file = ct) as E36.
    { change 36%nat with (24 + 12)%nat. rewrite <-drop_drop, E24. by apply drop_app_eq. }
    rewrite E8, E24, E36, !take_app_eq by done. unfold ct. by rewrite gcm_open_seal.
  - intros n [Hlo Hhi]. unfold AtRest.Decrypt.
    assert (AtRest.IsEncrypted (take n file) = true) as ->.
    { apply bool_decide_eq_true. rewrite take_take, Nat.min_l by lia. by apply take_app_eq. }
    simpl negb. cbv iota. destruct (decide _) as [?|Hge]; [done|]. rewrite length_take in Hge. lia.
  - intros b Hb. unfold AtRest.Decrypt. by rewrite Hb.
Qed.

Lemma atrest_roundtrip_witness :
  ∃ file, @AtRest.Encrypt toy_gcm toy_argon (Some (replicate 16 Byte.x02)) (Some (replicate 12 Byte.x03))
            [Byte.x41] [Byte.x70] = Ok file ∧
          @AtRest.Decrypt toy_gcm toy_argon file [Byte.x70] = Ok [Byte.x41].
Proof.
  destruct (@atrest_roundtrip toy_gcm toy_argon (replicate 16 Byte.x02) (replicate 12 Byte.x03)
    [Byte.x41] [Byte.x70]) as (f & He & _ & _ & Hd & _); [reflexivity|reflexivity|].
  exists f. split; [exact He|]. exact Hd.
Defined.
