(* ===== verification/Stripe.v ===== *)
(** * internal/stripe: erasure descriptors and repair grants

    [Descriptor] with its canonical wire form, and [Grant], the user-signed
    capability that lets a repairing node store any shard of one stripe. *)

From S2P Require Import Prelude GoLib Store Crypto.

Inductive stripe_err :=
| ErrParams | ErrParamsWidth | ErrShardCount           (* MarshalBinary *)
| ErrShort | ErrDeclaredN | ErrDescriptorLength        (* UnmarshalDescriptor *)
| ErrGrantLength | ErrGrantExpired | ErrGrantSignature (* VerifyGrant *)
| ErrGrantNonce.                                       (* BuildGrant *)
#[export] Instance stripe_err_eq_dec : EqDecision stripe_err.
Proof. solve_decision. Defined.

Definition idSize : nat := 32.

(** [K] and [M] are Go [int]s. *)
Record Descriptor := mkDesc { d_K : Z; d_M : Z; d_Shards : list ShardID }.

Definition d_N (d : Descriptor) : Z := d_K d + d_M d.

Definition Contains (d : Descriptor) (id : ShardID) : bool := bool_decide (id ∈ d_Shards d).

Definition MarshalBinary (d : Descriptor) : result stripe_err bytes :=
  if (d_K d <=? 0) || (d_M d <=? 0) then Err ErrParams
  else if (65535 <? d_K d) || (65535 <? d_M d) then Err ErrParamsWidth
  else if negb (Z.of_nat (length (d_Shards d)) =? d_N d) then Err ErrShardCount
  else Ok (be_enc 2 (u16 (d_K d)) ++ be_enc 2 (u16 (d_M d)) ++ be_enc 2 (u16 (d_N d))
           ++ concat (d_Shards d)).

Definition UnmarshalDescriptor (b : bytes) : result stripe_err Descriptor :=
  if decide (length b < 6)%nat then Err ErrShort
  else
    let k := be_dec (take 2 b) in
    let m := be_dec (take 2 (drop 2 b)) in
    let n := be_dec (take 2 (drop 4 b)) in
    if (k <=? 0) || (m <=? 0) then Err ErrParams
    else if negb (n =? k + m) then Err ErrDeclaredN
    else if negb (Z.of_nat (length b) =? 6 + n * Z.of_nat idSize) then Err ErrDescriptorLength
    else Ok (mkDesc k m (group_fuel (Z.to_nat n) idSize (drop 6 b))).

(** ** Grants *)

Definition GrantSize : nat := SignPubKeySize + 8 + 8 + SignatureSize.
Definition grantNonceOffset : nat := SignPubKeySize + 8.
Definition grantDomain : bytes := String.list_byte_of_string "revika/repair-grant/1".

Definition grantPayload (expiry : Z) (nonce descBytes : bytes) : bytes :=
  grantDomain ++ be_enc 8 (u64 expiry) ++ nonce ++ descBytes.

Definition BuildGrant `{Ed25519} (rnd : option bytes) (signer : bytes) (d : Descriptor) (expiry : Z)
    : result stripe_err bytes :=
  descBytes ← MarshalBinary d;
  match rnd with
  | None => Err ErrGrantNonce
  | Some nonce =>
      let pub := Public signer in
      let sig := Sign signer (grantPayload expiry nonce descBytes) in
      Ok (pub ++ be_enc 8 (u64 expiry) ++ nonce ++ sig)
  end.

Definition grant_pub (grant : bytes) : bytes := take SignPubKeySize grant.
Definition grant_expiry (grant : bytes) : Z := i64 (be_dec (take 8 (drop SignPubKeySize grant))).
Definition grant_nonce (grant : bytes) : bytes := take 8 (drop grantNonceOffset grant).
Definition grant_sig (grant : bytes) : bytes := drop (grantNonceOffset + 8) grant.

Definition VerifyGrant `{Ed25519} (grant : bytes) (d : Descriptor) (now : Z) : result stripe_err bytes :=
  if decide (length grant ≠ GrantSize) then Err ErrGrantLength
  else
    let pub := grant_pub grant in
    let expiry := grant_expiry grant in
    let nonce := grant_nonce grant in
    let sig := grant_sig grant in
    if negb (expiry =? 0) && (expiry <? Unix now) then Err ErrGrantExpired
    else
      descBytes ← MarshalBinary d;
      if negb (Verify pub (grantPayload expiry nonce descBytes) sig) then Err ErrGrantSignature
      else Ok pub.

Definition GrantNonce (grant : bytes) : result stripe_err bytes :=
  if decide (length grant ≠ GrantSize) then Err ErrGrantLength
  else Ok (grant_nonce grant).

(** ** Lemmas *)

(** The descriptors the wire form can carry. *)
Definition desc_ok (d : Descriptor) : Prop :=
  0 < d_K d ≤ 65535 ∧ 0 < d_M d ≤ 65535 ∧ Z.of_nat (length (d_Shards d)) = d_N d.

Lemma MarshalBinary_Ok d b :
  MarshalBinary d = Ok b ↔ desc_ok d ∧
    b = be_enc 2 (d_K d) ++ be_enc 2 (d_M d) ++ be_enc 2 (u16 (d_N d)) ++ concat (d_Shards d).
Proof.
  unfold MarshalBinary, desc_ok.
  destruct (Z.leb_spec (d_K d) 0), (Z.leb_spec (d_M d) 0),
    (Z.ltb_spec 65535 (d_K d)), (Z.ltb_spec 65535 (d_M d)),
    (Z.eqb_spec (Z.of_nat (length (d_Shards d))) (d_N d)); simpl orb; simpl negb; cbv iota;
    try (split; [done|intros [? _]; lia]).
  unfold u16 at 1 2. rewrite !Z.mod_small by lia. split.
  - intros [= <-]. split; [lia|done].
  - by intros [_ ->].
Qed.

Lemma header_fields a b c rest :
  let x := be_enc 2 a ++ be_enc 2 b ++ be_enc 2 c ++ rest in
  take 2 x = be_enc 2 a ∧ take 2 (drop 2 x) = be_enc 2 b ∧
  take 2 (drop 4 x) = be_enc 2 c ∧ drop 6 x = rest.
Proof. by unfold be_enc. Qed.

Lemma MarshalBinary_inj d d' b :
  Forall is_id (d_Shards d) → Forall is_id (d_Shards d') →
  MarshalBinary d = Ok b → MarshalBinary d' = Ok b → d = d'.
Proof.
  intros Hs Hs' [(? & ? & Hn) Eb]%MarshalBinary_Ok [(? & ? & Hn') Eb']%MarshalBinary_Ok.
  destruct (header_fields (d_K d) (d_M d) (u16 (d_N d)) (concat (d_Shards d))) as (E1 & E2 & _ & E3).
  destruct (header_fields (d_K d') (d_M d') (u16 (d_N d')) (concat (d_Shards d'))) as (F1 & F2 & _ & F3).
  rewrite <-Eb in E1, E2, E3. rewrite <-Eb' in F1, F2, F3. destruct d as [k m s], d' as [k' m' s']; simpl in *.
  assert (k = k') as <- by (apply (be_enc_inj 2); [lia..|congruence]).
  assert (m = m') as <- by (apply (be_enc_inj 2); [lia..|congruence]).
  f_equal. rewrite <-(group_fuel_concat 32 s), <-(group_fuel_concat 32 s') by done.
  unfold d_N in *. simpl in *. replace (length s') with (length s) by lia. congruence.
Qed.

Lemma grantPayload_inj e e' n n' d d' :
  in_i64 e → in_i64 e' → length n = 8%nat → length n' = 8%nat →
  grantPayload e n d = grantPayload e' n' d' → e = e' ∧ n = n' ∧ d = d'.
Proof.
  intros He He' Hn Hn' E. unfold grantPayload in E. apply app_inj_1 in E as [_ E]; [|done].
  apply app_inj_1 in E as [E1 E]; [|by rewrite !length_be_enc].
  apply app_inj_1 in E as [-> ->]; [|by rewrite Hn, Hn']. split; [|done].
  assert (u64 e = u64 e') as Eu.
  { apply (be_enc_inj 8); [| |done]; apply Z.mod_pos_bound; lia. }
  rewrite <-(i64_id e), <-(i64_id e'), <-(i64_u64 e), <-(i64_u64 e') by done. by rewrite Eu.
Qed.

Lemma grant_fields `{Ed25519} pub e nonce sig :
  length pub = 32%nat → length nonce = 8%nat → length sig = 64%nat → in_i64 e →
  let g := pub ++ be_enc 8 (u64 e) ++ nonce ++ sig in
  length g = GrantSize ∧ grant_pub g = pub ∧ grant_expiry g = e ∧ grant_nonce g = nonce ∧ grant_sig g = sig.
Proof.
  intros Hp Hn Hs He g.
  assert (drop 32 g = be_enc 8 (u64 e) ++ nonce ++ sig) as E1 by (by apply drop_app_eq).
  assert (drop 40 g = nonce ++ sig) as E2.
  { change 40%nat with (32 + 8)%nat. rewrite <-drop_drop, E1. apply drop_app_eq. by rewrite length_be_enc. }
  assert (drop 48 g = sig) as E3.
  { change 48%nat with (40 + 8)%nat. rewrite <-drop_drop, E2. by apply drop_app_eq. }
  split_and!.
  - unfold g. rewrite !length_app, length_be_enc, Hp, Hn, Hs. done.
  - by apply take_app_eq.
  - unfold grant_expiry, SignPubKeySize. rewrite E1, take_app_eq by (by rewrite length_be_enc).
    rewrite be_dec_enc_small by (apply Z.mod_pos_bound; lia). by rewrite i64_u64, i64_id.
  - unfold grant_nonce, grantNonceOffset, SignPubKeySize. change (32 + 8)%nat with 40%nat.
    rewrite E2. by apply take_app_eq.
  - exact E3.
Qed.

(** ** Properties *)

(** The descriptor wire form is canonical: what [UnmarshalDescriptor]
    accepts is exactly what [MarshalBinary] writes for the descriptor it
    returns; and a descriptor of 32-byte shard addresses that [MarshalBinary]
    accepts is read back unchanged exactly when N = K+M fits its 16-bit field
    (a larger one is written with a wrapped N and rejected on reading). *)
Theorem descriptor_roundtrip :
  (∀ b d, UnmarshalDescriptor b = Ok d → MarshalBinary d = Ok b ∧ Forall is_id (d_Shards d)) ∧
  (∀ d b, Forall is_id (d_Shards d) → MarshalBinary d = Ok b →
     UnmarshalDescriptor b = if d_N d <=? 65535 then Ok d else Err ErrDeclaredN).
Proof.
  split.
  - intros b d. unfold UnmarshalDescriptor. destruct (decide _) as [|Hlen]; [done|].
    set (k := be_dec (take 2 b)). set (m := be_dec (take 2 (drop 2 b))).
    set (n := be_dec (take 2 (drop 4 b))). cbv zeta.
    destruct (Z.leb_spec k 0); [done|]. destruct (Z.leb_spec m 0); [done|]. cbn [orb].
    destruct (Z.eqb_spec n (k + m)) as [En|]; [|done]. cbn [negb].
    destruct (Z.eqb_spec (Z.of_nat (length b)) (6 + n * Z.of_nat idSize)) as [El|]; [|done].
    unfold idSize in El. intros [= <-].
    assert (∀ i, (i + 2 ≤ length b)%nat → length (take 2 (drop i b)) = 2%nat) as H2
      by (intros; rewrite length_take, length_drop; lia).
    pose proof (be_dec_range (take 2 b)) as Hk. pose proof (be_dec_range (take 2 (drop 2 b))) as Hm.
    pose proof (be_dec_range (take 2 (drop 4 b))) as Hn. fold k in Hk. fold m in Hm. fold n in Hn.
    pose proof (H2 0%nat ltac:(lia)) as H20. rewrite drop_0 in H20.
    rewrite H20 in Hk. rewrite H2 in Hm, Hn by lia. simpl in Hk, Hm, Hn.
    destruct (concat_group_fuel (Z.to_nat n) 32 (drop 6 b)) as [Ec HF]; [rewrite length_drop; lia|].
    split; [|done]. apply MarshalBinary_Ok. unfold desc_ok, d_N. cbn [d_K d_M d_Shards]. unfold idSize.
    rewrite Ec, <-En. unfold u16. rewrite Z.mod_small by lia. unfold k, m, n.
    rewrite !be_enc_dec by (exact H20 || (apply H2; lia)).
    assert (length (group_fuel (Z.to_nat n) 32 (drop 6 b)) = Z.to_nat n) as Hg.
    { pose proof (length_concat_uniform 32 _ HF) as Hc. rewrite Ec, length_drop in Hc. lia. }
    split; [split_and!; [lia..|]|].
    + fold n. rewrite Hg. lia.
    + rewrite <-(take_drop 2 b) at 1. f_equal. rewrite <-(take_drop 2 (drop 2 b)) at 1. f_equal.
      rewrite drop_drop. rewrite <-(take_drop 2 (drop (2 + 2) b)) at 1. f_equal. by rewrite drop_drop.
  - intros d b Hs [(Hk & Hm & Hn) ->]%MarshalBinary_Ok. unfold UnmarshalDescriptor.
    destruct (header_fields (d_K d) (d_M d) (u16 (d_N d)) (concat (d_Shards d))) as (E1 & E2 & E3 & E4).
    assert (length (concat (d_Shards d)) = (length (d_Shards d) * 32)%nat) as Hc
      by (by apply length_concat_uniform).
    destruct (decide _) as [Hl|_]; [rewrite !length_app, !length_be_enc in Hl; lia|].
    rewrite E1, E2, E3, E4. cbv zeta. rewrite !be_dec_enc_small by (lia || by apply Z.mod_pos_bound; lia).
    destruct (Z.leb_spec (d_K d) 0); [lia|]. destruct (Z.leb_spec (d_M d) 0); [lia|]. cbn [orb].
    fold (d_N d). unfold u16. destruct (Z.leb_spec (d_N d) 65535) as [Hle|Hgt].
    + rewrite Z.mod_small by (unfold d_N in *; lia). rewrite Z.eqb_refl. cbn [negb].
      rewrite !length_app, !length_be_enc, Hc.
      destruct (Z.eqb_spec (Z.of_nat (2 + (2 + (2 + length (d_Shards d) * 32)))) (6 + d_N d * Z.of_nat idSize))
        as [_|Hne]; [|unfold idSize in Hne; lia].
      cbn [negb]. replace (Z.to_nat (d_N d)) with (length (d_Shards d)) by lia.
      unfold idSize. rewrite group_fuel_concat by done. by destruct d.
    + destruct (Z.eqb_spec (d_N d mod 2 ^ 16) (d_N d)) as [E|]; [|done].
      pose proof (Z.mod_pos_bound (d_N d) (2 ^ 16)). lia.
Qed.

(** Grants: a grant built by the owner of a signing key verifies for its
    stripe, yields the owner's public key, carries the nonce that revokes it,
    and stops verifying exactly one second after its (non-zero) expiry; and no
    successful verification ever accepts a signature over anything but the
    domain, expiry, nonce and descriptor it reports: a signed payload
    determines all three, so a grant cannot be moved to another stripe. *)
Theorem grant_correct `{Ed25519} (signer nonce : bytes) (d : Descriptor) (expiry : Z) :
  Forall is_id (d_Shards d) → desc_ok d → in_i64 expiry → length nonce = 8%nat →
  ∃ grant desc, BuildGrant (Some nonce) signer d expiry = Ok grant ∧
    MarshalBinary d = Ok desc ∧ length grant = GrantSize ∧ GrantNonce grant = Ok nonce ∧
    (∀ now, VerifyGrant grant d now =
       if negb (expiry =? 0) && (expiry <? Unix now) then Err ErrGrantExpired else Ok (Public signer)) ∧
    (∀ g d' now owner, Forall is_id (d_Shards d') → VerifyGrant g d' now = Ok owner →
       ∃ desc', MarshalBinary d' = Ok desc' ∧
         Verify owner (grantPayload (grant_expiry g) (grant_nonce g) desc') (grant_sig g) = true ∧
         (grantPayload (grant_expiry g) (grant_nonce g) desc' = grantPayload expiry nonce desc →
            d' = d ∧ grant_expiry g = expiry ∧ grant_nonce g = nonce)).
Proof.
  intros Hs Hd He Hn.
  destruct (MarshalBinary d) as [desc|] eqn:Em.
  2:{ assert (∃ b, MarshalBinary d = Ok b) as [b Eb] by (eexists; by apply MarshalBinary_Ok). congruence. }
  pose proof (ed_public_length signer) as Hp.
  pose proof (ed_sign_length signer (grantPayload expiry nonce desc)) as Hsig.
  destruct (grant_fields (Public signer) expiry nonce (Sign signer (grantPayload expiry nonce desc))
    Hp Hn Hsig He) as (Hl & Ep & Ee & Enn & Es).
  eexists _, desc. unfold BuildGrant. rewrite Em. cbn [mbind result_bind]. split_and!; [reflexivity|done|done| | |].
  - unfold GrantNonce. destruct (decide _) as [Hne|_]; [done|]. by rewrite Enn.
  - intros now. unfold VerifyGrant. destruct (decide _) as [Hne|_]; [done|].
    rewrite Ep, Ee, Enn, Es. destruct (negb (expiry =? 0) && (expiry <? Unix now)); [done|].
    rewrite Em. simpl. unfold Verify, Public, Sign. by rewrite ed_verify_sign.
  - intros g d' now owner Hs' Hv. unfold VerifyGrant in Hv. destruct (decide _) as [|Hlg]; [done|].
    destruct (negb (grant_expiry g =? 0) && _); [done|]. apply bind_Ok in Hv as (desc' & Em' & Hv).
    destruct (Verify _ _ _) eqn:Ev; simplify_eq/=. exists desc'. split_and!; [done|done|].
    intros Epay. apply grantPayload_inj in Epay as (-> & -> & ->); [|apply i64_range|done| |done].
    + by rewrite (MarshalBinary_inj d' d desc).
    + apply dec_stable in Hlg. unfold grant_nonce. rewrite length_take, length_drop, Hlg. done.
Qed.

Definition ex_desc : Descriptor := mkDesc 2 1 [replicate 32 Byte.x01; replicate 32 Byte.x02; replicate 32 Byte.x03].

Lemma grant_correct_witness :
  ∃ grant, @BuildGrant toy_ed (Some (replicate 8 Byte.x05)) [Byte.x09] ex_desc 100 = Ok grant ∧
    @VerifyGrant toy_ed grant ex_desc (100 * Second) = Ok (@Public toy_ed [Byte.x09]) ∧
    @VerifyGrant toy_ed grant ex_desc (101 * Second) = Err ErrGrantExpired.
Proof.
  destruct (@grant_correct toy_ed [Byte.x09] (replicate 8 Byte.x05) ex_desc 100)
    as (g & desc & Hb & _ & _ & _ & Hv & _).
  - repeat constructor.
  - unfold desc_ok, d_N; simpl; lia.
  - unfold in_i64; lia.
  - reflexivity.
  - exists g. split; [exact Hb|]. rewrite !Hv. split; vm_compute; reflexivity.
Defined.
