(* ===== verification/Erasure.v ===== *)
(** * internal/erasure: length-framed Reed-Solomon coding

    The coder itself ([klauspost/reedsolomon]) is not part of the repository:
    it is the class [ReedSolomon], and [RSLaws K M] states what its
    documentation promises for [K] data and [M] parity shards. A missing shard
    (a nil slice) is [None]. *)

From S2P Require Import Prelude GoLib.

Class ReedSolomon := {
  Encoder : Type;
  rs_New : Z → Z → option Encoder;
  rs_Split : Encoder → bytes → option (list bytes);
  rs_Encode : Encoder → list bytes → option (list bytes);
  rs_Reconstruct : Encoder → list (option bytes) → option (list bytes);
  rs_Join : Encoder → list bytes → Z → option bytes;
}.

Definition shards_of (L : nat) (n : Z) (sh : list bytes) : Prop :=
  Z.of_nat (length sh) = n ∧ Forall (λ s, length s = L) sh.

Definition count_present (holes : list (option bytes)) : Z :=
  Z.of_nat (length (List.filter (λ h, match h with Some _ => true | None => false end) holes)).

(** [holes] is [sh] with some shards lost. *)
Definition survivors (sh : list bytes) (holes : list (option bytes)) : Prop :=
  Forall2 (λ s h, h = None ∨ h = Some s) sh holes.

Class RSLaws `{ReedSolomon} (K M : Z) := {
  rs_enc : Encoder;
  rs_new_ok : rs_New K M = Some rs_enc;
  (** Split cuts a non-empty payload, zero-padded, into K equal data shards and
      leaves room for M parity shards of the same size. *)
  rs_split_ok : ∀ payload, payload ≠ [] → ∃ sh L pad,
    rs_Split rs_enc payload = Some sh ∧ (0 < L)%nat ∧ shards_of L (K + M) sh ∧
    concat (take (Z.to_nat K) sh) = payload ++ replicate pad Byte.x00;
  (** Encode fills the parity shards and keeps the data shards. *)
  rs_encode_ok : ∀ sh L, (0 < L)%nat → shards_of L (K + M) sh → ∃ c,
    rs_Encode rs_enc sh = Some c ∧ shards_of L (K + M) c ∧
    take (Z.to_nat K) c = take (Z.to_nat K) sh;
  (** Any K shards of a codeword determine it. *)
  rs_reconstruct_ok : ∀ sh L c holes, (0 < L)%nat → shards_of L (K + M) sh →
    rs_Encode rs_enc sh = Some c → survivors c holes → K ≤ count_present holes →
    rs_Reconstruct rs_enc holes = Some c;
  (** Join concatenates the data shards, cut to the requested size. *)
  rs_join_ok : ∀ sh L size, shards_of L (K + M) sh → 0 ≤ size ≤ K * Z.of_nat L →
    rs_Join rs_enc sh size = Some (take (Z.to_nat size) (concat (take (Z.to_nat K) sh)));
}.

Inductive erasure_err :=
| ErrInvalidParams | ErrTooManyShards | ErrNew
| ErrSplit | ErrEncode
| ErrShardsLen | ErrTooFew | ErrReconstruct | ErrJoin | ErrPayloadShort | ErrDeclaredLength.
#[export] Instance erasure_err_eq_dec : EqDecision erasure_err.
Proof. solve_decision. Defined.

Definition headerSize : nat := 8.

Record Params := mkParams { p_K : Z; p_M : Z }.
#[export] Instance Params_eq_dec : EqDecision Params.
Proof. solve_decision. Defined.
Definition p_N (p : Params) : Z := p_K p + p_M p.

Definition validate (p : Params) : result erasure_err unit :=
  if (p_K p <? 1) || (p_M p <? 1) then Err ErrInvalidParams
  else if 256 <? p_N p then Err ErrTooManyShards
  else Ok tt.

Section coding.
Context `{RS : ReedSolomon}.

Definition encoder (p : Params) : result erasure_err Encoder :=
  _ ← validate p; of_option ErrNew (rs_New (p_K p) (p_M p)).

Definition Encode (p : Params) (data : bytes) : result erasure_err (list bytes) :=
  enc ← encoder p;
  let payload := be_enc headerSize (u64 (Z.of_nat (length data))) ++ data in
  shards ← of_option ErrSplit (rs_Split enc payload);
  of_option ErrEncode (rs_Encode enc shards).

Definition Decode (p : Params) (shards : list (option bytes)) : result erasure_err bytes :=
  enc ← encoder p;
  if negb (Z.of_nat (length shards) =? p_N p) then Err ErrShardsLen
  else if count_present shards <? p_K p then Err ErrTooFew
  else
    full ← of_option ErrReconstruct (rs_Reconstruct enc shards);
    let shardLen := Z.of_nat (length (default [] (full !! 0%nat))) in
    payload ← of_option ErrJoin (rs_Join enc full (p_K p * shardLen));
    if decide (length payload < headerSize)%nat then Err ErrPayloadShort
    else
      let origLen := be_dec (take headerSize payload) in
      if Z.of_nat (length payload - headerSize) <? origLen then Err ErrDeclaredLength
      else Ok (take (Z.to_nat origLen) (drop headerSize payload)).

(** The valid parameters for which the library keeps its promises. *)
Definition params_ok (p : Params) : Prop := validate p = Ok tt.

Lemma params_ok_spec p : params_ok p ↔ 1 ≤ p_K p ∧ 1 ≤ p_M p ∧ p_N p ≤ 256.
Proof.
  unfold params_ok, validate.
  destruct (Z.ltb_spec (p_K p) 1); [split; [done|lia]|].
  destruct (Z.ltb_spec (p_M p) 1); [split; [done|lia]|]. cbn [orb].
  destruct (Z.ltb_spec 256 (p_N p)); split; try done; lia.
Qed.

Lemma encoder_ok p `{L : !RSLaws (p_K p) (p_M p)} :
  params_ok p → encoder p = Ok rs_enc.
Proof. intros Hp. unfold encoder. rewrite Hp. simpl. by rewrite rs_new_ok. Qed.

Lemma survivors_length sh holes : survivors sh holes → length holes = length sh.
Proof. intros H. by rewrite (Forall2_length _ _ _ H). Qed.

Lemma survivors_all sh : survivors sh (Some <$> sh).
Proof. induction sh; constructor; auto. Qed.

Lemma count_present_all sh : count_present (Some <$> sh) = Z.of_nat (length sh).
Proof.
  unfold count_present. induction sh as [|s sh IH]; [done|].
  cbn [fmap list_fmap List.filter length]. fold (fmap (M:=list) (@Some bytes) sh). lia.
Qed.

Lemma length_data_shards L n k sh :
  0 ≤ k ≤ n → shards_of L n sh →
  length (concat (take (Z.to_nat k) sh)) = (Z.to_nat k * L)%nat.
Proof.
  intros Hk [Hn HF]. rewrite (length_concat_uniform L) by (by apply Forall_take).
  rewrite length_take. f_equal. lia.
Qed.

(** What Encode produces: one shard length, and enough to decode. *)
Lemma Encode_shape p `{L : !RSLaws (p_K p) (p_M p)} data :
  params_ok p →
  ∃ sh c n pad, Encode p data = Ok c ∧ (0 < n)%nat ∧
    rs_Encode rs_enc sh = Some c ∧ shards_of n (p_N p) sh ∧ shards_of n (p_N p) c ∧
    concat (take (Z.to_nat (p_K p)) c) =
      be_enc headerSize (u64 (Z.of_nat (length data))) ++ data ++ replicate pad Byte.x00.
Proof.
  intros Hp. set (payload := be_enc headerSize (u64 (Z.of_nat (length data))) ++ data).
  assert (payload ≠ []) as Hne.
  { intros E. apply (f_equal length) in E. unfold payload in E. rewrite length_app, length_be_enc in E. done. }
  destruct (rs_split_ok payload Hne) as (sh & n & pad & Es & Hn & Hsh & Ec).
  destruct (rs_encode_ok sh n Hn Hsh) as (c & Ee & Hc & Et).
  exists sh, c, n, pad. unfold Encode. rewrite (encoder_ok p) by done. cbn [mbind result_bind].
  fold payload. rewrite Es. cbn [of_option mbind result_bind]. rewrite Ee. split_and!; try done.
  rewrite Et, Ec. unfold payload. by rewrite <-app_assoc.
Qed.

Lemma erasure_shape_ok p `{L : !RSLaws (p_K p) (p_M p)} data :
  params_ok p → ∃ c n, Encode p data = Ok c ∧ shards_of n (p_N p) c.
Proof.
  intros Hp. destruct (Encode_shape p data Hp) as (sh & c & n & pad & Ee & _ & _ & _ & Hc & _).
  by exists c, n.
Qed.

Lemma Decode_survivors p `{L : !RSLaws (p_K p) (p_M p)} data c holes :
  params_ok p → Z.of_nat (length data) < 2 ^ 63 → Encode p data = Ok c → survivors c holes →
  p_K p ≤ count_present holes → Decode p holes = Ok data.
Proof.
  intros Hp Hd Ee Hs Hc. pose proof (proj1 (params_ok_spec p) Hp) as (HK & HM & HN).
  destruct (Encode_shape p data Hp) as (sh & c' & n & pad & Ee' & Hn & Er & Hsh & Hc' & Econ).
  assert (c' = c) as -> by congruence.
  unfold Decode. rewrite (encoder_ok p) by done. cbn [mbind result_bind].
  rewrite (survivors_length _ _ Hs). destruct Hc' as [Hl HF]. rewrite Hl, Z.eqb_refl. cbn [negb].
  destruct (Z.ltb_spec (count_present holes) (p_K p)); [lia|].
  rewrite (rs_reconstruct_ok sh n c holes) by done. cbn [of_option mbind result_bind].
  assert (length (default [] (c !! 0%nat)) = n) as ->.
  { destruct c as [|c0 c]; [simpl in Hl; unfold p_N in *; lia|]. by inversion HF. }
  cbv zeta. rewrite (rs_join_ok c n) by (done || lia).
  pose proof (length_data_shards n (p_N p) (p_K p) c ltac:(unfold p_N; lia) (conj Hl HF)) as Hlen.
  cbn [of_option mbind result_bind].
  rewrite take_ge by lia. rewrite Econ in Hlen |- *. rewrite !length_app, length_be_enc in Hlen.
  destruct (decide _) as [Hlt|_]; [rewrite !length_app, length_be_enc in Hlt; lia|].
  rewrite take_app_eq, drop_app_eq by (by rewrite length_be_enc).
  assert (be_dec (be_enc headerSize (u64 (Z.of_nat (length data)))) = Z.of_nat (length data)) as ->.
  { unfold u64. rewrite Z.mod_small by lia. apply be_dec_enc_small. unfold headerSize. lia. }
  rewrite !length_app, length_be_enc, length_replicate.
  destruct (Z.ltb_spec (Z.of_nat (headerSize + (length data + pad) - headerSize)) (Z.of_nat (length data)));
    [lia|].
  by rewrite Nat2Z.id, take_app_length.
Qed.
End coding.

(** ** A concrete 2+1 code: the parity shard is the exclusive or *)

Module Xor.
Definition xor8 (a b : byte) : byte := Z2b (Z.lxor (b2Z a) (b2Z b)).
Definition xor (x y : bytes) : bytes := zip_with xor8 x y.

Lemma lxor_range a b : 0 ≤ a < 256 → 0 ≤ b < 256 → 0 ≤ Z.lxor a b < 256.
Proof.
  intros Ha Hb. split; [apply Z.lxor_nonneg; lia|].
  destruct (Z.eq_dec (Z.lxor a b) 0) as [->|Hne]; [lia|].
  assert (0 ≤ Z.lxor a b) by (apply Z.lxor_nonneg; lia).
  apply (Z.log2_lt_pow2 _ 8); [lia|].
  pose proof (Z.log2_lxor a b ltac:(lia) ltac:(lia)).
  assert (Z.log2 a < 8) by (destruct (Z.eq_dec a 0) as [->|]; [simpl; lia|apply Z.log2_lt_pow2; lia]).
  assert (Z.log2 b < 8) by (destruct (Z.eq_dec b 0) as [->|]; [simpl; lia|apply Z.log2_lt_pow2; lia]).
  lia.
Qed.

Lemma b2Z_xor8 a b : b2Z (xor8 a b) = Z.lxor (b2Z a) (b2Z b).
Proof. unfold xor8. rewrite b2Z_Z2b, Z.mod_small; [done|]. apply lxor_range; apply b2Z_range. Qed.

Lemma xor8_cancel a b : xor8 a (xor8 a b) = b ∧ xor8 b (xor8 a b) = a.
Proof.
  split; apply (inj b2Z); rewrite !b2Z_xor8.
  - by rewrite <-Z.lxor_assoc, Z.lxor_nilpotent, Z.lxor_0_l.
  - by rewrite (Z.lxor_comm (b2Z a)), <-Z.lxor_assoc, Z.lxor_nilpotent, Z.lxor_0_l.
Qed.

Lemma xor_cancel x y : length x = length y → xor x (xor x y) = y ∧ xor y (xor x y) = x.
Proof.
  revert y. induction x as [|a x IH]; intros [|b y] Hl; simpl in *; try done.
  destruct (IH y) as [E1 E2]; [lia|]. destruct (xor8_cancel a b) as [F1 F2].
  unfold xor in *. split; by f_equal.
Qed.

Lemma length_xor x y : length x = length y → length (xor x y) = length x.
Proof. intros. unfold xor. rewrite length_zip_with. lia. Qed.

Definition half (l : nat) : nat := Nat.div (l + 1) 2.

Definition split (payload : bytes) : option (list bytes) :=
  match payload with
  | [] => None
  | _ =>
      let L := half (length payload) in
      let padded := payload ++ replicate (2 * L - length payload) Byte.x00 in
      Some [take L padded; drop L padded; replicate L Byte.x00]
  end.

Definition encode (sh : list bytes) : option (list bytes) :=
  match sh with [a; b; _] => Some [a; b; xor a b] | _ => None end.

Definition reconstruct (holes : list (option bytes)) : option (list bytes) :=
  match holes with
  | [Some a; Some b; _] => Some [a; b; xor a b]
  | [None; Some b; Some p] => Some [xor b p; b; p]
  | [Some a; None; Some p] => Some [a; xor a p; p]
  | _ => None
  end.

Definition join (sh : list bytes) (size : Z) : option bytes :=
  match sh with
  | [a; b; _] => if Z.of_nat (length (a ++ b)) <? size then None else Some (take (Z.to_nat size) (a ++ b))
  | _ => None
  end.

Definition coder : ReedSolomon := {|
  Encoder := unit;
  rs_New k m := if (k =? 2) && (m =? 1) then Some tt else None;
  rs_Split _ := split; rs_Encode _ := encode;
  rs_Reconstruct _ := reconstruct; rs_Join _ := join |}.

Lemma shards_of_3 L sh : shards_of L 3 sh →
  ∃ a b c, sh = [a; b; c] ∧ length a = L ∧ length b = L ∧ length c = L.
Proof.
  intros [Hl HF]. destruct sh as [|a [|b [|c [|]]]]; simpl in Hl; try lia.
  apply Forall_cons in HF as [? HF]. apply Forall_cons in HF as [? HF]. apply Forall_cons in HF as [? _].
  by exists a, b, c.
Qed.

Lemma mk_shards_of_3 L a b c : length a = L → length b = L → length c = L → shards_of L 3 [a; b; c].
Proof. intros. split; [done|]. by repeat constructor. Qed.

Lemma half_bound n : (0 < n → 0 < half n ∧ n ≤ 2 * half n)%nat.
Proof. unfold half. intros. pose proof (Nat.div_mod_eq (n + 1) 2). pose proof (Nat.mod_upper_bound (n + 1) 2). lia. Qed.

#[global] Instance coder_laws : @RSLaws coder 2 1.
Proof.
  refine (@Build_RSLaws coder 2 1 (tt : @Encoder coder) eq_refl _ _ _ _);
    cbn [rs_Split rs_Encode rs_Reconstruct rs_Join coder].
  - intros payload Hne. set (L := half (length payload)).
    assert (0 < length payload)%nat as Hpos by (destruct payload; [done|simpl; lia]).
    destruct (half_bound _ Hpos) as [H1 H2]. fold L in H1, H2.
    set (padded := payload ++ replicate (2 * L - length payload) Byte.x00).
    assert (length padded = (2 * L)%nat) as Hlp.
    { unfold padded. rewrite length_app, length_replicate. lia. }
    exists [take L padded; drop L padded; replicate L Byte.x00], L, (2 * L - length payload)%nat.
    split_and!; [by destruct payload|done| |].
    + apply mk_shards_of_3; rewrite ?length_take, ?length_drop, ?length_replicate; lia.
    + change (Z.to_nat 2) with 2%nat. cbn [take concat]. by rewrite app_nil_r, take_drop.
  - intros sh L HL (a & b & c & -> & Ha & Hb & Hc)%shards_of_3. eexists. split; [done|]. split; [|done].
    apply mk_shards_of_3; [done..|]. rewrite length_xor; congruence.
  - intros sh L c holes HL (a & b & x & -> & Ha & Hb & Hx)%shards_of_3 [= <-] Hs Hcount.
    destruct (xor_cancel a b) as [E1 E2]; [congruence|].
    apply Forall2_cons_inv_l in Hs as (h1 & l1 & H1 & Hs & ->).
    apply Forall2_cons_inv_l in Hs as (h2 & l2 & H2 & Hs & ->).
    apply Forall2_cons_inv_l in Hs as (h3 & l3 & H3 & Hs & ->).
    apply Forall2_nil_inv_l in Hs as ->.
    destruct H1 as [-> | ->], H2 as [-> | ->], H3 as [-> | ->]; vm_compute in Hcount; try done;
      simpl; rewrite ?E1, ?E2; done.
  - intros sh L size (a & b & c & -> & Ha & Hb & Hc)%shards_of_3 Hsize.
    simpl. rewrite app_nil_r. destruct (Z.ltb_spec (Z.of_nat (length (a ++ b))) size); [|done].
    rewrite length_app in *. lia.
Qed.
End Xor.

(** ** Properties *)

(** Any K of N: for valid parameters, every blob below 2^63 bytes encodes
    into N shards of one common length; any K or more surviving shards decode
    to exactly the original bytes, and fewer than K are refused. *)
Theorem erasure_any_k `{ReedSolomon} (p : Params) `{L : !RSLaws (p_K p) (p_M p)} (data : bytes) :
  params_ok p → Z.of_nat (length data) < 2 ^ 63 →
  ∃ shards n, Encode p data = Ok shards ∧ shards_of n (p_N p) shards ∧
    ∀ holes, survivors shards holes →
      Decode p holes = if p_K p <=? count_present holes then Ok data else Err ErrTooFew.
Proof.
  intros Hp Hd. destruct (Encode_shape p data Hp) as (sh & c & n & pad & Ee & _ & _ & _ & Hc & _).
  exists c, n. split; [done|]. split; [done|]. intros holes Hs.
  destruct (Z.leb_spec (p_K p) (count_present holes)); [by apply (Decode_survivors p data c)|].
  unfold Decode. rewrite (encoder_ok p) by done. cbn [mbind result_bind].
  rewrite (survivors_length _ _ Hs), (proj1 Hc), Z.eqb_refl. cbn [negb].
  destruct (Z.ltb_spec (count_present holes) (p_K p)); [done|lia].
Qed.

(** The 2+1 code on five bytes, first shard lost. *)
Lemma erasure_any_k_witness :
  let data := [Byte.x01; Byte.x02; Byte.x03; Byte.x04; Byte.x05] in
  ∃ a b c, @Encode Xor.coder (mkParams 2 1) data = Ok [a; b; c] ∧
           @Decode Xor.coder (mkParams 2 1) [None; Some b; Some c] = Ok data.
Proof.
  cbn zeta.
  destruct (@erasure_any_k Xor.coder (mkParams 2 1) Xor.coder_laws
    [Byte.x01; Byte.x02; Byte.x03; Byte.x04; Byte.x05]) as (sh & n & E & Hs & Hd).
  - reflexivity.
  - vm_compute. reflexivity.
  - destruct (Xor.shards_of_3 n sh Hs) as (a & b & c & -> & _).
    exists a, b, c. split; [exact E|]. refine (Hd [None; Some b; Some c] _).
    constructor; [by left|]. constructor; [by right|]. constructor; [by right|]. constructor.
Defined.
