(* ===== verification/Chunk.v ===== *)
(** * internal/chunk: fixed-size and content-defined chunking

    A reader delivers its bytes and then ends, cleanly or with an error. The
    iterators are modelled by the list of the values they yield, each a chunk
    or an error, in order; a consumer that stops early sees a prefix of it. *)

From S2P Require Import Prelude GoLib.

(** [r_err]: the stream ends with an error other than io.EOF. *)
Record Reader := mkReader { r_data : bytes; r_err : bool }.

Inductive chunk_err := ErrSize | ErrChunkRead | ErrCDCPositive | ErrCDCOrder.

Definition DefaultSize : Z := 4 * 2 ^ 20.

(** ** chunk.go *)

(** One [io.ReadFull] per iteration: a full buffer, a short final one
    ([ErrUnexpectedEOF]), nothing ([EOF]), or the reader's error. *)
Fixpoint fixed_loop (fuel : nat) (size : nat) (r : Reader) : list (result chunk_err bytes) :=
  match fuel with
  | O => []
  | S fuel =>
      if decide (size ≤ length (r_data r))%nat then
        Ok (take size (r_data r)) :: fixed_loop fuel size (mkReader (drop size (r_data r)) (r_err r))
      else if r_err r then [Err ErrChunkRead]
      else match r_data r with
           | [] => []
           | d => [Ok d]
           end
  end.

Definition Fixed (r : Reader) (size : Z) : list (result chunk_err bytes) :=
  if size <=? 0 then [Err ErrSize]
  else fixed_loop (S (length (r_data r))) (Z.to_nat size) r.

(** ** cdc.go *)

(** The literal of the source lists 232 values; the remaining 24 entries of the
    256-element array are zero. *)
Definition gearTable : list Z := [
   0x9f34e5c3c0f16e4a; 0x6a7b1d2e39f8c420; 0x3b8e2f1a7c4d9056; 0xd1c4a8e5b2730f91;
   0x47f3d0629a8e1c5b; 0x8c1e6b3f4a920d7e; 0xe2a50d7819c634bf; 0x5d9f324e6b801ac7;
   0xb4e71c8a3f0d5296; 0x29c068d51e4b9f73; 0x7f3a94b2c0851e6d; 0xc8d31f7a640e92b5;
   0x1a6e8b4f3c9d0257; 0xf0824c1d9e3b6a78; 0x63b9e5d2471a8c0f; 0xa5071c3e6b924df8;
   0x4c3f8a0d21e96b57; 0x8b14d63c7f0e5a29; 0xe94a2f810c736d4b; 0x261d5c9e4a807f38;
   0x7038bc4d1e6a2951; 0xd56f193a80c4e72b; 0x4b827e0d39f15c6a; 0x9c0e61db2a845f37;
   0x53d1f4820e9b7c16; 0xb7e80a3c64952d1f; 0x2a6c197f4d031be8; 0x8e3541b0c762d9f4;
   0x167f9d4a3c810e2b; 0xf48c3256b09d7e14; 0x65b01d8a3942fc7e; 0xab7c5e1628034d9f;
   0x3980b2fd14c76e5a; 0xd0c5a81e6b392f74; 0x4e2f97d01b836c58; 0x94b13f6820c45a7d;
   0x5c7e02a4d91b8f36; 0xb8604c3d1a7f52e9; 0x27934ab0c56e1d80; 0x81d65f2c0e4b9a73;
   0x462c9f350d817be4; 0xc0971a8e4f235d6b; 0x1b83d40c6f9e52a7; 0x7f5e2c04a8319bd6;
   0xd246e8b13c7a059f; 0x3b9f5d7021c4ea68; 0x8e04c1a36b5f9d27; 0x64a83e2019b7f50c;
   0xa15f72d048c39e6b; 0x503c8e1b962da4f7; 0xb7920d4a3fc16e58; 0x2dc48f71a0361b9e;
   0x7361b2c54e09d8af; 0xcf8a4d1736b250e9; 0x1540dc93e07b2a6f; 0x8b27f16e4d39c05a;
   0xe95014c83a7fd26b; 0x4c73ba2d0f81659e; 0x9681c5f34a0e2d7b; 0x3d0f4e8a17962c51;
   0xb2e7901c4a5f3d86; 0x67c34b1fe0928d5a; 0x1a8fd0752b4c9e63; 0xdc132e40f79b6a85;
   0x4f8b60c31d725ea9; 0xa3712de58c046f9b; 0x5e9c84f1270b3da6; 0x0b4e27d3a6819c5f;
   0x6834af09c1752de8; 0xc97d52be3f018a46; 0x2b0e16f980c73d54; 0x85fc3a4e7d19b0c2;
   0x41d08ce62b79f35a; 0xfb6e41a08c250d97; 0x30c8953d7b146fe2; 0x8e5f20c61a7d4b93;
   0x673ba14df8090e5c; 0xca921e83b540fd27; 0x1d6f4c0b7a83e251; 0x78b039d46c1ae09f;
   0xb4c72d8a0f451396; 0x2530f1c78d69b4ae; 0x8ec0461ba3972d50; 0x5d17c4f0b82a6e39;
   0xa3fb29d01c7e4586; 0x4180da56c3f90b2e; 0xec361bc94a870d75; 0x1a79f5d32b0c8e46;
   0x7bc3042f8e561da9; 0xd5817a3c4f92e06b; 0x2e4cd0b18a7935f6; 0x90b74e2a6c013d58;
   0x531ef8a4d0269cb7; 0xba90c5f42d0e3176; 0x06d23e9b5f7c84a1; 0x69c4017de83f52b8;
   0xdc3e85a0f1624b97; 0x418c7b2fe0931d56; 0xb7f0d5c42a8e6019; 0x2e64b98c3d1075af;
   0x8931c4a57f0eb2d6; 0x40dc2f936b75e8a1; 0xfbc1568d2a034e97; 0x1f8a4e7b6c920d53;
   0x75c803b14d2fe6a8; 0xd03f6c5a1e8b2974; 0x4ae9718d3f0c4b52; 0x921b45dc7f6e03a8;
   0x5678f1a30c4d9e2b; 0xbfd0382e95014a67; 0x2c4b1f7980da35e6; 0x8309dc2e4f7b1a5c;
   0x6fa5381c0d79c4be; 0xc02f9b74e3051d68; 0x1753e0c48b2a6df9; 0x7b8da4f31c590e27;
   0xdf2060bc4e1a8375; 0x439c15f7a2086de0; 0xacf8302db5671c49; 0x0d4e1b7836c09fa5;
   0x7081d5e43a2cb916; 0xcfe4093b17802d5a; 0x23b6f80a4c5d1e97; 0x8c19743de06b2fa5;
   0x5a2e9f0b1d73c486; 0xb03f61c74a85d2e9; 0x2749c8e53d1f0a6b; 0x81ba057c3f4d9e20;
   0x4c671ae83090b5d2; 0xf8bd35a14d206c97; 0x163c07e5b8491da2; 0x79e8b0f34256ca1d;
   0xd1408dca7b3f1962; 0x3e8c02f41b7a5d86; 0x9051b67ae23c4f08; 0x47c8290db53e6fa1;
   0xab7f50d312086c4e; 0x0e3ab16c7f45d982; 0x6c84d0f25a39107b; 0xc9053e7b4d821fa6;
   0x1548a0d37b96f2ce; 0x70b92e15f4831cd6; 0xda6f80b23c4917e5; 0x3105e4b97c2d6fa8;
   0x8cd3a0516e2f4b97; 0x5b9e42f30a7c1d86; 0xbf031a6e9c7840d2; 0x26d45b0f83e10ca7;
   0x8f60c2de1a4937b5; 0x421f7e8b30950ca6; 0xec8d3b5f7c0241a9; 0x0934f1a7c86d05be;
   0x7b5ce4230f1a8d96; 0xd81b7690f34a25ce; 0x4053a2db7f6e1c89; 0xac97348b201f6d5e;
   0x1e4f8b0d37c69a52; 0x7890d5ea4b2c13f6; 0xdf2461c0893b7a15; 0x3a685f9e1d4c20b7;
   0x93c0d4f72e815b46; 0x50a7831cd4f09e2b; 0xb4e01f5a3c86d297; 0x2b6d94c7f0a31058;
   0x8751c0e43d6b9f2a; 0x4c0e25f980b37a16; 0xfb8d47c01a3296e5; 0x1239b0c87e6f4d5a;
   0x7e64fa2c130b8d97; 0xd90e7b3f4a251c86; 0x3dc8014e7b9f6250; 0x921b58a43c0fd7e6;
   0x5f83d01c2a796eb4; 0xbc4e2f07639d1a58; 0x0a718db54c2e6f93; 0x68c0349fe72b15a0;
   0xd1f5820b3c4a9e67; 0x3a4d7b9c610e58f2; 0x9560af2e1b4d73c8; 0x52b8e0f43c0a19d6;
   0xb04f93e71d56c28a; 0x2d8a17046c3b9fe5; 0x87f5e24c0b391da6; 0x43160cb98e7f52d0;
   0xfe924a7b3d0158c6; 0x1bc5d48e7a236f90; 0x7831f9c04b6ad25e; 0xd4c2057a3b91e6f8;
   0x3069bd4ef5280ca1; 0x9a5f234c1e7d60b8; 0x57c0ba8e4f319d26; 0xb1e4380d73956ca0;
   0x2cf7104a86b3d59e; 0x8340b2f5c96e01d7; 0x48d2e93b7a0c5f61; 0xf5081c6adb730e94;
   0x13e9d0c47f8b625a; 0x7a4b25f83c609de1; 0xde01c7a48b5f23e6; 0x36f84e92c1a7d05b;
   0x9c2b06d15f4a38e7; 0x5971b38e2c0df4a6; 0xb4e0d2f43a815c09; 0x21c7809e5b4d3fa6;
   0x86f3c41d7a029e58; 0x4a08b69fd23c517e; 0xfc7d412a8e053b96; 0x1043a6c87b9f2d5e;
   0x7e69bc30f5214a98; 0xd204f8c1b3760e5a; 0x3e90d24a79f1b58c; 0x9b56a403d20e7c1f;
   0x5731cf8a4b960d2e; 0xb8e04d1672853acf; 0x2509b3e7c8f01d46; 0x8ac4701b3f9d6528;
   0x4618fe2b0c4a97d5; 0xf0cd38a17b652e09; 0x1d72b0c58a94f63e; 0x79e5c4d030b21fa8;
   0xd361f85a4c027b9e; 0x3c8d017e4b69af52; 0x9a20e6b53d810c47; 0x57b4fa028c3619de;
   0xbc01e7539f2d4a86; 0x2de4930b7f618c50; 0x83f76c4d1a09b52e; 0x410cb9e27f3d8065;
   0xfeb2574c0a81d39e; 0x1c674b8f3d520ea9; 0x7a08d3c65e9b24f1; 0xd4bf290a3c1e7658] ++ replicate 24 0.

(** [for (1 << bits) < targetSize { bits++ }] on a 64-bit int, where the shift
    wraps: 64 steps reach every shift that can end the loop. *)
Fixpoint mask_bits (fuel : nat) (bits : Z) (targetSize : Z) : option Z :=
  match fuel with
  | O => None
  | S fuel => if i64 (Z.shiftl 1 bits) <? targetSize then mask_bits fuel (bits + 1) targetSize
              else Some bits
  end.

Definition gear_step (gear : Z) (b : byte) : Z :=
  Z.lxor (u64 (Z.shiftl gear 1)) (nth (Z.to_nat (b2Z b)) gearTable 0).

(** The inner loop: how many more bytes of [rest] this chunk takes, having
    taken [n] with rolling hash [gear]; the boolean says the reader ended. *)
Fixpoint cdc_scan (minSize maxSize : Z) (mask n gear : Z) (rest : bytes) : nat * bool :=
  if maxSize <=? n then (0%nat, false)
  else
    match rest with
    | [] => (0%nat, true)
    | b :: rest =>
        let gear := gear_step gear b in
        let n := n + 1 in
        if (minSize <=? n) && (Z.land gear mask =? 0) then (1%nat, false)
        else let '(m, e) := cdc_scan minSize maxSize mask n gear rest in (S m, e)
    end.

Fixpoint cdc_loop (fuel : nat) (minSize maxSize mask : Z) (data : bytes) : list bytes :=
  match fuel with
  | O => []
  | S fuel =>
      let '(n, ended) := cdc_scan minSize maxSize mask 0 0 data in
      match n with
      | O => []
      | _ =>
          take n data ::
          (if ended then [] else cdc_loop fuel minSize maxSize mask (drop n data))
      end
  end.

(** [None] when the mask loop does not end. The reader's error is not looked
    at: the loop returns on any error after yielding what it has. *)
Definition CDC (r : Reader) (minSize targetSize maxSize : Z) : option (list (result chunk_err bytes)) :=
  if (minSize <=? 0) || (targetSize <=? 0) || (maxSize <=? 0) then Some [Err ErrCDCPositive]
  else if (targetSize <? minSize) || (maxSize <? targetSize) then Some [Err ErrCDCOrder]
  else
    bits ← mask_bits 65 0 targetSize;
    let mask := u64 (Z.shiftl 1 bits - 1) in
    Some (Ok <$> cdc_loop (S (length (r_data r))) minSize maxSize mask (r_data r)).

(** ** Fixed chunks *)

(** The reference: consecutive pieces of [size] bytes, and the remainder. *)
Definition pieces (size : nat) (d : bytes) : list bytes :=
  group size d ++
  (let rest := drop (length d / size * size)%nat d in match rest with [] => [] | _ => [rest] end).

Lemma div_step (n size : nat) : (0 < size → size ≤ n → n / size = S ((n - size) / size))%nat.
Proof.
  intros Hs Hle. replace n with ((n - size) + 1 * size)%nat at 1 by lia.
  rewrite Nat.div_add by lia. lia.
Qed.

Lemma pieces_step (size : nat) (d : bytes) :
  (0 < size)%nat → (size ≤ length d)%nat → pieces size d = take size d :: pieces size (drop size d).
Proof.
  intros Hs Hle. unfold pieces, group. rewrite length_drop, (div_step (length d)) by done.
  cbn [group_fuel app]. f_equal. f_equal. rewrite drop_drop. f_equal.
Qed.

Lemma pieces_short (size : nat) (d : bytes) :
  (length d < size)%nat → pieces size d = match d with [] => [] | _ => [d] end.
Proof. intros Hlt. unfold pieces, group. by rewrite Nat.div_small. Qed.

Lemma fixed_loop_pieces (fuel size : nat) (r : Reader) :
  (0 < size)%nat → (length (r_data r) < fuel)%nat →
  fixed_loop fuel size r =
    if r_err r then (Ok <$> group size (r_data r)) ++ [Err ErrChunkRead]
    else Ok <$> pieces size (r_data r).
Proof.
  intros Hs. revert r. induction fuel as [|fuel IH]; intros [d e] Hf; simpl in Hf; [lia|].
  cbn [fixed_loop r_data r_err]. destruct (decide (size ≤ length d)%nat) as [Hle|Hlt].
  - rewrite IH by (cbn [r_data]; rewrite length_drop; lia). cbn [r_data r_err].
    rewrite (pieces_step size d) by done. destruct e; [|done].
    unfold group. rewrite (div_step (length d)), length_drop by done. done.
  - rewrite pieces_short by lia. destruct e.
    + unfold group. by rewrite Nat.div_small by lia.
    + by destruct d.
Qed.

Lemma concat_pieces (size : nat) (d : bytes) : (0 < size)%nat → concat (pieces size d) = d.
Proof.
  intros Hs. remember (length d) as n eqn:Hn. revert d Hn.
  induction (lt_wf n) as [n _ IH]; intros d ->. destruct (decide (size ≤ length d)%nat) as [Hle|Hlt].
  - rewrite pieces_step by done. simpl. rewrite (IH (length (drop size d))); [apply take_drop| |done].
    rewrite length_drop. lia.
  - rewrite pieces_short by lia. destruct d; simpl; by rewrite ?app_nil_r.
Qed.

Lemma pieces_sizes (size : nat) (d : bytes) :
  (0 < size)%nat →
  ∀ pre last, pieces size d = pre ++ [last] →
    Forall (λ c, length c = size) pre ∧ (0 < length last ≤ size)%nat.
Proof.
  intros Hs. remember (length d) as n eqn:Hn. revert d Hn.
  induction (lt_wf n) as [n _ IH]; intros d -> pre last. destruct (decide (size ≤ length d)%nat) as [Hle|Hlt].
  - rewrite pieces_step by done. destruct pre as [|p pre]; simpl; intros E; injection E as Ep E.
    + subst last. rewrite length_take. split; [constructor|lia].
    + destruct (IH (length (drop size d)) ltac:(rewrite length_drop; lia) _ eq_refl _ _ E) as [HF Hl].
      split; [|done]. constructor; [|done]. subst p. rewrite length_take. lia.
  - rewrite pieces_short by lia. destruct d as [|x d]; [by destruct pre|].
    intros E. destruct pre as [|p pre]; [|by destruct pre]. injection E as <-.
    split; [constructor|simpl in *; lia].
Qed.

(** ** Content-defined chunks *)

Section cdc.
Context (minSize maxSize mask : Z).
Hypothesis Hmin : 0 < minSize ≤ maxSize.

(** A chunk of [n + m] bytes: within the bounds, cut where the hash says so
    or at the maximum, or the end of the input. *)
Lemma cdc_scan_spec n gear rest m e :
  0 ≤ n ≤ maxSize →
  cdc_scan minSize maxSize mask n gear rest = (m, e) →
  (m ≤ length rest)%nat ∧ n + Z.of_nat m ≤ maxSize ∧
  (e = true → m = length rest) ∧
  (e = false →
     n + Z.of_nat m = maxSize ∨
     (minSize ≤ n + Z.of_nat m ∧ (0 < m)%nat ∧ Z.land (foldl gear_step gear (take m rest)) mask = 0)) ∧
  (m = 0%nat → n < maxSize → rest = [] ∧ e = true).
Proof.
  revert n gear m e. induction rest as [|b rest IH]; intros n gear m e Hn.
  - cbn [cdc_scan]. destruct (Z.leb_spec maxSize n); intros [= <- <-]; simpl; split_and!; try done; lia.
  - cbn [cdc_scan]. destruct (Z.leb_spec maxSize n) as [Hge|Hlt].
    { intros [= <- <-]. simpl. split_and!; try done; lia. }
    destruct ((minSize <=? n + 1) && (Z.land (gear_step gear b) mask =? 0)) eqn:Ec.
    + intros [= <- <-]. apply andb_true_iff in Ec as [E1%Z.leb_le E2%Z.eqb_eq]. simpl.
      split_and!; try done; try lia.
    + destruct (cdc_scan minSize maxSize mask (n + 1) (gear_step gear b) rest) as [m' e'] eqn:Es.
      intros [= <- <-]. destruct (IH (n + 1) _ _ _ ltac:(lia) Es) as (H1 & H2 & H3 & H4 & H5).
      simpl. split_and!; try lia.
      * intros He. rewrite H3 by done. done.
      * intros He. destruct (H4 He) as [?|(? & ? & ?)]; [left; lia|right]. split_and!; [lia|lia|done].
Qed.

Lemma cdc_loop_fuel f f' data :
  (length data < f)%nat → (length data < f')%nat →
  cdc_loop f minSize maxSize mask data = cdc_loop f' minSize maxSize mask data.
Proof.
  revert f' data. induction f as [|f IH]; intros [|f'] data Hf Hf'; try lia. cbn [cdc_loop].
  destruct (cdc_scan minSize maxSize mask 0 0 data) as [n e] eqn:Es.
  destruct (cdc_scan_spec 0 0 data n e ltac:(lia) Es) as (H1 & _).
  destruct n as [|n]; [done|]. destruct e; [done|]. f_equal. apply IH; rewrite length_drop; lia.
Qed.

Lemma cdc_loop_concat f data :
  (length data < f)%nat → concat (cdc_loop f minSize maxSize mask data) = data.
Proof.
  revert data. induction f as [|f IH]; intros data Hf; [lia|]. cbn [cdc_loop].
  destruct (cdc_scan minSize maxSize mask 0 0 data) as [n e] eqn:Es.
  destruct (cdc_scan_spec 0 0 data n e ltac:(lia) Es) as (H1 & _ & H3 & _ & H5).
  destruct n as [|n]. { destruct (H5 eq_refl ltac:(lia)) as [-> _]. done. }
  cbn [concat]. destruct e.
  - rewrite app_nil_r. apply take_ge. rewrite H3 by done. done.
  - rewrite IH by (rewrite length_drop; lia). apply take_drop.
Qed.

(** A chunk in the middle of the stream. *)
Definition cut_here (c : bytes) : Prop :=
  minSize ≤ Z.of_nat (length c) ≤ maxSize ∧
  (Z.of_nat (length c) = maxSize ∨ Z.land (foldl gear_step 0 c) mask = 0).

Lemma cdc_loop_sizes f data :
  (length data < f)%nat →
  ∀ pre last, cdc_loop f minSize maxSize mask data = pre ++ [last] →
    Forall cut_here pre ∧ 0 < Z.of_nat (length last) ≤ maxSize.
Proof.
  revert data. induction f as [|f IH]; intros data Hf pre last; [lia|]. cbn [cdc_loop].
  destruct (cdc_scan minSize maxSize mask 0 0 data) as [n e] eqn:Es.
  destruct (cdc_scan_spec 0 0 data n e ltac:(lia) Es) as (H1 & H2 & H3 & H4 & H5).
  destruct n as [|n]; [by destruct pre|].
  assert (length (take (S n) data) = S n) as Hl by (rewrite length_take; lia).
  destruct pre as [|p pre]; cbn [app]; intros E; injection E as Ep E.
  { subst last. rewrite Hl. split; [constructor|lia]. }
  destruct e; [by destruct pre|].
  destruct (IH (drop (S n) data) ltac:(rewrite length_drop; lia) _ _ E) as [HF Hlast].
  split; [|done]. constructor; [|done]. subst p. unfold cut_here. rewrite Hl.
  destruct (H4 eq_refl) as [?|(? & ? & ?)]; [split; [lia|left; lia]|split; [lia|by right]].
Qed.

(** The chunks after a cut depend on the bytes after it only. *)
Lemma cdc_loop_suffix f data pre cs :
  (length data < f)%nat → cdc_loop f minSize maxSize mask data = pre ++ cs →
  cs = cdc_loop (S (length (concat cs))) minSize maxSize mask (concat cs).
Proof.
  revert f data. induction pre as [|p pre IH]; intros f data Hf E.
  - simpl in E. subst cs. rewrite cdc_loop_concat by done. apply cdc_loop_fuel; [done|lia].
  - destruct f as [|f]; [lia|]. cbn [cdc_loop] in E.
    destruct (cdc_scan minSize maxSize mask 0 0 data) as [n e] eqn:Es.
    destruct (cdc_scan_spec 0 0 data n e ltac:(lia) Es) as (H1 & _).
    destruct n as [|n]; [done|]. injection E as _ E. destruct e.
    + symmetry in E. apply app_nil in E as [_ ->]. simpl.
      destruct (Z.leb_spec maxSize 0); [lia|]. done.
    + apply (IH f (drop (S n) data)); [rewrite length_drop; lia|done].
Qed.
End cdc.

Lemma mask_bits_spec fuel bits t :
  0 ≤ bits → t ≤ 2 ^ 62 → 62 - bits < Z.of_nat fuel →
  (bits = 0 ∨ 2 ^ (bits - 1) < t) → bits ≤ 62 →
  ∃ k, mask_bits fuel bits t = Some k ∧ 0 ≤ k ≤ 62 ∧ t ≤ 2 ^ k ∧ (k = 0 ∨ 2 ^ (k - 1) < t).
Proof.
  intros H0 Ht. revert bits H0. induction fuel as [|fuel IH]; intros bits H0 Hf Hb H62; [lia|].
  cbn [mask_bits]. rewrite Z.shiftl_1_l.
  assert (0 < 2 ^ bits ≤ 2 ^ 62) as Hp.
  { split; [lia|]. apply Z.pow_le_mono_r; lia. }
  rewrite i64_id by (unfold in_i64; lia).
  destruct (Z.ltb_spec (2 ^ bits) t) as [Hlt|Hge].
  - assert (bits < 62) by (apply (Z.pow_lt_mono_r_iff 2); lia).
    apply IH; [lia|lia| |lia]. right. by replace (bits + 1 - 1) with bits by lia.
  - exists bits. split_and!; try done; lia.
Qed.

Lemma yields_inj (cs cs' : list bytes) :
  Some (Ok (E:=chunk_err) <$> cs) = Some (Ok <$> cs') → cs = cs'.
Proof.
  intros E%(inj Some). revert cs' E. induction cs as [|c cs IH]; intros [|c' cs'] E; try done.
  injection E as -> E. f_equal. by apply IH.
Qed.

(** ** Properties *)

(** Fixed chunking equals its reference: with a positive size it yields the
    consecutive [size]-byte pieces and the remainder of the input, so the chunks
    concatenate to the input, all but the last have exactly [size] bytes and none
    is empty; when the reader fails, the full chunks read before are followed
    by the error and nothing else; a non-positive size yields one error. *)
Theorem fixed_correct (r : Reader) (size : Z) :
  (size ≤ 0 → Fixed r size = [Err ErrSize]) ∧
  (0 < size → r_err r = false →
     ∃ chunks, Fixed r size = Ok <$> chunks ∧ concat chunks = r_data r ∧
       ∀ pre last, chunks = pre ++ [last] →
         Forall (λ c, Z.of_nat (length c) = size) pre ∧ 0 < Z.of_nat (length last) ≤ size) ∧
  (0 < size → r_err r = true →
     Fixed r size = (Ok <$> group (Z.to_nat size) (r_data r)) ++ [Err ErrChunkRead]).
Proof.
  unfold Fixed. destruct (Z.leb_spec size 0); [split_and!; [done|lia|lia]|]. split_and!; [lia| |].
  - intros _ He. exists (pieces (Z.to_nat size) (r_data r)).
    rewrite fixed_loop_pieces by lia. rewrite He. split; [done|].
    split; [apply concat_pieces; lia|]. intros pre last E.
    destruct (pieces_sizes (Z.to_nat size) (r_data r) ltac:(lia) pre last E) as [HF Hl].
    split; [|lia]. eapply Forall_impl; [exact HF|]. simpl. lia.
  - intros _ He. rewrite fixed_loop_pieces by lia. by rewrite He.
Qed.



(** Two deviations of CDC from its documentation. A reader that fails is
    not reported: the chunks are those of the bytes read so far, as after a
    clean end, where Fixed reports the error. And the table has no entry for
    the bytes 0xe8 to 0xff, which leave a zero hash at zero: on such input
    every cut is at minSize, not content-defined with average targetSize. *)
Theorem cdc_deviations (data : bytes) (minSize targetSize maxSize : Z) :
  0 < minSize ≤ targetSize → targetSize ≤ maxSize → targetSize ≤ 2 ^ 62 →
  CDC (mkReader data true) minSize targetSize maxSize =
    CDC (mkReader data false) minSize targetSize maxSize ∧
  (Forall (λ b, 232 ≤ b2Z b) data →
     ∀ chunks, CDC (mkReader data false) minSize targetSize maxSize = Some (Ok <$> chunks) →
       ∀ pre last, chunks = pre ++ [last] → Forall (λ c, Z.of_nat (length c) = minSize) pre).
Proof.
  intros Hmin Hmax H62. split; [done|]. intros HF chunks.
  unfold CDC.
  destruct (Z.leb_spec minSize 0), (Z.leb_spec targetSize 0), (Z.leb_spec maxSize 0),
    (Z.ltb_spec targetSize minSize), (Z.ltb_spec maxSize targetSize); try lia. cbn [orb].
  destruct (mask_bits 65 0 targetSize) as [bits|]; [|done]. cbn [mbind option_bind r_data]. cbv zeta.
  generalize (u64 (Z.shiftl 1 bits - 1)). intros mask E%yields_inj. subst chunks.
  assert (∀ b, 232 ≤ b2Z b → gear_step 0 b = 0) as Hg.
  { intros b Hb. unfold gear_step. change (u64 (Z.shiftl 0 1)) with 0. rewrite Z.lxor_0_l.
    destruct b; vm_compute in Hb; try (exfalso; apply Hb; reflexivity); reflexivity. }
  assert (∀ rest n m e, Forall (λ b, 232 ≤ b2Z b) rest → 0 ≤ n < minSize →
    cdc_scan minSize maxSize mask n 0 rest = (m, e) → e = false → n + Z.of_nat m = minSize) as Hscan.
  { induction rest as [|b rest IH]; intros n m e Hr Hn; cbn [cdc_scan];
      (destruct (Z.leb_spec maxSize n); [lia|]); [by intros [= <- <-]|].
    apply Forall_cons in Hr as [Hb Hr]. rewrite (Hg b Hb). cbv zeta. rewrite Z.land_0_l, Z.eqb_refl.
    destruct (Z.leb_spec minSize (n + 1)); cbn [andb]; [intros [= <- <-] _; lia|].
    destruct (cdc_scan minSize maxSize mask (n + 1) 0 rest) as [m' e'] eqn:Es. intros [= <- <-] He.
    specialize (IH (n + 1) m' e' Hr ltac:(lia) Es He). lia. }
  generalize (S (length data)). intros f. revert data HF.
  induction f as [|f IH]; intros data HF pre last; [by destruct pre|]. cbn [cdc_loop].
  destruct (cdc_scan minSize maxSize mask 0 0 data) as [n e] eqn:Es.
  destruct (cdc_scan_spec minSize maxSize mask 0 0 data n e ltac:(lia) Es) as (Hn & _).
  destruct n as [|n]; [by destruct pre|]. destruct pre as [|p pre]; [constructor|]. cbn [app].
  intros E. injection E as Ep E. destruct e; [by destruct pre|]. constructor.
  - subst p. rewrite length_take. pose proof (Hscan data 0 _ _ HF ltac:(lia) Es eq_refl). lia.
  - apply (IH (drop (S n) data)) in E; [done|]. by apply Forall_drop.
Qed.

(** Nine bytes 0xff with sizes 2, 4, 8 are cut every two bytes. *)
Lemma cdc_deviations_witness :
  CDC (mkReader (replicate 5 Byte.xff) true) 2 4 8 = CDC (mkReader (replicate 5 Byte.xff) false) 2 4 8 ∧
  CDC (mkReader (replicate 5 Byte.xff) false) 2 4 8 =
    Some [Ok [Byte.xff; Byte.xff]; Ok [Byte.xff; Byte.xff]; Ok [Byte.xff]].
Proof.
  split; [|vm_compute; reflexivity].
  refine (proj1 (cdc_deviations (replicate 5 Byte.xff) 2 4 8 _ _ _)); lia.
Defined.
