(* ===== verification/Pipeline.v ===== *)
(** * internal/pipeline: storing and loading files

    [StoreFile], [LoadFile], [ReencryptFile], [StoreBlob] and [LoadBlob] over
    any store that satisfies the [Store] interface. The store's optional
    [stripe.Putter] capability is the argument [putter]. Randomness is an
    argument: [rk i] and [rn i] are the key and nonce read for the [i]-th
    chunk, [None] when the system source fails. *)

From S2P Require Import Prelude GoLib Store Crypto Stripe Erasure Chunk.

Inductive pipeline_err :=
| PChunk (e : chunk_err)
| PCompress
| PCrypto (e : crypto_err)
| PErasure (e : erasure_err)
| PPutShard (i : nat) (e : store_err)
| PShardMismatch (i : nat)
| PGetShard (i : nat) (e : store_err)
| PDecompress
| PAtChunk (i : nat) (e : pipeline_err)   (* "chunk %d: %w" *)
| PWriter.

Record Config := mkConfig { cf_ChunkSize : Z; cf_Params : Params; cf_Compress : bool }.
#[export] Instance Config_eq_dec : EqDecision Config.
Proof. solve_decision. Defined.

Definition DefaultConfig : Config := mkConfig DefaultSize (mkParams 4 2) true.

Record ChunkRef := mkRef { cr_Key : bytes; cr_Compressed : bool; cr_Shards : list ShardID }.
#[export] Instance ChunkRef_eq_dec : EqDecision ChunkRef.
Proof. solve_decision. Defined.

(** ** metadata.go *)

Record Metadata := mkMeta {
  md_Mode : Z; md_Uid : Z; md_Gid : Z;
  md_ModTimeNS : Z; md_ChangeTimeNS : Z; md_AccessTimeNS : Z; md_BirthTimeNS : Z;
  md_Flags : Z; md_ContentType : string; md_SymlinkTarget : string;
  md_Xattr : gmap string bytes; md_ContentVersion : bytes; md_MetaVersion : bytes }.
#[export] Instance Metadata_eq_dec : EqDecision Metadata.
Proof. solve_decision. Defined.

Definition zeroMeta : Metadata := mkMeta 0 0 0 0 0 0 0 0 "" "" ∅ [] [].

(** [fs.ModeSymlink] is bit 27 of [fs.FileMode]. *)
Definition ModeSymlink : Z := 2 ^ 27.
Definition IsSymlink (m : Metadata) : bool :=
  negb (bool_decide (md_SymlinkTarget m = "")) || negb (Z.land (md_Mode m) ModeSymlink =? 0).

Record FileManifest := mkFile {
  fm_Name : string; fm_Params : Config; fm_Size : Z; fm_Meta : Metadata; fm_Chunks : list ChunkRef }.
#[export] Instance FileManifest_eq_dec : EqDecision FileManifest.
Proof. solve_decision. Defined.

Definition str_bytes (s : string) : bytes := String.list_byte_of_string s.

Definition sortedKeys (m : gmap string bytes) : list string :=
  sort_by id (map_to_list m).*1.

(** The bytes written to the two hashes. *)
Definition content_preimage (m : FileManifest) : bytes :=
  concat ((λ c, concat (cr_Shards c)) <$> fm_Chunks m).

Definition xattr_preimage (x : gmap string bytes) : bytes :=
  concat ((λ k, str_bytes k ++ [Byte.x00] ++ default [] (x !! k)) <$> sortedKeys x).

Definition meta_preimage (m : Metadata) : bytes :=
  le_enc 4 (md_Mode m) ++ le_enc 4 (md_Uid m) ++ le_enc 4 (md_Gid m) ++
  le_enc 8 (u64 (md_ModTimeNS m)) ++ le_enc 8 (u64 (md_ChangeTimeNS m)) ++
  le_enc 8 (u64 (md_AccessTimeNS m)) ++ le_enc 8 (u64 (md_BirthTimeNS m)) ++
  le_enc 4 (md_Flags m) ++
  str_bytes (md_ContentType m) ++ [Byte.x00] ++
  str_bytes (md_SymlinkTarget m) ++ [Byte.x00] ++
  xattr_preimage (md_Xattr m).

Definition DeriveVersions `{Sha256} (m : FileManifest) : FileManifest :=
  let meta := fm_Meta m in
  mkFile (fm_Name m) (fm_Params m) (fm_Size m)
    (mkMeta (md_Mode meta) (md_Uid meta) (md_Gid meta) (md_ModTimeNS meta) (md_ChangeTimeNS meta)
       (md_AccessTimeNS meta) (md_BirthTimeNS meta) (md_Flags meta) (md_ContentType meta)
       (md_SymlinkTarget meta) (md_Xattr meta)
       (take 16 (Sum256 (content_preimage m))) (take 16 (Sum256 (meta_preimage meta))))
    (fm_Chunks m).

(** ** pipeline.go *)

Section pipeline.
Context `{Hsha : Sha256} `{Hgcm : AesGcm} `{Hfl : Deflate} `{Hrs : ReedSolomon}.
Context {S : Type} `{Hst : !Store S}.

(** [stripe.Putter] of the store, when it implements it. *)
Definition Putter : Type := option (bytes → Descriptor → S → S * result store_err ShardID).

Definition put_shard (putter : Putter) (desc : Descriptor) (sh : bytes) (s : S)
    : S * result store_err ShardID :=
  match putter with
  | Some PutStripe => PutStripe sh desc s
  | None => Put sh s
  end.

(** The part of [storeChunk] before the first Put: compress when it helps,
    seal under a fresh key, erasure-code. *)
Definition encode_chunk (rk rn : option bytes) (cfg : Config) (plain : bytes)
    : result pipeline_err (bytes * bool * list bytes) :=
  '(payload, compressed) ←
    (if cf_Compress cfg then
       packed ← of_option PCompress (Compress plain);
       Ok (if decide (length packed < length plain)%nat then (packed, true) else (plain, false))
     else Ok (plain, false));
  key ← map_err PCrypto (NewKey rk);
  sealed ← map_err PCrypto (Seal rn key payload);
  shards ← map_err PErasure (Encode (cf_Params cfg) sealed);
  Ok (key, compressed, shards).

Fixpoint put_shards (putter : Putter) (desc : Descriptor) (i : nat) (shards : list bytes) (s : S)
    : S * result pipeline_err unit :=
  match shards with
  | [] => (s, Ok tt)
  | sh :: shards =>
      let '(s, r) := put_shard putter desc sh s in
      match r with
      | Err e => (s, Err (PPutShard i e))
      | Ok id =>
          if decide (id ≠ HashOf sh) then (s, Err (PShardMismatch i))
          else put_shards putter desc (i + 1) shards s
      end
  end.

Definition storeChunk (putter : Putter) (rk rn : option bytes) (cfg : Config) (plain : bytes) (s : S)
    : S * result pipeline_err ChunkRef :=
  match encode_chunk rk rn cfg plain with
  | Err e => (s, Err e)
  | Ok (key, compressed, shards) =>
      let ids := HashOf <$> shards in
      let desc := mkDesc (p_K (cf_Params cfg)) (p_M (cf_Params cfg)) ids in
      let '(s, r) := put_shards putter desc 0 shards s in
      match r with
      | Err e => (s, Err e)
      | Ok _ => (s, Ok (mkRef key compressed ids))
      end
  end.

Definition StoreBlob := storeChunk.

(** The range loop over [chunk.Fixed]. *)
Fixpoint store_chunks (putter : Putter) (rk rn : nat → option bytes) (cfg : Config) (i : nat)
    (items : list (result chunk_err bytes)) (m : FileManifest) (s : S)
    : S * result pipeline_err FileManifest :=
  match items with
  | [] => (s, Ok m)
  | Err e :: _ => (s, Err (PChunk e))
  | Ok plain :: items =>
      let '(s, r) := storeChunk putter (rk i) (rn i) cfg plain s in
      match r with
      | Err e => (s, Err e)
      | Ok ref =>
          store_chunks putter rk rn cfg (i + 1) items
            (mkFile (fm_Name m) (fm_Params m) (i64 (fm_Size m + Z.of_nat (length plain)))
               (fm_Meta m) (fm_Chunks m ++ [ref])) s
      end
  end.

Definition StoreFile (putter : Putter) (rk rn : nat → option bytes) (cfg : Config) (r : Reader) (s : S)
    : S * result pipeline_err FileManifest :=
  store_chunks putter rk rn cfg 0 (Fixed r (cf_ChunkSize cfg)) (mkFile "" cfg 0 zeroMeta []) s.

(** The shards that can be read; a missing or corrupt one is a hole. *)
Fixpoint fetch (i : nat) (ids : list ShardID) (s : S) : result pipeline_err (list (option bytes)) :=
  match ids with
  | [] => Ok []
  | id :: ids =>
      match Get id s with
      | Ok d => rest ← fetch (i + 1) ids s; Ok (Some d :: rest)
      | Err ErrNotFound | Err ErrCorrupt => rest ← fetch (i + 1) ids s; Ok (None :: rest)
      | Err e => Err (PGetShard i e)
      end
  end.

Definition loadChunk (p : Params) (ref : ChunkRef) (s : S) : result pipeline_err bytes :=
  shards ← fetch 0 (cr_Shards ref) s;
  sealed ← map_err PErasure (Decode p shards);
  payload ← map_err PCrypto (Open (cr_Key ref) sealed);
  if cr_Compressed ref then of_option PDecompress (Decompress payload) else Ok payload.

Definition LoadBlob := loadChunk.

(** What reached the writer, and the result; [wok i] says that the writer
    accepts the [i]-th write. *)
Fixpoint load_chunks (wok : nat → bool) (p : Params) (i : nat) (refs : list ChunkRef) (s : S)
    : bytes * result pipeline_err unit :=
  match refs with
  | [] => ([], Ok tt)
  | ref :: refs =>
      match loadChunk p ref s with
      | Err e => ([], Err (PAtChunk i e))
      | Ok plain =>
          if wok i then
            let '(out, r) := load_chunks wok p (i + 1) refs s in (plain ++ out, r)
          else ([], Err PWriter)
      end
  end.

Definition LoadFile (wok : nat → bool) (m : FileManifest) (s : S) : bytes * result pipeline_err unit :=
  load_chunks wok (cf_Params (fm_Params m)) 0 (fm_Chunks m) s.

Fixpoint reencrypt_chunks (putter : Putter) (rk rn : nat → option bytes) (cfg : Config) (i : nat)
    (refs : list ChunkRef) (s : S) : S * result pipeline_err (list ChunkRef) :=
  match refs with
  | [] => (s, Ok [])
  | ref :: refs =>
      match loadChunk (cf_Params cfg) ref s with
      | Err e => (s, Err (PAtChunk i e))
      | Ok plain =>
          let '(s, r) := storeChunk putter (rk i) (rn i) cfg plain s in
          match r with
          | Err e => (s, Err (PAtChunk i e))
          | Ok newRef =>
              let '(s, rest) := reencrypt_chunks putter rk rn cfg (i + 1) refs s in
              (s, rest ← rest; Ok (newRef :: rest))
          end
      end
  end.

Definition ReencryptFile (putter : Putter) (rk rn : nat → option bytes) (m : FileManifest) (s : S)
    : S * result pipeline_err FileManifest :=
  let '(s, r) := reencrypt_chunks putter rk rn (fm_Params m) 0 (fm_Chunks m) s in
  (s, chunks ← r; Ok (mkFile (fm_Name m) (fm_Params m) (fm_Size m) (fm_Meta m) chunks)).
End pipeline.

(** ** Correctness *)

Section correctness.
Context `{Hsha : Sha256} `{Hgcm : AesGcm} `{Hfl : Deflate} `{Hrs : ReedSolomon}.
Context {S : Type} `{Hst : !Store S} {ok : S → Prop} `{Hlaws : !StoreLaws S ok}.
Implicit Types (s t : S) (U : list bytes).

(** A shard upload that behaves like [Store.Put]. *)
Record put_like (g : bytes → S → S * result store_err ShardID) : Prop := {
  pl_result : ∀ s d, ok s → (g d s).2 = Ok (HashOf d) ∧ ok (g d s).1;
  pl_same : ∀ s d, ok s →
    Get (HashOf d) (g d s).1 = match Get (HashOf d) s with Ok d' => Ok d' | Err _ => Ok d end;
  pl_other : ∀ s d id, ok s → id ≠ HashOf d → Get id (g d s).1 = Get id s;
}.

Lemma Put_put_like : put_like Put.
Proof. split; [apply put_result|apply put_get_same|apply put_get_other]. Qed.

Definition putter_ok (putter : Putter) : Prop := ∀ desc, put_like (put_shard putter desc).

Lemma no_putter_ok : putter_ok None.
Proof. intros desc. apply Put_put_like. Qed.

(** The blobs [U] do not collide with each other nor with what [s] holds. *)
Definition coll_free U s : Prop :=
  (∀ d d', d ∈ U → d' ∈ U → HashOf d = HashOf d' → d = d') ∧ (∀ d, d ∈ U → no_collision d s).

Lemma coll_free_mono U U' s : (∀ d, d ∈ U' → d ∈ U) → coll_free U s → coll_free U' s.
Proof. intros Hsub [Hi Hn]. split; eauto. Qed.

Lemma coll_free_put U s g sh :
  put_like g → ok s → coll_free U s → sh ∈ U → coll_free U (g sh s).1.
Proof.
  intros Hg Hok [Hi Hn] Hsh. split; [done|]. intros d Hd d'.
  destruct (decide (HashOf d = HashOf sh)) as [E|Hne].
  - rewrite E, (pl_same _ Hg) by done. rewrite <-E.
    destruct (Get (HashOf d) s) eqn:Eg; intros [= <-]; [by apply Hn|]. by apply Hi.
  - rewrite (pl_other _ Hg) by done. by apply Hn.
Qed.

(** [t] is [s] with more shards: what was readable reads the same, and what
    is not readable was not before, for the same reason. *)
Definition keeps s t : Prop :=
  (∀ id x, Get id s = Ok x → Get id t = Ok x) ∧ (∀ id e, Get id t = Err e → Get id s = Err e).

Lemma keeps_refl s : keeps s s.
Proof. by split. Qed.
Lemma keeps_trans s t u : keeps s t → keeps t u → keeps s u.
Proof. intros [H1 H2] [H3 H4]. split; auto. Qed.

Definition stored_in (shards : list bytes) s : Prop := ∀ sh, sh ∈ shards → Get (HashOf sh) s = Ok sh.

(** Every shard is intact or lost, none is replaced. *)
Definition lost (r : result store_err bytes) : Prop := r = Err ErrNotFound ∨ r = Err ErrCorrupt.
Definition readable (shards : list bytes) s : Prop :=
  ∀ sh, sh ∈ shards → Get (HashOf sh) s = Ok sh ∨ lost (Get (HashOf sh) s).
Definition degraded s t : Prop := ∀ id, Get id t = Get id s ∨ lost (Get id t).
Definition present s (ids : list ShardID) : Z :=
  Z.of_nat (length (List.filter (λ id, is_ok (Get id s)) ids)).

Lemma put_step g s sh :
  put_like g → ok s → keeps s (g sh s).1 ∧ (no_collision sh s → Get (HashOf sh) (g sh s).1 = Ok sh).
Proof.
  intros Hg Hok. split; [split|].
  - intros id x Hx. destruct (decide (id = HashOf sh)) as [->|Hne].
    + by rewrite (pl_same _ Hg), Hx.
    + by rewrite (pl_other _ Hg).
  - intros id e. destruct (decide (id = HashOf sh)) as [->|Hne].
    + rewrite (pl_same _ Hg) by done. by destruct (Get (HashOf sh) s).
    + by rewrite (pl_other _ Hg).
  - intros Hn. rewrite (pl_same _ Hg) by done. destruct (Get (HashOf sh) s) eqn:E; [|done].
    f_equal. by apply Hn.
Qed.

Lemma put_shards_ok putter desc U i shards s :
  putter_ok putter → ok s → coll_free U s → (∀ sh, sh ∈ shards → sh ∈ U) →
  ∃ t, put_shards putter desc i shards s = (t, Ok tt) ∧ ok t ∧ coll_free U t ∧ keeps s t ∧
    stored_in shards t.
Proof.
  intros Hp. revert i s. induction shards as [|sh shards IH]; intros i s Hok Hcf Hin.
  { exists s. split; [done|]. split_and!; [done|done|apply keeps_refl|by intros ? ?%elem_of_nil]. }
  specialize (Hp desc) as Hg. destruct (pl_result _ Hg s sh Hok) as [Er Hok1].
  destruct (put_step _ s sh Hg Hok) as [Hk1 Hs1].
  pose proof (coll_free_put U s _ sh Hg Hok Hcf ltac:(apply Hin; by left)) as Hcf1.
  cbn [put_shards]. destruct (put_shard putter desc sh s) as [s1 r1] eqn:E. simpl in *. subst r1.
  rewrite decide_False by (by intros []).
  destruct (IH (i + 1)%nat s1 Hok1 Hcf1) as (t & Et & Hokt & Hcft & Hk & Hst1); [set_solver|].
  exists t. split_and!; try done.
  - by eapply keeps_trans.
  - intros sh' [->|Hsh']%elem_of_cons; [|by apply Hst1]. apply Hk, Hs1. apply Hcf. apply Hin. by left.
Qed.

(** [shards] is the codeword of [sealed]: N shards, any K of which decode. *)
Definition coded (p : Params) (shards : list bytes) (sealed : bytes) : Prop :=
  Z.of_nat (length shards) = p_N p ∧ Encode p sealed = Ok shards ∧
  ∀ holes, survivors shards holes → p_K p ≤ count_present holes → Decode p holes = Ok sealed.

(** [ref] is the recipe of [plain], whose shards are [shards]. *)
Definition recipe (p : Params) (ref : ChunkRef) (plain : bytes) (shards : list bytes) : Prop :=
  cr_Shards ref = HashOf <$> shards ∧
  ∃ sealed, coded p shards sealed ∧
    (payload ← map_err PCrypto (Open (cr_Key ref) sealed);
     if cr_Compressed ref then of_option PDecompress (Decompress payload) else Ok payload) = Ok plain.

Lemma encode_chunk_ok cfg key nonce plain `{L : !RSLaws (p_K (cf_Params cfg)) (p_M (cf_Params cfg))} :
  params_ok (cf_Params cfg) → length nonce = NonceSize → Z.of_nat (length plain) ≤ 2 ^ 62 →
  ∃ comp shards, encode_chunk (Some key) (Some nonce) cfg plain = Ok (key, comp, shards) ∧
    recipe (cf_Params cfg) (mkRef key comp (HashOf <$> shards)) plain shards.
Proof.
  intros Hp Hn Hl. unfold encode_chunk.
  set (pc := if cf_Compress cfg then _ else _).
  assert (∃ payload comp, pc = Ok (payload, comp) ∧ (length payload ≤ length plain)%nat ∧
            (if comp : bool then Decompress payload = Some plain else payload = plain))
    as (payload & comp & -> & Hpl & Hdec).
  { unfold pc. destruct (cf_Compress cfg); [|by exists plain, false].
    destruct (Compress_total plain) as [packed Ec]. rewrite Ec. cbn [of_option mbind result_bind].
    destruct (decide _) as [Hlt|_]; [|by exists plain, false].
    exists packed, true. split; [done|]. split; [lia|by apply Decompress_Compress]. }
  cbn [mbind result_bind NewKey of_option map_err].
  destruct (Seal (Some nonce) key payload) as [sealed|] eqn:Es; [|done].
  pose proof (Seal_length key nonce payload sealed Hn Es) as Hsl.
  cbn [mbind result_bind map_err].
  destruct (erasure_shape_ok (cf_Params cfg) sealed Hp) as (shards & n & Ee & Hsh).
  rewrite Ee. cbn [mbind result_bind map_err].
  exists comp, shards. split; [done|]. split; [done|]. exists sealed. split.
  { split_and!; [apply Hsh|done|]. intros holes Hs Hc.
    apply (Decode_survivors (cf_Params cfg) sealed shards holes); done || lia. }
  cbn [cr_Key cr_Compressed]. rewrite (Open_Seal key nonce payload sealed) by done.
  cbn [mbind result_bind map_err]. destruct comp; [by rewrite Hdec|by rewrite Hdec].
Qed.

Lemma fetch_readable shards s i :
  readable shards s →
  ∃ holes, fetch i (HashOf <$> shards) s = Ok holes ∧ survivors shards holes ∧
    count_present holes = present s (HashOf <$> shards).
Proof.
  revert i. induction shards as [|sh shards IH]; intros i Hr.
  { exists []. split; [done|]. split; [constructor|done]. }
  destruct (IH (i + 1)%nat) as (holes & Ef & Hs & Hc); [intros ? ?; apply Hr; by right|].
  unfold present, count_present in *. cbn [fmap list_fmap fetch List.filter].
  destruct (Hr sh ltac:(by left)) as [E|[E|E]]; rewrite E;
    fold (fmap (M:=list) HashOf shards); rewrite Ef; cbn [mbind result_bind is_ok].
  1: exists (Some sh :: holes).
  2,3: exists (None :: holes).
  all: split; [done|]; split; [constructor; by auto|]; cbn [List.filter length]; lia.
Qed.

Lemma loadChunk_readable p ref plain shards s :
  recipe p ref plain shards → readable shards s →
  params_ok p → (∃ e, encoder p = Ok e) →
  loadChunk p ref s = if p_K p <=? present s (cr_Shards ref) then Ok plain
                      else Err (PErasure ErrTooFew).
Proof.
  intros (Es & sealed & (Hlen & _ & Hdec) & Hopen) Hr Hp [e He]. unfold loadChunk. rewrite Es.
  destruct (fetch_readable shards s 0 Hr) as (holes & Ef & Hs & Hc). rewrite Ef.
  cbn [mbind result_bind]. destruct (Z.leb_spec (p_K p) (present s (HashOf <$> shards))).
  - rewrite Hdec by (done || lia). exact Hopen.
  - unfold Decode. rewrite He. cbn [mbind result_bind].
    rewrite (survivors_length _ _ Hs), Hlen, Z.eqb_refl. cbn [negb].
    destruct (Z.ltb_spec (count_present holes) (p_K p)); [done|lia].
Qed.
End correctness.

Lemma i64_add_l a b : i64 (i64 a + b) = i64 (a + b).
Proof.
  unfold i64. replace ((a + 2 ^ 63) `mod` 2 ^ 64 - 2 ^ 63 + b + 2 ^ 63) with ((a + 2 ^ 63) `mod` 2 ^ 64 + b) by lia.
  rewrite Z.add_mod_idemp_l by lia. do 2 f_equal. lia.
Qed.

Section files.
Context `{Hsha : Sha256} `{Hgcm : AesGcm} `{Hfl : Deflate} `{Hrs : ReedSolomon}.
Context {S : Type} `{Hst : !Store S} {ok : S → Prop} `{Hlaws : !StoreLaws S ok}.
Context (putter : Putter (S := S)) (Hputter : putter_ok (ok := ok) putter).
Context (rk rn : nat → option bytes).
Context (Hrand : ∀ i, ∃ key nonce, rk i = Some key ∧ rn i = Some nonce ∧ length nonce = NonceSize).
Implicit Types (s t : S) (U : list bytes).

(** The shards that storing [plains] as chunks [i], [i+1], ... uploads. *)
Fixpoint file_shards (cfg : Config) (i : nat) (plains : list bytes) : list bytes :=
  match plains with
  | [] => []
  | plain :: plains =>
      match encode_chunk (rk i) (rn i) cfg plain with
      | Ok (_, _, shards) => shards
      | Err _ => []
      end ++ file_shards cfg (i + 1) plains
  end.

(** [refs] are recipes of the chunks [ps], pairs of plaintext and shards. *)
Definition recipes (p : Params) (refs : list ChunkRef) (ps : list (bytes * list bytes)) : Prop :=
  Forall2 (λ ref pc, recipe p ref pc.1 pc.2) refs ps.

Lemma storeChunk_ok cfg i plain U s `{L : !RSLaws (p_K (cf_Params cfg)) (p_M (cf_Params cfg))} :
  params_ok (cf_Params cfg) → Z.of_nat (length plain) ≤ 2 ^ 62 →
  ok s → coll_free U s → (∀ sh, sh ∈ file_shards cfg i [plain] → sh ∈ U) →
  ∃ t ref shards, storeChunk putter (rk i) (rn i) cfg plain s = (t, Ok ref) ∧
    rk i = Some (cr_Key ref) ∧
    ok t ∧ coll_free U t ∧ keeps s t ∧ recipe (cf_Params cfg) ref plain shards ∧
    stored_in shards t ∧ (∀ sh, sh ∈ shards → sh ∈ U).
Proof.
  intros Hp Hl Hok Hcf HU. destruct (Hrand i) as (key & nonce & Ek & En & Hn).
  unfold storeChunk. cbn [file_shards] in HU. rewrite Ek, En in *.
  destruct (encode_chunk_ok cfg key nonce plain Hp Hn Hl) as (comp & shards & Ee & Hrec).
  rewrite Ee in *. rewrite app_nil_r in HU.
  set (desc := mkDesc _ _ _).
  destruct (put_shards_ok putter desc U 0 shards s Hputter Hok Hcf HU)
    as (t & Et & Hokt & Hcft & Hk & Hs).
  rewrite Et. eexists t, _, shards. split; [done|]. by split_and!.
Qed.

Lemma store_chunks_ok cfg U `{L : !RSLaws (p_K (cf_Params cfg)) (p_M (cf_Params cfg))} plains :
  params_ok (cf_Params cfg) → Forall (λ c, Z.of_nat (length c) ≤ 2 ^ 62) plains →
  ∀ i m s, ok s → coll_free U s → (∀ sh, sh ∈ file_shards cfg i plains → sh ∈ U) →
  in_i64 (fm_Size m) →
  ∃ t refs ps,
    store_chunks putter rk rn cfg i (Ok <$> plains) m s =
      (t, Ok (mkFile (fm_Name m) (fm_Params m) (i64 (fm_Size m + Z.of_nat (length (concat plains))))
                (fm_Meta m) (fm_Chunks m ++ refs))) ∧
    ok t ∧ coll_free U t ∧ keeps s t ∧ ps.*1 = plains ∧ recipes (cf_Params cfg) refs ps ∧
    stored_in (concat ps.*2) t ∧ (∀ sh, sh ∈ concat ps.*2 → sh ∈ U).
Proof.
  intros Hp. induction 1 as [|plain plains Hl _ IH]; intros i m s Hok Hcf HU Hsz.
  { exists s, [], []. simpl. rewrite Z.add_0_r, i64_id, app_nil_r by done. destruct m.
    split; [done|]. split_and!; try done; [constructor|..]; intros ? ?%elem_of_nil; done. }
  destruct (storeChunk_ok cfg i plain U s Hp Hl Hok Hcf) as
    (s1 & ref & shards & Es & _ & Hok1 & Hcf1 & Hk1 & Hrec & Hst1 & HU1).
  { intros sh Hsh. apply HU. cbn [file_shards] in *. rewrite app_nil_r in Hsh. set_solver. }
  cbn [fmap list_fmap store_chunks]. rewrite Es.
  set (m1 := mkFile _ _ _ _ _).
  destruct (IH (i + 1)%nat m1 s1 Hok1 Hcf1) as (t & refs & ps & Et & Hokt & Hcft & Hk & E1 & Hrs1 & Hst2 & HU2).
  { intros sh Hsh. apply HU. cbn [file_shards]. set_solver. }
  { apply i64_range. }
  exists t, (ref :: refs), ((plain, shards) :: ps).
  split. { fold (fmap (M:=list) (@Ok chunk_err bytes) plains). rewrite Et. unfold m1. cbn [fm_Name fm_Params fm_Size fm_Meta fm_Chunks concat].
    rewrite i64_add_l, length_app, <-app_assoc. do 4 f_equal. lia. }
  cbn [fmap list_fmap fst snd concat]. split_and!; try done.
  - by eapply keeps_trans.
  - f_equal. exact E1.
  - by constructor.
  - intros sh [Hsh|Hsh]%elem_of_app; [apply Hk; by apply Hst1|by apply Hst2].
  - intros sh [Hsh|Hsh]%elem_of_app; [by apply HU1|by apply HU2].
Qed.

Lemma readable_app l l' s : readable (l ++ l') s ↔ readable l s ∧ readable l' s.
Proof.
  unfold readable. setoid_rewrite elem_of_app. split; [intros H; split; intros; apply H; auto|].
  intros [H1 H2] sh [?|?]; auto.
Qed.

Lemma load_chunks_ok p refs ps s :
  params_ok p → (∃ e, encoder p = Ok e) → recipes p refs ps → readable (concat ps.*2) s →
  ∀ i,
  (Forall (λ ref, p_K p ≤ present s (cr_Shards ref)) refs →
     load_chunks (λ _, true) p i refs s = (concat ps.*1, Ok tt)) ∧
  (¬ Forall (λ ref, p_K p ≤ present s (cr_Shards ref)) refs →
     ∃ j pre rest, concat ps.*1 = pre ++ rest ∧
       load_chunks (λ _, true) p i refs s = (pre, Err (PAtChunk j (PErasure ErrTooFew)))).
Proof.
  intros Hp He. induction 1 as [|ref [plain shards] refs ps Hrec _ IH]; intros Hr i.
  { split; [done|]. intros Hn. destruct Hn. constructor. }
  cbn [fmap list_fmap concat fst snd] in Hr |- *. apply readable_app in Hr as [Hr1 Hr2].
  destruct (IH Hr2 (i + 1)%nat) as [IH1 IH2]. cbn [load_chunks].
  rewrite (loadChunk_readable p ref plain shards s Hrec Hr1 Hp He).
  destruct (Z.leb_spec (p_K p) (present s (cr_Shards ref))) as [Hle|Hlt].
  - split.
    + intros HF. apply Forall_cons in HF as [_ HF]. by rewrite IH1.
    + intros Hn. destruct IH2 as (j & pre & rest & E & El). { intros HF. apply Hn. by constructor. }
      exists j, (plain ++ pre), rest. rewrite El. split; [|done]. rewrite <-app_assoc. f_equal. exact E.
  - split; [intros HF; apply Forall_cons in HF as [? _]; lia|].
    intros _. exists i, [], (plain ++ concat ps.*1). done.
Qed.

Lemma coll_free_readable U shards s t :
  coll_free U t → keeps s t →
  (∀ sh, sh ∈ shards → sh ∈ U) → readable shards s → readable shards t.
Proof.
  intros [_ Hn] [_ Hneg] HU Hr sh Hsh. destruct (Get (HashOf sh) t) as [d|e] eqn:E.
  - left. f_equal. by apply (Hn sh); [apply HU|].
  - right. apply Hneg in E as E'. destruct (Hr sh Hsh) as [?|Hl]; [congruence|]. by rewrite E' in Hl.
Qed.

Lemma stored_degraded shards s t : stored_in shards s → degraded s t → readable shards t.
Proof. intros Hs Hd sh Hsh. destruct (Hd (HashOf sh)) as [E|Hl]; [|by right]. left. rewrite E. by apply Hs. Qed.

Lemma present_keeps s t ids : keeps s t → present s ids ≤ present t ids.
Proof.
  intros [Hk _]. unfold present. induction ids as [|id ids IH]; [done|]. cbn [List.filter].
  destruct (Get id s) as [x|] eqn:E; cbn [is_ok].
  - rewrite (Hk _ _ E). cbn [is_ok length]. lia.
  - destruct (is_ok (Get id t)); cbn [length]; lia.
Qed.

Lemma reencrypt_chunks_ok cfg U `{L : !RSLaws (p_K (cf_Params cfg)) (p_M (cf_Params cfg))} refs ps :
  params_ok (cf_Params cfg) → recipes (cf_Params cfg) refs ps →
  ∀ i s, ok s → coll_free U s → readable (concat ps.*2) s →
  Forall (λ ref, p_K (cf_Params cfg) ≤ present s (cr_Shards ref)) refs →
  Forall (λ c, Z.of_nat (length c) ≤ 2 ^ 62) ps.*1 →
  (∀ sh, sh ∈ concat ps.*2 ++ file_shards cfg i ps.*1 → sh ∈ U) →
  ∃ t refs' ps',
    reencrypt_chunks putter rk rn cfg i refs s = (t, Ok refs') ∧
    ok t ∧ coll_free U t ∧ keeps s t ∧ ps'.*1 = ps.*1 ∧ recipes (cf_Params cfg) refs' ps' ∧
    stored_in (concat ps'.*2) t ∧
    (∀ j ref, refs' !! j = Some ref → rk (i + j) = Some (cr_Key ref)).
Proof.
  intros Hp. induction 1 as [|ref [plain shards] refs ps Hrec _ IH]; intros i s Hok Hcf Hr HK Hl HU.
  { exists s, [], []. split; [done|]. split_and!; try done; [constructor|]. intros ? ?%elem_of_nil; done. }
  cbn [fmap list_fmap concat fst snd file_shards] in *.
  apply readable_app in Hr as [Hr1 Hr2]. apply Forall_cons in HK as [HK1 HK2].
  apply Forall_cons in Hl as [Hl1 Hl2]. cbn [reencrypt_chunks].
  rewrite (loadChunk_readable (cf_Params cfg) ref plain shards s Hrec Hr1 Hp) by (eexists; by apply encoder_ok).
  destruct (Z.leb_spec (p_K (cf_Params cfg)) (present s (cr_Shards ref))) as [_|?]; [|lia].
  destruct (storeChunk_ok cfg i plain U s Hp Hl1 Hok Hcf) as
    (s1 & ref' & shards' & Es & Ek & Hok1 & Hcf1 & Hk1 & Hrec' & Hst1 & HU1).
  { intros sh Hsh. apply HU. cbn [file_shards] in Hsh. rewrite app_nil_r in Hsh. set_solver. }
  rewrite Es.
  destruct (IH (i + 1)%nat s1 Hok1 Hcf1) as (t & refs' & ps' & Et & Hokt & Hcft & Hk & E1 & Hrs1 & Hst2 & Hkeys).
  { apply (coll_free_readable U _ s); [done|done| |done]. intros sh Hsh. apply HU. set_solver. }
  { eapply Forall_impl; [exact HK2|]. intros r Hpr. simpl in *.
    pose proof (present_keeps s s1 (cr_Shards r) Hk1). lia. }
  { done. }
  { intros sh Hsh. apply HU. set_solver. }
  rewrite Et. exists t, (ref' :: refs'), ((plain, shards') :: ps').
  cbn [mbind result_bind fmap list_fmap fst snd concat]. split; [done|]. split_and!; try done.
  - by eapply keeps_trans.
  - f_equal. exact E1.
  - by constructor.
  - intros sh [Hsh|Hsh]%elem_of_app; [apply Hk; by apply Hst1|by apply Hst2].
  - intros [|j] r Hj; simpl in Hj.
    + simplify_eq. by rewrite Nat.add_0_r.
    + apply Hkeys in Hj. by replace (i + Datatypes.S j)%nat with (i + 1 + j)%nat by lia.
Qed.
End files.

Lemma degraded_refl {S} `{!Store S} (s : S) : degraded s s.
Proof. intros id. by left. Qed.

Lemma degraded_delete `{Sha256} {S} `{!Store S} {ok} `{!StoreLaws S ok} id (s : S) :
  ok s → degraded s (Delete id s).1.
Proof.
  intros Hok id'. destruct (decide (id = id')) as [<-|Hne].
  - right. left. by apply delete_get_same.
  - left. by apply delete_get_other.
Qed.

(** Decidable form of [coll_free] over a concrete list. *)
Lemma coll_free_check `{Sha256} {S} `{!Store S} (U : list bytes) (s : S) :
  forallb (λ d, forallb (λ d', negb (bool_decide (HashOf d = HashOf d')) || bool_decide (d = d')) U &&
                match Get (HashOf d) s with Ok d' => bool_decide (d' = d) | Err _ => true end) U = true →
  coll_free U s.
Proof.
  rewrite forallb_forall. intros Hall. split.
  - intros d d' Hd Hd' E. apply list_elem_of_In in Hd, Hd'.
    specialize (Hall d Hd). apply andb_true_iff in Hall as [Hall _]. rewrite forallb_forall in Hall.
    specialize (Hall d' Hd'). apply orb_true_iff in Hall as [Hn|E']; [|by apply bool_decide_eq_true in E'].
    apply negb_true_iff, bool_decide_eq_false in Hn. done.
  - intros d Hd d' Eg. apply list_elem_of_In in Hd. specialize (Hall d Hd).
    apply andb_true_iff in Hall as [_ Hg]. rewrite Eg in Hg. by apply bool_decide_eq_true in Hg.
Qed.

Lemma Fixed_pieces (data : bytes) (size : Z) :
  0 < size → Fixed (mkReader data false) size = Ok <$> pieces (Z.to_nat size) data.
Proof.
  intros Hs. unfold Fixed. destruct (Z.leb_spec size 0); [lia|].
  rewrite fixed_loop_pieces by (simpl; lia). done.
Qed.

Lemma pieces_le (size : nat) (d : bytes) :
  (0 < size)%nat → Forall (λ c, (length c ≤ size)%nat) (pieces size d).
Proof.
  intros Hs. destruct (decide (pieces size d = [])) as [->|Hne]; [constructor|].
  destruct (exists_last Hne) as (cs & c & El).
  destruct (pieces_sizes size d Hs cs c) as [HF Hl]; [done|]. rewrite El.
  apply Forall_app. split; [|constructor; [lia|constructor]].
  eapply Forall_impl; [exact HF|]. simpl. lia.
Qed.

(** ** Properties *)

Section claims.
Context `{Hsha : Sha256} `{Hgcm : AesGcm} `{Hfl : Deflate} `{Hrs : ReedSolomon}.
Context {S : Type} `{Hst : !Store S} {ok : S → Prop} `{Hlaws : !StoreLaws S ok}.
Context (cfg : Config) `{HL : !RSLaws (p_K (cf_Params cfg)) (p_M (cf_Params cfg))}.

(** What the caller of the pipeline provides: valid parameters, working
    randomness and a store whose uploads behave like Put. *)
Record setup (putter : Putter (S := S)) (rk rn : nat → option bytes) : Prop := {
  su_params : params_ok (cf_Params cfg);
  su_chunk : 0 < cf_ChunkSize cfg ≤ 2 ^ 62;
  su_rand : ∀ i, ∃ key nonce, rk i = Some key ∧ rn i = Some nonce ∧ length nonce = NonceSize;
  su_putter : putter_ok (ok := ok) putter;
}.

(** Every chunk still has K readable shards. *)
Definition recoverable (m : FileManifest) (s : S) : Prop :=
  Forall (λ ref, p_K (cf_Params (fm_Params m)) ≤ present s (cr_Shards ref)) (fm_Chunks m).

(** The manifest [m] is a recipe for [data]: the plaintext and shards of its
    chunks are [ps]. *)
Definition file_recipe (m : FileManifest) (data : bytes) (ps : list (bytes * list bytes)) : Prop :=
  fm_Params m = cfg ∧ concat ps.*1 = data ∧ recipes (cf_Params cfg) (fm_Chunks m) ps ∧
  Forall (λ c, Z.of_nat (length c) ≤ 2 ^ 62) ps.*1.

Lemma load_recipe m data ps (s : S) :
  params_ok (cf_Params cfg) → file_recipe m data ps → readable (concat ps.*2) s →
  (recoverable m s → LoadFile (λ _, true) m s = (data, Ok tt)) ∧
  (¬ recoverable m s → ∃ j pre rest, data = pre ++ rest ∧
     LoadFile (λ _, true) m s = (pre, Err (PAtChunk j (PErasure ErrTooFew)))).
Proof.
  intros Hp (Ec & <- & Hrec & _) Hr. unfold LoadFile, recoverable. rewrite Ec.
  destruct (load_chunks_ok (cf_Params cfg) (fm_Chunks m) ps s Hp ltac:(eexists; by apply encoder_ok) Hrec Hr 0)
    as [H1 H2]. split; [exact H1|]. intros Hn. destruct (H2 Hn) as (j & pre & rest & E & El).
  by exists j, pre, rest.
Qed.

Lemma StoreFile_ok putter rk rn (data : bytes) (s : S) :
  setup putter rk rn → ok s → Z.of_nat (length data) < 2 ^ 63 →
  coll_free (file_shards rk rn cfg 0 (pieces (Z.to_nat (cf_ChunkSize cfg)) data)) s →
  ∃ t m ps, StoreFile putter rk rn cfg (mkReader data false) s = (t, Ok m) ∧
    ok t ∧ keeps s t ∧ file_recipe m data ps ∧ stored_in (concat ps.*2) t ∧
    fm_Size m = Z.of_nat (length data) ∧
    (∀ sh, sh ∈ concat ps.*2 → sh ∈ file_shards rk rn cfg 0 (pieces (Z.to_nat (cf_ChunkSize cfg)) data)).
Proof.
  intros [Hp Hc Hrand Hput] Hok Hd Hcf. unfold StoreFile. rewrite Fixed_pieces by lia.
  set (plains := pieces (Z.to_nat (cf_ChunkSize cfg)) data) in *.
  assert (Forall (λ c, Z.of_nat (length c) ≤ 2 ^ 62) plains) as Hl.
  { eapply Forall_impl; [apply pieces_le; lia|]. simpl. lia. }
  assert (concat plains = data) as Econ by (apply concat_pieces; lia).
  destruct (store_chunks_ok putter Hput rk rn Hrand cfg _ plains Hp Hl 0 (mkFile "" cfg 0 zeroMeta []) s
    Hok Hcf (λ sh H, H)) as (t & refs & ps & Et & Hokt & _ & Hk & E1 & Hrec & Hst1 & HU).
  { unfold in_i64. simpl. lia. }
  eexists t, _, ps. split; [exact Et|]. split; [done|]. split; [done|].
  unfold file_recipe. cbn [fm_Params fm_Chunks fm_Size]. rewrite app_nil_l, E1, Econ, Z.add_0_l.
  split; [by split_and!|]. split; [done|]. split; [|done]. apply i64_id. unfold in_i64. lia.
Qed.

(** [C2] A stored file loads back: with valid parameters and a store that
    obeys the Store contract, StoreFile of any input returns a manifest whose
    size is the input's, without losing or changing anything already stored;
    and in every later state of the store in which shards were lost or
    corrupted but not replaced, LoadFile writes exactly the input if each
    chunk still has K shards, and otherwise writes a prefix of it and reports
    too few shards: it never writes wrong bytes. The blobs involved must not
    collide under SHA-256. *)
Theorem store_load_file putter rk rn (data : bytes) (s : S) :
  setup putter rk rn → ok s → Z.of_nat (length data) < 2 ^ 63 →
  coll_free (file_shards rk rn cfg 0 (pieces (Z.to_nat (cf_ChunkSize cfg)) data)) s →
  ∃ t m, StoreFile putter rk rn cfg (mkReader data false) s = (t, Ok m) ∧
    ok t ∧ (∀ id x, Get id s = Ok x → Get id t = Ok x) ∧ fm_Size m = Z.of_nat (length data) ∧
    ∀ u, degraded t u →
      (recoverable m u → LoadFile (λ _, true) m u = (data, Ok tt)) ∧
      (¬ recoverable m u → ∃ j pre rest, data = pre ++ rest ∧
         LoadFile (λ _, true) m u = (pre, Err (PAtChunk j (PErasure ErrTooFew)))).
Proof.
  intros Hsu Hok Hd Hcf.
  destruct (StoreFile_ok putter rk rn data s Hsu Hok Hd Hcf) as (t & m & ps & E & Hokt & [Hk _] & Hf & Hs & Hsz & _).
  exists t, m. split_and!; try done. intros u Hu. apply (load_recipe m data ps u); [apply Hsu|done|].
  by eapply stored_degraded.
Qed.

(** Revocation by re-encryption: for a manifest that StoreFile wrote, in a
    store that lost shards but keeps K per chunk, ReencryptFile succeeds with
    the same name, size and metadata, under the fresh keys drawn from the
    random source, and the new manifest loads to the same bytes whatever
    happens to the old shards, as long as K of its own shards per chunk
    survive. *)
Theorem reencrypt_same_plaintext putter rk rn rk' rn' (data : bytes) (s u : S) t m :
  setup putter rk rn → setup putter rk' rn' → ok s → ok u → Z.of_nat (length data) < 2 ^ 63 →
  let plains := pieces (Z.to_nat (cf_ChunkSize cfg)) data in
  coll_free (file_shards rk rn cfg 0 plains) s →
  StoreFile putter rk rn cfg (mkReader data false) s = (t, Ok m) →
  degraded t u → recoverable m u →
  coll_free (file_shards rk rn cfg 0 plains ++ file_shards rk' rn' cfg 0 plains) u →
  ∃ u' m', ReencryptFile putter rk' rn' m u = (u', Ok m') ∧ ok u' ∧
    fm_Name m' = fm_Name m ∧ fm_Size m' = fm_Size m ∧ fm_Meta m' = fm_Meta m ∧
    (∀ i ref, fm_Chunks m' !! i = Some ref → rk' i = Some (cr_Key ref)) ∧
    ∀ v, degraded u' v → recoverable m' v → LoadFile (λ _, true) m' v = (data, Ok tt).
Proof.
  intros Hsu Hsu' Hok Hoku Hd plains Hcf E Hdeg Hrc HcfU.
  destruct Hsu as [Hp Hc Hrand Hput]. destruct Hsu' as [_ _ Hrand' _].
  unfold StoreFile in E. rewrite Fixed_pieces in E by lia. fold plains in E.
  assert (Forall (λ c, Z.of_nat (length c) ≤ 2 ^ 62) plains) as Hl.
  { eapply Forall_impl; [apply pieces_le; lia|]. simpl. lia. }
  assert (concat plains = data) as Econ by (apply concat_pieces; lia).
  destruct (store_chunks_ok putter Hput rk rn Hrand cfg _ plains Hp Hl 0 (mkFile "" cfg 0 zeroMeta []) s
    Hok Hcf (λ sh H, H)) as (t' & refs & ps & Et & _ & _ & _ & E1 & Hrec & Hst1 & HU).
  { unfold in_i64. simpl. lia. }
  assert (t' = t ∧ fm_Chunks m = refs ∧ fm_Params m = cfg) as (-> & Er & Ecfg)
    by (rewrite Et in E; injection E as -> <-; done).
  unfold ReencryptFile. rewrite Ecfg, Er. unfold recoverable in Hrc. rewrite Er, Ecfg in Hrc.
  destruct (reencrypt_chunks_ok putter Hput rk' rn' Hrand' cfg _ refs ps Hp Hrec 0 u Hoku HcfU)
    as (u' & refs' & ps' & Eu & Hoku' & _ & _ & E2 & Hrec' & Hst2 & Hkeys).
  { by eapply stored_degraded. } { done. } { by rewrite E1. }
  { intros sh [Hsh|Hsh]%elem_of_app; apply elem_of_app; [left; by apply HU|right; by rewrite E1 in Hsh]. }
  rewrite Eu. cbn [mbind result_bind]. eexists u', _. split; [done|]. split_and!; try done.
  intros v Hv Hrv. apply (load_recipe _ data ps' v Hp); [|by eapply stored_degraded|done].
  unfold file_recipe. cbn [fm_Params fm_Chunks]. rewrite E2, E1. by split_and!.
Qed.
End claims.

Section examples.
#[local] Existing Instances pad_sha toy_gcm toy_deflate Xor.coder.

(** A concrete setup: 4-byte chunks, the 2+1 code, keys and nonces from the
    chunk number. *)
Definition ex_cfg : Config := mkConfig 4 (mkParams 2 1) true.
Definition ex_rand (n : nat) (c : Z) (i : nat) : option bytes :=
  Some (replicate (n - 1) (Z2b c) ++ [Z2b (Z.of_nat i + 1)]).
Definition ex_data : bytes := [Byte.x61; Byte.x62; Byte.x63; Byte.x64; Byte.x65; Byte.x66].

Definition ex_store : Mem.MemStore * result pipeline_err FileManifest :=
  @StoreFile pad_sha toy_gcm toy_deflate Xor.coder _ (@Mem.mem_store pad_sha)
    None (ex_rand 32 7) (ex_rand 12 9) ex_cfg (mkReader ex_data false) Mem.NewMemStore.

Definition ex_reenc : Mem.MemStore * result pipeline_err FileManifest :=
  match ex_store.2 with
  | Ok m => @ReencryptFile pad_sha toy_gcm toy_deflate Xor.coder _ (@Mem.mem_store pad_sha)
              None (ex_rand 32 17) (ex_rand 12 19) m ex_store.1
  | Err e => (ex_store.1, Err e)
  end.

(** The first shard of the first chunk of a result. *)
Definition first_shard (r : result pipeline_err FileManifest) : ShardID :=
  match r with
  | Ok m => match fm_Chunks m with ref :: _ => default [] (cr_Shards ref !! 0%nat) | [] => [] end
  | Err _ => []
  end.

Lemma ex_setup (c d : Z) :
  @setup pad_sha _ (@Mem.mem_store pad_sha) (@Mem.wf pad_sha) ex_cfg None (ex_rand 32 c) (ex_rand 12 d).
Proof.
  split.
  - reflexivity.
  - simpl. lia.
  - intros i. do 2 eexists. split; [reflexivity|]. split; [reflexivity|]. reflexivity.
  - apply no_putter_ok.
Qed.

(** Six bytes are stored in two chunks, one shard is deleted, and the file
    still loads. *)
Lemma store_load_file_witness :
  match ex_store.2 with
  | Ok m => @LoadFile toy_gcm toy_deflate Xor.coder _ (@Mem.mem_store pad_sha) (λ _, true) m
              (Delete (first_shard ex_store.2) ex_store.1).1 = (ex_data, Ok tt)
  | Err _ => False
  end.
Proof.
  destruct (@store_load_file pad_sha toy_gcm toy_deflate Xor.coder _ (@Mem.mem_store pad_sha) _
    (@Mem.mem_laws pad_sha) ex_cfg Xor.coder_laws None (ex_rand 32 7) (ex_rand 12 9) ex_data
    Mem.NewMemStore) as (t & m & E & Hok & _ & _ & Hload).
  - apply ex_setup.
  - apply Mem.wf_new.
  - vm_compute. reflexivity.
  - apply coll_free_check. vm_compute. reflexivity.
  - change (ex_store = (t, Ok m)) in E.
    assert (t = ex_store.1) as Et by (rewrite E; reflexivity).
    assert (ex_store.2 = Ok m) as Em by (rewrite E; reflexivity).
    assert (degraded t (Delete (first_shard ex_store.2) ex_store.1).1) as Hdeg
      by (rewrite <-Et; apply (degraded_delete (ok := @Mem.wf pad_sha)); exact Hok).
    assert (match ex_store.2 with
            | Ok m' => fm_Params m' = ex_cfg ∧
                forallb (λ ref, 2 <=? present (Delete (first_shard ex_store.2) ex_store.1).1
                                        (cr_Shards ref)) (fm_Chunks m') = true
            | Err _ => False end) as Hp by (vm_compute; split; reflexivity).
    revert Hdeg Hp. generalize (Delete (first_shard ex_store.2) ex_store.1).1. intros u Hdeg Hp.
    rewrite Em in Hp |- *. destruct Hp as [Ec Hp].
    refine (proj1 (Hload u Hdeg) _). unfold recoverable. rewrite Ec.
    rewrite forallb_forall in Hp. apply Forall_forall. intros ref Hr.
    apply Z.leb_le, Hp, list_elem_of_In, Hr.
Defined.

(** The file of the previous example re-encrypted; the old shards may go. *)
Lemma reencrypt_same_plaintext_witness :
  match ex_reenc.2 with
  | Ok m' => fm_Size m' = 6 ∧
      @LoadFile toy_gcm toy_deflate Xor.coder _ (@Mem.mem_store pad_sha) (λ _, true) m'
        (Delete (first_shard ex_store.2) ex_reenc.1).1 = (ex_data, Ok tt)
  | Err _ => False
  end.
Proof.
  assert (∃ t m, ex_store = (t, Ok m)) as (t & m & E).
  { assert (is_ok ex_store.2 = true) as Hok by (vm_compute; reflexivity).
    destruct ex_store as [t [m|e]]; [by exists t, m|discriminate Hok]. }
  assert (t = ex_store.1) as Et by (rewrite E; reflexivity).
  assert (ex_store.2 = Ok m) as Em by (rewrite E; reflexivity).
  assert (@recoverable _ (@Mem.mem_store pad_sha) m t) as Hrec.
  { assert (match ex_store.2 with
            | Ok m' => bool_decide (@recoverable _ (@Mem.mem_store pad_sha) m' ex_store.1) = true
            | Err _ => False end) as Hp by (vm_compute; reflexivity).
    rewrite Em, <-Et in Hp. by apply bool_decide_eq_true in Hp. }
  assert (@Mem.wf pad_sha t) as Hokt.
  { destruct (@StoreFile_ok pad_sha toy_gcm toy_deflate Xor.coder _ (@Mem.mem_store pad_sha) _
      (@Mem.mem_laws pad_sha) ex_cfg Xor.coder_laws None (ex_rand 32 7) (ex_rand 12 9) ex_data Mem.NewMemStore)
      as (t' & m' & ps & E' & Hok' & _);
      [apply ex_setup|apply Mem.wf_new|vm_compute; reflexivity|apply coll_free_check; vm_compute; reflexivity|].
    change (ex_store = (t', Ok m')) in E'. rewrite E in E'. by injection E' as -> ->. }
  destruct (@reencrypt_same_plaintext pad_sha toy_gcm toy_deflate Xor.coder _ (@Mem.mem_store pad_sha) _
    (@Mem.mem_laws pad_sha) ex_cfg Xor.coder_laws None (ex_rand 32 7) (ex_rand 12 9)
    (ex_rand 32 17) (ex_rand 12 19) ex_data Mem.NewMemStore t t m)
    as (u' & m' & Er & Hok' & _ & Hsz & _ & _ & Hload).
  - apply ex_setup.
  - apply ex_setup.
  - apply Mem.wf_new.
  - exact Hokt.
  - vm_compute. reflexivity.
  - apply coll_free_check. vm_compute. reflexivity.
  - exact E.
  - apply degraded_refl.
  - exact Hrec.
  - apply coll_free_check. rewrite Et. vm_compute. reflexivity.
  - assert (ex_reenc = (u', Ok m')) as E' by (unfold ex_reenc; rewrite Em, <-Et; exact Er).
    assert (u' = ex_reenc.1) as Eu by (rewrite E'; reflexivity).
    assert (ex_reenc.2 = Ok m') as Em' by (rewrite E'; reflexivity).
    assert (degraded u' (Delete (first_shard ex_store.2) ex_reenc.1).1) as Hdeg
      by (rewrite <-Eu; apply (degraded_delete (ok := @Mem.wf pad_sha)); exact Hok').
    assert (match ex_reenc.2 with
            | Ok m' => bool_decide (@recoverable _ (@Mem.mem_store pad_sha) m'
                         (Delete (first_shard ex_store.2) ex_reenc.1).1) = true ∧ fm_Size m' = 6
            | Err _ => False end) as Hp by (vm_compute; split; reflexivity).
    revert Hdeg Hp. generalize (Delete (first_shard ex_store.2) ex_reenc.1).1. intros u Hdeg Hp.
    rewrite Em' in Hp |- *. destruct Hp as [Hp H6]. split; [exact H6|].
    refine (Hload u Hdeg _). by apply bool_decide_eq_true in Hp.
Defined.

End examples.

(** MetaVersion does not change exactly when an attribute changes:
    extended attributes are hashed as key, zero byte, value with nothing
    between them, so for every digest function two different attribute sets
    get the same version token. *)
Theorem meta_version_xattr_ambiguous `{Sha256} (m : FileManifest) :
  ∃ m1 m2 : FileManifest,
    fm_Chunks m1 = fm_Chunks m ∧ fm_Chunks m2 = fm_Chunks m ∧
    md_Xattr (fm_Meta m1) ≠ md_Xattr (fm_Meta m2) ∧
    fm_Meta (DeriveVersions m1) ≠ fm_Meta (DeriveVersions m2) ∧
    md_MetaVersion (fm_Meta (DeriveVersions m1)) = md_MetaVersion (fm_Meta (DeriveVersions m2)) ∧
    md_ContentVersion (fm_Meta (DeriveVersions m1)) = md_ContentVersion (fm_Meta (DeriveVersions m2)).
Proof.
  set (x1 := <["a":=[Byte.x31]]> (<["b":=[Byte.x32]]> ∅) : gmap string bytes).
  set (x2 := <["a":=[Byte.x31; Byte.x62; Byte.x00; Byte.x32]]> ∅ : gmap string bytes).
  set (mk x := mkFile "" (fm_Params m) 0 (mkMeta 0 0 0 0 0 0 0 0 "" "" x [] []) (fm_Chunks m)).
  exists (mk x1), (mk x2).
  assert (x1 ≠ x2) as Hne. { intros E. apply (f_equal (λ x, x !! "b")) in E. by vm_compute in E. }
  split_and!; [done|done|exact Hne| |by vm_compute|done].
  intros E. apply (f_equal md_Xattr) in E. exact (Hne E).
Qed.
