(* ===== verification/Repair.v ===== *)
(** * internal/repair: probing and regenerating lost shards

    [Check] probes, [Repair] regenerates what is missing while K shards of a
    chunk remain. Both work on any [Store]; repair never sees a key. *)

From S2P Require Import Prelude GoLib Store Crypto Stripe Erasure Chunk Pipeline.


Record ChunkStatus := mkStatus { cs_Index : nat; cs_Present : nat; cs_Total : nat; cs_Missing : list nat }.

Definition cs_Recoverable (c : ChunkStatus) (k : Z) : bool := k <=? Z.of_nat (cs_Present c).
Definition cs_Healthy (c : ChunkStatus) : bool := match cs_Missing c with [] => true | _ => false end.

Abbreviation Report := (list ChunkStatus).

Definition Healthy (r : Report) : bool := forallb cs_Healthy r.
Definition MissingShards (r : Report) : nat := foldl (λ n c, n + length (cs_Missing c))%nat 0%nat r.

Inductive repair_err :=
| RProbe (chunk pos : nat) (e : store_err)
| RGet (chunk pos : nat) (e : store_err)
| RUnrecoverable (chunk : nat) (present : Z)
| RDecode (chunk : nat) (e : erasure_err)
| REncode (chunk : nat) (e : erasure_err)
| RPut (chunk pos : nat) (e : store_err)
| RMismatch (chunk pos : nat).

Section repair.
Context `{Hsha : Sha256} `{Hrs : ReedSolomon} {S : Type} `{Hst : !Store S}.

Fixpoint check_shards (i pos : nat) (ids : list ShardID) (st : ChunkStatus) (s : S)
    : result repair_err ChunkStatus :=
  match ids with
  | [] => Ok st
  | id :: ids =>
      match Has id s with
      | Err e => Err (RProbe i pos e)
      | Ok true =>
          check_shards i (pos + 1) ids
            (mkStatus (cs_Index st) (cs_Present st + 1) (cs_Total st) (cs_Missing st)) s
      | Ok false =>
          check_shards i (pos + 1) ids
            (mkStatus (cs_Index st) (cs_Present st) (cs_Total st) (cs_Missing st ++ [pos])) s
      end
  end.

Fixpoint check_chunks (i : nat) (refs : list ChunkRef) (s : S) : result repair_err Report :=
  match refs with
  | [] => Ok []
  | ref :: refs =>
      st ← check_shards i 0 (cr_Shards ref) (mkStatus i 0 (length (cr_Shards ref)) []) s;
      rest ← check_chunks (i + 1) refs s;
      Ok (st :: rest)
  end.

Definition Check (m : FileManifest) (s : S) : result repair_err Report :=
  check_chunks 0 (fm_Chunks m) s.

(** Surviving shards, and the positions of the others. *)
Fixpoint survey (idx pos : nat) (ids : list ShardID) (s : S)
    : result repair_err (list (option bytes) * list nat) :=
  match ids with
  | [] => Ok ([], [])
  | id :: ids =>
      match Get id s with
      | Ok d => '(sh, missing) ← survey idx (pos + 1) ids s; Ok (Some d :: sh, missing)
      | Err ErrNotFound | Err ErrCorrupt =>
          '(sh, missing) ← survey idx (pos + 1) ids s; Ok (None :: sh, pos :: missing)
      | Err e => Err (RGet idx pos e)
      end
  end.

Fixpoint put_missing (idx : nat) (want : list ShardID) (regen : list bytes) (missing : list nat) (s : S)
    : S * result repair_err unit :=
  match missing with
  | [] => (s, Ok tt)
  | pos :: missing =>
      let '(s, r) := Put (default [] (regen !! pos)) s in
      match r with
      | Err e => (s, Err (RPut idx pos e))
      | Ok got =>
          if decide (got ≠ default [] (want !! pos)) then (s, Err (RMismatch idx pos))
          else put_missing idx want regen missing s
      end
  end.

Definition repairChunk (p : Params) (idx : nat) (ref : ChunkRef) (s : S) : S * result repair_err unit :=
  match survey idx 0 (cr_Shards ref) s with
  | Err e => (s, Err e)
  | Ok (shards, missing) =>
      match missing with
      | [] => (s, Ok tt)
      | _ =>
          let present := Z.of_nat (length (cr_Shards ref)) - Z.of_nat (length missing) in
          if present <? p_K p then (s, Err (RUnrecoverable idx present))
          else
            match Decode p shards with
            | Err e => (s, Err (RDecode idx e))
            | Ok sealed =>
                match Encode p sealed with
                | Err e => (s, Err (REncode idx e))
                | Ok regen => put_missing idx (cr_Shards ref) regen missing s
                end
            end
      end
  end.

Fixpoint repair_chunks (p : Params) (idx : nat) (refs : list ChunkRef) (s : S) : S * list repair_err :=
  match refs with
  | [] => (s, [])
  | ref :: refs =>
      let '(s, r) := repairChunk p idx ref s in
      let '(s, errs) := repair_chunks p (idx + 1) refs s in
      (s, match r with Ok _ => errs | Err e => e :: errs end)
  end.

(** The store, the report and the joined errors. *)
Definition Repair (m : FileManifest) (s : S) : S * Report * list repair_err :=
  let '(s, errs) := repair_chunks (cf_Params (fm_Params m)) 0 (fm_Chunks m) s in
  match Check m s with
  | Ok rep => (s, rep, errs)
  | Err e => (s, [], errs ++ [e])
  end.
End repair.

Section correctness.
Context `{Hsha : Sha256} `{Hgcm : AesGcm} `{Hfl : Deflate} `{Hrs : ReedSolomon}.
Context {S : Type} `{Hst : !Store S}.
Implicit Types (s t : S) (U : list bytes).

(** ** Probing *)

(** The positions, counted from [pos], whose shard [P] does not hold. *)
Fixpoint absent (P : ShardID → bool) (pos : nat) (ids : list ShardID) : list nat :=
  match ids with
  | [] => []
  | id :: ids => (if P id then [] else [pos]) ++ absent P (pos + 1) ids
  end.

Lemma absent_ext P Q pos ids : (∀ id, id ∈ ids → P id = Q id) → absent P pos ids = absent Q pos ids.
Proof.
  revert pos. induction ids as [|id ids IH]; intros pos H; [done|]. cbn [absent].
  rewrite H by (by left). f_equal. apply IH. intros. apply H. by right.
Qed.

Lemma absent_nil P pos ids : absent P pos ids = [] ↔ ∀ id, id ∈ ids → P id = true.
Proof.
  revert pos. induction ids as [|id ids IH]; intros pos; cbn [absent].
  { split; [intros _ id []%elem_of_nil|done]. }
  destruct (P id) eqn:E; cbn [app].
  - rewrite IH. split; [intros H x [->|?]%elem_of_cons; auto|intros H x ?; apply H; by right].
  - split; [done|]. intros H. rewrite (H id) in E by (by left). done.
Qed.

Lemma absent_count P pos ids :
  Z.of_nat (length (absent P pos ids)) =
  Z.of_nat (length ids) - Z.of_nat (length (List.filter P ids)).
Proof.
  revert pos. induction ids as [|id ids IH]; intros pos; [done|]. cbn [absent List.filter].
  rewrite length_app, Nat2Z.inj_add, IH. destruct (P id); cbn [length]; lia.
Qed.

Lemma absent_lookup P pos ids q :
  q ∈ absent P pos ids → (pos ≤ q)%nat ∧ ∃ id, ids !! (q - pos)%nat = Some id ∧ P id = false.
Proof.
  revert pos. induction ids as [|id ids IH]; intros pos; cbn [absent]; [by intros []%elem_of_nil|].
  rewrite elem_of_app. intros [Hq|Hq].
  - destruct (P id) eqn:E; [by apply elem_of_nil in Hq|]. apply list_elem_of_singleton in Hq as ->.
    split; [lia|]. exists id. by rewrite Nat.sub_diag.
  - apply IH in Hq as [Hle (id' & Hid & HP)]. split; [lia|]. exists id'. split; [|done].
    replace (q - pos)%nat with (Datatypes.S (q - (pos + 1))) by lia. done.
Qed.

Lemma absent_intro P pos ids q id :
  ids !! (q - pos)%nat = Some id → (pos ≤ q)%nat → P id = false → q ∈ absent P pos ids.
Proof.
  revert pos. induction ids as [|x ids IH]; intros pos Hl Hle HP; [done|]. cbn [absent].
  apply elem_of_app. destruct (decide (q = pos)) as [->|Hne].
  - rewrite Nat.sub_diag in Hl. simplify_eq/=. rewrite HP. left. by left.
  - right. apply IH; [|lia|done]. by replace (q - pos)%nat with (Datatypes.S (q - (pos + 1))) in Hl by lia.
Qed.

Lemma check_shards_has i pos ids st s (P : ShardID → bool) :
  (∀ id, id ∈ ids → Has id s = Ok (P id)) →
  check_shards i pos ids st s =
    Ok (mkStatus (cs_Index st) (cs_Present st + length (List.filter P ids)) (cs_Total st)
          (cs_Missing st ++ absent P pos ids)).
Proof.
  revert pos st. induction ids as [|id ids IH]; intros pos st HP; cbn [check_shards absent List.filter].
  { rewrite Nat.add_0_r, app_nil_r. by destruct st. }
  rewrite (HP id) by (by left). destruct (P id); rewrite IH by (intros; apply HP; by right);
    cbn [cs_Index cs_Present cs_Total cs_Missing length app].
  - do 2 f_equal. lia.
  - by rewrite <-app_assoc.
Qed.

Lemma check_chunks_has i refs s (P : ShardID → bool) :
  (∀ ref id, ref ∈ refs → id ∈ cr_Shards ref → Has id s = Ok (P id)) →
  ∃ rep, check_chunks i refs s = Ok rep ∧
    (Healthy rep = true ↔ ∀ ref id, ref ∈ refs → id ∈ cr_Shards ref → P id = true).
Proof.
  revert i. induction refs as [|ref refs IH]; intros i HP; cbn [check_chunks].
  { exists []. split; [done|]. split; [intros _ ? ? []%elem_of_nil|done]. }
  rewrite (check_shards_has i 0 _ _ s P) by (intros; apply (HP ref); [by left|done]).
  destruct (IH (i + 1)%nat) as (rep & -> & Hh); [intros r id Hr; apply HP; by right|].
  cbn [mbind result_bind]. eexists. split; [done|]. cbn [Healthy forallb]. fold (Healthy rep).
  rewrite andb_true_iff, Hh. unfold cs_Healthy. cbn [cs_Missing app].
  assert (match absent P 0 (cr_Shards ref) with [] => true | _ :: _ => false end = true ↔
          ∀ id, id ∈ cr_Shards ref → P id = true) as ->.
  { rewrite <-(absent_nil P 0). destruct (absent P 0 (cr_Shards ref)); done. }
  split; [intros [H1 H2] r id [->|Hr]%elem_of_cons; eauto|intros H; split; intros; eapply H; eauto; [by left|by right]].
Qed.

(** ** Surveying *)

Lemma survey_readable idx pos shards s :
  readable shards s →
  ∃ holes, survey idx pos (HashOf <$> shards) s =
      Ok (holes, absent (λ id, is_ok (Get id s)) pos (HashOf <$> shards)) ∧
    survivors shards holes ∧ count_present holes = present s (HashOf <$> shards).
Proof.
  revert pos. induction shards as [|sh shards IH]; intros pos Hr.
  { exists []. split; [done|]. split; [constructor|done]. }
  destruct (IH (pos + 1)%nat) as (holes & Ef & Hs & Hc); [intros ? ?; apply Hr; by right|].
  unfold present, count_present in *. cbn [fmap list_fmap survey List.filter absent].
  destruct (Hr sh ltac:(by left)) as [E|[E|E]]; rewrite E;
    fold (fmap (M:=list) HashOf shards); rewrite Ef; cbn [mbind result_bind is_ok app].
  1: exists (Some sh :: holes).
  2,3: exists (None :: holes).
  all: split; [done|]; split; [constructor; by auto|]; cbn [List.filter length]; lia.
Qed.

(** ** Repairing one chunk *)

Lemma coll_free_put_step (ok : S → Prop) `{!StoreLaws S ok} U s sh :
  ok s → coll_free U s → sh ∈ U →
  ∃ t, Put sh s = (t, Ok (HashOf sh)) ∧ ok t ∧ coll_free U t ∧ keeps s t ∧ Get (HashOf sh) t = Ok sh.
Proof.
  intros Hok Hcf Hin. destruct (put_result s sh Hok) as [Er Hok1].
  destruct (put_step Put s sh Put_put_like Hok) as [Hk Hg].
  exists (Put sh s).1. split; [|split; [done|split; [|split; [done|]]]].
  - by rewrite (surjective_pairing (Put sh s)), Er.
  - apply (coll_free_put (ok := ok)); [apply Put_put_like|done..].
  - apply Hg. by apply Hcf.
Qed.

Lemma put_missing_ok (ok : S → Prop) `{!StoreLaws S ok} U idx shards missing s :
  ok s → coll_free U s → (∀ sh, sh ∈ shards → sh ∈ U) →
  (∀ q, q ∈ missing → (q < length shards)%nat) →
  ∃ t, put_missing idx (HashOf <$> shards) shards missing s = (t, Ok tt) ∧ ok t ∧ coll_free U t ∧
    keeps s t ∧ (∀ q sh, q ∈ missing → shards !! q = Some sh → Get (HashOf sh) t = Ok sh).
Proof.
  revert s. induction missing as [|q missing IH]; intros s Hok Hcf HU Hlt.
  { exists s. split; [done|]. split; [done|]. split; [done|]. split; [apply keeps_refl|].
    intros ? ? []%elem_of_nil. }
  destruct (lookup_lt_is_Some_2 shards q) as [sh Hsh]; [apply Hlt; by left|].
  cbn [put_missing]. rewrite list_lookup_fmap, Hsh. 
  change (default [] (Some sh)) with sh. change (default [] (HashOf <$> Some sh)) with (HashOf sh).
  destruct (coll_free_put_step ok U s sh Hok Hcf) as (s1 & -> & Hok1 & Hcf1 & Hk1 & Hg1).
  { apply HU. by eapply list_elem_of_lookup_2. }
  rewrite decide_False by (by intros []).
  destruct (IH s1 Hok1 Hcf1 HU) as (t & Et & Hokt & Hcft & Hk & Hg); [intros; apply Hlt; by right|].
  exists t. split; [done|]. split; [done|]. split; [done|]. split; [by eapply keeps_trans|].
  intros q' sh' [->|Hq]%elem_of_cons Hsh'; [|by eapply Hg]. simplify_eq. by apply Hk.
Qed.

Definition coded_chunk (p : Params) (ref : ChunkRef) (shards : list bytes) : Prop :=
  cr_Shards ref = HashOf <$> shards ∧ ∃ sealed, coded p shards sealed.

Lemma recipe_coded p ref plain shards : recipe p ref plain shards → coded_chunk p ref shards.
Proof. intros (E & sealed & Hc & _). split; [done|]. by exists sealed. Qed.

Lemma repairChunk_ok (ok : S → Prop) `{!StoreLaws S ok} U p idx ref shards s :
  coded_chunk p ref shards → ok s → coll_free U s → (∀ sh, sh ∈ shards → sh ∈ U) →
  (p_K p ≤ present s (cr_Shards ref) →
     ∃ t, repairChunk p idx ref s = (t, Ok tt) ∧ ok t ∧ coll_free U t ∧ keeps s t ∧ stored_in shards t) ∧
  (present s (cr_Shards ref) < p_K p →
     repairChunk p idx ref s = (s, Ok tt) ∨
     repairChunk p idx ref s = (s, Err (RUnrecoverable idx (present s (cr_Shards ref))))).
Proof.
  intros [Es (sealed & Hlen & Henc & Hdec)] Hok Hcf HU.
  assert (readable shards s) as Hr.
  { intros sh Hsh. destruct (Get (HashOf sh) s) as [d|e] eqn:E.
    - left. f_equal. by apply (proj2 Hcf sh); [apply HU|].
    - right. left. f_equal. by eapply get_errors. }
  destruct (survey_readable idx 0 shards s Hr) as (holes & Ev & Hs & Hc).
  unfold repairChunk. rewrite Es, Ev. set (missing := absent _ _ _).
  assert (Z.of_nat (length (HashOf <$> shards)) - Z.of_nat (length missing) =
          present s (HashOf <$> shards)) as Epres.
  { unfold missing. rewrite absent_count. unfold present. lia. }
  split.
  - intros HK. destruct missing as [|q0 ms] eqn:Em.
    + exists s. split; [done|]. split; [done|]. split; [done|]. split; [apply keeps_refl|].
      intros sh Hsh. assert (is_ok (Get (HashOf sh) s) = true) as Hg.
      { apply (proj1 (absent_nil (λ id, is_ok (Get id s)) _ _) Em (HashOf sh)).
        by apply list_elem_of_fmap_2. }
      destruct (Hr sh Hsh) as [?|[E|E]]; [done| |]; by rewrite E in Hg.
    + rewrite Epres. destruct (Z.ltb_spec (present s (HashOf <$> shards)) (p_K p)); [lia|].
      rewrite Hdec by (done || lia). rewrite Henc. rewrite <-Em.
      destruct (put_missing_ok ok U idx shards missing s Hok Hcf HU) as (t & Et & Hokt & Hcft & Hk & Hg).
      { intros q Hq. unfold missing in Hq. apply absent_lookup in Hq as [_ (id & Hid & _)].
        rewrite Nat.sub_0_r in Hid. apply lookup_lt_Some in Hid. by rewrite length_fmap in Hid. }
      exists t. split; [done|]. split; [done|]. split; [done|]. split; [done|].
      intros sh Hsh. destruct (Hr sh Hsh) as [E|Hl]; [by apply Hk|].
      apply list_elem_of_lookup in Hsh as [q Hq]. apply (Hg q); [|done].
      unfold missing. apply absent_intro with (HashOf sh); [by rewrite Nat.sub_0_r, list_lookup_fmap, Hq|lia|].
      by destruct Hl as [-> | ->].
  - intros HK. destruct missing as [|q0 ms] eqn:Em; [by left|right].
    rewrite Epres. by destruct (Z.ltb_spec (present s (HashOf <$> shards)) (p_K p)); [|lia].
Qed.
Lemma repair_chunks_ok (ok : S → Prop) `{!StoreLaws S ok} U p refs shardss :
  Forall2 (coded_chunk p) refs shardss → ∀ idx s,
  ok s → coll_free U s → (∀ sh, sh ∈ concat shardss → sh ∈ U) →
  ∃ t errs, repair_chunks p idx refs s = (t, errs) ∧ ok t ∧ coll_free U t ∧ keeps s t ∧
    Forall2 (λ ref shards, p_K p ≤ present s (cr_Shards ref) → stored_in shards t) refs shardss ∧
    (∀ e, e ∈ errs → ∃ j ref n, e = RUnrecoverable (idx + j) n ∧ refs !! j = Some ref ∧
                                present s (cr_Shards ref) < p_K p).
Proof.
  induction 1 as [|ref shards refs shardss Hc _ IH]; intros idx s Hok Hcf HU.
  { exists s, []. split; [done|]. split; [done|]. split; [done|]. split; [apply keeps_refl|].
    split; [constructor|]. intros e []%elem_of_nil. }
  cbn [concat] in HU.
  assert (∃ s1 r, repairChunk p idx ref s = (s1, r) ∧ ok s1 ∧ coll_free U s1 ∧ keeps s s1 ∧
    (p_K p ≤ present s (cr_Shards ref) → r = Ok tt ∧ stored_in shards s1) ∧
    (∀ e, r = Err e → e = RUnrecoverable idx (present s (cr_Shards ref)) ∧
                      present s (cr_Shards ref) < p_K p)) as (s1 & r & E1 & Hok1 & Hcf1 & Hk1 & Hst1 & He1).
  { destruct (repairChunk_ok ok U p idx ref shards s Hc Hok Hcf ltac:(set_solver)) as [HA HB].
    destruct (Z.le_gt_cases (p_K p) (present s (cr_Shards ref))) as [HK|HK].
    - destruct (HA HK) as (t & Et & ? & ? & ? & ?). exists t, (Ok tt). by split_and!.
    - destruct (HB HK) as [E|E]; eexists s, _; (split; [exact E|]); (split; [done|]); (split; [done|]);
        (split; [apply keeps_refl|]); (split; [lia|]); intros e [= <-]; done. }
  cbn [repair_chunks]. rewrite E1.
  destruct (IH (idx + 1)%nat s1 Hok1 Hcf1) as (t & errs & Et & Hokt & Hcft & Hk & HF & He); [set_solver|].
  rewrite Et. eexists t, _. split; [done|]. split; [done|]. split; [done|].
  split; [by eapply keeps_trans|]. split.
  - constructor.
    + intros HK. destruct (Hst1 HK) as [_ Hst2]. intros sh Hsh. apply Hk. by apply Hst2.
    + eapply Forall2_impl; [exact HF|]. intros r' shs Himp HK. apply Himp.
      pose proof (present_keeps s s1 (cr_Shards r') Hk1). lia.
  - assert (∀ e, e ∈ errs → ∃ j ref0 n, e = RUnrecoverable (idx + j) n ∧
      (ref :: refs) !! j = Some ref0 ∧ present s (cr_Shards ref0) < p_K p) as Hrest.
    { intros e Hin. destruct (He e Hin) as (j & ref0 & n & -> & Hj & Hlt).
      exists (Datatypes.S j), ref0, n. split; [f_equal; lia|]. split; [done|].
      pose proof (present_keeps s s1 (cr_Shards ref0) Hk1). lia. }
    destruct r as [[]|e]; [exact Hrest|]. intros e' [->|Hin]%elem_of_cons; [|by apply Hrest].
    destruct (He1 e eq_refl) as [-> Hlt]. exists 0%nat, ref, (present s (cr_Shards ref)).
    split; [f_equal; lia|done].
Qed.
End correctness.

(** ** Properties *)

Section claims.
Context `{Hsha : Sha256} `{Hgcm : AesGcm} `{Hfl : Deflate} `{Hrs : ReedSolomon}.
Context {S : Type} `{Hst : !Store S} {ok : S → Prop} `{Hlaws : !StoreLaws S ok}.

End claims.

(** ** Corrupt files on disk *)

Lemma disk_corrupt_put `{Sha256} (d : bytes) (t : Disk.DiskStore) :
  Disk.get (HashOf d) t = Err ErrCorrupt → Disk.put d t = (t, Ok (HashOf d)).
Proof.
  unfold Disk.get, Disk.put, Disk.put_io, Disk.stat_file. cbn [Disk.pathFor fst snd].
  destruct (Disk.root t !! _) as [[|es]|]; [done| |done]. destruct (es !! _) as [[b|]|]; done.
Qed.

Lemma disk_get_has `{Sha256} (id : ShardID) (t : Disk.DiskStore) :
  is_ok (Disk.get id t) = true ∨ Disk.get id t = Err ErrCorrupt → Disk.has id t = Ok true.
Proof.
  unfold Disk.get, Disk.has, Disk.stat_file. destruct (Disk.pathFor id) as [dir name].
  destruct (Disk.root t !! dir) as [[|es]|]; try (by intros [?|?]).
  destruct (es !! name) as [[b|]|]; try (by intros [?|?]).
Qed.

(** Repair does not heal bit rot on disk: when the lost shards of a file
    are files with wrong content, Repair of a recoverable file reports no error
    and a healthy file, although it leaves the disk as it was, so that every
    corrupt shard stays unreadable and the redundancy stays reduced. *)
Theorem repair_keeps_corruption `{Sha256, AesGcm, Deflate, ReedSolomon}
    (m : FileManifest) (ps : list (bytes * list bytes)) (t : Disk.DiskStore) :
  recipes (cf_Params (fm_Params m)) (fm_Chunks m) ps →
  (∀ sh, sh ∈ concat ps.*2 → Disk.get (HashOf sh) t = Ok sh ∨ Disk.get (HashOf sh) t = Err ErrCorrupt) →
  recoverable m t →
  ∃ rep, Repair m t = (t, rep, []) ∧ Healthy rep = true.
Proof.
  intros Hrec Hget Hrc.
  assert (∀ idx shards missing,
    (∀ sh, sh ∈ shards → sh ∈ concat ps.*2) →
    (∀ q, q ∈ missing → ∃ sh, shards !! q = Some sh ∧ Disk.get (HashOf sh) t = Err ErrCorrupt) →
    put_missing idx (HashOf <$> shards) shards missing t = (t, Ok tt)) as Hput.
  { intros idx shards missing Hsub. induction missing as [|q missing IH]; intros Hq; [done|].
    destruct (Hq q ltac:(by left)) as (sh & Hl & Hc). cbn [put_missing]. rewrite list_lookup_fmap, Hl.
    change (default [] (Some sh)) with sh. change (default [] (HashOf <$> Some sh)) with (HashOf sh).
    change (Put sh t) with (Disk.put sh t). rewrite (disk_corrupt_put sh t Hc).
    rewrite decide_False by (by intros []). apply IH. intros q' Hq'. apply Hq. by right. }
  assert (∀ idx refs qs, recipes (cf_Params (fm_Params m)) refs qs →
    (∀ sh, sh ∈ concat qs.*2 → sh ∈ concat ps.*2) →
    Forall (λ ref, p_K (cf_Params (fm_Params m)) ≤ present t (cr_Shards ref)) refs →
    repair_chunks (cf_Params (fm_Params m)) idx refs t = (t, [])) as Hchunks.
  { intros idx refs qs Hr. revert idx. induction Hr as [|ref pc refs qs Hrc1 _ IH]; intros idx Hsub HK; [done|].
    apply Forall_cons in HK as [HK1 HK2]. destruct Hrc1 as (Es & sealed & (Hlen & Henc & Hdec) & _).
    cbn [fmap list_fmap concat] in Hsub.
    assert (readable pc.2 t) as Hread.
    { intros sh Hsh. destruct (Hget sh) as [?|?]; [apply Hsub; set_solver|by left|right; by right]. }
    destruct (survey_readable idx 0 pc.2 t Hread) as (holes & Ev & Hs & Hc).
    cbn [repair_chunks]. unfold repairChunk. rewrite Es, Ev. set (missing := absent _ _ _).
    assert (Z.of_nat (length (HashOf <$> pc.2)) - Z.of_nat (length missing) =
            present t (HashOf <$> pc.2)) as ->.
    { unfold missing. rewrite absent_count. unfold present. lia. }
    rewrite Es in HK1. rewrite (Hdec holes) by (done || lia). rewrite Henc.
    destruct (Z.ltb_spec (present t (HashOf <$> pc.2)) (p_K (cf_Params (fm_Params m)))); [lia|].
    rewrite (Hput idx pc.2 missing).
    - destruct missing; rewrite IH by (done || set_solver); done.
    - intros sh Hsh. apply Hsub. set_solver.
    - intros q Hq. apply absent_lookup in Hq as [_ (id & Hid & Hno)]. rewrite Nat.sub_0_r in Hid.
      rewrite list_lookup_fmap in Hid. destruct (pc.2 !! q) as [sh|] eqn:El; [|done]. simpl in Hid. simplify_eq.
      exists sh. split; [done|]. destruct (Hget sh) as [E|E]; [|change (Get (HashOf sh) t) with (Disk.get (HashOf sh) t) in Hno; by rewrite E in Hno|done].
      apply Hsub. apply elem_of_app. left. by eapply list_elem_of_lookup_2. }
  unfold Repair. rewrite (Hchunks 0%nat (fm_Chunks m) ps Hrec (λ sh H, H) Hrc). unfold Check.
  destruct (check_chunks_has 0 (fm_Chunks m) t (λ _, true)) as (rep & -> & Hh).
  { intros ref id Hr Hid. apply list_elem_of_lookup in Hr as [j Hj].
    destruct (Forall2_lookup_l _ _ _ _ _ Hrec Hj) as (pc & Hpc & Es & _).
    rewrite Es in Hid. apply list_elem_of_fmap in Hid as (sh & -> & Hsh).
    apply disk_get_has. destruct (Hget sh) as [->|?]; [|by left|by right].
    apply list_elem_of_In, in_concat. exists pc.2. rewrite <-!list_elem_of_In. split; [|done].
    apply list_elem_of_fmap_2. by eapply list_elem_of_lookup_2. }
  exists rep. split; [done|]. by apply Hh.
Qed.

Section examples.
#[local] Existing Instances pad_sha toy_gcm toy_deflate Xor.coder.

(** The shards of the example file. *)
Definition ex_shards : list bytes :=
  file_shards (ex_rand 32 7) (ex_rand 12 9) ex_cfg 0 (pieces 4 ex_data).

(** The example file on a disk store. *)
Definition ex_disk : Disk.DiskStore * result pipeline_err FileManifest :=
  StoreFile None (ex_rand 32 7) (ex_rand 12 9) ex_cfg (mkReader ex_data false) Disk.NewDiskStore.

(** Its first shard's file overwritten with junk. *)
Definition ex_rotten : Disk.DiskStore :=
  let id := first_shard ex_disk.2 in
  Disk.set_entry (Disk.pathFor id).1 (Disk.pathFor id).2 (Some (Disk.SFile [Byte.x00])) ex_disk.1.

Lemma ex_store_recipe :
  ∃ t m ps, ex_store = (t, Ok m) ∧ Mem.wf t ∧ fm_Params m = ex_cfg ∧ recipes (cf_Params ex_cfg) (fm_Chunks m) ps ∧
    (∀ sh, sh ∈ concat ps.*2 → sh ∈ ex_shards).
Proof.
  destruct (StoreFile_ok (ok := Mem.wf) ex_cfg (HL := Xor.coder_laws) None (ex_rand 32 7) (ex_rand 12 9)
    ex_data Mem.NewMemStore) as (t & m & ps & E & Hok & _ & (Ec & _ & Hrec & _) & _ & _ & HU).
  - apply ex_setup.
  - apply Mem.wf_new.
  - vm_compute. reflexivity.
  - apply coll_free_check. vm_compute. reflexivity.
  - exists t, m, ps. split_and!; [exact E|done|done|done|exact HU].
Qed.

Lemma ex_disk_recipe :
  ∃ t m ps, ex_disk = (t, Ok m) ∧ fm_Params m = ex_cfg ∧ recipes (cf_Params ex_cfg) (fm_Chunks m) ps ∧
    (∀ sh, sh ∈ concat ps.*2 → sh ∈ ex_shards).
Proof.
  destruct (StoreFile_ok (ok := Disk.wf) ex_cfg (HL := Xor.coder_laws) None (ex_rand 32 7) (ex_rand 12 9)
    ex_data Disk.NewDiskStore) as (t & m & ps & E & Hok & _ & (Ec & _ & Hrec & _) & _ & _ & HU).
  - split; [reflexivity|simpl; lia| |apply no_putter_ok].
    intros i. do 2 eexists. split; [reflexivity|]. split; reflexivity.
  - split; intros *; unfold Disk.file_at; simpl; rewrite ?lookup_empty; discriminate.
  - vm_compute. reflexivity.
  - apply coll_free_check. vm_compute. reflexivity.
  - exists t, m, ps. split_and!; [exact E|done|done|exact HU].
Qed.


(** One shard file overwritten with junk: repair calls the file healthy and the
    shard is still corrupt. *)
Lemma repair_keeps_corruption_witness :
  match ex_disk.2 with
  | Ok m => Disk.get (first_shard ex_disk.2) ex_rotten = Err ErrCorrupt ∧
            ∃ rep, Repair m ex_rotten = (ex_rotten, rep, []) ∧ Healthy rep = true
  | Err _ => False
  end.
Proof.
  destruct ex_disk_recipe as (t & m & ps & E & Ec & Hrec & HU).
  assert (ex_disk.2 = Ok m) as Em by (rewrite E; reflexivity).
  assert (Disk.get (first_shard ex_disk.2) ex_rotten = Err ErrCorrupt) as Hbad by (vm_compute; reflexivity).
  assert (match ex_disk.2 with
          | Ok m' => bool_decide (recoverable m' ex_rotten) = true
          | Err _ => False end) as Hp by (vm_compute; reflexivity).
  assert (forallb (λ sh, bool_decide (Disk.get (HashOf sh) ex_rotten = Ok sh) ||
                         bool_decide (Disk.get (HashOf sh) ex_rotten = Err ErrCorrupt)) ex_shards = true) as Hg
    by (vm_compute; reflexivity).
  revert Hbad Hp Hg. generalize (first_shard ex_disk.2). generalize ex_rotten. intros u id Hbad Hp Hg.
  rewrite Em in Hp |- *. apply bool_decide_eq_true in Hp. split; [exact Hbad|].
  apply (repair_keeps_corruption m ps u).
  - rewrite Ec. exact Hrec.
  - intros sh Hsh%HU%list_elem_of_In. rewrite forallb_forall in Hg. specialize (Hg sh Hsh).
    apply orb_true_iff in Hg as [Hg|Hg]; apply bool_decide_eq_true in Hg; auto.
  - exact Hp.
Defined.
End examples.
