(* ===== verification/Placement.v ===== *)
(** * internal/placement: which nodes receive the shards

    [RoundRobin] and [Weighted] selectors, the stripe planner [Spread], and the
    load-balancing step [OffloadBytes]. Go ints are unbounded here: cursors and
    running weights stay far below 2^63 (the running weights are bounded by
    the total weight, see [swrr_fair]). *)

From S2P Require Import Prelude GoLib.

Inductive placement_err := ErrNoCandidates.

Abbreviation NodeID := string.

Record Node := mkNode { nd_ID : NodeID; nd_Domain : string; nd_Free : Z; nd_Weight : Z; nd_Down : bool }.
#[export] Instance Node_eq_dec : EqDecision Node.
Proof. solve_decision. Defined.

Definition domain (n : Node) : string :=
  if decide (nd_Domain n ≠ "") then nd_Domain n else nd_ID n.
Definition weight (n : Node) : Z := if nd_Weight n <=? 0 then 1 else nd_Weight n.
Definition usable (n : Node) : bool := negb (nd_Down n).
Definition usableNodes (candidates : list Node) : list Node := List.filter usable candidates.

Lemma weight_pos n : 1 ≤ weight n.
Proof. unfold weight. destruct (Z.leb_spec (nd_Weight n) 0); lia. Qed.

(** A stateful chooser: the Selector interface. *)
Class Selector (S : Type) := {
  Pick : list Node → S → S * result placement_err NodeID;
}.

(** [n] consecutive picks over one candidate set. *)
Fixpoint picks {S} `{!Selector S} (n : nat) (candidates : list Node) (s : S) : S * list (result placement_err NodeID) :=
  match n with
  | O => (s, [])
  | Datatypes.S n =>
      let '(s, r) := Pick candidates s in
      let '(s, rs) := picks n candidates s in (s, r :: rs)
  end.

(** ** RoundRobin *)

Module RR.
Record RoundRobin := mkRR { next : nat }.
Definition NewRoundRobin : RoundRobin := mkRR 0.

Definition pick (candidates : list Node) (r : RoundRobin) : RoundRobin * result placement_err NodeID :=
  let us := usableNodes candidates in
  match us with
  | [] => (r, Err ErrNoCandidates)
  | _ =>
      let i := (next r mod length us)%nat in
      (mkRR (next r + 1), match us !! i with Some n => Ok (nd_ID n) | None => Err ErrNoCandidates end)
  end.

#[global] Instance rr_selector : Selector RoundRobin := {| Pick := pick |}.
End RR.

(** ** Weighted: smooth weighted round-robin *)

Module WRR.
Record Weighted := mkW { current : gmap NodeID Z }.
Definition NewWeighted : Weighted := mkW ∅.

Record acc := mkAcc { total : Z; best : Z; winner : NodeID; cur : gmap NodeID Z }.

Definition bump (a : acc) (n : Node) : acc :=
  let wt := weight n in
  let c := default 0 (cur a !! nd_ID n) + wt in
  let cur' := <[nd_ID n := c]> (cur a) in
  if (best a <? 0) || (best a <? c)
  then mkAcc (total a + wt) c (nd_ID n) cur'
  else mkAcc (total a + wt) (best a) (winner a) cur'.

Definition pick (candidates : list Node) (w : Weighted) : Weighted * result placement_err NodeID :=
  let us := usableNodes candidates in
  match us with
  | [] => (w, Err ErrNoCandidates)
  | _ =>
      let live := filter (λ '(id, _), id ∈ nd_ID <$> us) (current w) in
      let a := foldl bump (mkAcc 0 (-1) "" live) us in
      let paid := default 0 (cur a !! winner a) - total a in
      (mkW (<[winner a := paid]> (cur a)), Ok (winner a))
  end.

#[global] Instance wrr_selector : Selector Weighted := {| Pick := pick |}.
End WRR.

Definition WeightByFree (candidates : list Node) (unitBytes : Z) : list Node :=
  let unitBytes := if unitBytes <=? 0 then 1 else unitBytes in
  (λ n, mkNode (nd_ID n) (nd_Domain n) (nd_Free n) (Z.max (Z.quot (nd_Free n) unitBytes) 1) (nd_Down n))
    <$> candidates.

(** ** Spread *)

Module Spread.
(** The comparator of the sort: domain, then more free bytes, then ID. *)
Definition node_le (x y : Node) : Prop :=
  (domain x ≠ domain y ∧ (domain x ≤ domain y)%string) ∨
  (domain x = domain y ∧
    (nd_Free y < nd_Free x ∨ (nd_Free x = nd_Free y ∧ (nd_ID x ≤ nd_ID y)%string))).
#[global] Instance node_le_dec : RelDecision node_le.
Proof. intros x y. unfold node_le. apply _. Defined.

Definition sort_nodes (l : list Node) : list Node := merge_sort node_le l.

(** Per-domain queues and the order in which domains appear. *)
Record grouping := mkG { queues : gmap string (list Node); domainOrder : list string }.

Definition group_step (g : grouping) (n : Node) : grouping :=
  let d := domain n in
  match queues g !! d with
  | None => mkG (<[d := [n]]> (queues g)) (domainOrder g ++ [d])
  | Some q => mkG (<[d := q ++ [n]]> (queues g)) (domainOrder g)
  end.

Definition group_nodes (us : list Node) : grouping := foldl group_step (mkG ∅ []) us.

(** The variables of the assignment loop. [usedCount] is written but never
    read by the source. *)
Record st := mkSt { cursor : gmap string nat; usedDomains : gset string; out : list NodeID }.

Definition take_from (g : grouping) (d : string) (s : st) : st :=
  let q := default [] (queues g !! d) in
  let c := default 0%nat (cursor s !! d) in
  mkSt (<[d := (c + 1)%nat]> (cursor s)) (usedDomains s ∪ {[d]})
    (out s ++ [match q !! (c mod length q)%nat with Some n => nd_ID n | None => "" end]).

(** One pass of the inner loop over the domains. *)
Fixpoint pass (n : nat) (g : grouping) (ds : list string) (s : st) : st :=
  match ds with
  | [] => s
  | d :: ds =>
      if decide (d ∈ usedDomains s) then pass n g ds s
      else
        let s := take_from g d s in
        if decide (length (out s) = n) then s else pass n g ds s
  end.

Fixpoint loop (fuel n : nat) (g : grouping) (s : st) : option (list NodeID) :=
  if decide (length (out s) < n)%nat then
    match fuel with
    | O => None
    | Datatypes.S fuel =>
        let s0 := if decide (size (usedDomains s) = length (domainOrder g))
                  then mkSt (cursor s) ∅ (out s) else s in
        let s1 := pass n g (domainOrder g) s0 in
        let picked := negb (bool_decide (length (out s1) = length (out s0))) in
        loop fuel n g (if picked then s1 else mkSt (cursor s1) ∅ (out s1))
    end
  else Some (out s).

Definition Spread (n : Z) (candidates : list Node) : result placement_err (list NodeID) :=
  if n <=? 0 then Ok []
  else
    match usableNodes candidates with
    | [] => Err ErrNoCandidates
    | us =>
        of_option ErrNoCandidates
          (loop (Z.to_nat n) (Z.to_nat n) (group_nodes (sort_nodes us)) (mkSt ∅ ∅ []))
    end.
End Spread.

(** ** rebalance.go *)

Record Load := mkLoad { ld_Used : Z; ld_Capacity : Z }.

Definition Frac (l : Load) : F64.t :=
  if ld_Capacity l <=? 0 then F64.of_Z 0
  else
    let f := F64.div (F64.of_Z (ld_Used l)) (F64.of_Z (ld_Capacity l)) in
    if F64.ltb f (F64.of_Z 0) then F64.of_Z 0
    else if F64.ltb (F64.of_Z 1) f then F64.of_Z 1
    else f.

Definition Free (l : Load) : Z :=
  let f := i64 (ld_Capacity l - ld_Used l) in if 0 <? f then f else 0.

Definition OffloadBytes (self peer : Load) (threshold : F64.t) : Z :=
  let threshold := if F64.ltb threshold (F64.of_Z 0) then F64.of_Z 0 else threshold in
  let gap := F64.sub (Frac self) (Frac peer) in
  if F64.leb gap threshold then 0
  else
    let want := F64.to_i64 (F64.mul (F64.div gap (F64.of_Z 2)) (F64.of_Z (ld_Capacity self))) in
    let pf := Free peer in
    let want := if pf <? want then pf else want in
    let want := if ld_Used self <? want then ld_Used self else want in
    if want <? 0 then 0 else want.

(** ** Sums over a list of nodes *)

Definition zsum {A} (f : A → Z) (l : list A) : Z := foldr (λ x a, f x + a) 0 l.

Lemma zsum_add {A} (f g : A → Z) l : zsum (λ x, f x + g x) l = zsum f l + zsum g l.
Proof. induction l as [|x l IH]; simpl; [done|]. unfold zsum in *. lia. Qed.

Lemma zsum_ext {A} (f g : A → Z) l : (∀ x, x ∈ l → f x = g x) → zsum f l = zsum g l.
Proof.
  intros H. induction l as [|x l IH]; [done|]. cbn [zsum foldr]. rewrite H by (by left). f_equal.
  apply IH. intros. apply H. by right.
Qed.

Lemma zsum_scale {A} k (f : A → Z) l : zsum (λ x, k * f x) l = k * zsum f l.
Proof. induction l as [|x l IH]; simpl; [lia|]. unfold zsum in *. lia. Qed.

Lemma zsum_pos_exists {A} (f : A → Z) l : 0 < zsum f l → ∃ x, x ∈ l ∧ 0 < f x.
Proof.
  induction l as [|x l IH]; cbn [zsum foldr]; [lia|]. intros H.
  destruct (Z.lt_ge_cases 0 (f x)); [exists x; split; [by left|done]|].
  destruct IH as (y & Hy & Hf); [unfold zsum; lia|]. exists y. split; [by right|done].
Qed.

Lemma zsum_squeeze {A} (f g : A → Z) l :
  (∀ x, x ∈ l → f x ≤ g x) → zsum f l = zsum g l → ∀ x, x ∈ l → f x = g x.
Proof.
  intros Hle. assert (∀ l', (∀ x, x ∈ l' → f x ≤ g x) → zsum f l' ≤ zsum g l') as Hmono.
  { clear. induction l' as [|x l' IH]; intros H; [done|]. cbn [zsum foldr].
    specialize (H x ltac:(by left)) as Hx. specialize (IH (λ y Hy, H y ltac:(by right))). unfold zsum in *. lia. }
  induction l as [|a l IH]; intros Hs x Hx; [by apply elem_of_nil in Hx|]. cbn [zsum foldr] in Hs.
  pose proof (Hle a ltac:(by left)). pose proof (Hmono l ltac:(intros; apply Hle; by right)). unfold zsum in *.
  apply elem_of_cons in Hx as [->|Hx]; [lia|]. apply IH; [intros; apply Hle; by right|lia|done].
Qed.

Lemma zsum_update {A} `{EqDecision A} (f : A → Z) l x d :
  NoDup l → x ∈ l → zsum (λ y, if decide (y = x) then f y + d else f y) l = zsum f l + d.
Proof.
  intros Hnd Hx. induction l as [|a l IH]; [by apply elem_of_nil in Hx|].
  apply NoDup_cons in Hnd as [Ha Hnd]. cbn [zsum foldr]. apply elem_of_cons in Hx as [->|Hx].
  - destruct (decide (a = a)); [|done]. fold (zsum f l).
    fold (zsum (λ y, if decide (y = a) then f y + d else f y) l).
    rewrite (zsum_ext _ f l); [lia|]. intros y Hy. destruct (decide (y = a)); [by subst|done].
  - destruct (decide (a = x)); [by subst|]. specialize (IH Hnd Hx). unfold zsum in *. lia.
Qed.

(** ** Smooth weighted round-robin *)

Module WRRFacts.
Import WRR.

(** The running weight of a node, zero when it has none. *)
Definition run (m : gmap NodeID Z) (n : Node) : Z := default 0 (m !! nd_ID n).

Definition total_weight (us : list Node) : Z := zsum weight us.

Lemma total_weight_pos us : us ≠ [] → 0 < total_weight us.
Proof.
  destruct us as [|u us]; [done|]. intros _. unfold total_weight. cbn [zsum foldr]. fold (zsum weight us).
  assert (0 ≤ zsum weight us); [|pose proof (weight_pos u); lia].
  induction us as [|v us IH]; [done|]. cbn [zsum foldr]. fold (zsum weight us). pose proof (weight_pos v). lia.
Qed.

(** After the nodes [seen]: every one of them was bumped, and the winner is
    the first maximum as soon as one running weight is not negative. *)
Record bumped (m0 : gmap NodeID Z) (seen : list Node) (a : acc) : Prop := {
  bp_total : total a = zsum weight seen;
  bp_seen : ∀ n, n ∈ seen → run (cur a) n = run m0 n + weight n;
  bp_other : ∀ n, nd_ID n ∉ nd_ID <$> seen → cur a !! nd_ID n = m0 !! nd_ID n;
  bp_best : (best a < 0 ∧ ∀ n, n ∈ seen → run m0 n + weight n < 0) ∨
            (0 ≤ best a ∧ ∃ w, w ∈ seen ∧ winner a = nd_ID w ∧ best a = run m0 w + weight w ∧
               ∀ n, n ∈ seen → run m0 n + weight n ≤ best a);
}.

Lemma bump_bumped m0 seen a n :
  NoDup (nd_ID <$> seen ++ [n]) → bumped m0 seen a → bumped m0 (seen ++ [n]) (bump a n).
Proof.
  intros Hnd [Ht Hs Ho Hb]. rewrite fmap_app in Hnd. apply NoDup_app in Hnd as (_ & Hdis & _).
  assert (nd_ID n ∉ nd_ID <$> seen) as Hn by (intros Hin; apply (Hdis _ Hin); by left).
  assert (default 0 (cur a !! nd_ID n) = run m0 n) as Er by (unfold run; by rewrite Ho).
  assert (∀ m, m ∈ seen → nd_ID m ≠ nd_ID n) as Hne.
  { intros m Hm E. apply Hn. rewrite <-E. by apply list_elem_of_fmap_2. }
  assert (zsum weight (seen ++ [n]) = zsum weight seen + weight n) as Ez.
  { unfold zsum. rewrite foldr_app. cbn [foldr]. clear. induction seen as [|x l IH]; simpl; [lia|]. lia. }
  set (c := run m0 n + weight n).
  set (m' := <[nd_ID n := c]> (cur a)).
  assert (∀ m, m ∈ seen ++ [n] → run m' m = run m0 m + weight m) as Hseen.
  { intros m [Hm|Hm]%elem_of_app; unfold run, m'.
    - rewrite lookup_insert_ne by (intros E; by apply (Hne m Hm)). by apply Hs.
    - apply list_elem_of_singleton in Hm as ->. by rewrite lookup_insert_eq. }
  assert (∀ m, nd_ID m ∉ nd_ID <$> (seen ++ [n]) → m' !! nd_ID m = m0 !! nd_ID m) as Hother.
  { intros m Hm. rewrite fmap_app in Hm. unfold m'. rewrite lookup_insert_ne.
    - apply Ho. set_solver.
    - intros E. apply Hm. rewrite <-E. set_solver. }
  assert (n ∈ seen ++ [n]) as Hin by set_solver.
  unfold bump. rewrite Er. fold c. fold m'.
  destruct ((best a <? 0) || (best a <? c)) eqn:Ec; split; cbn [total cur best winner]; try done; try lia.
  - apply orb_true_iff in Ec. destruct (Z.lt_ge_cases c 0) as [Hc|Hc].
    + left. split; [done|]. intros m [Hm|Hm]%elem_of_app.
      * destruct Hb as [[_ Hall]|(Hb0 & _)]; [by apply Hall|]. destruct Ec as [E|E]; apply Z.ltb_lt in E; lia.
      * apply list_elem_of_singleton in Hm as ->. exact Hc.
    + right. split; [done|]. exists n. split_and!; try done.
      intros m [Hm|Hm]%elem_of_app.
      * destruct Hb as [[_ Hall]|(Hb0 & w & _ & _ & _ & Hmax)]; [specialize (Hall m Hm); lia|].
        specialize (Hmax m Hm). destruct Ec as [E|E]; apply Z.ltb_lt in E; lia.
      * apply list_elem_of_singleton in Hm as ->. fold c. lia.
  - apply orb_false_iff in Ec as [E1%Z.ltb_ge E2%Z.ltb_ge]. right.
    destruct Hb as [[? _]|(Hb0 & w & Hw & Ew & Eb & Hmax)]; [lia|].
    split; [done|]. exists w. split_and!; [set_solver|done|done|].
    intros m [Hm|Hm]%elem_of_app; [by apply Hmax|]. apply list_elem_of_singleton in Hm as ->. fold c. lia.
Qed.

Lemma foldl_bumped m0 us :
  NoDup (nd_ID <$> us) → bumped m0 us (foldl bump (mkAcc 0 (-1) "" m0) us).
Proof.
  induction us as [|n us IH] using rev_ind; intros Hnd.
  { split; simpl; try done; [intros ? []%elem_of_nil|]. left. split; [lia|]. intros ? []%elem_of_nil. }
  rewrite foldl_app. cbn [foldl]. apply bump_bumped; [done|]. apply IH.
  rewrite fmap_app in Hnd. by apply NoDup_app in Hnd as [? _].
Qed.

(** One pick from a balanced state: the winner has the largest running weight
    after the bump, pays the total, and the state stays balanced. *)
Lemma pick_balanced cands (w : Weighted) :
  let us := usableNodes cands in
  us ≠ [] → NoDup (nd_ID <$> us) → zsum (run (current w)) us = 0 →
  ∃ w' win, pick cands w = (w', Ok (nd_ID win)) ∧ win ∈ us ∧
    0 < run (current w) win + weight win ∧
    (∀ n, n ∈ us → run (current w) n + weight n ≤ run (current w) win + weight win) ∧
    (∀ n, n ∈ us → run (current w') n = run (current w) n + weight n -
                     (if decide (n = win) then total_weight us else 0)) ∧
    zsum (run (current w')) us = 0.
Proof.
  intros us Hne Hnd Hz. unfold pick. fold us.
  destruct us as [|u0 us0] eqn:Eus; [done|]. rewrite <-Eus in *.
  set (live := filter (λ '(id, _), id ∈ nd_ID <$> us) (current w)).
  assert (∀ n, n ∈ us → run live n = run (current w) n) as Hlive.
  { intros n Hn. unfold run, live. f_equal. apply option_eq. intros x. rewrite map_lookup_filter_Some.
    split; [by intros [? _]|]. intros Hx. split; [done|]. by apply list_elem_of_fmap_2. }
  pose proof (foldl_bumped live us Hnd) as [Ht Hs _ Hb].
  set (a := foldl bump _ us) in *.
  destruct (zsum_pos_exists (λ n, run (current w) n + weight n) us) as (p & Hp & Hpp).
  { rewrite zsum_add, Hz. pose proof (total_weight_pos us ltac:(by rewrite Eus)). unfold total_weight in *. lia. }
  destruct Hb as [[_ Hneg]|(Hb0 & win & Hw & Ew & Eb & Hmax)].
  { specialize (Hneg p Hp). rewrite Hlive in Hneg by done. lia. }
  assert (∀ n, n ∈ us → run (current w) n + weight n ≤ run (current w) win + weight win) as Hmax'.
  { intros n Hn. specialize (Hmax n Hn). rewrite Eb in Hmax. by rewrite !Hlive in Hmax. }
  assert (∀ n, n ∈ us → nd_ID n = nd_ID win → n = win) as Hinj.
  { intros n Hn E. apply list_elem_of_lookup in Hn as [i Hi]. apply list_elem_of_lookup in Hw as [j Hj].
    assert (i = j) as ->; [|congruence].
    apply (NoDup_lookup (nd_ID <$> us) i j (nd_ID win) Hnd); rewrite list_lookup_fmap.
    - rewrite Hi. simpl. by rewrite E.
    - by rewrite Hj. }
  eexists _, win. split; [by rewrite Ew|]. split; [done|]. split; [specialize (Hmax' p Hp); lia|].
  split; [done|]. cbn [current].
  assert (∀ n, n ∈ us → run (<[winner a := default 0 (cur a !! winner a) - total a]> (cur a)) n =
    run (current w) n + weight n - (if decide (n = win) then total_weight us else 0)) as Hrun.
  { intros n Hn. rewrite Ew. unfold run at 1. destruct (decide (n = win)) as [->|Hnw].
    - rewrite lookup_insert_eq. simpl. rewrite Ht. fold (run (cur a) win). rewrite Hs, Hlive by done. done.
    - rewrite lookup_insert_ne by (intros E; apply Hnw; by apply Hinj). fold (run (cur a) n).
      rewrite Hs, Hlive by done. lia. }
  rewrite Ew in Hrun. split; [exact Hrun|]. rewrite (zsum_ext _ _ _ Hrun).
  rewrite (zsum_ext _ (λ n, if decide (n = win) then (run (current w) n + weight n) + - total_weight us
                            else run (current w) n + weight n)).
  2:{ intros n _. destruct (decide (n = win)); lia. }
  rewrite (zsum_update (λ n, run (current w) n + weight n)); [|by eapply NoDup_fmap_1|done].
  rewrite zsum_add, Hz. unfold total_weight. lia.
Qed.

(** How often [n] was picked. *)
Definition times (n : Node) (rs : list (result placement_err NodeID)) : Z :=
  Z.of_nat (length (List.filter (λ r, match r with Ok id => bool_decide (id = nd_ID n) | Err _ => false end) rs)).

Lemma picks_balanced cands t : ∀ (w : Weighted),
  let us := usableNodes cands in
  us ≠ [] → NoDup (nd_ID <$> us) → zsum (run (current w)) us = 0 →
  (∀ n, n ∈ us → - total_weight us < run (current w) n) →
  let '(w', rs) := picks t cands w in
  zsum (run (current w')) us = 0 ∧
  (∀ n, n ∈ us → - total_weight us < run (current w') n) ∧
  (∀ n, n ∈ us → run (current w') n = run (current w) n + Z.of_nat t * weight n - total_weight us * times n rs) ∧
  Forall (λ r, ∃ n, n ∈ us ∧ r = Ok (nd_ID n)) rs.
Proof.
  induction t as [|t IH]; intros w us Hne Hnd Hz Hlow.
  { simpl. split_and!; try done. intros n Hn. unfold times. simpl. lia. }
  cbn [picks]. change (Pick cands w) with (pick cands w).
  destruct (pick_balanced cands w Hne Hnd Hz) as (w1 & win & Ep & Hw & Hpos & _ & Hrun & Hz1). rewrite Ep.
  fold us in Hw, Hrun, Hz1.
  assert (∀ n, n ∈ us → - total_weight us < run (current w1) n) as Hlow1.
  { intros n Hn. rewrite Hrun by done. pose proof (weight_pos n). specialize (Hlow n Hn).
    destruct (decide (n = win)) as [->|]; lia. }
  specialize (IH w1 Hne Hnd Hz1 Hlow1). fold us in IH. cbn zeta in IH.
  destruct (picks t cands w1) as [w' rs]. destruct IH as (H1 & H2 & H3 & H4).
  split_and!; [done|done| |].
  - intros n Hn. rewrite H3, Hrun by done. unfold times. cbn [List.filter].
    destruct (decide (n = win)) as [->|Hnw].
    + rewrite bool_decide_true by done. cbn [length]. lia.
    + rewrite bool_decide_false; [lia|]. intros E. apply Hnw.
      apply list_elem_of_lookup in Hn as [i Hi]. apply list_elem_of_lookup in Hw as [j Hj].
      assert (i = j) as ->; [|congruence].
      apply (NoDup_lookup (nd_ID <$> us) i j (nd_ID win) Hnd); rewrite list_lookup_fmap.
      * rewrite Hi. simpl. by rewrite E.
      * by rewrite Hj.
  - constructor; [by exists win|done].
Qed.
End WRRFacts.

(** ** Spread *)

Module SpreadFacts.
Import Spread.

Definition in_domain (d : string) (n : Node) : bool := bool_decide (domain n = d).

Record grouped (us : list Node) (g : grouping) : Prop := {
  gr_queue : ∀ d, queues g !! d =
    match List.filter (in_domain d) us with [] => None | q => Some q end;
  gr_nodup : NoDup (domainOrder g);
  gr_dom : ∀ d, d ∈ domainOrder g ↔ ∃ n, n ∈ us ∧ domain n = d;
}.

Lemma group_step_grouped us g n : grouped us g → grouped (us ++ [n]) (group_step g n).
Proof.
  intros [Hq Hnd Hd]. unfold group_step.
  assert (∀ d, List.filter (in_domain d) (us ++ [n]) =
    List.filter (in_domain d) us ++ (if decide (domain n = d) then [n] else [])) as Ef.
  { intros d. rewrite List.filter_app. cbn [List.filter]. unfold in_domain at 2.
    destruct (decide (domain n = d)) as [->|Hne]; [by rewrite bool_decide_true|].
    by rewrite bool_decide_false. }
  rewrite (Hq (domain n)). destruct (List.filter (in_domain (domain n)) us) as [|q qs] eqn:E.
  - assert (domain n ∉ domainOrder g) as Hnew.
    { rewrite Hd. intros (m & Hm & Em). assert (m ∈ List.filter (in_domain (domain n)) us) as Hin.
      { apply list_elem_of_In, filter_In. rewrite <-list_elem_of_In. split; [done|]. by apply bool_decide_eq_true. }
      rewrite E in Hin. by apply elem_of_nil in Hin. }
    split; cbn [queues domainOrder].
    + intros d. rewrite Ef, lookup_insert. destruct (decide (domain n = d)) as [<-|Hne].
      * by rewrite E.
      * rewrite app_nil_r. apply Hq.
    + apply NoDup_app. split; [done|]. split; [|apply NoDup_singleton]. intros d Hd' ->%list_elem_of_singleton. done.
    + intros d. rewrite elem_of_app, list_elem_of_singleton, Hd. split.
      * intros [(m & ? & ?)| ->]; [exists m; set_solver|exists n; set_solver].
      * intros (m & [Hm|Hm]%elem_of_app & Em); [left; eauto|right]. apply list_elem_of_singleton in Hm. congruence.
  - split; cbn [queues domainOrder]; [|done|].
    + intros d. rewrite Ef, lookup_insert. destruct (decide (domain n = d)) as [<-|Hne].
      * by rewrite E.
      * rewrite app_nil_r. apply Hq.
    + intros d. rewrite Hd. split; [intros (m & ? & ?); exists m; set_solver|].
      intros (m & [Hm|Hm]%elem_of_app & Em); [eauto|]. apply list_elem_of_singleton in Hm as ->.
      exists q. assert (q ∈ List.filter (in_domain (domain n)) us) as Hin by (rewrite E; by left).
      apply list_elem_of_In, filter_In in Hin as [Hin Hdq]. apply bool_decide_eq_true in Hdq.
      rewrite list_elem_of_In. by rewrite Hdq.
Qed.

Lemma group_nodes_grouped us : grouped us (group_nodes us).
Proof.
  unfold group_nodes. induction us as [|n us IH] using rev_ind.
  - split; simpl; [intros; apply lookup_empty|constructor|]. intros d. split; [intros []%elem_of_nil|].
    intros (? & []%elem_of_nil & _).
  - rewrite foldl_app. by apply group_step_grouped.
Qed.

(** The node that the [r]-th visit to domain [d] takes, and the [j]-th node
    overall. *)
Definition visit (g : grouping) (r : nat) (d : string) : option Node :=
  let q := default [] (queues g !! d) in q !! (r mod length q)%nat.
Definition nth_node (g : grouping) (j : nat) : option Node :=
  visit g (j / length (domainOrder g)) (default "" (domainOrder g !! (j mod length (domainOrder g))%nat)).
Definition node_name (o : option Node) : NodeID := match o with Some n => nd_ID n | None => "" end.
Definition plan (g : grouping) (n : nat) : list NodeID := (λ j, node_name (nth_node g j)) <$> seq 0 n.

Lemma plan_S g n : plan g (S n) = plan g n ++ [node_name (nth_node g n)].
Proof. unfold plan. by rewrite seq_S, fmap_app. Qed.

Lemma length_plan g n : length (plan g n) = n.
Proof. unfold plan. by rewrite length_fmap, length_seq. Qed.

(** The loop state after [r] complete rounds and the domains [dn] of the next. *)
Record at_round (g : grouping) (r : nat) (dn ds : list string) (s : st) : Prop := {
  ar_order : domainOrder g = dn ++ ds;
  ar_used : usedDomains s = list_to_set dn;
  ar_done : ∀ d, d ∈ dn → cursor s !! d = Some (r + 1)%nat;
  ar_todo : ∀ d, d ∈ ds → default 0%nat (cursor s !! d) = r;
  ar_out : out s = plan g (r * length (domainOrder g) + length dn);
}.

Lemma pass_ok g n r ds : NoDup (domainOrder g) → ∀ dn s,
  at_round g r dn ds s → (length (out s) < n)%nat →
  let s' := pass n g ds s in
  (length (out s') = n ∧ out s' = plan g n) ∨
  (length (out s') < n ∧ at_round g r (dn ++ ds) [] s')%nat.
Proof.
  intros Hnd. induction ds as [|d ds IH]; intros dn s Har Hlt; cbn [pass].
  { right. rewrite app_nil_r. done. }
  destruct Har as [Ho Hu Hdn Htd Hout].
  assert ((d ∉ dn) ∧ (d ∉ ds) ∧ NoDup (dn ++ ds)) as (Hd & Hd' & _).
  { rewrite Ho in Hnd. apply NoDup_app in Hnd as (Hn1 & Hdis & Hn2). apply NoDup_cons in Hn2 as [Hn2 Hn3].
    split_and!; [intros Hx; apply (Hdis d Hx); by left|done|]. apply NoDup_app. split_and!; [done| |done].
    intros x Hx Hx'. apply (Hdis x Hx). by right. }
  destruct (decide (d ∈ usedDomains s)) as [Hin|_]; [rewrite Hu in Hin; set_solver|].
  set (D := length (domainOrder g)) in *.
  assert (length dn < D)%nat as HlD by (unfold D; rewrite Ho, length_app; simpl; lia).
  assert (at_round g r (dn ++ [d]) ds (take_from g d s)) as Har'.
  { unfold take_from. split; cbn [usedDomains cursor out].
    - by rewrite Ho, <-app_assoc.
    - rewrite Hu, list_to_set_app_L. set_solver.
    - intros x Hx. rewrite lookup_insert. destruct (decide (d = x)) as [<-|Hne].
      + by rewrite (Htd d) by (by left).
      + apply Hdn. apply elem_of_app in Hx as [?|Hx]; [done|]. apply list_elem_of_singleton in Hx. congruence.
    - intros x Hx. rewrite lookup_insert_ne by (intros ->; done). apply Htd. by right.
    - rewrite (Htd d) by (by left). rewrite length_app. cbn [length]. fold D.
      replace (r * D + (length dn + 1))%nat with (S (r * D + length dn)) by lia.
      rewrite plan_S, Hout. f_equal. unfold nth_node. fold D.
      rewrite Nat.div_add_l, Nat.div_small, Nat.add_0_r by lia.
      replace ((r * D + length dn) mod D)%nat with (length dn)
        by (rewrite Nat.add_comm, Nat.Div0.mod_add, Nat.mod_small by lia; done).
      rewrite Ho, list_lookup_middle by done. done. }
  destruct (decide (length (out (take_from g d s)) = n)) as [Hn|Hn].
  - left. split; [done|]. rewrite (ar_out _ _ _ _ _ Har') in Hn |- *. rewrite length_plan in Hn. by rewrite Hn.
  - replace (dn ++ d :: ds) with ((dn ++ [d]) ++ ds) by (by rewrite <-app_assoc).
    apply IH; [done|]. unfold take_from in *. cbn [out] in *. rewrite length_app in *. simpl in *. lia.
Qed.

Lemma loop_ok g n : NoDup (domainOrder g) → domainOrder g ≠ [] → ∀ fuel r s,
  (r = 0%nat ∧ at_round g 0 [] (domainOrder g) s) ∨
  (∃ r', r = S r' ∧ at_round g r' (domainOrder g) [] s) →
  (length (out s) ≤ n)%nat → (n - length (out s) ≤ fuel)%nat →
  loop fuel n g s = Some (plan g n).
Proof.
  intros Hnd Hne fuel.
  assert (0 < length (domainOrder g))%nat as HD by (destruct (domainOrder g); [done|simpl; lia]).
  induction fuel as [|fuel IH]; intros r s Hst Hle Hf; cbn [loop].
  - destruct (decide _) as [?|_]; [lia|]. f_equal.
    destruct Hst as [[_ Har]|(r' & _ & Har)]; pose proof (ar_out _ _ _ _ _ Har) as E;
      rewrite E in Hle, Hf |- *; rewrite length_plan in *; f_equal; lia.
  - destruct (decide (length (out s) < n)%nat) as [Hlt|Hge].
    2:{ f_equal. destruct Hst as [[_ Har]|(r' & _ & Har)]; pose proof (ar_out _ _ _ _ _ Har) as E;
          rewrite E in Hle, Hge |- *; rewrite length_plan in *; f_equal; lia. }
    set (s0 := if decide (size (usedDomains s) = _) then _ else s).
    assert (at_round g r [] (domainOrder g) s0 ∧ out s0 = out s) as [Har0 Eo].
    { unfold s0. destruct Hst as [[-> Har]|(r' & -> & Har)].
      - destruct (decide _) as [E|_]; [|done]. rewrite (ar_used _ _ _ _ _ Har) in E.
        change (list_to_set [] : gset string) with (∅ : gset string) in E; rewrite size_empty in E. destruct (domainOrder g); [done|simpl in E; lia].
      - destruct Har as [_ Hu Hc _ Ho]. destruct (decide _) as [_|Hn].
        2:{ destruct Hn. rewrite Hu. by apply size_list_to_set. }
        split; [|done]. split; cbn [usedDomains cursor out]; try done.
        + intros d []%elem_of_nil.
        + intros d Hd. rewrite Hc by done. simpl. lia.
        + rewrite Ho. f_equal. simpl. lia. }
    cbn zeta. pose proof (pass_ok g n r (domainOrder g) Hnd [] s0 Har0 ltac:(rewrite Eo; done)) as Hp.
    cbn zeta in Hp. set (s1 := pass n g (domainOrder g) s0) in *. rewrite app_nil_l in Hp.
    assert (length (out s0) < length (out s1))%nat as Hgrow.
    { destruct Hp as [[Hl _]|[Hl Har1]]; [rewrite Eo; lia|].
      rewrite (ar_out _ _ _ _ _ Har1), (ar_out _ _ _ _ _ Har0), !length_plan.
      cbn [length]. lia. }
    rewrite bool_decide_false by lia. cbn [negb].
    destruct Hp as [[Hl Ep]|[Hl Har1]].
    + destruct fuel; cbn [loop]; (destruct (decide (length (out s1) < n)%nat) as [?|_]; [lia|]); by rewrite Ep.
    + apply (IH (S r)); [right; by exists r|lia|]. rewrite Eo in Hgrow. lia.
Qed.

(** *** Sorting *)

#[global] Instance node_le_total : Total node_le.
Proof.
  intros x y. unfold node_le. destruct (decide (domain x = domain y)) as [E|E].
  - destruct (Z.lt_total (nd_Free x) (nd_Free y)) as [?|[?|?]].
    + right. right. split; [done|]. by left.
    + destruct (total String.le (nd_ID x) (nd_ID y)); [left|right]; right; (split; [done|]); right; done.
    + left. right. split; [done|]. by left.
  - destruct (total String.le (domain x) (domain y)); [left|right]; left; done.
Qed.
#[global] Instance node_le_trans : Transitive node_le.
Proof.
  intros x y z. unfold node_le. intros [[E1 L1]|[E1 L1]] [[E2 L2]|[E2 L2]].
  - left. split; [|by transitivity (domain y)]. intros E. apply E1. apply (anti_symm String.le); [done|].
    rewrite E. done.
  - left. by rewrite <-E2.
  - left. by rewrite E1.
  - right. split; [congruence|]. destruct L1 as [?|[? ?]], L2 as [?|[? ?]]; try (left; lia).
    right. split; [lia|]. by transitivity (nd_ID y).
Qed.

(** The head of a domain's queue has the most free bytes of the domain. *)
Lemma head_roomiest l d q n :
  StronglySorted node_le l → List.filter (in_domain d) l = n :: q →
  ∀ m, m ∈ l → domain m = d → nd_Free m ≤ nd_Free n.
Proof.
  induction 1 as [|x l Hs IH Hx]; cbn [List.filter]; [done|].
  unfold in_domain at 1. destruct (decide (domain x = d)) as [Ed|Ed].
  - rewrite bool_decide_true by done. intros [= <- _] m [->|Hm]%elem_of_cons Hd; [lia|].
    rewrite Forall_forall in Hx. destruct (Hx m Hm) as [[Hn _]|[_ [?|[? _]]]]; [congruence|lia|lia].
  - rewrite bool_decide_false by done. intros E m [->|Hm]%elem_of_cons Hd; [done|]. by apply IH.
Qed.

Lemma Spread_loop n cands :
  0 < n → usableNodes cands ≠ [] →
  Spread n cands = of_option ErrNoCandidates
    (loop (Z.to_nat n) (Z.to_nat n) (group_nodes (sort_nodes (usableNodes cands))) (mkSt ∅ ∅ [])).
Proof.
  intros Hn Hne. unfold Spread. destruct (Z.leb_spec n 0); [lia|]. by destruct (usableNodes cands).
Qed.

(** Every position is served by a node of its domain. *)
Lemma nth_node_spec us g j :
  grouped us g → domainOrder g ≠ [] →
  let D := length (domainOrder g) in
  ∃ nd d q, nth_node g j = Some nd ∧ domainOrder g !! (j mod D)%nat = Some d ∧
    List.filter (in_domain d) us = q ∧ q !! ((j / D) mod length q)%nat = Some nd ∧
    nd ∈ us ∧ domain nd = d.
Proof.
  intros [Hq Hnd Hd] Hne D.
  assert (0 < D)%nat as HD by (unfold D; destruct (domainOrder g); [done|simpl; lia]).
  destruct (lookup_lt_is_Some_2 (domainOrder g) (j mod D)%nat) as [d Ed].
  { apply Nat.mod_upper_bound. lia. }
  assert (d ∈ domainOrder g) as Hin by (by eapply list_elem_of_lookup_2).
  apply Hd in Hin as (m & Hm & Em).
  assert (m ∈ List.filter (in_domain d) us) as Hmq.
  { apply list_elem_of_In, filter_In. rewrite <-list_elem_of_In. split; [done|]. by apply bool_decide_eq_true. }
  unfold nth_node, visit. fold D. rewrite Ed. cbn [default from_option id]. rewrite Hq.
  destruct (List.filter (in_domain d) us) as [|q0 q] eqn:Eq; [by apply elem_of_nil in Hmq|].
  change (default [] (Some (q0 :: q))) with (q0 :: q).
  destruct (lookup_lt_is_Some_2 (q0 :: q) ((j / D) mod length (q0 :: q))%nat) as [nd End].
  { apply Nat.mod_upper_bound. simpl. lia. }
  assert (nd ∈ q0 :: q) as Hnd' by (by eapply list_elem_of_lookup_2).
  rewrite <-Eq in Hnd'. apply list_elem_of_In, filter_In in Hnd' as [Hnd'%list_elem_of_In Hdd].
  apply bool_decide_eq_true in Hdd. by exists nd, d, (q0 :: q).
Qed.

Lemma domain_count us g :
  grouped us g → length (domainOrder g) = size (list_to_set (domain <$> us) : gset string).
Proof.
  intros [_ Hnd Hd]. rewrite <-(size_list_to_set (C:=gset string)) by done. f_equal. apply set_eq. intros d.
  rewrite !elem_of_list_to_set, Hd, list_elem_of_fmap. split; intros (m & ? & ?); eauto.
Qed.
End SpreadFacts.

(** ** Properties *)

Lemma rr_picks cands n : usableNodes cands ≠ [] → ∀ r : RR.RoundRobin,
  picks n cands r =
  (RR.mkRR (RR.next r + n),
   (λ i, match usableNodes cands !! ((RR.next r + i) mod length (usableNodes cands))%nat with
         | Some nd => Ok (nd_ID nd) | None => Err ErrNoCandidates end) <$> seq 0 n).
Proof.
  intros Hne. induction n as [|n IH]; intros r; cbn [picks].
  - rewrite Nat.add_0_r. by destruct r.
  - change (Pick cands r) with (RR.pick cands r). unfold RR.pick.
    destruct (usableNodes cands) as [|u us] eqn:E; [done|]. rewrite <-E in *.
    rewrite IH. cbn [RR.next]. f_equal; [f_equal; lia|].
    cbn [seq fmap list_fmap]. rewrite Nat.add_0_r. f_equal.
    rewrite <-(fmap_S_seq 0 n), <-list_fmap_compose. apply list_fmap_ext. intros _ i _. simpl.
    by replace (RR.next r + 1 + i)%nat with (RR.next r + S i)%nat by lia.
Qed.

(** Round-robin spreads a stripe: over a fixed candidate set with [u] usable
    nodes, any [n] <= [u] consecutive Picks, from any cursor, return [n]
    pairwise distinct usable nodes; with no usable node every Pick fails and
    leaves the cursor alone. *)
Theorem round_robin_distinct (cands : list Node) (n : nat) (r : RR.RoundRobin) :
  NoDup (nd_ID <$> usableNodes cands) →
  (usableNodes cands = [] → Pick cands r = (r, Err ErrNoCandidates)) ∧
  ((0 < n ≤ length (usableNodes cands))%nat →
     ∃ ids, (picks n cands r).2 = Ok <$> ids ∧ length ids = n ∧ NoDup ids ∧
       ∀ id, id ∈ ids → ∃ nd, nd ∈ cands ∧ nd_Down nd = false ∧ nd_ID nd = id).
Proof.
  intros Hnd. split; [intros E; simpl; unfold RR.pick; by rewrite E|]. intros Hn.
  set (us := usableNodes cands) in *. set (u := length us) in *.
  assert (us ≠ []) as Hne by (intros E; unfold u in Hn; rewrite E in Hn; simpl in Hn; lia).
  set (pos i := ((RR.next r + i) mod u)%nat).
  assert (∀ i, (pos i < u)%nat) as Hpos by (intros; apply Nat.mod_upper_bound; lia).
  exists ((λ i, nd_ID (default (mkNode "" "" 0 0 true) (us !! pos i))) <$> seq 0 n).
  rewrite rr_picks by done. cbn [snd]. split_and!.
  - rewrite <-list_fmap_compose. apply list_fmap_ext. intros _ i _. simpl. fold us u (pos i).
    destruct (lookup_lt_is_Some_2 us (pos i) (Hpos i)) as [nd ->]. done.
  - by rewrite length_fmap, length_seq.
  - apply NoDup_fmap_2_strong; [|apply NoDup_seq]. intros i j Hi Hj E.
    apply elem_of_seq in Hi, Hj.
    destruct (lookup_lt_is_Some_2 us (pos i) (Hpos i)) as [a Ha].
    destruct (lookup_lt_is_Some_2 us (pos j) (Hpos j)) as [b Hb]. rewrite Ha, Hb in E. simpl in E.
    assert (pos i = pos j) as Ep.
    { apply (NoDup_lookup (nd_ID <$> us) (pos i) (pos j) (nd_ID a) Hnd); rewrite list_lookup_fmap.
      - by rewrite Ha.
      - rewrite Hb. simpl. by rewrite E. }
    unfold pos in Ep.
    pose proof (Nat.div_mod_eq (RR.next r + i) u). pose proof (Nat.div_mod_eq (RR.next r + j) u).
    assert ((RR.next r + i) / u = (RR.next r + j) / u)%nat by nia. nia.
  - intros id (i & -> & Hi)%list_elem_of_fmap.
    destruct (lookup_lt_is_Some_2 us (pos i) (Hpos i)) as [nd Hl]. rewrite Hl. exists nd.
    assert (nd ∈ us) as Hin by (by eapply list_elem_of_lookup_2).
    apply list_elem_of_In, filter_In in Hin as [Hin Hu]. rewrite list_elem_of_In. split; [done|].
    unfold usable in Hu. by destruct (nd_Down nd).
Qed.

Definition ex_nodes : list Node :=
  [mkNode "a" "" 0 1 false; mkNode "x" "" 0 1 true; mkNode "b" "" 0 2 false;
   mkNode "c" "" 0 2 false; mkNode "d" "" 0 2 false].

Lemma ex_nodes_nodup : NoDup (nd_ID <$> usableNodes ex_nodes).
Proof. refine (proj1 (bool_decide_eq_true _) _). vm_compute. reflexivity. Qed.

Lemma round_robin_distinct_witness :
  ∃ ids, (picks 3 ex_nodes (RR.mkRR 7)).2 = Ok <$> ids ∧ NoDup ids.
Proof.
  destruct (proj2 (round_robin_distinct ex_nodes 3 (RR.mkRR 7) ex_nodes_nodup)) as (ids & E & _ & Hnd & _).
  - vm_compute. split; repeat constructor.
  - exists ids. split; [exact E|exact Hnd].
Defined.



(** After nodes leave, Weighted does not always pick the highest running
    total: with nodes a, b, c, d of weights 1, 2, 2, 2, five picks and then c
    and d down, the running totals of a and b become -1 and -2 and the code
    picks b. *)
Theorem swrr_departure_not_max :
  let w := (picks 5 ex_nodes WRR.NewWeighted).1 in
  let rest := (λ n, mkNode (nd_ID n) (nd_Domain n) (nd_Free n) (nd_Weight n)
                 (nd_Down n || bool_decide (nd_ID n = "c") || bool_decide (nd_ID n = "d"))) <$> ex_nodes in
  let total n := WRRFacts.run (WRR.current w) n + weight n in
  nd_ID <$> usableNodes rest = ["a"; "b"] ∧
  (total <$> usableNodes rest) = [-1; -2] ∧
  (Pick rest w).2 = Ok "b".
Proof. vm_compute. repeat split; reflexivity. Qed.

(** Spread plans a whole stripe: for [n] > 0 and at least one usable node
    it assigns exactly [n] usable nodes such that any two positions less than D
    apart, D being the number of distinct failure domains of the usable nodes,
    lie in different domains, and each of the first D shards goes to a node with
    the most free bytes of its domain. *)
Theorem spread_domains (n : Z) (cands : list Node) :
  0 < n → usableNodes cands ≠ [] →
  ∃ (nodes : list Node) (D : nat),
    Spread.Spread n cands = Ok (nd_ID <$> nodes) ∧ Z.of_nat (length nodes) = n ∧
    D = size (list_to_set (domain <$> usableNodes cands) : gset string) ∧
    (∀ nd, nd ∈ nodes → nd ∈ usableNodes cands) ∧
    (∀ i j a b, nodes !! i = Some a → nodes !! j = Some b → (i < j < i + D)%nat → domain a ≠ domain b) ∧
    (∀ j a, nodes !! j = Some a → (j < D)%nat →
       ∀ m, m ∈ usableNodes cands → domain m = domain a → nd_Free m ≤ nd_Free a).
Proof.
  intros Hn Hne. rewrite SpreadFacts.Spread_loop by done. set (us := usableNodes cands) in *.
  set (sorted := Spread.sort_nodes us). set (g := Spread.group_nodes sorted).
  assert (sorted ≡ₚ us) as Hperm by apply merge_sort_Permutation.
  assert (StronglySorted Spread.node_le sorted) as Hsort by (apply StronglySorted_merge_sort; apply _).
  pose proof (SpreadFacts.group_nodes_grouped sorted) as Hg. fold g in Hg.
  assert (Spread.domainOrder g ≠ []) as Hone.
  { destruct us as [|u us0] eqn:E; [done|]. intros Ed. assert (domain u ∈ Spread.domainOrder g) as Hu.
    { apply (SpreadFacts.gr_dom _ _ Hg). exists u. split; [rewrite Hperm; by left|done]. }
    rewrite Ed in Hu. by apply elem_of_nil in Hu. }
  pose proof (λ j, SpreadFacts.nth_node_spec sorted g j Hg Hone) as Hnth. cbv zeta in Hnth.
  pose proof (SpreadFacts.gr_nodup _ _ Hg) as Hnd.
  set (nodes := (λ j, default (mkNode "" "" 0 0 true) (SpreadFacts.nth_node g j)) <$> seq 0 (Z.to_nat n)).
  assert (∀ j a, nodes !! j = Some a → SpreadFacts.nth_node g j = Some a) as Hnodes.
  { intros j a. unfold nodes. rewrite list_lookup_fmap. destruct (seq 0 (Z.to_nat n) !! j) as [k|] eqn:Ek; [|done].
    apply lookup_seq in Ek as [-> _]. simpl. destruct (Hnth j) as (nd & _ & _ & E & _). rewrite E. intros [= <-]. done. }
  exists nodes, (length (Spread.domainOrder g)). set (D := length (Spread.domainOrder g)) in *. split_and!.
  - rewrite (SpreadFacts.loop_ok g (Z.to_nat n) Hnd Hone (Z.to_nat n) 0); [|left|simpl; lia|simpl; lia].
    + cbn [of_option]. f_equal. unfold SpreadFacts.plan, nodes. rewrite <-list_fmap_compose.
      apply list_fmap_ext. intros _ j _. simpl. destruct (Hnth j) as (nd & _ & _ & E & _). by rewrite E.
    + split; [done|]. split; [done|done|by intros d ?%elem_of_nil|by intros d _|done].
  - unfold nodes. rewrite length_fmap, length_seq. lia.
  - unfold D. rewrite (SpreadFacts.domain_count sorted g Hg). f_equal. apply set_eq. intros d.
    by rewrite !elem_of_list_to_set, Hperm.
  - intros nd (j & Hj%Hnodes)%list_elem_of_lookup.
    destruct (Hnth j) as (nd' & _ & _ & E & _ & _ & _ & Hin & _). rewrite <-Hperm. congruence.
  - intros i j a b Ha%Hnodes Hb%Hnodes Hij E.
    destruct (Hnth i) as (a' & d & q & Ea & Ed & _ & _ & _ & Eda).
    destruct (Hnth j) as (b' & d' & q' & Eb & Ed' & _ & _ & _ & Edb).
    assert ((i mod D)%nat = (j mod D)%nat) as Em.
    { apply (NoDup_lookup _ _ _ d Hnd Ed). rewrite Ed'. f_equal. congruence. }
    pose proof (Nat.div_mod_eq i D). pose proof (Nat.div_mod_eq j D).
    destruct (Nat.le_gt_cases (j / D) (i / D)) as [Hle|Hlt].
    + pose proof (Nat.mul_le_mono_l _ _ D Hle). lia.
    + pose proof (Nat.mul_le_mono_l _ _ D Hlt). lia.
  - intros j a Ha%Hnodes Hj m Hm Edm.
    destruct (Hnth j) as (a' & d & q & Ea & _ & Eq & Hqa & _ & Eda).
    rewrite Nat.div_small in Hqa by done. rewrite Nat.Div0.mod_0_l in Hqa.
    destruct q as [|q0 q]; [done|]. simpl in Hqa. assert (a = q0) as -> by congruence.
    apply (SpreadFacts.head_roomiest sorted d q q0 Hsort Eq); [by rewrite Hperm|congruence].
Qed.

Definition ex_racks : list Node :=
  [mkNode "a" "r1" 5 0 false; mkNode "b" "r2" 3 0 false; mkNode "c" "r2" 9 0 false; mkNode "d" "r2" 1 0 false].

Lemma spread_domains_witness :
  ∃ nodes, Spread.Spread 2 ex_racks = Ok (nd_ID <$> nodes) ∧ length nodes = 2%nat ∧
    (∀ i j a b, nodes !! i = Some a → nodes !! j = Some b → (i < j < i + 2)%nat → domain a ≠ domain b).
Proof.
  destruct (spread_domains 2 ex_racks) as (nodes & D & E & Hl & HD & _ & Hdis & _).
  - reflexivity.
  - vm_compute. discriminate.
  - exists nodes. assert (D = 2%nat) as -> by (rewrite HD; vm_compute; reflexivity).
    split; [exact E|]. split; [lia|exact Hdis].
Defined.

(** Spread repeats a node too early: its documentation says that a node is
    reused only when the stripe has more shards than there are usable nodes; with
    one node in one rack and three in another, four shards put two on the first
    node while a node of the other rack gets none. *)
Theorem spread_repeats_early :
  Spread.Spread 4 ex_racks = Ok ["a"; "c"; "a"; "b"] ∧
  length (usableNodes ex_racks) = 4%nat ∧ NoDup (nd_ID <$> usableNodes ex_racks).
Proof.
  split; [vm_compute; reflexivity|]. split; [reflexivity|].
  refine (proj1 (bool_decide_eq_true _) _). vm_compute. reflexivity.
Qed.

(** A rebalancing step never moves more than is there or fits: the offload
    is between zero and the smaller of the peer's free budget and the bytes this
    node holds, and it is zero within the dead-band of the threshold. *)
Theorem offload_bounds (self peer : Load) (threshold : F64.t) :
  0 ≤ ld_Used self →
  0 ≤ OffloadBytes self peer threshold ≤ Z.min (Free peer) (ld_Used self) ∧
  0 ≤ Free peer ∧
  (F64.leb (F64.sub (Frac self) (Frac peer))
     (if F64.ltb threshold (F64.of_Z 0) then F64.of_Z 0 else threshold) = true →
   OffloadBytes self peer threshold = 0).
Proof.
  intros Hu. assert (0 ≤ Free peer) as Hf
    by (unfold Free; cbv zeta; destruct (Z.ltb_spec 0 (i64 (ld_Capacity peer - ld_Used peer))); lia).
  split; [|split; [done|]].
  - unfold OffloadBytes. destruct (F64.leb _ _); [lia|]. cbv zeta. set (want := F64.to_i64 _). clearbody want.
    destruct (Z.ltb_spec (Free peer) want); [destruct (Z.ltb_spec (ld_Used self) (Free peer))|
      destruct (Z.ltb_spec (ld_Used self) want)];
      match goal with |- context [if ?x <? 0 then _ else _] => destruct (Z.ltb_spec x 0) end; lia.
  - intros E. unfold OffloadBytes. cbv zeta. by rewrite E.
Qed.

(** A node at 90% of 1000 bytes sheds 400 bytes to one at 10%. *)
Lemma offload_bounds_witness :
  OffloadBytes (mkLoad 900 1000) (mkLoad 100 1000) (F64.ratio 1 10) = 400 ∧
  0 ≤ OffloadBytes (mkLoad 900 1000) (mkLoad 100 1000) (F64.ratio 1 10) ≤ 900.
Proof.
  split; [vm_compute; reflexivity|].
  destruct (offload_bounds (mkLoad 900 1000) (mkLoad 100 1000) (F64.ratio 1 10)) as [H _]; [simpl; lia|].
  replace 900 with (Z.min (Free (mkLoad 100 1000)) (ld_Used (mkLoad 900 1000))) at 2 by (vm_compute; reflexivity).
  exact H.
Defined.
