(* ===== verification/Wire.v ===== *)
(** * internal/net: framing (proto.go), write tokens (auth.go), replay cache
      (authcache.go) and request frames (client.go)

    A stream is the list of bytes still to be read. A short read is an error,
    on which the handlers reset the stream. *)

From S2P Require Import Prelude GoLib Store Crypto Stripe.

(** ** proto.go *)

Inductive wire_err := WShort | WTooBig.
#[export] Instance wire_err_eq_dec : EqDecision wire_err.
Proof. solve_decision. Defined.

Inductive op := opPut | opGet | opHas | opDelete | opRenew | opRevokeGrant.
#[export] Instance op_eq_dec : EqDecision op.
Proof. solve_decision. Defined.

Definition op_byte (o : op) : byte :=
  match o with
  | opPut => Byte.x01 | opGet => Byte.x02 | opHas => Byte.x03
  | opDelete => Byte.x04 | opRenew => Byte.x05 | opRevokeGrant => Byte.x06
  end.

Definition op_of_byte (b : byte) : option op :=
  match b with
  | Byte.x01 => Some opPut | Byte.x02 => Some opGet | Byte.x03 => Some opHas
  | Byte.x04 => Some opDelete | Byte.x05 => Some opRenew | Byte.x06 => Some opRevokeGrant
  | _ => None
  end.

Lemma op_of_op_byte o : op_of_byte (op_byte o) = Some o.
Proof. by destruct o. Qed.

Definition ReasonClient : byte := Byte.x00.
Definition ReasonRepair : byte := Byte.x01.
Definition ReasonRebalance : byte := Byte.x02.

Inductive status :=
| statusOK | statusNotFound | statusCorrupt | statusError
| statusUnauthorized | statusQuotaExceeded | statusRateLimited.
#[export] Instance status_eq_dec : EqDecision status.
Proof. solve_decision. Defined.

Definition status_byte (s : status) : byte :=
  match s with
  | statusOK => Byte.x00 | statusNotFound => Byte.x01 | statusCorrupt => Byte.x02
  | statusError => Byte.x03 | statusUnauthorized => Byte.x04
  | statusQuotaExceeded => Byte.x05 | statusRateLimited => Byte.x06
  end.

Definition status_of_byte (b : byte) : option status :=
  match b with
  | Byte.x00 => Some statusOK | Byte.x01 => Some statusNotFound | Byte.x02 => Some statusCorrupt
  | Byte.x03 => Some statusError | Byte.x04 => Some statusUnauthorized
  | Byte.x05 => Some statusQuotaExceeded | Byte.x06 => Some statusRateLimited
  | _ => None
  end.

Definition MaxShardSize : Z := 64 * 2 ^ 20.
Definition ProbeNonceSize : nat := 32.
Definition maxStripeBlob : Z := 2 ^ 16.

(** [io.ReadFull] of [n] bytes. *)
Definition readFull (n : nat) (s : bytes) : result wire_err (bytes * bytes) :=
  if decide (length s < n)%nat then Err WShort else Ok (take n s, drop n s).

Definition writeByte (b : byte) : bytes := [b].
Definition readByte (s : bytes) : result wire_err (byte * bytes) :=
  match s with [] => Err WShort | b :: s => Ok (b, s) end.

Definition writeID (id : ShardID) : bytes := id.
Definition readID (s : bytes) : result wire_err (ShardID * bytes) := readFull 32 s.

Definition writeBlob (b : bytes) : result wire_err bytes :=
  if MaxShardSize <? Z.of_nat (length b) then Err WTooBig
  else Ok (be_enc 4 (u32 (Z.of_nat (length b))) ++ b).

Definition readBlob (max : Z) (s : bytes) : result wire_err (bytes * bytes) :=
  '(hdr, s) ← readFull 4 s;
  let n := be_dec hdr in
  if max <? n then Err WTooBig else readFull (Z.to_nat n) s.

Definition readNonce (s : bytes) : result wire_err (bytes * bytes) := readFull ProbeNonceSize s.

(** ** Request frames: written by client.go, read by server.go *)

Record PutFrame := mkPut { pf_data : bytes; pf_token : bytes; pf_stripe : bytes; pf_grant : bytes; pf_reason : byte }.

Definition authTokenSize : nat := SignPubKeySize + 8 + SignatureSize.

(** The frame [putRaw] writes after dialing. *)
Definition putRaw_frame (p : PutFrame) : result wire_err bytes :=
  d ← writeBlob (pf_data p); t ← writeBlob (pf_token p);
  st ← writeBlob (pf_stripe p); g ← writeBlob (pf_grant p);
  Ok (writeByte (op_byte opPut) ++ d ++ t ++ st ++ g ++ writeByte (pf_reason p)).

(** What [handlePut] reads after the op byte. *)
Definition read_put (s : bytes) : result wire_err (PutFrame * bytes) :=
  '(d, s) ← readBlob MaxShardSize s;
  '(t, s) ← readBlob (Z.of_nat authTokenSize) s;
  '(st, s) ← readBlob maxStripeBlob s;
  '(g, s) ← readBlob (Z.of_nat GrantSize) s;
  '(r, s) ← readByte s;
  Ok (mkPut d t st g r, s).

(** The frame of the requests that carry an address and a token. *)
Definition signed_frame (o : op) (id : ShardID) (token : bytes) : result wire_err bytes :=
  t ← writeBlob token; Ok (writeByte (op_byte o) ++ writeID id ++ t).

Definition read_signed (s : bytes) : result wire_err (ShardID * bytes * bytes) :=
  '(id, s) ← readID s; '(t, s) ← readBlob (Z.of_nat authTokenSize) s; Ok (id, t, s).

(** ** auth.go *)

Definition tokenSkew : Z := 5 * Minute.

Definition tokenPayload (o : op) (id : ShardID) (node : bytes) (ts : Z) : bytes :=
  [op_byte o] ++ id ++ node ++ be_enc 8 (u64 ts).

Definition buildToken `{Ed25519} (signer : bytes) (o : op) (id : ShardID) (node : bytes) (ts : Z) : bytes :=
  Public signer ++ be_enc 8 (u64 ts) ++ Sign signer (tokenPayload o id node ts).

Definition token_pub (token : bytes) : bytes := take SignPubKeySize token.
Definition token_ts (token : bytes) : Z := i64 (be_dec (take 8 (drop SignPubKeySize token))).
Definition token_sig (token : bytes) : bytes := drop (SignPubKeySize + 8) token.

Inductive auth_err := AUnauthorized.

Definition verifyToken `{Ed25519} (token : bytes) (o : op) (id : ShardID) (node : bytes) (now : Z)
    : result auth_err bytes :=
  if decide (length token ≠ authTokenSize) then Err AUnauthorized
  else
    let pub := token_pub token in
    let ts := token_ts token in
    let sig := token_sig token in
    let d := Sub now (FromUnix ts) in
    if (d <? - tokenSkew) || (tokenSkew <? d) then Err AUnauthorized
    else if negb (Verify pub (tokenPayload o id node ts) sig) then Err AUnauthorized
    else Ok pub.

(** ** authcache.go *)

Record authCache := mkCache { entries : gmap bytes Z; lastGC : Z }.

(** The zero [time.Time], January 1 of year 1. *)
Definition zeroTime : Z := -62135596800 * Second.
Definition newAuthCache : authCache := mkCache ∅ zeroTime.
Definition authCacheGCInterval : Z := Minute.

Definition gc_cache (now : Z) (c : authCache) : authCache :=
  if authCacheGCInterval <=? Sub now (lastGC c)
  then mkCache (filter (λ '(_, exp), ¬ (exp < now)) (entries c)) now
  else c.

Definition seen (sig : bytes) (now : Z) (c : authCache) : authCache * bool :=
  let c := gc_cache now c in
  let expiry := now + 2 * tokenSkew in
  if match entries c !! sig with Some exp => now <? exp | None => false end then (c, true)
  else (mkCache (<[sig := expiry]> (entries c)) (lastGC c), false).

(** Presentations of other tokens. *)
Fixpoint present_all (ps : list (bytes * Z)) (c : authCache) : authCache :=
  match ps with [] => c | (sig, now) :: ps => present_all ps (seen sig now c).1 end.

(** ** Lemmas *)

Lemma readFull_app n x rest : length x = n → readFull n (x ++ rest) = Ok (x, rest).
Proof.
  intros <-. unfold readFull. rewrite length_app. destruct (decide _); [lia|].
  by rewrite take_app_length, drop_app_length.
Qed.

Lemma readFull_all x n : length x = n → readFull n x = Ok (x, []).
Proof. intros H. rewrite <-(app_nil_r x) at 1. by apply readFull_app. Qed.

Lemma readFull_Ok n s x rest : readFull n s = Ok (x, rest) → s = x ++ rest ∧ length x = n.
Proof.
  unfold readFull. destruct (decide _); [done|]. intros [= <- <-]. rewrite take_drop, length_take. split; [done|lia].
Qed.

Lemma blob_roundtrip max b w rest :
  Z.of_nat (length b) ≤ max → writeBlob b = Ok w → readBlob max (w ++ rest) = Ok (b, rest).
Proof.
  unfold writeBlob, readBlob. destruct (Z.ltb_spec MaxShardSize (Z.of_nat (length b))) as [|Hle]; [done|].
  intros Hmax <-%(inj Ok). rewrite <-app_assoc, readFull_app by apply length_be_enc. cbn [mbind result_bind].
  unfold MaxShardSize in Hle. unfold u32. rewrite be_dec_enc_small by (rewrite Z.mod_small; lia).
  rewrite Z.mod_small by lia. destruct (Z.ltb_spec max (Z.of_nat (length b))); [lia|].
  apply readFull_app. lia.
Qed.

Lemma readBlob_bound max s b rest : readBlob max s = Ok (b, rest) → Z.of_nat (length b) ≤ max.
Proof.
  unfold readBlob. intros H. apply bind_Ok in H as ([hdr s'] & _ & H).
  destruct (Z.ltb_spec max (be_dec hdr)) as [|Hle]; [done|]. apply readFull_Ok in H as [_ Hl].
  pose proof (be_dec_range hdr). lia.
Qed.

Lemma writeBlob_total b : Z.of_nat (length b) ≤ MaxShardSize → ∃ w, writeBlob b = Ok w.
Proof. intros H. unfold writeBlob. destruct (Z.ltb_spec MaxShardSize (Z.of_nat (length b))); [lia|eauto]. Qed.

Lemma tokenPayload_inj o o' id id' node node' ts ts' :
  is_id id → is_id id' → in_i64 ts → in_i64 ts' →
  tokenPayload o id node ts = tokenPayload o' id' node' ts' → o = o' ∧ id = id' ∧ node = node' ∧ ts = ts'.
Proof.
  intros Hid Hid' Hts Hts' E. unfold tokenPayload in E. injection E as Eo E.
  assert (o = o') as <-.
  { assert (Some o = Some o') as Eo'; [|by injection Eo']. by rewrite <-!op_of_op_byte, Eo. }
  apply app_inj_1 in E as [-> E]; [|by rewrite Hid, Hid'].
  apply app_inj_2 in E as [-> E]; [|by rewrite !length_be_enc]. split_and!; try done.
  assert (u64 ts = u64 ts') as Eu by (apply (be_enc_inj 8); [apply Z.mod_pos_bound; lia..|done]).
  rewrite <-(i64_id ts), <-(i64_id ts'), <-(i64_u64 ts), <-(i64_u64 ts') by done. by rewrite Eu.
Qed.

Lemma token_fields pub ts sig :
  length pub = 32%nat → length sig = 64%nat → in_i64 ts →
  let t := pub ++ be_enc 8 (u64 ts) ++ sig in
  length t = authTokenSize ∧ token_pub t = pub ∧ token_ts t = ts ∧ token_sig t = sig.
Proof.
  intros Hp Hs Ht t.
  assert (drop 32 t = be_enc 8 (u64 ts) ++ sig) as E1 by (by apply drop_app_eq).
  split_and!.
  - unfold t. rewrite !length_app, length_be_enc, Hp, Hs. done.
  - by apply take_app_eq.
  - unfold token_ts, SignPubKeySize. rewrite E1, take_app_eq by (by rewrite length_be_enc).
    rewrite be_dec_enc_small by (apply Z.mod_pos_bound; lia). by rewrite i64_u64, i64_id.
  - unfold token_sig, SignPubKeySize. change (32 + 8)%nat with (8 + 32)%nat.
    rewrite Nat.add_comm, <-drop_drop, E1. apply drop_app_eq. by rewrite length_be_enc.
Qed.

Lemma gc_cache_keeps now c sig exp :
  entries c !! sig = Some exp → now ≤ exp → entries (gc_cache now c) !! sig = Some exp.
Proof.
  intros E Hle. unfold gc_cache. destruct (_ <=? _); [|done]. simpl. rewrite map_lookup_filter_Some.
  split; [done|]. lia.
Qed.

Lemma seen_entry sig now c : ∃ exp, entries (seen sig now c).1 !! sig = Some exp ∧ now < exp ∧
  ((seen sig now c).2 = false → exp = now + 2 * tokenSkew).
Proof.
  unfold seen. destruct (entries (gc_cache now c) !! sig) as [exp|] eqn:E.
  - destruct (Z.ltb_spec now exp); simpl; [by exists exp|]. exists (now + 2 * tokenSkew).
    rewrite lookup_insert_eq. split_and!; [done|unfold tokenSkew, Minute, Second; lia|done].
  - simpl. exists (now + 2 * tokenSkew). rewrite lookup_insert_eq.
    split_and!; [done|unfold tokenSkew, Minute, Second; lia|done].
Qed.

(** A live entry survives every presentation before it expires. *)
Lemma present_all_keeps ps c sig exp :
  entries c !! sig = Some exp → Forall (λ p, p.2 < exp) ps →
  entries (present_all ps c) !! sig = Some exp.
Proof.
  intros E HF. revert c E. induction HF as [|[sig' now'] ps Hlt _ IH]; intros c E; [done|].
  cbn [present_all]. apply IH. simpl in Hlt.
  pose proof (gc_cache_keeps now' c sig exp E ltac:(lia)) as E'. unfold seen.
  destruct (decide (sig = sig')) as [->|Hne].
  - rewrite E'. by destruct (Z.ltb_spec now' exp); [|lia].
  - destruct (entries (gc_cache now' c) !! sig') as [e|]; [destruct (now' <? e)|]; simpl; rewrite ?lookup_insert_ne by done; done.
Qed.

(** A token verifies for what it was built for, inside the skew window. *)
Lemma verify_built `{Ed25519} signer o id node ts now :
  in_i64 ts → Z.abs (now - FromUnix ts) ≤ tokenSkew →
  verifyToken (buildToken signer o id node ts) o id node now = Ok (Public signer).
Proof.
  intros Hts Habs. destruct (token_fields (Public signer) ts (Sign signer (tokenPayload o id node ts)))
    as (Hl & Ep & Et & Es); [apply ed_public_length|apply ed_sign_length|done|].
  unfold verifyToken, buildToken. destruct (decide _) as [Hne|_]; [done|].
  rewrite Ep, Et, Es, Sub_exact by (unfold in_i64, tokenSkew, Minute, Second in *; lia). cbv zeta.
  destruct (Z.ltb_spec (now - FromUnix ts) (- tokenSkew)); [lia|].
  destruct (Z.ltb_spec tokenSkew (now - FromUnix ts)); [lia|]. cbn [orb].
  unfold Verify, Public, Sign. by rewrite ed_verify_sign.
Qed.

Lemma length_built `{Ed25519} signer o id node ts : length (buildToken signer o id node ts) = authTokenSize.
Proof. unfold buildToken. rewrite !length_app, length_be_enc, ed_public_length, ed_sign_length. done. Qed.

Lemma seen_absent sig now c : entries c !! sig = None → (seen sig now c).2 = false.
Proof.
  intros E. unfold seen. assert (entries (gc_cache now c) !! sig = None) as ->; [|done].
  unfold gc_cache. destruct (_ <=? _); [|done]. simpl. apply map_lookup_filter_None. by left.
Qed.

Lemma seen_twice sig now c : (seen sig now (seen sig now c).1).2 = true.
Proof.
  destruct (seen_entry sig now c) as (exp & He & Hlt & _). unfold seen at 1.
  rewrite (gc_cache_keeps now _ sig exp He ltac:(lia)). by destruct (Z.ltb_spec now exp); [|lia].
Qed.

(** The limits the server enforces on the parts of a PUT. *)
Definition put_fits (p : PutFrame) : Prop :=
  Z.of_nat (length (pf_data p)) ≤ MaxShardSize ∧ Z.of_nat (length (pf_token p)) ≤ Z.of_nat authTokenSize ∧
  Z.of_nat (length (pf_stripe p)) ≤ maxStripeBlob ∧ Z.of_nat (length (pf_grant p)) ≤ Z.of_nat GrantSize.

Lemma put_frame_read p rest :
  put_fits p →
  ∃ body, putRaw_frame p = Ok (op_byte opPut :: body) ∧ read_put (body ++ rest) = Ok (p, rest).
Proof.
  intros (Hd & Ht & Hst & Hg). pose proof writeBlob_total as Hw.
  destruct (Hw (pf_data p)) as [wd Ed]; [done|].
  destruct (Hw (pf_token p)) as [wt Et]; [unfold authTokenSize, SignPubKeySize, SignatureSize, MaxShardSize in *; lia|].
  destruct (Hw (pf_stripe p)) as [ws Es]; [unfold maxStripeBlob, MaxShardSize in *; lia|].
  destruct (Hw (pf_grant p)) as [wg Eg]; [unfold GrantSize, SignPubKeySize, SignatureSize, MaxShardSize in *; lia|].
  unfold putRaw_frame. rewrite Ed, Et, Es, Eg. cbn [mbind result_bind writeByte app].
  eexists. split; [done|]. unfold read_put. rewrite <-!app_assoc.
  rewrite (blob_roundtrip _ _ wd) by done. cbn [mbind result_bind].
  rewrite (blob_roundtrip _ _ wt) by done. cbn [mbind result_bind].
  rewrite (blob_roundtrip _ _ ws) by done. cbn [mbind result_bind].
  rewrite (blob_roundtrip _ _ wg) by done. cbn [mbind result_bind readByte app]. by destruct p.
Qed.

(** A token blob is written and read back after a fixed-size field. *)
Lemma token_blob_read token rest :
  Z.of_nat (length token) ≤ Z.of_nat authTokenSize →
  ∃ t, writeBlob token = Ok t ∧ readBlob (Z.of_nat authTokenSize) (t ++ rest) = Ok (token, rest).
Proof.
  intros Hl. destruct (writeBlob_total token) as [t Et].
  { unfold authTokenSize, SignPubKeySize, SignatureSize, MaxShardSize in *. lia. }
  exists t. split; [done|]. by apply blob_roundtrip.
Qed.

Lemma signed_read id token rest :
  is_id id → Z.of_nat (length token) ≤ Z.of_nat authTokenSize →
  ∃ t, writeBlob token = Ok t ∧ read_signed (id ++ t ++ rest) = Ok (id, token, rest).
Proof.
  intros Hid Hl. destruct (token_blob_read token rest Hl) as (t & Et & Er). exists t. split; [done|].
  unfold read_signed, readID. rewrite readFull_app by done. cbn [mbind result_bind]. by rewrite Er.
Qed.

(** ** Properties *)

(** The PUT frame is read back exactly: the bytes a client writes for a
    request within the limits are parsed by the server into the same data, token,
    descriptor, grant and reason, leaving what follows on the stream; and
    whatever bytes a peer sends, a frame the server accepts respects the limits,
    so a declared length never makes it allocate more. *)
Theorem put_frame_roundtrip (p : PutFrame) (rest : bytes) :
  put_fits p →
  (∃ body, putRaw_frame p = Ok (op_byte opPut :: body) ∧ read_put (body ++ rest) = Ok (p, rest)) ∧
  (∀ s q tail, read_put s = Ok (q, tail) → put_fits q).
Proof.
  intros Hfits. split.
  - by apply put_frame_read.
  - intros s q tail H. unfold read_put in H.
    apply bind_Ok in H as ([d s1] & H1%readBlob_bound & H). apply bind_Ok in H as ([t s2] & H2%readBlob_bound & H).
    apply bind_Ok in H as ([st s3] & H3%readBlob_bound & H). apply bind_Ok in H as ([g s4] & H4%readBlob_bound & H).
    apply bind_Ok in H as ([r s5] & _ & H). apply (inj Ok), pair_eq in H as [<- _]. done.
Qed.

Lemma put_frame_roundtrip_witness :
  let p := mkPut [Byte.x61; Byte.x62] [] [Byte.x01] [] ReasonRepair in
  ∃ body, putRaw_frame p = Ok (op_byte opPut :: body) ∧ read_put (body ++ [Byte.x09]) = Ok (p, [Byte.x09]).
Proof.
  cbn zeta. refine (proj1 (put_frame_roundtrip (mkPut [Byte.x61; Byte.x62] [] [Byte.x01] [] ReasonRepair)
    [Byte.x09] _)). repeat split; vm_compute; discriminate.
Defined.

(** Write tokens: a token built for an operation, shard and node verifies
    there exactly when the node's clock is within five minutes of its timestamp,
    and yields the signer's public key; every token a node accepts carries a
    signature over that very operation, shard, node and its timestamp, and a
    signed payload determines all four, so no token is good for another
    operation, shard or node. *)
Theorem token_correct `{Ed25519} (signer node : bytes) (o : op) (id : ShardID) (ts now : Z) :
  is_id id → in_i64 ts → in_i64 (now - FromUnix ts) →
  verifyToken (buildToken signer o id node ts) o id node now =
    (if (- tokenSkew <=? now - FromUnix ts) && (now - FromUnix ts <=? tokenSkew)
     then Ok (Public signer) else Err AUnauthorized) ∧
  (∀ token o' id' node' owner, is_id id' → verifyToken token o' id' node' now = Ok owner →
     Verify owner (tokenPayload o' id' node' (token_ts token)) (token_sig token) = true ∧
     Z.abs (Sub now (FromUnix (token_ts token))) ≤ tokenSkew ∧
     (tokenPayload o' id' node' (token_ts token) = tokenPayload o id node ts →
        o' = o ∧ id' = id ∧ node' = node ∧ token_ts token = ts)).
Proof.
  intros Hid Hts Hnow. split.
  - destruct (token_fields (Public signer) ts (Sign signer (tokenPayload o id node ts)))
      as (Hl & Ep & Et & Es); [apply ed_public_length|apply ed_sign_length|done|].
    unfold verifyToken. unfold buildToken. destruct (decide _) as [Hne|_]; [done|].
    rewrite Ep, Et, Es, Sub_exact by done. cbv zeta.
    destruct (Z.ltb_spec (now - FromUnix ts) (- tokenSkew)), (Z.leb_spec (- tokenSkew) (now - FromUnix ts)); try lia;
    destruct (Z.ltb_spec tokenSkew (now - FromUnix ts)), (Z.leb_spec (now - FromUnix ts) tokenSkew); try lia;
    cbn [orb andb]; try done. unfold Verify, Public, Sign. by rewrite ed_verify_sign.
  - intros token o' id' node' owner Hid' Hv. unfold verifyToken in Hv. destruct (decide _); [done|]. cbv zeta in Hv.
    destruct (Z.ltb_spec (Sub now (FromUnix (token_ts token))) (- tokenSkew)); [done|].
    destruct (Z.ltb_spec tokenSkew (Sub now (FromUnix (token_ts token)))); [done|]. cbn [orb] in Hv.
    destruct (Verify (token_pub token) _ _) eqn:Ev; [|done]. cbn [negb] in Hv. apply (inj Ok) in Hv as <-.
    split_and!; [done|lia|]. intros E. apply tokenPayload_inj in E; try done. apply i64_range.
Qed.

Lemma token_correct_witness :
  let id := replicate 32 Byte.x07 in
  @verifyToken toy_ed (@buildToken toy_ed [Byte.x09] opDelete id [Byte.x01] 1000) opDelete id [Byte.x01] (1300 * Second)
    = Ok (@Public toy_ed [Byte.x09]).
Proof.
  cbn zeta.
  rewrite (proj1 (@token_correct toy_ed [Byte.x09] [Byte.x01] opDelete (replicate 32 Byte.x07) 1000 (1300 * Second)
    eq_refl ltac:(unfold in_i64; lia) ltac:(unfold in_i64, FromUnix, Second; lia))).
  reflexivity.
Defined.

(** [C30] Replays are rejected: once a token's signature was presented at [now0]
    and taken as new, every later presentation of it less than ten minutes later
    is recognised as a replay, whatever other tokens were presented in between
    and however often the cache was cleaned. *)
Theorem replay_rejected (sig : bytes) (now0 now1 : Z) (ps : list (bytes * Z)) (c : authCache) :
  (seen sig now0 c).2 = false → Forall (λ p, p.2 ≤ now1) ps → now0 ≤ now1 < now0 + 2 * tokenSkew →
  (seen sig now1 (present_all ps (seen sig now0 c).1)).2 = true.
Proof.
  intros Hnew HF Hle. destruct (seen_entry sig now0 c) as (exp & He & _ & Hexp). specialize (Hexp Hnew).
  assert (entries (present_all ps (seen sig now0 c).1) !! sig = Some exp) as Hk.
  { apply present_all_keeps; [done|]. eapply Forall_impl; [exact HF|]. simpl. lia. }
  pose proof (gc_cache_keeps now1 _ sig exp Hk ltac:(lia)) as Hg.
  unfold seen at 1. rewrite Hg. by destruct (Z.ltb_spec now1 exp); [|lia].
Qed.

(** A replay nine minutes later, with cleanings in between. *)
Lemma replay_rejected_witness :
  (seen [Byte.x01] (9 * Minute) (present_all [([Byte.x02], 2 * Minute); ([Byte.x03], 8 * Minute)]
     (seen [Byte.x01] 0 newAuthCache).1)).2 = true.
Proof.
  apply (replay_rejected [Byte.x01] 0 (9 * Minute) [([Byte.x02], 2 * Minute); ([Byte.x03], 8 * Minute)] newAuthCache).
  - vm_compute. reflexivity.
  - repeat constructor; vm_compute; discriminate.
  - vm_compute. split; [discriminate|reflexivity].
Defined.

(** The replay window is closed one instant too early: a token presented
    exactly five minutes before its timestamp and again exactly five minutes
    after it verifies both times, and both times the cache takes it as new, from
    any cache state that does not hold it. *)
Theorem replay_window_edge `{Ed25519} (signer node : bytes) (o : op) (id : ShardID) (ts : Z) (c : authCache) :
  in_i64 ts →
  let token := buildToken signer o id node ts in
  let now0 := FromUnix ts - tokenSkew in
  let now1 := FromUnix ts + tokenSkew in
  entries c !! token_sig token = None →
  verifyToken token o id node now0 = Ok (Public signer) ∧
  (seen (token_sig token) now0 c).2 = false ∧
  verifyToken token o id node now1 = Ok (Public signer) ∧
  (seen (token_sig token) now1 (seen (token_sig token) now0 c).1).2 = false.
Proof.
  intros Hts token now0 now1 Hnone.
  assert ((seen (token_sig token) now0 c).2 = false) as Hnew by (by apply seen_absent).
  split; [apply verify_built; [done|]; unfold now0, tokenSkew, Minute, Second; lia|]. split; [done|].
  split; [apply verify_built; [done|]; unfold now1, tokenSkew, Minute, Second; lia|].
  destruct (seen_entry (token_sig token) now0 c) as (exp & He & _ & Hexp). specialize (Hexp Hnew).
  unfold seen at 1.
  destruct (entries (gc_cache now1 (seen (token_sig token) now0 c).1) !! token_sig token) as [e|] eqn:Ee; [|done].
  assert (e = exp) as ->.
  { unfold gc_cache in Ee. destruct (_ <=? _); [|congruence]. simpl in Ee.
    apply map_lookup_filter_Some in Ee as [Ee _]. congruence. }
  destruct (Z.ltb_spec now1 exp); [unfold now0, now1 in *; lia|done].
Qed.

Lemma replay_window_edge_witness :
  let token := @buildToken toy_ed [Byte.x09] opPut (replicate 32 Byte.x07) [Byte.x01] 1000 in
  (seen (token_sig token) (1300 * Second) (seen (token_sig token) (700 * Second) newAuthCache).1).2 = false.
Proof.
  cbn zeta.
  destruct (@replay_window_edge toy_ed [Byte.x09] [Byte.x01] opPut (replicate 32 Byte.x07) 1000 newAuthCache)
    as (_ & _ & _ & H).
  - unfold in_i64. lia.
  - reflexivity.
  - exact H.
Defined.
