(* ===== verification/RateLimit.v ===== *)
(** * internal/net: token-bucket limiters (ratelimit.go, subnetlimit.go)

    Both limiters run the same bucket algorithm, on owner keys and on masked
    source addresses. Token counts are float64 as in the source. A nil limiter
    is [None]. *)

From S2P Require Import Prelude GoLib.

(** [Duration.Seconds]: whole seconds plus the rest over 1e9. *)
Definition Seconds (d : Z) : F64.t :=
  F64.add (F64.of_Z (Z.quot d Second)) (F64.div (F64.of_Z (Z.rem d Second)) (F64.of_Z 1000000000)).

Record bucket := mkBucket { tokens : F64.t; last : Z }.

Record limiter := mkLimiter { rate : F64.t; burst : F64.t; buckets : gmap bytes bucket; lastPrune : Z }.

(** The zero [time.Time] of a fresh limiter's [lastPrune]. *)
Definition zeroTime : Z := -62135596800 * Second.
Definition bucketIdle : Z := 10 * Minute.

Definition new_limiter (rate burst : F64.t) : option limiter :=
  if F64.leb rate (F64.of_Z 0) then None
  else
    let burst := if F64.ltb burst (F64.of_Z 1) then F64.of_Z 1 else burst in
    Some (mkLimiter rate burst ∅ zeroTime).

Definition full_by (l : limiter) (now : Z) (b : bucket) : bool :=
  F64.leb (burst l) (F64.add (tokens b) (F64.mul (Seconds (Sub now (last b))) (rate l))).

Definition pruneLocked (now : Z) (l : limiter) : limiter :=
  if Sub now (lastPrune l) <? bucketIdle then l
  else
    mkLimiter (rate l) (burst l)
      (filter (λ '(_, b), ¬ (bucketIdle ≤ Sub now (last b) ∧ full_by l now b = true)) (buckets l)) now.

(** The lazy refill of a bucket. *)
Definition refill (l : limiter) (now : Z) (b : bucket) : bucket :=
  let elapsed := Seconds (Sub now (last b)) in
  if F64.ltb (F64.of_Z 0) elapsed then
    let t := F64.add (tokens b) (F64.mul elapsed (rate l)) in
    mkBucket (if F64.ltb (burst l) t then burst l else t) now
  else b.

Definition with_bucket (key : bytes) (b : bucket) (l : limiter) : limiter :=
  mkLimiter (rate l) (burst l) (<[key := b]> (buckets l)) (lastPrune l).

Definition allow_key (key : bytes) (now : Z) (l : limiter) : limiter * bool :=
  let l := pruneLocked now l in
  match buckets l !! key with
  | None => (with_bucket key (mkBucket (F64.sub (burst l) (F64.of_Z 1)) now) l, true)
  | Some b =>
      let b := refill l now b in
      if F64.leb (F64.of_Z 1) (tokens b)
      then (with_bucket key (mkBucket (F64.sub (tokens b) (F64.of_Z 1)) (last b)) l, true)
      else (with_bucket key b l, false)
  end.

(** ** ratelimit.go *)

Definition NewOwnerRateLimiter : F64.t → F64.t → option limiter := new_limiter.

Definition owner_allow (owner : bytes) (now : Z) (l : option limiter) : option limiter * bool :=
  match l, owner with
  | None, _ => (l, true)
  | _, [] => (l, true)
  | Some l, _ => let '(l, ok) := allow_key owner now l in (Some l, ok)
  end.

(** ** subnetlimit.go *)

Record subnet_limiter := mkSubnet { sn_lim : limiter; mask4 : bytes; mask6 : bytes }.

(** [net.CIDRMask] *)
Definition mask_byte (ones : Z) : byte :=
  if 8 <=? ones then Byte.xff else if ones <=? 0 then Byte.x00 else Z2b (256 - 2 ^ (8 - ones)).
Fixpoint CIDRMask (n : nat) (ones : Z) : bytes :=
  match n with O => [] | S n => mask_byte ones :: CIDRMask n (ones - 8) end.

Definition NewSubnetRateLimiter (rate burst : F64.t) (prefix4 prefix6 : Z) : option subnet_limiter :=
  match new_limiter rate burst with
  | None => None
  | Some l =>
      let prefix4 := if (prefix4 <=? 0) || (32 <? prefix4) then 24 else prefix4 in
      let prefix6 := if (prefix6 <=? 0) || (128 <? prefix6) then 56 else prefix6 in
      Some (mkSubnet l (CIDRMask 4 prefix4) (CIDRMask 16 prefix6))
  end.

Definition and8 (a b : byte) : byte := Z2b (Z.land (b2Z a) (b2Z b)).

(** [net.IP.To4]: a 4-byte address or a v4-mapped 16-byte one. *)
Definition To4 (ip : bytes) : option bytes :=
  if decide (length ip = 4%nat) then Some ip
  else if decide (length ip = 16%nat ∧ take 12 ip = replicate 10 Byte.x00 ++ [Byte.xff; Byte.xff])
  then Some (drop 12 ip) else None.

(** The bucket key of an address whose IP ([manet.ToIP]) is [ip], when it has one. *)
Definition subnet_key (l : subnet_limiter) (ip : option bytes) : option bytes :=
  match ip with
  | None => None
  | Some ip =>
      match To4 ip with
      | Some v4 => Some (zip_with and8 v4 (mask4 l))
      | None => if decide (length ip = 16%nat) then Some (zip_with and8 ip (mask6 l)) else None
      end
  end.

Definition subnet_allow (ip : option bytes) (now : Z) (l : option subnet_limiter)
    : option subnet_limiter * bool :=
  match l with
  | None => (l, true)
  | Some l =>
      match subnet_key l ip with
      | None => (Some l, true)
      | Some key =>
          let '(lim, ok) := allow_key key now (sn_lim l) in (Some (mkSubnet lim (mask4 l) (mask6 l)), ok)
      end
  end.

(** ** Lemmas *)

Lemma Sub_self now : Sub now now = 0.
Proof. unfold Sub. lia. Qed.

Lemma prune_idem now l : pruneLocked now (pruneLocked now l) = pruneLocked now l.
Proof.
  unfold pruneLocked at 2 3. destruct (Z.ltb_spec (Sub now (lastPrune l)) bucketIdle) as [Hlt|Hge].
  - unfold pruneLocked. by destruct (Z.ltb_spec (Sub now (lastPrune l)) bucketIdle); [|lia].
  - unfold pruneLocked. cbn [lastPrune]. rewrite Sub_self. done.
Qed.

Lemma allow_key_prune key now l : allow_key key now (pruneLocked now l) = allow_key key now l.
Proof. unfold allow_key. by rewrite prune_idem. Qed.

(** After a request the limiter does not prune again at the same instant. *)
Lemma allow_key_other key key' now l b :
  key ≠ key' →
  let l' := (allow_key key now l).1 in
  pruneLocked now l' = l' ∧ rate l' = rate (pruneLocked now l) ∧ burst l' = burst (pruneLocked now l) ∧
  (buckets l' !! key' = b ↔ buckets (pruneLocked now l) !! key' = b).
Proof.
  intros Hne. cbn zeta. set (p := pruneLocked now l).
  assert (∀ x, pruneLocked now (with_bucket key x p) = with_bucket key x p ∧
    buckets (with_bucket key x p) !! key' = buckets p !! key') as Hw.
  { intros x. split; [|simpl; by rewrite lookup_insert_ne].
    pose proof (prune_idem now l) as Hi. fold p in Hi. unfold pruneLocked in Hi |- *. cbn [with_bucket lastPrune].
    destruct (Z.ltb_spec (Sub now (lastPrune p)) bucketIdle); [done|].
    exfalso. apply (f_equal lastPrune) in Hi. simpl in Hi. rewrite <-Hi, Sub_self in *. unfold bucketIdle, Minute, Second in *. lia. }
  unfold allow_key. fold p.
  destruct (buckets p !! key) as [b0|]; [destruct (F64.leb _ _)|]; cbn [fst];
    (match goal with |- context [with_bucket key ?x p] => destruct (Hw x) as [H1 H2] end);
    rewrite H1, H2; done.
Qed.

(** ** Properties *)

(** Rate limiting is per identity: a request of one owner (or subnet) never
    changes what the limiter answers another one at the same instant, and leaves
    the other's bucket as it is; a key without a bucket is always let in. *)
Theorem limiter_isolated (key key' : bytes) (now : Z) (l : limiter) :
  key ≠ key' →
  (allow_key key' now (allow_key key now l).1).2 = (allow_key key' now l).2 ∧
  buckets (allow_key key now l).1 !! key' = buckets (pruneLocked now l) !! key' ∧
  (buckets (pruneLocked now l) !! key' = None → (allow_key key' now l).2 = true).
Proof.
  intros Hne. destruct (allow_key_other key key' now l (buckets (pruneLocked now l) !! key') Hne)
    as (Hp & Hr & Hb & Hl). revert Hp Hr Hb Hl. generalize (allow_key key now l).1. intros l' Hp Hr Hb Hl.
  split_and!.
  - unfold allow_key. rewrite Hp, (proj2 Hl eq_refl).
    destruct (buckets (pruneLocked now l) !! key') as [b|]; [|done].
    assert (refill l' now b = refill (pruneLocked now l) now b) as -> by (unfold refill; by rewrite Hr, Hb).
    by destruct (F64.leb _ _).
  - by apply Hl.
  - intros Hnone. unfold allow_key. by rewrite Hnone.
Qed.

(** One request per second, burst 1. *)
Definition ex_limiter : limiter := mkLimiter (F64.of_Z 1) (F64.of_Z 1) ∅ zeroTime.

Example ex_limiter_new : new_limiter (F64.of_Z 1) (F64.of_Z 1) = Some ex_limiter.
Proof. reflexivity. Qed.

(** The first request of "a" passes, the second does not, "b" passes. *)
Lemma limiter_isolated_witness :
  let l1 := (allow_key [Byte.x61] (100 * Second) ex_limiter).1 in
  (allow_key [Byte.x61] (100 * Second) l1).2 = false ∧ (allow_key [Byte.x62] (100 * Second) l1).2 = true.
Proof.
  cbn zeta. split; [vm_compute; reflexivity|].
  rewrite (proj1 (limiter_isolated [Byte.x61] [Byte.x62] (100 * Second) ex_limiter ltac:(discriminate))).
  vm_compute. reflexivity.
Defined.
