(* ===== verification/Server.v ===== *)
(** * internal/net/server.go: the storage node's request handlers

    One handler call serves one request: the bytes the peer sent after the
    stream was opened, at clock [now], from peer [remote] with source address
    [ip], to the node [self]. It returns the next server state and what the
    peer sees: a reset stream or the reply bytes. Handlers are atomic here;
    their interleavings are the subject of [Races]. The text of an error
    message, which can hold operating-system text, is the parameter [err_msg]. *)

From S2P Require Import Prelude GoLib Store Crypto Stripe Ledger RateLimit Wire.

Inductive net_err :=
| NStore (e : store_err)
| NLedger (e : ledger_err)
| NUnauthorized
| NQuotaExceeded
| NRateLimited
| NUnknownOp (b : byte).

Definition errToStatus (e : net_err) : status :=
  match e with
  | NStore ErrNotFound => statusNotFound
  | NStore ErrCorrupt => statusCorrupt
  | NLedger ErrUnauthorized | NUnauthorized => statusUnauthorized
  | NLedger ErrQuotaExceeded | NQuotaExceeded => statusQuotaExceeded
  | NRateLimited => statusRateLimited
  | _ => statusError
  end.

Inductive reply := Reset | Reply (b : bytes).
#[export] Instance reply_eq_dec : EqDecision reply.
Proof. solve_decision. Defined.

Record Server (S : Type) := mkServer {
  sv_store : S;
  sv_ledger : option Ledger;
  sv_cache : authCache;
  sv_limiter : option limiter;
  sv_subnet : option subnet_limiter;
  sv_moves : list (bytes * Z);      (* RecordRebalanceMove calls *)
  sv_announced : list ShardID;      (* Announce calls *)
}.
Arguments mkServer {S} _ _ _ _ _ _ _.
Arguments sv_store {S} _. Arguments sv_ledger {S} _. Arguments sv_cache {S} _.
Arguments sv_limiter {S} _. Arguments sv_subnet {S} _. Arguments sv_moves {S} _.
Arguments sv_announced {S} _.

(** What is fixed before Register: ledger options, proof-of-work policy, whether
    an abuse monitor and an announcer are set, and whether the PUT semaphore has
    a free slot for this request. *)
Record policy := mkPolicy {
  po_opts : Options; po_puzzle : Argon2idPuzzle; po_powMin : Z;
  po_abuse : bool; po_announcer : bool; po_slot : bool }.

(** The context of one request. *)
Record conn := mkConn { cn_self : bytes; cn_remote : bytes; cn_ip : option bytes; cn_now : Z }.

Section server.
Context `{Hsha : Sha256} `{Hed : Ed25519} `{Har : Argon2} {S : Type} `{Hst : !Store S}.
Context (err_msg : net_err → bytes) (po : policy).
Implicit Types (srv : Server S).

Definition set_store (s : S) srv : Server S :=
  mkServer s (sv_ledger srv) (sv_cache srv) (sv_limiter srv) (sv_subnet srv) (sv_moves srv) (sv_announced srv).
Definition set_ledger (l : option Ledger) srv : Server S :=
  mkServer (sv_store srv) l (sv_cache srv) (sv_limiter srv) (sv_subnet srv) (sv_moves srv) (sv_announced srv).
Definition set_cache (c : authCache) srv : Server S :=
  mkServer (sv_store srv) (sv_ledger srv) c (sv_limiter srv) (sv_subnet srv) (sv_moves srv) (sv_announced srv).
Definition set_limiter (l : option limiter) srv : Server S :=
  mkServer (sv_store srv) (sv_ledger srv) (sv_cache srv) l (sv_subnet srv) (sv_moves srv) (sv_announced srv).
Definition set_subnet (l : option subnet_limiter) srv : Server S :=
  mkServer (sv_store srv) (sv_ledger srv) (sv_cache srv) (sv_limiter srv) l (sv_moves srv) (sv_announced srv).
Definition add_move (p : bytes) (now : Z) srv : Server S :=
  mkServer (sv_store srv) (sv_ledger srv) (sv_cache srv) (sv_limiter srv) (sv_subnet srv)
    (sv_moves srv ++ [(p, now)]) (sv_announced srv).

Definition announce (id : ShardID) srv : Server S :=
  if po_announcer po then
    mkServer (sv_store srv) (sv_ledger srv) (sv_cache srv) (sv_limiter srv) (sv_subnet srv)
      (sv_moves srv) (sv_announced srv ++ [id])
  else srv.

Definition blob_bytes (b : bytes) : bytes := match writeBlob b with Ok w => w | Err _ => [] end.

Definition replyErr (e : net_err) : reply :=
  let st := errToStatus e in
  Reply (writeByte (status_byte st) ++ (if decide (st = statusError) then blob_bytes (err_msg e) else [])).

Definition replyOK (b : bytes) : reply := Reply (writeByte (status_byte statusOK) ++ b).

Definition enforcePoW (owner : bytes) : bool :=
  if po_powMin po =? 0 then true else MeetsPoW (po_puzzle po) owner (po_powMin po).

(** The checks shared by every token-bearing request: signature and window,
    then the replay cache. *)
Definition check_token (c : conn) (o : op) (id : ShardID) (token : bytes) srv
    : Server S * result net_err bytes :=
  match verifyToken token o id (cn_self c) (cn_now c) with
  | Err _ => (srv, Err NUnauthorized)
  | Ok owner =>
      let '(cache, replay) := seen (token_sig token) (cn_now c) (sv_cache srv) in
      (set_cache cache srv, if replay then Err NUnauthorized else Ok owner)
  end.

(** The write-rate cap of an owner. *)
Definition check_rate (c : conn) (owner : bytes) srv : Server S * bool :=
  let '(l, ok) := owner_allow owner (cn_now c) (sv_limiter srv) in (set_limiter l srv, ok).

(** The descriptor and its owner, when the grant signs it and it names [id]. *)
Definition put_grant (c : conn) (p : PutFrame) (id : ShardID) : option (Descriptor * bytes) :=
  match pf_stripe p, pf_grant p with
  | [], _ | _, [] => None
  | _, _ =>
      match UnmarshalDescriptor (pf_stripe p) with
      | Err _ => None
      | Ok d =>
          match VerifyGrant (pf_grant p) d (cn_now c) with
          | Err _ => None
          | Ok o => if Contains d id then Some (d, o) else None
          end
      end
  end.

(** A grant that verified but whose nonce was revoked. *)
Definition grant_revoked (p : PutFrame) (g : option (Descriptor * bytes)) srv : bool :=
  match g, GrantNonce (pf_grant p), sv_ledger srv with
  | Some _, Ok nonce, Some l => IsGrantRevoked nonce l
  | _, _, _ => false
  end.

(** The owner a PUT is attributed to, on a node with a ledger. *)
Definition authorize_put (c : conn) (p : PutFrame) (id : ShardID) (g : option (Descriptor * bytes)) srv
    : Server S * result net_err bytes :=
  match pf_token p with
  | [] =>
      match g with
      | Some (_, o) => (srv, Ok o)
      | None => (srv, Err NUnauthorized)
      end
  | _ =>
      let '(srv, r) := check_token c opPut id (pf_token p) srv in
      match r with
      | Err e => (srv, Err e)
      | Ok owner =>
          if negb (enforcePoW owner) then (srv, Err NUnauthorized)
          else
            let '(srv, ok) := check_rate c owner srv in
            (srv, if ok then Ok owner else Err NRateLimited)
      end
  end.

Definition record_move (c : conn) (p : PutFrame) (g : option (Descriptor * bytes)) srv : Server S :=
  if po_abuse po && bool_decide (pf_reason p = ReasonRebalance) && bool_decide (pf_token p = [])
     && bool_decide (is_Some g)
  then add_move (cn_remote c) (cn_now c) srv else srv.

(** Storing the bytes, then recording ownership and stripe. *)
Definition commit_put (c : conn) (p : PutFrame) (id : ShardID) (owner : option bytes)
    (g : option (Descriptor * bytes)) srv : Server S * reply :=
  let '(s, r) := Put (pf_data p) (sv_store srv) in
  let srv := set_store s srv in
  match r with
  | Err e => (srv, replyErr (NStore e))
  | Ok _ =>
      match owner, sv_ledger srv with
      | Some owner, Some l =>
          let '(l, r) := AddOwner (po_opts po) id owner (Z.of_nat (length (pf_data p))) (cn_now c) l in
          let srv := set_ledger (Some l) srv in
          match r with
          | Err e => (srv, replyErr (NLedger e))
          | Ok false => (srv, replyOK (writeID id))
          | Ok true =>
              let l := match g with
                       | Some (d, _) => (PutStripe id (d_K d) (d_M d) (d_Shards d) (pf_grant p) l).1
                       | None => l
                       end in
              (announce id (set_ledger (Some l) srv), replyOK (writeID id))
          end
      | _, _ => (announce id srv, replyOK (writeID id))
      end
  end.

Definition handlePut (c : conn) (input : bytes) srv : Server S * reply :=
  if negb (po_slot po) then (srv, replyErr NRateLimited)
  else
    match read_put input with
    | Err _ => (srv, Reset)
    | Ok (p, _) =>
        let id := HashOf (pf_data p) in
        let g := put_grant c p id in
        if grant_revoked p g srv then (srv, replyErr NUnauthorized)
        else
          match sv_ledger srv with
          | None => commit_put c p id None g srv
          | Some _ =>
              let '(srv, r) := authorize_put c p id g srv in
              match r with
              | Err e => (srv, replyErr e)
              | Ok owner => commit_put c p id (Some owner) g (record_move c p g srv)
              end
          end
    end.

Definition handleGet (input : bytes) srv : Server S * reply :=
  match readID input with
  | Err _ => (srv, Reset)
  | Ok (id, _) =>
      match Get id (sv_store srv) with
      | Err e => (srv, replyErr (NStore e))
      | Ok data => (srv, replyOK (blob_bytes data))
      end
  end.

Definition handleHas (input : bytes) srv : Server S * reply :=
  match readID input with
  | Err _ => (srv, Reset)
  | Ok (id, _) =>
      match Has id (sv_store srv) with
      | Err e => (srv, replyErr (NStore e))
      | Ok ok => (srv, replyOK (writeByte (if ok then Byte.x01 else Byte.x00)))
      end
  end.

Definition handleDelete (c : conn) (input : bytes) srv : Server S * reply :=
  match read_signed input with
  | Err _ => (srv, Reset)
  | Ok (id, token, _) =>
      match sv_ledger srv with
      | None =>
          let '(s, r) := Delete id (sv_store srv) in
          (set_store s srv, match r with Err e => replyErr (NStore e) | Ok _ => replyOK [] end)
      | Some _ =>
          let '(srv, r) := check_token c opDelete id token srv in
          match r with
          | Err e => (srv, replyErr e)
          | Ok owner =>
              let '(srv, ok) := check_rate c owner srv in
              if negb ok then (srv, replyErr NRateLimited)
              else
                match sv_ledger srv with
                | None => (srv, Reset) (* not reached: the ledger is fixed *)
                | Some l =>
                    let '(l, r) := RemoveOwner id owner l in
                    let srv := set_ledger (Some l) srv in
                    match r with
                    | Err e => (srv, replyErr (NLedger e))
                    | Ok remaining =>
                        if remaining =? 0 then
                          let '(s, r) := Delete id (sv_store srv) in
                          let srv := set_store s srv in
                          match r with
                          | Err e =>
                              if decide (e = ErrNotFound)
                              then (set_ledger (Some (DropRecord id l)) srv, replyOK [])
                              else (srv, replyErr (NStore e))
                          | Ok _ => (set_ledger (Some (DropRecord id l)) srv, replyOK [])
                          end
                        else (srv, replyOK [])
                    end
                end
          end
      end
  end.

Definition handleRenew (c : conn) (input : bytes) srv : Server S * reply :=
  match read_signed input with
  | Err _ => (srv, Reset)
  | Ok (id, token, _) =>
      let '(srv, r) := check_token c opRenew id token srv in
      match r with
      | Err e => (srv, replyErr e)
      | Ok owner =>
          match sv_ledger srv with
          | None => (srv, replyOK [])
          | Some l =>
              let '(l, r) := RenewLease (po_opts po) id owner (cn_now c) l in
              (set_ledger (Some l) srv,
               match r with Err e => replyErr (NLedger e) | Ok _ => replyOK [] end)
          end
      end
  end.

(** [store.ShardID{}] *)
Definition zeroID : ShardID := replicate 32 Byte.x00.

Definition handleRevokeGrant (c : conn) (input : bytes) srv : Server S * reply :=
  match ('(nonce, s) ← readFull 8 input; '(t, s) ← readBlob (Z.of_nat authTokenSize) s; Ok (nonce, t)) with
  | Err _ => (srv, Reset)
  | Ok (nonce, token) =>
      let '(srv, r) := check_token c opRevokeGrant zeroID token srv in
      match r with
      | Err e => (srv, replyErr e)
      | Ok owner =>
          match sv_ledger srv with
          | None => (srv, replyOK [])
          | Some l => (set_ledger (Some (RevokeGrant nonce owner (cn_now c) l)) srv, replyOK [])
          end
      end
  end.

(** The op switch of [handleShard], after the subnet cap. *)
Definition dispatch (c : conn) (input : bytes) srv : Server S * reply :=
  match readByte input with
  | Err _ => (srv, Reset)
  | Ok (b, rest) =>
      match op_of_byte b with
      | Some opPut => handlePut c rest srv
      | Some opGet => handleGet rest srv
      | Some opHas => handleHas rest srv
      | Some opDelete => handleDelete c rest srv
      | Some opRenew => handleRenew c rest srv
      | Some opRevokeGrant => handleRevokeGrant c rest srv
      | None => (srv, replyErr (NUnknownOp b))
      end
  end.

Definition handleShard (c : conn) (input : bytes) srv : Server S * reply :=
  let '(l, ok) := subnet_allow (cn_ip c) (cn_now c) (sv_subnet srv) in
  let srv := set_subnet l srv in
  if negb ok then (srv, Reset) else dispatch c input srv.

Definition handleProbe (c : conn) (input : bytes) srv : Server S * reply :=
  let '(l, ok) := subnet_allow (cn_ip c) (cn_now c) (sv_subnet srv) in
  let srv := set_subnet l srv in
  if negb ok then (srv, Reset)
  else
    match ('(id, s) ← readID input; '(nonce, s) ← readNonce s; Ok (id, nonce)) with
    | Err _ => (srv, Reset)
    | Ok (id, nonce) =>
        match Get id (sv_store srv) with
        | Err e => (srv, replyErr (NStore e))
        | Ok data => (srv, replyOK (Sum256 (nonce ++ data)))
        end
    end.
End server.
