(* ===== verification/Node.v ===== *)
(** * The storage node: garbage collection (cmd/revika-node/main.go) and the
      durability invariant of server, store and ledger together

    [runGC] is one cycle of the collector. [node_step] is the step relation of a
    node that serves requests and collects, one at a time; [node_ok] is the
    invariant that no recorded shard is missing from the store. The theorems
    about [handleShard] follow from the per-handler lemmas. *)

From S2P Require Import Prelude GoLib Store Crypto Stripe Ledger RateLimit Wire Server.

(** The optional listing of a store: the IDs [Reconcile] reads. *)
Class Lister (S : Type) := { List : S → result store_err (list ShardID) }.
Class ListerLaws `{Sha256} (S : Type) `{!Store S, !Lister S} (ok : S → Prop) := {
  list_exact : ∀ s, ok s → ∃ ids, List s = Ok ids ∧ ∀ id, id ∈ ids ↔ is_ok (Get id s) = true;
}.

#[export] Instance mem_lister : Lister Mem.MemStore := { List := Mem.list_ids }.
#[export] Instance mem_lister_laws `{Sha256} : ListerLaws Mem.MemStore Mem.wf.
Proof.
  split. intros m _. exists (map_to_list (Mem.blobs m)).*1. split; [done|]. intros id. simpl. unfold Mem.get.
  rewrite list_elem_of_fmap. split.
  - intros ([id' d] & -> & Hin%elem_of_map_to_list). simpl. by rewrite Hin.
  - destruct (Mem.blobs m !! id) as [d|] eqn:E; [|done]. intros _. exists (id, d). split; [done|].
    by apply elem_of_map_to_list.
Qed.

Section gc.
Context `{Hsha : Sha256} {S : Type} `{Hst : !Store S} `{Hls : !Lister S}.

(** The loop over the collectible shards: a shard is dropped only if it was
    already collectible at the previous cycle ([prev]). *)
Fixpoint collect_loop (now : Z) (expireLeases : bool) (prev : list ShardID) (ids : list ShardID)
    (s : S) (l : Ledger) (freed : nat) : S * Ledger * nat :=
  match ids with
  | [] => (s, l, freed)
  | id :: ids =>
      if negb (bool_decide (id ∈ prev)) then collect_loop now expireLeases prev ids s l freed
      else
        let '(l, dropped) := CollectRecord id now expireLeases l in
        if negb dropped then collect_loop now expireLeases prev ids s l freed
        else
          let '(s, r) := Delete id s in
          match r with
          | Err e =>
              if decide (e = ErrNotFound) then collect_loop now expireLeases prev ids s l (freed + 1)
              else collect_loop now expireLeases prev ids s l freed
          | Ok _ => collect_loop now expireLeases prev ids s l (freed + 1)
          end
  end.

(** One cycle: the next baseline, the store and the ledger. *)
Definition runGC (now : Z) (expireLeases : bool) (prev : list ShardID) (s : S) (l : Ledger)
    : list ShardID * S * Ledger :=
  let ids := Collectible now expireLeases l in
  let '(s, l, _) := collect_loop now expireLeases prev ids s l 0 in
  let l := match List s with
           | Ok disk => (Reconcile disk l).1
           | Err _ => l
           end in
  (ids, s, l).
End gc.

Section node.
Context `{Hsha : Sha256} `{Hed : Ed25519} `{Har : Argon2}.
Context {S : Type} `{Hst : !Store S} {ok : S → Prop} `{Hlaws : !StoreLaws S ok}.
Context `{Hls : !Lister S} `{Hll : !ListerLaws S ok}.
Context (err_msg : net_err → bytes).
Implicit Types (srv : Server S) (s : S) (l : Ledger).

(** Every shard the ledger records is in the store, with the recorded size. *)
Definition backed (s : S) (l : Ledger) : Prop :=
  wf l ∧ ∀ id r, shards l !! id = Some r → ∃ d, Get id s = Ok d ∧ size r = Z.of_nat (length d).

Definition node_ok (srv : Server S) : Prop :=
  ok (sv_store srv) ∧ match sv_ledger srv with Some l => backed (sv_store srv) l | None => True end.

(** *** Store and ledger operations against the invariant *)

Lemma backed_put s l d : ok s → backed s l → backed (Put d s).1 l.
Proof.
  intros Hok [Hwf Hb]. split; [done|]. intros id r Hr. destruct (Hb id r Hr) as (x & Hx & Hsz).
  exists x. split; [|done]. by apply (put_get_keeps (ok := ok)).
Qed.

Lemma backed_size_agrees s l d :
  backed s l → no_collision d s → size_agrees (HashOf d) (Z.of_nat (length d)) l.
Proof.
  intros [_ Hb] Hnc. split; [lia|]. intros r Hr. destruct (Hb _ _ Hr) as (x & Hx & ->). by rewrite (Hnc x Hx).
Qed.

Lemma addowner_shards opts id o sz now l id' r :
  shards (AddOwner opts id o sz now l).1 !! id' = Some r →
  shards l !! id' = Some r ∨ (id' = id ∧ size r = sz).
Proof.
  unfold AddOwner. destruct (owners l !! (id, o)); [by left|]. destruct (quota_refuses _ _ _ _ _); [by left|].
  destruct (shards l !! id) as [r0|] eqn:E; simpl; [by left|].
  rewrite lookup_insert. case_decide; [|by left]. intros [= <-]. by right.
Qed.

Lemma backed_claim opts s l d o now :
  ok s → backed s l → no_collision d s →
  backed (Put d s).1 (AddOwner opts (HashOf d) o (Z.of_nat (length d)) now l).1.
Proof.
  intros Hok Hb Hnc. split.
  - apply wf_AddOwner; [apply Hb|]. by eapply backed_size_agrees.
  - intros id r [Hr|[-> Hsz]]%addowner_shards; [by apply (backed_put s l d Hok Hb)|].
    exists d. split; [|done]. by apply (put_get_fresh (ok := ok)).
Qed.

Lemma backed_shards s l l' :
  backed s l → wf l' → (∀ id r, shards l' !! id = Some r → shards l !! id = Some r) → backed s l'.
Proof. intros [_ Hb] Hwf Hsub. split; [done|]. intros id r Hr. by apply Hb, Hsub. Qed.

Lemma backed_renew opts s l id o now : backed s l → backed s (RenewLease opts id o now l).1.
Proof.
  intros Hb. apply (backed_shards s l); [done|apply wf_RenewLease, Hb|].
  unfold RenewLease. repeat case_match; done.
Qed.

Lemma backed_stripe s l id k m sib g : backed s l → backed s (PutStripe id k m sib g l).1.
Proof.
  intros Hb. apply (backed_shards s l); [done|apply wf_PutStripe, Hb|].
  unfold PutStripe. repeat case_match; done.
Qed.

Lemma backed_revoke s l n o now : backed s l → backed s (RevokeGrant n o now l).
Proof.
  intros Hb. apply (backed_shards s l); [done|apply wf_RevokeGrant, Hb|].
  unfold RevokeGrant. repeat case_match; done.
Qed.

Lemma backed_remove s l id o : backed s l → backed s (RemoveOwner id o l).1.
Proof.
  intros Hb. apply (backed_shards s l); [done|apply wf_RemoveOwner, Hb|].
  unfold RemoveOwner. repeat case_match; done.
Qed.

(** Deleting the blob together with its record. *)
Lemma backed_delete s l id : ok s → backed s l → backed (Delete id s).1 (DropRecord id l).
Proof.
  intros Hok [Hwf Hb]. split; [by apply wf_DropRecord|]. intros id' r Hr. rewrite drop_shards in Hr.
  apply lookup_delete_Some in Hr as [Hne Hr]. destruct (Hb id' r Hr) as (d & Hd & Hsz). exists d.
  split; [|done]. by rewrite (delete_get_other (ok := ok)).
Qed.

Lemma backed_reconcile s l disk :
  backed s l → (∀ id, id ∈ disk ↔ is_ok (Get id s) = true) → backed s (Reconcile disk l).1.
Proof.
  intros Hb Hdisk. destruct (reconcile_state disk l) as [l1 H1].
  destruct (H1 (wf_wf_tables l (proj1 Hb))) as (-> & Hwt & Hs & _).
  apply (backed_shards s l); [done|by apply wf_recompute|].
  intros id r. simpl. rewrite Hs. by case_decide.
Qed.

(** *** The parts of the handlers that leave store and ledger alone *)

Definition same_data (srv srv' : Server S) : Prop :=
  sv_store srv' = sv_store srv ∧ sv_ledger srv' = sv_ledger srv.

Lemma same_data_ok srv srv' : same_data srv srv' → node_ok srv → node_ok srv'.
Proof. intros [Es El]. unfold node_ok. by rewrite Es, El. Qed.

Lemma check_token_same c o id token srv : same_data srv (check_token c o id token srv).1.
Proof. unfold check_token. destruct (verifyToken _ _ _ _ _); [|done]. by destruct (seen _ _ _). Qed.

Lemma check_rate_same c owner srv : same_data srv (check_rate c owner srv).1.
Proof. unfold check_rate. by destruct (owner_allow _ _ _). Qed.

Lemma authorize_put_same po c p id g srv : same_data srv (authorize_put po c p id g srv).1.
Proof.
  unfold authorize_put. destruct (pf_token p) as [|b t]; [by destruct g as [[? ?]|]|].
  pose proof (check_token_same c opPut id (b :: t) srv) as Ht.
  destruct (check_token c opPut id (b :: t) srv) as [srv1 [owner|e]]; [|done].
  destruct (negb (enforcePoW po owner)); [done|].
  pose proof (check_rate_same c owner srv1) as Hr. destruct (check_rate c owner srv1) as [srv2 b2].
  destruct Ht as [Hs1 Hl1], Hr as [Hs2 Hl2]. simpl in *. split; simpl; congruence.
Qed.

Lemma record_move_same po c p g srv : same_data srv (record_move po c p g srv).
Proof. unfold record_move. by destruct (_ && _). Qed.

Lemma announce_same po id srv : same_data srv (announce po id srv).
Proof. unfold announce. by destruct (po_announcer po). Qed.

(** *** Handlers *)

(** What a successful or failed commit does to store and ledger. *)
Lemma commit_put_spec po c p owner g srv l :
  sv_ledger srv = Some l → node_ok srv → no_collision (pf_data p) (sv_store srv) →
  let id := HashOf (pf_data p) in
  let res := commit_put err_msg po c p id (Some owner) g srv in
  node_ok res.1 ∧
  (∃ l', sv_ledger res.1 = Some l' ∧
     ((res.2 = replyOK (writeID id) ∧ is_Some (owners l' !! (id, owner)) ∧
       Get id (sv_store res.1) = Ok (pf_data p)) ∨
      (res.2 = replyErr err_msg (NLedger ErrQuotaExceeded) ∧ l' = l ∧ owners l !! (id, owner) = None ∧
       quota_refuses (po_opts po) l owner (Z.of_nat (length (pf_data p))) (cn_now c) = true))).
Proof.
  intros El [Hok Hb] Hnc id res. rewrite El in Hb. unfold res, commit_put.
  destruct (put_result (sv_store srv) (pf_data p) Hok) as [Er Hok1].
  pose proof (put_get_fresh (sv_store srv) (pf_data p) Hok Hnc) as Hg.
  pose proof (backed_claim (po_opts po) (sv_store srv) l (pf_data p) owner (cn_now c) Hok Hb Hnc) as Hcl.
  fold id in Hcl, Hg, Er.
  destruct (Put (pf_data p) (sv_store srv)) as [s1 r1]. cbn [fst snd] in *. subst r1.
  cbn [set_store sv_ledger sv_store]. rewrite El.
  destruct (AddOwner (po_opts po) id owner (Z.of_nat (length (pf_data p))) (cn_now c) l) as [l1 [b|e]] eqn:Ea;
    cbn [fst] in Hcl.
  - assert (is_Some (owners l1 !! (id, owner))) as Hown.
    { unfold AddOwner in Ea. destruct (owners l !! (id, owner)); [|destruct (quota_refuses _ _ _ _ _)];
        simplify_eq/=; rewrite ?lookup_insert_eq; eauto. }
    destruct b.
    + set (l2 := match g with Some (d, _) => _ | None => l1 end).
      assert (backed s1 l2) as Hb2.
      { unfold l2. destruct g as [[d o]|]; [by apply backed_stripe|done]. }
      assert (owners l2 = owners l1) as Ho2.
      { unfold l2. destruct g as [[d o]|]; [|done]. unfold PutStripe. repeat case_match; done. }
      match goal with |- context [announce po id ?x] => destruct (announce_same po id x) as [Es2 El2] end.
      cbn [set_ledger sv_store sv_ledger] in Es2, El2. cbn [fst snd]. split.
      * split; [by rewrite Es2|]. by rewrite Es2, El2.
      * exists l2. rewrite El2. split; [done|]. left. rewrite Ho2, Es2. done.
    + split; [by split|]. exists l1. split; [done|]. by left.
  - assert (e = ErrQuotaExceeded ∧ l1 = l ∧ owners l !! (id, owner) = None ∧
      quota_refuses (po_opts po) l owner (Z.of_nat (length (pf_data p))) (cn_now c) = true) as (-> & -> & Hn & Hq).
    { unfold AddOwner in Ea. destruct (owners l !! (id, owner)); [done|].
      destruct (quota_refuses _ _ _ _ _); simplify_eq; done. }
    split; [by split|]. exists l. split; [done|]. by right.
Qed.

Lemma commit_put_open po c p g srv :
  sv_ledger srv = None → node_ok srv →
  node_ok (commit_put err_msg po c p (HashOf (pf_data p)) None g srv).1.
Proof.
  intros El [Hok Hb]. unfold commit_put. destruct (put_result (sv_store srv) (pf_data p) Hok) as [Er Hok1].
  destruct (Put (pf_data p) (sv_store srv)) as [s1 r1]. simpl in *. subst r1.
  eapply same_data_ok; [apply announce_same|]. split; [done|]. simpl. by rewrite El.
Qed.

(** The payload of a PUT does not collide with what the node stores. *)
Definition put_no_collision (input : bytes) srv : Prop :=
  ∀ p rest, read_put input = Ok (p, rest) → no_collision (pf_data p) (sv_store srv).

Lemma handlePut_ok po c input srv :
  node_ok srv → put_no_collision input srv → node_ok (handlePut err_msg po c input srv).1.
Proof.
  intros Hok Hnc. unfold handlePut. destruct (negb (po_slot po)); [done|].
  destruct (read_put input) as [[p rest]|] eqn:Er; [|done].
  set (id := HashOf (pf_data p)). set (g := put_grant c p id).
  destruct (grant_revoked p g srv); [done|]. specialize (Hnc p rest Er).
  destruct (sv_ledger srv) as [l|] eqn:El; [|by apply commit_put_open].
  pose proof (authorize_put_same po c p id g srv) as Hsame.
  destruct (authorize_put po c p id g srv) as [srv1 [owner|e]]; simpl in Hsame;
    [|by apply (same_data_ok srv)].
  pose proof (record_move_same po c p g srv1) as Hsame2.
  destruct Hsame as [Es El1], Hsame2 as [Es2 El2].
  eapply (commit_put_spec po c p owner g (record_move po c p g srv1) l).
  - congruence.
  - apply (same_data_ok srv); [|done]. split; congruence.
  - by rewrite Es2, Es.
Qed.

Lemma handlePut_subnet po c input srv : sv_subnet (handlePut err_msg po c input srv).1 = sv_subnet srv.
Proof.
  assert (∀ p id o g srv0, sv_subnet (commit_put err_msg po c p id o g srv0).1 = sv_subnet srv0) as Hc.
  { intros p id o g srv0. unfold commit_put, announce. destruct (Put _ _) as [s1 [?|]]; [|done].
    destruct o as [o|]; [|by destruct (po_announcer po)]. cbn [set_store sv_ledger].
    destruct (sv_ledger srv0) as [l|]; [|by destruct (po_announcer po)].
    destruct (AddOwner _ _ _ _ _ _) as [l1 [[]|]]; try done. by destruct (po_announcer po). }
  unfold handlePut. destruct (negb (po_slot po)); [done|]. destruct (read_put input) as [[p rest]|]; [|done].
  destruct (grant_revoked _ _ _); [done|]. destruct (sv_ledger srv) as [l|]; [|apply Hc].
  assert (sv_subnet (authorize_put po c p (HashOf (pf_data p)) (put_grant c p (HashOf (pf_data p))) srv).1
    = sv_subnet srv) as Ha.
  { unfold authorize_put, check_token, check_rate. destruct (pf_token p); [by destruct (put_grant _ _ _) as [[? ?]|]|].
    destruct (verifyToken _ _ _ _ _); [|done]. destruct (seen _ _ _) as [? []]; [done|].
    destruct (negb _); [done|]. by destruct (owner_allow _ _ _). }
  destruct (authorize_put _ _ _ _ _ srv) as [srv1 [o|]]; [|done]. cbn [fst] in Ha. rewrite Hc, <-Ha.
  unfold record_move. by destruct (_ && _).
Qed.

Lemma handleDelete_ok c input srv : node_ok srv → node_ok (handleDelete err_msg c input srv).1.
Proof.
  intros Hok. unfold handleDelete. destruct (read_signed input) as [[[id token] rest]|]; [|done].
  destruct (sv_ledger srv) as [l|] eqn:El.
  2:{ destruct Hok as [Hok _]. pose proof (delete_ok (sv_store srv) id Hok) as Hd.
      destruct (Delete id (sv_store srv)) as [s1 r1]. simpl in *. split; [done|]. simpl. by rewrite El. }
  pose proof (check_token_same c opDelete id token srv) as H1.
  destruct (check_token c opDelete id token srv) as [srv1 [owner|e]]; [|by apply (same_data_ok srv)].
  pose proof (check_rate_same c owner srv1) as H2. destruct (check_rate c owner srv1) as [srv2 b2].
  assert (same_data srv srv2) as [Es2 El2] by (destruct H1, H2; simpl in *; split; congruence).
  destruct b2; cbn [negb]; [|by apply (same_data_ok srv)]. rewrite El2, El.
  destruct Hok as [Hok Hb]. rewrite El in Hb.
  pose proof (backed_remove (sv_store srv) l id owner Hb) as Hb1.
  destruct (RemoveOwner id owner l) as [l1 [n|e]]; cbn [fst] in Hb1.
  2:{ split; simpl; [by rewrite Es2|]. by rewrite Es2. }
  destruct (n =? 0); [|split; simpl; [by rewrite Es2|]; by rewrite Es2].
  cbn [set_ledger sv_store]. rewrite Es2.
  pose proof (backed_delete (sv_store srv) l1 id Hok Hb1) as Hb2. pose proof (delete_ok (sv_store srv) id Hok) as Hd.
  pose proof (delete_result (sv_store srv) id Hok) as Hr.
  destruct (Delete id (sv_store srv)) as [s1 r1]. cbn [fst snd] in *. subst r1.
  destruct (is_ok (Get id (sv_store srv))); [by split|]. by rewrite decide_True.
Qed.

Lemma handleRenew_ok po c input srv : node_ok srv → node_ok (handleRenew err_msg po c input srv).1.
Proof.
  intros Hok. unfold handleRenew. destruct (read_signed input) as [[[id token] rest]|]; [|done].
  pose proof (check_token_same c opRenew id token srv) as H1.
  destruct (check_token c opRenew id token srv) as [srv1 [owner|e]]; [|by apply (same_data_ok srv)].
  simpl in H1. destruct (sv_ledger srv1) as [l|] eqn:El; [|by apply (same_data_ok srv)].
  destruct (same_data_ok srv srv1 H1 Hok) as [Hok1 Hb]. rewrite El in Hb.
  pose proof (backed_renew (po_opts po) (sv_store srv1) l id owner (cn_now c) Hb) as Hb1.
  destruct (RenewLease (po_opts po) id owner (cn_now c) l) as [l1 r1]. by split.
Qed.

Lemma handleRevoke_ok c input srv : node_ok srv → node_ok (handleRevokeGrant err_msg c input srv).1.
Proof.
  intros Hok. unfold handleRevokeGrant. destruct (_ ≫= _) as [[nonce token]|]; [|done].
  pose proof (check_token_same c opRevokeGrant zeroID token srv) as H1.
  destruct (check_token c opRevokeGrant zeroID token srv) as [srv1 [owner|e]]; [|by apply (same_data_ok srv)].
  simpl in H1. destruct (sv_ledger srv1) as [l|] eqn:El; [|by apply (same_data_ok srv)].
  destruct (same_data_ok srv srv1 H1 Hok) as [Hok1 Hb]. rewrite El in Hb. split; [done|]. by apply backed_revoke.
Qed.
Lemma dispatch_ok po c input srv :
  node_ok srv → (∀ rest, input = op_byte opPut :: rest → put_no_collision rest srv) →
  node_ok (dispatch err_msg po c input srv).1.
Proof.
  intros Hok Hnc. unfold dispatch. destruct input as [|b rest]; [done|]. cbn [readByte].
  destruct (op_of_byte b) as [[]|] eqn:Eo; try done.
  - apply handlePut_ok; [done|]. apply Hnc. f_equal. by destruct b.
  - unfold handleGet. destruct (readID rest) as [[id ?]|]; [|done]. by destruct (Get id _).
  - unfold handleHas. destruct (readID rest) as [[id ?]|]; [|done]. by destruct (Has id _).
  - by apply handleDelete_ok.
  - by apply handleRenew_ok.
  - by apply handleRevoke_ok.
Qed.

Lemma handleShard_ok po c input srv :
  node_ok srv → (∀ rest, input = op_byte opPut :: rest → put_no_collision rest srv) →
  node_ok (handleShard err_msg po c input srv).1.
Proof.
  intros Hok Hnc. unfold handleShard. destruct (subnet_allow _ _ _) as [l b].
  assert (node_ok (set_subnet l srv)) as Hok' by done. destruct b; cbn [negb]; [|done].
  by apply dispatch_ok.
Qed.

Lemma handleProbe_same c input srv : same_data srv (handleProbe err_msg c input srv).1.
Proof.
  unfold handleProbe. destruct (subnet_allow _ _ _) as [l b]. destruct b; cbn [negb]; [|done].
  destruct (_ ≫= _) as [[id nonce]|]; [|done]. by destruct (Get id _).
Qed.

(** *** Garbage collection *)

Lemma collect_drop id now ex l :
  (CollectRecord id now ex l).2 = true → (CollectRecord id now ex l).1 = DropRecord id l.
Proof. unfold CollectRecord. by destruct (has_live_owner _ _ _ _). Qed.

Lemma collect_keep id now ex l :
  (CollectRecord id now ex l).2 = false → (CollectRecord id now ex l).1 = l.
Proof.
  unfold CollectRecord, dropRecordTx. destruct (has_live_owner _ _ _ _); [done|].
  by destruct (shards l !! id).
Qed.

(** Collecting keeps the invariant, keeps every shard with a live claim, and
    touches only shards of the previous baseline. *)
Lemma collect_loop_spec now ex prev ids : ∀ s l n,
  ok s → backed s l →
  let '(s', l', _) := collect_loop now ex prev ids s l n in
  ok s' ∧ backed s' l' ∧
  (∀ id, has_live_owner id now ex l = true →
     has_live_owner id now ex l' = true ∧ Get id s' = Get id s ∧ shards l' !! id = shards l !! id ∧
     ∀ o, owners l' !! (id, o) = owners l !! (id, o)) ∧
  (∀ id, id ∉ prev ∨ id ∉ ids →
     Get id s' = Get id s ∧ shards l' !! id = shards l !! id ∧ ∀ o, owners l' !! (id, o) = owners l !! (id, o)).
Proof.
  induction ids as [|id ids IH]; intros s l n Hok Hb; [by split_and!|]. cbn [collect_loop].
  destruct (decide (id ∈ prev)) as [Hin|Hni].
  2:{ rewrite bool_decide_false by done. cbn [negb]. specialize (IH s l n Hok Hb).
      destruct (collect_loop now ex prev ids s l n) as [[s' l'] m]. destruct IH as (H1 & H2 & H3 & H4).
      split; [done|]. split; [done|]. split; [done|]. intros id' Hid'. apply H4. set_solver. }
  rewrite bool_decide_true by done. cbn [negb].
  pose proof (collect_drop id now ex l) as Hd. pose proof (collect_keep id now ex l) as Hk.
  destruct (CollectRecord id now ex l) as [l1 b] eqn:Ec. cbn [fst snd] in *.
  destruct b; cbn [negb].
  2:{ rewrite Hk by done. specialize (IH s l n Hok Hb).
      destruct (collect_loop now ex prev ids s l n) as [[s' l'] m]. destruct IH as (H1 & H2 & H3 & H4).
      split; [done|]. split; [done|]. split; [done|]. intros id' Hid'. apply H4. set_solver. }
  rewrite (Hd eq_refl) in *. clear Hd Hk.
  assert (has_live_owner id now ex l = false) as Hdead.
  { unfold CollectRecord in Ec. by destruct (has_live_owner id now ex l). }
  pose proof (delete_ok s id Hok) as Hok1. pose proof (backed_delete s l id Hok Hb) as Hb1.
  pose proof (delete_result s id Hok) as Hr. pose proof (λ id', delete_get_other s id id' Hok) as Hoth.
  destruct (Delete id s) as [s1 r1]. cbn [fst snd] in *.
  assert (∀ id', id' ≠ id → Get id' s1 = Get id' s ∧ shards (DropRecord id l) !! id' = shards l !! id' ∧
    ∀ o, owners (DropRecord id l) !! (id', o) = owners l !! (id', o)) as Hsame.
  { intros id' Hne. split; [by apply Hoth|]. split; [by rewrite drop_shards, lookup_delete_ne|].
    intros o. rewrite (tables_owners_drop id l id' o (wf_wf_tables _ (proj1 Hb))). by case_decide. }
  assert (∀ n', let '(s', l', _) := collect_loop now ex prev ids s1 (DropRecord id l) n' in
    ok s' ∧ backed s' l' ∧
    (∀ id, has_live_owner id now ex l = true →
     has_live_owner id now ex l' = true ∧ Get id s' = Get id s ∧ shards l' !! id = shards l !! id ∧
     ∀ o, owners l' !! (id, o) = owners l !! (id, o)) ∧
    (∀ id0, id0 ∉ prev ∨ id0 ∉ id :: ids →
     Get id0 s' = Get id0 s ∧ shards l' !! id0 = shards l !! id0 ∧ ∀ o, owners l' !! (id0, o) = owners l !! (id0, o))) as Hgo.
  { intros n'. specialize (IH s1 (DropRecord id l) n' Hok1 Hb1).
    destruct (collect_loop now ex prev ids s1 (DropRecord id l) n') as [[s' l'] m].
    destruct IH as (H1 & H2 & H3 & H4). split; [done|]. split; [done|]. split.
    - intros id' Hlive. assert (id' ≠ id) as Hne by congruence. destruct (Hsame id' Hne) as (Hg & Hsh & How).
      destruct (H3 id') as (Hl' & Hg' & Hsh' & How').
      { apply has_live_owner_true in Hlive as (o & r & Hr' & Hlr). apply has_live_owner_true.
        exists o, r. by rewrite How. }
      split; [done|]. split; [congruence|]. split; [congruence|]. intros o. by rewrite How', How.
    - intros id' Hid'. assert (id' ≠ id) as Hne by (intros ->; destruct Hid' as [?|Hx]; [done|apply Hx; by left]).
      destruct (Hsame id' Hne) as (Hg & Hsh & How). destruct (H4 id') as (Hg' & Hsh' & How'); [set_solver|].
      split; [congruence|]. split; [congruence|]. intros o. by rewrite How', How. }
  destruct r1 as [[]|e]; [apply Hgo|]. destruct (decide (e = ErrNotFound)); apply Hgo.
Qed.

Lemma collect_absent id now ex l : shards l !! id = None → CollectRecord id now ex l = (l, false).
Proof. intros E. unfold CollectRecord, dropRecordTx. rewrite E. by destruct (has_live_owner _ _ _ _). Qed.

(** A shard with neither record nor blob stays so. *)
Lemma collect_loop_absent now ex prev id ids : ∀ s l n,
  ok s → shards l !! id = None → Get id s = Err ErrNotFound →
  let '(s', l', _) := collect_loop now ex prev ids s l n in
  shards l' !! id = None ∧ Get id s' = Err ErrNotFound.
Proof.
  induction ids as [|id' ids IH]; intros s l n Hok Hl Hg; [done|]. cbn [collect_loop].
  destruct (negb _); [by apply IH|].
  pose proof (collect_drop id' now ex l) as Hd. pose proof (collect_keep id' now ex l) as Hk.
  destruct (CollectRecord id' now ex l) as [l1 b]. cbn [fst snd] in *. destruct b; cbn [negb].
  2:{ rewrite Hk by done. by apply IH. }
  rewrite (Hd eq_refl). assert (shards (DropRecord id' l) !! id = None) as Hl1.
  { rewrite drop_shards, lookup_delete_None. by right. }
  pose proof (delete_ok s id' Hok) as Hok1.
  assert (Get id (Delete id' s).1 = Err ErrNotFound) as Hg1.
  { destruct (decide (id' = id)) as [->|Hne]; [by apply delete_get_same|by rewrite delete_get_other]. }
  destruct (Delete id' s) as [s1 [[]|e]]; [by apply IH|]. destruct (decide _); by apply IH.
Qed.

(** A collectible shard of the previous baseline goes. *)
Lemma collect_loop_gone now ex prev id ids : ∀ s l n,
  ok s → backed s l → id ∈ ids → id ∈ prev → is_Some (shards l !! id) → has_live_owner id now ex l = false →
  let '(s', l', _) := collect_loop now ex prev ids s l n in
  shards l' !! id = None ∧ Get id s' = Err ErrNotFound.
Proof.
  induction ids as [|id' ids IH]; intros s l n Hok Hb Hin Hp Hrec Hdead; [by apply elem_of_nil in Hin|].
  pose proof (collect_loop_spec now ex prev [id'] s l 0 Hok Hb) as Hone. cbn [collect_loop] in Hone |- *.
  destruct (decide (id' = id)) as [->|Hne].
  - rewrite bool_decide_true by done. cbn [negb]. destruct (Hrec) as [r Hr].
    assert (CollectRecord id now ex l = (DropRecord id l, true)) as ->.
    { unfold CollectRecord, DropRecord. rewrite Hdead. unfold dropRecordTx. by rewrite Hr. }
    cbn [negb]. pose proof (delete_ok s id Hok) as Hok1. pose proof (delete_get_same s id Hok) as Hg1.
    assert (shards (DropRecord id l) !! id = None) as Hl1 by (by rewrite drop_shards, lookup_delete_eq).
    destruct (Delete id s) as [s1 [[]|e]]; [by apply collect_loop_absent|].
    destruct (decide _); by apply collect_loop_absent.
  - assert (id ∈ ids) as Hin' by set_solver.
    assert (∀ s1 l1, ok s1 → backed s1 l1 → shards l1 !! id = shards l !! id →
      (∀ o, owners l1 !! (id, o) = owners l !! (id, o)) → ∀ n', 
      let '(s', l', _) := collect_loop now ex prev ids s1 l1 n' in
      shards l' !! id = None ∧ Get id s' = Err ErrNotFound) as Hgo.
    { intros s1 l1 Hok1 Hb1 Hs1 Ho1 n'. apply IH; try done; [by rewrite Hs1|].
      apply not_true_is_false. intros Hl. apply not_true_iff_false in Hdead. apply Hdead.
      apply has_live_owner_true in Hl as (o & r & Hr & Hlr). apply has_live_owner_true. exists o, r.
      by rewrite <-Ho1. }
    destruct (negb _); [by apply IH|]. destruct (CollectRecord id' now ex l) as [l1 b]. destruct b; cbn [negb] in *.
    + destruct (Delete id' s) as [s1 [[]|e]]; [|destruct (decide _)]; destruct Hone as (H1 & H2 & _ & H4);
        (destruct (H4 id) as (? & ? & ?); [right; set_solver|]; by apply Hgo).
    + destruct Hone as (H1 & H2 & _ & H4). destruct (H4 id) as (? & ? & ?); [right; set_solver|]. by apply Hgo.
Qed.

(** Reconciling with the store's own listing changes no claim of a backed ledger. *)
Lemma reconcile_backed_id s l disk :
  backed s l → (∀ id, id ∈ disk ↔ is_ok (Get id s) = true) →
  ∀ id, shards (Reconcile disk l).1 !! id = shards l !! id ∧
    ∀ o, owners (Reconcile disk l).1 !! (id, o) = owners l !! (id, o).
Proof.
  intros [Hwf Hb] Hdisk id. destruct (reconcile_state disk l) as [l1 H1].
  destruct (H1 (wf_wf_tables l Hwf)) as (-> & _ & Hs & Ho). simpl. rewrite Hs. setoid_rewrite Ho.
  case_decide as Hin; [done|]. rewrite Hdisk in Hin.
  assert (shards l !! id = None) as E.
  { destruct (shards l !! id) as [r|] eqn:E; [|done]. destruct (Hb id r E) as (d & Hd & _). by rewrite Hd in Hin. }
  split; [done|]. intros o. destruct (owners l !! (id, o)) as [r|] eqn:Eo; [|done].
  destruct (wf_fk _ Hwf _ _ _ Eo) as [r' Er]. congruence.
Qed.

(** One request, probe or collection cycle. *)
Inductive node_step : Server S → Server S → Prop :=
| step_request po c input srv :
    (∀ rest, input = op_byte opPut :: rest → put_no_collision rest srv) →
    node_step srv (handleShard err_msg po c input srv).1
| step_probe c input srv : node_step srv (handleProbe err_msg c input srv).1
| step_gc now ex prev srv l ids s' l' :
    sv_ledger srv = Some l →
    runGC now ex prev (sv_store srv) l = (ids, s', l') →
    node_step srv (set_store s' (set_ledger (Some l') srv)).

Lemma runGC_ok now ex prev s l :
  ok s → backed s l →
  let '(_, s', l') := runGC now ex prev s l in ok s' ∧ backed s' l'.
Proof.
  intros Hok Hb. unfold runGC. pose proof (collect_loop_spec now ex prev (Collectible now ex l) s l 0 Hok Hb) as H.
  destruct (collect_loop now ex prev (Collectible now ex l) s l 0) as [[s1 l1] n]. destruct H as (H1 & H2 & _).
  split; [done|]. destruct (list_exact s1 H1) as (ids & -> & Hids). by apply backed_reconcile.
Qed.

Lemma node_step_ok srv srv' : node_step srv srv' → node_ok srv → node_ok srv'.
Proof.
  destruct 1 as [po c input srv Hnc|c input srv|now ex prev srv l ids s' l' El Eg]; intros Hok.
  - by apply handleShard_ok.
  - by eapply same_data_ok; [apply handleProbe_same|].
  - destruct Hok as [Hok Hb]. rewrite El in Hb. pose proof (runGC_ok now ex prev (sv_store srv) l Hok Hb) as H.
    by rewrite Eg in H.
Qed.
(** *** Claims under each handler *)

Definition keeps_claim (id : ShardID) (o : Owner) (srv srv' : Server S) : Prop :=
  ∃ l', sv_ledger srv' = Some l' ∧ is_Some (owners l' !! (id, o)) ∧
        Get id (sv_store srv') = Get id (sv_store srv).

Lemma same_keeps_claim id o srv srv' l :
  sv_ledger srv = Some l → is_Some (owners l !! (id, o)) → same_data srv srv' → keeps_claim id o srv srv'.
Proof. intros El Ho [Es El']. exists l. split; [congruence|]. split; [done|]. by rewrite Es. Qed.

Lemma put_keeps_claim po c input srv l id o :
  node_ok srv → sv_ledger srv = Some l → put_no_collision input srv → is_Some (owners l !! (id, o)) →
  keeps_claim id o srv (handlePut err_msg po c input srv).1.
Proof.
  intros Hok El Hnc Ho. unfold handlePut. destruct (negb (po_slot po)); [by eapply same_keeps_claim|].
  destruct (read_put input) as [[p rest]|] eqn:Er; [|by eapply same_keeps_claim].
  set (hid := HashOf (pf_data p)). set (g := put_grant c p hid).
  destruct (grant_revoked p g srv); [by eapply same_keeps_claim|]. rewrite El.
  pose proof (authorize_put_same po c p hid g srv) as Hsame.
  destruct (authorize_put po c p hid g srv) as [srv1 [owner|e]]; simpl in Hsame; [|by eapply same_keeps_claim].
  pose proof (record_move_same po c p g srv1) as Hsame2. destruct Hsame as [Es El1], Hsame2 as [Es2 El2].
  unfold commit_put. rewrite Es2, Es. cbn [set_store sv_ledger]. rewrite El2, El1, El.
  pose proof (proj1 Hok) as Hoks. destruct (put_result (sv_store srv) (pf_data p) Hoks) as [Erp _].
  assert (Get id (Put (pf_data p) (sv_store srv)).1 = Get id (sv_store srv)) as Hget.
  { destruct Hok as [_ Hb]. rewrite El in Hb. destruct Ho as [r Hr].
    destruct (wf_fk _ (proj1 Hb) _ _ _ Hr) as [row Hrow]. destruct (proj2 Hb id row Hrow) as (d & Hd & _).
    rewrite Hd. by apply (put_get_keeps (ok := ok)). }
  destruct (Put (pf_data p) (sv_store srv)) as [s1 r1]. cbn [fst snd] in *. subst r1.
  assert (∀ sz now, is_Some (owners (AddOwner (po_opts po) hid owner sz now l).1 !! (id, o))) as Hadd.
  { intros sz now. unfold AddOwner.
    destruct (owners l !! (hid, owner)); [|destruct (quota_refuses _ _ _ _ _); [done|]; destruct (shards l !! hid)];
      simpl; rewrite lookup_insert; case_decide; eauto. }
  specialize (Hadd (Z.of_nat (length (pf_data p))) (cn_now c)).
  destruct (AddOwner _ _ _ _ _ _) as [l1 [[]|]]; cbn [fst] in Hadd.
  - set (l2 := match g with Some (d, _) => _ | None => l1 end).
    match goal with |- context [announce po hid ?x] => destruct (announce_same po hid x) as [E1 E2] end.
    exists l2. cbn [fst]. rewrite E1, E2. split; [done|]. split; [|done].
    assert (owners l2 = owners l1) as ->; [|done].
    unfold l2. destruct g as [[d o']|]; [|done]. unfold PutStripe. repeat case_match; done.
  - by exists l1.
  - by exists l1.
Qed.

Lemma delete_keeps_claim c input srv l id o :
  node_ok srv → sv_ledger srv = Some l → is_Some (owners l !! (id, o)) →
  ∃ l', sv_ledger (handleDelete err_msg c input srv).1 = Some l' ∧
    ((is_Some (owners l' !! (id, o)) ∧ Get id (sv_store (handleDelete err_msg c input srv).1) = Get id (sv_store srv)) ∨
     ∃ token tail, read_signed input = Ok (id, token, tail) ∧
       verifyToken token opDelete id (cn_self c) (cn_now c) = Ok o).
Proof.
  intros Hok El Ho.
  assert (∀ srv', keeps_claim id o srv srv' → ∃ l', sv_ledger srv' = Some l' ∧
    ((is_Some (owners l' !! (id, o)) ∧ Get id (sv_store srv') = Get id (sv_store srv)) ∨
     ∃ token tail, read_signed input = Ok (id, token, tail) ∧
       verifyToken token opDelete id (cn_self c) (cn_now c) = Ok o)) as Hk.
  { intros srv' (l' & ? & ? & ?). exists l'. auto. }
  unfold handleDelete. destruct (read_signed input) as [[[id' token] rest]|] eqn:Er;
    [|apply Hk; by eapply same_keeps_claim].
  rewrite El. pose proof (check_token_same c opDelete id' token srv) as H1.
  destruct (check_token c opDelete id' token srv) as [srv1 [owner|e]] eqn:Et; simpl in H1;
    [|apply Hk; by eapply same_keeps_claim].
  pose proof (check_rate_same c owner srv1) as H2. destruct (check_rate c owner srv1) as [srv2 b2].
  assert (same_data srv srv2) as [Es2 El2] by (destruct H1, H2; simpl in *; split; congruence).
  destruct b2; cbn [negb]; [|apply Hk; by eapply same_keeps_claim].
  assert (verifyToken token opDelete id' (cn_self c) (cn_now c) = Ok owner) as Ev.
  { unfold check_token in Et. destruct (verifyToken _ _ _ _ _) as [ow|]; [|by simplify_eq].
    destruct (seen _ _ _) as [? []]; by simplify_eq. }
  rewrite El2, El. destruct (RemoveOwner id' owner l) as [l1 [n|e]] eqn:Erm.
  2:{ assert (l1 = l) as ->. { unfold RemoveOwner in Erm. repeat case_match; simplify_eq; done. }
      apply Hk. exists l. by split_and!; simpl; rewrite ?Es2. }
  destruct (decide (id' = id ∧ owner = o)) as [[-> ->]|Hne].
  { destruct (n =? 0); [destruct (Delete _ _) as [? [?|e]]; [|destruct (decide _)]|];
      (eexists; split; [done|right; by exists token, rest]). }
  assert (is_Some (owners l1 !! (id, o)) ∧ (n = 0 → id' ≠ id)) as [Ho1 Hn].
  { unfold RemoveOwner in Erm. destruct (owners l !! (id', owner)) eqn:Eo; [|done].
    destruct (shards l !! id') eqn:Esh; [|done]. simplify_eq. cbn [owners with_owners with_accounts].
    assert (is_Some (delete (id', owner) (owners l) !! (id, o))) as Hd.
    { rewrite lookup_delete_ne by (intros [= -> ->]; by apply Hne). done. }
    split; [done|]. intros Hz ->. rewrite length_zero_iff in Hz. apply (Hz o).
    apply owners_of_elem. exact Hd. }
  apply Hk. destruct (Z.eqb_spec n 0) as [Hz|_].
  2:{ exists l1. split_and!; simpl; rewrite ?Es2; done. }
  specialize (Hn Hz). cbn [set_ledger sv_store]. rewrite Es2.
  pose proof (delete_get_other (sv_store srv) id' id (proj1 Hok) Hn) as Hg.
  pose proof (delete_result (sv_store srv) id' (proj1 Hok)) as Hr.
  assert (is_Some (owners (DropRecord id' l1) !! (id, o))) as Hdrop.
  { assert (wf l1) as Hwf1.
    { destruct Hok as [_ Hb]. rewrite El in Hb. pose proof (wf_RemoveOwner id' owner l (proj1 Hb)) as H. by rewrite Erm in H. }
    destruct Ho1 as [r Hr1]. exists r. apply drop_owners; [done|]. split; [done|]. by apply not_eq_sym. }
  destruct (Delete id' (sv_store srv)) as [s1 r1]. cbn [fst snd] in *. subst r1.
  destruct (is_ok (Get id' (sv_store srv))); [|rewrite decide_True by done]; by exists (DropRecord id' l1).
Qed.

Lemma renew_keeps_claim po c input srv l id o :
  sv_ledger srv = Some l → is_Some (owners l !! (id, o)) →
  keeps_claim id o srv (handleRenew err_msg po c input srv).1.
Proof.
  intros El Ho. unfold handleRenew. destruct (read_signed input) as [[[id' token] rest]|]; [|by eapply same_keeps_claim].
  pose proof (check_token_same c opRenew id' token srv) as H1.
  destruct (check_token c opRenew id' token srv) as [srv1 [owner|e]]; simpl in H1; [|by eapply same_keeps_claim].
  destruct H1 as [Es El1]. rewrite El1, El.
  assert (is_Some (owners (RenewLease (po_opts po) id' owner (cn_now c) l).1 !! (id, o))) as Hr.
  { unfold RenewLease. repeat case_match; simpl; try done. rewrite lookup_insert. case_decide; eauto. }
  destruct (RenewLease _ _ _ _ _) as [l1 r1]. exists l1. by split_and!; simpl; rewrite ?Es.
Qed.

Lemma revoke_keeps_claim c input srv l id o :
  sv_ledger srv = Some l → is_Some (owners l !! (id, o)) →
  keeps_claim id o srv (handleRevokeGrant err_msg c input srv).1.
Proof.
  intros El Ho. unfold handleRevokeGrant. destruct (_ ≫= _) as [[nonce token]|]; [|by eapply same_keeps_claim].
  pose proof (check_token_same c opRevokeGrant zeroID token srv) as H1.
  destruct (check_token c opRevokeGrant zeroID token srv) as [srv1 [owner|e]]; simpl in H1; [|by eapply same_keeps_claim].
  destruct H1 as [Es El1]. rewrite El1, El.
  exists (RevokeGrant nonce owner (cn_now c) l). split_and!; simpl; rewrite ?Es; try done.
  unfold RevokeGrant. by repeat case_match.
Qed.
End node.

(** ** Properties *)

Section claims.
Context `{Hsha : Sha256} `{Hed : Ed25519} `{Har : Argon2}.
Context {S : Type} `{Hst : !Store S} {ok : S → Prop} `{Hlaws : !StoreLaws S ok}.
Context `{Hls : !Lister S} `{Hll : !ListerLaws S ok}.
Context (err_msg : net_err → bytes).
Implicit Types (srv : Server S).

(** [C1] Durability: in every state a node reaches by serving requests, probes
    and collection cycles one at a time, from a state that satisfies the
    invariant, every claim recorded in the ledger is backed by a blob in the
    store that hashes to its address and has the size the ledger charges; and
    the accounts balance. *)
Theorem node_durable (srv srv' : Server S) :
  node_ok (ok := ok) srv → rtc (node_step err_msg) srv srv' →
  node_ok (ok := ok) srv' ∧
  ∀ l id o r, sv_ledger srv' = Some l → owners l !! (id, o) = Some r →
    ∃ d row, Get id (sv_store srv') = Ok d ∧ HashOf d = id ∧
      shards l !! id = Some row ∧ size row = Z.of_nat (length d).
Proof.
  intros Hok Hsteps. assert (node_ok (ok := ok) srv') as Hok'.
  { clear -Hok Hsteps Hlaws Hll. induction Hsteps as [|a b c Hs _ IH]; [done|]. apply IH.
    by eapply node_step_ok. }
  split; [done|]. intros l id o r El Hr. destruct Hok' as [Hs Hb]. rewrite El in Hb. destruct Hb as [Hwf Hb].
  destruct (wf_fk _ Hwf _ _ _ Hr) as [row Hrow]. destruct (Hb id row Hrow) as (d & Hd & Hsz).
  exists d, row. split_and!; try done. by eapply get_sound.
Qed.

(** How a PUT was authorized. *)
Definition put_authorized (po : policy) (c : conn) (p : PutFrame) (srv : Server S) (owner : bytes) : Prop :=
  let id := HashOf (pf_data p) in
  (pf_token p ≠ [] ∧ verifyToken (pf_token p) opPut id (cn_self c) (cn_now c) = Ok owner ∧
     (seen (token_sig (pf_token p)) (cn_now c) (sv_cache srv)).2 = false ∧
     enforcePoW po owner = true ∧ (owner_allow owner (cn_now c) (sv_limiter srv)).2 = true) ∨
  (pf_token p = [] ∧ ∃ d, UnmarshalDescriptor (pf_stripe p) = Ok d ∧
     VerifyGrant (pf_grant p) d (cn_now c) = Ok owner ∧ id ∈ d_Shards d).

(** [C4] PUT on a node with a ledger: either it answers OK with the address of
    the bytes, and then the write was authorized by a fresh, valid owner token
    that passed proof of work and the rate limit, or by a valid grant that
    names this shard and, if its nonce was revoked, was refused; the owner's
    claim is in the ledger and the bytes read back; or it answers otherwise
    and the ledger is unchanged. *)
Theorem put_outcomes (po : policy) (c : conn) (input : bytes) (srv : Server S) (l : Ledger) :
  node_ok (ok := ok) srv → sv_ledger srv = Some l → put_no_collision input srv →
  let '(srv', rep) := handlePut err_msg po c input srv in
  (∃ p rest owner l', read_put input = Ok (p, rest) ∧ rep = replyOK (writeID (HashOf (pf_data p))) ∧
     put_authorized po c p srv owner ∧
     (∀ g nonce, put_grant c p (HashOf (pf_data p)) = Some g → GrantNonce (pf_grant p) = Ok nonce →
        IsGrantRevoked nonce l = false) ∧
     sv_ledger srv' = Some l' ∧ is_Some (owners l' !! (HashOf (pf_data p), owner)) ∧
     Get (HashOf (pf_data p)) (sv_store srv') = Ok (pf_data p)) ∨
  ((∀ b, rep ≠ replyOK b) ∧ sv_ledger srv' = Some l).
Proof.
  intros Hok El Hnc. unfold handlePut. destruct (negb (po_slot po)); [by right|].
  destruct (read_put input) as [[p rest]|] eqn:Er; [|by right].
  set (id := HashOf (pf_data p)). set (g := put_grant c p id).
  destruct (grant_revoked p g srv) eqn:Erev; [by right|]. rewrite El.
  pose proof (authorize_put_same po c p id g srv) as Hsame.
  destruct (authorize_put po c p id g srv) as [srv1 [owner|e]] eqn:Ea; simpl in Hsame.
  2:{ right. destruct Hsame as [_ ->]. split; [|done].
      unfold authorize_put in Ea. destruct (pf_token p) as [|b t]; [destruct g as [[? ?]|]; by simplify_eq|].
      unfold check_token in Ea. destruct (verifyToken _ _ _ _ _) as [ow|]; [|by simplify_eq].
      destruct (seen _ _ _) as [ca [|]]; [by simplify_eq|]. destruct (negb (enforcePoW po ow)); [by simplify_eq|].
      unfold check_rate in Ea. destruct (owner_allow _ _ _) as [li [|]]; by simplify_eq. }
  pose proof (record_move_same po c p g srv1) as Hsame2. destruct Hsame as [Es El1], Hsame2 as [Es2 El2].
  destruct (commit_put_spec (ok := ok) err_msg po c p owner g (record_move po c p g srv1) l) as (_ & l' & El' & Hres).
  { congruence. } { apply (same_data_ok srv); [|done]. split; congruence. } { rewrite Es2, Es. by eapply Hnc. }
  fold id in El', Hres. destruct (commit_put err_msg po c p id (Some owner) g (record_move po c p g srv1)) as [srv2 rep].
  cbn [fst snd] in *. destruct Hres as [(-> & Hown & Hget)|(-> & -> & _)]; [|by right].
  left. exists p, rest, owner, l'. split_and!; try done.
  - unfold authorize_put in Ea. unfold put_authorized. fold id. destruct (pf_token p) as [|b t] eqn:Et.
    + right. split; [done|]. destruct g as [[d o]|] eqn:Eg; [|by simplify_eq].
      unfold g, put_grant in Eg. destruct (pf_stripe p) as [|]; [done|]. destruct (pf_grant p) as [|]; [done|].
      destruct (UnmarshalDescriptor _) as [d'|]; [|done]. destruct (VerifyGrant _ _ _) as [o'|] eqn:Ev; [|done].
      destruct (Contains d' id) eqn:Econ; [|done]. simplify_eq. exists d. split_and!; [done|done|].
      by apply bool_decide_eq_true in Econ.
    + left. split; [done|]. unfold check_token in Ea.
      destruct (verifyToken (b :: t) opPut id (cn_self c) (cn_now c)) as [ow|] eqn:Ev; [|by simplify_eq].
      destruct (seen (token_sig (b :: t)) (cn_now c) (sv_cache srv)) as [ca [|]] eqn:Ese; [by simplify_eq|].
      destruct (enforcePoW po ow) eqn:Epow; cbn [negb] in Ea; [|by simplify_eq].
      unfold check_rate in Ea. cbn [set_cache sv_limiter] in Ea.
      destruct (owner_allow ow (cn_now c) (sv_limiter srv)) as [li [|]] eqn:Eal; [|by simplify_eq].
      injection Ea as _ <-. rewrite Eal. done.
  - intros g' nonce Eg En. unfold grant_revoked in Erev. change (g = Some g') in Eg. by rewrite Eg, En, El in Erev.
Qed.

(** [C3] Only its owner removes a claim: whatever bytes are sent to a node on
    the shard protocol, a claim (shard, owner) present before is present after,
    unless the request is a DELETE of that very shard with a token that
    verifies as that owner's; and every blob that still has a claim keeps
    reading the same. *)
Theorem claims_removed_by_owner_only (po : policy) (c : conn) (input : bytes) (srv : Server S) (l : Ledger)
    (id : ShardID) (o : Owner) :
  node_ok (ok := ok) srv → sv_ledger srv = Some l →
  (∀ rest, input = op_byte opPut :: rest → put_no_collision rest srv) →
  is_Some (owners l !! (id, o)) →
  ∃ l', sv_ledger (handleShard err_msg po c input srv).1 = Some l' ∧
    ((is_Some (owners l' !! (id, o)) ∧
      Get id (sv_store (handleShard err_msg po c input srv).1) = Get id (sv_store srv)) ∨
     ∃ rest token tail, input = op_byte opDelete :: rest ∧ read_signed rest = Ok (id, token, tail) ∧
       verifyToken token opDelete id (cn_self c) (cn_now c) = Ok o).
Proof.
  intros Hok El Hnc Hown. unfold handleShard. destruct (subnet_allow _ _ _) as [sl b]. destruct b; cbn [negb].
  2:{ exists l. split; [done|]. by left. }
  unfold dispatch. destruct input as [|b rest]; cbn [readByte]; [exists l; split; [done|by left]|].
  assert (∀ srv', same_data srv srv' → ∃ l', sv_ledger srv' = Some l' ∧
    (is_Some (owners l' !! (id, o)) ∧ Get id (sv_store srv') = Get id (sv_store srv))) as Hsame.
  { intros srv' [Es El']. exists l. split; [congruence|]. by rewrite Es. }
  destruct (op_of_byte b) as [[]|] eqn:Eo.
  - assert (b = op_byte opPut) as -> by (by destruct b).
    destruct (put_keeps_claim (ok := ok) err_msg po c rest (set_subnet sl srv) l id o) as (l' & E' & H'); [done|done|by apply Hnc|done|].
    exists l'. split; [done|]. by left.
  - unfold handleGet. destruct (readID rest) as [[i ?]|]; [destruct (Get i _)|]; destruct (Hsame (set_subnet sl srv)) as (l' & ? & ?); try done; exists l'; auto.
  - unfold handleHas. destruct (readID rest) as [[i ?]|]; [destruct (Has i _)|]; destruct (Hsame (set_subnet sl srv)) as (l' & ? & ?); try done; exists l'; auto.
  - assert (b = op_byte opDelete) as -> by (by destruct b).
    destruct (delete_keeps_claim (ok := ok) err_msg c rest (set_subnet sl srv) l id o) as (l' & E' & H'); [done|done|done|].
    exists l'. split; [done|]. destruct H' as [H'|(token & tail & H1 & H2)]; [by left|right]. by exists rest, token, tail.
  - destruct (renew_keeps_claim err_msg po c rest (set_subnet sl srv) l id o) as (l' & E' & H'); [done|done|].
    exists l'. split; [done|]. by left.
  - destruct (revoke_keeps_claim err_msg c rest (set_subnet sl srv) l id o) as (l' & E' & H'); [done|done|].
    exists l'. split; [done|]. by left.
  - destruct (Hsame (set_subnet sl srv)) as (l' & ? & ?); [done|]. exists l'. auto.
Qed.

(** What one cycle removes and what it leaves. *)
Lemma runGC_effect (now : Z) (ex : bool) (prev : list ShardID) (s : S) (l : Ledger) :
  ok s → backed s l →
  let '(ids, s', l') := runGC now ex prev s l in
  ids = Collectible now ex l ∧ ok s' ∧ backed s' l' ∧
  ∀ id, if decide (id ∈ ids ∧ id ∈ prev)
        then Get id s' = Err ErrNotFound ∧ shards l' !! id = None ∧ ∀ o, owners l' !! (id, o) = None
        else Get id s' = Get id s ∧ shards l' !! id = shards l !! id ∧
             ∀ o, owners l' !! (id, o) = owners l !! (id, o).
Proof.
  intros Hok Hb. unfold runGC. pose proof (collect_loop_spec now ex prev (Collectible now ex l) s l 0 Hok Hb) as H.
  pose proof (λ id, collect_loop_gone now ex prev id (Collectible now ex l) s l 0 Hok Hb) as Hgone.
  destruct (collect_loop now ex prev (Collectible now ex l) s l 0) as [[s1 l1] n]. destruct H as (H1 & H2 & _ & H4).
  destruct (list_exact s1 H1) as (disk & -> & Hdisk). pose proof (reconcile_backed_id s1 l1 disk H2 Hdisk) as Hrec.
  split; [done|]. split; [done|]. split; [by apply backed_reconcile|]. intros id.
  destruct (Hrec id) as [Es Eo]. rewrite Es. case_decide as Hd.
  - destruct Hd as [Hin Hp]. pose proof Hin as Hin2.
    unfold Collectible in Hin2. rewrite elem_of_List_filter, elem_of_shards, negb_true_iff in Hin2.
    destruct (Hgone id Hin Hp) as [Hn Hg]; [apply Hin2..|]. split; [done|]. split; [done|]. intros o. rewrite Eo.
    destruct (owners l1 !! (id, o)) as [r|] eqn:E; [|done]. destruct (wf_fk _ (proj1 H2) _ _ _ E) as [r' Er]. congruence.
  - destruct (H4 id) as (Hg & Hs & Ho); [destruct (decide (id ∈ prev)); [right; tauto|by left]|].
    split; [done|]. split; [done|]. intros o. by rewrite Eo.
Qed.

(** [C5] A collection cycle removes exactly the shards that are collectible now
    and were collectible at the previous cycle: their blob, record and claims
    go; every other shard keeps its blob, record and claims as they were (so a
    shard with a live claim, or one that became collectible only since the
    last cycle, is never touched), and the invariant holds after it. The
    result is the baseline of the next cycle. *)
Theorem gc_cycle (now : Z) (ex : bool) (prev : list ShardID) (s : S) (l : Ledger) :
  ok s → backed s l →
  let '(ids, s', l') := runGC now ex prev s l in
  ids = Collectible now ex l ∧ ok s' ∧ backed s' l' ∧
  ∀ id, if decide (id ∈ ids ∧ id ∈ prev)
        then Get id s' = Err ErrNotFound ∧ shards l' !! id = None ∧ ∀ o, owners l' !! (id, o) = None
        else Get id s' = Get id s ∧ shards l' !! id = shards l !! id ∧
             ∀ o, owners l' !! (id, o) = owners l !! (id, o).
Proof. exact (runGC_effect now ex prev s l). Qed.
End claims.

(** ** A node with one owner, to evaluate the model *)

Section examples.
#[local] Existing Instances pad_sha toy_ed toy_argon.

Definition ex_policy : policy :=
  mkPolicy (mkOptions 0 Minute 0 (F64.of_Z 1)) DefaultArgon2id 0 false true true.
Definition ex_conn (now : Z) : conn := mkConn [Byte.x01] [Byte.x02] None now.
Definition no_msg (_ : net_err) : bytes := [].
Definition ex_key : bytes := [Byte.x09].
Definition ex_owner : bytes := Public ex_key.
Definition ex_data : bytes := [Byte.x61; Byte.x62].
Definition ex_id : ShardID := HashOf ex_data.

Definition ex_server : Server Mem.MemStore :=
  mkServer Mem.NewMemStore (Some empty_ledger) newAuthCache None None [] [].

Definition frame_of (r : result wire_err bytes) : bytes := match r with Ok b => b | Err _ => [] end.

(** The PUT of "ab" by the key [ex_key] at second 1000, and the DELETE at 1001. *)
Definition ex_put : bytes :=
  frame_of (putRaw_frame (mkPut ex_data (buildToken ex_key opPut ex_id [Byte.x01] 1000) [] [] Byte.x00)).
Definition ex_delete : bytes :=
  frame_of (signed_frame opDelete ex_id (buildToken ex_key opDelete ex_id [Byte.x01] 1001)).

Definition ex_served : Server Mem.MemStore :=
  (handleShard no_msg ex_policy (ex_conn (1000 * Second)) ex_put ex_server).1.

Lemma ex_server_ok : node_ok (ok := Mem.wf) ex_server.
Proof.
  split; [apply Mem.wf_new|]. split; [apply wf_empty|]. intros id r. simpl. by rewrite lookup_empty.
Qed.

Lemma ex_no_collision input : put_no_collision input ex_server.
Proof. intros p rest _ d. simpl. unfold Mem.get. simpl. by rewrite lookup_empty. Qed.

Lemma ex_step : node_step no_msg ex_server ex_served.
Proof. apply step_request. intros rest _. apply ex_no_collision. Qed.

Lemma ex_served_ok : node_ok (ok := Mem.wf) ex_served.
Proof. eapply node_step_ok; [apply ex_step|apply ex_server_ok]. Qed.

Definition ex_ledger : Ledger := from_option id empty_ledger (sv_ledger ex_served).

Lemma node_durable_witness : ∃ d, Get ex_id (sv_store ex_served) = Ok d ∧ HashOf d = ex_id.
Proof.
  destruct (node_durable (ok := Mem.wf) no_msg ex_server ex_served ex_server_ok (rtc_once _ _ ex_step)) as [_ H].
  destruct (H ex_ledger ex_id ex_owner (mkOwner 1000 1060)) as (d & row & Hd & Hh & _).
  - vm_compute. reflexivity.
  - vm_compute. reflexivity.
  - exists d. split; [exact Hd|exact Hh].
Defined.

(** The PUT of [ex_put] is answered OK and the bytes read back. *)
Lemma put_outcomes_witness :
  Get ex_id (sv_store (handlePut no_msg ex_policy (ex_conn (1000 * Second)) (tl ex_put) ex_server).1) = Ok ex_data.
Proof.
  pose proof (put_outcomes (ok := Mem.wf) no_msg ex_policy (ex_conn (1000 * Second)) (tl ex_put) ex_server
    empty_ledger ex_server_ok eq_refl (ex_no_collision _)) as H.
  destruct (handlePut no_msg ex_policy (ex_conn (1000 * Second)) (tl ex_put) ex_server) as [srv' rep] eqn:E.
  destruct H as [(p & rest & owner & l' & Hr & _ & _ & _ & _ & _ & Hg)|[Hno _]].
  - assert (pf_data p = ex_data) as Ep.
    { apply (f_equal (λ r, match r with Ok (p, _) => pf_data p | Err _ => [] end)) in Hr.
      rewrite <-Hr. vm_compute. reflexivity. }
    rewrite Ep in Hg. exact Hg.
  - exfalso. apply (Hno (writeID ex_id)). transitivity (srv', rep).2; [reflexivity|]. rewrite <-E. vm_compute. reflexivity.
Defined.

(** The owner's own DELETE, after the PUT. *)
Lemma claims_removed_by_owner_only_witness :
  ∃ l', sv_ledger (handleShard no_msg ex_policy (ex_conn (1001 * Second)) ex_delete ex_served).1 = Some l' ∧
    ((is_Some (owners l' !! (ex_id, ex_owner)) ∧
      Get ex_id (sv_store (handleShard no_msg ex_policy (ex_conn (1001 * Second)) ex_delete ex_served).1)
        = Get ex_id (sv_store ex_served)) ∨
     ∃ rest token tail, ex_delete = op_byte opDelete :: rest ∧ read_signed rest = Ok (ex_id, token, tail) ∧
       verifyToken token opDelete ex_id [Byte.x01] (1001 * Second) = Ok ex_owner).
Proof.
  apply (claims_removed_by_owner_only (ok := Mem.wf) no_msg ex_policy (ex_conn (1001 * Second)) ex_delete ex_served
    ex_ledger ex_id ex_owner ex_served_ok).
  - vm_compute. reflexivity.
  - intros rest E. exfalso. apply (f_equal hd_error) in E. vm_compute in E. discriminate E.
  - vm_compute. eexists. reflexivity.
Defined.

Lemma ex_served_backed : Mem.wf (sv_store ex_served) ∧ backed (sv_store ex_served) ex_ledger.
Proof.
  destruct ex_served_ok as [Hok Hb]. assert (sv_ledger ex_served = Some ex_ledger) as E by (vm_compute; reflexivity).
  rewrite E in Hb. by split.
Qed.

(** The one-minute lease of [ex_served] has run out: the shard goes at the
    second cycle that finds it collectible. *)
Lemma gc_cycle_witness :
  Get ex_id (runGC (2000 * Second) true [ex_id] (sv_store ex_served) ex_ledger).1.2 = Err ErrNotFound ∧
  Get ex_id (runGC (2000 * Second) true [] (sv_store ex_served) ex_ledger).1.2 = Ok ex_data.
Proof.
  pose proof (gc_cycle (ok := Mem.wf) (2000 * Second) true [ex_id] _ _ (proj1 ex_served_backed) (proj2 ex_served_backed)) as H1.
  pose proof (gc_cycle (ok := Mem.wf) (2000 * Second) true [] _ _ (proj1 ex_served_backed) (proj2 ex_served_backed)) as H2.
  destruct (runGC (2000 * Second) true [ex_id] _ _) as [[ids1 s1] l1].
  destruct (runGC (2000 * Second) true [] _ _) as [[ids2 s2] l2]. cbn [fst snd].
  destruct H1 as (-> & _ & _ & H1). destruct H2 as (-> & _ & _ & H2). specialize (H1 ex_id). specialize (H2 ex_id).
  rewrite decide_True in H1 by (split; [refine (proj1 (bool_decide_eq_true _) _); vm_compute; reflexivity|apply list_elem_of_singleton; reflexivity]).
  rewrite decide_False in H2 by (intros [_ Hx]; by apply elem_of_nil in Hx).
  split; [apply H1|]. rewrite (proj1 H2). vm_compute. reflexivity.
Defined.
End examples.
