(* ===== verification/Client.v ===== *)
(** * internal/net/client.go: NetStore, a store on a remote node

    A [Peer] is the other end of the network: it may refuse a stream, and it
    answers the bytes of one request with the bytes of one reply or a reset
    stream. It can be anything; [node_peer] is the peer that runs the handlers of
    [Server]. Every call of a NetStore opens one stream, writes its frame, and
    reads the reply. The client's clock is [clk]. *)

From S2P Require Import Prelude GoLib Store Crypto Stripe Ledger RateLimit Wire Server Node.

Inductive client_err :=
| CNotFound | CCorrupt | CUnauthorized | CQuotaExceeded | CRateLimited | CRemote (msg : bytes)
| CUnknownStatus (b : byte)
| COpen                    (* open stream *)
| CRead (e : wire_err)     (* the reply is cut short or too large *)
| CWrite (e : wire_err)    (* the request is too large *)
| CWrongID (id : ShardID)  (* node returned id ..., want ... *)
| CNonceSize
| CStripe (e : stripe_err).

(** [statusToErr] of proto.go, on the raw status byte. *)
Definition statusToErr (b : byte) (msg : bytes) : result client_err unit :=
  match status_of_byte b with
  | Some statusOK => Ok tt
  | Some statusNotFound => Err CNotFound
  | Some statusCorrupt => Err CCorrupt
  | Some statusUnauthorized => Err CUnauthorized
  | Some statusQuotaExceeded => Err CQuotaExceeded
  | Some statusRateLimited => Err CRateLimited
  | Some statusError => Err (CRemote msg)
  | None => Err (CUnknownStatus b)
  end.

Definition reading {A} (r : result wire_err A) : result client_err A := map_err CRead r.

(** The status, and the bytes that follow it. *)
Definition readResp (s : bytes) : result client_err bytes :=
  '(st, s) ← reading (readByte s);
  if bool_decide (st = status_byte statusError) then
    '(msg, s) ← reading (readBlob MaxShardSize s); _ ← statusToErr (status_byte statusError) msg; Ok s
  else
    _ ← statusToErr st []; Ok s.

Record Peer (W : Type) := mkPeer {
  dials : W → bool;
  on_shard : bytes → W → W * reply;
  on_probe : bytes → W → W * reply;
}.
Arguments mkPeer {W} _ _ _. Arguments dials {W} _ _.
Arguments on_shard {W} _ _ _. Arguments on_probe {W} _ _ _.

Record NetStore := mkNet { ns_peer : bytes; ns_signer : option bytes; ns_grantExpiry : Z }.

Definition NewNetStore (p : bytes) : NetStore := mkNet p None 0.
Definition NewNetStoreSigned (p signer : bytes) : NetStore := mkNet p (Some signer) 0.

(** The writes of a request, up to the first one that fails. *)
Fixpoint write_all (ws : list (result wire_err bytes)) : bytes * option wire_err :=
  match ws with
  | [] => ([], None)
  | Err e :: _ => ([], Some e)
  | Ok b :: ws => let '(rest, e) := write_all ws in (b ++ rest, e)
  end.

Section client.
Context `{Hsha : Sha256} `{Hed : Ed25519} {W : Type} (p : Peer W).
Implicit Types (n : NetStore) (w : W).

(** Open a stream, write the request, read the status: the state of the peer
    and the rest of the reply. *)
Definition exchange (serve : bytes → W → W * reply) (ws : list (result wire_err bytes)) w
    : W * result client_err bytes :=
  if negb (dials p w) then (w, Err COpen)
  else
    let '(req, e) := write_all ws in
    let '(w, rep) := serve req w in
    match e with
    | Some e => (w, Err (CWrite e))
    | None => (w, match rep with Reset => Err (CRead WShort) | Reply b => readResp b end)
    end.

Definition authToken n (clk : Z) (o : op) (id : ShardID) : bytes :=
  match ns_signer n with
  | None => []
  | Some k => buildToken k o id (ns_peer n) (Unix clk)
  end.

Definition putRaw (data token stripeBytes grant : bytes) (reason : byte) w : W * result client_err ShardID :=
  let '(w, r) := exchange (on_shard p)
    [Ok (writeByte (op_byte opPut)); writeBlob data; writeBlob token; writeBlob stripeBytes; writeBlob grant;
     Ok (writeByte reason)] w in
  (w, s ← r;
      '(id, _) ← reading (readID s);
      if decide (id = HashOf data) then Ok id else Err (CWrongID id)).

Definition put n (clk : Z) (data : bytes) w : W * result client_err ShardID :=
  putRaw data (authToken n clk opPut (HashOf data)) [] [] ReasonClient w.

(** [nonce] is what rand.Read gives [BuildGrant]. *)
Definition PutStripe n (clk : Z) (nonce : option bytes) (data : bytes) (d : Descriptor) w
    : W * result client_err ShardID :=
  match ns_signer n with
  | None => put n clk data w
  | Some k =>
      match map_err CStripe (MarshalBinary d) with
      | Err e => (w, Err e)
      | Ok stripeBytes =>
          match map_err CStripe (BuildGrant nonce k d (ns_grantExpiry n)) with
          | Err e => (w, Err e)
          | Ok grant => putRaw data (authToken n clk opPut (HashOf data)) stripeBytes grant ReasonClient w
          end
      end
  end.

Definition putGrant (data : bytes) (d : Descriptor) (grant : bytes) (reason : byte) w
    : W * result client_err ShardID :=
  match map_err CStripe (MarshalBinary d) with
  | Err e => (w, Err e)
  | Ok stripeBytes => putRaw data [] stripeBytes grant reason w
  end.

Definition get (id : ShardID) w : W * result client_err bytes :=
  let '(w, r) := exchange (on_shard p) [Ok (writeByte (op_byte opGet)); Ok (writeID id)] w in
  (w, s ← r;
      '(data, _) ← reading (readBlob MaxShardSize s);
      if decide (HashOf data = id) then Ok data else Err CCorrupt).

Definition has (id : ShardID) w : W * result client_err bool :=
  let '(w, r) := exchange (on_shard p) [Ok (writeByte (op_byte opHas)); Ok (writeID id)] w in
  (w, s ← r; '(present, _) ← reading (readByte s); Ok (bool_decide (present ≠ Byte.x00))).

Definition delete n (clk : Z) (id : ShardID) w : W * result client_err unit :=
  let '(w, r) := exchange (on_shard p)
    [Ok (writeByte (op_byte opDelete)); Ok (writeID id); writeBlob (authToken n clk opDelete id)] w in
  (w, _ ← r; Ok tt).

Definition Renew n (clk : Z) (id : ShardID) w : W * result client_err unit :=
  let '(w, r) := exchange (on_shard p)
    [Ok (writeByte (op_byte opRenew)); Ok (writeID id); writeBlob (authToken n clk opRenew id)] w in
  (w, _ ← r; Ok tt).

Definition Probe (id : ShardID) (want nonce : bytes) w : W * result client_err bool :=
  if decide (length nonce ≠ ProbeNonceSize) then (w, Err CNonceSize)
  else
    let '(w, r) := exchange (on_probe p) [Ok (writeID id); Ok nonce] w in
    (w, s ← r; '(got, _) ← reading (readFull 32 s); Ok (bool_decide (got = Sum256 (nonce ++ want)))).

Definition revokeGrant n (clk : Z) (nonce : bytes) w : W * result client_err unit :=
  if decide (length nonce ≠ 8%nat) then (w, Err CNonceSize)
  else
    let '(w, r) := exchange (on_shard p)
      [Ok (writeByte (op_byte opRevokeGrant)); Ok nonce; writeBlob (authToken n clk opRevokeGrant zeroID)] w in
    (w, _ ← r; Ok tt).
End client.

(** The peer that runs the handlers of a node, at the node's clock [now]. *)
Definition node_peer `{Sha256, Ed25519, Argon2} {S : Type} `{!Store S} (err_msg : net_err → bytes)
    (po : policy) (c : conn) : Peer (Server S) :=
  mkPeer (λ _, true) (handleShard err_msg po c) (handleProbe err_msg c).

(** ** Lemmas *)

Lemma readResp_ok b : readResp (writeByte (status_byte statusOK) ++ b) = Ok b.
Proof. done. Qed.

Section lemmas.
Context `{Hsha : Sha256} `{Hed : Ed25519} `{Har : Argon2}.
Context {S : Type} `{Hst : !Store S} {ok : S → Prop} `{Hlaws : !StoreLaws S ok}.
Context (err_msg : net_err → bytes) (po : policy) (c : conn).
Implicit Types (n : NetStore) (srv : Server S).
Abbreviation peer := (node_peer (S := S) err_msg po c).

Lemma length_authToken n clk o id : Z.of_nat (length (authToken n clk o id)) ≤ Z.of_nat authTokenSize.
Proof. unfold authToken. destruct (ns_signer n); [rewrite length_built|simpl]; lia. Qed.

Lemma set_subnet_none srv : sv_subnet srv = None → set_subnet None srv = srv.
Proof. destruct srv. simpl. by intros ->. Qed.

(** A request whose frame is [op :: body]. *)
Lemma exchange_node o ws body srv :
  write_all ws = (op_byte o :: body, None) → sv_subnet srv = None →
  exchange peer (on_shard peer) ws srv =
    let '(srv', rep) := dispatch err_msg po c (op_byte o :: body) srv in
    (srv', match rep with Reset => Err (CRead WShort) | Reply b => readResp b end).
Proof.
  intros Ew Hsub. unfold exchange. cbn [dials node_peer negb]. rewrite Ew. cbn [on_shard node_peer].
  unfold handleShard. rewrite Hsub. cbn [subnet_allow negb]. rewrite set_subnet_none by done.
  by destruct (dispatch err_msg po c (op_byte o :: body) srv) as [srv' []].
Qed.

(** A PUT within the limits reaches the handler as it was written. *)
Lemma putRaw_exchange f srv :
  put_fits f → sv_subnet srv = None →
  ∃ body, read_put body = Ok (f, []) ∧
    putRaw peer (pf_data f) (pf_token f) (pf_stripe f) (pf_grant f) (pf_reason f) srv =
    let '(srv', rep) := handlePut err_msg po c body srv in
    (srv', s ← match rep with Reset => Err (CRead WShort) | Reply b => readResp b end;
           '(id, _) ← reading (readID s); if decide (id = HashOf (pf_data f)) then Ok id else Err (CWrongID id)).
Proof.
  intros Hf Hsub. destruct (put_frame_read f [] Hf) as (body & Efr & Erd). rewrite app_nil_r in Erd.
  exists body. split; [done|]. unfold putRaw. rewrite (exchange_node opPut _ body); [|clear Erd|done].
  - unfold dispatch. cbn [readByte]. rewrite op_of_op_byte. by destruct (handlePut err_msg po c body srv) as [srv' []].
  - unfold putRaw_frame in Efr. apply bind_Ok in Efr as (d & -> & Efr). apply bind_Ok in Efr as (t & -> & Efr).
    apply bind_Ok in Efr as (st & -> & Efr). apply bind_Ok in Efr as (g & -> & Efr). apply (inj Ok) in Efr.
    cbn [write_all]. rewrite <-Efr. by rewrite app_nil_r.
Qed.

Lemma write_signed o id n clk : is_id id →
  ∃ t, write_all [Ok (writeByte (op_byte o)); Ok (writeID id); writeBlob (authToken n clk o id)]
         = (op_byte o :: id ++ t, None) ∧ read_signed (id ++ t) = Ok (id, authToken n clk o id, []).
Proof.
  intros Hid. destruct (signed_read id (authToken n clk o id) [] Hid (length_authToken n clk o id)) as (t & Et & Er).
  rewrite app_nil_r in Er. exists t. split; [|done]. cbn [write_all]. rewrite Et. cbn [app writeByte writeID].
  by rewrite app_nil_r.
Qed.

(** A PUT with a good token reaches the store. *)
Lemma handlePut_signed data k ts body srv l :
  let id := HashOf data in
  let token := buildToken k opPut id (cn_self c) ts in
  let f := mkPut data token [] [] ReasonClient in
  po_slot po = true → read_put body = Ok (f, []) → sv_ledger srv = Some l → in_i64 ts →
  Z.abs (cn_now c - FromUnix ts) ≤ tokenSkew → entries (sv_cache srv) !! token_sig token = None →
  enforcePoW po (Public k) = true → (owner_allow (Public k) (cn_now c) (sv_limiter srv)).2 = true →
  handlePut err_msg po c body srv =
    commit_put err_msg po c f id (Some (Public k)) None
      (record_move po c f None
        (set_limiter (owner_allow (Public k) (cn_now c) (sv_limiter srv)).1
          (set_cache (seen (token_sig token) (cn_now c) (sv_cache srv)).1 srv))).
Proof.
  intros id token f Hslot Er El Hts Hskew Hcache Hpow Hrate.
  pose proof (length_built k opPut id (cn_self c) ts) as Hlen.
  pose proof (verify_built k opPut id (cn_self c) ts (cn_now c) Hts Hskew) as Hv.
  pose proof (seen_absent (token_sig token) (cn_now c) (sv_cache srv) Hcache) as Hs.
  unfold handlePut. rewrite Hslot. cbn [negb]. rewrite Er, El. unfold f. cbn [pf_data put_grant pf_stripe grant_revoked].
  unfold authorize_put. cbn [pf_token]. fold id. fold token in Hlen, Hv. clearbody token.
  destruct token as [|b t]; [done|]. unfold check_token. rewrite Hv.
  destruct (seen (token_sig (b :: t)) (cn_now c) (sv_cache srv)) as [ca b0]. cbn [fst snd] in *. subst b0.
  rewrite Hpow. cbn [negb]. unfold check_rate. cbn [set_cache sv_limiter].
  by destruct (owner_allow (Public k) (cn_now c) (sv_limiter srv)) as [li [|]].
Qed.

(** *** Without a ledger the node is a plain remote store *)

Definition open_node srv : Prop :=
  po_slot po = true ∧ sv_ledger srv = None ∧ sv_subnet srv = None ∧ ok (sv_store srv) ∧
  ∀ id d, Get id (sv_store srv) = Ok d → Z.of_nat (length d) ≤ MaxShardSize.

(** How the client sees an error of the node's store. *)
Definition seen_as (e : store_err) : client_err :=
  match e with ErrNotFound => CNotFound | ErrCorrupt => CCorrupt | e => CRemote (err_msg (NStore e)) end.

Lemma reply_not_found : replyErr err_msg (NStore ErrNotFound) = Reply [status_byte statusNotFound].
Proof. done. Qed.

Lemma put_transparent n clk data srv :
  open_node srv → Z.of_nat (length data) ≤ MaxShardSize →
  let '(srv', r) := put peer n clk data srv in
  open_node srv' ∧ sv_store srv' = (Put data (sv_store srv)).1 ∧ r = map_err seen_as (Put data (sv_store srv)).2.
Proof.
  intros (Hslot & Hl & Hsub & Hok & Hsmall) Hd.
  destruct (putRaw_exchange (mkPut data (authToken n clk opPut (HashOf data)) [] [] ReasonClient) srv)
    as (body & Er & Ep); [|done|].
  { split; [done|]. split; [apply length_authToken|]. split; simpl; unfold maxStripeBlob; lia. }
  cbn [pf_data pf_token pf_stripe pf_grant pf_reason] in Ep. unfold put. rewrite Ep. unfold handlePut.
  rewrite Hslot. cbn [negb]. rewrite Er, Hl. cbn [pf_data put_grant pf_stripe grant_revoked].
  unfold commit_put. cbn [pf_data]. destruct (put_result (sv_store srv) data Hok) as [Epr Hok1].
  pose proof (put_get_same (sv_store srv) data Hok) as Hg1. pose proof (λ id, put_get_other (sv_store srv) data id Hok) as Hg2.
  destruct (Put data (sv_store srv)) as [s1 r1]. cbn [fst snd] in *. subst r1. cbn [map_err].
  match goal with |- context [announce po ?i ?x] => destruct (announce_same po i x) as [E1 E2];
    assert (sv_subnet (announce po i x) = None) as E3 by (unfold announce; by destruct (po_announcer po)) end.
  cbn [set_store sv_store sv_ledger] in E1, E2. unfold replyOK. rewrite readResp_ok. cbn [mbind result_bind].
  unfold readID, writeID. rewrite (readFull_all (HashOf data)) by apply HashOf_is_id. cbn [reading map_err mbind result_bind].
  rewrite decide_True by done. split; [|done]. split; [done|]. split; [by rewrite E2|]. split; [done|].
  rewrite E1. split; [done|]. intros id d. destruct (decide (id = HashOf data)) as [->|Hne].
  - rewrite Hg1. destruct (Get (HashOf data) (sv_store srv)) eqn:E; intros <-%(inj Ok); [by eapply Hsmall|done].
  - rewrite Hg2 by done. apply Hsmall.
Qed.

Lemma get_node id srv :
  sv_subnet srv = None → ok (sv_store srv) → is_id id →
  (∀ d, Get id (sv_store srv) = Ok d → Z.of_nat (length d) ≤ MaxShardSize) →
  get peer id srv = (srv, map_err seen_as (Get id (sv_store srv))).
Proof.
  intros Hsub Hok Hid Hs. unfold get.
  rewrite (exchange_node opGet _ id) by (done || by cbn; rewrite app_nil_r). unfold dispatch. cbn [readByte].
  rewrite op_of_op_byte. unfold handleGet, readID. rewrite readFull_all by done.
  pose proof (get_errors (sv_store srv) id) as He. pose proof (get_sound (sv_store srv) id) as Hsnd.
  destruct (Get id (sv_store srv)) as [d|e]; [|by rewrite (He e Hok eq_refl)].
  unfold replyOK. rewrite readResp_ok. cbn [mbind result_bind]. unfold blob_bytes.
  destruct (writeBlob_total d (Hs d eq_refl)) as [w Ew]. rewrite Ew. rewrite <-(app_nil_r w).
  rewrite (blob_roundtrip MaxShardSize d w []) by (done || by apply Hs). cbn [reading map_err mbind result_bind].
  by rewrite decide_True by (by apply Hsnd).
Qed.

Lemma get_transparent id srv :
  open_node srv → is_id id → get peer id srv = (srv, map_err seen_as (Get id (sv_store srv))).
Proof. intros (_ & _ & Hsub & Hok & Hsmall) Hid. apply get_node; try done. intros d. apply Hsmall. Qed.

Lemma has_transparent id srv :
  open_node srv → is_id id → has peer id srv = (srv, map_err seen_as (Has id (sv_store srv))).
Proof.
  intros (Hslot & Hl & Hsub & Hok & Hsmall) Hid. unfold has.
  rewrite (exchange_node opHas _ id) by (done || by cbn; rewrite app_nil_r). unfold dispatch. cbn [readByte].
  rewrite op_of_op_byte. unfold handleHas, readID. rewrite readFull_all by done.
  rewrite (has_get (ok := ok)) by done. by destruct (is_ok (Get id (sv_store srv))).
Qed.

Lemma delete_transparent n clk id srv :
  open_node srv → is_id id →
  let '(srv', r) := delete peer n clk id srv in
  open_node srv' ∧ sv_store srv' = (Delete id (sv_store srv)).1 ∧ r = map_err seen_as (Delete id (sv_store srv)).2.
Proof.
  intros (Hslot & Hl & Hsub & Hok & Hsmall) Hid. unfold delete.
  destruct (write_signed opDelete id n clk Hid) as (t & Ew & Er).
  rewrite (exchange_node opDelete _ (id ++ t)) by done. unfold dispatch. cbn [readByte]. rewrite op_of_op_byte.
  unfold handleDelete. rewrite Er, Hl. pose proof (delete_ok (sv_store srv) id Hok) as Hok1.
  pose proof (delete_result (sv_store srv) id Hok) as Hr. pose proof (delete_get_same (sv_store srv) id Hok) as Hg.
  pose proof (λ id', delete_get_other (sv_store srv) id id' Hok) as Hg'.
  destruct (Delete id (sv_store srv)) as [s1 r1]. cbn [fst snd] in *. split; [|split; [done|]].
  - split; [done|]. split; [done|]. split; [done|]. split; [done|]. cbn [set_store sv_store]. intros id' d.
    destruct (decide (id = id')) as [<-|Hne]; [by rewrite Hg|]. rewrite Hg' by done. apply Hsmall.
  - subst r1. by destruct (is_ok (Get id (sv_store srv))).
Qed.
End lemmas.

(** ** Runs of the store interface over the network *)

Inductive nobs :=
| NPut (r : result client_err ShardID) | NGet (r : result client_err bytes)
| NHas (r : result client_err bool) | NDelete (r : result client_err unit).

Definition view (err_msg : net_err → bytes) (o : obs) : nobs :=
  match o with
  | RPut r => NPut (map_err (seen_as err_msg) r)
  | RGet r => NGet (map_err (seen_as err_msg) r)
  | RHas r => NHas (map_err (seen_as err_msg) r)
  | RDelete r => NDelete (map_err (seen_as err_msg) r)
  end.

(** One call of a NetStore: when ([clk]), over which connection ([c]), which. *)
Record call := mkCall { call_conn : conn; call_clk : Z; call_op : Store.op }.

Definition call_fits (k : call) : Prop :=
  match call_op k with
  | OPut d => Z.of_nat (length d) ≤ MaxShardSize
  | OGet id | OHas id | ODelete id => is_id id
  end.

Section runs.
Context `{Hsha : Sha256} `{Hed : Ed25519} `{Har : Argon2} {S : Type} `{Hst : !Store S}.
Context (err_msg : net_err → bytes) (po : policy) (n : NetStore).

Definition net_step (k : call) (srv : Server S) : Server S * nobs :=
  let p := node_peer err_msg po (call_conn k) in
  match call_op k with
  | OPut d => let '(srv, r) := put p n (call_clk k) d srv in (srv, NPut r)
  | OGet id => let '(srv, r) := get p id srv in (srv, NGet r)
  | OHas id => let '(srv, r) := has p id srv in (srv, NHas r)
  | ODelete id => let '(srv, r) := delete p n (call_clk k) id srv in (srv, NDelete r)
  end.

Fixpoint net_observe (ks : list call) (srv : Server S) : list nobs :=
  match ks with
  | [] => []
  | k :: ks => let '(srv, o) := net_step k srv in o :: net_observe ks srv
  end.
End runs.

(** ** Properties *)


(** The client trusts nothing: whatever the peer is and answers, a Put that
    succeeds returns the hash of the data, a Get that succeeds returns bytes that
    hash to the address asked for, and a Probe reports possession only when the
    peer's reply is the digest of the fresh nonce followed by the very bytes the
    verifier holds. *)
Theorem client_trusts_nothing `{Sha256, Ed25519} {W : Type} (p : Peer W) (w : W) :
  (∀ data token st g reason id, (putRaw p data token st g reason w).2 = Ok id → id = HashOf data) ∧
  (∀ id d, (get p id w).2 = Ok d → HashOf d = id) ∧
  (∀ id want nonce, (Probe p id want nonce w).2 = Ok true →
     length nonce = ProbeNonceSize ∧
     ∃ rest, (on_probe p (id ++ nonce) w).2 = Reply (status_byte statusOK :: Sum256 (nonce ++ want) ++ rest)).
Proof.
  split_and!.
  - intros data token st g reason id. unfold putRaw. destruct (exchange _ _ _ _) as [w' r]. cbn [snd]. intros E.
    apply bind_Ok in E as (s & _ & E). apply bind_Ok in E as ([i s'] & _ & E). destruct (decide _); [|done].
    by apply (inj Ok) in E as <-.
  - intros id d. unfold get. destruct (exchange _ _ _ _) as [w' r]. cbn [snd]. intros E.
    apply bind_Ok in E as (s & _ & E). apply bind_Ok in E as ([x s'] & _ & E). destruct (decide _); [|done].
    by apply (inj Ok) in E as <-.
  - intros id want nonce. unfold Probe. destruct (decide _) as [|Hn]; [done|]. apply dec_stable in Hn.
    unfold exchange. destruct (dials p w); cbn [negb]; [|done]. cbn [write_all]. unfold writeID. rewrite app_nil_r.
    destruct (on_probe p (id ++ nonce) w) as [w' rep]. cbn [snd]. intros E.
    apply bind_Ok in E as (s & Es & E). apply bind_Ok in E as ([got rest] & Eg & E). apply (inj Ok) in E.
    split; [done|]. destruct rep as [|b]; [done|]. unfold readResp in Es. apply bind_Ok in Es as ([st s0] & Est & Es).
    destruct b as [|b0 b]; [done|]. cbn [readByte reading map_err] in Est. apply (inj Ok), pair_eq in Est as [<- <-].
    destruct (bool_decide (b0 = status_byte statusError)).
    { apply bind_Ok in Es as ([? ?] & _ & Es). done. }
    apply bind_Ok in Es as ([] & Est & Es). apply (inj Ok) in Es as <-.
    assert (b0 = status_byte statusOK) as -> by (by destruct b0).
    destruct (readFull 32 b) as [[x y]|] eqn:Ef; [|done]. cbn [reading map_err] in Eg.
    apply (inj Ok), pair_eq in Eg as [<- <-]. apply readFull_Ok in Ef as [-> _]. exists y.
    apply bool_decide_eq_true in E as ->. done.
Qed.

(** An owner's write is accepted and durable end to end: when a signing
    client and a node with a ledger agree on the time within five minutes, the
    token was not presented before, the key meets the node's proof of work, the
    owner is within the write rate and its quota (or already owns the shard),
    then Put over the network succeeds, the ledger holds the owner's claim, and
    any later Get over the network returns the bytes. *)
Theorem net_put_accepted `{Sha256, Ed25519, Argon2} {S : Type} `{!Store S} {ok : S → Prop} `{!StoreLaws S ok}
    (err_msg : net_err → bytes) (po : policy) (c c' : conn) (n : NetStore) (k : bytes) (clk : Z) (data : bytes)
    (srv : Server S) (l : Ledger) :
  let id := HashOf data in
  let token := buildToken k opPut id (cn_self c) (Unix clk) in
  node_ok (ok := ok) srv → sv_ledger srv = Some l → sv_subnet srv = None → po_slot po = true →
  no_collision data (sv_store srv) → Z.of_nat (length data) ≤ MaxShardSize →
  ns_signer n = Some k → ns_peer n = cn_self c → in_i64 (Unix clk) →
  Z.abs (cn_now c - FromUnix (Unix clk)) ≤ tokenSkew →
  entries (sv_cache srv) !! token_sig token = None → enforcePoW po (Public k) = true →
  (owner_allow (Public k) (cn_now c) (sv_limiter srv)).2 = true →
  (quota_refuses (po_opts po) l (Public k) (Z.of_nat (length data)) (cn_now c) = false ∨
   is_Some (owners l !! (id, Public k))) →
  let '(srv', r) := put (node_peer err_msg po c) n clk data srv in
  r = Ok id ∧ (get (node_peer err_msg po c') id srv').2 = Ok data ∧
  ∃ l', sv_ledger srv' = Some l' ∧ is_Some (owners l' !! (id, Public k)).
Proof.
  intros id token Hok El Hsub Hslot Hnc Hd Hk Hp Hclk Hskew Hcache Hpow Hrate Hquota.
  destruct (putRaw_exchange err_msg po c (mkPut data token [] [] ReasonClient) srv) as (body & Er & Ep); [|done|].
  { split; [done|]. split; [cbn [pf_token]; unfold token; rewrite length_built; lia|].
    split; simpl; unfold maxStripeBlob; lia. }
  cbn [pf_data pf_token pf_stripe pf_grant pf_reason] in Ep. unfold put, authToken. rewrite Hk, Hp. fold id token.
  rewrite Ep. clear Ep. pose proof (handlePut_subnet err_msg po c body srv) as Hsub'. rewrite Hsub in Hsub'.
  pose proof (handlePut_ok (ok := ok) err_msg po c body srv Hok) as Hok'.
  pose proof (handlePut_signed err_msg po c data k (Unix clk) body srv l Hslot Er El Hclk Hskew Hcache Hpow Hrate) as Eh.
  cbv zeta in Eh. fold id token in Eh.
  set (srv0 := set_limiter _ _) in Eh.
  destruct (record_move_same po c (mkPut data token [] [] ReasonClient) None srv0) as [Es0 El0].
  destruct (commit_put_spec (ok := ok) err_msg po c (mkPut data token [] [] ReasonClient) (Public k) None
    (record_move po c (mkPut data token [] [] ReasonClient) None srv0) l) as (_ & l' & El' & Hres).
  { by rewrite El0. } { by apply (same_data_ok srv). } { by rewrite Es0. }
  cbn [pf_data] in El', Hres. fold id in El', Hres. rewrite <-Eh in El', Hres.
  destruct (handlePut err_msg po c body srv) as [srv' rep]. cbn [fst snd] in *.
  destruct Hres as [(-> & Hown & Hget)|(_ & _ & Hn & Hq)].
  2:{ exfalso. destruct Hquota as [Hq'|[? Hx]]; congruence. }
  split; [|split; [|by exists l']].
  - unfold replyOK. rewrite readResp_ok. cbn [mbind result_bind]. unfold readID, writeID.
    rewrite (readFull_all id) by apply HashOf_is_id. cbn [reading map_err mbind result_bind]. by rewrite decide_True.
  - destruct Hok' as [Hok' _].
    { intros q rest Eq. rewrite Er in Eq. by apply (inj Ok), pair_eq in Eq as [<- _]. }
    rewrite (get_node (ok := ok)); [by cbn [snd]; rewrite Hget|done|done|apply HashOf_is_id|].
    intros d. rewrite Hget. by intros <-%(inj Ok).
Qed.

(** Possession probes against an honest node: the probe of a shard the node
    stores says whether the digest of its bytes agrees with the verifier's (so it
    succeeds when they are the verifier's bytes), the probe of any other shard
    fails as not found, and no probe changes what the node stores. *)
Theorem probe_honest `{Sha256, Ed25519, Argon2} {S : Type} `{!Store S} {ok : S → Prop} `{!StoreLaws S ok}
    (err_msg : net_err → bytes) (po : policy) (c : conn) (id : ShardID) (want nonce : bytes) (srv : Server S) :
  sv_subnet srv = None → ok (sv_store srv) → is_id id → length nonce = ProbeNonceSize →
  Probe (node_peer err_msg po c) id want nonce srv =
    (srv, match Get id (sv_store srv) with
          | Ok d => Ok (bool_decide (Sum256 (nonce ++ d) = Sum256 (nonce ++ want)))
          | Err _ => Err CNotFound
          end).
Proof.
  intros Hsub Hok Hid Hn. unfold Probe. rewrite decide_False by (by intros []). unfold exchange.
  cbn [dials node_peer negb write_all on_probe]. unfold handleProbe. rewrite Hsub. cbn [subnet_allow negb].
  rewrite set_subnet_none by done. unfold readID, readNonce, writeID. rewrite app_nil_r, readFull_app by done.
  cbn [mbind result_bind]. rewrite readFull_all by done. cbn [mbind result_bind].
  pose proof (get_errors (sv_store srv) id) as He. destruct (Get id (sv_store srv)) as [d|e]; [|by rewrite (He e Hok eq_refl)].
  unfold replyOK. rewrite readResp_ok. cbn [mbind result_bind].
  rewrite readFull_all by apply HashOf_is_id. done.
Qed.

(** Revocation requests are not bound to what they revoke: a client that
    revokes two grants at one node within the same second sends the same token
    twice, so only the first nonce is revoked and the second request is refused
    as a replay with the ledger unchanged. And the first one goes through for
    any signing key and any nonce: the node does not ask whether the caller
    issued the grant. *)
Theorem revoke_token_not_bound `{Sha256, Ed25519, Argon2} {S : Type} `{!Store S}
    (err_msg : net_err → bytes) (po : policy) (c : conn) (n : NetStore) (k nonce1 nonce2 : bytes) (clk1 clk2 : Z)
    (srv : Server S) (l : Ledger) :
  length nonce1 = 8%nat → length nonce2 = 8%nat → ns_signer n = Some k → ns_peer n = cn_self c →
  Unix clk1 = Unix clk2 → in_i64 (Unix clk1) → Z.abs (cn_now c - FromUnix (Unix clk1)) ≤ tokenSkew →
  sv_subnet srv = None → sv_ledger srv = Some l →
  entries (sv_cache srv) !! token_sig (buildToken k opRevokeGrant zeroID (cn_self c) (Unix clk1)) = None →
  let '(srv1, r1) := revokeGrant (node_peer err_msg po c) n clk1 nonce1 srv in
  let '(srv2, r2) := revokeGrant (node_peer err_msg po c) n clk2 nonce2 srv1 in
  r1 = Ok tt ∧ r2 = Err CUnauthorized ∧
  sv_ledger srv1 = Some (RevokeGrant nonce1 (Public k) (cn_now c) l) ∧ sv_ledger srv2 = sv_ledger srv1.
Proof.
  intros Hn1 Hn2 Hk Hp Eclk Hclk Hskew Hsub El Hcache.
  set (token := buildToken k opRevokeGrant zeroID (cn_self c) (Unix clk1)) in *.
  assert (∀ clk nonce srv0, Unix clk = Unix clk1 → length nonce = 8%nat → sv_subnet srv0 = None →
    revokeGrant (node_peer err_msg po c) n clk nonce srv0 =
    let '(ca, replay) := seen (token_sig token) (cn_now c) (sv_cache srv0) in
    if replay then (set_cache ca srv0, Err CUnauthorized)
    else match sv_ledger srv0 with
         | None => (set_cache ca srv0, Ok tt)
         | Some l0 => (set_ledger (Some (RevokeGrant nonce (Public k) (cn_now c) l0)) (set_cache ca srv0), Ok tt)
         end) as Hrev.
  { intros clk nonce srv0 Ec Hn Hs. unfold revokeGrant. rewrite decide_False by (by intros []).
    unfold authToken. rewrite Hk, Hp, Ec. fold token.
    destruct (token_blob_read token []) as (t & Et & Er); [unfold token; rewrite length_built; lia|].
    rewrite app_nil_r in Er. rewrite Et. rewrite (exchange_node err_msg po c opRevokeGrant _ (nonce ++ t));
      [|by cbn; rewrite app_nil_r|done].
    unfold dispatch. cbn [readByte]. rewrite op_of_op_byte. unfold handleRevokeGrant.
    rewrite readFull_app by done. cbn [mbind result_bind]. rewrite Er. cbn [mbind result_bind].
    unfold check_token, token. rewrite verify_built by done. fold token.
    destruct (seen (token_sig token) (cn_now c) (sv_cache srv0)) as [ca []]; [done|].
    cbn [set_cache sv_ledger]. by destruct (sv_ledger srv0). }
  rewrite Hrev by done. pose proof (seen_absent (token_sig token) (cn_now c) (sv_cache srv) Hcache) as Hnew.
  pose proof (seen_twice (token_sig token) (cn_now c) (sv_cache srv)) as Htwice.
  destruct (seen (token_sig token) (cn_now c) (sv_cache srv)) as [ca b1]. cbn [fst snd] in *. subst b1.
  rewrite El. rewrite Hrev by done. cbn [set_ledger set_cache sv_cache].
  destruct (seen (token_sig token) (cn_now c) ca) as [ca2 b2]. cbn [snd] in Htwice. subst b2. done.
Qed.

(** ** Witnesses *)

Section examples.
#[local] Existing Instances pad_sha toy_ed toy_argon.

Definition ex_net : NetStore := NewNetStoreSigned [Byte.x01] ex_key.
Definition ex_open : Server Mem.MemStore := mkServer Mem.NewMemStore None newAuthCache None None [] [].

Lemma ex_open_node : open_node (ok := Mem.wf) ex_policy ex_open.
Proof.
  split; [done|]. split; [done|]. split; [done|]. split; [apply Mem.wf_new|].
  intros id d. simpl. unfold Mem.get. simpl. by rewrite lookup_empty.
Qed.


Lemma net_put_accepted_witness :
  (put (node_peer no_msg ex_policy (ex_conn (1000 * Second))) ex_net (1000 * Second) ex_data ex_server).2 = Ok ex_id.
Proof.
  pose proof (net_put_accepted (ok := Mem.wf) no_msg ex_policy (ex_conn (1000 * Second)) (ex_conn (1000 * Second))
    ex_net ex_key (1000 * Second) ex_data ex_server empty_ledger ex_server_ok eq_refl eq_refl eq_refl) as H.
  destruct (put _ ex_net (1000 * Second) ex_data ex_server) as [srv' r]. apply H.
  - intros d. simpl. unfold Mem.get. simpl. rewrite lookup_empty. discriminate.
  - vm_compute. discriminate.
  - reflexivity.
  - reflexivity.
  - vm_compute. split; congruence.
  - vm_compute. discriminate.
  - vm_compute. reflexivity.
  - vm_compute. reflexivity.
  - vm_compute. reflexivity.
  - left. vm_compute. reflexivity.
Defined.

Lemma probe_honest_witness :
  (Probe (node_peer no_msg ex_policy (ex_conn (1001 * Second))) ex_id ex_data (replicate 32 Byte.x05) ex_served).2
    = Ok true.
Proof.
  rewrite (probe_honest (ok := Mem.wf)).
  - vm_compute. reflexivity.
  - vm_compute. reflexivity.
  - exact (proj1 ex_served_backed).
  - reflexivity.
  - reflexivity.
Defined.

Lemma revoke_token_not_bound_witness :
  let c := ex_conn (1000 * Second) in
  let '(srv1, r1) := revokeGrant (node_peer no_msg ex_policy c) ex_net (1000 * Second) (replicate 8 Byte.x01) ex_server in
  let '(srv2, r2) := revokeGrant (node_peer no_msg ex_policy c) ex_net (1000 * Second + 5) (replicate 8 Byte.x02) srv1 in
  r1 = Ok tt ∧ r2 = Err CUnauthorized ∧
  sv_ledger srv1 = Some (RevokeGrant (replicate 8 Byte.x01) (Public ex_key) (1000 * Second) empty_ledger) ∧
  sv_ledger srv2 = sv_ledger srv1.
Proof.
  cbn zeta. apply (revoke_token_not_bound no_msg ex_policy (ex_conn (1000 * Second)) ex_net ex_key
    (replicate 8 Byte.x01) (replicate 8 Byte.x02) (1000 * Second) (1000 * Second + 5) ex_server empty_ledger);
    try reflexivity.
  - vm_compute. split; congruence.
  - vm_compute. discriminate.
Defined.
End examples.
