(* ===== verification/Races.v ===== *)
(** * Interleavings of a node's handlers and its collector

    The handlers of [Server] and the collector of [Node] run in goroutines of
    their own: a store call and a ledger transaction are each atomic, but not the
    sequence of them in one handler. A [task] is a handler after its checks, at
    the point before its next call; [task_step] makes that call, and [mstep] lets
    any task of a pool go next. The authorization checks that come before touch
    neither store nor ledger, so a task starts where they end (server.go
    handlePut from the store.Put call on, handleDelete from RemoveOwner on, the
    loop body and the Reconcile call of runGC in cmd/revika-node/main.go). *)

From S2P Require Import Prelude GoLib Store Crypto Stripe Ledger RateLimit Wire Server Node.

(** The put of a frame on behalf of an owner, at the handler's clock. *)
Record put_job := mkJob {
  job_frame : PutFrame; job_owner : Owner; job_grant : option (Descriptor * bytes); job_now : Z }.

Inductive task :=
| PutStore (j : put_job)                 (* before store.Put *)
| PutClaim (j : put_job)                 (* before AddOwner *)
| PutRecord (j : put_job)                (* before PutStripe *)
| PutDone (j : put_job) (r : result net_err unit)
| DelClaim (id : ShardID) (o : Owner)    (* before RemoveOwner *)
| DelBlob (id : ShardID) (o : Owner)     (* before store.Delete *)
| DelRecord (id : ShardID) (o : Owner)   (* before DropRecord *)
| DelDone (id : ShardID) (o : Owner) (r : result net_err unit)
| GcClaim (id : ShardID) (now : Z) (ex : bool)   (* before CollectRecord *)
| GcBlob (id : ShardID)                  (* before blobs.Delete *)
| GcDone (id : ShardID)
| RecList                                (* before List *)
| RecApply (disk : list ShardID)         (* before the Reconcile transaction *)
| RecDone.

Definition job_data (j : put_job) : bytes := pf_data (job_frame j).
Definition job_size (j : put_job) : Z := Z.of_nat (length (job_data j)).

Section races.
Context `{Hsha : Sha256} {S : Type} `{Hst : !Store S} `{Hls : !Lister S} (opts : Options).
Definition job_id (j : put_job) : ShardID := HashOf (job_data j).

(** The next call of a task; [None] when it has returned. *)
Definition task_step (t : task) (s : S) (l : Ledger) : option (task * S * Ledger) :=
  match t with
  | PutStore j =>
      let '(s, r) := Put (job_data j) s in
      Some (match r with Ok _ => PutClaim j | Err e => PutDone j (Err (NStore e)) end, s, l)
  | PutClaim j =>
      let '(l, r) := AddOwner opts (job_id j) (job_owner j) (job_size j) (job_now j) l in
      Some (match r with
            | Err e => PutDone j (Err (NLedger e))
            | Ok false => PutDone j (Ok tt)
            | Ok true => match job_grant j with Some _ => PutRecord j | None => PutDone j (Ok tt) end
            end, s, l)
  | PutRecord j =>
      let l := match job_grant j with
               | Some (d, _) => (PutStripe (job_id j) (d_K d) (d_M d) (d_Shards d) (pf_grant (job_frame j)) l).1
               | None => l
               end in
      Some (PutDone j (Ok tt), s, l)
  | DelClaim id o =>
      let '(l, r) := RemoveOwner id o l in
      Some (match r with
            | Err e => DelDone id o (Err (NLedger e))
            | Ok n => if n =? 0 then DelBlob id o else DelDone id o (Ok tt)
            end, s, l)
  | DelBlob id o =>
      let '(s, r) := Delete id s in
      Some (match r with
            | Err e => if decide (e = ErrNotFound) then DelRecord id o else DelDone id o (Err (NStore e))
            | Ok _ => DelRecord id o
            end, s, l)
  | DelRecord id o => Some (DelDone id o (Ok tt), s, DropRecord id l)
  | GcClaim id now ex =>
      let '(l, dropped) := CollectRecord id now ex l in
      Some (if dropped then GcBlob id else GcDone id, s, l)
  | GcBlob id => let '(s, _) := Delete id s in Some (GcDone id, s, l)
  | RecList => Some (match List s with Ok disk => RecApply disk | Err _ => RecDone end, s, l)
  | RecApply disk => Some (RecDone, s, (Reconcile disk l).1)
  | PutDone _ _ | DelDone _ _ _ | GcDone _ | RecDone => None
  end.

Record pool := mkPool { tasks : list task; p_store : S; p_ledger : Ledger }.

Inductive mstep : pool → pool → Prop :=
| run_task i t t' ts s s' l l' :
    ts !! i = Some t → task_step t s l = Some (t', s', l') →
    mstep (mkPool ts s l) (mkPool (<[i := t']> ts) s' l').

(** A task run to its end without interruption. Four steps are enough for any. *)
Fixpoint alone (fuel : nat) (t : task) (s : S) (l : Ledger) : task * S * Ledger :=
  match fuel with
  | O => (t, s, l)
  | Datatypes.S fuel =>
      match task_step t s l with
      | None => (t, s, l)
      | Some (t, s, l) => alone fuel t s l
      end
  end.
End races.
Arguments mkPool {S} _ _ _. Arguments tasks {S} _. Arguments p_store {S} _. Arguments p_ledger {S} _.

(** The task has no step that can drop the record or the blob of [id]. *)
Definition spares (id : ShardID) (t : task) : Prop :=
  match t with
  | DelClaim i _ | DelBlob i _ | DelRecord i _ | GcClaim i _ _ | GcBlob i => i ≠ id
  | RecList | RecApply _ => False
  | _ => True
  end.

(** What a PUT has achieved at its current point. *)
Definition put_progress `{Sha256} {S} `{!Store S} (t : task) (s : S) (l : Ledger) : Prop :=
  match t with
  | PutClaim j => is_ok (Get (job_id j) s) = true
  | PutRecord j | PutDone j (Ok _) =>
      is_ok (Get (job_id j) s) = true ∧ is_Some (owners l !! (job_id j, job_owner j))
  | _ => True
  end.

(** ** Lemmas *)

Lemma drop_other id id' o l : id ≠ id' → owners (DropRecord id l) !! (id', o) = owners l !! (id', o).
Proof.
  intros Hne. unfold DropRecord, dropRecordTx. destruct (shards l !! id); [|done]. simpl.
  apply option_eq. intros r. rewrite map_lookup_filter_Some. naive_solver.
Qed.

(** The PUT a task carries out. *)
Definition job_of (t : task) : option put_job :=
  match t with PutStore j | PutClaim j | PutRecord j | PutDone j _ => Some j | _ => None end.

Section lemmas.
Context `{Hsha : Sha256} {S : Type} `{Hst : !Store S} {ok : S → Prop} `{Hlaws : !StoreLaws S ok}.
Context `{Hls : !Lister S} (opts : Options).
Implicit Types (s : S) (l : Ledger).

Lemma step_store_ok t s l t' s' l' : task_step opts t s l = Some (t', s', l') → ok s → ok s'.
Proof.
  intros E Hok. destruct t as [j|j|j| |id o|id o|id o| |id now ex|id| | |disk|]; simpl in E; try done.
  - pose proof (put_result s (job_data j) Hok) as [_ H]. destruct (Put _ s). by simplify_eq/=.
  - destruct (AddOwner _ _ _ _ _ _). by simplify_eq.
  - by simplify_eq.
  - destruct (RemoveOwner _ _ _). by simplify_eq.
  - pose proof (delete_ok s id Hok) as H. destruct (Delete id s). by simplify_eq/=.
  - by simplify_eq.
  - destruct (CollectRecord _ _ _ _). by simplify_eq.
  - pose proof (delete_ok s id Hok) as H. destruct (Delete id s). by simplify_eq/=.
  - by simplify_eq.
  - by simplify_eq.
Qed.

Lemma step_job t s l t' s' l' : task_step opts t s l = Some (t', s', l') → job_of t' = job_of t.
Proof.
  intros E. destruct t as [j|j|j| |id o|id o|id o| |id now ex|id| | |disk|]; simpl in E; try done;
    repeat case_match; by simplify_eq.
Qed.

(** A task that spares [id] keeps its blob and its claims. *)
Lemma step_spares id t s l t' s' l' :
  task_step opts t s l = Some (t', s', l') → ok s → spares id t →
  spares id t' ∧ (is_ok (Get id s) = true → is_ok (Get id s') = true) ∧
  (∀ o, is_Some (owners l !! (id, o)) → is_Some (owners l' !! (id, o))).
Proof.
  intros E Hok Hsp. destruct t as [j|j|j| |i o|i o|i o| |i now ex|i| | |disk|]; simpl in E, Hsp; try done.
  - pose proof (λ x, put_get_keeps s (job_data j) id x Hok) as Hk. destruct (Put _ s) as [s1 [?|?]]; simplify_eq/=.
    + split; [done|]. split; [|done]. intros Hg. destruct (Get id s) as [x|]; [|done]. by rewrite (Hk x).
    + split; [done|]. split; [|done]. intros Hg. destruct (Get id s) as [x|]; [|done]. by rewrite (Hk x).
  - assert (∀ o, is_Some (owners l !! (id, o)) →
      is_Some (owners (AddOwner opts (job_id j) (job_owner j) (job_size j) (job_now j) l).1 !! (id, o))) as Ha.
    { intros o Ho. unfold AddOwner.
      destruct (owners l !! (job_id j, job_owner j)); [|destruct (quota_refuses _ _ _ _ _); [done|]; destruct (shards l !! job_id j)];
        simpl; rewrite lookup_insert; case_decide; eauto. }
    destruct (AddOwner _ _ _ _ _ _) as [l1 [[]|]]; [destruct (job_grant j)| |]; by simplify_eq/=.
  - simplify_eq. split; [done|]. split; [done|]. intros o Ho. destruct (job_grant j) as [[d g]|]; [|done].
    unfold PutStripe. by repeat case_match.
  - assert (∀ o', is_Some (owners l !! (id, o')) → is_Some (owners (RemoveOwner i o l).1 !! (id, o'))) as Ha.
    { intros o' Ho. unfold RemoveOwner. destruct (owners l !! (i, o)); [|done]. destruct (shards l !! i); [|done].
      simpl. rewrite lookup_delete_ne; [done|]. by intros [= -> ->]. }
    destruct (RemoveOwner i o l) as [l1 [n|]]; [destruct (n =? 0)|]; by simplify_eq/=.
  - pose proof (delete_get_other s i id Hok Hsp) as Hg. destruct (Delete i s) as [s1 [?|e]]; [|destruct (decide _)];
      simplify_eq/=; by rewrite Hg.
  - simplify_eq. split; [done|]. split; [done|]. intros o' Ho. by rewrite drop_other.
  - assert (l' = l ∨ l' = DropRecord i l) as Hl.
    { unfold CollectRecord, DropRecord in *. destruct (has_live_owner i now ex l); [simplify_eq; by left|].
      destruct (dropRecordTx i l) as [l1 []]; simplify_eq/=; by right. }
    assert (spares id t' ∧ s' = s) as [Hsp' ->] by (destruct (CollectRecord _ _ _ _) as [l1 []]; by simplify_eq).
    split; [done|]. split; [done|]. intros o Ho. destruct Hl as [->| ->]; [done|]. by rewrite drop_other.
  - pose proof (delete_get_other s i id Hok Hsp) as Hg. destruct (Delete i s) as [s1 r]. simplify_eq/=. by rewrite Hg.
Qed.

(** A PUT makes its own progress. *)
Lemma step_progress t s l t' s' l' :
  task_step opts t s l = Some (t', s', l') → ok s → put_progress t s l → put_progress t' s' l'.
Proof.
  intros E Hok Hp. destruct t as [j|j|j| |i o|i o|i o| |i now ex|i| | |disk|]; simpl in E, Hp; try done.
  - pose proof (put_get_same s (job_data j) Hok) as Hg. destruct (Put _ s) as [s1 [?|]]; simplify_eq/=; [|done].
    unfold job_id. rewrite Hg. by destruct (Get _ s).
  - assert (∀ b, (AddOwner opts (job_id j) (job_owner j) (job_size j) (job_now j) l).2 = Ok b →
      is_Some (owners (AddOwner opts (job_id j) (job_owner j) (job_size j) (job_now j) l).1 !! (job_id j, job_owner j))) as Ha.
    { intros b. unfold AddOwner. destruct (owners l !! _); [|destruct (quota_refuses _ _ _ _ _)]; [|done|]; simpl;
        rewrite lookup_insert_eq; eauto. }
    destruct (AddOwner _ _ _ _ _ _) as [l1 [b|]]; cbn [fst snd] in Ha; [specialize (Ha b eq_refl)|by simplify_eq].
    destruct b; [destruct (job_grant j)|]; simplify_eq/=; done.
  - simplify_eq. split; [apply Hp|]. destruct (job_grant j) as [[d g]|]; [|apply Hp].
    unfold PutStripe. repeat case_match; apply Hp.
  - destruct (RemoveOwner _ _ _) as [l1 [n|]]; [destruct (n =? 0)|]; by simplify_eq.
  - destruct (Delete _ _) as [s1 [?|e]]; [|destruct (decide _)]; by simplify_eq.
  - by simplify_eq.
  - destruct (CollectRecord _ _ _ _) as [l1 []]; by simplify_eq.
  - destruct (Delete _ _). by simplify_eq.
  - destruct (List s); by simplify_eq.
  - by simplify_eq.
Qed.
End lemmas.

Section pools.
Context `{Hsha : Sha256} {S : Type} `{Hst : !Store S} {ok : S → Prop} `{Hlaws : !StoreLaws S ok}.
Context `{Hls : !Lister S} (opts : Options).
Implicit Types (s : S) (l : Ledger) (p : pool (S := S)).

(** A step is at most one ledger transaction. *)
Lemma step_ledger t s l t' s' l' :
  task_step opts t s l = Some (t', s', l') →
  l' = l ∨ ∃ op, l' = apply_op opts op l ∧
    ∀ szof, (∀ j, job_of t = Some j → szof (job_id j) = job_size j) → sized szof op.
Proof.
  intros E. destruct t as [j|j|j| |i o|i o|i o| |i now ex|i| | |disk|]; simpl in E; try done.
  - destruct (Put _ s). simplify_eq. by left.
  - right. exists (LAdd (job_id j) (job_owner j) (job_size j) (job_now j)). cbn [apply_op].
    destruct (AddOwner _ _ _ _ _ _). simplify_eq. split; [done|]. intros szof Hj. simpl. rewrite (Hj j) by done.
    unfold job_size. split; [done|lia].
  - simplify_eq. destruct (job_grant j) as [[d g]|]; [|by left]. right.
    by exists (LPutStripe (job_id j) (d_K d) (d_M d) (d_Shards d) (pf_grant (job_frame j))).
  - right. exists (LRemove i o). cbn [apply_op]. destruct (RemoveOwner i o l). by simplify_eq.
  - left. destruct (Delete i s). by simplify_eq.
  - right. exists (LDrop i). by simplify_eq.
  - right. exists (LCollect i now ex). cbn [apply_op]. destruct (CollectRecord _ _ _ _). by simplify_eq.
  - left. destruct (Delete i s). by simplify_eq.
  - left. by simplify_eq.
  - right. exists (LReconcile disk). by simplify_eq.
Qed.

Definition jobs_sized (szof : ShardID → Z) (ts : list task) : Prop :=
  ∀ t j, t ∈ ts → job_of t = Some j → szof (job_id j) = job_size j.

Definition sound_pool (szof : ShardID → Z) p : Prop :=
  ok (p_store p) ∧ wf (p_ledger p) ∧ sizes_ok szof (p_ledger p) ∧ jobs_sized szof (tasks p).

Lemma sound_step szof p p' : mstep opts p p' → sound_pool szof p → sound_pool szof p'.
Proof.
  intros [i t t' ts s s' l l' Hi E] (Hok & Hwf & Hsz & Hj). cbn [p_store p_ledger tasks] in *.
  assert (wf l' ∧ sizes_ok szof l') as [Hwf' Hsz'].
  { destruct (step_ledger t s l t' s' l' E) as [->|(op & -> & Hop)]; [done|]. apply apply_op_wf; [done..|].
    apply Hop. intros j. apply Hj. by eapply list_elem_of_lookup_2. }
  split; [by eapply step_store_ok|]. split; [done|]. split; [done|]. intros t0 j Ht0.
  apply list_elem_of_lookup in Ht0 as [k Hk]. cbn [tasks] in Hk. rewrite list_lookup_insert in Hk.
  case_decide as Hd; [|intros Hj0; eapply Hj; [by eapply list_elem_of_lookup_2|done]].
  simplify_eq. rewrite (step_job opts _ _ _ _ _ _ E). apply Hj. by eapply list_elem_of_lookup_2.
Qed.

(** The progress of every PUT of [id], when no task can drop [id]. *)
Definition spared_pool (id : ShardID) p : Prop :=
  ok (p_store p) ∧ Forall (spares id) (tasks p) ∧
  ∀ t j, t ∈ tasks p → job_of t = Some j → job_id j = id → put_progress t (p_store p) (p_ledger p).

Lemma spared_step id p p' : mstep opts p p' → spared_pool id p → spared_pool id p'.
Proof.
  intros [i t t' ts s s' l l' Hi E] (Hok & HF & Hp). cbn [p_store p_ledger tasks] in *.
  pose proof (proj1 (Forall_lookup _ _) HF i t Hi) as Hsp.
  destruct (step_spares opts id t s l t' s' l' E Hok Hsp) as (Hsp' & Hget & Hown).
  split; [by eapply step_store_ok|]. split; [by apply Forall_insert|]. intros t0 j Ht0 Hj Hid.
  apply list_elem_of_lookup in Ht0 as [k Hk]. cbn [tasks] in Hk. rewrite list_lookup_insert in Hk.
  case_decide as Hd.
  - simplify_eq. eapply step_progress; [done|done|]. eapply Hp; [by eapply list_elem_of_lookup_2| |done].
    by rewrite <-(step_job opts _ _ _ _ _ _ E).
  - assert (put_progress t0 s l) as Hp0 by (eapply Hp; [by eapply list_elem_of_lookup_2|done|done]).
    destruct t0 as [| | |j0 [u|e]| | | | | | | | | |]; simpl in Hj, Hp0 |- *; try done; simplify_eq; naive_solver.
Qed.

(** Two tasks: the first, or the second, goes next. *)
Lemma step_fst t t' u s s' l l' :
  task_step opts t s l = Some (t', s', l') → mstep opts (mkPool [t; u] s l) (mkPool [t'; u] s' l').
Proof. intros E. by apply (run_task opts 0 t t' [t; u] s s' l l'). Qed.

Lemma step_snd t u u' s s' l l' :
  task_step opts u s l = Some (u', s', l') → mstep opts (mkPool [t; u] s l) (mkPool [t; u'] s' l').
Proof. intros E. by apply (run_task opts 1 u u' [t; u] s s' l l'). Qed.

Lemma step_one t t' s s' l l' :
  task_step opts t s l = Some (t', s', l') → mstep opts (mkPool [t] s l) (mkPool [t'] s' l').
Proof. intros E. by apply (run_task opts 0 t t' [t] s s' l l'). Qed.

Lemma put_pair s d : ok s → ∃ s1, Put d s = (s1, Ok (HashOf d)) ∧ ok s1.
Proof.
  intros Hok. destruct (put_result s d Hok) as [Er Hok1]. destruct (Put d s) as [s1 r]. simpl in *. subst r. eauto.
Qed.
End pools.

(** ** Properties *)

Section claims.
Context `{Hsha : Sha256} {S : Type} `{Hst : !Store S} {ok : S → Prop} `{Hlaws : !StoreLaws S ok}.
Context `{Hls : !Lister S} (opts : Options).


(** [C12] An acknowledged PUT is durable in every interleaving in which no
    DELETE, collection or reconciliation can touch the same shard, whatever
    other tasks do to other shards: when it has returned success, the blob is
    readable and the claim is recorded, and both stay so. *)
Theorem put_durable_interleaved (j : put_job) (p p' : pool (S := S)) :
  ok (p_store p) → Forall (spares (job_id j)) (tasks p) →
  (∀ t, t ∈ tasks p → job_of t = None ∨ ∃ j', t = PutStore j') →
  rtc (mstep opts) p p' → PutDone j (Ok tt) ∈ tasks p' →
  is_ok (Get (job_id j) (p_store p')) = true ∧ is_Some (owners (p_ledger p') !! (job_id j, job_owner j)).
Proof.
  intros Hok HF Hstart Hsteps Hdone. assert (spared_pool (ok := ok) (job_id j) p) as Hsp.
  { split; [done|]. split; [done|]. intros t j' Ht Hj _. destruct (Hstart t Ht) as [E|[j0 ->]]; [congruence|done]. }
  assert (spared_pool (ok := ok) (job_id j) p') as (_ & _ & Hp').
  { clear -Hsp Hsteps Hlaws. induction Hsteps; eauto using spared_step. }
  by apply (Hp' _ j Hdone).
Qed.

(** A DELETE that races with a PUT of the same bytes (of any owner) can
    destroy the PUT after it was acknowledged: when the deleting owner held the
    only claim, the PUT may be recorded between RemoveOwner and
    the physical deletion, and then blob, record and the new claim are all
    gone although both requests were answered OK. *)
Theorem delete_race_loses_put (j : put_job) (a : Owner) (s : S) (l : Ledger) (row : ShardRow) :
  ok s → Get (job_id j) s = Ok (job_data j) → shards l !! job_id j = Some row →
  (∀ o, is_Some (owners l !! (job_id j, o)) ↔ o = a) → job_grant j = None →
  quota_refuses opts (RemoveOwner (job_id j) a l).1 (job_owner j) (job_size j) (job_now j) = false →
  ∃ s' l', rtc (mstep opts) (mkPool [DelClaim (job_id j) a; PutStore j] s l)
                            (mkPool [DelDone (job_id j) a (Ok tt); PutDone j (Ok tt)] s' l') ∧
    Get (job_id j) s' = Err ErrNotFound ∧ shards l' !! job_id j = None ∧
    owners l' !! (job_id j, job_owner j) = None.
Proof.
  intros Hok Hget Hrow Hown Hg Hq. set (id := job_id j) in *. set (b := job_owner j) in *.
  destruct (RemoveOwner id a l) as [l1 r1] eqn:Erm. cbn [fst] in Hq.
  assert (r1 = Ok 0 ∧ shards l1 !! id = Some row ∧ ∀ o, owners l1 !! (id, o) = None) as (-> & Hrow1 & Hno1).
  { unfold RemoveOwner in Erm. destruct (proj2 (Hown a) eq_refl) as [ra Era]. rewrite Era, Hrow in Erm. simplify_eq.
    assert (∀ o, delete (id, a) (owners l) !! (id, o) = None) as Hno.
    { intros o. destruct (decide (o = a)) as [->|Hoa]; [by rewrite lookup_delete_eq|].
      rewrite lookup_delete_ne by (by intros [= ->]). apply eq_None_not_Some. intros Hs. by apply Hoa, Hown. }
    split; [|done]. f_equal. apply length_zero_iff. intros o Ho%owners_of_elem. simpl in Ho. rewrite Hno in Ho.
    by destruct Ho. }
  destruct (put_pair s (job_data j) Hok) as (s1 & Eput & Hok1).
  destruct (AddOwner opts id b (job_size j) (job_now j) l1) as [l2 r2] eqn:Eadd.
  assert (r2 = Ok true ∧ is_Some (shards l2 !! id)) as [-> [row2 Hrow2]].
  { unfold AddOwner in Eadd. rewrite Hno1, Hq in Eadd. simplify_eq. simpl. rewrite Hrow1. eauto. }
  assert (∃ s2, (Delete id s1 = (s2, Ok tt) ∨ Delete id s1 = (s2, Err ErrNotFound)) ∧ Get id s2 = Err ErrNotFound)
    as (s2 & Edel & Hgone).
  { pose proof (delete_result s1 id Hok1) as Hr. pose proof (delete_get_same s1 id Hok1) as Hg1.
    destruct (Delete id s1) as [s2 r]. simpl in *. exists s2. destruct (is_ok _); subst r; auto. }
  exists s2, (DropRecord id l2). split_and!; [|done|by rewrite drop_shards, lookup_delete_eq|].
  2:{ unfold DropRecord, dropRecordTx. rewrite Hrow2. simpl. apply map_lookup_filter_None. right. intros r _ Hx. by apply Hx. }
  eapply rtc_l. { apply step_fst. simpl. by rewrite Erm. }
  eapply rtc_l. { apply step_snd. simpl. by rewrite Eput. }
  eapply rtc_l. { apply step_snd. simpl. fold id b. by rewrite Eadd, Hg. }
  eapply rtc_l. { apply (step_fst opts _ (DelRecord id a) _ s1 s2). simpl.
    destruct Edel as [->| ->]; [done|]. by rewrite decide_True. }
  eapply rtc_l. { by apply step_fst. }
  done.
Qed.

(** A collection that races with a PUT of the same bytes leaves a claim
    without a blob: the PUT finds the old blob in place, records its claim
    after the collector dropped the record, and then the collector deletes the
    blob. The PUT was answered OK; the owner is charged for a shard the node no
    longer has, and the next reconciliation drops the claim. *)
Theorem gc_race_strands_claim (j : put_job) (now : Z) (ex : bool) (s : S) (l : Ledger) :
  ok s → Get (job_id j) s = Ok (job_data j) → job_id j ∈ Collectible now ex l → job_grant j = None →
  quota_refuses opts (DropRecord (job_id j) l) (job_owner j) (job_size j) (job_now j) = false →
  ∃ s' l', rtc (mstep opts) (mkPool [GcClaim (job_id j) now ex; PutStore j] s l)
                            (mkPool [GcDone (job_id j); PutDone j (Ok tt)] s' l') ∧
    Get (job_id j) s' = Err ErrNotFound ∧ is_Some (owners l' !! (job_id j, job_owner j)) ∧
    ∀ disk, (∀ i, i ∈ disk ↔ is_ok (Get i s') = true) → wf l' →
      owners (Reconcile disk l').1 !! (job_id j, job_owner j) = None.
Proof.
  intros Hok Hget Hcol Hg Hq. set (id := job_id j) in *. set (b := job_owner j) in *.
  unfold Collectible in Hcol. rewrite elem_of_List_filter, elem_of_shards, negb_true_iff in Hcol.
  destruct Hcol as [[row Hrow] Hdead].
  assert (CollectRecord id now ex l = (DropRecord id l, true)) as Ecol.
  { unfold CollectRecord, DropRecord. rewrite Hdead. unfold dropRecordTx. by rewrite Hrow. }
  destruct (put_pair s (job_data j) Hok) as (s1 & Eput & Hok1).
  destruct (AddOwner opts id b (job_size j) (job_now j) (DropRecord id l)) as [l2 r2] eqn:Eadd.
  assert (∃ c, r2 = Ok c ∧ is_Some (owners l2 !! (id, b))) as (c & -> & Hown).
  { unfold AddOwner in Eadd. rewrite Hq in Eadd. destruct (owners (DropRecord id l) !! (id, b)); simplify_eq/=;
      rewrite lookup_insert_eq; eauto. }
  exists (Delete id s1).1, l2. split_and!; [|by apply delete_get_same|done|].
  2:{ intros disk Hdisk Hwf. destruct (reconcile_state disk l2) as [l3 H3].
      destruct (H3 (wf_wf_tables _ Hwf)) as (-> & _ & _ & Ho). simpl. rewrite Ho. rewrite decide_False; [done|].
      rewrite Hdisk, (delete_get_same (ok := ok)) by done. done. }
  eapply rtc_l. { apply step_fst. simpl. by rewrite Ecol. }
  eapply rtc_l. { apply step_snd. simpl. by rewrite Eput. }
  eapply rtc_l. { apply (step_snd opts _ _ (PutDone j (Ok tt)) s1 s1 _ l2). simpl. fold id b. rewrite Eadd, Hg. by destruct c. }
  eapply rtc_l. { apply (step_fst opts _ (GcDone id) _ s1 (Delete id s1).1). simpl. by destruct (Delete id s1). }
  done.
Qed.
End claims.

(** ** The handlers are their tasks, run alone *)

Section sequential.
Context `{Hsha : Sha256} `{Hed : Ed25519} {S : Type} `{Hst : !Store S} `{Hls : !Lister S}.
Context (err_msg : net_err → bytes) (po : policy).
Implicit Types (srv : Server S).

Lemma put_alone c p o g srv l :
  sv_ledger srv = Some l →
  let '(srv', rep) := commit_put err_msg po c p (HashOf (pf_data p)) (Some o) g srv in
  let j := mkJob p o g (cn_now c) in
  let '(t, s', l') := alone (po_opts po) 4 (PutStore j) (sv_store srv) l in
  sv_store srv' = s' ∧ sv_ledger srv' = Some l' ∧
  t = PutDone j (match t with PutDone _ r => r | _ => Ok tt end) ∧
  rep = match t with PutDone _ (Err e) => replyErr err_msg e | _ => replyOK (writeID (HashOf (pf_data p))) end.
Proof.
  intros El. unfold commit_put. cbn [alone task_step]. unfold job_data, job_id, job_size, job_data.
  cbn [job_frame job_owner job_grant job_now].
  destruct (Put (pf_data p) (sv_store srv)) as [s1 [?|e]]; [|cbn; by split_and!]. cbn [set_store sv_ledger]. rewrite El.
  cbn [task_step]. unfold job_id, job_size, job_data. cbn [job_frame job_owner job_grant job_now].
  destruct (AddOwner _ _ _ _ _ _) as [l1 [[]|e]]; [|cbn; by split_and!..].
  match goal with |- context [announce po ?i ?x] => destruct (announce_same po i x) as [E1 E2] end.
  rewrite E1, E2. by destruct g as [[d o']|]; cbn; split_and!.
Qed.

Lemma delete_alone c input srv l :
  sv_ledger srv = Some l →
  same_data srv (handleDelete err_msg c input srv).1 ∨
  ∃ id token tail o, read_signed input = Ok (id, token, tail) ∧
    verifyToken token opDelete id (cn_self c) (cn_now c) = Ok o ∧
    let '(srv', rep) := handleDelete err_msg c input srv in
    let '(t, s', l') := alone (po_opts po) 4 (DelClaim id o) (sv_store srv) l in
    sv_store srv' = s' ∧ sv_ledger srv' = Some l' ∧
    t = DelDone id o (match t with DelDone _ _ r => r | _ => Ok tt end) ∧
    rep = match t with DelDone _ _ (Err e) => replyErr err_msg e | _ => replyOK [] end.
Proof.
  intros El. unfold handleDelete. destruct (read_signed input) as [[[id token] tail]|]; [|by left]. rewrite El.
  pose proof (check_token_same c opDelete id token srv) as H1.
  destruct (check_token c opDelete id token srv) as [srv1 [o|e]] eqn:Et; cbn [fst] in H1; [|by left].
  pose proof (check_rate_same c o srv1) as H2. destruct (check_rate c o srv1) as [srv2 b2].
  assert (same_data srv srv2) as Hs2 by (destruct H1, H2; simpl in *; split; congruence).
  destruct b2; cbn [negb]; [|by left]. right. exists id, token, tail, o. split; [done|]. split.
  { unfold check_token in Et. destruct (verifyToken _ _ _ _ _) as [ow|]; [|by simplify_eq].
    destruct (seen _ _ _) as [? []]; by simplify_eq. }
  destruct Hs2 as [Es El2]. rewrite El2, El. cbn [alone task_step].
  destruct (RemoveOwner id o l) as [l1 [n|e]]; [|simpl; by rewrite Es].
  destruct (n =? 0); [|simpl; by rewrite Es]. cbn [task_step set_ledger sv_store]. rewrite Es.
  destruct (Delete id (sv_store srv)) as [s1 [[]|e]]; [done|]. by destruct (decide (e = ErrNotFound)).
Qed.

(** The collector's loop: its tasks one after the other. *)
Fixpoint gc_alone (now : Z) (ex : bool) (prev ids : list ShardID) (s : S) (l : Ledger) : S * Ledger :=
  match ids with
  | [] => (s, l)
  | id :: ids =>
      if bool_decide (id ∈ prev) then
        let '(_, s, l) := alone (po_opts po) 4 (GcClaim id now ex) s l in gc_alone now ex prev ids s l
      else gc_alone now ex prev ids s l
  end.

Lemma collect_alone now ex prev ids : ∀ s l n,
  (collect_loop now ex prev ids s l n).1 = gc_alone now ex prev ids s l.
Proof.
  induction ids as [|id ids IH]; intros s l n; [done|]. cbn [collect_loop gc_alone].
  destruct (bool_decide (id ∈ prev)); cbn [negb]; [|apply IH]. cbn [alone task_step].
  destruct (CollectRecord id now ex l) as [l1 []]; cbn [negb task_step]; [|apply IH].
  destruct (Delete id s) as [s1 [[]|e]]; [apply IH|]. destruct (decide _); apply IH.
Qed.

(** The tasks are the code: run without interruption, the task of a PUT
    has exactly the effect on store and ledger, and the reply, of the handler's
    commit; the task of a DELETE those of [handleDelete] once its token and
    rate checks passed (and otherwise the handler changes neither); and the
    collector's loop is its tasks in sequence. *)
Theorem handlers_are_tasks (c : conn) (srv : Server S) (l : Ledger) :
  sv_ledger srv = Some l →
  (∀ p o g,
    let '(srv', rep) := commit_put err_msg po c p (HashOf (pf_data p)) (Some o) g srv in
    let j := mkJob p o g (cn_now c) in
    let '(t, s', l') := alone (po_opts po) 4 (PutStore j) (sv_store srv) l in
    sv_store srv' = s' ∧ sv_ledger srv' = Some l' ∧
    t = PutDone j (match t with PutDone _ r => r | _ => Ok tt end) ∧
    rep = match t with PutDone _ (Err e) => replyErr err_msg e | _ => replyOK (writeID (HashOf (pf_data p))) end) ∧
  (∀ input, same_data srv (handleDelete err_msg c input srv).1 ∨
    ∃ id token tail o, read_signed input = Ok (id, token, tail) ∧
      verifyToken token opDelete id (cn_self c) (cn_now c) = Ok o ∧
      let '(srv', rep) := handleDelete err_msg c input srv in
      let '(t, s', l') := alone (po_opts po) 4 (DelClaim id o) (sv_store srv) l in
      sv_store srv' = s' ∧ sv_ledger srv' = Some l' ∧
      t = DelDone id o (match t with DelDone _ _ r => r | _ => Ok tt end) ∧
      rep = match t with DelDone _ _ (Err e) => replyErr err_msg e | _ => replyOK [] end) ∧
  (∀ now ex prev ids n,
    (collect_loop now ex prev ids (sv_store srv) l n).1 = gc_alone now ex prev ids (sv_store srv) l).
Proof.
  intros El. split; [|split].
  - intros p o g. by apply put_alone.
  - intros input. by apply delete_alone.
  - intros. apply collect_alone.
Qed.
End sequential.

(** ** Witnesses *)

Section examples.
#[local] Existing Instances pad_sha toy_ed toy_argon.

#[local] Instance ShardRow_eq_dec : EqDecision ShardRow.
Proof. solve_decision. Defined.
#[local] Instance OwnerRow_eq_dec : EqDecision OwnerRow.
Proof. solve_decision. Defined.

(** A second owner puts the bytes of [ex_served]. *)
Definition ex_bob : Owner := Public [Byte.x0b].
Definition ex_job : put_job := mkJob (mkPut ex_data [] [] [] ReasonClient) ex_bob None (1100 * Second).
Definition ex_size (id : ShardID) : Z := if decide (id = ex_id) then 2 else 0.
Definition ex_pool (ts : list task) : pool (S := Mem.MemStore) := mkPool ts (sv_store ex_served) ex_ledger.

Lemma ex_pool_sound : sound_pool (ok := Mem.wf) ex_size (ex_pool [DelClaim ex_id ex_owner; PutStore ex_job]).
Proof.
  destruct ex_served_backed as [Hok [Hwf Hb]]. split; [done|]. split; [done|]. split.
  - assert (shards ex_ledger = {[ ex_id := mkShard 2 1000 ]}) as E
      by (refine (proj1 (bool_decide_eq_true _) _); vm_compute; reflexivity).
    intros id r. cbn [ex_pool p_ledger]. rewrite E, lookup_singleton_Some. intros [<- <-]. reflexivity.
  - intros t j Ht Hj. cbn [ex_pool tasks] in Ht. apply elem_of_cons in Ht as [->|Ht]; [done|].
    apply list_elem_of_singleton in Ht as ->. simpl in Hj. apply (inj Some) in Hj as <-. vm_compute. reflexivity.
Qed.


Lemma put_durable_interleaved_witness :
  ∃ s l, rtc (mstep (po_opts ex_policy)) (ex_pool [PutStore ex_job]) (mkPool [PutDone ex_job (Ok tt)] s l) ∧
    is_ok (Get (job_id ex_job) s) = true ∧ is_Some (owners l !! (job_id ex_job, job_owner ex_job)).
Proof.
  destruct (put_pair (ok := Mem.wf) (sv_store ex_served) ex_data (proj1 ex_served_backed)) as (s & Ep & _).
  destruct (AddOwner (po_opts ex_policy) ex_id ex_bob 2 (1100 * Second) ex_ledger) as [l r] eqn:Ea.
  assert (r = Ok true) as Er by (transitivity (l, r).2; [reflexivity|]; rewrite <-Ea; vm_compute; reflexivity).
  assert (rtc (mstep (po_opts ex_policy)) (ex_pool [PutStore ex_job]) (mkPool [PutDone ex_job (Ok tt)] s l)) as Hr.
  { apply (rtc_l _ _ (mkPool [PutClaim ex_job] s ex_ledger)); [|apply rtc_once]; apply step_one; cbn [task_step].
    - change (job_data ex_job) with ex_data. rewrite Ep. reflexivity.
    - change (job_id ex_job) with ex_id. change (job_owner ex_job) with ex_bob. change (job_size ex_job) with 2.
      change (job_now ex_job) with (1100 * Second). rewrite Ea, Er. reflexivity. }
  exists s, l. split; [exact Hr|].
  apply (put_durable_interleaved (ok := Mem.wf) (po_opts ex_policy) ex_job (ex_pool [PutStore ex_job])
    (mkPool [PutDone ex_job (Ok tt)] s l)).
  - exact (proj1 ex_served_backed).
  - repeat constructor.
  - intros t0 Ht. apply list_elem_of_singleton in Ht as ->. right. exists ex_job. reflexivity.
  - exact Hr.
  - apply list_elem_of_singleton. reflexivity.
Defined.

Lemma delete_race_loses_put_witness :
  ∃ s' l', rtc (mstep (po_opts ex_policy)) (ex_pool [DelClaim ex_id ex_owner; PutStore ex_job])
             (mkPool [DelDone ex_id ex_owner (Ok tt); PutDone ex_job (Ok tt)] s' l') ∧
    Get ex_id s' = Err ErrNotFound ∧ shards l' !! ex_id = None ∧ owners l' !! (ex_id, ex_bob) = None.
Proof.
  apply (delete_race_loses_put (ok := Mem.wf) (po_opts ex_policy) ex_job ex_owner (sv_store ex_served) ex_ledger
    (mkShard 2 1000)).
  - exact (proj1 ex_served_backed).
  - vm_compute. reflexivity.
  - vm_compute. reflexivity.
  - assert (owners ex_ledger = {[ (ex_id, ex_owner) := mkOwner 1000 1060 ]}) as E
      by (refine (proj1 (bool_decide_eq_true _) _); vm_compute; reflexivity).
    intros o. rewrite E. split.
    + intros [r [Hr _]%lookup_singleton_Some]. apply pair_eq in Hr as [_ Hr]. symmetry. exact Hr.
    + intros ->. exists (mkOwner 1000 1060). vm_compute. reflexivity.
  - reflexivity.
  - vm_compute. reflexivity.
Defined.

(** The one-minute lease of the first owner ran out. *)
Lemma gc_race_strands_claim_witness :
  ∃ s' l', rtc (mstep (po_opts ex_policy)) (ex_pool [GcClaim ex_id (2000 * Second) true; PutStore ex_job])
             (mkPool [GcDone ex_id; PutDone ex_job (Ok tt)] s' l') ∧
    Get ex_id s' = Err ErrNotFound ∧ is_Some (owners l' !! (ex_id, ex_bob)).
Proof.
  destruct (gc_race_strands_claim (ok := Mem.wf) (po_opts ex_policy) ex_job (2000 * Second) true (sv_store ex_served)
    ex_ledger) as (s' & l' & Hr & Hg & Ho & _).
  - exact (proj1 ex_served_backed).
  - vm_compute. reflexivity.
  - refine (proj1 (bool_decide_eq_true _) _). vm_compute. reflexivity.
  - reflexivity.
  - vm_compute. reflexivity.
  - exists s', l'. split; [exact Hr|]. split; [exact Hg|exact Ho].
Defined.

Lemma handlers_are_tasks_witness :
  (collect_loop (2000 * Second) true [ex_id] [ex_id] (sv_store ex_served) ex_ledger 0).1
    = gc_alone ex_policy (2000 * Second) true [ex_id] [ex_id] (sv_store ex_served) ex_ledger.
Proof.
  assert (sv_ledger ex_served = Some ex_ledger) as E by (vm_compute; reflexivity).
  apply (handlers_are_tasks no_msg ex_policy (ex_conn 0) ex_served ex_ledger E).
Defined.
End examples.
