(* ===== verification/Codec.v ===== *)
(** * Codec: byte codecs by combinators

    encoding/json is not part of the repository: the codecs that use it take a
    [Json] instance, a pair of functions that round-trip on the values Go's
    encoder represents exactly. This file holds that interface and, to evaluate
    the model on concrete values, a family of self-delimiting codecs ([Ser])
    from which an instance for each record is composed. *)

From S2P Require Import Prelude GoLib.

(** encoding/json on one Go type: [json_ok] are the values it represents
    exactly (strings that are valid UTF-8). *)
Class Json (A : Type) := {
  Marshal : A → option bytes;
  Unmarshal : bytes → option A;
  json_ok : A → Prop;
  json_roundtrip : ∀ a, json_ok a → ∃ b, Marshal a = Some b ∧ Unmarshal b = Some a;
}.

(** A self-delimiting codec. *)
Class Ser (A : Type) := {
  ser : A → bytes;
  de : bytes → option (A * bytes);
  de_ser : ∀ a r, de (ser a ++ r) = Some (a, r);
}.

Definition ser_iso {A B} `{!Ser B} (f : A → B) (g : B → A) (H : ∀ a, g (f a) = a) : Ser A.
Proof.
  refine {| ser a := ser (f a); de b := match de b with Some (x, r) => Some (g x, r) | None => None end |}.
  intros a r. by rewrite de_ser, H.
Defined.

#[export] Instance byte_ser : Ser byte.
Proof. refine {| ser a := [a]; de b := match b with [] => None | x :: r => Some (x, r) end |}. done. Defined.

#[export] Instance unit_ser : Ser unit.
Proof. refine {| ser _ := []; de b := Some (tt, b) |}. by intros []. Defined.

#[export] Instance prod_ser {A B} `{!Ser A, !Ser B} : Ser (A * B).
Proof.
  refine {| ser p := ser p.1 ++ ser p.2;
            de b := match de b with
                    | Some (x, r) => match de r with Some (y, r) => Some ((x, y), r) | None => None end
                    | None => None
                    end |}.
  intros [x y] r. cbn [fst snd]. rewrite <-app_assoc. by rewrite !de_ser.
Defined.

#[export] Instance sum_ser {A B} `{!Ser A, !Ser B} : Ser (A + B).
Proof.
  refine {| ser p := match p with inl x => Byte.x00 :: ser x | inr y => Byte.x01 :: ser y end;
            de b := match b with
                    | Byte.x00 :: b => match de b with Some (x, r) => Some (inl x, r) | None => None end
                    | Byte.x01 :: b => match de b with Some (x, r) => Some (inr x, r) | None => None end
                    | _ => None
                    end |}.
  intros [x|y] r; cbn [app]; by rewrite de_ser.
Defined.

#[export] Instance bool_ser : Ser bool.
Proof. refine (ser_iso (B := unit + unit) (λ b : bool, if b then inl tt else inr tt) (λ s, match s with inl _ => true | inr _ => false end) _). by intros []. Defined.

#[export] Instance option_ser {A} `{!Ser A} : Ser (option A).
Proof.
  refine (ser_iso (B := A + unit) (λ o, match o with Some x => inl x | None => inr tt end)
    (λ s, match s with inl x => Some x | inr _ => None end) _). by intros [].
Defined.

(** A list is its elements, each after a one, then a zero. *)
Fixpoint de_list {A} (d : bytes → option (A * bytes)) (fuel : nat) (b : bytes) : option (list A * bytes) :=
  match fuel, b with
  | S fuel, Byte.x00 :: r => Some ([], r)
  | S fuel, Byte.x01 :: r =>
      match d r with
      | Some (x, r) => match de_list d fuel r with Some (l, r) => Some (x :: l, r) | None => None end
      | None => None
      end
  | _, _ => None
  end.

#[export] Instance list_ser {A} `{!Ser A} : Ser (list A).
Proof.
  refine {| ser l := foldr (λ x b, Byte.x01 :: ser x ++ b) [Byte.x00] l;
            de b := de_list de (length b) b |}.
  intros l r. set (enc := λ l : list A, foldr (λ x b, Byte.x01 :: ser x ++ b) [Byte.x00] l).
  change (de_list de (length (enc l ++ r)) (enc l ++ r) = Some (l, r)).
  assert (∀ fuel, (length (enc l ++ r) ≤ fuel)%nat → de_list de fuel (enc l ++ r) = Some (l, r)) as H; [|by apply H].
  induction l as [|x l IH]; intros fuel Hf.
  - destruct fuel; [simpl in Hf; lia|done].
  - change (enc (x :: l)) with (Byte.x01 :: ser x ++ enc l) in *. cbn [app] in *.
    destruct fuel as [|fuel]; [simpl in Hf; lia|]. cbn [de_list].
    rewrite <-app_assoc in *. rewrite de_ser. rewrite IH; [done|].
    cbn [length] in Hf. rewrite length_app in Hf. lia.
Defined.

Fixpoint pos_bits (p : positive) : list bool :=
  match p with xH => [] | xO p => false :: pos_bits p | xI p => true :: pos_bits p end.
Fixpoint bits_pos (l : list bool) : positive :=
  match l with [] => xH | false :: l => xO (bits_pos l) | true :: l => xI (bits_pos l) end.

#[export] Instance positive_ser : Ser positive.
Proof. refine (ser_iso pos_bits bits_pos _). intros p. induction p; simpl; congruence. Defined.

#[export] Instance Z_ser : Ser Z.
Proof.
  refine (ser_iso (λ z, match z with Z0 => inl tt | Zpos p => inr (inl p) | Zneg p => inr (inr p) end)
    (λ s, match s with inl _ => Z0 | inr (inl p) => Zpos p | inr (inr p) => Zneg p end) _). by intros [].
Defined.

#[export] Instance string_ser : Ser string.
Proof. refine (ser_iso String.list_byte_of_string String.string_of_list_byte _). apply String.string_of_list_byte_of_string. Defined.

#[export] Instance gmap_ser {A} `{!Ser A} : Ser (gmap string A).
Proof. refine (ser_iso (B := list (string * A)) map_to_list list_to_map _). intros m. apply list_to_map_to_list. Defined.

(** A whole value in a buffer. *)
Definition ser_json (A : Type) `{!Ser A} : Json A.
Proof.
  refine {| Marshal a := Some (ser a);
            Unmarshal b := match de b with Some (a, []) => Some a | _ => None end;
            json_ok _ := True |}.
  intros a _. eexists. split; [done|]. rewrite <-(app_nil_r (ser a)), de_ser. done.
Defined.
