(* ===== verification/Manifest.v ===== *)
(** * internal/manifest: capabilities, directories and their codecs

    [ReadCap] and [VerifyCap] (manifest.go), the directory type and its
    operations (dir.go), the two JSON codecs (manifest.go, dir.go, file.go) and
    the path splitter. [encoding/json] is the class [Json], one instance per
    struct type: [json_ok] are the values it represents faithfully (every string
    is valid UTF-8), and those are read back as they were. *)

From Stdlib Require Import Ascii.
From S2P Require Import Prelude GoLib Store Crypto Stripe Erasure Chunk Pipeline Codec.

(** [Kind] is a uint8 of which two values are named. *)
Inductive Kind := KindFile | KindDir | KindOther (n : Z).
#[export] Instance Kind_eq_dec : EqDecision Kind.
Proof. solve_decision. Defined.

Inductive manifest_err :=
| MJson                    (* json error *)
| MKeyHex | MKeySize (n : nat) | MShardHex | MShardSize (n : nat)
| MShardCount (n : nat) | MChunkCount (n : nat)
| MVersion (v : Z) | MNegativeSize (n : Z)
| MBlob (e : pipeline_err)
| MKindMismatch (k want : Kind)
| MEscapes
| MNotDir (name : string) | MNotFound (name : string) | MRootPath
| MCap (e : cap_err)
| MUnrecoverable (present : Z) | MBadK (k : Z) | MVerifyShard (e : store_err)
| MFuel.

(** ** manifest.go *)

Record ReadCap := mkCap {
  rc_Kind : Kind; rc_Key : bytes; rc_Compressed : bool; rc_K : Z; rc_M : Z; rc_Shards : list ShardID }.
#[export] Instance ReadCap_eq_dec : EqDecision ReadCap.
Proof. solve_decision. Defined.

Record VerifyCap := mkVCap {
  vc_Kind : Kind; vc_Compressed : bool; vc_K : Z; vc_M : Z; vc_Shards : list ShardID }.

(** The zero [crypto.Key]. *)
Definition zeroKey : bytes := replicate KeySize Byte.x00.
Definition zeroCap : ReadCap := mkCap KindFile zeroKey false 0 0 [].

Definition to_verify (c : ReadCap) : VerifyCap :=
  mkVCap (rc_Kind c) (rc_Compressed c) (rc_K c) (rc_M c) (rc_Shards c).
Definition of_verify (v : VerifyCap) : ReadCap :=
  mkCap (vc_Kind v) zeroKey (vc_Compressed v) (vc_K v) (vc_M v) (vc_Shards v).

Definition cap_Params (c : ReadCap) : Params := mkParams (rc_K c) (rc_M c).
Definition chunkRef (c : ReadCap) : ChunkRef := mkRef (rc_Key c) (rc_Compressed c) (rc_Shards c).
Definition capFromRef (kind : Kind) (ref : ChunkRef) (p : Params) : ReadCap :=
  mkCap kind (cr_Key ref) (cr_Compressed ref) (p_K p) (p_M p) (cr_Shards ref).

(** [VerifyBlob]: fetch every shard, count those that verify. *)
Fixpoint verify_shards {S} `{!Store S} (ids : list ShardID) (s : S) : result manifest_err Z :=
  match ids with
  | [] => Ok 0
  | id :: ids =>
      match Get id s with
      | Ok _ => n ← verify_shards ids s; Ok (1 + n)
      | Err ErrNotFound | Err ErrCorrupt => verify_shards ids s
      | Err e => Err (MVerifyShard e)
      end
  end.

Definition VerifyBlob {S} `{!Store S} (v : VerifyCap) (s : S) : result manifest_err unit :=
  if vc_K v <=? 0 then Err (MBadK (vc_K v))
  else
    present ← verify_shards (vc_Shards v) s;
    if present <? vc_K v then Err (MUnrecoverable present) else Ok tt.

(** *** The serialized cap *)

Record readCapJSON := mkCapJ {
  cj_kind : Kind; cj_key : string; cj_compressed : bool; cj_k : Z; cj_m : Z; cj_shards : list string }.

Definition maxManifestChunks : Z := 2 ^ 20.
Definition maxManifestShardsPerChunk : Z := 256.

Definition cap_to_json (c : ReadCap) : readCapJSON :=
  mkCapJ (rc_Kind c) (Hex.EncodeToString (rc_Key c)) (rc_Compressed c) (rc_K c) (rc_M c) (id_string <$> rc_Shards c).

Definition decodeKey (s : string) : result manifest_err bytes :=
  raw ← of_option MKeyHex (Hex.DecodeString s);
  if decide (length raw ≠ KeySize) then Err (MKeySize (length raw)) else Ok raw.

Definition decodeShardID (s : string) : result manifest_err ShardID :=
  raw ← of_option MShardHex (Hex.DecodeString s);
  if decide (length raw ≠ 32%nat) then Err (MShardSize (length raw)) else Ok raw.

Fixpoint decode_ids (ss : list string) : result manifest_err (list ShardID) :=
  match ss with
  | [] => Ok []
  | s :: ss => id ← decodeShardID s; ids ← decode_ids ss; Ok (id :: ids)
  end.

(** [ReadCap.UnmarshalJSON] after the struct is parsed. *)
Definition cap_of_json (j : readCapJSON) : result manifest_err ReadCap :=
  key ← decodeKey (cj_key j);
  if maxManifestShardsPerChunk <? Z.of_nat (length (cj_shards j)) then Err (MShardCount (length (cj_shards j)))
  else
    shards ← decode_ids (cj_shards j);
    Ok (mkCap (cj_kind j) key (cj_compressed j) (cj_k j) (cj_m j) shards).

Definition cap_MarshalBinary `{Json readCapJSON} (c : ReadCap) : result manifest_err bytes :=
  of_option MJson (Marshal (cap_to_json c)).
Definition cap_UnmarshalBinary `{Json readCapJSON} (b : bytes) : result manifest_err ReadCap :=
  j ← of_option MJson (Unmarshal b); cap_of_json j.

Definition WrapCap `{AesGcm, MlKem, Json readCapJSON} (encap_rnd : bytes) (nonce : option bytes)
    (recipient : bytes) (c : ReadCap) : result manifest_err bytes :=
  raw ← cap_MarshalBinary c; map_err MCap (Wrap encap_rnd nonce recipient raw).
Definition UnwrapCap `{AesGcm, MlKem, Json readCapJSON} (priv sealed : bytes) : result manifest_err ReadCap :=
  raw ← map_err MCap (Unwrap priv sealed); cap_UnmarshalBinary raw.

(** ** dir.go: directories *)

Record StatCache := mkStat {
  sc_Kind : Kind; sc_Size : Z; sc_Mode : Z; sc_ModTimeNS : Z; sc_ContentVersion : bytes; sc_MetaVersion : bytes }.
#[export] Instance StatCache_eq_dec : EqDecision StatCache.
Proof. solve_decision. Defined.
Definition bareStat (k : Kind) : StatCache := mkStat k 0 0 0 [] [].

Record Entry := mkEntry { e_Name : string; e_Cap : ReadCap; e_Stat : StatCache }.
#[export] Instance Entry_eq_dec : EqDecision Entry.
Proof. solve_decision. Defined.
Record DirManifest := mkDir { dm_Meta : Metadata; dm_Entries : list Entry }.
#[export] Instance DirManifest_eq_dec : EqDecision DirManifest.
Proof. solve_decision. Defined.

Definition NewDir (meta : Metadata) : DirManifest := mkDir meta [].

(** [sort.Search]: the smallest index in [i, j) at which [f] holds. *)
Fixpoint sort_Search (fuel : nat) (f : nat → bool) (i j : nat) : nat :=
  match fuel with
  | O => i
  | S fuel =>
      if (i <? j)%nat then
        let h := ((i + j) / 2)%nat in
        if f h then sort_Search fuel f i h else sort_Search fuel f (h + 1) j
      else i
  end.

Definition Lookup (d : DirManifest) (name : string) : option Entry :=
  let es := dm_Entries d in
  let f i := match es !! i with Some e => bool_decide (name ≤ e_Name e)%string | None => true end in
  match es !! sort_Search (length es) f 0 (length es) with
  | Some e => if decide (e_Name e = name) then Some e else None
  | None => None
  end.

Definition sort_entries : list Entry → list Entry := sort_by e_Name.

Definition Upsert (d : DirManifest) (e : Entry) : DirManifest :=
  let out := (λ cur, if decide (e_Name cur = e_Name e) then e else cur) <$> dm_Entries d in
  let replaced := existsb (λ cur, bool_decide (e_Name cur = e_Name e)) (dm_Entries d) in
  mkDir (dm_Meta d) (if replaced then out else sort_entries (out ++ [e])).

Definition Remove (d : DirManifest) (name : string) : DirManifest * bool :=
  (mkDir (dm_Meta d) (List.filter (λ cur, negb (bool_decide (e_Name cur = name))) (dm_Entries d)),
   existsb (λ cur, bool_decide (e_Name cur = name)) (dm_Entries d)).

(** *** The directory codec *)

(** [ej_cap] is [None] when the object has no "cap" field: the cap stays zero. *)
Record entryJSON := mkEntryJ { ej_name : string; ej_cap : option readCapJSON; ej_stat : StatCache }.
Record dirManifestJSON := mkDirJ { dj_version : Z; dj_meta : Metadata; dj_entries : list entryJSON }.

Definition dirManifestVersion : Z := 1.

Definition entry_to_json (e : Entry) : entryJSON := mkEntryJ (e_Name e) (Some (cap_to_json (e_Cap e))) (e_Stat e).
Definition dir_to_json (d : DirManifest) : dirManifestJSON :=
  mkDirJ dirManifestVersion (dm_Meta d) (entry_to_json <$> sort_entries (dm_Entries d)).

Definition EncodeDir `{Json dirManifestJSON} (d : DirManifest) : result manifest_err bytes :=
  of_option MJson (Marshal (dir_to_json d)).

Fixpoint entries_of_json (es : list entryJSON) : result manifest_err (list Entry) :=
  match es with
  | [] => Ok []
  | e :: es =>
      cap ← match ej_cap e with Some j => cap_of_json j | None => Ok zeroCap end; es ← entries_of_json es; Ok (mkEntry (ej_name e) cap (ej_stat e) :: es)
  end.

Definition DecodeDir `{Json dirManifestJSON} (data : bytes) : result manifest_err DirManifest :=
  jm ← of_option MJson (Unmarshal data);
  es ← entries_of_json (dj_entries jm);
  if (dj_version jm <? 1) || (dirManifestVersion <? dj_version jm) then Err (MVersion (dj_version jm))
  else Ok (mkDir (dj_meta jm) (sort_entries es)).

(** ** file.go: the file-manifest codec *)

Record fileChunkJSON := mkChunkJ { kj_key : string; kj_compressed : bool; kj_shards : list string }.
Record fileManifestJSON := mkFileJ {
  fj_version : Z; fj_name : string; fj_chunk_size : Z; fj_k : Z; fj_m : Z; fj_compress : bool; fj_size : Z;
  fj_meta : Metadata; fj_chunks : list fileChunkJSON }.

Definition fileManifestVersion : Z := 4.

Definition chunk_to_json (ch : ChunkRef) : fileChunkJSON :=
  mkChunkJ (Hex.EncodeToString (cr_Key ch)) (cr_Compressed ch) (id_string <$> cr_Shards ch).

Definition file_to_json (m : FileManifest) : fileManifestJSON :=
  mkFileJ fileManifestVersion (fm_Name m) (cf_ChunkSize (fm_Params m)) (p_K (cf_Params (fm_Params m)))
    (p_M (cf_Params (fm_Params m))) (cf_Compress (fm_Params m)) (fm_Size m) (fm_Meta m)
    (chunk_to_json <$> fm_Chunks m).

Definition EncodeFileManifest `{Json fileManifestJSON} (m : FileManifest) : result manifest_err bytes :=
  of_option MJson (Marshal (file_to_json m)).

Fixpoint chunks_of_json (cs : list fileChunkJSON) : result manifest_err (list ChunkRef) :=
  match cs with
  | [] => Ok []
  | jc :: cs =>
      if maxManifestShardsPerChunk <? Z.of_nat (length (kj_shards jc)) then Err (MShardCount (length (kj_shards jc)))
      else
        key ← decodeKey (kj_key jc);
        shards ← decode_ids (kj_shards jc);
        rest ← chunks_of_json cs;
        Ok (mkRef key (kj_compressed jc) shards :: rest)
  end.

Definition DecodeFileManifest `{Json fileManifestJSON} (data : bytes) : result manifest_err FileManifest :=
  jm ← of_option MJson (Unmarshal data);
  if (fj_version jm <? 1) || (fileManifestVersion <? fj_version jm) then Err (MVersion (fj_version jm))
  else if maxManifestChunks <? Z.of_nat (length (fj_chunks jm)) then Err (MChunkCount (length (fj_chunks jm)))
  else if fj_size jm <? 0 then Err (MNegativeSize (fj_size jm))
  else
    chunks ← chunks_of_json (fj_chunks jm);
    Ok (mkFile (fj_name jm) (mkConfig (fj_chunk_size jm) (mkParams (fj_k jm) (fj_m jm)) (fj_compress jm))
          (fj_size jm) (fj_meta jm) chunks).

(** ** Paths *)

(** [strings.Split] at slashes. *)
Fixpoint split_slash (cur : string) (p : string) : list string :=
  match p with
  | EmptyString => [cur]
  | String c p => if decide (c = "/"%char) then cur :: split_slash "" p else split_slash (cur +:+ String c "") p
  end.

(** The components of [path.Clean] of a rooted path: empty and "." components
    vanish, ".." removes the component before it, and at the root nothing. *)
Definition clean_step (acc : list string) (c : string) : list string :=
  if decide (c = "" ∨ c = ".") then acc
  else if decide (c = "..") then removelast acc
  else acc ++ [c].

Definition clean_parts (p : string) : list string := foldl clean_step [] (split_slash "" p).

Definition splitPath (p : string) : result manifest_err (list string) :=
  let parts := clean_parts p in
  if bool_decide (".." ∈ parts) then Err MEscapes else Ok parts.

(** ** Lemmas: the codecs *)

(** A cap as the program builds it: a 32-byte key and 32-byte addresses. *)
Definition cap_ok (c : ReadCap) : Prop :=
  length (rc_Key c) = KeySize ∧ Forall is_id (rc_Shards c) ∧
  Z.of_nat (length (rc_Shards c)) ≤ maxManifestShardsPerChunk.

Lemma decodeKey_hex k : length k = KeySize → decodeKey (Hex.EncodeToString k) = Ok k.
Proof.
  intros H. unfold decodeKey. rewrite Hex.Decode_Encode. cbn [of_option mbind result_bind].
  by rewrite decide_False by (by intros []).
Qed.

Lemma decode_ids_hex ids : Forall is_id ids → decode_ids (id_string <$> ids) = Ok ids.
Proof.
  induction 1 as [|id ids Hid _ IH]; [done|]. rewrite fmap_cons. cbn [decode_ids].
  assert (decodeShardID (id_string id) = Ok id) as ->.
  { unfold decodeShardID, id_string. rewrite Hex.Decode_Encode. cbn [of_option mbind result_bind].
    by rewrite decide_False by (by intros []). }
  cbn [mbind result_bind]. by rewrite IH.
Qed.

Lemma cap_json_roundtrip c : cap_ok c → cap_of_json (cap_to_json c) = Ok c.
Proof.
  intros (Hk & Hs & Hn). unfold cap_of_json, cap_to_json. cbn [cj_kind cj_key cj_compressed cj_k cj_m cj_shards].
  rewrite decodeKey_hex by done. cbn [mbind result_bind]. rewrite length_fmap.
  destruct (Z.ltb_spec maxManifestShardsPerChunk (Z.of_nat (length (rc_Shards c)))); [lia|].
  rewrite decode_ids_hex by done. by destruct c.
Qed.

Lemma entries_json_roundtrip es :
  Forall (λ e, cap_ok (e_Cap e)) es → entries_of_json (entry_to_json <$> es) = Ok es.
Proof.
  induction 1 as [|e es He _ IH]; [done|]. rewrite fmap_cons. cbn [entries_of_json entry_to_json ej_cap].
  rewrite cap_json_roundtrip by done. cbn [mbind result_bind]. rewrite IH. by destruct e.
Qed.

(** ** Lemmas: directories as finite maps *)

Record wf_dir (d : DirManifest) : Prop := {
  wd_nodup : NoDup (e_Name <$> dm_Entries d);
  wd_sorted : StronglySorted (key_le e_Name) (dm_Entries d);
}.

Definition dir_map (d : DirManifest) : gmap string Entry :=
  list_to_map ((λ e, (e_Name e, e)) <$> dm_Entries d).

Lemma fst_named (es : list Entry) : ((λ e, (e_Name e, e)) <$> es).*1 = e_Name <$> es.
Proof. induction es; simpl; by f_equal. Qed.

Lemma dir_map_Some d name e :
  NoDup (e_Name <$> dm_Entries d) →
  dir_map d !! name = Some e ↔ e ∈ dm_Entries d ∧ e_Name e = name.
Proof.
  intros Hnd. unfold dir_map. rewrite <-elem_of_list_to_map by (by rewrite fst_named).
  rewrite list_elem_of_fmap. naive_solver.
Qed.

Lemma dir_map_None d name : dir_map d !! name = None ↔ ∀ e, e ∈ dm_Entries d → e_Name e ≠ name.
Proof.
  unfold dir_map. rewrite <-not_elem_of_list_to_map, fst_named, list_elem_of_fmap. naive_solver.
Qed.

(** The binary search, on a predicate that turns from false to true once. *)
Lemma sort_Search_spec f fuel : ∀ i j,
  (j - i ≤ fuel)%nat → (i ≤ j)%nat → (∀ a b, (a ≤ b < j)%nat → f a = true → f b = true) →
  let r := sort_Search fuel f i j in
  (i ≤ r ≤ j)%nat ∧ (∀ k, (i ≤ k < r)%nat → f k = false) ∧ ((r < j)%nat → f r = true).
Proof.
  induction fuel as [|fuel IH]; intros i j Hfuel Hij Hmono; cbn [sort_Search].
  { split; [lia|]. split; lia. }
  destruct (Nat.ltb_spec i j) as [Hlt|Hge]; [|split; [lia|]; split; lia].
  set (h := ((i + j) / 2)%nat).
  assert (i ≤ h < j)%nat as Hh.
  { unfold h. split; [apply Nat.div_le_lower_bound; lia|apply Nat.Div0.div_lt_upper_bound; lia]. }
  destruct (f h) eqn:Efh.
  - destruct (IH i h) as (H1 & H2 & H3); [lia|lia| |].
    { intros a b Hab. apply Hmono. lia. }
    split; [lia|]. split; [done|]. intros _.
    destruct (decide (sort_Search fuel f i h < h)%nat) as [Hl|Hl]; [by apply H3|].
    by replace (sort_Search fuel f i h) with h by lia.
  - destruct (IH (h + 1)%nat j) as (H1 & H2 & H3); [lia|lia|done|].
    split; [lia|]. split; [|done]. intros k Hk. destruct (decide (h + 1 ≤ k)%nat); [apply H2; lia|].
    destruct (f k) eqn:Efk; [|done]. rewrite (Hmono k h) in Efh by (done || lia). done.
Qed.

Lemma string_le_antisym (x y : string) : (x ≤ y)%string → (y ≤ x)%string → x = y.
Proof. apply (anti_symm String.le). Qed.

Lemma sorted_lookup_le d i j a b :
  wf_dir d → (i ≤ j)%nat → dm_Entries d !! i = Some a → dm_Entries d !! j = Some b → (e_Name a ≤ e_Name b)%string.
Proof.
  intros [_ Hs] Hij Ha Hb. destruct (decide (i = j)) as [->|Hne]; [simplify_eq; reflexivity|].
  by apply (sorted_lookup (key_le e_Name) (dm_Entries d) i j a b Hs); [lia|..].
Qed.

Lemma Lookup_map d name : wf_dir d → Lookup d name = dir_map d !! name.
Proof.
  intros Hwf. unfold Lookup. set (es := dm_Entries d).
  set (f := λ i, match es !! i with Some e => bool_decide (name ≤ e_Name e)%string | None => true end).
  destruct (sort_Search_spec f (length es) 0 (length es)) as (H1 & H2 & H3); [lia|lia| |].
  { intros a b Hab. unfold f. destruct (es !! a) as [x|] eqn:Ea; [|by apply lookup_ge_None in Ea; lia].
    destruct (es !! b) as [y|] eqn:Eb; [|by apply lookup_ge_None in Eb; lia].
    rewrite !bool_decide_eq_true. intros Hx. transitivity (e_Name x); [done|].
    by eapply (sorted_lookup_le d a b); [|lia| |]. }
  set (r := sort_Search (length es) f 0 (length es)) in *.
  symmetry. destruct (es !! r) as [e|] eqn:Er.
  - case_decide as Hn; [by apply dir_map_Some; [apply Hwf|]; split; [by eapply list_elem_of_lookup_2|]|].
    apply dir_map_None. intros x [k Hk]%list_elem_of_lookup Hx. fold es in Hk.
    assert (r < length es)%nat as Hr by (by eapply lookup_lt_Some).
    specialize (H3 Hr). unfold f in H3. rewrite Er, bool_decide_eq_true in H3.
    destruct (decide (k < r)%nat) as [Hkr|Hkr].
    + specialize (H2 k ltac:(lia)). unfold f in H2. rewrite Hk, bool_decide_eq_false in H2. apply H2. by rewrite Hx.
    + apply Hn. apply string_le_antisym; [|done]. rewrite <-Hx. by eapply (sorted_lookup_le d r k); [|lia| |].
  - apply dir_map_None. intros x [k Hk]%list_elem_of_lookup Hx. fold es in Hk. apply lookup_ge_None in Er.
    assert (k < length es)%nat as Hkl by (by eapply lookup_lt_Some).
    specialize (H2 k ltac:(lia)). unfold f in H2. rewrite Hk, bool_decide_eq_false in H2. apply H2. by rewrite Hx.
Qed.

Lemma upsert_names (es : list Entry) e :
  e_Name <$> ((λ cur, if decide (e_Name cur = e_Name e) then e else cur) <$> es) = e_Name <$> es.
Proof.
  induction es as [|x es IH]; [done|]. rewrite !fmap_cons. f_equal; [|exact IH]. by case_decide.
Qed.

(** Whether a list is sorted by name is a matter of the names alone. *)
Lemma sorted_names (es es' : list Entry) :
  e_Name <$> es = e_Name <$> es' → StronglySorted (key_le e_Name) es → StronglySorted (key_le e_Name) es'.
Proof.
  intros E Hs. revert es' E. induction Hs as [|x es Hs IH Hx]; intros es' E.
  { symmetry in E. apply fmap_nil_inv in E as ->. constructor. }
  destruct es' as [|x' es']; [done|]. rewrite !fmap_cons in E. injection E as Ex E.
  constructor; [by apply IH|]. clear IH Hs.
  revert es' E. induction Hx as [|y es Hy _ IH]; intros es' E.
  { symmetry in E. apply fmap_nil_inv in E as ->. constructor. }
  destruct es' as [|y' es']; [done|]. rewrite !fmap_cons in E. injection E as Ey E.
  constructor; [|by apply IH]. unfold key_le in *. by rewrite <-Ex, <-Ey.
Qed.

Lemma existsb_name (es : list Entry) name :
  existsb (λ cur, bool_decide (e_Name cur = name)) es = true ↔ ∃ e, e ∈ es ∧ e_Name e = name.
Proof.
  rewrite existsb_exists. setoid_rewrite bool_decide_eq_true. by setoid_rewrite list_elem_of_In.
Qed.

Lemma Upsert_wf d e : wf_dir d → wf_dir (Upsert d e).
Proof.
  intros [Hnd Hs]. unfold Upsert. cbn zeta.
  destruct (existsb (λ cur, bool_decide (e_Name cur = e_Name e)) (dm_Entries d)) eqn:Eex.
  - split; cbn [dm_Entries].
    + by rewrite upsert_names.
    + eapply sorted_names; [|exact Hs]. by rewrite upsert_names.
  - split; cbn [dm_Entries]; [|apply sort_by_sorted].
    rewrite (sort_by_perm e_Name). rewrite fmap_app, upsert_names. apply NoDup_app. split; [done|].
    split; [|by apply NoDup_singleton]. intros x Hx Hin. apply list_elem_of_singleton in Hin as ->.
    apply list_elem_of_fmap in Hx as (y & E & Hy). apply not_true_iff_false in Eex. apply Eex, existsb_name.
    by exists y.
Qed.

Lemma Upsert_map d e : wf_dir d → dir_map (Upsert d e) = <[e_Name e := e]> (dir_map d).
Proof.
  intros Hwf. pose proof (Upsert_wf d e Hwf) as [Hnd' _]. destruct Hwf as [Hnd _]. apply map_eq. intros name.
  apply option_eq. intros x. rewrite dir_map_Some by done. rewrite lookup_insert_Some.
  assert (x ∈ dm_Entries (Upsert d e) ↔ x = e ∨ (x ∈ dm_Entries d ∧ e_Name x ≠ e_Name e)) as ->.
  { unfold Upsert. cbn zeta. cbn [dm_Entries].
    destruct (existsb (λ cur, bool_decide (e_Name cur = e_Name e)) (dm_Entries d)) eqn:Eex.
    - apply existsb_name in Eex as (y & Hy & Ey). rewrite list_elem_of_fmap. split.
      + intros (z & -> & Hz). case_decide; auto.
      + intros [->|[Hx Hne]]; [exists y; by rewrite decide_True|]. exists x. by rewrite decide_False.
    - apply not_true_iff_false in Eex. unfold sort_entries. rewrite (sort_by_perm e_Name).
      rewrite elem_of_app, list_elem_of_singleton, list_elem_of_fmap.
      assert (∀ z, z ∈ dm_Entries d → e_Name z ≠ e_Name e) as Hne.
      { intros z Hz Ez. apply Eex, existsb_name. by exists z. }
      split.
      + intros [(z & -> & Hz)| ->]; [|by left]. rewrite decide_False by (by apply Hne). right. split; [done|by apply Hne].
      + intros [->|[Hx Hn]]; [by right|]. left. exists x. by rewrite decide_False. }
  rewrite dir_map_Some by done. naive_solver.
Qed.

Lemma Remove_spec d name :
  wf_dir d → wf_dir (Remove d name).1 ∧ dir_map (Remove d name).1 = delete name (dir_map d) ∧
    ((Remove d name).2 = true ↔ is_Some (dir_map d !! name)).
Proof.
  intros [Hnd Hs].
  assert (NoDup (e_Name <$> List.filter (λ cur, negb (bool_decide (e_Name cur = name))) (dm_Entries d))) as Hnd'.
  { clear Hs. induction (dm_Entries d) as [|x es IH]; [constructor|]. rewrite fmap_cons in Hnd.
    apply NoDup_cons in Hnd as [Hx Hnd]. cbn [List.filter]. destruct (negb _); [|by apply IH].
    rewrite fmap_cons. apply NoDup_cons. split; [|by apply IH]. intros (y & Ey & Hy)%list_elem_of_fmap.
    apply elem_of_List_filter in Hy as [Hy _]. apply Hx. rewrite Ey. by apply list_elem_of_fmap_2. }
  assert (StronglySorted (key_le e_Name) (List.filter (λ cur, negb (bool_decide (e_Name cur = name))) (dm_Entries d))) as Hs'.
  { clear Hnd Hnd'. induction Hs as [|x es Hs IH Hx]; cbn [List.filter]; [constructor|]. destruct (negb _); [|done].
    constructor; [done|]. rewrite Forall_forall in Hx |- *. intros y Hy%elem_of_List_filter. apply Hx, Hy. }
  split; [by split|]. split.
  - apply map_eq. intros n. apply option_eq. intros x. rewrite lookup_delete_Some, !dir_map_Some by done.
    cbn [Remove fst dm_Entries]. rewrite elem_of_List_filter, negb_true_iff, bool_decide_eq_false. naive_solver.
  - cbn [Remove snd]. rewrite existsb_name. split.
    + intros (e & He & En). exists e. by apply dir_map_Some.
    + intros [e [He En]%dir_map_Some]; [|done]. by exists e.
Qed.

(** ** Lemmas: paths *)

Fixpoint has_slash (s : string) : bool :=
  match s with EmptyString => false | String c s => bool_decide (c = "/"%char) || has_slash s end.

(** A path component that names an entry. *)
Definition normal (c : string) : Prop := c ≠ "" ∧ c ≠ "." ∧ c ≠ ".." ∧ has_slash c = false.

(** [strings.Join] with slashes. *)
Fixpoint join_slash (parts : list string) : string :=
  match parts with
  | [] => ""
  | [c] => c
  | c :: parts => c +:+ String "/" (join_slash parts)
  end.

Lemma app_char_assoc cur c s : (cur +:+ String c "") +:+ s = cur +:+ String c s.
Proof. induction cur as [|x cur IH]; [done|]. exact (f_equal (String x) IH). Qed.

Lemma app_empty_r (s : string) : s +:+ "" = s.
Proof. induction s as [|x s IH]; [done|]. exact (f_equal (String x) IH). Qed.

Lemma has_slash_app s t : has_slash (s +:+ t) = has_slash s || has_slash t.
Proof. induction s as [|x s IH]; simpl; [done|]. by rewrite IH, orb_assoc. Qed.

Lemma split_slash_one c : ∀ cur, has_slash c = false → split_slash cur c = [cur +:+ c].
Proof.
  induction c as [|x c IH]; intros cur Hc; simpl in *; [by rewrite app_empty_r|].
  apply orb_false_iff in Hc as [Hx Hc]. apply bool_decide_eq_false in Hx. rewrite decide_False by done.
  by rewrite IH, app_char_assoc.
Qed.

Lemma split_slash_cons c p : ∀ cur, has_slash c = false →
  split_slash cur (c +:+ String "/" p) = (cur +:+ c) :: split_slash "" p.
Proof.
  induction c as [|x c IH]; intros cur Hc; simpl in *; [by rewrite app_empty_r|].
  apply orb_false_iff in Hc as [Hx Hc]. apply bool_decide_eq_false in Hx. rewrite decide_False by done.
  by rewrite IH, app_char_assoc.
Qed.

Lemma split_slash_no_slash p : ∀ cur, has_slash cur = false → Forall (λ c, has_slash c = false) (split_slash cur p).
Proof.
  induction p as [|x p IH]; intros cur Hc; simpl; [by constructor|]. case_decide as Hx.
  - constructor; [done|]. by apply IH.
  - apply IH. rewrite has_slash_app, Hc. simpl. by rewrite bool_decide_false.
Qed.

Lemma clean_normal cs : Forall (λ c, has_slash c = false) cs →
  ∀ acc, Forall normal acc → Forall normal (foldl clean_step acc cs).
Proof.
  induction 1 as [|c cs Hc _ IH]; intros acc Hacc; [done|]. cbn [foldl]. apply IH.
  unfold clean_step. case_decide as H1; [done|]. case_decide as H2.
  - clear -Hacc. induction Hacc as [|x acc Hx Hacc IH]; [constructor|]. simpl. destruct acc; [constructor|].
    constructor; [exact Hx|exact IH].
  - apply Forall_app. split; [done|]. constructor; [|constructor]. unfold normal. tauto.
Qed.

Lemma clean_step_normal acc c : normal c → clean_step acc c = acc ++ [c].
Proof.
  intros (H1 & H2 & H3 & _). unfold clean_step. rewrite decide_False by tauto. by rewrite decide_False.
Qed.

Lemma clean_join parts : Forall normal parts → ∀ acc,
  foldl clean_step acc (split_slash "" (join_slash parts)) = acc ++ parts.
Proof.
  induction 1 as [|c parts Hc Hparts IH]; intros acc.
  { simpl. unfold clean_step. rewrite decide_True by (by left). by rewrite app_nil_r. }
  destruct parts as [|c' parts].
  - cbn [join_slash]. rewrite split_slash_one by apply Hc. cbn [foldl String.append].
    by rewrite clean_step_normal.
  - cbn [join_slash] in IH |- *. rewrite split_slash_cons by apply Hc. cbn [foldl String.append].
    rewrite clean_step_normal by done. rewrite IH. by rewrite <-app_assoc.
Qed.

Lemma splitPath_Ok p : splitPath p = Ok (clean_parts p) ∧ Forall normal (clean_parts p).
Proof.
  assert (Forall normal (clean_parts p)) as HF.
  { apply clean_normal; [by apply split_slash_no_slash|constructor]. }
  split; [|done]. unfold splitPath. rewrite bool_decide_false; [done|]. intros Hin.
  rewrite Forall_forall in HF. by destruct (HF _ Hin) as (_ & _ & ? & _).
Qed.

Lemma splitPath_join parts : Forall normal parts → splitPath (join_slash parts) = Ok parts.
Proof. intros HF. destruct (splitPath_Ok (join_slash parts)) as [-> _]. unfold clean_parts. by rewrite clean_join. Qed.
Lemma join_slash_inj a b : Forall normal a → Forall normal b → join_slash a = join_slash b → a = b.
Proof. intros Ha Hb' E. apply (inj (@Ok manifest_err _)). by rewrite <-!splitPath_join, E by done. Qed.

(** ** Properties *)

(** A directory is a finite map from names to entries: from the empty
    directory on, every Upsert and Remove keeps the entries sorted and without
    duplicate names, the binary search of Lookup finds exactly the entry the map
    holds, and Upsert, Remove and Remove's report are insertion, deletion and
    membership. *)
Theorem dir_refines_map (meta : Metadata) (d : DirManifest) :
  wf_dir (NewDir meta) ∧ dir_map (NewDir meta) = ∅ ∧
  (wf_dir d →
    (∀ name, Lookup d name = dir_map d !! name) ∧
    (∀ e, wf_dir (Upsert d e) ∧ dir_map (Upsert d e) = <[e_Name e := e]> (dir_map d) ∧ dm_Meta (Upsert d e) = dm_Meta d) ∧
    (∀ name, wf_dir (Remove d name).1 ∧ dir_map (Remove d name).1 = delete name (dir_map d) ∧
      ((Remove d name).2 = true ↔ is_Some (dir_map d !! name)))).
Proof.
  split; [split; constructor|]. split; [done|]. intros Hwf. split; [|split].
  - intros name. by apply Lookup_map.
  - intros e. split; [by apply Upsert_wf|]. split; [by apply Upsert_map|done].
  - intros name. by apply Remove_spec.
Qed.

(** The directory codec: a directory whose caps are well formed is encoded,
    the bytes do not depend on the order of its entries, and decoding gives the
    directory back with its entries sorted by name (the directory itself when
    they were). *)
Theorem dir_codec `{Json dirManifestJSON} (d : DirManifest) :
  NoDup (e_Name <$> dm_Entries d) → Forall (λ e, cap_ok (e_Cap e)) (dm_Entries d) → json_ok (dir_to_json d) →
  ∃ b, EncodeDir d = Ok b ∧
    DecodeDir b = Ok (mkDir (dm_Meta d) (sort_entries (dm_Entries d))) ∧
    (wf_dir d → DecodeDir b = Ok d) ∧
    (∀ es, es ≡ₚ dm_Entries d → EncodeDir (mkDir (dm_Meta d) es) = Ok b).
Proof.
  intros Hnd Hcaps Hj. destruct (json_roundtrip _ Hj) as (b & Em & Eu). exists b.
  assert (∀ es, es ≡ₚ dm_Entries d → sort_entries es = sort_entries (dm_Entries d)) as Hcanon.
  { intros es Hp. apply (sorted_unique e_Name); [| |apply sort_by_sorted..].
    - unfold sort_entries. by rewrite (sort_by_perm e_Name), Hp.
    - unfold sort_entries. by rewrite !(sort_by_perm e_Name). }
  assert (DecodeDir b = Ok (mkDir (dm_Meta d) (sort_entries (dm_Entries d)))) as Hdec.
  { unfold DecodeDir. rewrite Eu. cbn [of_option mbind result_bind dir_to_json dj_entries dj_version dj_meta].
    rewrite entries_json_roundtrip. 2:{ unfold sort_entries. by rewrite (sort_by_perm e_Name). }
    cbn [mbind result_bind]. simpl. by rewrite (Hcanon (sort_entries (dm_Entries d)) (sort_by_perm e_Name _)). }
  split; [unfold EncodeDir; by rewrite Em|]. split; [done|]. split.
  - intros [_ Hs]. rewrite Hdec. f_equal. destruct d as [meta es]. cbn [dm_Meta dm_Entries] in *. f_equal.
    apply (sorted_unique e_Name); [|apply sort_by_perm|apply sort_by_sorted|done].
    unfold sort_entries. by rewrite (sort_by_perm e_Name).
  - intros es Hp. unfold EncodeDir, dir_to_json. cbn [dm_Meta dm_Entries]. rewrite Hcanon by done.
    unfold dir_to_json in Em. by rewrite Em.
Qed.

(** Paths cannot leave the root, but they are not rejected either: whatever
    the path, splitting it succeeds (the "escapes the root" error is never
    returned: a leading ".." is dropped), every component names an entry, and
    joining such components and splitting again gives them back. *)
Theorem splitPath_correct (p : string) :
  ∃ parts, splitPath p = Ok parts ∧ Forall normal parts ∧ splitPath (join_slash parts) = Ok parts.
Proof.
  destruct (splitPath_Ok p) as [E HF]. exists (clean_parts p). split; [done|]. split; [done|]. by apply splitPath_join.
Qed.

Example splitPath_dotdot : splitPath "../../etc/./x//y/../z" = Ok ["etc"; "x"; "z"].
Proof. reflexivity. Qed.

(** ** A concrete codec, to evaluate the model *)

#[export] Instance Kind_ser : Ser Kind.
Proof.
  refine (ser_iso (λ k, match k with KindFile => inl false | KindDir => inl true | KindOther n => inr n end)
    (λ x, match x with inl false => KindFile | inl true => KindDir | inr n => KindOther n end) _).
  by intros [].
Defined.
#[export] Instance readCapJSON_ser : Ser readCapJSON.
Proof.
  refine (ser_iso (λ c, (cj_kind c, cj_key c, cj_compressed c, cj_k c, cj_m c, cj_shards c))
    (λ '(a, b, c, d, e, f), mkCapJ a b c d e f) _). by intros [].
Defined.
#[export] Instance StatCache_ser : Ser StatCache.
Proof.
  refine (ser_iso (λ c, (sc_Kind c, sc_Size c, sc_Mode c, sc_ModTimeNS c, sc_ContentVersion c, sc_MetaVersion c))
    (λ '(a, b, c, d, e, f), mkStat a b c d e f) _). by intros [].
Defined.
#[export] Instance Metadata_ser : Ser Metadata.
Proof.
  refine (ser_iso (λ m, ((md_Mode m, md_Uid m, md_Gid m, md_ModTimeNS m, md_ChangeTimeNS m),
      (md_AccessTimeNS m, md_BirthTimeNS m, md_Flags m, md_ContentType m),
      (md_SymlinkTarget m, md_Xattr m, md_ContentVersion m, md_MetaVersion m)))
    (λ '((a, b, c, d, e), (f, g, h, i), (j, k, l, m)), mkMeta a b c d e f g h i j k l m) _). by intros [].
Defined.
#[export] Instance entryJSON_ser : Ser entryJSON.
Proof.
  refine (ser_iso (λ e, (ej_name e, ej_cap e, ej_stat e)) (λ '(a, b, c), mkEntryJ a b c) _). by intros [].
Defined.
#[export] Instance dirManifestJSON_ser : Ser dirManifestJSON.
Proof.
  refine (ser_iso (λ d, (dj_version d, dj_meta d, dj_entries d)) (λ '(a, b, c), mkDirJ a b c) _). by intros [].
Defined.
#[export] Instance fileChunkJSON_ser : Ser fileChunkJSON.
Proof.
  refine (ser_iso (λ c, (kj_key c, kj_compressed c, kj_shards c)) (λ '(a, b, c), mkChunkJ a b c) _). by intros [].
Defined.
#[export] Instance fileManifestJSON_ser : Ser fileManifestJSON.
Proof.
  refine (ser_iso (λ f, ((fj_version f, fj_name f, fj_chunk_size f, fj_k f, fj_m f), (fj_compress f, fj_size f, fj_meta f, fj_chunks f)))
    (λ '((a, b, c, d, e), (f, g, h, i)), mkFileJ a b c d e f g h i) _). by intros [].
Defined.

Definition toy_cap_json : Json readCapJSON := ser_json readCapJSON.
Definition toy_dir_json : Json dirManifestJSON := ser_json dirManifestJSON.
Definition toy_file_json : Json fileManifestJSON := ser_json fileManifestJSON.

Definition ex_cap (b : byte) : ReadCap := mkCap KindFile (replicate 32 b) false 1 1 [replicate 32 b].
Definition ex_dir : DirManifest :=
  mkDir zeroMeta [mkEntry "b" (ex_cap Byte.x02) (bareStat KindFile); mkEntry "a" (ex_cap Byte.x01) (bareStat KindFile)].

Lemma dir_codec_witness :
  ∃ b, @EncodeDir toy_dir_json ex_dir = Ok b ∧
    @DecodeDir toy_dir_json b = Ok (mkDir zeroMeta
      [mkEntry "a" (ex_cap Byte.x01) (bareStat KindFile); mkEntry "b" (ex_cap Byte.x02) (bareStat KindFile)]).
Proof.
  destruct (@dir_codec toy_dir_json ex_dir) as (b & He & Hd & _).
  - refine (proj1 (bool_decide_eq_true _) _). vm_compute. reflexivity.
  - repeat constructor; vm_compute; discriminate.
  - exact I.
  - exists b. split; [exact He|]. rewrite Hd. vm_compute. reflexivity.
Defined.
