(* ===== verification/Blobs.v ===== *)
(** * Blobs: the interface of internal/pipeline that internal/manifest uses

    [Blobs] is the pair StoreBlob/LoadBlob as internal/manifest sees it and
    [BlobLaws] what it relies on: a stored blob stays readable while others are
    stored. The pipeline over any Store that obeys [StoreLaws] is an instance. *)

From S2P Require Import Prelude GoLib Store Crypto Stripe Erasure Chunk Pipeline.

Class Blobs (W : Type) := {
  blob_put : Config → bytes → W → W * result pipeline_err ChunkRef;   (* pipeline.StoreBlob *)
  blob_get : Params → ChunkRef → W → result pipeline_err bytes;       (* pipeline.LoadBlob *)
}.

(** pipeline.maxManifestShardsPerChunk of internal/manifest: no stripe has more. *)
Definition maxShards : Z := 256.

(** What a user of the blob layer relies on. [holds w p ref x]: the blob [ref]
    is stored and decodes to [x]. [clean w]: the blobs put so far are within the
    size limit and no two of their shards collide under the hash; it can only be
    lost, never regained. *)
Class BlobLaws (W : Type) `{!Blobs W} (cfg : Config) (w_ok clean : W → Prop)
    (holds : W → Params → ChunkRef → bytes → Prop) := {
  clean_back : ∀ cfg' d w, clean (blob_put cfg' d w).1 → clean w;
  put_spec : ∀ d w, w_ok w → clean (blob_put cfg d w).1 →
    ∃ ref, (blob_put cfg d w).2 = Ok ref ∧ w_ok (blob_put cfg d w).1 ∧
      holds (blob_put cfg d w).1 (cf_Params cfg) ref d ∧
      length (cr_Key ref) = KeySize ∧ Forall is_id (cr_Shards ref) ∧
      0 < Z.of_nat (length (cr_Shards ref)) ≤ maxShards ∧
      ∀ p r x, holds w p r x → holds (blob_put cfg d w).1 p r x;
  holds_get : ∀ w p r x, w_ok w → holds w p r x → blob_get p r w = Ok x;
}.

(** ** The pipeline as a blob layer *)

(** A store, the number of random draws made and, for the statements only, the
    shards uploaded so far and whether every blob was within the size limit. *)
Record Vault (S : Type) := mkVault { v_store : S; v_draws : nat; v_log : list bytes; v_small : bool }.
Arguments mkVault {S} _ _ _ _.
Arguments v_store {S} _.
Arguments v_draws {S} _.
Arguments v_log {S} _.
Arguments v_small {S} _.

Section vault.
Context `{Hsha : Sha256} `{Hgcm : AesGcm} `{Hfl : Deflate} `{Hrs : ReedSolomon}.
Context {S : Type} `{Hst : !Store S} {ok : S → Prop} `{Hlaws : !StoreLaws S ok}.
Context (putter : Putter (S := S)) (rk rn : nat → option bytes).
Implicit Types (w : Vault S) (s t : S).

Definition vault_blobs : Blobs (Vault S) := {|
  blob_put cfg d w :=
    let i := v_draws w in
    let '(s, r) := StoreBlob putter (rk i) (rn i) cfg d (v_store w) in
    (mkVault s (i + 1) (v_log w ++ file_shards rk rn cfg i [d])
       (v_small w && (Z.of_nat (length d) <=? 2 ^ 62)), r);
  blob_get p ref w := LoadBlob p ref (v_store w);
|}.
#[local] Existing Instance vault_blobs.

(** Every shard that reads is one that was uploaded. *)
Definition vault_ok w : Prop :=
  ok (v_store w) ∧ ∀ id x, Get id (v_store w) = Ok x → x ∈ v_log w.
Definition vault_clean w : Prop :=
  (∀ d d', d ∈ v_log w → d' ∈ v_log w → HashOf d = HashOf d' → d = d') ∧ v_small w = true.
Definition vault_holds w (p : Params) (ref : ChunkRef) (x : bytes) : Prop :=
  params_ok p ∧ (∃ e, encoder p = Ok e) ∧
  ∃ shards, recipe p ref x shards ∧ readable shards (v_store w) ∧ (∀ sh, sh ∈ shards → sh ∈ v_log w) ∧
    p_K p ≤ present (v_store w) (cr_Shards ref).

Lemma put_new g s sh id x :
  put_like (ok := ok) g → ok s → Get id (g sh s).1 = Ok x → Get id s = Ok x ∨ x = sh.
Proof.
  intros Hg Hok. destruct (decide (id = HashOf sh)) as [->|Hne].
  - rewrite (pl_same _ Hg) by done. destruct (Get (HashOf sh) s) as [y|]; intros [= ->]; auto.
  - rewrite (pl_other _ Hg) by done. auto.
Qed.

Lemma put_shards_new desc shards : putter_ok (ok := ok) putter → ∀ i s t r id x,
  ok s → put_shards putter desc i shards s = (t, r) → Get id t = Ok x → Get id s = Ok x ∨ x ∈ shards.
Proof.
  intros Hp. induction shards as [|sh shards IH]; intros i s t r id x Hok E Hx; cbn [put_shards] in E.
  { apply pair_eq in E as [-> _]. by left. }
  specialize (Hp desc) as Hg. destruct (pl_result _ Hg s sh Hok) as [Er Hok1].
  pose proof (put_new _ s sh id x Hg Hok) as Hnew.
  destruct (put_shard putter desc sh s) as [s1 r1] eqn:Es. cbn [fst snd] in *. subst r1.
  rewrite decide_False in E by (by intros []).
  destruct (IH _ _ _ _ _ _ Hok1 E Hx) as [H1|H1]; [|right; by right].
  destruct (Hnew H1) as [->| ->]; [by left|right; by left].
Qed.

Lemma storeChunk_new cfg i d s t r id x :
  putter_ok (ok := ok) putter → ok s → storeChunk putter (rk i) (rn i) cfg d s = (t, r) →
  Get id t = Ok x → Get id s = Ok x ∨ x ∈ file_shards rk rn cfg i [d].
Proof.
  intros Hp Hok. unfold storeChunk. cbn [file_shards]. rewrite app_nil_r.
  destruct (encode_chunk (rk i) (rn i) cfg d) as [[[key comp] shards]|]; [|by intros [-> _]%pair_eq; left].
  destruct (put_shards putter _ 0 shards s) as [s1 r1] eqn:E. intros Er Hx.
  assert (s1 = t) as -> by (destruct r1; by apply pair_eq in Er as [-> _]). by eapply put_shards_new.
Qed.

Section laws.
Context (cfg : Config) `{HL : !RSLaws (p_K (cf_Params cfg)) (p_M (cf_Params cfg))}.
Context (Hset : setup (ok := ok) cfg putter rk rn).
Context (Hkeys : ∀ i key, rk i = Some key → length key = KeySize).

Lemma vault_holds_keep w w' p ref x :
  (∀ sh, sh ∈ v_log w → sh ∈ v_log w') → keeps (v_store w) (v_store w') → vault_ok w' → vault_clean w' →
  vault_holds w p ref x → vault_holds w' p ref x.
Proof.
  intros Hlog Hk [Hok' Hin'] [Hcf _] (Hp & He & shards & Hrec & Hr & Hsh & HK).
  split; [done|]. split; [done|]. exists shards. split; [done|]. split; [|split].
  - intros sh Hs. destruct (Get (HashOf sh) (v_store w')) as [y|e] eqn:E.
    + left. f_equal. apply Hcf; [exact (Hin' _ _ E)|auto|]. exact (get_sound _ _ _ Hok' E).
    + right. left. f_equal. exact (get_errors _ _ _ Hok' E).
  - auto.
  - etrans; [exact HK|]. by apply present_keeps.
Qed.

Lemma vault_laws : BlobLaws (Vault S) cfg vault_ok vault_clean vault_holds.
Proof.
  destruct Hset as [Hp Hc Hrand Hput]. split.
  - intros cfg0 d w. unfold blob_put, vault_blobs. destruct (StoreBlob _ _ _ _ _ _) as [s r]. cbn [fst].
    intros [Hcf Hsm]. cbn [v_log v_small] in *. apply andb_true_iff in Hsm as [Hsm _]. split; [|done].
    intros x y Hx Hy. apply Hcf; apply elem_of_app; by left.
  - intros d w [Hok Hin]. set (i := v_draws w).
    destruct (blob_put cfg d w) as [w' r'] eqn:Eput. cbn [fst snd]. intros Hcl.
    unfold blob_put, vault_blobs in Eput. fold i in Eput. unfold StoreBlob in Eput.
    destruct (storeChunk putter (rk i) (rn i) cfg d (v_store w)) as [s r] eqn:E.
    apply pair_eq in Eput as [<- <-].
    destruct Hcl as [Hcf Hsm]. cbn [v_log v_small] in *. apply andb_true_iff in Hsm as [Hsm Hd%Z.leb_le].
    destruct (storeChunk_ok putter Hput rk rn Hrand cfg i d (v_log w ++ file_shards rk rn cfg i [d]) (v_store w))
      as (t & ref & shards & Et & Ek & Hokt & _ & Hk & Hrec & Hstored & HU); [done|done|done| |set_solver|].
    { split; [done|]. intros x Hx y Hy. apply Hcf; [apply elem_of_app; left; exact (Hin _ _ Hy)|done|].
      exact (get_sound _ _ _ Hok Hy). }
    rewrite Et in E. apply pair_eq in E as [<- <-].
    set (w' := mkVault t _ _ _).
    assert (vault_ok w') as Hok'.
    { split; [done|]. intros id x Hx. cbn [v_log w'] in *. apply elem_of_app.
      destruct (storeChunk_new cfg i d (v_store w) t (Ok ref) id x Hput Hok Et Hx) as [H|H]; [left; exact (Hin _ _ H)|by right]. }
    destruct Hrec as [Eids Hrec].
    assert (Z.of_nat (length (cr_Shards ref)) = p_N (cf_Params cfg)) as Hn.
    { rewrite Eids, length_fmap. by destruct Hrec as (sealed & [Hl _] & _). }
    assert (present t (cr_Shards ref) = p_N (cf_Params cfg)) as Hpres.
    { rewrite <-Hn. unfold present. rewrite Eids. clear -Hstored. induction shards as [|sh l IH]; [done|].
      rewrite fmap_cons. cbn [List.filter]. rewrite Hstored by (by left). cbn [is_ok length].
      rewrite !Nat2Z.inj_succ, IH; [done|]. intros ? ?. apply Hstored. by right. }
    apply params_ok_spec in Hp as Hp'. unfold p_N in *.
    exists ref. split; [done|]. split; [done|]. split; [|split; [|split; [|split]]].
    + split; [done|]. split; [eexists; by apply encoder_ok|]. exists shards.
      split; [done|]. split; [intros sh Hs; left; by apply Hstored|]. split; [exact HU|].
      cbn [v_store w']. lia.
    + by eapply Hkeys.
    + rewrite Eids. apply Forall_fmap, Forall_true. intros x. apply HashOf_is_id.
    + unfold maxShards. lia.
    + intros p r x. apply vault_holds_keep; [|done|done|].
      * intros sh Hs. apply elem_of_app. by left.
      * split; [done|]. cbn [v_small w']. by rewrite Hsm, (proj2 (Z.leb_le _ _) Hd).
  - intros w p ref x [Hok _] (Hp1 & He & shards & Hrec & Hr & _ & HK).
    unfold blob_get, vault_blobs, LoadBlob. rewrite (loadChunk_readable p ref x shards) by done.
    by rewrite (proj2 (Z.leb_le _ _) HK).
Qed.
End laws.
End vault.

(** ** A concrete vault, for the examples *)

(** A digest in which the examples do not collide, and a cipher that only adds
    the tag, so that they evaluate fast. *)
Definition roll (st : bytes) (x : byte) : bytes :=
  match st with
  | a :: b :: rest => b :: rest ++ [Z2b (5 * b2Z a + 3 * b2Z b + 7 * b2Z x + 1)]
  | st => st
  end.
Lemma length_roll d st : length (foldl roll st d) = length st.
Proof.
  revert st. induction d as [|x d IH]; intros st; cbn [foldl]; [done|]. rewrite IH. destruct st as [|a [|b rest]]; [done..|].
  cbn. rewrite length_app. cbn. lia.
Qed.
Definition mod_sha : Sha256.
Proof.
  refine {| Sum256 d := foldl roll (replicate 32 Byte.x01) d |}.
  intros d. by rewrite length_roll, length_replicate.
Defined.

Definition null_gcm : AesGcm.
Proof.
  refine {| gcm_seal _ _ pt _ := pt ++ replicate 16 Byte.x00;
            gcm_open _ _ ct _ := Some (take (length ct - 16) ct) |}.
  - intros. by rewrite length_app, length_replicate, Nat.add_sub, take_app_length.
  - intros. by rewrite length_app, length_replicate.
Defined.

Abbreviation ex_mem := (@Mem.mem_store mod_sha).
Definition ex_blobs : Blobs (Vault Mem.MemStore) :=
  @vault_blobs mod_sha null_gcm toy_deflate Xor.coder _ ex_mem None (ex_rand 32 7) (ex_rand 12 9).
Definition ex_vault : Vault Mem.MemStore := mkVault Mem.NewMemStore 0 [] true.

Definition ex_vok : Vault Mem.MemStore → Prop := @vault_ok _ ex_mem (@Mem.wf mod_sha).
Definition ex_clean : Vault Mem.MemStore → Prop := @vault_clean mod_sha Mem.MemStore.
Definition ex_holds : Vault Mem.MemStore → Params → ChunkRef → bytes → Prop :=
  @vault_holds mod_sha null_gcm toy_deflate Xor.coder _ ex_mem.

Lemma ex_laws : @BlobLaws _ ex_blobs ex_cfg ex_vok ex_clean ex_holds.
Proof.
  apply (@vault_laws mod_sha null_gcm toy_deflate Xor.coder _ ex_mem _ (@Mem.mem_laws mod_sha)
    None (ex_rand 32 7) (ex_rand 12 9) ex_cfg Xor.coder_laws).
  - split; [reflexivity|simpl; lia| |apply no_putter_ok]. intros i. do 2 eexists. by split_and!.
  - intros i key. unfold ex_rand. by intros [= <-].
Qed.

Lemma ex_vault_ok : ex_vok ex_vault.
Proof. split; [apply Mem.wf_new|]. intros id x. cbn. done. Qed.

(** [ex_clean] is decidable by running through the log. *)
Definition collide (x y : bytes * bytes) : bool := bool_decide (x.1 = y.1) && negb (bool_decide (x.2 = y.2)).
Definition is_clean (w : Vault Mem.MemStore) : bool :=
  let hs := (λ d, (@HashOf mod_sha d, d)) <$> v_log w in
  forallb (λ x, forallb (λ y, negb (collide x y)) hs) hs && v_small w.

Lemma is_clean_ok w : is_clean w = true → ex_clean w.
Proof.
  unfold is_clean. intros [Hf Hs]%andb_true_iff. split; [|done]. intros d d' Hd Hd' E.
  rewrite forallb_forall in Hf.
  assert (∀ x, x ∈ v_log w → In (@HashOf mod_sha x, x) ((λ d, (@HashOf mod_sha d, d)) <$> v_log w)) as Hin.
  { intros x Hx. apply list_elem_of_In. by apply (list_elem_of_fmap_2 (λ d, (@HashOf mod_sha d, d))). }
  specialize (Hf _ (Hin d Hd)). rewrite forallb_forall in Hf. specialize (Hf _ (Hin d' Hd')).
  unfold collide in Hf. cbn [fst snd] in Hf. rewrite bool_decide_eq_true_2 in Hf by done.
  destruct (decide (d = d')) as [|Hne]; [done|]. by rewrite bool_decide_eq_false_2 in Hf.
Qed.
