(* ===== verification/Namespace.v ===== *)
(** * internal/manifest: the namespace, a copy-on-write tree of directories

    [Resolve], [ResolveEntry], [Graft] and [GraftRemove] (dir.go), over the
    interface [Blobs] that stands for what they use of internal/pipeline:
    storing one encrypted blob and loading it. *)

From Stdlib Require Import Ascii.
From S2P Require Import Prelude GoLib Store Crypto Stripe Erasure Chunk Pipeline Blobs Codec Manifest.

(** The directory codec, with the texts it represents. *)
Class DirJson := {
  dir_json :: Json dirManifestJSON;
  utf8 : string → Prop;
  meta_utf8 : Metadata → Prop;
  meta_utf8_zero : meta_utf8 zeroMeta;
  dir_json_ok : ∀ d, meta_utf8 (dm_Meta d) → Forall (λ e, utf8 (e_Name e)) (dm_Entries d) → json_ok (dir_to_json d);
}.

Section namespace.
Context `{Hj : DirJson} {W : Type} `{Hb : !Blobs W} (cfg : Config).
Implicit Types (w : W) (c : ReadCap) (d : DirManifest).

Definition putBlob (kind : Kind) (data : bytes) w : W * result manifest_err ReadCap :=
  let '(w, r) := blob_put cfg data w in
  (w, ref ← map_err MBlob r; Ok (capFromRef kind ref (cf_Params cfg))).

Definition getBlob c (want : Kind) w : result manifest_err bytes :=
  if decide (rc_Kind c ≠ want) then Err (MKindMismatch (rc_Kind c) want)
  else map_err MBlob (blob_get (cap_Params c) (chunkRef c) w).

Definition StoreDir d w : W * result manifest_err ReadCap :=
  match EncodeDir d with
  | Err e => (w, Err e)
  | Ok data => putBlob KindDir data w
  end.

Definition LoadDir c w : result manifest_err DirManifest :=
  data ← getBlob c KindDir w; DecodeDir data.

(** The loop of [Resolve]. *)
Fixpoint resolve_parts (parts : list string) (cur : ReadCap) w : result manifest_err ReadCap :=
  match parts with
  | [] => Ok cur
  | name :: parts =>
      if decide (rc_Kind cur ≠ KindDir) then Err (MNotDir name)
      else
        d ← LoadDir cur w;
        match Lookup d name with
        | None => Err (MNotFound name)
        | Some e => resolve_parts parts (e_Cap e) w
        end
  end.

Definition Resolve (root : ReadCap) (p : string) w : result manifest_err ReadCap :=
  parts ← splitPath p; resolve_parts parts root w.

Fixpoint resolve_entry (parts : list string) (cur : ReadCap) w : result manifest_err Entry :=
  match parts with
  | [] => Err (MNotFound "")
  | name :: parts =>
      if decide (rc_Kind cur ≠ KindDir) then Err (MNotDir name)
      else
        d ← LoadDir cur w;
        match Lookup d name with
        | None => Err (MNotFound name)
        | Some e => match parts with [] => Ok e | _ => resolve_entry parts (e_Cap e) w end
        end
  end.

Definition ResolveEntry (root : ReadCap) (p : string) w : result manifest_err Entry :=
  parts ← splitPath p;
  match parts with
  | [] => Ok (mkEntry "" root (bareStat KindDir))
  | _ => resolve_entry parts root w
  end.

Definition with_kind (s : StatCache) (k : Kind) : StatCache :=
  mkStat k (sc_Size s) (sc_Mode s) (sc_ModTimeNS s) (sc_ContentVersion s) (sc_MetaVersion s).

(** [graft] with [parts] not empty; [Graft] refuses the root path. *)
Fixpoint graft (dirCap : ReadCap) (parts : list string) (child : ReadCap) (stat : StatCache) w
    : W * result manifest_err ReadCap :=
  match LoadDir dirCap w with
  | Err e => (w, Err e)
  | Ok d =>
      match parts with
      | [] => (w, Err MRootPath)
      | [name] => StoreDir (Upsert d (mkEntry name child (with_kind stat (rc_Kind child)))) w
      | name :: rest =>
          let '(w, r) :=
            match Lookup d name with
            | Some e => (w, if decide (rc_Kind (e_Cap e) ≠ KindDir) then Err (MNotDir name) else Ok (e_Cap e))
            | None => StoreDir (NewDir zeroMeta) w
            end in
          match r with
          | Err e => (w, Err e)
          | Ok subCap =>
              let '(w, r) := graft subCap rest child stat w in
              match r with
              | Err e => (w, Err e)
              | Ok newSub => StoreDir (Upsert d (mkEntry name newSub (bareStat KindDir))) w
              end
          end
      end
  end.

Definition Graft (root : ReadCap) (p : string) (child : ReadCap) (stat : StatCache) w
    : W * result manifest_err ReadCap :=
  match splitPath p with
  | Err e => (w, Err e)
  | Ok [] => (w, Err MRootPath)
  | Ok parts => graft root parts child stat w
  end.

Fixpoint graftRemove (dirCap : ReadCap) (parts : list string) w : W * result manifest_err ReadCap :=
  match LoadDir dirCap w with
  | Err e => (w, Err e)
  | Ok d =>
      match parts with
      | [] => (w, Err MRootPath)
      | [name] =>
          let '(out, removed) := Remove d name in
          if negb removed then (w, Err (MNotFound name)) else StoreDir out w
      | name :: rest =>
          match Lookup d name with
          | None => (w, Err (MNotFound name))
          | Some e =>
              if decide (rc_Kind (e_Cap e) ≠ KindDir) then (w, Err (MNotDir name))
              else
                let '(w, r) := graftRemove (e_Cap e) rest w in
                match r with
                | Err e => (w, Err e)
                | Ok newSub => StoreDir (Upsert d (mkEntry name newSub (bareStat KindDir))) w
                end
          end
      end
  end.

Definition GraftRemove (root : ReadCap) (p : string) w : W * result manifest_err ReadCap :=
  match splitPath p with
  | Err e => (w, Err e)
  | Ok [] => (w, Err MRootPath)
  | Ok parts => graftRemove root parts w
  end.
End namespace.

(** ** Correctness of the tree operations *)

Section correctness.
Context `{Hj : DirJson} {W : Type} `{Hb : !Blobs W} (cfg : Config).
Context {w_ok clean : W → Prop} {holds : W → Params → ChunkRef → bytes → Prop}.
Context `{HL : !BlobLaws W cfg w_ok clean holds}.
Implicit Types (w : W) (c : ReadCap) (d : DirManifest).

(** A directory as the program stores it. *)
Record good_dir d : Prop := {
  gd_wf : wf_dir d;
  gd_caps : Forall (λ e, cap_ok (e_Cap e)) (dm_Entries d);
  gd_names : Forall (λ e, utf8 (e_Name e)) (dm_Entries d);
  gd_meta : meta_utf8 (dm_Meta d);
}.

(** The cap [c] addresses the directory [d]. *)
Definition dir_at w c d : Prop :=
  rc_Kind c = KindDir ∧ good_dir d ∧ ∃ data, holds w (cap_Params c) (chunkRef c) data ∧ DecodeDir data = Ok d.

(** [w'] holds what [w] holds, and more. *)
Definition ext w w' : Prop := w_ok w' ∧ ∀ p r x, holds w p r x → holds w' p r x.

Lemma ext_refl w : w_ok w → ext w w.
Proof. by split. Qed.
Lemma ext_trans w1 w2 w3 : ext w1 w2 → ext w2 w3 → ext w1 w3.
Proof. intros [_ H1] [H2 H3]. split; auto. Qed.

Lemma dir_at_ext w w' c d : ext w w' → dir_at w c d → dir_at w' c d.
Proof. intros [_ Hx] (Hk & Hg & data & Hd & E). split; [done|]. split; [done|]. exists data. auto. Qed.

Lemma dir_at_load w c d : w_ok w → dir_at w c d → LoadDir c w = Ok d.
Proof.
  intros Hok (Hk & _ & data & Hh & E). unfold LoadDir, getBlob. rewrite decide_False by (by intros []).
  rewrite (holds_get w _ _ _ Hok Hh). cbn [map_err mbind result_bind]. done.
Qed.

Lemma StoreDir_spec d w w' r :
  w_ok w → good_dir d → StoreDir cfg d w = (w', r) → clean w' →
  ∃ c, r = Ok c ∧ dir_at w' c d ∧ cap_ok c ∧ ext w w'.
Proof.
  intros Hok Hg E Hc. unfold StoreDir in E.
  destruct (json_roundtrip _ (dir_json_ok d (gd_meta d Hg) (gd_names d Hg))) as (b & Em & Eu).
  assert (EncodeDir d = Ok b) as Ee by (unfold EncodeDir; by rewrite Em). rewrite Ee in E.
  assert (DecodeDir b = Ok d) as Ed.
  { unfold DecodeDir. rewrite Eu. cbn [of_option mbind result_bind dir_to_json dj_entries dj_version dj_meta].
    rewrite entries_json_roundtrip.
    2:{ unfold sort_entries. rewrite (sort_by_perm e_Name). apply Hg. }
    cbn [mbind result_bind]. simpl. f_equal. destruct d as [meta es]. cbn [dm_Meta dm_Entries] in *. f_equal.
    destruct Hg as [[Hnd Hs] _ _ _]. cbn [dm_Entries] in *.
    assert (sort_entries es = es) as Hse.
    { apply (sorted_unique e_Name); [|apply sort_by_perm|apply sort_by_sorted|done].
      unfold sort_entries. by rewrite (sort_by_perm e_Name). }
    by rewrite !Hse. }
  unfold putBlob in E. pose proof (put_spec b w Hok) as Hp.
  destruct (blob_put cfg b w) as [w1 r1]. cbn [fst snd] in *. apply pair_eq in E as [-> <-].
  destruct (Hp Hc) as (ref & -> & Hok' & Hh & Hkey & Hids & Hn & Hkeep).
  cbn [map_err mbind result_bind]. eexists. split; [done|]. split; [|split; [|done]].
  - split; [done|]. split; [done|]. exists b. split; [|done]. destruct ref, cfg as [? [? ?] ?]. exact Hh.
  - split; [done|]. split; [done|]. cbn [capFromRef rc_Shards].
    unfold maxManifestShardsPerChunk. unfold maxShards in Hn. lia.
Qed.

Lemma StoreDir_back d w : clean (StoreDir cfg d w).1 → clean w.
Proof.
  unfold StoreDir, putBlob. destruct (EncodeDir d) as [b|]; [|done]. intros Hc. apply (clean_back cfg b).
  by destruct (blob_put cfg b w).
Qed.

Lemma graft_back child stat parts : ∀ root w, clean (graft cfg root parts child stat w).1 → clean w.
Proof.
  induction parts as [|name parts IH]; intros root w; cbn [graft]; [by destruct (LoadDir root w)|].
  destruct (LoadDir root w) as [d|]; [|done]. destruct parts as [|name' parts]; [apply StoreDir_back|].
  intros Hc. assert (clean (match Lookup d name with
    | Some e => (w, if decide (rc_Kind (e_Cap e) ≠ KindDir) then Err (MNotDir name) else Ok (e_Cap e))
    | None => StoreDir cfg (NewDir zeroMeta) w end).1 → clean w) as Hsub.
  { destruct (Lookup d name); [done|apply StoreDir_back]. }
  destruct (match Lookup d name with Some e => _ | None => _ end) as [w1 [subCap|]]; [|by apply Hsub].
  apply Hsub. cbn [fst]. apply (IH subCap). destruct (graft cfg subCap (name' :: parts) child stat w1) as [w2 [newSub|]]; [|done].
  by eapply StoreDir_back.
Qed.

Lemma graftRemove_back parts : ∀ root w, clean (graftRemove cfg root parts w).1 → clean w.
Proof.
  induction parts as [|name parts IH]; intros root w; cbn [graftRemove]; [by destruct (LoadDir root w)|].
  destruct (LoadDir root w) as [d|]; [|done]. destruct parts as [|name' parts].
  { destruct (Remove d name) as [out []]; [apply StoreDir_back|done]. }
  destruct (Lookup d name) as [e|]; [|done]. destruct (decide _); [done|].
  intros Hc. apply (IH (e_Cap e)). destruct (graftRemove cfg (e_Cap e) (name' :: parts) w) as [w2 [newSub|]]; [|done].
  by eapply StoreDir_back.
Qed.

Lemma good_upsert d e :
  good_dir d → cap_ok (e_Cap e) → utf8 (e_Name e) → good_dir (Upsert d e).
Proof.
  intros [Hwf Hc Hn Hm] Hce Hne.
  assert (∀ P : Entry → Prop, Forall P (dm_Entries d) → P e → Forall P (dm_Entries (Upsert d e))) as HF.
  { intros P HP He. unfold Upsert. cbn zeta. cbn [dm_Entries].
    assert (Forall P ((λ cur, if decide (e_Name cur = e_Name e) then e else cur) <$> dm_Entries d)) as H1.
    { rewrite Forall_fmap. eapply Forall_impl; [exact HP|]. intros x Hx. simpl. by case_decide. }
    destruct (existsb _ _); [done|]. unfold sort_entries. rewrite (sort_by_perm e_Name). apply Forall_app. auto. }
  split; [by apply Upsert_wf|by apply HF|by apply HF|done].
Qed.

Lemma good_remove d name : good_dir d → good_dir (Remove d name).1.
Proof.
  intros [Hwf Hc Hn Hm]. split; [by apply Remove_spec| | |done]; cbn [Remove fst dm_Entries].
  - rewrite Forall_forall in Hc |- *. intros x [Hx _]%elem_of_List_filter. by apply Hc.
  - rewrite Forall_forall in Hn |- *. intros x [Hx _]%elem_of_List_filter. by apply Hn.
Qed.

Lemma good_new : good_dir (NewDir zeroMeta).
Proof. split; [split; constructor|constructor|constructor|apply meta_utf8_zero]. Qed.

Lemma Lookup_upsert d e name :
  wf_dir d → Lookup (Upsert d e) name = if decide (e_Name e = name) then Some e else Lookup d name.
Proof.
  intros Hwf. rewrite !Lookup_map by (done || by apply Upsert_wf). rewrite Upsert_map by done.
  by rewrite lookup_insert.
Qed.

(** The entries on a path, from [c] to [c']. *)
Inductive walk w : ReadCap → list string → ReadCap → Prop :=
| walk_here c : walk w c [] c
| walk_in c d name e parts c' :
    dir_at w c d → Lookup d name = Some e → walk w (e_Cap e) parts c' → walk w c (name :: parts) c'.

Lemma walk_ext w w' c parts c' : ext w w' → walk w c parts c' → walk w' c parts c'.
Proof. intros Hx. induction 1; [constructor|]. econstructor; [by eapply dir_at_ext|done|done]. Qed.

Lemma walk_resolve w c parts c' : w_ok w → walk w c parts c' → resolve_parts parts c w = Ok c'.
Proof.
  intros Hok. induction 1 as [|c d name e parts c' Hd Hl _ IH]; [done|]. cbn [resolve_parts].
  rewrite decide_False by (intros Hk; by destruct Hd). rewrite (dir_at_load w c d Hok Hd). cbn [mbind result_bind].
  by rewrite Hl.
Qed.

(** The path leads to a directory that lacks its next component. *)
Inductive missing w : ReadCap → list string → Prop :=
| missing_here c d name parts : dir_at w c d → Lookup d name = None → missing w c (name :: parts)
| missing_in c d name e parts :
    dir_at w c d → Lookup d name = Some e → missing w (e_Cap e) parts → missing w c (name :: parts).

Lemma missing_ext w w' c parts : ext w w' → missing w c parts → missing w' c parts.
Proof.
  intros Hx. induction 1; [eapply missing_here|eapply missing_in]; try done; by eapply dir_at_ext.
Qed.

Lemma missing_resolve w c parts :
  w_ok w → missing w c parts → ∃ name, resolve_parts parts c w = Err (MNotFound name).
Proof.
  intros Hok. induction 1 as [c d name parts Hd Hl|c d name e parts Hd Hl _ [n IH]]; cbn [resolve_parts];
    rewrite decide_False by (intros Hk; by destruct Hd); rewrite (dir_at_load w c d Hok Hd);
    cbn [mbind result_bind]; rewrite Hl; eauto.
Qed.

(** The directories on a path are there, as far as the path exists; what is in
    the way is a directory. *)
Inductive openable w : ReadCap → list string → Prop :=
| open_last c d name : dir_at w c d → openable w c [name]
| open_new c d name name' parts :
    dir_at w c d → Lookup d name = None → openable w c (name :: name' :: parts)
| open_in c d name e name' parts :
    dir_at w c d → Lookup d name = Some e → rc_Kind (e_Cap e) = KindDir → openable w (e_Cap e) (name' :: parts) →
    openable w c (name :: name' :: parts).

(** Neither path is below the other. *)
Fixpoint apart (p q : list string) : Prop :=
  match p, q with
  | x :: p, y :: q => x ≠ y ∨ (x = y ∧ apart p q)
  | _, _ => False
  end.

Lemma dir_at_unique w c d d' : w_ok w → dir_at w c d → dir_at w c d' → d = d'.
Proof.
  intros Hok Hd Hd'. apply (inj (@Ok manifest_err DirManifest)).
  by rewrite <-(dir_at_load w c d), <-(dir_at_load w c d').
Qed.

(** Paths that do not go through the rewritten entry. *)
Lemma upsert_walk w w' c d root' e q c' :
  w_ok w → dir_at w c d → dir_at w' root' (Upsert d e) → ext w w' → walk w c q c' →
  (∃ name q', q = name :: q' ∧ name ≠ e_Name e) → walk w' root' q c'.
Proof.
  intros Hok Hd Hd' Hx Hw (name & q' & -> & Hne). inversion Hw as [|? d0 ? e0 ? ? Hd0 Hl Hw']; subst.
  assert (d0 = d) as -> by (by eapply dir_at_unique).
  econstructor; [exact Hd'| |by eapply walk_ext]. rewrite Lookup_upsert by apply Hd.
  by rewrite decide_False.
Qed.

(** A rewritten entry, and the walk below it. *)
Lemma upsert_walk_in w root' d e q c' :
  wf_dir d → dir_at w root' (Upsert d e) → walk w (e_Cap e) q c' → walk w root' (e_Name e :: q) c'.
Proof.
  intros Hwf Hd Hw. econstructor; [exact Hd| |exact Hw]. rewrite Lookup_upsert by done. by rewrite decide_True.
Qed.

Lemma apart_head name q : apart [name] q → ∃ y q', q = y :: q' ∧ y ≠ name.
Proof. destruct q as [|y q]; [done|]. intros [H|[_ []]]. by exists y, q. Qed.

Lemma dir_at_kind w c d : dir_at w c d → rc_Kind c = KindDir.
Proof. by intros [? _]. Qed.

(** The directory [graft] descends into: the one that is there, or a new one. *)
Lemma graft_sub root d name name' parts w w1 r1 :
  w_ok w → dir_at w root d → openable w root (name :: name' :: parts) →
  match Lookup d name with
  | Some e => (w, if decide (rc_Kind (e_Cap e) ≠ KindDir) then Err (MNotDir name) else Ok (e_Cap e))
  | None => StoreDir cfg (NewDir zeroMeta) w
  end = (w1, r1) → clean w1 →
  ∃ subCap, r1 = Ok subCap ∧ ext w w1 ∧ openable w1 subCap (name' :: parts) ∧
    ∀ e, Lookup d name = Some e → e_Cap e = subCap.
Proof.
  intros Hok Hd Ho E Hcl. destruct (Lookup d name) as [e|] eqn:El.
  - apply pair_eq in E as [<- <-]. inversion Ho as [|? d0 ? ? ? Hd0 Hl|? d0 ? e0 ? ? Hd0 Hl Hk Ho']; subst;
      assert (d0 = d) as -> by (by eapply dir_at_unique); [congruence|]. assert (e0 = e) as -> by congruence.
    rewrite decide_False by (by intros []). exists (e_Cap e). split; [done|]. split; [by apply ext_refl|].
    split; [done|]. by intros ? [= ->].
  - apply StoreDir_spec in E as (c & -> & Hd1 & _ & Hx); [|done|apply good_new|done].
    exists c. split; [done|]. split; [done|]. split; [|done].
    destruct parts; [by eapply open_last|by eapply open_new].
Qed.

Lemma graft_spec child stat : ∀ parts root w w' r,
  w_ok w → openable w root parts → Forall utf8 parts → cap_ok child →
  graft cfg root parts child stat w = (w', r) → clean w' →
  ∃ root', r = Ok root' ∧ cap_ok root' ∧ rc_Kind root' = KindDir ∧ ext w w' ∧ walk w' root' parts child ∧
    ∀ q c, apart parts q → walk w root q c → walk w' root' q c.
Proof.
  induction parts as [|name parts IH]; intros root w w' r Hok Ho Hu Hc Eg Hcl; [by inversion Ho|].
  apply Forall_cons in Hu as [Hname Hu].
  assert (∃ d, dir_at w root d) as [d Hd] by (inversion Ho; eauto).
  cbn [graft] in Eg. rewrite (dir_at_load w root d Hok Hd) in Eg. destruct parts as [|name' parts].
  { apply StoreDir_spec in Eg as (root' & -> & Hd' & Hcr & Hx); [|done|by apply good_upsert; [apply Hd|..]|done].
    exists root'. split_and!; try done; [by eapply dir_at_kind|apply Hx..| |].
    - eapply (upsert_walk_in _ _ d (mkEntry name child _)); [apply Hd|exact Hd'|constructor].
    - intros q c (y & q' & -> & Hne)%apart_head Hw. eapply upsert_walk; [done|done|exact Hd'|done|done|]. by exists y, q'. }
  destruct (match Lookup d name with Some e => _ | None => _ end) as [w1 r1] eqn:Esub.
  pose proof (λ sc, graft_back child stat (name' :: parts) sc w1) as Hback1.
  assert (clean w1) as Hcl1.
  { destruct r1 as [subCap|]; [|by apply pair_eq in Eg as [-> _]]. apply (Hback1 subCap).
    destruct (graft cfg subCap (name' :: parts) child stat w1) as [w2 [newSub|]]; [|by apply pair_eq in Eg as [-> _]].
    cbn [fst]. apply (StoreDir_back (Upsert d (mkEntry name newSub (bareStat KindDir)))). by rewrite Eg. }
  destruct (graft_sub root d name name' parts w w1 r1 Hok Hd Ho Esub Hcl1) as (subCap & -> & Hx1 & Ho1 & Hsame).
  destruct (graft cfg subCap (name' :: parts) child stat w1) as [w2 r2] eqn:Erec.
  assert (clean w2) as Hcl2.
  { destruct r2 as [newSub|]; [|by apply pair_eq in Eg as [-> _]].
    apply (StoreDir_back (Upsert d (mkEntry name newSub (bareStat KindDir)))). by rewrite Eg. }
  destruct (IH subCap w1 w2 r2 (proj1 Hx1) Ho1 Hu Hc Erec Hcl2) as (newSub & -> & Hcs & Hks & Hx2 & Hw2 & Hoth).
  pose proof (ext_trans _ _ _ Hx1 Hx2) as Hx12.
  apply StoreDir_spec in Eg as (root' & -> & Hd' & Hcr & Hx3); [|apply Hx2|by apply good_upsert; [apply Hd|..]|done].
  exists root'. split_and!; try done; [by eapply dir_at_kind|by apply (ext_trans w w2 w')| |].
  - eapply (upsert_walk_in _ _ d (mkEntry name newSub _)); [apply Hd|exact Hd'|]. by eapply walk_ext.
  - intros q c Hap Hw. destruct q as [|y q]; [done|]. destruct Hap as [Hne|[<- Hap]].
    + eapply upsert_walk; [exact Hok|exact Hd|exact Hd'|by apply (ext_trans w w2 w')|exact Hw|].
      exists y, q. split; [done|]. by apply not_eq_sym.
    + inversion Hw as [|? d0 ? e0 ? ? Hd0 Hl Hw']; subst. assert (d0 = d) as -> by (by eapply dir_at_unique).
      eapply (upsert_walk_in _ _ d (mkEntry name newSub _)); [apply Hd|exact Hd'|].
      eapply walk_ext; [exact Hx3|]. apply Hoth; [done|]. rewrite <-(Hsame e0 Hl). by eapply walk_ext.
Qed.

(** Removing the last component of a path that is there. *)
Lemma graftRemove_spec : ∀ parts root w w' r c,
  w_ok w → parts ≠ [] → walk w root parts c → Forall utf8 parts →
  graftRemove cfg root parts w = (w', r) → clean w' →
  ∃ root', r = Ok root' ∧ cap_ok root' ∧ rc_Kind root' = KindDir ∧ ext w w' ∧
    missing w' root' parts ∧
    ∀ q c, apart parts q → walk w root q c → walk w' root' q c.
Proof.
  induction parts as [|name parts IH]; intros root w w' r c Hok Hne Hw Hu Eg Hcl; [done|].
  apply Forall_cons in Hu as [Hname Hu].
  inversion Hw as [|? d ? e ? ? Hd Hl Hw']; subst.
  cbn [graftRemove] in Eg. rewrite (dir_at_load w root d Hok Hd) in Eg. destruct parts as [|name' parts].
  { pose proof (good_remove d name (proj1 (proj2 Hd))) as Hg.
    destruct (Remove_spec d name (gd_wf _ (proj1 (proj2 Hd)))) as (Hwf' & Hmap & Hrem).
    rewrite Lookup_map in Hl by apply Hd.
    destruct (Remove d name) as [out b]. cbn [fst snd] in *. destruct b; cbn [negb] in Eg.
    2:{ assert (false = true) by (apply Hrem; eauto). done. }
    apply StoreDir_spec in Eg as (root' & -> & Hd' & Hcr & Hx); [|done|done|done].
    exists root'. split_and!; try done; [by eapply dir_at_kind|apply Hx..| |].
    - eapply missing_here; [exact Hd'|]. by rewrite Lookup_map, Hmap, lookup_delete_eq.
    - intros q c' (y & q' & -> & Hy)%apart_head Hq. inversion Hq as [|? d0 ? e0 ? ? Hd0 Hl0 Hq']; subst.
      assert (d0 = d) as -> by (by eapply dir_at_unique). econstructor; [exact Hd'| |by eapply walk_ext].
      rewrite Lookup_map, Hmap by done. rewrite lookup_delete_ne by done. rewrite <-Lookup_map by apply Hd. done. }
  rewrite Hl in Eg. assert (rc_Kind (e_Cap e) = KindDir) as Hk by (inversion Hw'; subst; by eapply dir_at_kind).
  rewrite decide_False in Eg by (by intros []).
  destruct (graftRemove cfg (e_Cap e) (name' :: parts) w) as [w2 r2] eqn:Erec.
  assert (clean w2) as Hcl2.
  { destruct r2 as [newSub|]; [|by apply pair_eq in Eg as [-> _]].
    apply (StoreDir_back (Upsert d (mkEntry name newSub (bareStat KindDir)))). by rewrite Eg. }
  destruct (IH (e_Cap e) w w2 r2 c Hok ltac:(done) Hw' Hu Erec Hcl2) as (newSub & -> & Hcs & Hks & Hx2 & Hmiss & Hoth).
  apply StoreDir_spec in Eg as (root' & -> & Hd' & Hcr & Hx3); [|apply Hx2|by apply good_upsert; [apply Hd|..]|done].
  exists root'. split_and!; try done; [by eapply dir_at_kind|by apply (ext_trans w w2 w')| |].
  - eapply (missing_in _ _ _ _ (mkEntry name newSub (bareStat KindDir))); [exact Hd'| |by eapply missing_ext].
    rewrite Lookup_upsert by apply Hd. by rewrite decide_True.
  - intros q c' Hap Hq. destruct q as [|y q]; [done|]. destruct Hap as [Hny|[<- Hap]].
    + eapply upsert_walk; [exact Hok|exact Hd|exact Hd'|by apply (ext_trans w w2 w')|exact Hq|].
      exists y, q. split; [done|]. by apply not_eq_sym.
    + inversion Hq as [|? d0 ? e0 ? ? Hd0 Hl0 Hq']; subst. assert (d0 = d) as -> by (by eapply dir_at_unique).
      assert (e0 = e) as -> by congruence.
      eapply (upsert_walk_in _ _ d (mkEntry name newSub _)); [apply Hd|exact Hd'|].
      eapply walk_ext; [exact Hx3|]. by apply Hoth.
Qed.

(** ** Properties *)

(** Grafting a child at a path: if the directories of the path are there
    as far as the path goes, Graft returns a new root in which the path
    resolves to the child, and every path that is neither above nor below it
    resolves to what it resolved to before; the old root still resolves every
    path as before, whatever was stored meanwhile (copy on write). *)
Theorem graft_correct w root p parts child stat w' r :
  w_ok w → splitPath p = Ok parts → openable w root parts → Forall utf8 parts → cap_ok child →
  Graft cfg root p child stat w = (w', r) → clean w' →
  ∃ root', r = Ok root' ∧ rc_Kind root' = KindDir ∧ w_ok w' ∧ Resolve root' p w' = Ok child ∧
    (∀ q qs c, splitPath q = Ok qs → apart parts qs → walk w root qs c → Resolve root' q w' = Ok c) ∧
    (∀ q qs c, splitPath q = Ok qs → walk w root qs c → Resolve root q w' = Ok c).
Proof.
  intros Hok Hp Ho Hu Hc E Hcl. unfold Graft in E. rewrite Hp in E.
  assert (graft cfg root parts child stat w = (w', r)) as Eg by (destruct parts; [by inversion Ho|done]).
  destruct (graft_spec child stat parts root w w' r Hok Ho Hu Hc Eg Hcl) as (root' & -> & _ & Hk & Hx & Hw & Hq).
  pose proof (proj1 Hx) as Hok'. exists root'. split_and!; [done|done|done| | |].
  - unfold Resolve. rewrite Hp. cbn [mbind result_bind]. by apply walk_resolve.
  - intros q qs c Eq Ha Hwq. unfold Resolve. rewrite Eq. cbn [mbind result_bind]. apply walk_resolve; auto.
  - intros q qs c Eq Hwq. unfold Resolve. rewrite Eq. cbn [mbind result_bind].
    apply walk_resolve; [done|]. by eapply walk_ext.
Qed.

(** Removing a path that resolves: GraftRemove returns a new root in which
    the path is not found any more, and every path that is neither above nor
    below it resolves as before; the old root is untouched. *)
Theorem graft_remove_correct w root p parts c w' r :
  w_ok w → splitPath p = Ok parts → parts ≠ [] → walk w root parts c → Forall utf8 parts →
  GraftRemove cfg root p w = (w', r) → clean w' →
  ∃ root' name, r = Ok root' ∧ Resolve root' p w' = Err (MNotFound name) ∧
    (∀ q qs c, splitPath q = Ok qs → apart parts qs → walk w root qs c → Resolve root' q w' = Ok c) ∧
    Resolve root p w' = Ok c.
Proof.
  intros Hok Hp Hne Hw Hu E Hcl. unfold GraftRemove in E. rewrite Hp in E.
  assert (graftRemove cfg root parts w = (w', r)) as Eg by (by destruct parts).
  destruct (graftRemove_spec parts root w w' r c Hok Hne Hw Hu Eg Hcl) as (root' & -> & _ & _ & Hx & Hm & Hq).
  pose proof (proj1 Hx) as Hok'. destruct (missing_resolve w' root' parts Hok' Hm) as [name Hr].
  exists root', name. unfold Resolve. rewrite Hp. cbn [mbind result_bind]. split_and!; [done|done| |].
  - intros q qs c' Eq Ha Hwq. rewrite Eq. cbn [mbind result_bind]. apply walk_resolve; auto.
  - apply walk_resolve; [done|]. by eapply walk_ext.
Qed.
End correctness.

(** ** Examples *)

Definition ex_dj : DirJson.
Proof. refine {| dir_json := toy_dir_json; utf8 _ := True; meta_utf8 _ := True |}; done. Defined.

(** A root directory with one entry "c". *)
Definition ex_root_dir : DirManifest := mkDir zeroMeta [mkEntry "c" (ex_cap Byte.x03) (bareStat KindFile)].
Definition ex_rooted : Vault Mem.MemStore * result manifest_err ReadCap :=
  @StoreDir ex_dj _ ex_blobs ex_cfg ex_root_dir ex_vault.
Definition cap_of (r : result manifest_err ReadCap) : ReadCap := match r with Ok c => c | Err _ => zeroCap end.
Definition ex_root : ReadCap := cap_of ex_rooted.2.

Lemma ex_cap_ok b : cap_ok (ex_cap b).
Proof. split; [reflexivity|]. split; [repeat constructor|]. vm_compute. congruence. Qed.

Lemma ex_root_good : @good_dir ex_dj ex_root_dir.
Proof.
  split; [split| |repeat constructor..].
  - refine (proj1 (bool_decide_eq_true _) _). vm_compute. reflexivity.
  - repeat constructor.
  - constructor; [apply ex_cap_ok|constructor].
Qed.

Lemma ex_root_at : ex_vok ex_rooted.1 ∧ @dir_at ex_dj _ ex_holds ex_rooted.1 ex_root ex_root_dir ∧ cap_ok ex_root.
Proof.
  destruct (@StoreDir_spec ex_dj _ ex_blobs ex_cfg ex_vok ex_clean ex_holds ex_laws ex_root_dir ex_vault ex_rooted.1 ex_rooted.2)
    as (c & E & Hd & Hc & Hx).
  - apply ex_vault_ok.
  - apply ex_root_good.
  - unfold ex_rooted. by destruct (StoreDir _ _ _).
  - apply is_clean_ok. vm_compute. reflexivity.
  - unfold ex_root. rewrite E. exact (conj (proj1 Hx) (conj Hd Hc)).
Qed.

Definition ex_grafted : Vault Mem.MemStore * result manifest_err ReadCap :=
  @Graft ex_dj _ ex_blobs ex_cfg ex_root "/a/../d//b" (ex_cap Byte.x05) (bareStat KindFile) ex_rooted.1.

(** A file is grafted at "d/b", below a directory that is created for it; "c"
    stays. *)
Lemma graft_correct_witness :
  ∃ root', ex_grafted.2 = Ok root' ∧ @Resolve ex_dj _ ex_blobs root' "d/b" ex_grafted.1 = Ok (ex_cap Byte.x05) ∧
    @Resolve ex_dj _ ex_blobs root' "c" ex_grafted.1 = Ok (ex_cap Byte.x03).
Proof.
  destruct ex_root_at as (Hok & Hd & Hc).
  destruct (@graft_correct ex_dj _ ex_blobs ex_cfg ex_vok ex_clean ex_holds ex_laws ex_rooted.1 ex_root "/a/../d//b"
    ["d"; "b"] (ex_cap Byte.x05) (bareStat KindFile) ex_grafted.1 ex_grafted.2)
    as (root' & E & _ & _ & Hr & Hq & _).
  - exact Hok.
  - reflexivity.
  - apply (@open_new ex_dj _ ex_holds ex_rooted.1 ex_root ex_root_dir "d" "b" []); [exact Hd|reflexivity].
  - repeat constructor.
  - apply ex_cap_ok.
  - unfold ex_grafted. destruct (Graft _ _ _ _ _ _). reflexivity.
  - apply is_clean_ok. vm_compute. reflexivity.
  - exists root'. split; [exact E|]. split; [exact Hr|].
    apply (Hq "c" ["c"]); [reflexivity|left; discriminate|].
    apply (@walk_in ex_dj _ ex_holds ex_rooted.1 ex_root ex_root_dir "c" _ [] _ Hd eq_refl), walk_here.
Defined.

Definition ex_removed : Vault Mem.MemStore * result manifest_err ReadCap :=
  @GraftRemove ex_dj _ ex_blobs ex_cfg ex_root "c" ex_rooted.1.

Lemma graft_remove_correct_witness :
  ∃ root' name, ex_removed.2 = Ok root' ∧ @Resolve ex_dj _ ex_blobs root' "c" ex_removed.1 = Err (MNotFound name).
Proof.
  destruct ex_root_at as (Hok & Hd & Hc).
  destruct (@graft_remove_correct ex_dj _ ex_blobs ex_cfg ex_vok ex_clean ex_holds ex_laws ex_rooted.1 ex_root "c"
    ["c"] (ex_cap Byte.x03) ex_removed.1 ex_removed.2) as (root' & name & E & Hr & _).
  - exact Hok.
  - reflexivity.
  - discriminate.
  - apply (@walk_in ex_dj _ ex_holds ex_rooted.1 ex_root ex_root_dir "c" _ [] _ Hd eq_refl), walk_here.
  - repeat constructor.
  - unfold ex_removed. destruct (GraftRemove _ _ _ _). reflexivity.
  - apply is_clean_ok. vm_compute. reflexivity.
  - exists root', name. exact (conj E Hr).
Defined.
