(* ===== verification/Merge.v ===== *)
(** * internal/manifest/merge.go: three-way merge of namespaces

    [Merge3] over the tree operations of [Namespace]: what a merge does at one
    level ([merge_loop_spec]), that it succeeds on whole trees, and what it
    keeps. *)

From Stdlib Require Import Ascii.
From S2P Require Import Prelude GoLib Store Crypto Stripe Erasure Chunk Pipeline Blobs Codec Manifest Namespace.

(** ** merge.go *)

(** [path.Ext]: the suffix from the last dot of the last path element. *)
Fixpoint ext_from (s : string) : option string :=
  match s with
  | EmptyString => None
  | String c s' =>
      match ext_from s' with
      | Some e => Some e
      | None => if decide (c = "."%char) then (if has_slash s' then None else Some s) else None
      end
  end.
Definition path_Ext (name : string) : string := default "" (ext_from name).

(** [strings.TrimSuffix] of a suffix. *)
Definition TrimSuffix (s suffix : string) : string :=
  let n := (String.length s - String.length suffix)%nat in
  if String.eqb (String.substring n (String.length suffix) s) suffix then String.substring 0 n s else s.

Definition DefaultLabeler (name : string) : string :=
  let ext := path_Ext name in TrimSuffix name ext +:+ " (conflict)" +:+ ext.

Definition capEqual (a b : ReadCap) : bool :=
  bool_decide (rc_Kind a = rc_Kind b) && bool_decide (rc_Compressed a = rc_Compressed b) &&
  (rc_K a =? rc_K b) && (rc_M a =? rc_M b) && bool_decide (rc_Key a = rc_Key b) &&
  bool_decide (rc_Shards a = rc_Shards b).

Definition capPresent (c : ReadCap) : bool := negb (bool_decide (rc_Shards c = [])).

Definition entryMap (d : DirManifest) : gmap string Entry :=
  foldl (λ m e, <[e_Name e := e]> m) ∅ (dm_Entries d).

Definition unionNames (a b : gmap string Entry) : list string := sort_by id (map_to_list (a ∪ b)).*1.

(** The cap of [lE[name]]: the zero cap when there is no entry. *)
Definition capOf (e : option Entry) : ReadCap := match e with Some e => e_Cap e | None => zeroCap end.

(** The switch of the loop of [mergeDir]. *)
Inductive verdict :=
| VKeep (e : option Entry)       (* one side's decision *)
| VEdit (e : Entry)              (* an edit that raced a delete: kept and flagged *)
| VSub                           (* both edited a subdirectory *)
| VBoth (le re : Entry).         (* both edited: a conflict copy *)

Definition judge (l r b : option Entry) : verdict :=
  let lc := capOf l in let rc := capOf r in let bc := capOf b in
  if capEqual lc rc then VKeep l
  else if capEqual bc lc then VKeep r
  else if capEqual bc rc then VKeep l
  else match l, r with
       | None, None => VKeep None
       | None, Some re => VEdit re
       | Some le, None => VEdit le
       | Some le, Some re =>
           if bool_decide (rc_Kind lc = KindDir) && bool_decide (rc_Kind rc = KindDir) then VSub else VBoth le re
       end.

Section merge.
Context `{Hj : DirJson} {W : Type} `{Hb : !Blobs W} (cfg : Config) (label : string → string).
Implicit Types (w : W) (c : ReadCap) (d : DirManifest).

Definition loadDirOpt c w : result manifest_err DirManifest :=
  if negb (capPresent c) || negb (bool_decide (rc_Kind c = KindDir)) then Ok (NewDir zeroMeta) else LoadDir c w.

(** The range loop over the names; [rec] is the recursive call. *)
Fixpoint merge_loop (rec : string → ReadCap → ReadCap → ReadCap → W → W * result manifest_err (ReadCap * list string))
    (prefix : string) (lE rE bE : gmap string Entry) (names : list string) (out : DirManifest)
    (conflicts : list string) w : W * result manifest_err (DirManifest * list string) :=
  match names with
  | [] => (w, Ok (out, conflicts))
  | name :: names =>
      let go out conflicts w := merge_loop rec prefix lE rE bE names out conflicts w in
      match judge (lE !! name) (rE !! name) (bE !! name) with
      | VKeep None => go out conflicts w
      | VKeep (Some e) => go (Upsert out e) conflicts w
      | VEdit e => go (Upsert out e) (conflicts ++ [prefix +:+ name]) w
      | VSub =>
          let '(w, r) := rec (prefix +:+ name +:+ "/") (capOf (bE !! name)) (capOf (lE !! name)) (capOf (rE !! name)) w in
          match r with
          | Err e => (w, Err e)
          | Ok (subCap, subConf) =>
              go (Upsert out (mkEntry name subCap (bareStat KindDir))) (conflicts ++ subConf) w
          end
      | VBoth le re =>
          go (Upsert (Upsert out le) (mkEntry (label name) (e_Cap re) (e_Stat re))) (conflicts ++ [prefix +:+ name]) w
      end
  end.

(** [fuel] bounds the nesting of directories. *)
Fixpoint mergeDir (fuel : nat) (prefix : string) (base local remote : ReadCap) w
    : W * result manifest_err (ReadCap * list string) :=
  match fuel with
  | O => (w, Err MFuel)
  | S fuel =>
      if capEqual local remote then (w, Ok (local, []))
      else if capEqual base local then (w, Ok (remote, []))
      else if capEqual base remote then (w, Ok (local, []))
      else
        match (bD ← loadDirOpt base w; lD ← loadDirOpt local w; rD ← loadDirOpt remote w; Ok (bD, lD, rD)) with
        | Err e => (w, Err e)
        | Ok (bD, lD, rD) =>
            let bE := entryMap bD in let lE := entryMap lD in let rE := entryMap rD in
            let '(w, r) := merge_loop (mergeDir fuel) prefix lE rE bE (unionNames lE rE) (NewDir (dm_Meta lD)) [] w in
            match r with
            | Err e => (w, Err e)
            | Ok (out, conflicts) =>
                let '(w, r) := StoreDir cfg out w in
                (w, merged ← r; Ok (merged, conflicts))
            end
        end
  end.

Definition Merge3 (fuel : nat) (base local remote : ReadCap) w : W * result manifest_err (ReadCap * list string) :=
  mergeDir fuel "" base local remote w.
End merge.

(** ** Lemmas: one level of a merge *)

Lemma capEqual_eq a b : capEqual a b = true ↔ a = b.
Proof.
  unfold capEqual. rewrite !andb_true_iff, !bool_decide_eq_true, !Z.eqb_eq. split; [|by intros ->].
  intros (((((? & ?) & ?) & ?) & ?) & ?). destruct a, b. simpl in *. by subst.
Qed.

Lemma entryMap_dir d : wf_dir d → entryMap d = dir_map d.
Proof.
  intros [Hnd _]. unfold entryMap, dir_map. clear -Hnd.
  assert (∀ (es : list Entry) (m : gmap string Entry), NoDup (e_Name <$> es) → (∀ e, e ∈ es → m !! e_Name e = None) →
    foldl (λ m e, <[e_Name e := e]> m) m es = list_to_map ((λ e, (e_Name e, e)) <$> es) ∪ m) as H.
  { induction es as [|e es IH]; intros m Hes Hm; simpl; [by rewrite map_empty_union|].
    rewrite fmap_cons in Hes. apply NoDup_cons in Hes as [He Hes]. rewrite IH; [|done|].
    - rewrite <-insert_union_r, insert_union_l; [done|]. apply not_elem_of_list_to_map. by rewrite fst_named.
    - intros x Hx. rewrite lookup_insert_ne; [apply Hm; by right|]. intros E. apply He. rewrite E.
      by apply list_elem_of_fmap_2. }
  rewrite H by (done || intros; apply lookup_empty). by rewrite map_union_empty.
Qed.

Lemma unionNames_spec a b : NoDup (unionNames a b) ∧ ∀ n, n ∈ unionNames a b ↔ is_Some (a !! n) ∨ is_Some (b !! n).
Proof.
  split.
  - unfold unionNames. rewrite (sort_by_perm id). apply NoDup_fst_map_to_list.
  - intros n. unfold unionNames. rewrite (sort_by_perm id), list_elem_of_fmap. split.
    + intros ([n' e] & -> & He%elem_of_map_to_list). apply lookup_union_Some_raw in He as [He|[_ He]]; eauto.
    + intros Hn. assert (is_Some ((a ∪ b) !! n)) as [e He].
      { rewrite lookup_union_is_Some. done. }
      exists (n, e). split; [done|]. by apply elem_of_map_to_list.
Qed.

Lemma sub_app_l {A} (l l' : list A) x : x ∈ l → x ∈ l ++ l'.
Proof. rewrite elem_of_app. by left. Qed.
Lemma sub_app_r {A} (l l' : list A) x : x ∈ l' → x ∈ l ++ l'.
Proof. rewrite elem_of_app. by right. Qed.
Lemma in_snoc {A} (l : list A) x : x ∈ l ++ [x].
Proof. apply sub_app_r, list_elem_of_singleton. done. Qed.

Lemma judge_sub l r b :
  judge l r b = VSub →
  ∃ le re, l = Some le ∧ r = Some re ∧ rc_Kind (e_Cap le) = KindDir ∧ rc_Kind (e_Cap re) = KindDir.
Proof.
  unfold judge. destruct (capEqual _ _); [done|]. destruct (capEqual _ _); [done|]. destruct (capEqual _ _); [done|].
  destruct l as [le|], r as [re|]; try done. cbn [capOf]. destruct (_ && _) eqn:E; [|done].
  apply andb_true_iff in E as [?%bool_decide_eq_true ?%bool_decide_eq_true]. by exists le, re.
Qed.

(** An entry that one side changed is kept, or is a directory that both have. *)
Lemma judge_keeps l r b e :
  l = Some e ∨ r = Some e → e_Cap e ≠ capOf b → e_Cap e ≠ zeroCap →
  (∃ e', (judge l r b = VKeep (Some e') ∨ judge l r b = VEdit e') ∧ e_Cap e' = e_Cap e) ∨ judge l r b = VSub ∨
  (∃ le re, judge l r b = VBoth le re ∧ e_Cap le = e_Cap e) ∨
  (∃ le re, judge l r b = VBoth le re ∧ e_Cap re = e_Cap e).
Proof.
  intros He Hb Hz. unfold judge.
  destruct (capEqual (capOf l) (capOf r)) eqn:E1; [apply capEqual_eq in E1|].
  { left. destruct l as [le|]; [|by destruct He as [|He]; [|subst r; simpl in E1; congruence]].
    exists le. split; [by left|]. destruct He as [[= ->]|He]; [done|]. by subst r. }
  destruct (capEqual (capOf b) (capOf l)) eqn:E2; [apply capEqual_eq in E2|].
  { left. destruct He as [He|He]; subst; [by simpl in E2|]. eauto. }
  destruct (capEqual (capOf b) (capOf r)) eqn:E3; [apply capEqual_eq in E3|].
  { left. destruct He as [He|He]; subst; [|by simpl in E3]. eauto. }
  destruct l as [le|], r as [re|]; [| | |by destruct He].
  - destruct (_ && _); [by right; left|]. right; right. destruct He as [[= ->]|[= ->]]; [left|right]; eauto.
  - left. destruct He as [[= ->]|]; [|done]. eauto.
  - left. destruct He as [|[= ->]]; [done|]. eauto.
Qed.

(** No conflict copy gets the name of an entry or of another copy. *)
Definition fresh_labels (label : string → string) (names : list string) : Prop :=
  (∀ n m, n ∈ names → m ∈ names → label n ≠ m) ∧
  (∀ n m, n ∈ names → m ∈ names → label n = label m → n = m).

Section level.
Context {W : Type} (label : string → string).
Context (rec : string → ReadCap → ReadCap → ReadCap → W → W * result manifest_err (ReadCap * list string)).
Context (prefix : string) (lE rE bE : gmap string Entry).

(** A recursive call that the loop makes. *)
Definition sub_call (n : string) (w1 w2 : W) (c : ReadCap) (sub : list string) : Prop :=
  judge (lE !! n) (rE !! n) (bE !! n) = VSub ∧
  rec (prefix +:+ n +:+ "/") (capOf (bE !! n)) (capOf (lE !! n)) (capOf (rE !! n)) w1 = (w2, Ok (c, sub)).
Definition called (w1 w2 : W) : Prop := ∃ n c sub, sub_call n w1 w2 c sub.

(** What becomes of the name [n] in the merged directory [out], when the loop
    goes from [w] to [w']. *)
Definition settled (w w' : W) (out : DirManifest) (conflicts : list string) (n : string) : Prop :=
  match judge (lE !! n) (rE !! n) (bE !! n) with
  | VKeep o => dir_map out !! n = o
  | VEdit e => dir_map out !! n = Some e ∧ prefix +:+ n ∈ conflicts
  | VSub => ∃ c sub w1 w2, dir_map out !! n = Some (mkEntry n c (bareStat KindDir)) ∧
      rtc called w w1 ∧ sub_call n w1 w2 c sub ∧ rtc called w2 w' ∧ ∀ x, x ∈ sub → x ∈ conflicts
  | VBoth le re =>
      dir_map out !! n = Some le ∧ dir_map out !! label n = Some (mkEntry (label n) (e_Cap re) (e_Stat re)) ∧
      prefix +:+ n ∈ conflicts
  end.

Lemma settled_start w w1 w' out conf n : rtc called w w1 → settled w1 w' out conf n → settled w w' out conf n.
Proof.
  intros Hc. unfold settled. destruct (judge _ _ _); try done.
  intros (c & sub & w2 & w3 & ? & ? & ? & ? & ?). exists c, sub, w2, w3. split_and!; try done. by etrans.
Qed.

(** The entries are filed under their names. *)
Definition keyed (m : gmap string Entry) : Prop := ∀ n e, m !! n = Some e → e_Name e = n.

Lemma judge_named n e :
  keyed lE → keyed rE →
  match judge (lE !! n) (rE !! n) (bE !! n) with
  | VKeep (Some x) | VEdit x => x = e → e_Name e = n
  | VBoth le _ => le = e → e_Name e = n
  | _ => True
  end.
Proof.
  intros Hl Hr. unfold judge. destruct (capEqual (capOf (lE !! n)) _).
  { destruct (lE !! n) eqn:E; [|done]. intros ->. by apply Hl. }
  destruct (capEqual _ (capOf (lE !! n))). { destruct (rE !! n) eqn:E; [|done]. intros ->. by apply Hr. }
  destruct (capEqual _ _). { destruct (lE !! n) eqn:E; [|done]. intros ->. by apply Hl. }
  destruct (lE !! n) eqn:El, (rE !! n) eqn:Er; try done.
  - destruct (_ && _); [done|]. intros ->. by apply Hl.
  - intros ->. by apply Hl.
  - intros ->. by apply Hr.
Qed.

Lemma merge_loop_spec names : ∀ out conf w w' out' conf',
  keyed lE → keyed rE → wf_dir out → NoDup names → fresh_labels label names →
  merge_loop label rec prefix lE rE bE names out conf w = (w', Ok (out', conf')) →
  (∀ n, n ∈ names → dir_map out !! n = None) →
  wf_dir out' ∧ dm_Meta out' = dm_Meta out ∧ (∀ x, x ∈ conf → x ∈ conf') ∧ rtc called w w' ∧
  (∀ n, n ∈ names → settled w w' out' conf' n) ∧
  (∀ m, m ∉ names → (∀ n, n ∈ names → label n ≠ m) → dir_map out' !! m = dir_map out !! m).
Proof.
  induction names as [|name names IH]; intros out conf w w' out' conf' Hl Hr Hwf Hnd Hfresh E Hnone.
  { simpl in E. simplify_eq. split_and!; try done. intros n []%elem_of_nil. }
  apply NoDup_cons in Hnd as [Hnin Hnd].
  assert (fresh_labels label names) as Hf'.
  { destruct Hfresh as [H1 H2]. split; intros n m Hn Hm; [apply H1|apply H2]; by right. }
  assert (∀ n, n ∈ names → label n ≠ name) as Hln.
  { intros n Hn. apply Hfresh; [by right|by left]. }
  assert (∀ n, n ∈ names → label name ≠ n) as Hln'.
  { intros n Hn. apply Hfresh; [by left|by right]. }
  assert (∀ n, n ∈ names → label n ≠ label name) as Hll.
  { intros n Hn El. apply Hnin. rewrite <-(proj2 Hfresh n name); [done|by right|by left|done]. }
  assert (∀ out1 conf1 w1, wf_dir out1 → dm_Meta out1 = dm_Meta out → (∀ x, x ∈ conf → x ∈ conf1) →
    (∀ m, m ≠ name → m ≠ label name → dir_map out1 !! m = dir_map out !! m) →
    rtc called w w1 → merge_loop label rec prefix lE rE bE names out1 conf1 w1 = (w', Ok (out', conf')) →
    (rtc called w1 w' → dir_map out' !! name = dir_map out1 !! name → dir_map out' !! label name = dir_map out1 !! label name →
     (∀ x, x ∈ conf1 → x ∈ conf') → settled w w' out' conf' name) →
    wf_dir out' ∧ dm_Meta out' = dm_Meta out ∧ (∀ x, x ∈ conf → x ∈ conf') ∧ rtc called w w' ∧
    (∀ n, n ∈ name :: names → settled w w' out' conf' n) ∧
    (∀ m, m ∉ name :: names → (∀ n, n ∈ name :: names → label n ≠ m) → dir_map out' !! m = dir_map out !! m)) as Hgo.
  { intros out1 conf1 w1 Hwf1 Hmeta1 Hc1 Hmap1 Hw1 E1 Hset.
    destruct (IH out1 conf1 w1 w' out' conf' Hl Hr Hwf1 Hnd Hf' E1) as (H1 & H2 & H3 & Hw' & H4 & H5).
    { intros n Hn. rewrite Hmap1; [apply Hnone; by right|by intros ->|by apply not_eq_sym, Hln']. }
    split; [done|]. split; [congruence|]. split; [auto|]. split; [by etrans|]. split.
    - intros n [->|Hn]%elem_of_cons; [|by eapply settled_start, H4]. apply Hset; [done|apply H5|apply H5|done]; try done.
      intros Hin. by apply (Hln' (label name)).
    - intros m Hm Hlab. rewrite H5; [|by intros ?; apply Hm; right|by intros ? ?; apply Hlab; right]. apply Hmap1; [intros ->; apply Hm; by left|].
      intros ->. apply (Hlab name); [by left|done]. }
  assert (∀ o x m, m ≠ e_Name x → wf_dir o → dir_map (Upsert o x) !! m = dir_map o !! m) as Hup.
  { intros o x m Hm Ho. rewrite Upsert_map by done. by rewrite lookup_insert_ne. }
  assert (∀ o x, wf_dir o → dir_map (Upsert o x) !! e_Name x = Some x) as Hup'.
  { intros o x Ho. rewrite Upsert_map by done. by rewrite lookup_insert_eq. }
  cbn [merge_loop] in E. pose proof (λ e, judge_named name e Hl Hr) as Hjn. unfold settled in Hgo |- *.
  destruct (judge (lE !! name) (rE !! name) (bE !! name)) as [[e|]|e| |le re] eqn:Ej.
  - specialize (Hjn e eq_refl). apply (Hgo (Upsert out e) conf w); [by apply Upsert_wf|done|done| |apply rtc_refl|exact E|].
    + intros m Hm _. apply Hup; congruence.
    + intros _ -> _ _. rewrite <-Hjn. by apply Hup'.
  - apply (Hgo out conf w); [done|done|done|done|apply rtc_refl|exact E|]. intros _ -> _ _. apply Hnone. by left.
  - specialize (Hjn e eq_refl).
    apply (Hgo (Upsert out e) (conf ++ [prefix +:+ name]) w); [by apply Upsert_wf|done|apply sub_app_l| |apply rtc_refl|exact E|].
    + intros m Hm _. apply Hup; congruence.
    + intros _ -> _ Hc. split; [rewrite <-Hjn; by apply Hup'|]. apply Hc, in_snoc.
  - destruct (rec _ _ _ _ w) as [w1 [[c sub]|]] eqn:Erec; [|done].
    apply (Hgo (Upsert out (mkEntry name c (bareStat KindDir))) (conf ++ sub) w1);
      [by apply Upsert_wf|done|apply sub_app_l| |by apply rtc_once; exists name, c, sub|exact E|].
    + intros m Hm _. by apply Hup.
    + intros Hw' -> _ Hc. exists c, sub, w, w1. split; [by apply (Hup' out (mkEntry name c (bareStat KindDir)))|].
      split; [apply rtc_refl|]. split; [done|]. split; [done|]. intros x Hx. by apply Hc, sub_app_r.
  - specialize (Hjn le eq_refl).
    assert (label name ≠ name) as Hne by (apply Hfresh; by left).
    apply (Hgo (Upsert (Upsert out le) (mkEntry (label name) (e_Cap re) (e_Stat re))) (conf ++ [prefix +:+ name]) w);
      [by apply Upsert_wf, Upsert_wf|done|apply sub_app_l| |apply rtc_refl|exact E|].
    + intros m Hm Hm'. rewrite Hup by (done || by apply Upsert_wf). apply Hup; congruence.
    + intros _ -> -> Hc. split_and!.
      * rewrite Hup; [rewrite <-Hjn; by apply Hup'|by apply not_eq_sym|by apply Upsert_wf].
      * by apply (Hup' (Upsert out le) (mkEntry (label name) (e_Cap re) (e_Stat re))), Upsert_wf.
      * apply Hc, in_snoc.
Qed.
End level.

(** ** Merging succeeds on trees *)

Section trees.
Context `{Hj : DirJson} {W : Type} `{Hb : !Blobs W} (cfg : Config) (label : string → string).
Context {w_ok clean : W → Prop} {holds : W → Params → ChunkRef → bytes → Prop}.
Context `{HL : !BlobLaws W cfg w_ok clean holds}.
Context (Hlabel : ∀ name, utf8 name → utf8 (label name)).
Implicit Types (w : W) (c : ReadCap) (d : DirManifest).
#[local] Abbreviation dirAt := (dir_at (holds := holds)).
#[local] Abbreviation extends := (ext (w_ok := w_ok) (holds := holds)).

(** A tree of directories at most [n] deep, whole in [w]. *)
Inductive tree w : nat → ReadCap → Prop :=
| tree_leaf n c : rc_Kind c ≠ KindDir → cap_ok c → tree w n c
| tree_dir n c d : dirAt w c d → cap_ok c → (∀ e, e ∈ dm_Entries d → tree w n (e_Cap e)) → tree w (S n) c.

Lemma tree_ext w w' n c : extends w w' → tree w n c → tree w' n c.
Proof.
  intros Hx. induction 1 as [n c Hk Hc|n c d Hd Hc _ IH]; [by apply tree_leaf|].
  eapply tree_dir; [by eapply dir_at_ext|done|done].
Qed.

Lemma tree_cap_ok w n c : tree w n c → cap_ok c.
Proof. by destruct 1. Qed.

(** A side of a merge: a tree, or nothing. *)
Definition side w n c : Prop := tree w n c ∨ c = zeroCap.

Lemma side_load w n c :
  w_ok w → side w (S n) c →
  ∃ d, loadDirOpt c w = Ok d ∧ good_dir d ∧ ∀ e, e ∈ dm_Entries d → tree w n (e_Cap e).
Proof.
  intros Hok Hs. unfold loadDirOpt.
  assert (good_dir (NewDir zeroMeta) ∧ ∀ e, e ∈ dm_Entries (NewDir zeroMeta) → tree w n (e_Cap e)) as [Hg He].
  { split; [apply good_new|]. intros e []%elem_of_nil. }
  destruct Hs as [Ht| ->]; [|by exists (NewDir zeroMeta)].
  destruct (negb (capPresent c) || negb (bool_decide (rc_Kind c = KindDir))) eqn:E; [by exists (NewDir zeroMeta)|].
  apply orb_false_iff in E as [_ E]. apply negb_false_iff, bool_decide_eq_true in E.
  inversion Ht as [|? ? d Hd Hc Hes]; subst; [done|].
  exists d. split; [by apply (dir_at_load (w_ok := w_ok) cfg)|]. split; [apply Hd|done].
Qed.

Lemma merge_loop_back rec prefix lE rE bE names :
  (∀ p b l r w, clean (rec p b l r w).1 → clean w) →
  ∀ out conf w, clean (merge_loop label rec prefix lE rE bE names out conf w).1 → clean w.
Proof.
  intros Hrec. induction names as [|name names IH]; intros out conf w; [done|]. cbn [merge_loop].
  destruct (judge _ _ _) as [[e|]|e| |le re]; try apply IH.
  intros Hc. apply (Hrec (prefix +:+ name +:+ "/") (capOf (bE !! name)) (capOf (lE !! name)) (capOf (rE !! name))).
  destruct (rec _ _ _ _ w) as [w1 [[c sub]|]]; [|exact Hc]. cbn [fst]. by eapply IH.
Qed.

Lemma mergeDir_back fuel : ∀ prefix base local remote w,
  clean (mergeDir cfg label fuel prefix base local remote w).1 → clean w.
Proof.
  induction fuel as [|fuel IH]; intros prefix base local remote w; [done|]. cbn [mergeDir].
  destruct (capEqual local remote); [done|]. destruct (capEqual base local); [done|].
  destruct (capEqual base remote); [done|]. destruct (_ ≫= _) as [[[bD lD] rD]|]; [|done].
  intros Hc.
  apply (merge_loop_back (mergeDir cfg label fuel) prefix (entryMap lD) (entryMap rD) (entryMap bD)
    (unionNames (entryMap lD) (entryMap rD)) IH (NewDir (dm_Meta lD)) []).
  destruct (merge_loop _ _ _ _ _ _ _ _ _ w) as [w1 [[out conf]|]]; [|exact Hc]. cbn [fst].
  apply (StoreDir_back (HL := HL) cfg out). by destruct (StoreDir cfg out w1).
Qed.

(** The loop, when the recursive calls succeed on the subtrees. *)
Lemma merge_loop_total rec prefix lE rE bE n w0 names :
  (∀ p b l r w, clean (rec p b l r w).1 → clean w) →
  (∀ p b l r w w' res, extends w0 w → tree w0 n l → tree w0 n r → side w0 n b →
     rc_Kind l = KindDir → rc_Kind r = KindDir → rec p b l r w = (w', res) → clean w' →
     ∃ c sub, res = Ok (c, sub) ∧ extends w w' ∧ cap_ok c) →
  (∀ name e, lE !! name = Some e ∨ rE !! name = Some e → tree w0 n (e_Cap e) ∧ utf8 (e_Name e)) →
  (∀ name e, bE !! name = Some e → tree w0 n (e_Cap e)) → Forall utf8 names →
  ∀ out conf w w' res, extends w0 w → good_dir out →
    merge_loop label rec prefix lE rE bE names out conf w = (w', res) → clean w' →
    ∃ out' conf', res = Ok (out', conf') ∧ extends w w' ∧ good_dir out'.
Proof.
  intros Hback Hrec Hlr Hbase Hu.
  assert (∀ name, side w0 n (capOf (bE !! name))) as Hbside.
  { intros name. destruct (bE !! name) as [e|] eqn:E; [left; by eapply Hbase|by right]. }
  assert (∀ name e, lE !! name = Some e ∨ rE !! name = Some e → ∀ out, good_dir out → good_dir (Upsert out e)) as Hgood.
  { intros name e He out Hg. destruct (Hlr name e He) as [Ht Hne]. apply good_upsert; [done|by eapply tree_cap_ok|done]. }
  induction Hu as [|name names Hname _ IH]; intros out conf w w' res Hx Hg E Hcl.
  { simpl in E. simplify_eq. exists out, conf. split; [done|]. split; [apply ext_refl, Hx|done]. }
  cbn [merge_loop] in E. unfold judge in E.
  destruct (capEqual (capOf (lE !! name)) (capOf (rE !! name))).
  { destruct (lE !! name) as [e|] eqn:El; [|by eapply IH]. eapply IH; [done| |done|done]. eapply Hgood; [left|]; done. }
  destruct (capEqual (capOf (bE !! name)) (capOf (lE !! name))).
  { destruct (rE !! name) as [e|] eqn:Er; [|by eapply IH]. eapply IH; [done| |done|done]. eapply Hgood; [right|]; done. }
  destruct (capEqual (capOf (bE !! name)) (capOf (rE !! name))).
  { destruct (lE !! name) as [e|] eqn:El; [|by eapply IH]. eapply IH; [done| |done|done]. eapply Hgood; [left|]; done. }
  destruct (lE !! name) as [le|] eqn:El, (rE !! name) as [re|] eqn:Er; [| | |by eapply IH].
  2:{ eapply IH; [done| |done|done]. eapply Hgood; [left|]; done. }
  2:{ eapply IH; [done| |done|done]. eapply Hgood; [right|]; done. }
  destruct (Hlr name le ltac:(by left)) as [Htl Hul], (Hlr name re ltac:(by right)) as [Htr Hur].
  cbn [capOf] in E. destruct (bool_decide (rc_Kind (e_Cap le) = KindDir) && bool_decide (rc_Kind (e_Cap re) = KindDir)) eqn:Ek.
  - apply andb_true_iff in Ek as [Hkl%bool_decide_eq_true Hkr%bool_decide_eq_true].
    destruct (rec _ _ _ _ w) as [w1 r1] eqn:Erec. cbn [capOf] in Erec.
    assert (clean w1) as Hcl1.
    { destruct r1 as [[c sub]|]; [|by apply pair_eq in E as [-> _]].
      eapply (merge_loop_back rec prefix lE rE bE names Hback _ _ w1). by rewrite E. }
    destruct (Hrec _ _ _ _ _ _ _ Hx Htl Htr (Hbside name) Hkl Hkr Erec Hcl1) as (c & sub & -> & Hx1 & Hc).
    edestruct IH as (out' & conf' & -> & Hx2 & Hg'); [by eapply ext_trans| |exact E|done|].
    { by apply good_upsert. }
    exists out', conf'. split; [done|]. split; [by eapply ext_trans|done].
  - eapply IH; [done| |done|done]. apply good_upsert; [|by eapply tree_cap_ok|by apply Hlabel].
    eapply Hgood; [left|]; done.
Qed.

Lemma elem_dir_map d name e : wf_dir d → dir_map d !! name = Some e → e ∈ dm_Entries d ∧ e_Name e = name.
Proof. intros Hwf. by apply dir_map_Some, Hwf. Qed.

(** The directory a side of a merge stands for. *)
Definition side_dir w c d : Prop :=
  (capPresent c = true ∧ dirAt w c d) ∨ ((capPresent c = false ∨ rc_Kind c ≠ KindDir) ∧ d = NewDir zeroMeta).

(** What a three-way merge means: [c] is the merge of [local] and [remote]
    over [base], and [conf] contains its conflicts. *)
Fixpoint merged (n : nat) w (prefix : string) (base local remote c : ReadCap) (conf : list string) : Prop :=
  (local = remote → c = local) ∧ (base = local → c = remote) ∧ (base = remote → c = local) ∧
  (local ≠ remote → base ≠ local → base ≠ remote →
   match n with
   | O => False
   | S n =>
       ∃ bD lD rD out, side_dir w base bD ∧ side_dir w local lD ∧ side_dir w remote rD ∧ dirAt w c out ∧
       (fresh_labels label (unionNames (dir_map lD) (dir_map rD)) →
        dm_Meta out = dm_Meta lD ∧
        (∀ name, name ∈ unionNames (dir_map lD) (dir_map rD) →
           match judge (dir_map lD !! name) (dir_map rD !! name) (dir_map bD !! name) with
           | VKeep o => dir_map out !! name = o
           | VEdit e => dir_map out !! name = Some e ∧ prefix +:+ name ∈ conf
           | VSub => ∃ c', dir_map out !! name = Some (mkEntry name c' (bareStat KindDir)) ∧
               merged n w (prefix +:+ name +:+ "/") (capOf (dir_map bD !! name)) (capOf (dir_map lD !! name))
                 (capOf (dir_map rD !! name)) c' conf
           | VBoth le re =>
               dir_map out !! name = Some le ∧
               dir_map out !! label name = Some (mkEntry (label name) (e_Cap re) (e_Stat re)) ∧
               prefix +:+ name ∈ conf
           end) ∧
        (∀ m, m ∉ unionNames (dir_map lD) (dir_map rD) →
           (∀ name, name ∈ unionNames (dir_map lD) (dir_map rD) → label name ≠ m) → dir_map out !! m = None))
   end).

Lemma side_dir_ext w w' c d : extends w w' → side_dir w c d → side_dir w' c d.
Proof. intros Hx [[Hc Hd]|H]; [left; split; [done|by eapply dir_at_ext]|by right]. Qed.

Lemma merged_mono n w w' conf conf' :
  extends w w' → (∀ x, x ∈ conf → x ∈ conf') →
  ∀ prefix b l r c, merged n w prefix b l r c conf → merged n w' prefix b l r c conf'.
Proof.
  intros Hx Hc. induction n as [|n IH]; intros prefix b l r c (H1 & H2 & H3 & H4); [done|].
  split; [done|]. split; [done|]. split; [done|]. intros N1 N2 N3.
  destruct (H4 N1 N2 N3) as (bD & lD & rD & out & Hb1 & Hl1 & Hr1 & Ho & Hf).
  exists bD, lD, rD, out. split_and!; [by eapply side_dir_ext..|by eapply dir_at_ext|].
  intros Hfr. destruct (Hf Hfr) as (Hm & Hn & Hrest). split; [done|]. split; [|done].
  intros name Hin. specialize (Hn name Hin). destruct (judge _ _ _) as [o|e| |le re]; [done| | |].
  - destruct Hn as [? ?]. auto.
  - destruct Hn as (c' & ? & ?). exists c'. auto.
  - destruct Hn as (? & ? & ?). auto.
Qed.

Lemma side_load' w n c :
  w_ok w → side w (S n) c →
  ∃ d, loadDirOpt c w = Ok d ∧ side_dir w c d ∧ good_dir d ∧ ∀ e, e ∈ dm_Entries d → tree w n (e_Cap e).
Proof.
  intros Hok Hs. destruct (side_load w n c Hok Hs) as (d & Hl & Hg & He). exists d. split; [done|]. split; [|done].
  unfold loadDirOpt in Hl. destruct (negb (capPresent c) || negb (bool_decide (rc_Kind c = KindDir))) eqn:E.
  - right. split; [|by simplify_eq]. apply orb_true_iff in E as [E%negb_true_iff|E%negb_true_iff]; [by left|].
    right. by apply bool_decide_eq_false in E.
  - left. apply orb_false_iff in E as [E1%negb_false_iff E2%negb_false_iff]. split; [done|].
    apply bool_decide_eq_true in E2. destruct Hs as [Ht| ->]; [|done].
    inversion Ht as [|? ? d' Hd']; subst; [done|].
    rewrite (dir_at_load (w_ok := w_ok) cfg w c d' Hok Hd') in Hl. by apply (inj Ok) in Hl as <-.
Qed.

(** The calls of a loop extend the store. *)
Lemma called_ext rec prefix lE rE bE n w0 :
  (∀ p b l r w, clean (rec p b l r w).1 → clean w) →
  (∀ p b l r w w' res, extends w0 w → tree w0 n l → tree w0 n r → side w0 n b →
     rc_Kind l = KindDir → rc_Kind r = KindDir → rec p b l r w = (w', res) → clean w' →
     ∃ c sub, res = Ok (c, sub) ∧ extends w w' ∧ cap_ok c ∧ merged n w' p b l r c sub) →
  (∀ name e, lE !! name = Some e ∨ rE !! name = Some e → tree w0 n (e_Cap e)) →
  (∀ name e, bE !! name = Some e → tree w0 n (e_Cap e)) →
  ∀ w w', rtc (called rec prefix lE rE bE) w w' → clean w' → clean w ∧ (extends w0 w → extends w w').
Proof.
  intros Hback Hrec Hlr Hbase w w' Hcalls Hcl.
  induction Hcalls as [w|w w1 w2 (name & c & sub & Hj1 & Ec) _ IH]; [by split; [|intros Hx; apply ext_refl, Hx]|].
  destruct (IH Hcl) as [Hc1 Hx1].
  assert (clean w) as Hc0 by (eapply Hback; by rewrite Ec). split; [done|]. intros Hx.
  destruct (judge_sub _ _ _ Hj1) as (le & re & El & Er & Hkl & Hkr).
  assert (∀ name, side w0 n (capOf (bE !! name))) as Hbside.
  { intros nm. destruct (bE !! nm) as [e|] eqn:E; [left; by eapply Hbase|by right]. }
  rewrite El, Er in Ec. cbn [capOf] in Ec.
  destruct (Hrec _ _ _ _ _ _ _ Hx (Hlr name le ltac:(auto)) (Hlr name re ltac:(auto)) (Hbside name) Hkl Hkr Ec Hc1)
    as (c1 & sub1 & _ & Hx' & _).
  eapply ext_trans; [exact Hx'|]. apply Hx1. by eapply ext_trans.
Qed.

Lemma mergeDir_spec fuel : ∀ prefix base local remote w w' res,
  w_ok w → tree w (S fuel) local → tree w (S fuel) remote → side w (S fuel) base →
  mergeDir cfg label (S fuel) prefix base local remote w = (w', res) → clean w' →
  ∃ c conf, res = Ok (c, conf) ∧ extends w w' ∧ cap_ok c ∧ merged (S fuel) w' prefix base local remote c conf.
Proof.
  induction fuel as [fuel IH] using lt_wf_ind. intros prefix base local remote w w' res Hok Hl Hr Hbs E Hcl.
  assert (∀ c, (base ≠ remote → c = remote ∨ c = local) → tree w (S fuel) c → w' = w → res = Ok (c, []) →
    merged (S fuel) w' prefix base local remote c [] →
    ∃ c conf, res = Ok (c, conf) ∧ extends w w' ∧ cap_ok c ∧ merged (S fuel) w' prefix base local remote c conf) as Htriv.
  { intros c _ Ht -> -> Hm. exists c, []. split_and!; [done|by apply ext_refl|by eapply tree_cap_ok|done]. }
  cbn [mergeDir] in E. destruct (capEqual local remote) eqn:E1.
  { apply capEqual_eq in E1 as ->. simplify_eq. apply (Htriv remote); auto. by split_and!. }
  destruct (capEqual base local) eqn:E2.
  { apply capEqual_eq in E2 as ->. simplify_eq. apply (Htriv remote); auto. by split_and!. }
  destruct (capEqual base remote) eqn:E3.
  { apply capEqual_eq in E3 as ->. simplify_eq. apply (Htriv local); auto. by split_and!. }
  assert (local ≠ remote ∧ base ≠ local ∧ base ≠ remote) as (N1 & N2 & N3).
  { split_and!; intros ->; by rewrite (proj2 (capEqual_eq _ _) eq_refl) in *. }
  clear Htriv.
  destruct (side_load' w fuel base Hok Hbs) as (bD & Lb & Sb & Gb & Tb).
  destruct (side_load' w fuel local Hok ltac:(by left)) as (lD & Ll & Sl & Gl & Tl).
  destruct (side_load' w fuel remote Hok ltac:(by left)) as (rD & Lr & Sr & Gr & Tr).
  rewrite Lb, Ll, Lr in E. cbn [mbind result_bind] in E.
  rewrite !entryMap_dir in E by apply gd_wf, Gl || apply gd_wf, Gr || apply gd_wf, Gb.
  destruct (merge_loop _ _ _ _ _ _ _ _ _ w) as [w1 r1] eqn:Eloop.
  assert (clean w1) as Hcl1.
  { destruct r1 as [[out conf]|]; [|by apply pair_eq in E as [-> _]].
    apply (StoreDir_back (HL := HL) cfg out). destruct (StoreDir cfg out w1). by apply pair_eq in E as [-> _]. }
  assert (∀ D name e, D = lD ∨ D = rD → dir_map D !! name = Some e →
    tree w fuel (e_Cap e) ∧ utf8 (e_Name e) ∧ e_Name e = name) as Hent.
  { intros D name e HD He. assert (good_dir D) as GD by (by destruct HD as [->| ->]).
    apply elem_dir_map in He as [He <-]; [|apply GD]. split; [destruct HD as [->| ->]; auto|]. split; [|done].
    destruct GD as [_ _ Hn _]. rewrite Forall_forall in Hn. by apply Hn. }
  assert (∀ p b l r w, clean (mergeDir cfg label fuel p b l r w).1 → clean w) as Hback by (intros; by eapply mergeDir_back).
  assert (∀ p b l r w2 w3 res', extends w w2 → tree w fuel l → tree w fuel r → side w fuel b →
    rc_Kind l = KindDir → rc_Kind r = KindDir → mergeDir cfg label fuel p b l r w2 = (w3, res') → clean w3 →
    ∃ c sub, res' = Ok (c, sub) ∧ extends w2 w3 ∧ cap_ok c ∧ merged fuel w3 p b l r c sub) as Hrec.
  { intros p b l r w2 w3 res' Hx Ht1 Ht2 Hs Hk1 Hk2 Em Hc.
    destruct fuel as [|fuel]; [by inversion Ht1|].
    assert (side w2 (S fuel) b) as Hs' by (destruct Hs as [Hs| ->]; [left; by eapply tree_ext|by right]).
    exact (IH fuel ltac:(lia) p b l r w2 w3 res' (proj1 Hx) (tree_ext _ _ _ _ Hx Ht1) (tree_ext _ _ _ _ Hx Ht2) Hs' Em Hc). }
  assert (∀ name e, dir_map lD !! name = Some e ∨ dir_map rD !! name = Some e → tree w fuel (e_Cap e) ∧ utf8 (e_Name e)) as Hlr.
  { intros name e [He|He]; [destruct (Hent lD name e) as (? & ? & _)|destruct (Hent rD name e) as (? & ? & _)]; auto. }
  assert (∀ name e, dir_map bD !! name = Some e → tree w fuel (e_Cap e)) as Hbase.
  { intros name e He. apply elem_dir_map in He as [He _]; [|apply Gb]. auto. }
  destruct (merge_loop_total (mergeDir cfg label fuel) prefix (dir_map lD) (dir_map rD) (dir_map bD) fuel w
    (unionNames (dir_map lD) (dir_map rD)) Hback)
    with (out := NewDir (dm_Meta lD)) (conf := @nil string) (w := w) (w' := w1) (res := r1)
    as (out & conf & -> & Hx1 & Hgo); try done.
  { intros p b l r w2 w3 res' ? ? ? ? ? ? Em Hc. destruct (Hrec p b l r w2 w3 res') as (c & sub & -> & ? & ? & _); try done.
    by exists c, sub. }
  { apply Forall_forall. intros n [[e He]|[e He]]%unionNames_spec;
      [destruct (Hent lD n e) as (_ & Hn & <-)|destruct (Hent rD n e) as (_ & Hn & <-)]; auto. }
  { split; [split; constructor|constructor|constructor|apply Gl]. }
  destruct (StoreDir cfg out w1) as [w2 r2] eqn:Est. apply pair_eq in E as [-> <-].
  destruct (StoreDir_spec cfg out w1 w' r2 (proj1 Hx1) Hgo Est Hcl) as (c & -> & Hd & Hck & Hx2).
  pose proof (ext_trans _ _ _ Hx1 Hx2) as Hxw.
  exists c, conf. split; [done|]. split; [done|]. split; [done|]. split; [by intros ?%N1|].
  split; [by intros ?%N2|]. split; [by intros ?%N3|]. intros _ _ _. exists bD, lD, rD, out.
  split_and!; [by eapply side_dir_ext..|done|].
  intros Hfresh. destruct (unionNames_spec (dir_map lD) (dir_map rD)) as [Hnd _].
  destruct (merge_loop_spec label (mergeDir cfg label fuel) prefix (dir_map lD) (dir_map rD) (dir_map bD)
    (unionNames (dir_map lD) (dir_map rD)) (NewDir (dm_Meta lD)) [] w w1 out conf) as (_ & Hm & _ & _ & Hset & Hrest);
    [| | |done|done|done|done|].
  { intros n e He. by destruct (Hent lD n e ltac:(by left) He) as (_ & _ & ?). }
  { intros n e He. by destruct (Hent rD n e ltac:(by right) He) as (_ & _ & ?). }
  { split; constructor. }
  split; [exact Hm|]. split; [|exact Hrest]. intros name Hin. specialize (Hset name Hin). unfold settled in Hset.
  destruct (judge _ _ _) as [o|e| |le re] eqn:Ej; [done|done| |done].
  destruct Hset as (c' & sub & w3 & w4 & He & Hc3 & [_ Ec] & Hc4 & Hsub). exists c'. split; [done|].
  pose proof (λ a b H1 H2, called_ext (mergeDir cfg label fuel) prefix (dir_map lD) (dir_map rD) (dir_map bD) fuel w
    Hback Hrec (λ nm e H, proj1 (Hlr nm e H)) Hbase a b H1 H2) as Hcx.
  destruct (Hcx w4 w1 Hc4 Hcl1) as [Hcl4 Hx4].
  assert (clean w3) as Hcl3 by (eapply Hback; by rewrite Ec).
  destruct (Hcx w w3 Hc3 Hcl3) as [_ Hx3]. specialize (Hx3 (ext_refl _ Hok)).
  destruct (judge_sub _ _ _ Ej) as (le & re & El & Er & Hkl & Hkr). rewrite El, Er in Ec |- *. cbn [capOf] in Ec |- *.
  assert (side w fuel (capOf (dir_map bD !! name))) as Hbside.
  { destruct (dir_map bD !! name) as [e|] eqn:Eb; [left; by eapply Hbase|by right]. }
  destruct (Hrec _ _ _ _ w3 w4 _ Hx3 (proj1 (Hlr name le ltac:(auto))) (proj1 (Hlr name re ltac:(auto))) Hbside Hkl Hkr Ec Hcl4)
    as (c1 & sub1 & [= <- <-] & Hx34 & _ & Hmer).
  eapply merged_mono; [|exact Hsub|exact Hmer].
  apply (ext_trans w4 w1 w'); [|done]. apply Hx4. by apply (ext_trans w w3 w4).
Qed.

(** ** Properties *)


(** [C14] No edit is lost: in a merge in which both sides changed and no conflict
    label is taken, every entry that either side added or changed (and
    that has a cap) is in the merged directory, under its name or under its label, or is a directory
    that was merged with the other side's. *)
Theorem merge3_keeps_edits fuel base local remote w w' res :
  w_ok w → tree w (S fuel) local → tree w (S fuel) remote → side w (S fuel) base →
  Merge3 cfg label (S fuel) base local remote w = (w', res) → clean w' →
  local ≠ remote → base ≠ local → base ≠ remote →
  ∃ c conf bD lD rD out, res = Ok (c, conf) ∧ LoadDir c w' = Ok out ∧
    side_dir w' base bD ∧ side_dir w' local lD ∧ side_dir w' remote rD ∧
    (fresh_labels label (unionNames (dir_map lD) (dir_map rD)) →
     ∀ name e, dir_map lD !! name = Some e ∨ dir_map rD !! name = Some e → e_Cap e ≠ capOf (dir_map bD !! name) → e_Cap e ≠ zeroCap →
       (∃ e', (Lookup out name = Some e' ∨ Lookup out (label name) = Some e') ∧ e_Cap e' = e_Cap e) ∨
       (∃ le re c', dir_map lD !! name = Some le ∧ dir_map rD !! name = Some re ∧
          Lookup out name = Some (mkEntry name c' (bareStat KindDir)) ∧
          merged fuel w' (name +:+ "/") (capOf (dir_map bD !! name)) (e_Cap le) (e_Cap re) c' conf)).
Proof.
  intros Hok Hl Hr Hbs E Hcl N1 N2 N3.
  destruct (mergeDir_spec fuel "" base local remote w w' res Hok Hl Hr Hbs E Hcl) as (c & conf & -> & Hx & _ & Hm).
  destruct Hm as (_ & _ & _ & Hm). destruct (Hm N1 N2 N3) as (bD & lD & rD & out & Sb & Sl & Sr & Hd & Hf).
  exists c, conf, bD, lD, rD, out. split; [done|]. split; [by apply (dir_at_load (w_ok := w_ok) cfg); [apply Hx|]|].
  split; [done|]. split; [done|]. split; [done|]. intros Hfr name e He Hne Hz. destruct (Hf Hfr) as (_ & Hn & _).
  rewrite !Lookup_map by apply Hd. clear Hf Hm.
  assert (name ∈ unionNames (dir_map lD) (dir_map rD)) as Hin.
  { apply unionNames_spec. destruct He as [He|He]; rewrite He; eauto. }
  specialize (Hn name Hin).
  destruct (judge_keeps _ _ _ e He Hne Hz) as [(e' & Ej & Ee)|[Ej|[(le & re & Ej & Ele)|(le & re & Ej & Ele)]]];
    [destruct Ej as [Ej|Ej]| | |]; rewrite Ej in Hn.
  - left. exists e'. auto.
  - left. exists e'. destruct Hn. auto.
  - right. destruct (judge_sub _ _ _ Ej) as (le & re & El & Er & _). destruct Hn as (c' & Ho & Hmer).
    exists le, re, c'. rewrite El, Er in Hmer. done.
  - left. exists le. destruct Hn. auto.
  - left. eexists. destruct Hn as (_ & Ho & _). split; [right; exact Ho|done].
Qed.
End trees.

(** The entry [n] with the cap of [b]. *)
Definition ex_entry (n : string) (b : byte) : Entry := mkEntry n (ex_cap b) (bareStat KindFile).

(** One level of a merge in which both sides edited [name], and all have the
    entry that its label names. *)
Definition ex_clash (name : string) : result manifest_err (DirManifest * list string) :=
  let dir b := entryMap (mkDir zeroMeta [ex_entry (DefaultLabeler name) Byte.x09; ex_entry name b]) in
  let rec (_ : string) (_ _ _ : ReadCap) (w : unit) : unit * result manifest_err (ReadCap * list string) := (w, Err MFuel) in
  (merge_loop DefaultLabeler rec "" (dir Byte.x01) (dir Byte.x02) (dir Byte.x03)
     (unionNames (dir Byte.x01) (dir Byte.x02)) (NewDir zeroMeta) [] tt).2.

(** A conflict copy is lost when its label is taken, so fresh labels are
    needed: if "a" was edited on both sides while both have an entry
    "a (conflict)", the merge reports the conflict but the remote edit is nowhere
    in the merged directory; if it is "a.txt", the copy replaces the entry
    "a (conflict).txt" that neither side touched. *)
Theorem merge_conflict_copy_lost :
  ex_clash "a" = Ok (mkDir zeroMeta [ex_entry "a" Byte.x01; ex_entry "a (conflict)" Byte.x09], ["a"]) ∧
  ex_clash "a.txt" = Ok (mkDir zeroMeta [ex_entry "a (conflict).txt" Byte.x02; ex_entry "a.txt" Byte.x01], ["a.txt"]).
Proof. split; vm_compute; reflexivity. Qed.

(** ** Examples *)

(** Over the root {c}: local adds "d", remote changes "c". *)
Definition ex_local_dir : DirManifest := mkDir zeroMeta [ex_entry "c" Byte.x03; ex_entry "d" Byte.x04].
Definition ex_remote_dir : DirManifest := mkDir zeroMeta [ex_entry "c" Byte.x06].
Definition ex_localed : Vault Mem.MemStore * result manifest_err ReadCap :=
  @StoreDir ex_dj _ ex_blobs ex_cfg ex_local_dir ex_rooted.1.
Definition ex_remoted : Vault Mem.MemStore * result manifest_err ReadCap :=
  @StoreDir ex_dj _ ex_blobs ex_cfg ex_remote_dir ex_localed.1.
Definition ex_local : ReadCap := cap_of ex_localed.2.
Definition ex_remote : ReadCap := cap_of ex_remoted.2.
Definition ex_merged : Vault Mem.MemStore * result manifest_err (ReadCap * list string) :=
  @Merge3 ex_dj _ ex_blobs ex_cfg DefaultLabeler 1 ex_root ex_local ex_remote ex_remoted.1.

(** Storing a directory of files makes a tree of depth one. *)
Lemma ex_stored d (w : Vault Mem.MemStore) (wr : Vault Mem.MemStore * result manifest_err ReadCap) :
  ex_vok w → @good_dir ex_dj d → (∀ e, e ∈ dm_Entries d → rc_Kind (e_Cap e) ≠ KindDir) →
  @StoreDir ex_dj _ ex_blobs ex_cfg d w = wr → is_clean wr.1 = true →
  @ext _ ex_vok ex_holds w wr.1 ∧ @tree ex_dj _ ex_holds wr.1 1 (cap_of wr.2).
Proof.
  intros Hok Hg Hk E Hcl. destruct wr as [w' r].
  destruct (@StoreDir_spec ex_dj _ ex_blobs ex_cfg ex_vok ex_clean ex_holds ex_laws d w w' r Hok Hg E (is_clean_ok _ Hcl))
    as (c & -> & Hd & Hc & Hx).
  split; [exact Hx|]. apply (@tree_dir ex_dj _ ex_holds w' 0 c d Hd Hc). intros e He.
  apply tree_leaf; [by apply Hk|]. destruct Hg as [_ Hcaps _ _]. rewrite Forall_forall in Hcaps. by apply Hcaps.
Qed.

Lemma ex_good es :
  bool_decide (NoDup (e_Name <$> es)) = true → StronglySorted (key_le e_Name) es →
  Forall (λ e, cap_ok (e_Cap e)) es → @good_dir ex_dj (mkDir zeroMeta es).
Proof.
  intros Hn Hs Hc. split; [split; [by apply bool_decide_eq_true in Hn|exact Hs]|exact Hc|apply Forall_true; done|exact I].
Qed.

Lemma ex_three :
  ex_vok ex_remoted.1 ∧ @tree ex_dj _ ex_holds ex_remoted.1 1 ex_root ∧
  @tree ex_dj _ ex_holds ex_remoted.1 1 ex_local ∧ @tree ex_dj _ ex_holds ex_remoted.1 1 ex_remote.
Proof.
  assert (∀ es e, es = [ex_entry "c" Byte.x03] ∨ es = [ex_entry "c" Byte.x03; ex_entry "d" Byte.x04] ∨ es = [ex_entry "c" Byte.x06] →
    e ∈ es → rc_Kind (e_Cap e) ≠ KindDir) as Hk.
  { intros es e Hes He. destruct Hes as [->|[->| ->]]; repeat (apply elem_of_cons in He as [->|He]; [done|]); by apply elem_of_nil in He. }
  destruct (ex_stored ex_root_dir ex_vault ex_rooted) as [Hx0 Ht0];
    [apply ex_vault_ok|apply ex_root_good|apply (λ e, Hk (dm_Entries ex_root_dir) e (or_introl eq_refl))|reflexivity|vm_compute; reflexivity|].
  destruct (ex_stored ex_local_dir ex_rooted.1 ex_localed) as [Hx1 Ht1];
    [exact (proj1 Hx0)| |apply (λ e, Hk (dm_Entries ex_local_dir) e (or_intror (or_introl eq_refl)))|reflexivity|vm_compute; reflexivity|].
  { apply ex_good; [vm_compute; reflexivity| |repeat constructor; apply ex_cap_ok]. repeat constructor; vm_compute; discriminate. }
  destruct (ex_stored ex_remote_dir ex_localed.1 ex_remoted) as [Hx2 Ht2];
    [exact (proj1 Hx1)| |apply (λ e, Hk (dm_Entries ex_remote_dir) e (or_intror (or_intror eq_refl)))|reflexivity|vm_compute; reflexivity|].
  { apply ex_good; [vm_compute; reflexivity|repeat constructor|repeat constructor; apply ex_cap_ok]. }
  split; [exact (proj1 Hx2)|]. split; [|split; [|exact Ht2]].
  - exact (tree_ext _ _ _ _ (ext_trans _ _ _ Hx1 Hx2) Ht0).
  - exact (tree_ext _ _ _ _ Hx2 Ht1).
Qed.


Lemma merge3_keeps_edits_witness :
  ∃ c out, ex_merged.2 = Ok (c, []) ∧ @LoadDir ex_dj _ ex_blobs c ex_merged.1 = Ok out.
Proof.
  destruct ex_three as (Hok & Htr & Htl & Hte).
  destruct (@merge3_keeps_edits ex_dj _ ex_blobs ex_cfg DefaultLabeler ex_vok ex_clean ex_holds ex_laws (λ _ H, H) 0
    ex_root ex_local ex_remote ex_remoted.1 ex_merged.1 ex_merged.2) as (c & conf & bD & lD & rD & out & E & El & _).
  - exact Hok.
  - exact Htl.
  - exact Hte.
  - left. exact Htr.
  - unfold ex_merged. destruct (Merge3 _ _ _ _ _ _ _). reflexivity.
  - apply is_clean_ok. vm_compute. reflexivity.
  - refine (proj1 (bool_decide_eq_true _) _). vm_compute. reflexivity.
  - refine (proj1 (bool_decide_eq_true _) _). vm_compute. reflexivity.
  - refine (proj1 (bool_decide_eq_true _) _). vm_compute. reflexivity.
  - assert (match ex_merged.2 with Ok (_, conf) => conf | Err _ => ["?"] end = []) as Ec by (vm_compute; reflexivity).
    rewrite E in Ec. cbn beta iota in Ec. subst conf. exists c, out. exact (conj E El).
Defined.
