(* ===== verification/Base64.v ===== *)
(** * encoding/base64: StdEncoding as the record codecs use it

    [EncodeToString] pads with '='; [DecodeString] skips carriage returns and
    line feeds, wants whole quanta, and does not look at the unused bits of a
    padded one (the encoding is not strict). *)

From Stdlib Require Import Ascii.
From S2P Require Import Prelude GoLib.

Module B64.
Definition digit (n : Z) : ascii :=
  ascii_of_N (Z.to_N
    (if n <? 26 then 65 + n else if n <? 52 then 71 + n else if n <? 62 then n - 4 else if n =? 62 then 43 else 47)).

Definition value (c : ascii) : option Z :=
  let n := Z.of_N (N_of_ascii c) in
  if (65 <=? n) && (n <=? 90) then Some (n - 65)
  else if (97 <=? n) && (n <=? 122) then Some (n - 71)
  else if (48 <=? n) && (n <=? 57) then Some (n + 4)
  else if n =? 43 then Some 62 else if n =? 47 then Some 63 else None.

Definition pad : ascii := "="%char.

Fixpoint encode (b : bytes) : list ascii :=
  match b with
  | [] => []
  | [x] => [digit (b2Z x / 4); digit (b2Z x mod 4 * 16); pad; pad]
  | [x; y] => [digit (b2Z x / 4); digit (b2Z x mod 4 * 16 + b2Z y / 16); digit (b2Z y mod 16 * 4); pad]
  | x :: y :: z :: b =>
      digit (b2Z x / 4) :: digit (b2Z x mod 4 * 16 + b2Z y / 16) ::
      digit (b2Z y mod 16 * 4 + b2Z z / 64) :: digit (b2Z z mod 64) :: encode b
  end.

Fixpoint decode (l : list ascii) : option bytes :=
  match l with
  | [] => Some []
  | a :: b :: c :: d :: r =>
      a ← value a; b ← value b;
      if decide (d = pad) then
        match r with
        | [] =>
            if decide (c = pad) then Some [Z2b (a * 4 + b / 16)]
            else c ← value c; Some [Z2b (a * 4 + b / 16); Z2b (b mod 16 * 16 + c / 4)]
        | _ => None
        end
      else
        c ← value c; d ← value d; r ← decode r;
        Some (Z2b (a * 4 + b / 16) :: Z2b (b mod 16 * 16 + c / 4) :: Z2b (c mod 4 * 64 + d) :: r)
  | _ => None
  end.

Definition is_newline (c : ascii) : bool := bool_decide (c = "010"%char) || bool_decide (c = "013"%char).

Definition EncodeToString (b : bytes) : string := String.string_of_list_ascii (encode b).
Definition DecodeString (s : string) : option bytes :=
  decode (List.filter (λ c, negb (is_newline c)) (String.list_ascii_of_string s)).

(** ** Round trip *)

Lemma value_digit n :
  0 ≤ n < 64 → value (digit n) = Some n ∧ digit n ≠ pad ∧ is_newline (digit n) = false.
Proof.
  intros Hn. assert (∃ k, n = Z.of_nat k ∧ (k < 64)%nat) as (k & -> & Hk) by (exists (Z.to_nat n); lia).
  do 64 (destruct k as [|k]; [done|]). lia.
Qed.


Lemma bounds x y z :
  0 ≤ b2Z x / 4 < 64 ∧ 0 ≤ b2Z x mod 4 * 16 + b2Z y / 16 < 64 ∧ 0 ≤ b2Z x mod 4 * 16 < 64 ∧
  0 ≤ b2Z y mod 16 * 4 + b2Z z / 64 < 64 ∧ 0 ≤ b2Z y mod 16 * 4 < 64 ∧ 0 ≤ b2Z z mod 64 < 64.
Proof.
  pose proof (b2Z_range x). pose proof (b2Z_range y). pose proof (b2Z_range z).
  Z.div_mod_to_equations. lia.
Qed.

Lemma bytes_ind3 (P : bytes → Prop) :
  P [] → (∀ x, P [x]) → (∀ x y, P [x; y]) → (∀ x y z b, P b → P (x :: y :: z :: b)) → ∀ b, P b.
Proof.
  intros H0 H1 H2 H3. fix IH 1. intros [|x [|y [|z b]]]; [exact H0|apply H1|apply H2|apply H3, IH].
Qed.

Lemma first_byte x v : 0 ≤ v < 16 → Z2b (b2Z x / 4 * 4 + (b2Z x mod 4 * 16 + v) / 16) = x.
Proof. intros Hv. pose proof (b2Z_range x). rewrite <-(Z2b_b2Z x) at 3. f_equal. Z.div_mod_to_equations. lia. Qed.
Lemma second_byte x y v : 0 ≤ v < 4 →
  Z2b ((b2Z x mod 4 * 16 + b2Z y / 16) mod 16 * 16 + (b2Z y mod 16 * 4 + v) / 4) = y.
Proof.
  intros Hv. pose proof (b2Z_range x). pose proof (b2Z_range y). rewrite <-(Z2b_b2Z y) at 3. f_equal.
  Z.div_mod_to_equations. lia.
Qed.
Lemma third_byte y z : Z2b ((b2Z y mod 16 * 4 + b2Z z / 64) mod 4 * 64 + b2Z z mod 64) = z.
Proof.
  pose proof (b2Z_range y). pose proof (b2Z_range z). rewrite <-(Z2b_b2Z z) at 3. f_equal.
  Z.div_mod_to_equations. lia.
Qed.

Lemma decode_encode b : decode (encode b) = Some b ∧ List.filter (λ c, negb (is_newline c)) (encode b) = encode b.
Proof.
  induction b as [|x|x y|x y z b [IH1 IH2]] using bytes_ind3; [done|..]; cbn [encode decode List.filter].
  - destruct (bounds x x x) as (H1 & _ & H2 & _).
    destruct (value_digit _ H1) as (E1 & _ & N1), (value_digit _ H2) as (E2 & _ & N2).
    rewrite E1, N1, E2, N2. split; [|done]. cbn [mbind option_bind].
    rewrite decide_True by done. rewrite decide_True by done. do 2 f_equal.
    rewrite <-(Z.add_0_r (b2Z x mod 4 * 16)). by apply first_byte.
  - destruct (bounds x y x) as (H1 & H2 & _ & _ & H3 & _).
    destruct (value_digit _ H1) as (E1 & _ & N1), (value_digit _ H2) as (E2 & _ & N2), (value_digit _ H3) as (E3 & P3 & N3).
    rewrite E1, N1, E2, N2, E3, N3. split; [|done]. cbn [mbind option_bind].
    rewrite decide_True by done. rewrite decide_False by done. pose proof (b2Z_range y).
    rewrite first_byte by (Z.div_mod_to_equations; lia).
    rewrite <-(Z.add_0_r (b2Z y mod 16 * 4)). by rewrite second_byte.
  - destruct (bounds x y z) as (H1 & H2 & _ & H3 & _ & H4).
    destruct (value_digit _ H1) as (E1 & _ & N1), (value_digit _ H2) as (E2 & _ & N2), (value_digit _ H3) as (E3 & _ & N3),
      (value_digit _ H4) as (E4 & P4 & N4).
    rewrite E1, N1, E2, N2, E3, N3, E4, N4, IH2. split; [|done]. cbn [mbind option_bind].
    rewrite decide_False by done. rewrite IH1. cbn [mbind option_bind].
    pose proof (b2Z_range y). pose proof (b2Z_range z).
    rewrite first_byte by (Z.div_mod_to_equations; lia). rewrite second_byte by (Z.div_mod_to_equations; lia).
    by rewrite third_byte.
Qed.

Lemma Decode_Encode64 b : DecodeString (EncodeToString b) = Some b.
Proof.
  unfold DecodeString, EncodeToString. rewrite String.list_ascii_of_string_of_list_ascii.
  destruct (decode_encode b) as [E ->]. exact E.
Qed.

#[export] Instance EncodeToString_inj : Inj (=) (=) EncodeToString.
Proof.
  intros x y E. apply (inj Some). by rewrite <-!Decode_Encode64, E.
Qed.
End B64.
