(* ===== verification/Root.v ===== *)
(** * internal/manifest: root.go and fullroot.go, and their codecs

    The signed pointer to a User's root directory and its sealed companion:
    what is signed, how a record is built, verified and opened. The JSON forms
    are those of internal/provider (file_rootstore.go, fullroot.go). *)

From S2P Require Import Prelude GoLib Store Crypto Stripe Erasure Chunk Pipeline Wire Codec Base64 Manifest.

Definition is_u64 (z : Z) : Prop := 0 ≤ z < 2 ^ 64.

Lemma u64_id z : is_u64 z → u64 z = z.
Proof. unfold is_u64, u64. intros. apply Z.mod_small. lia. Qed.

(** The eight bytes of a uint64. *)
Definition be64 (z : Z) : bytes := be_enc 8 (u64 z).

Lemma length_be64 z : length (be64 z) = 8%nat.
Proof. apply length_be_enc. Qed.

Lemma be64_inj y z : is_u64 y → is_u64 z → be64 y = be64 z → y = z.
Proof.
  intros Hy Hz. unfold be64. rewrite !u64_id by done. apply be_enc_inj; unfold is_u64 in *; simpl; lia.
Qed.

Lemma be64_inj_i64 y z : in_i64 y → in_i64 z → be64 y = be64 z → y = z.
Proof.
  intros Hy Hz E. rewrite <-(i64_id y), <-(i64_id z) by done. rewrite <-(i64_u64 y), <-(i64_u64 z). f_equal.
  apply (be_enc_inj 8); [..|exact E]; unfold u64; pose proof (Z.mod_pos_bound y (2 ^ 64)); pose proof (Z.mod_pos_bound z (2 ^ 64)); simpl; lia.
Qed.

(** ** root.go *)

Record RootPointer := mkRootP { rp_Owner : bytes; rp_Root : ReadCap; rp_Seq : Z; rp_TimeNS : Z; rp_Sig : bytes }.
#[export] Instance RootPointer_eq_dec : EqDecision RootPointer.
Proof. solve_decision. Defined.

Definition rootDomain : bytes := str_bytes "revika/root/1.0.0" ++ [Byte.x00].

(** The cap without its key: [r.Root.VerifyCap().ReadCap()]. *)
Definition strip_cap (c : ReadCap) : ReadCap := of_verify (to_verify c).

Section root.
Context `{Hed : Ed25519} `{Hcj : Json readCapJSON}.

Definition root_signingPayload (r : RootPointer) : result manifest_err bytes :=
  capBytes ← cap_MarshalBinary (strip_cap (rp_Root r));
  Ok (rootDomain ++ rp_Owner r ++ be64 (rp_Seq r) ++ be64 (rp_TimeNS r) ++ capBytes).

Definition SignRoot (k : bytes) (root : ReadCap) (seq timeNS : Z) : result manifest_err RootPointer :=
  let r := mkRootP (Public k) root seq timeNS [] in
  payload ← root_signingPayload r;
  Ok (mkRootP (Public k) root seq timeNS (Sign k payload)).

Definition root_Verify (r : RootPointer) : bool :=
  match root_signingPayload r with
  | Err _ => false
  | Ok payload => Verify (rp_Owner r) payload (rp_Sig r)
  end.
End root.

(** ** fullroot.go *)

Record FullRootRecord := mkFull {
  fr_Owner : bytes; fr_Seq : Z; fr_Sealed : bytes; fr_Seals : list bytes; fr_Sig : bytes }.

Definition fullrootDomain : bytes := str_bytes "revika/fullroot/1.0.0" ++ [Byte.x00].

Inductive fullroot_err := FSeal (e : manifest_err) | FSealFor (i : nat) (e : manifest_err) | FNoRecipients | FBadSig | ErrNoSealForKey.

(** A length-prefixed field. *)
Definition lp (s : bytes) : bytes := be64 (Z.of_nat (length s)) ++ s.

Definition full_signingPayload (r : FullRootRecord) : bytes :=
  fullrootDomain ++ fr_Owner r ++ be64 (fr_Seq r) ++ fr_Sealed r ++
  match fr_Seals r with
  | [] => []
  | seals => be64 (Z.of_nat (length seals)) ++ concat (lp <$> seals)
  end.

Section fullroot.
Context `{Hed : Ed25519} `{Hgcm : AesGcm} `{Hkem : MlKem} `{Hcj : Json readCapJSON}.
Implicit Types (root : ReadCap) (r : FullRootRecord).

Definition sign_full (signer : bytes) r : FullRootRecord :=
  mkFull (fr_Owner r) (fr_Seq r) (fr_Sealed r) (fr_Seals r) (Sign signer (full_signingPayload r)).

Definition SealFullRoot (rnd : bytes) (nonce : option bytes) (signer recipient : bytes) root (seq : Z)
    : result fullroot_err FullRootRecord :=
  sealed ← map_err FSeal (WrapCap rnd nonce recipient root);
  Ok (sign_full signer (mkFull (Public signer) seq sealed [] [])).

(** The loop over the recipients, from recipient [i] on. *)
Fixpoint seal_each (rnd : nat → bytes) (nonce : nat → option bytes) (i : nat) (recipients : list bytes) root
    : result fullroot_err (list bytes) :=
  match recipients with
  | [] => Ok []
  | rcpt :: recipients =>
      s ← map_err (FSealFor i) (WrapCap (rnd i) (nonce i) rcpt root);
      seals ← seal_each rnd nonce (i + 1) recipients root;
      Ok (s :: seals)
  end.

Definition SealFullRootFor (rnd : nat → bytes) (nonce : nat → option bytes) (signer : bytes)
    (recipients : list bytes) root (seq : Z) : result fullroot_err FullRootRecord :=
  match recipients with
  | [] => Err FNoRecipients
  | _ =>
      seals ← seal_each rnd nonce 0 recipients root;
      Ok (sign_full signer (mkFull (Public signer) seq [] seals []))
  end.

Definition full_Verify r : bool :=
  match fr_Sig r, fr_Sealed r, fr_Seals r with
  | [], _, _ => false
  | _, [], [] => false
  | _, _, _ => Verify (fr_Owner r) (full_signingPayload r) (fr_Sig r)
  end.

(** The first seal that opens. *)
Fixpoint open_seals (priv : bytes) (seals : list bytes) : option ReadCap :=
  match seals with
  | [] => None
  | s :: seals => match UnwrapCap priv s with Ok c => Some c | Err _ => open_seals priv seals end
  end.

Definition full_Open (priv : bytes) r : result fullroot_err ReadCap :=
  if negb (full_Verify r) then Err FBadSig
  else
    let legacy := match fr_Sealed r with [] => None | s => match UnwrapCap priv s with Ok c => Some c | Err _ => None end end in
    match legacy with
    | Some c => Ok c
    | None => of_option ErrNoSealForKey (open_seals priv (fr_Seals r))
    end.
End fullroot.

(** ** file_rootstore.go and provider/fullroot.go: the JSON forms *)

Record rootPointerJSON := mkRootJ {
  rj_owner : string; rj_root : option readCapJSON; rj_seq : Z; rj_time_ns : Z; rj_sig : string }.

Inductive codec_err := CParse | COwner | CSig | CSealed | CSeal | CRoot (e : manifest_err) | CMember.

Definition EncodeRootPointer `{Json rootPointerJSON} (rp : RootPointer) : result codec_err bytes :=
  of_option CParse (Marshal (mkRootJ (B64.EncodeToString (rp_Owner rp)) (Some (cap_to_json (rp_Root rp)))
    (rp_Seq rp) (rp_TimeNS rp) (B64.EncodeToString (rp_Sig rp)))).

(** [base64.StdEncoding.DecodeString] of an owner key. *)
Definition decodeOwner (s : string) : result codec_err bytes :=
  match B64.DecodeString s with
  | Some owner => if decide (length owner = SignPubKeySize) then Ok owner else Err COwner
  | None => Err COwner
  end.

Definition DecodeRootPointer `{Json rootPointerJSON} (data : bytes) : result codec_err RootPointer :=
  j ← of_option CParse (Unmarshal data);
  (* the cap parses itself inside json.Unmarshal; a missing one stays zero *)
  root ← match rj_root j with Some c => map_err CRoot (cap_of_json c) | None => Ok zeroCap end;
  owner ← decodeOwner (rj_owner j);
  sig ← of_option CSig (B64.DecodeString (rj_sig j));
  Ok (mkRootP owner root (rj_seq j) (rj_time_ns j) sig).

Record fullRootJSON := mkFullJ { fj_owner : string; fj_seq : Z; fj_sealed : string; fj_seals : list string; fj_sig : string }.

Definition EncodeFullRoot `{Json fullRootJSON} (r : FullRootRecord) : result codec_err bytes :=
  of_option CParse (Marshal (mkFullJ (B64.EncodeToString (fr_Owner r)) (fr_Seq r)
    (match fr_Sealed r with [] => "" | s => B64.EncodeToString s end)
    (B64.EncodeToString <$> fr_Seals r) (B64.EncodeToString (fr_Sig r)))).

Fixpoint decode_seals (ss : list string) : result codec_err (list bytes) :=
  match ss with
  | [] => Ok []
  | s :: ss => raw ← of_option CSeal (B64.DecodeString s); r ← decode_seals ss; Ok (raw :: r)
  end.

Definition DecodeFullRoot `{Json fullRootJSON} (data : bytes) : result codec_err FullRootRecord :=
  j ← of_option CParse (Unmarshal data);
  owner ← decodeOwner (fj_owner j);
  sealed ← (if decide (fj_sealed j = "") then Ok [] else of_option CSealed (B64.DecodeString (fj_sealed j)));
  seals ← decode_seals (fj_seals j);
  sig ← of_option CSig (B64.DecodeString (fj_sig j));
  Ok (mkFull owner (fj_seq j) sealed seals sig).

(** ** Lemmas *)

Lemma json_inj `{Json A} (a b : A) x : json_ok a → json_ok b → Marshal a = Some x → Marshal b = Some x → a = b.
Proof.
  intros Ha Hb Ea Eb. destruct (json_roundtrip a Ha) as (y & Ey & Uy), (json_roundtrip b Hb) as (z & Ez & Uz).
  congruence.
Qed.

Lemma cap_to_json_inj c d : cap_ok c → cap_ok d → cap_to_json c = cap_to_json d → c = d.
Proof. intros Hc Hd E. apply (inj (@Ok manifest_err ReadCap)). by rewrite <-!cap_json_roundtrip, E. Qed.

Lemma strip_cap_ok c : cap_ok c → cap_ok (strip_cap c).
Proof. intros (_ & Hs & Hn). by split. Qed.

Lemma strip_cap_verify c d : strip_cap c = strip_cap d ↔ to_verify c = to_verify d.
Proof. unfold strip_cap, of_verify, to_verify. split; [by intros [= -> -> -> -> ->]|by intros [= -> -> -> -> ->]]. Qed.

Lemma strip_cap_idem c : strip_cap (strip_cap c) = strip_cap c.
Proof. done. Qed.

(** Fields of a pointer that fit their Go types. *)
Record root_fields `{Json readCapJSON} (r : RootPointer) : Prop := {
  rf_owner : length (rp_Owner r) = SignPubKeySize;
  rf_seq : is_u64 (rp_Seq r);
  rf_time : in_i64 (rp_TimeNS r);
  rf_cap : cap_ok (rp_Root r);
  rf_json : json_ok (cap_to_json (strip_cap (rp_Root r)));
}.

Section lemmas.
Context `{Hed : Ed25519} `{Hcj : Json readCapJSON}.

Lemma root_payload_total r : root_fields r → ∃ p, root_signingPayload r = Ok p.
Proof.
  intros [_ _ _ _ Hj]. unfold root_signingPayload, cap_MarshalBinary.
  destruct (json_roundtrip _ Hj) as (b & -> & _). by eexists.
Qed.

Lemma root_payload_inj r r' p :
  root_fields r → root_fields r' → root_signingPayload r = Ok p → root_signingPayload r' = Ok p →
  rp_Owner r' = rp_Owner r ∧ rp_Seq r' = rp_Seq r ∧ rp_TimeNS r' = rp_TimeNS r ∧
  to_verify (rp_Root r') = to_verify (rp_Root r).
Proof.
  intros [Ho Hs Ht Hc Hj] [Ho' Hs' Ht' Hc' Hj'] E E'. unfold root_signingPayload in E, E'.
  apply bind_Ok in E as (b & Eb & E), E' as (b' & Eb' & E'). unfold cap_MarshalBinary in Eb, Eb'.
  destruct (Marshal (cap_to_json (strip_cap (rp_Root r)))) as [x|] eqn:Em; [|done].
  destruct (Marshal (cap_to_json (strip_cap (rp_Root r')))) as [x'|] eqn:Em'; [|done].
  cbn [of_option] in Eb, Eb'. apply (inj Ok) in Eb as <-, Eb' as <-.
  apply (inj Ok) in E as <-. apply (inj Ok) in E'.
  apply app_inv_head in E'. apply app_inj_1 in E' as [E1 E']; [|congruence].
  apply app_inj_1 in E' as [E2 E']; [|by rewrite !length_be64].
  apply app_inj_1 in E' as [E3 E4]; [|by rewrite !length_be64]. subst x'.
  split_and!; [done|by apply be64_inj|by apply be64_inj_i64|].
  apply strip_cap_verify, cap_to_json_inj; [by apply strip_cap_ok..|]. by eapply json_inj.
Qed.

Lemma SignRoot_spec k root seq timeNS :
  root_fields (mkRootP (Public k) root seq timeNS []) →
  ∃ sig, SignRoot k root seq timeNS = Ok (mkRootP (Public k) root seq timeNS sig) ∧
    root_Verify (mkRootP (Public k) root seq timeNS sig) = true.
Proof.
  intros Hf. destruct (root_payload_total _ Hf) as [p Ep]. exists (Sign k p). unfold SignRoot. rewrite Ep.
  split; [done|]. unfold root_Verify. change (root_signingPayload (mkRootP (Public k) root seq timeNS (Sign k p)))
    with (root_signingPayload (mkRootP (Public k) root seq timeNS [])). rewrite Ep. cbn [rp_Owner rp_Sig].
  unfold Verify, Public, Sign. apply ed_verify_sign.
Qed.

(** The key of the root cap is not part of what is signed. *)
Lemma root_Verify_strip r :
  root_Verify (mkRootP (rp_Owner r) (strip_cap (rp_Root r)) (rp_Seq r) (rp_TimeNS r) (rp_Sig r)) = root_Verify r.
Proof. done. Qed.
End lemmas.

Section seals.
Context `{Hed : Ed25519} `{Hgcm : AesGcm} `{Hkem : MlKem} `{Hcj : Json readCapJSON}.

Lemma UnwrapCap_WrapCap rnd nonce priv pub root :
  PublicOf priv = Ok pub → length nonce = NonceSize → cap_ok root → json_ok (cap_to_json root) →
  ∃ s, WrapCap rnd (Some nonce) pub root = Ok s ∧ s ≠ [] ∧ UnwrapCap priv s = Ok root.
Proof.
  intros Hp Hn Hc Hj. destruct (json_roundtrip _ Hj) as (raw & Em & Eu).
  destruct (wrap_unwrap priv pub rnd nonce raw Hp Hn) as (s & Ew & Hl & Eo & _).
  exists s. unfold WrapCap, UnwrapCap, cap_MarshalBinary, cap_UnmarshalBinary. rewrite Em. cbn [of_option mbind result_bind].
  rewrite Ew. split; [done|]. split; [intros ->; simpl in Hl; lia|].
  rewrite Eo. cbn [map_err mbind result_bind]. rewrite Eu. cbn [of_option mbind result_bind].
  by apply cap_json_roundtrip.
Qed.

Lemma seal_each_spec rnd nonce recipients root :
  (∀ i, ∃ n, nonce i = Some n ∧ length n = NonceSize) →
  Forall (λ pub, ∃ priv, PublicOf priv = Ok pub) recipients → cap_ok root → json_ok (cap_to_json root) →
  ∀ i, ∃ seals, seal_each rnd nonce i recipients root = Ok seals ∧ length seals = length recipients ∧
    ∀ priv pub, PublicOf priv = Ok pub → pub ∈ recipients → ∃ s, s ∈ seals ∧ UnwrapCap priv s = Ok root.
Proof.
  intros Hn Hr Hc Hj. induction Hr as [|pub recipients [priv0 Hpub] _ IH]; intros i; cbn [seal_each].
  { exists []. split; [done|]. split; [done|]. intros priv pub _ []%elem_of_nil. }
  destruct (Hn i) as (n & -> & Hl). destruct (IH (i + 1)%nat) as (seals & Es & Hlen & Hopen).
  destruct (UnwrapCap_WrapCap (rnd i) n priv0 pub root Hpub Hl Hc Hj) as (s & Ew & _ & _).
  rewrite Ew. cbn [map_err mbind result_bind]. rewrite Es. cbn [mbind result_bind].
  exists (s :: seals). split; [done|]. split; [simpl; lia|].
  intros priv pub' Hp [->|Hin]%elem_of_cons.
  - destruct (UnwrapCap_WrapCap (rnd i) n priv pub root Hp Hl Hc Hj) as (s' & Ew' & _ & Eo).
    rewrite Ew in Ew'. apply (inj Ok) in Ew' as <-. exists s. split; [by left|done].
  - destruct (Hopen priv pub' Hp Hin) as (s' & ? & ?). exists s'. split; [by right|done].
Qed.

Lemma open_seals_spec priv seals root :
  (∀ s c, s ∈ seals → UnwrapCap priv s = Ok c → c = root) →
  open_seals priv seals = (if decide (Exists (λ s, is_ok (UnwrapCap priv s) = true) seals) then Some root else None).
Proof.
  induction seals as [|s seals IH]; intros Ha; cbn [open_seals].
  { case_decide as H; [by apply Exists_nil in H|done]. }
  destruct (UnwrapCap priv s) as [c|e] eqn:E.
  - rewrite (Ha s c) by (done || by left). rewrite decide_True; [done|]. apply Exists_cons_hd. by rewrite E.
  - rewrite IH by (intros s' c Hs; apply Ha; by right). apply decide_ext. rewrite Exists_cons, E. split; [by right|].
    intros [?|?]; done.
Qed.

Lemma full_Verify_signed signer r :
  fr_Owner r = Public signer → fr_Sealed r ≠ [] ∨ fr_Seals r ≠ [] → full_Verify (sign_full signer r) = true.
Proof.
  intros Ho Hne. assert (length (Sign signer (full_signingPayload r)) = SignatureSize) as Hl by apply ed_sign_length.
  assert (Verify (fr_Owner r) (full_signingPayload r) (Sign signer (full_signingPayload r)) = true) as Hv
    by (rewrite Ho; apply ed_verify_sign).
  unfold full_Verify, sign_full. cbn [fr_Sig fr_Sealed fr_Seals fr_Owner].
  change (full_signingPayload (mkFull (fr_Owner r) (fr_Seq r) (fr_Sealed r) (fr_Seals r) (Sign signer (full_signingPayload r))))
    with (full_signingPayload r).
  destruct (Sign signer (full_signingPayload r)) as [|x sig]; [done|].
  destruct (fr_Sealed r) as [|? ?], (fr_Seals r) as [|? ?]; try exact Hv. by destruct Hne.
Qed.
End seals.

(** ** Length-prefixed fields *)

Lemma length_lp s : length (lp s) = (8 + length s)%nat.
Proof. unfold lp. by rewrite length_app, length_be64. Qed.

Lemma lp_inj s s' x x' :
  is_u64 (Z.of_nat (length s)) → is_u64 (Z.of_nat (length s')) → lp s ++ x = lp s' ++ x' → s = s' ∧ x = x'.
Proof.
  intros Hs Hs' E. unfold lp in E. rewrite <-!app_assoc in E. apply app_inj_1 in E as [El E]; [|by rewrite !length_be64].
  apply app_inj_1; [|done]. apply be64_inj in El; [lia|done..].
Qed.

Definition lp_ok (s : bytes) : Prop := is_u64 (Z.of_nat (length s)).

Lemma concat_lp_inj l : ∀ l' x x', Forall lp_ok l → Forall lp_ok l' → length l = length l' →
  concat (lp <$> l) ++ x = concat (lp <$> l') ++ x' → l = l' ∧ x = x'.
Proof.
  induction l as [|s l IH]; intros [|s' l'] x x' Hl Hl' Hlen E; try done.
  apply Forall_cons in Hl as [Hs Hl], Hl' as [Hs' Hl']. cbn [fmap list_fmap concat] in E. rewrite <-!app_assoc in E.
  apply lp_inj in E as [-> E]; [|done..]. apply IH in E as [-> ->]; [done..|]. by injection Hlen.
Qed.

(** Fields of a companion that fit their Go types. *)
Record full_fields (r : FullRootRecord) : Prop := {
  ff_owner : length (fr_Owner r) = SignPubKeySize;
  ff_seq : is_u64 (fr_Seq r);
  ff_count : is_u64 (Z.of_nat (length (fr_Seals r)));
  ff_seals : Forall lp_ok (fr_Seals r);
}.

(** What the signature of a device-scoped companion binds. *)
Lemma full_payload_inj r r' :
  full_fields r → full_fields r' → fr_Sealed r = [] → fr_Sealed r' = [] → fr_Seals r ≠ [] → fr_Seals r' ≠ [] →
  full_signingPayload r = full_signingPayload r' →
  fr_Owner r = fr_Owner r' ∧ fr_Seq r = fr_Seq r' ∧ fr_Seals r = fr_Seals r'.
Proof.
  intros [Ho Hs Hc Hl] [Ho' Hs' Hc' Hl'] E0 E0' Hn Hn' E. unfold full_signingPayload in E. rewrite E0, E0' in E.
  apply app_inv_head in E. apply app_inj_1 in E as [E1 E]; [|congruence].
  apply app_inj_1 in E as [E2 E]; [|by rewrite !length_be64]. cbn [app] in E.
  destruct (fr_Seals r) as [|s l]; [done|]. destruct (fr_Seals r') as [|s' l']; [done|].
  apply app_inj_1 in E as [E3 E]; [|by rewrite !length_be64]. apply be64_inj in E3; [|done..].
  split; [done|]. split; [by apply be64_inj|].
  refine (proj1 (concat_lp_inj (s :: l) (s' :: l') [] [] Hl Hl' _ _)); [lia|]. by rewrite !app_nil_r.
Qed.

(** ** Codec round trips *)

Lemma decodeOwner_enc owner : length owner = SignPubKeySize → decodeOwner (B64.EncodeToString owner) = Ok owner.
Proof. intros Hl. unfold decodeOwner. rewrite B64.Decode_Encode64. by rewrite decide_True. Qed.

Lemma decode_seals_enc seals : decode_seals (B64.EncodeToString <$> seals) = Ok seals.
Proof. induction seals as [|s seals IH]; [done|]. cbn. by rewrite B64.Decode_Encode64, IH. Qed.

Lemma encode_nonempty s : s ≠ [] → B64.EncodeToString s ≠ "".
Proof. intros Hs E. pose proof (B64.Decode_Encode64 s) as Hd. rewrite E in Hd. by injection Hd. Qed.

Definition root_json (rp : RootPointer) : rootPointerJSON :=
  mkRootJ (B64.EncodeToString (rp_Owner rp)) (Some (cap_to_json (rp_Root rp))) (rp_Seq rp) (rp_TimeNS rp)
    (B64.EncodeToString (rp_Sig rp)).
Definition full_json (r : FullRootRecord) : fullRootJSON :=
  mkFullJ (B64.EncodeToString (fr_Owner r)) (fr_Seq r) (match fr_Sealed r with [] => "" | s => B64.EncodeToString s end)
    (B64.EncodeToString <$> fr_Seals r) (B64.EncodeToString (fr_Sig r)).

Lemma root_codec `{Json rootPointerJSON} rp :
  length (rp_Owner rp) = SignPubKeySize → cap_ok (rp_Root rp) → json_ok (root_json rp) →
  ∃ b, EncodeRootPointer rp = Ok b ∧ DecodeRootPointer b = Ok rp.
Proof.
  intros Ho Hc Hj. destruct (json_roundtrip _ Hj) as (b & Em & Eu). exists b.
  unfold EncodeRootPointer, DecodeRootPointer. fold (root_json rp). rewrite Em, Eu. split; [done|].
  cbn [of_option mbind result_bind root_json rj_root rj_owner rj_sig].
  rewrite cap_json_roundtrip by done. cbn [map_err mbind result_bind]. rewrite decodeOwner_enc by done.
  cbn [mbind result_bind]. rewrite B64.Decode_Encode64. by destruct rp.
Qed.

Lemma full_codec `{Json fullRootJSON} r :
  length (fr_Owner r) = SignPubKeySize → json_ok (full_json r) →
  ∃ b, EncodeFullRoot r = Ok b ∧ DecodeFullRoot b = Ok r.
Proof.
  intros Ho Hj. destruct (json_roundtrip _ Hj) as (b & Em & Eu). exists b.
  unfold EncodeFullRoot, DecodeFullRoot. fold (full_json r). rewrite Em, Eu. split; [done|].
  cbn [of_option mbind result_bind full_json fj_owner fj_sealed fj_seals fj_sig]. rewrite decodeOwner_enc by done.
  assert ((if decide (match fr_Sealed r with [] => "" | s => B64.EncodeToString s end = "") then Ok []
           else of_option CSealed (B64.DecodeString (match fr_Sealed r with [] => "" | s => B64.EncodeToString s end)))
          = Ok (fr_Sealed r)) as ->.
  { destruct (fr_Sealed r) as [|x s]; [done|]. rewrite decide_False by (by apply encode_nonempty).
    by rewrite B64.Decode_Encode64. }
  cbn [mbind result_bind]. rewrite decode_seals_enc. cbn [mbind result_bind]. rewrite B64.Decode_Encode64. by destruct r.
Qed.

(** ** Claims *)

Section claims.
Context `{Hed : Ed25519} `{Hgcm : AesGcm} `{Hkem : MlKem} `{Hcj : Json readCapJSON}.

(** SignRoot succeeds on every pointer whose fields fit their Go types, and
    the signature verifies, both on the owner's copy and on the key-stripped copy
    published to the DHT. It binds the pointer: a pointer with the same signed
    bytes has the same owner, sequence number, time and verify cap. *)
Theorem root_signature k root seq timeNS :
  root_fields (mkRootP (Public k) root seq timeNS []) →
  ∃ rp, SignRoot k root seq timeNS = Ok rp ∧ root_Verify rp = true ∧
    root_Verify (mkRootP (rp_Owner rp) (strip_cap (rp_Root rp)) (rp_Seq rp) (rp_TimeNS rp) (rp_Sig rp)) = true ∧
    rp_Owner rp = Public k ∧ rp_Root rp = root ∧ rp_Seq rp = seq ∧ rp_TimeNS rp = timeNS ∧
    ∀ rp', root_fields rp' → root_signingPayload rp' = root_signingPayload rp →
      rp_Owner rp' = Public k ∧ rp_Seq rp' = seq ∧ rp_TimeNS rp' = timeNS ∧ to_verify (rp_Root rp') = to_verify root.
Proof.
  intros Hf. destruct (SignRoot_spec k root seq timeNS Hf) as (sig & Es & Hv). eexists. split; [exact Es|].
  split; [done|]. split; [by rewrite root_Verify_strip|]. do 4 (split; [done|]).
  intros rp' Hf' E. destruct (root_payload_total _ Hf) as [p Ep].
  change (root_signingPayload (mkRootP (Public k) root seq timeNS sig))
    with (root_signingPayload (mkRootP (Public k) root seq timeNS [])) in E. rewrite Ep in E.
  exact (root_payload_inj _ _ p Hf Hf' Ep E).
Qed.

(** Read-side device revocation: the companion SealFullRootFor builds for a
    non-empty list of devices verifies; the key of every listed device opens it to
    the root (seals being authentic: one that opens gives the root); a key that
    opens none of its seals is refused with ErrNoSealForKey; and the signature
    binds it: no other device-scoped record has the same signed bytes. *)
Theorem fullroot_revocation rnd nonce signer recipients root seq :
  recipients ≠ [] → (∀ i, ∃ n, nonce i = Some n ∧ length n = NonceSize) →
  Forall (λ pub, ∃ priv, PublicOf priv = Ok pub) recipients → cap_ok root → json_ok (cap_to_json root) →
  ∃ r, SealFullRootFor rnd nonce signer recipients root seq = Ok r ∧ full_Verify r = true ∧
    fr_Owner r = Public signer ∧ fr_Seq r = seq ∧ length (fr_Seals r) = length recipients ∧
    (∀ priv pub, PublicOf priv = Ok pub → pub ∈ recipients →
      (∀ s c, s ∈ fr_Seals r → UnwrapCap priv s = Ok c → c = root) → full_Open priv r = Ok root) ∧
    (∀ priv, (∀ s, s ∈ fr_Seals r → is_ok (UnwrapCap priv s) = false) → full_Open priv r = Err ErrNoSealForKey) ∧
    (∀ r', full_fields r → full_fields r' → fr_Sealed r' = [] → fr_Seals r' ≠ [] →
      full_signingPayload r' = full_signingPayload r → fr_Owner r' = fr_Owner r ∧ fr_Seq r' = seq ∧ fr_Seals r' = fr_Seals r).
Proof.
  intros Hne Hn Hr Hc Hj. destruct (seal_each_spec rnd nonce recipients root Hn Hr Hc Hj 0) as (seals & Es & Hlen & Hopen).
  set (r0 := mkFull (Public signer) seq [] seals []). exists (sign_full signer r0).
  assert (seals ≠ []) as Hs by (destruct recipients, seals; done).
  assert (full_Verify (sign_full signer r0) = true) as Hv by (apply full_Verify_signed; [done|by right]).
  split. { unfold SealFullRootFor. destruct recipients; [done|]. by rewrite Es. }
  do 4 (split; [done|]). split; [|split].
  - intros priv pub Hp Hin Ha. unfold full_Open. rewrite Hv. cbn [negb sign_full fr_Sealed fr_Seals r0].
    rewrite (open_seals_spec priv seals root Ha). rewrite decide_True; [done|].
    destruct (Hopen priv pub Hp Hin) as (s & Hs' & E). apply Exists_exists. exists s. by rewrite E.
  - intros priv Hno. unfold full_Open. rewrite Hv. cbn [negb sign_full fr_Sealed fr_Seals r0].
    cbn [sign_full fr_Seals r0] in Hno.
    rewrite (open_seals_spec priv seals root) by (intros s c Hi E; specialize (Hno s Hi); by rewrite E in Hno).
    rewrite decide_False; [done|]. intros (s & Hi & E)%Exists_exists. rewrite Hno in E by done. done.
  - intros r' Hf Hf' E0 Hs' E. by apply (full_payload_inj r' (sign_full signer r0)).
Qed.

(** The signed bytes of a companion do not separate its two forms: the
    device-scoped record with seals [seals] and the legacy record whose Sealed
    blob is the encoded list have the same payload, so the owner's signature on
    the one verifies on the other, and no key opens the other unless the encoded
    list happens to unwrap. *)
Theorem fullroot_payload_ambiguous rnd nonce signer recipients root seq r :
  recipients ≠ [] → SealFullRootFor rnd nonce signer recipients root seq = Ok r →
  let r' := mkFull (fr_Owner r) (fr_Seq r) (be64 (Z.of_nat (length (fr_Seals r))) ++ concat (lp <$> fr_Seals r)) [] (fr_Sig r) in
  r' ≠ r ∧ full_signingPayload r' = full_signingPayload r ∧ full_Verify r' = true ∧
  ∀ priv, is_ok (UnwrapCap priv (fr_Sealed r')) = false → full_Open priv r' = Err ErrNoSealForKey.
Proof.
  intros Hne E r'. unfold SealFullRootFor in E. destruct recipients as [|pub recipients]; [done|].
  apply bind_Ok in E as (seals & Es & E). apply (inj Ok) in E as <-.
  cbn [seal_each] in Es. apply bind_Ok in Es as (s & _ & Es). apply bind_Ok in Es as (l & _ & Es). apply (inj Ok) in Es as <-.
  assert (full_signingPayload r' = full_signingPayload (sign_full signer (mkFull (Public signer) seq [] (s :: l) []))) as Ep.
  { unfold full_signingPayload. cbn [fr_Owner fr_Seq fr_Sealed fr_Seals r' sign_full app]. by rewrite app_nil_r. }
  assert (fr_Sealed r' ≠ []) as Hs.
  { intros E%(f_equal length). cbn [r' fr_Sealed] in E. rewrite length_app, length_be64 in E. simpl in E. lia. }
  assert (full_Verify r' = true) as Hv.
  { pose proof (full_Verify_signed signer (mkFull (Public signer) seq [] (s :: l) []) eq_refl ltac:(by right)) as Hv.
    unfold full_Verify in Hv |- *. rewrite Ep. destruct (fr_Sealed r'); [done|]. cbn [r' fr_Sig fr_Owner sign_full] in *.
    by destruct (Sign signer _). }
  split; [|split; [exact Ep|split; [exact Hv|]]].
  - intros E%(f_equal fr_Sealed). done.
  - intros priv Hno. unfold full_Open. rewrite Hv. cbn [negb].
    replace (fr_Seals r') with (@nil bytes) by done.
    destruct (UnwrapCap priv (fr_Sealed r')) as [c|e] eqn:E; [done|].
    destruct (fr_Sealed r') as [|x b]; [done|]. by rewrite E.
Qed.
End claims.

(** ** Witnesses *)

#[export] Instance rootPointerJSON_ser : Ser rootPointerJSON.
Proof.
  refine (ser_iso (λ r, (rj_owner r, rj_root r, rj_seq r, rj_time_ns r, rj_sig r)) (λ '(a, b, c, d, e), mkRootJ a b c d e) _).
  by intros [].
Defined.
#[export] Instance fullRootJSON_ser : Ser fullRootJSON.
Proof.
  refine (ser_iso (λ r, (fj_owner r, fj_seq r, fj_sealed r, fj_seals r, fj_sig r)) (λ '(a, b, c, d, e), mkFullJ a b c d e) _).
  by intros [].
Defined.
Definition toy_root_json : Json rootPointerJSON := ser_json rootPointerJSON.
Definition toy_full_json : Json fullRootJSON := ser_json fullRootJSON.

(** A key encapsulation that only the recipient's key opens. *)
Definition keyed_kem : MlKem.
Proof.
  refine {| kem_public seed := Some seed;
            kem_encap pk rnd := Some (last_bytes 32 pk, replicate 1056 Byte.x00 ++ last_bytes 32 pk);
            kem_decap seed ct := let k := drop 1056 ct in if decide (k = last_bytes 32 seed) then Some k else None |}.
  - intros. eauto.
  - intros pk rnd k ct [E1 E2]%(inj Some)%pair_eq. rewrite <-E1, <-E2. rewrite length_app, length_replicate, !length_last_bytes. split; reflexivity.
  - intros seed pk rnd k ct E0%(inj Some) [E1 E2]%(inj Some)%pair_eq. rewrite <-E1, <-E2, <-E0. cbn zeta.
    rewrite (drop_app_eq (replicate 1056 Byte.x00)) by (symmetry; apply length_replicate). by rewrite decide_True.
Defined.

Lemma root_signature_witness :
  ∃ rp, @SignRoot toy_ed toy_cap_json [Byte.x05] (ex_cap Byte.x01) 7 99 = Ok rp ∧
    @root_Verify toy_ed toy_cap_json rp = true.
Proof.
  destruct (@root_signature toy_ed toy_cap_json [Byte.x05] (ex_cap Byte.x01) 7 99) as (rp & E & Hv & _).
  - split; [vm_compute; reflexivity|split; vm_compute; congruence|split; vm_compute; congruence| |exact I].
    refine (conj _ (conj _ _)); [vm_compute; reflexivity|repeat constructor|vm_compute; discriminate].
  - exists rp. exact (conj E Hv).
Defined.

Definition ex_seal (rcpts : list bytes) : result fullroot_err FullRootRecord :=
  @SealFullRootFor toy_ed toy_gcm keyed_kem toy_cap_json (λ _, []) (λ _, Some (replicate 12 Byte.x09)) [Byte.x05] rcpts
    (ex_cap Byte.x01) 7.
Definition ex_open (priv : byte) (r : result fullroot_err FullRootRecord) : result fullroot_err ReadCap :=
  r ≫= @full_Open toy_ed toy_gcm keyed_kem toy_cap_json [priv].

Lemma ex_root_cap_ok b : cap_ok (ex_cap b).
Proof. refine (conj _ (conj _ _)); [done|repeat constructor|vm_compute; discriminate]. Qed.

(** Two devices are listed and a third is not. *)
Lemma fullroot_revocation_witness :
  let rcpts := [[Byte.x01]; [Byte.x02]] in
  (∃ r, ex_seal rcpts = Ok r ∧ @full_Verify toy_ed r = true) ∧
  ex_open Byte.x02 (ex_seal rcpts) = Ok (ex_cap Byte.x01) ∧ ex_open Byte.x03 (ex_seal rcpts) = Err ErrNoSealForKey.
Proof.
  intros rcpts. split; [|split; vm_compute; reflexivity].
  destruct (@fullroot_revocation toy_ed toy_gcm keyed_kem toy_cap_json (λ _, []) (λ _, Some (replicate 12 Byte.x09)) [Byte.x05] rcpts
    (ex_cap Byte.x01) 7) as (r & E & Hv & _).
  - vm_compute. discriminate.
  - intros i. eexists. split; reflexivity.
  - repeat constructor; eexists; reflexivity.
  - apply ex_root_cap_ok.
  - exact I.
  - exists r. exact (conj E Hv).
Defined.

Definition ex_legacy (r : result fullroot_err FullRootRecord) : result fullroot_err FullRootRecord :=
  r ← r; Ok (mkFull (fr_Owner r) (fr_Seq r) (be64 (Z.of_nat (length (fr_Seals r))) ++ concat (lp <$> fr_Seals r)) [] (fr_Sig r)).

Lemma fullroot_payload_ambiguous_witness :
  (∃ r, ex_seal [[Byte.x01]] = Ok r ∧
    @full_Verify toy_ed (mkFull (fr_Owner r) (fr_Seq r)
      (be64 (Z.of_nat (length (fr_Seals r))) ++ concat (lp <$> fr_Seals r)) [] (fr_Sig r)) = true) ∧
  ex_open Byte.x01 (ex_legacy (ex_seal [[Byte.x01]])) = Err ErrNoSealForKey.
Proof.
  split; [|vm_compute; reflexivity]. destruct (ex_seal [[Byte.x01]]) as [r|e] eqn:E.
  - exists r. split; [reflexivity|].
    refine (proj1 (proj2 (proj2 (@fullroot_payload_ambiguous toy_ed toy_gcm keyed_kem toy_cap_json _ _ _ _ _ _ r _ E)))).
    vm_compute. discriminate.
  - apply (f_equal is_ok) in E. vm_compute in E. discriminate.
Defined.
