(* ===== verification/Device.v ===== *)
(** * internal/device: the signed set of authorized devices, and its codec

    device.go keeps the owner-signed record of the devices that may open the
    root companion: adding and removing a device, resolving an abbreviated
    handle, signing and verifying. The JSON form is internal/provider's
    (deviceauth.go). The file ends with the separation of every message the
    program signs with an owner key. *)

From Stdlib Require Import Ascii.
From S2P Require Import Prelude GoLib Store Crypto Stripe Erasure Chunk Pipeline Wire Codec Base64 Manifest Root.

Definition PublicKeySize : nat := 1184.

Record Member := mkMember { mb_ID : bytes; mb_Pub : bytes; mb_Label : string; mb_Added : Z }.
#[export] Instance Member_eq_dec : EqDecision Member.
Proof. solve_decision. Defined.

Record Auth := mkAuth { au_Owner : bytes; au_Seq : Z; au_Members : list Member; au_Sig : bytes }.

Inductive device_err :=
| DAlready (id : bytes)      (* device: %s is already authorized *)
| DNotAuthorized (id : bytes) (* device: %s is not authorized *)
| DEmptyHandle | DAmbiguous (handle : string) | DNoMatch (handle : string).

Definition deviceDomain : bytes := str_bytes "revika/deviceauth/1.0.0" ++ [Byte.x00].

(** [sort.Slice] on the IDs; see [sort_by] for equal ones. *)
Definition member_key (m : Member) : string := bytes_key (mb_ID m).
Definition sortMembers : list Member → list Member := sort_by member_key.

Definition member_payload (m : Member) : bytes :=
  mb_ID m ++ mb_Pub m ++ lp (str_bytes (mb_Label m)) ++ be64 (mb_Added m).

Definition auth_signingPayload (a : Auth) : bytes :=
  let members := sortMembers (au_Members a) in
  deviceDomain ++ au_Owner a ++ be64 (au_Seq a) ++ be64 (Z.of_nat (length members)) ++ concat (member_payload <$> members).

Definition auth_Sign `{Ed25519} (signer : bytes) (a : Auth) : Auth :=
  let a := mkAuth (Public signer) (au_Seq a) (au_Members a) (au_Sig a) in
  mkAuth (au_Owner a) (au_Seq a) (au_Members a) (Sign signer (auth_signingPayload a)).

Section device.
Context `{Hsha : Sha256}.

Definition NewID (pub : bytes) : bytes := Sum256 pub.

Fixpoint derived (ms : list Member) : bool :=
  match ms with
  | [] => true
  | m :: ms => if decide (mb_ID m ≠ NewID (mb_Pub m)) then false else derived ms
  end.

Definition auth_Verify `{Ed25519} (a : Auth) : bool :=
  match au_Sig a with
  | [] => false
  | _ => if derived (au_Members a) then Verify (au_Owner a) (auth_signingPayload a) (au_Sig a) else false
  end.

Definition Authorized (a : Auth) (id : bytes) : bool := existsb (λ m, bool_decide (mb_ID m = id)) (au_Members a).

Fixpoint pub_of (ms : list Member) (id : bytes) : option bytes :=
  match ms with
  | [] => None
  | m :: ms => if decide (mb_ID m = id) then Some (mb_Pub m) else pub_of ms id
  end.
Definition PubOf (a : Auth) (id : bytes) : option bytes := pub_of (au_Members a) id.

Definition Recipients (a : Auth) : list bytes := mb_Pub <$> au_Members a.

Definition With (a : Auth) (pub : bytes) (label : string) : result device_err Auth :=
  let id := NewID pub in
  if Authorized a id then Err (DAlready id)
  else
    let seq := u64 (au_Seq a + 1) in
    Ok (mkAuth (au_Owner a) seq (sortMembers (au_Members a ++ [mkMember id pub label seq])) []).

Definition Without (a : Auth) (id : bytes) : result device_err Auth :=
  if negb (Authorized a id) then Err (DNotAuthorized id)
  else Ok (mkAuth (au_Owner a) (u64 (au_Seq a + 1)) (List.filter (λ m, negb (bool_decide (mb_ID m = id))) (au_Members a)) []).
End device.

(** Lowercase hex digits; every other byte is dropped. *)
Fixpoint normalizeHandle (h : string) : string :=
  match h with
  | EmptyString => EmptyString
  | String c h =>
      let n := N_of_ascii c in
      if ((65 <=? n) && (n <=? 70))%N then String (ascii_of_N (n + 32)) (normalizeHandle h)
      else if ((48 <=? n) && (n <=? 57) || (97 <=? n) && (n <=? 102))%N then String c (normalizeHandle h)
      else normalizeHandle h
  end.

(** The loop of [Resolve] with the match found so far. *)
Fixpoint resolve_loop (handle : string) (mtch : option Member) (ms : list Member) : result device_err Member :=
  match ms with
  | [] => of_option (DNoMatch handle) mtch
  | m :: ms =>
      if HasPrefix (Hex.EncodeToString (mb_ID m)) handle then
        match mtch with
        | Some _ => Err (DAmbiguous handle)
        | None => resolve_loop handle (Some m) ms
        end
      else resolve_loop handle mtch ms
  end.

Definition Resolve_handle (a : Auth) (handle : string) : result device_err Member :=
  let handle := normalizeHandle handle in
  if decide (handle = "") then Err DEmptyHandle else resolve_loop handle None (au_Members a).

(** ** provider/deviceauth.go *)

Record deviceMemberJSON := mkMemberJ { mj_id : string; mj_pub : string; mj_label : string; mj_added : Z }.
Record deviceAuthJSON := mkAuthJ { aj_owner : string; aj_seq : Z; aj_members : list deviceMemberJSON; aj_sig : string }.

Definition ParsePublicKey (s : string) : option bytes :=
  match B64.DecodeString s with
  | Some raw => if decide (length raw = PublicKeySize) then Some raw else None
  | None => None
  end.

Definition auth_json (a : Auth) : deviceAuthJSON :=
  mkAuthJ (B64.EncodeToString (au_Owner a)) (au_Seq a)
    ((λ m, mkMemberJ (Hex.EncodeToString (mb_ID m)) (B64.EncodeToString (mb_Pub m)) (mb_Label m) (mb_Added m)) <$> au_Members a)
    (B64.EncodeToString (au_Sig a)).

Definition EncodeDeviceAuth `{Json deviceAuthJSON} (a : Auth) : result codec_err bytes :=
  of_option CParse (Marshal (auth_json a)).

Fixpoint decode_members `{Sha256} (ms : list deviceMemberJSON) : result codec_err (list Member) :=
  match ms with
  | [] => Ok []
  | jm :: ms =>
      pub ← of_option CMember (ParsePublicKey (mj_pub jm));
      r ← decode_members ms;
      Ok (mkMember (NewID pub) pub (mj_label jm) (mj_added jm) :: r)
  end.

Definition DecodeDeviceAuth `{Sha256, Json deviceAuthJSON} (data : bytes) : result codec_err Auth :=
  ja ← of_option CParse (Unmarshal data);
  owner ← decodeOwner (aj_owner ja);
  sig ← of_option CSig (B64.DecodeString (aj_sig ja));
  members ← decode_members (aj_members ja);
  Ok (mkAuth owner (aj_seq ja) members sig).

(** ** Lemmas *)

(** Members whose fields fit their Go types. *)
Record member_ok (m : Member) : Prop := {
  mo_id : length (mb_ID m) = 32%nat;
  mo_pub : length (mb_Pub m) = PublicKeySize;
  mo_label : lp_ok (str_bytes (mb_Label m));
  mo_added : is_u64 (mb_Added m);
}.

Record auth_ok (a : Auth) : Prop := {
  ao_owner : length (au_Owner a) = SignPubKeySize;
  ao_seq : is_u64 (au_Seq a);
  ao_count : is_u64 (Z.of_nat (length (au_Members a)));
  ao_members : Forall member_ok (au_Members a);
}.

Lemma str_bytes_inj s t : str_bytes s = str_bytes t → s = t.
Proof. intros E. rewrite <-(String.string_of_list_byte_of_string s), <-(String.string_of_list_byte_of_string t). unfold str_bytes in E. by rewrite E. Qed.

Lemma member_payload_inj m m' x x' :
  member_ok m → member_ok m' → member_payload m ++ x = member_payload m' ++ x' → m = m' ∧ x = x'.
Proof.
  intros [Hi Hp Hl Ha] [Hi' Hp' Hl' Ha'] E. unfold member_payload in E. rewrite <-!app_assoc in E.
  apply app_inj_1 in E as [E1 E]; [|congruence]. apply app_inj_1 in E as [E2 E]; [|congruence].
  apply lp_inj in E as [E3 E]; [|done..]. apply app_inj_1 in E as [E4 ->]; [|by rewrite !length_be64].
  apply be64_inj in E4; [|done..]. apply str_bytes_inj in E3. split; [|done]. destruct m, m'; simpl in *. congruence.
Qed.

Lemma members_payload_inj ms : ∀ ms', Forall member_ok ms → Forall member_ok ms' → length ms = length ms' →
  concat (member_payload <$> ms) = concat (member_payload <$> ms') → ms = ms'.
Proof.
  induction ms as [|m ms IH]; intros [|m' ms'] Hms Hms' Hl E; try done.
  apply Forall_cons in Hms as [Hm Hms], Hms' as [Hm' Hms']. cbn [fmap list_fmap concat] in E.
  apply member_payload_inj in E as [-> E]; [|done..]. f_equal. apply IH; [done..| |done]. by injection Hl.
Qed.

Lemma sortMembers_perm ms : sortMembers ms ≡ₚ ms.
Proof. apply sort_by_perm. Qed.

(** The signed bytes of a record determine it up to the order of its members. *)
Lemma auth_payload_inj a a' :
  auth_ok a → auth_ok a' → auth_signingPayload a = auth_signingPayload a' →
  au_Owner a = au_Owner a' ∧ au_Seq a = au_Seq a' ∧ au_Members a ≡ₚ au_Members a'.
Proof.
  intros [Ho Hs Hc Hm] [Ho' Hs' Hc' Hm'] E. unfold auth_signingPayload in E. cbn zeta in E.
  apply app_inv_head in E. apply app_inj_1 in E as [E1 E]; [|congruence].
  apply app_inj_1 in E as [E2 E]; [|by rewrite !length_be64].
  apply app_inj_1 in E as [E3 E]; [|by rewrite !length_be64].
  rewrite !sortMembers_perm in E3. apply be64_inj in E2, E3; [|done..].
  apply members_payload_inj in E; [|by rewrite sortMembers_perm..|rewrite !sortMembers_perm; lia].
  split_and!; [done..|]. by rewrite <-(sortMembers_perm (au_Members a)), <-(sortMembers_perm (au_Members a')), E.
Qed.

Lemma bytes_key_inj x y : bytes_key x = bytes_key y → x = y.
Proof. intros E. rewrite <-(String.list_byte_of_string_of_list_byte x), <-(String.list_byte_of_string_of_list_byte y). unfold bytes_key in E. by rewrite E. Qed.

Lemma member_keys_NoDup ms : NoDup (mb_ID <$> ms) → NoDup (member_key <$> ms).
Proof.
  intros H. replace (member_key <$> ms) with (bytes_key <$> (mb_ID <$> ms)) by (by rewrite <-list_fmap_compose).
  apply NoDup_fmap_2_strong; [|done]. intros x y _ _. apply bytes_key_inj.
Qed.

(** ... and does not depend on that order. *)
Lemma sortMembers_canonical ms ms' : NoDup (mb_ID <$> ms) → ms ≡ₚ ms' → sortMembers ms = sortMembers ms'.
Proof.
  intros Hnd Hp. apply (sorted_unique member_key); [| |apply sort_by_sorted..].
  - apply member_keys_NoDup. by rewrite sortMembers_perm.
  - by rewrite !sortMembers_perm.
Qed.

(** *** Enrolment and revocation as operations on a finite map *)

Section sets.
Context `{Hsha : Sha256}.
Implicit Types (a : Auth) (m : Member) (id pub : bytes).

Definition auth_map a : gmap bytes Member := list_to_map ((λ m, (mb_ID m, m)) <$> au_Members a).

(** Every device is listed once, under the ID derived from its key. *)
Record wf_auth a : Prop := {
  wa_nodup : NoDup (mb_ID <$> au_Members a);
  wa_derived : Forall (λ m, mb_ID m = NewID (mb_Pub m)) (au_Members a);
}.

Lemma derived_spec ms : derived ms = true ↔ Forall (λ m, mb_ID m = NewID (mb_Pub m)) ms.
Proof.
  induction ms as [|m ms IH]; cbn [derived]; [by split; [constructor|]|]. rewrite Forall_cons.
  case_decide as H; [split; [done|by intros [? _]]|]. rewrite IH. by intuition.
Qed.

Lemma fst_ids ms : ((λ m, (mb_ID m, m)) <$> ms).*1 = mb_ID <$> ms.
Proof. by rewrite <-list_fmap_compose. Qed.

Lemma auth_map_Some a id m : wf_auth a → auth_map a !! id = Some m ↔ m ∈ au_Members a ∧ mb_ID m = id.
Proof.
  intros [Hnd _]. unfold auth_map. rewrite <-elem_of_list_to_map by (by rewrite fst_ids).
  rewrite list_elem_of_fmap. split.
  - by intros (m' & [= -> ->] & Hm).
  - intros [Hm <-]. by exists m.
Qed.

Lemma Authorized_spec a id : Authorized a id = true ↔ id ∈ mb_ID <$> au_Members a.
Proof.
  unfold Authorized. rewrite existsb_exists, list_elem_of_fmap. split.
  - intros (m & Hm & E%bool_decide_eq_true). exists m. by rewrite list_elem_of_In.
  - intros (m & -> & Hm). exists m. rewrite <-list_elem_of_In. by rewrite bool_decide_true.
Qed.

Lemma Authorized_map a id : Authorized a id = bool_decide (is_Some (auth_map a !! id)).
Proof.
  apply eq_bool_prop_intro. rewrite !Is_true_true, bool_decide_eq_true, Authorized_spec. unfold auth_map.
  destruct (list_to_map _ !! id) as [m|] eqn:E.
  - apply elem_of_list_to_map_2, list_elem_of_fmap in E as (m' & [= -> ->] & Hm). split; [by eauto|].
    intros _. apply list_elem_of_fmap. by exists m'.
  - apply not_elem_of_list_to_map in E. rewrite fst_ids in E. split; [done|by intros [? ?]].
Qed.

(** Two well-formed records with the same members have the same map. *)
Lemma auth_map_perm a a' : wf_auth a → au_Members a ≡ₚ au_Members a' → auth_map a = auth_map a'.
Proof.
  intros [Hnd _] Hp. unfold auth_map. apply list_to_map_proper; [by rewrite fst_ids|]. by rewrite Hp.
Qed.

Lemma With_spec a pub label : wf_auth a →
  match auth_map a !! NewID pub with
  | Some _ => With a pub label = Err (DAlready (NewID pub))
  | None => ∃ a', With a pub label = Ok a' ∧ wf_auth a' ∧ au_Seq a' = u64 (au_Seq a + 1) ∧
      auth_map a' = <[NewID pub := mkMember (NewID pub) pub label (u64 (au_Seq a + 1))]> (auth_map a) ∧
      StronglySorted (key_le member_key) (au_Members a') ∧ Recipients a' ≡ₚ pub :: Recipients a
  end.
Proof.
  intros Hwf. pose proof Hwf as [Hnd Hd]. unfold With. rewrite Authorized_map.
  destruct (auth_map a !! NewID pub) as [m|] eqn:E.
  { rewrite bool_decide_true by eauto. done. }
  rewrite bool_decide_false by (by intros [? ?]). set (m := mkMember _ _ _ _).
  set (a' := mkAuth _ _ _ []). exists a'.
  assert (au_Members a' ≡ₚ m :: au_Members a) as Hp.
  { unfold a'; cbn [au_Members]. rewrite sortMembers_perm. by rewrite Permutation_app_comm. }
  assert (NewID pub ∉ mb_ID <$> au_Members a) as Hn.
  { unfold auth_map in E. apply not_elem_of_list_to_map in E. by rewrite fst_ids in E. }
  assert (wf_auth a') as Hwf'.
  { split.
    - rewrite Hp. cbn [fmap list_fmap]. by apply NoDup_cons.
    - rewrite Hp. by apply Forall_cons. }
  split; [done|]. split; [done|]. split; [done|]. split; [|split].
  - rewrite (auth_map_perm a' (mkAuth [] 0 (m :: au_Members a) [])) by done. done.
  - apply sort_by_sorted.
  - unfold Recipients. rewrite Hp. done.
Qed.

Lemma Without_spec a id : wf_auth a →
  match auth_map a !! id with
  | None => Without a id = Err (DNotAuthorized id)
  | Some _ => ∃ a', Without a id = Ok a' ∧ wf_auth a' ∧ au_Seq a' = u64 (au_Seq a + 1) ∧
      auth_map a' = delete id (auth_map a) ∧
      ∀ pub, pub ∈ Recipients a' ↔ pub ∈ Recipients a ∧ NewID pub ≠ id
  end.
Proof.
  intros Hwf. pose proof Hwf as [Hnd Hd]. unfold Without. rewrite Authorized_map.
  destruct (auth_map a !! id) as [m|] eqn:E.
  2:{ rewrite bool_decide_false by (by intros [? ?]). done. }
  rewrite bool_decide_true by eauto. cbn [negb]. set (a' := mkAuth _ _ _ []). exists a'.
  assert (∀ m', m' ∈ au_Members a' ↔ m' ∈ au_Members a ∧ mb_ID m' ≠ id) as Hin.
  { intros m'. unfold a'; cbn [au_Members]. rewrite elem_of_List_filter, negb_true_iff, bool_decide_eq_false. done. }
  assert (wf_auth a') as Hwf'.
  { split.
    - unfold a'; cbn [au_Members]. clear -Hnd. induction (au_Members a) as [|x l IH]; [constructor|].
      cbn [fmap list_fmap] in Hnd. apply NoDup_cons in Hnd as [Hx Hl]. cbn [List.filter].
      destruct (negb _); [|by apply IH]. cbn [fmap list_fmap]. apply NoDup_cons. split; [|by apply IH].
      intros (y & Ey & Hy)%list_elem_of_fmap. apply Hx. apply list_elem_of_fmap. exists y. split; [done|].
      by apply elem_of_List_filter in Hy as [? _].
    - apply Forall_forall. intros m' [Hm' _]%Hin. by rewrite Forall_forall in Hd; apply Hd. }
  split; [done|]. split; [done|]. split; [done|]. split.
  - apply map_eq. intros i. apply option_eq. intros m'. rewrite auth_map_Some by done. rewrite Hin.
    rewrite lookup_delete_Some, auth_map_Some by done. naive_solver.
  - intros pub. unfold Recipients. rewrite !list_elem_of_fmap. rewrite Forall_forall in Hd. setoid_rewrite Hin. split.
    + intros (m' & -> & Hm' & Hne). rewrite <-(Hd m') by done. eauto.
    + intros ((m' & -> & Hm') & Hne). rewrite <-(Hd m') in Hne by done. eauto.
Qed.

Lemma auth_Verify_derived `{Hed : Ed25519} signer a : Forall (λ m, mb_ID m = NewID (mb_Pub m)) (au_Members a) → auth_Verify (auth_Sign signer a) = true.
Proof.
  intros Hd. unfold auth_Verify, auth_Sign. cbn [au_Sig au_Members au_Owner].
  set (a0 := mkAuth (Public signer) (au_Seq a) (au_Members a) (au_Sig a)).
  assert (length (Sign signer (auth_signingPayload a0)) = SignatureSize) as Hl by apply ed_sign_length.
  assert (Verify (Public signer) (auth_signingPayload a0) (Sign signer (auth_signingPayload a0)) = true) as Hv
    by apply ed_verify_sign.
  rewrite (proj2 (derived_spec (au_Members a)) Hd).
  destruct (Sign signer (auth_signingPayload a0)) as [|x s] eqn:E; [done|]. exact Hv.
Qed.

Lemma auth_Verify_signed `{Hed : Ed25519} signer a : wf_auth a → auth_Verify (auth_Sign signer a) = true.
Proof. intros [_ Hd]. by apply auth_Verify_derived. Qed.
End sets.

(** *** Handles *)

(** The members a handle abbreviates. *)
Definition hits (a : Auth) (handle : string) : list Member :=
  List.filter (λ m, HasPrefix (Hex.EncodeToString (mb_ID m)) handle) (au_Members a).

Lemma resolve_loop_spec handle ms : ∀ mtch,
  resolve_loop handle mtch ms =
  match (match mtch with Some m => [m] | None => [] end) ++
        List.filter (λ m, HasPrefix (Hex.EncodeToString (mb_ID m)) handle) ms with
  | [] => Err (DNoMatch handle)
  | [m] => Ok m
  | _ => Err (DAmbiguous handle)
  end.
Proof.
  induction ms as [|m ms IH]; intros mtch; cbn [resolve_loop List.filter]; [by destruct mtch|].
  destruct (HasPrefix _ _); [|by rewrite IH]. destruct mtch as [m'|]; [done|]. by rewrite IH.
Qed.

Lemma normalize_digit (x : byte) s :
  normalizeHandle (String (Hex.digit (b2Z x / 16)) (String (Hex.digit (b2Z x mod 16)) s)) =
  String (Hex.digit (b2Z x / 16)) (String (Hex.digit (b2Z x mod 16)) (normalizeHandle s)).
Proof. by destruct x. Qed.

Lemma normalize_hex b : normalizeHandle (Hex.EncodeToString b) = Hex.EncodeToString b.
Proof. induction b as [|x b IH]; [done|]. cbn [Hex.EncodeToString]. by rewrite normalize_digit, IH. Qed.

Lemma hex_prefix b : ∀ b', length b = length b' →
  HasPrefix (Hex.EncodeToString b) (Hex.EncodeToString b') = true → b = b'.
Proof.
  unfold HasPrefix. induction b as [|x b IH]; intros [|x' b'] Hl E; try done.
  cbn [Hex.EncodeToString String.prefix] in E.
  destruct (ascii_dec _ _) as [E1|]; [|done]. destruct (ascii_dec _ _) as [E2|]; [|done].
  rewrite (IH b') by (done || by injection Hl). f_equal.
  pose proof (Hex.Decode_Encode [x]) as D. pose proof (Hex.Decode_Encode [x']) as D'.
  cbn [Hex.EncodeToString] in D, D'. rewrite E1, E2, D in D'. by injection D'.
Qed.

Lemma prefix_refl s : HasPrefix s s = true.
Proof. unfold HasPrefix. induction s as [|c s IH]; [done|]. cbn [String.prefix]. by destruct (ascii_dec c c). Qed.

Lemma filter_unique {A} (f : A → bool) (l : list A) x :
  NoDup l → x ∈ l → f x = true → (∀ y, y ∈ l → f y = true → y = x) → List.filter f l = [x].
Proof.
  intros Hnd. induction Hnd as [|y l Hy Hnd IH]; intros Hx Hf Hu; [by apply elem_of_nil in Hx|].
  cbn [List.filter]. destruct (f y) eqn:Ey.
  - assert (y = x) as -> by (apply Hu; [by left|done]). f_equal.
    destruct (List.filter f l) as [|z k] eqn:E; [done|]. exfalso.
    assert (z ∈ List.filter f l) as [Hz Hfz]%elem_of_List_filter by (rewrite E; by left).
    assert (z = x) as -> by (apply Hu; [by right|done]). done.
  - apply elem_of_cons in Hx as [->|Hx]; [congruence|]. apply IH; [done..|]. intros z Hz. apply Hu. by right.
Qed.

(** ** Claims *)

(** Resolving a handle: an empty handle (once normalized) is refused, a
    handle no member's hex ID starts with gives no match, one that several start
    with is ambiguous, and otherwise the one member is returned. The full hex ID
    of a listed device always resolves to that device. *)
Theorem resolve_unique `{Sha256} a handle :
  wf_auth a →
  Resolve_handle a handle =
    (if decide (normalizeHandle handle = "") then Err DEmptyHandle
     else match hits a (normalizeHandle handle) with
          | [] => Err (DNoMatch (normalizeHandle handle))
          | [m] => Ok m
          | _ => Err (DAmbiguous (normalizeHandle handle))
          end) ∧
  ∀ m, m ∈ au_Members a → Resolve_handle a (Hex.EncodeToString (mb_ID m)) = Ok m.
Proof.
  intros [Hnd Hd]. split; [unfold Resolve_handle; case_decide; [done|]; by rewrite resolve_loop_spec|].
  intros m Hm. unfold Resolve_handle. rewrite normalize_hex.
  rewrite Forall_forall in Hd. assert (∀ m, m ∈ au_Members a → length (mb_ID m) = 32%nat) as Hl.
  { intros m' Hm'. rewrite (Hd m' Hm'). apply Sum256_length. }
  rewrite decide_False; [|specialize (Hl m Hm); by destruct (mb_ID m)].
  rewrite resolve_loop_spec. cbn [app]. rewrite (filter_unique _ _ m); [done| |done|apply prefix_refl|].
  - by eapply NoDup_fmap_1.
  - intros y Hy E. apply hex_prefix in E; [|by rewrite !Hl].
    apply list_elem_of_lookup in Hm as [i Hi], Hy as [j Hj].
    assert (i = j) as ->; [|congruence]. apply (NoDup_lookup _ _ _ (mb_ID m) Hnd); rewrite list_lookup_fmap.
    + by rewrite Hi.
    + rewrite Hj. cbn. by rewrite E.
Qed.

(** Revoking a device, end to end: the record without the device has the next
    sequence number, keeps exactly the other devices and is well-formed; once
    signed it verifies; the companion sealed to its recipients is opened by every
    remaining device and not sealed to the revoked one, and a key that opens none
    of its seals gets ErrNoSealForKey. *)
Theorem device_revocation `{Sha256, Ed25519, AesGcm, MlKem, Json readCapJSON} a id signer rnd nonce root seq :
  wf_auth a → is_Some (auth_map a !! id) → Recipients a ≠ [] →
  (∀ i, ∃ n, nonce i = Some n ∧ length n = NonceSize) →
  Forall (λ pub, ∃ priv, PublicOf priv = Ok pub) (Recipients a) → cap_ok root → json_ok (cap_to_json root) →
  ∃ a', Without a id = Ok a' ∧ au_Seq a' = u64 (au_Seq a + 1) ∧ auth_map a' = delete id (auth_map a) ∧
    Authorized a' id = false ∧ wf_auth a' ∧ auth_Verify (auth_Sign signer a') = true ∧
    (∀ pub, pub ∈ Recipients a' ↔ pub ∈ Recipients a ∧ NewID pub ≠ id) ∧
    (Recipients a' ≠ [] →
     ∃ r, SealFullRootFor rnd nonce signer (Recipients a') root seq = Ok r ∧ full_Verify r = true ∧
      (∀ priv pub, PublicOf priv = Ok pub → pub ∈ Recipients a → NewID pub ≠ id →
        (∀ s c, s ∈ fr_Seals r → UnwrapCap priv s = Ok c → c = root) → full_Open priv r = Ok root) ∧
      (∀ priv, (∀ s, s ∈ fr_Seals r → is_ok (UnwrapCap priv s) = false) → full_Open priv r = Err ErrNoSealForKey)).
Proof.
  intros Hwf Hid _ Hn Hk Hc Hj. pose proof (Without_spec a id Hwf) as Hw. destruct Hid as [m Hm]. rewrite Hm in Hw.
  destruct Hw as (a' & Ew & Hwf' & Hs & Hmap & Hrec). exists a'. do 3 (split; [done|]).
  split. { rewrite Authorized_map, Hmap, lookup_delete_eq. by apply bool_decide_false; intros [? ?]. }
  split; [done|]. split; [by apply auth_Verify_signed|]. split; [done|]. intros Hne.
  destruct (fullroot_revocation rnd nonce signer (Recipients a') root seq Hne Hn) as (r & Es & Hv & _ & _ & _ & Ho & Hno & _).
  { rewrite Forall_forall in Hk |- *. intros pub [Hp _]%Hrec. by apply Hk. }
  { done. } { done. }
  exists r. split; [done|]. split; [done|]. split; [|exact Hno].
  intros priv pub Hp Hin Hne'. apply (Ho priv pub Hp). by apply Hrec.
Qed.

(** Enrolment and the signature: With refuses a listed device and otherwise
    adds exactly that device at the next sequence number, keeping the record
    well-formed and sorted; a signed record verifies; the signed bytes do not
    depend on the order of the members and determine owner, sequence number and
    members. *)
Theorem device_enrolment `{Sha256, Ed25519} a pub label signer :
  wf_auth a →
  match auth_map a !! NewID pub with
  | Some _ => With a pub label = Err (DAlready (NewID pub))
  | None => ∃ a', With a pub label = Ok a' ∧ wf_auth a' ∧ au_Seq a' = u64 (au_Seq a + 1) ∧
      auth_map a' = <[NewID pub := mkMember (NewID pub) pub label (u64 (au_Seq a + 1))]> (auth_map a) ∧
      StronglySorted (key_le member_key) (au_Members a') ∧ Recipients a' ≡ₚ pub :: Recipients a ∧
      auth_Verify (auth_Sign signer a') = true
  end ∧
  (∀ ms, ms ≡ₚ au_Members a →
    auth_signingPayload (mkAuth (au_Owner a) (au_Seq a) ms (au_Sig a)) = auth_signingPayload a) ∧
  (∀ b, auth_ok a → auth_ok b → auth_signingPayload b = auth_signingPayload a →
    au_Owner b = au_Owner a ∧ au_Seq b = au_Seq a ∧ au_Members b ≡ₚ au_Members a).
Proof.
  intros Hwf. split; [|split].
  - pose proof (With_spec a pub label Hwf) as Hw. destruct (auth_map a !! NewID pub); [done|].
    destruct Hw as (a' & ? & Hwf' & ? & ? & ? & ?). exists a'. split_and!; try done. by apply auth_Verify_signed.
  - intros ms Hp. unfold auth_signingPayload. cbn [au_Members au_Owner au_Seq].
    rewrite (sortMembers_canonical ms (au_Members a)); [done| |done]. rewrite Hp. apply Hwf.
  - intros b Ha Hb E. by apply auth_payload_inj.
Qed.

(** A list that starts with [p] cannot start with [q]. *)
Definition clash (p q : bytes) : bool := negb (bool_decide (take (length q) p = q)) && negb (bool_decide (take (length p) q = p)).

Lemma clash_app p q x y : clash p q = true → p ++ x ≠ q ++ y.
Proof.
  unfold clash. intros [Hp%negb_true_iff%bool_decide_eq_false Hq%negb_true_iff%bool_decide_eq_false]%andb_true_iff E.
  destruct (decide (length p ≤ length q)%nat) as [Hl|Hl].
  - apply Hq. apply (f_equal (take (length p))) in E. rewrite take_app_length, take_app_le in E by done. done.
  - apply Hp. apply (f_equal (take (length q))) in E. rewrite take_app_length, take_app_le in E by lia. done.
Qed.

(** Domain separation: no message an owner key signs in one role can be
    passed off in another. The payloads of root pointers, companions, device
    records, repair grants and operation tokens are pairwise different byte
    strings, whatever their fields. *)
Theorem signed_messages_separate `{Json readCapJSON} r pr f a expiry nonce desc o id node ts :
  root_signingPayload r = Ok pr →
  let msgs := [pr; full_signingPayload f; auth_signingPayload a; grantPayload expiry nonce desc; tokenPayload o id node ts] in
  NoDup msgs.
Proof.
  intros E. unfold root_signingPayload in E. apply bind_Ok in E as (cb & _ & E). apply (inj Ok) in E as <-. intros msgs.
  assert (∀ x y z u, NoDup [rootDomain ++ x; fullrootDomain ++ y; deviceDomain ++ z; grantDomain ++ u; tokenPayload o id node ts]) as Hsep.
  { intros x y z u. unfold tokenPayload.
    repeat first [apply NoDup_nil_2 | apply NoDup_cons; split | apply not_elem_of_cons; split | apply not_elem_of_nil];
      first [apply clash_app; vm_compute; reflexivity | by destruct o]. }
  apply Hsep.
Qed.

(** ** Witnesses *)

#[export] Instance deviceMemberJSON_ser : Ser deviceMemberJSON.
Proof. refine (ser_iso (λ m, (mj_id m, mj_pub m, mj_label m, mj_added m)) (λ '(a, b, c, d), mkMemberJ a b c d) _). by intros []. Defined.
#[export] Instance deviceAuthJSON_ser : Ser deviceAuthJSON.
Proof. refine (ser_iso (λ m, (aj_owner m, aj_seq m, aj_members m, aj_sig m)) (λ '(a, b, c, d), mkAuthJ a b c d) _). by intros []. Defined.
Definition toy_auth_json : Json deviceAuthJSON := ser_json deviceAuthJSON.

Definition ex_member (b : byte) (label : string) : Member := mkMember (@NewID pad_sha [b]) [b] label 1.
Definition ex_auth : Auth := mkAuth (replicate 32 Byte.x05) 3 [ex_member Byte.x01 "laptop"; ex_member Byte.x02 "phone"] [].

Lemma ex_auth_wf : @wf_auth pad_sha ex_auth.
Proof. split; [refine (proj1 (bool_decide_eq_true _) _); vm_compute; reflexivity|repeat constructor]. Qed.

Lemma resolve_unique_witness : Resolve_handle ex_auth (Hex.EncodeToString (@NewID pad_sha [Byte.x02])) = Ok (ex_member Byte.x02 "phone").
Proof.
  refine (proj2 (@resolve_unique pad_sha ex_auth "02" ex_auth_wf) (ex_member Byte.x02 "phone") _). right. left.
Defined.

Lemma device_revocation_witness :
  ∃ a', @Without ex_auth (@NewID pad_sha [Byte.x02]) = Ok a' ∧ Authorized a' (@NewID pad_sha [Byte.x02]) = false ∧
    ∃ r, @SealFullRootFor toy_ed toy_gcm keyed_kem toy_cap_json (λ _, []) (λ _, Some (replicate 12 Byte.x09)) [Byte.x05]
      (Recipients a') (ex_cap Byte.x01) 4 = Ok r ∧ @full_Verify toy_ed r = true.
Proof.
  destruct (@device_revocation pad_sha toy_ed toy_gcm keyed_kem toy_cap_json ex_auth (@NewID pad_sha [Byte.x02]) [Byte.x05]
    (λ _, []) (λ _, Some (replicate 12 Byte.x09)) (ex_cap Byte.x01) 4 ex_auth_wf) as (a' & E & _ & _ & Hn & _ & _ & Hr & Hs).
  - eexists. vm_compute. reflexivity.
  - vm_compute. discriminate.
  - intros i. eexists. split; reflexivity.
  - repeat constructor; eexists; reflexivity.
  - apply ex_root_cap_ok.
  - exact I.
  - exists a'. split; [exact E|]. split; [exact Hn|]. destruct Hs as (r & Er & Hv & _).
    + intros E'. assert ([Byte.x01] ∈ Recipients a') as Hin by (apply Hr; split; [left|vm_compute; discriminate]).
      rewrite E' in Hin. exact (not_elem_of_nil _ Hin).
    + exists r. exact (conj Er Hv).
Defined.

Lemma device_enrolment_witness :
  ∃ a', @With pad_sha ex_auth [Byte.x03] "tablet" = Ok a' ∧ @auth_Verify pad_sha toy_ed (@auth_Sign toy_ed [Byte.x05] a') = true.
Proof.
  pose proof (proj1 (@device_enrolment pad_sha toy_ed ex_auth [Byte.x03] "tablet" [Byte.x05] ex_auth_wf)) as H.
  destruct H as (a' & Ew & _ & _ & _ & _ & _ & Hv). exists a'. exact (conj Ew Hv).
Defined.

Lemma signed_messages_separate_witness :
  ∃ pr, @root_signingPayload toy_cap_json (mkRootP [] (ex_cap Byte.x01) 0 0 []) = Ok pr ∧
    NoDup [pr; full_signingPayload (mkFull [] 0 [] [] []); auth_signingPayload ex_auth; grantPayload 0 [] [];
           tokenPayload opPut [] [] 0].
Proof.
  destruct (@root_signingPayload toy_cap_json (mkRootP [] (ex_cap Byte.x01) 0 0 [])) as [pr|e] eqn:E.
  - exists pr. split; [reflexivity|]. exact (@signed_messages_separate toy_cap_json _ pr (mkFull [] 0 [] [] []) ex_auth 0 [] [] opPut [] [] 0 E).
  - apply (f_equal is_ok) in E. vm_compute in E. discriminate.
Defined.
