(* ===== verification/Discovery.v ===== *)
(** * internal/net: root.go and deviceauth.go, signed records over the DHT

    The three kinds of record an owner publishes (root pointer, sealed companion,
    device set) share one life cycle: a key that names the owner, a validator the
    DHT runs on every value, a rule that selects one of several valid values, and
    a publish and a resolve operation. [SignedRecord] is what a kind of record
    provides; the generic operations are instantiated three times, as the source
    repeats them. The DHT itself is libp2p's: any state with the two calls the
    code makes ([Dht]), honest or not. *)

From S2P Require Import Prelude GoLib Store Crypto Stripe Erasure Chunk Pipeline Wire Codec Base64 Manifest Root Device.

(** ** Interfaces *)

(** [record.SplitKey] of go-libp2p-record: "/ns/path" into its two parts. *)
Class RecordKey := {
  SplitKey : bytes → option (bytes * bytes);
  SplitKey_ok : ∀ ns path, ns ≠ [] → Byte.x2f ∉ ns → SplitKey ([Byte.x2f] ++ ns ++ [Byte.x2f] ++ path) = Some (ns, path);
}.

(** [dht.PutValue] and [dht.GetValue]; [DNotFound] is routing.ErrNotFound. *)
Inductive dht_err := DNotFound | DOther.
Class Dht (D : Type) := {
  PutValue : bytes → bytes → D → D * result dht_err unit;
  GetValue : bytes → D → D * result dht_err bytes;
}.

(** What the DHT code needs of a kind of record. *)
Class SignedRecord (R : Type) := {
  sr_ns : bytes;
  sr_decode : bytes → result codec_err R;
  sr_encode : R → result codec_err bytes;
  sr_owner : R → bytes;
  sr_seq : R → Z;
  sr_verify : R → bool;
}.

Inductive net_err :=
| NBadKey | NNamespace | NPath | NDecode (e : codec_err) | NOwner | NSignature | NNoneValid
| NEncode (e : codec_err) | NPublish (e : dht_err) | NResolve (e : dht_err) | NOpen (e : fullroot_err) | NUnbound.

(** ** Generic operations *)

Definition dht_key (ns owner : bytes) : bytes := [Byte.x2f] ++ ns ++ [Byte.x2f] ++ owner.

(** [bytes.Compare(v, w) < 0] *)
Definition bytes_lt (v w : bytes) : bool := negb (bool_decide (bytes_key w ≤ bytes_key v)%string).

Section generic.
Context `{Hrk : RecordKey} {R : Type} `{Hsr : !SignedRecord R}.

Definition validate (key value : bytes) : result net_err unit :=
  '(ns, path) ← of_option NBadKey (SplitKey key);
  if decide (ns ≠ sr_ns) then Err NNamespace
  else if decide (length path ≠ SignPubKeySize) then Err NPath
  else
    r ← map_err NDecode (sr_decode value);
    if decide (sr_owner r ≠ path) then Err NOwner
    else if negb (sr_verify r) then Err NSignature
    else Ok tt.

(** The loop of Select from index [i]; the best so far with its value and
    sequence number. *)
Fixpoint select_loop (i : nat) (best : option (nat * bytes * Z)) (values : list bytes) : option (nat * bytes * Z) :=
  match values with
  | [] => best
  | v :: values =>
      let best :=
        match sr_decode v with
        | Err _ => best
        | Ok r =>
            if negb (sr_verify r) then best
            else match best with
                 | None => Some (i, v, sr_seq r)
                 | Some (b, bv, bestSeq) =>
                     if bestSeq <? sr_seq r then Some (i, v, sr_seq r)
                     else if (sr_seq r =? bestSeq) && bytes_lt v bv then Some (i, v, bestSeq)
                     else Some (b, bv, bestSeq)
                 end
        end in
      select_loop (i + 1) best values
  end.

Definition select (values : list bytes) : result net_err nat :=
  match select_loop 0 None values with
  | None => Err NNoneValid
  | Some (best, _, _) => Ok best
  end.

Context {D : Type} `{Hdht : !Dht D}.

Definition publish (r : R) (d : D) : D * result net_err unit :=
  match sr_encode r with
  | Err e => (d, Err (NEncode e))
  | Ok val => let '(d, res) := PutValue (dht_key sr_ns (sr_owner r)) val d in (d, map_err NPublish res)
  end.

(** [None]: no record exists yet. *)
Definition resolve (owner : bytes) (d : D) : D * result net_err (option R) :=
  let '(d, res) := GetValue (dht_key sr_ns owner) d in
  (d, match res with
      | Err DNotFound => Ok None
      | Err e => Err (NResolve e)
      | Ok val =>
          r ← map_err NDecode (sr_decode val);
          if decide (sr_owner r ≠ owner) then Err NSignature
          else if negb (sr_verify r) then Err NSignature
          else Ok (Some r)
      end).
End generic.
Arguments validate {Hrk} R {Hsr} key value.
Arguments select R {Hsr} values.
Arguments select_loop R {Hsr} i best values.

(** ** The three kinds of record *)

Definition RootNamespace : bytes := str_bytes "revika".
Definition FullRootNamespace : bytes := str_bytes "revika-fullcap".
Definition DeviceAuthNamespace : bytes := str_bytes "revika-devices".

Section kinds.
Context `{Hsha : Sha256} `{Hed : Ed25519} `{Hgcm : AesGcm} `{Hkem : MlKem}.
Context `{Hcj : Json readCapJSON} `{Hrj : Json rootPointerJSON} `{Hfj : Json fullRootJSON} `{Haj : Json deviceAuthJSON}.

#[export] Instance root_record : SignedRecord RootPointer :=
  {| sr_ns := RootNamespace; sr_decode := DecodeRootPointer; sr_encode := EncodeRootPointer;
     sr_owner := rp_Owner; sr_seq := rp_Seq; sr_verify := root_Verify |}.
#[export] Instance full_record : SignedRecord FullRootRecord :=
  {| sr_ns := FullRootNamespace; sr_decode := DecodeFullRoot; sr_encode := EncodeFullRoot;
     sr_owner := fr_Owner; sr_seq := fr_Seq; sr_verify := full_Verify |}.
#[export] Instance auth_record : SignedRecord Auth :=
  {| sr_ns := DeviceAuthNamespace; sr_decode := DecodeDeviceAuth; sr_encode := EncodeDeviceAuth;
     sr_owner := au_Owner; sr_seq := au_Seq; sr_verify := auth_Verify |}.

Definition rootKey (owner : bytes) : bytes := dht_key RootNamespace owner.
Definition fullRootKey (owner : bytes) : bytes := dht_key FullRootNamespace owner.
Definition deviceAuthKey (owner : bytes) : bytes := dht_key DeviceAuthNamespace owner.

Context `{Hrk : RecordKey} {D : Type} `{Hdht : !Dht D}.

Definition rootValidator_Validate : bytes → bytes → result net_err unit := validate RootPointer.
Definition fullRootValidator_Validate : bytes → bytes → result net_err unit := validate FullRootRecord.
Definition deviceAuthValidator_Validate : bytes → bytes → result net_err unit := validate Auth.

Definition rootValidator_Select : list bytes → result net_err nat := select RootPointer.
Definition fullRootValidator_Select : list bytes → result net_err nat := select FullRootRecord.
Definition deviceAuthValidator_Select : list bytes → result net_err nat := select Auth.

(** The published pointer carries the verify projection of its cap. *)
Definition strip_root (rp : RootPointer) : RootPointer :=
  mkRootP (rp_Owner rp) (strip_cap (rp_Root rp)) (rp_Seq rp) (rp_TimeNS rp) (rp_Sig rp).

Definition PutRoot (rp : RootPointer) (d : D) : D * result net_err unit := publish (strip_root rp) d.
Definition GetRoot : bytes → D → D * result net_err (option RootPointer) := resolve (R := RootPointer).

Definition PutFullRoot : FullRootRecord → D → D * result net_err unit := publish (R := FullRootRecord).

Definition capBytesEqual (a b : ReadCap) : bool :=
  match cap_MarshalBinary a, cap_MarshalBinary b with
  | Ok ab, Ok bb => bool_decide (ab = bb)
  | _, _ => false
  end.

(** Unlike the other two, [GetFullRoot] leaves the signature to Open and binds
    the opened cap to the signed verify-root. *)
Definition GetFullRoot (owner priv : bytes) (verifyRoot : ReadCap) (d : D) : D * result net_err (option ReadCap) :=
  let '(d, res) := GetValue (fullRootKey owner) d in
  (d, match res with
      | Err DNotFound => Ok None
      | Err e => Err (NResolve e)
      | Ok val =>
          r ← map_err NDecode (DecodeFullRoot val);
          if decide (fr_Owner r ≠ owner) then Err NOwner
          else
            full ← map_err NOpen (full_Open priv r);
            if negb (capBytesEqual (strip_cap full) (strip_cap verifyRoot)) then Err NUnbound
            else Ok (Some full)
      end).

Definition PutDeviceAuth : Auth → D → D * result net_err unit := publish (R := Auth).
Definition GetDeviceAuth : bytes → D → D * result net_err (option Auth) := resolve (R := Auth).
End kinds.

(** ** Selection *)

Section selection.
Context {R : Type} `{Hsr : !SignedRecord R}.
Implicit Types (v w : bytes) (vs : list bytes).

(** The sequence number of a valid value. *)
Definition score v : option Z :=
  match sr_decode v with Ok r => if sr_verify r then Some (sr_seq r) else None | Err _ => None end.

(** [v] is selected over [w]: a higher sequence number, or the same and the
    smaller bytes. *)
Definition beats (v w : bytes) : Prop :=
  ∃ s t, score v = Some s ∧ score w = Some t ∧ (t < s ∨ (t = s ∧ (bytes_key v ≤ bytes_key w)%string)).

Lemma beats_trans u v w : beats u v → beats v w → beats u w.
Proof.
  intros (s & t & Hs & Ht & H1) (s' & t' & Hs' & Ht' & H2). simplify_eq. exists s, t'. split_and!; [done..|].
  destruct H1 as [?|[? H1]], H2 as [?|[? H2]]; [left; lia..|]. right. split; [lia|]. by etransitivity.
Qed.

Lemma beats_refl v s : score v = Some s → beats v v.
Proof. intros H. exists s, s. split_and!; [done..|]. by right. Qed.

Lemma beats_antisym v w : beats v w → beats w v → v = w.
Proof.
  intros (s & t & Hs & Ht & H1) (t' & s' & Ht' & Hs' & H2). simplify_eq.
  destruct H1 as [?|[? H1]], H2 as [?|[? H2]]; try lia. apply bytes_key_inj. by apply string_le_antisym.
Qed.

Lemma bytes_lt_true v w : bytes_lt v w = true → (bytes_key v ≤ bytes_key w)%string.
Proof.
  unfold bytes_lt. intros H%negb_true_iff%bool_decide_eq_false.
  by destruct (total String.le (bytes_key v) (bytes_key w)).
Qed.
Lemma bytes_lt_false v w : bytes_lt v w = false → (bytes_key w ≤ bytes_key v)%string.
Proof. unfold bytes_lt. by intros H%negb_false_iff%bool_decide_eq_true. Qed.

(** Where the best value so far stands, among the values [pre] already seen. *)
Definition best_of (pre : list bytes) (best : option (nat * bytes * Z)) : Prop :=
  match best with
  | None => ∀ v, v ∈ pre → score v = None
  | Some (b, bv, s) => pre !! b = Some bv ∧ score bv = Some s ∧ ∀ v, v ∈ pre → is_Some (score v) → beats bv v
  end.

(** One step: the next value replaces the best only when it beats it. *)
Lemma best_of_step pre v best' best :
  best_of pre best →
  best' = match score v with
          | None => best
          | Some q => match best with
                      | None => Some (length pre, v, q)
                      | Some (b, bv, s) => if s <? q then Some (length pre, v, q)
                                           else if (q =? s) && bytes_lt v bv then Some (length pre, v, s) else Some (b, bv, s)
                      end
          end → best_of (pre ++ [v]) best'.
Proof.
  intros Hb ->. destruct (score v) as [q|] eqn:Eq.
  2:{ destruct best as [[[b bv] s]|]; cbn [best_of] in *.
      - destruct Hb as (Hl & Hs & Hall). split_and!; [by apply lookup_app_l_Some|done|].
        intros w [Hw|Hw%list_elem_of_singleton]%elem_of_app Hsc; [by apply Hall|]. subst. rewrite Eq in Hsc. by destruct Hsc.
      - intros w [Hw|Hw%list_elem_of_singleton]%elem_of_app; [by apply Hb|by subst]. }
  assert ((pre ++ [v]) !! length pre = Some v) as Hlast by (by rewrite lookup_app_r, Nat.sub_diag by done).
  destruct best as [[[b bv] s]|]; cbn [best_of] in Hb.
  2:{ cbn [best_of]. split_and!; [done..|]. intros w [Hw|Hw%list_elem_of_singleton]%elem_of_app Hsc.
      - rewrite (Hb w Hw) in Hsc. by destruct Hsc.
      - subst. by eapply beats_refl. }
  destruct Hb as (Hl & Hs & Hall).
  assert (beats v bv → best_of (pre ++ [v]) (Some (length pre, v, q))) as Hnew.
  { intros Hbeat. cbn [best_of]. split_and!; [done..|]. intros w [Hw|Hw%list_elem_of_singleton]%elem_of_app Hsc.
    - eapply beats_trans; [done|]. by apply Hall.
    - subst. by eapply beats_refl. }
  destruct (Z.ltb_spec s q) as [Hlt|Hge]; [apply Hnew; exists q, s; split_and!; [done..|by left]|].
  destruct (Z.eqb_spec q s) as [->|Hne]; cbn [andb].
  - destruct (bytes_lt v bv) eqn:El.
    + apply Hnew. exists s, s. split_and!; [done..|]. right. split; [done|]. by apply bytes_lt_true.
    + cbn [best_of]. split_and!; [by apply lookup_app_l_Some|done|]. intros w [Hw|Hw%list_elem_of_singleton]%elem_of_app Hsc.
      * by apply Hall.
      * subst. exists s, s. split_and!; [done..|]. right. split; [done|]. by apply bytes_lt_false.
  - cbn [best_of]. split_and!; [by apply lookup_app_l_Some|done|]. intros w [Hw|Hw%list_elem_of_singleton]%elem_of_app Hsc.
    + by apply Hall.
    + subst. exists s, q. split_and!; [done..|]. left. lia.
Qed.

Lemma select_loop_spec vs : ∀ pre best, best_of pre best → best_of (pre ++ vs) (select_loop R (length pre) best vs).
Proof.
  induction vs as [|v vs IH]; intros pre best Hb; cbn [select_loop]; [by rewrite app_nil_r|].
  cbn zeta. replace (length pre + 1)%nat with (length (pre ++ [v])) by (rewrite length_app; simpl; lia).
  replace (pre ++ v :: vs) with ((pre ++ [v]) ++ vs) by (by rewrite <-app_assoc).
  apply IH. eapply best_of_step; [exact Hb|]. unfold score.
  destruct (sr_decode v) as [r|]; [|done]. destruct (sr_verify r); [|done]. cbn [negb].
  by destruct best as [[[b bv] s]|].
Qed.

(** What Select returns. *)
Lemma select_spec vs :
  match select R vs with
  | Err e => e = NNoneValid ∧ ∀ v, v ∈ vs → score v = None
  | Ok i => ∃ v, vs !! i = Some v ∧ is_Some (score v) ∧ ∀ w, w ∈ vs → is_Some (score w) → beats v w
  end.
Proof.
  pose proof (select_loop_spec vs [] None) as H. cbn [length app] in H. unfold select.
  destruct (select_loop R 0 None vs) as [[[b bv] s]|].
  - destruct H as (Hl & Hs & Hall); [by intros v ?%elem_of_nil|]. exists bv. split_and!; [done|by eauto|done].
  - split; [done|]. apply H. by intros v ?%elem_of_nil.
Qed.

(** The value Select picks. *)
Definition selected (vs : list bytes) : option bytes :=
  match select R vs with Ok i => vs !! i | Err _ => None end.

(** Readers that see the same set of values pick the same one. *)
Lemma selected_set vs ws : (∀ v, v ∈ vs ↔ v ∈ ws) → selected vs = selected ws.
Proof.
  intros Hset. unfold selected. pose proof (select_spec vs) as H1. pose proof (select_spec ws) as H2.
  destruct (select R vs) as [i|e], (select R ws) as [j|e'].
  - destruct H1 as (v & Ev & Hv & Hbv), H2 as (w & Ew & Hw & Hbw). rewrite Ev, Ew. f_equal.
    apply beats_antisym.
    + apply Hbv; [|done]. apply Hset. by eapply list_elem_of_lookup_2.
    + apply Hbw; [|done]. apply Hset. by eapply list_elem_of_lookup_2.
  - destruct H1 as (v & Hl & [s Hs] & _). destruct H2 as [_ H2]. rewrite H2 in Hs; [done|].
    apply Hset. by eapply list_elem_of_lookup_2.
  - destruct H2 as (v & Hl & [s Hs] & _). destruct H1 as [_ H1]. rewrite H1 in Hs; [done|].
    apply Hset. by eapply list_elem_of_lookup_2.
  - done.
Qed.
End selection.

(** ** Publishing and resolving *)

Section publishing.
Context `{Hrk : RecordKey} {R : Type} `{Hsr : !SignedRecord R}.

(** The validator accepts exactly the values signed by the owner the key names. *)
Lemma validate_spec owner value : sr_ns ≠ [] → Byte.x2f ∉ sr_ns → length owner = SignPubKeySize →
  validate R (dht_key sr_ns owner) value = Ok tt ↔
  ∃ r, sr_decode value = Ok r ∧ sr_owner r = owner ∧ sr_verify r = true.
Proof.
  intros Hne Hns Hl. unfold validate, dht_key. rewrite SplitKey_ok by done. cbn [of_option mbind result_bind].
  rewrite decide_False by (intros H; by apply H). rewrite decide_False by (intros H; by apply H).
  destruct (sr_decode value) as [r|e]; cbn [map_err mbind result_bind]; [|split; [done|by intros (? & ? & _)]].
  destruct (decide (sr_owner r ≠ owner)) as [Hn|Ho].
  { split; [done|]. intros (r' & [= <-] & E & _). done. }
  destruct (sr_verify r) eqn:Ev; cbn [negb].
  - split; [|done]. intros _. exists r. split_and!; [done| |done]. by apply dec_stable in Ho.
  - split; [done|]. intros (r' & [= <-] & _ & E). congruence.
Qed.

(** A key of another namespace is refused. *)
Lemma validate_namespace ns owner value : ns ≠ [] → Byte.x2f ∉ ns → ns ≠ sr_ns →
  validate R (dht_key ns owner) value = Err NNamespace.
Proof.
  intros Hne Hns Hd. unfold validate, dht_key. rewrite SplitKey_ok by done. cbn [of_option mbind result_bind].
  by rewrite decide_True.
Qed.

Context {D : Type} `{Hdht : !Dht D}.

(** Whatever the DHT returns, a resolved record is the owner's. *)
Lemma resolve_sound owner d d' r : resolve owner d = (d', Ok (Some r)) → sr_owner r = owner ∧ sr_verify r = true.
Proof.
  unfold resolve. destruct (GetValue _ d) as [d1 res]. intros [= -> E]. destruct res as [val|[]]; try done.
  apply bind_Ok in E as (r' & _ & E). case_decide as Ho; [done|].
  destruct (sr_verify r') eqn:Ev; [|done]. cbn [negb] in E. by apply (inj Ok) in E as [= ->].
Qed.

Lemma resolve_value owner d d' val r :
  GetValue (dht_key sr_ns owner) d = (d', Ok val) → sr_decode val = Ok r → sr_owner r = owner → sr_verify r = true →
  resolve owner d = (d', Ok (Some r)).
Proof.
  intros Eg Ed Ho Hv. unfold resolve. rewrite Eg, Ed. cbn [map_err mbind result_bind].
  rewrite decide_False by (intros H; by apply H). by rewrite Hv.
Qed.
End publishing.

(** The law of a DHT that works: a value that was put is returned. *)
Definition dht_put_get {D} `{!Dht D} : Prop :=
  ∀ key val d d', PutValue key val d = (d', Ok tt) → (GetValue key d').2 = Ok val.

(** ** Claims *)

Section claims.
Context `{Hsha : Sha256} `{Hed : Ed25519} `{Hgcm : AesGcm} `{Hkem : MlKem}.
Context `{Hcj : Json readCapJSON} `{Hrj : Json rootPointerJSON} `{Hfj : Json fullRootJSON} `{Haj : Json deviceAuthJSON}.
Context `{Hrk : RecordKey}.

(** [C38] The selection rule of each of the three validators: Select fails only
    when no value is valid, and otherwise returns a valid value with the highest
    sequence number, the smallest bytes on a tie. So all readers that see the same
    set of values, in any order and with any duplicates, converge on the same one,
    and adding values never moves a reader to a lower sequence number. *)
Theorem select_converges R `{!SignedRecord R} vs ws :
  match select R vs with
  | Err e => e = NNoneValid ∧ ∀ v, v ∈ vs → score v = None
  | Ok i => ∃ v, vs !! i = Some v ∧ is_Some (score v) ∧ ∀ w, w ∈ vs → is_Some (score w) → beats v w
  end ∧
  ((∀ v, v ∈ vs ↔ v ∈ ws) → selected vs = selected ws) ∧
  (∀ v s, selected vs = Some v → score v = Some s → vs ⊆ ws →
    ∃ w t, selected ws = Some w ∧ score w = Some t ∧ s ≤ t).
Proof.
  split; [apply select_spec|]. split; [apply selected_set|]. intros v s Hv Hs Hsub.
  assert (v ∈ ws) as Hin.
  { apply Hsub. unfold selected in Hv. destruct (select R vs); [|done]. by eapply list_elem_of_lookup_2. }
  pose proof (select_spec ws) as H. unfold selected. destruct (select R ws) as [j|e].
  - destruct H as (w & Ew & [t Ht] & Hb). exists w, t. split_and!; [done..|].
    destruct (Hb v Hin) as (t' & s' & ? & ? & ?); [by eauto|]. simplify_eq. lia.
  - destruct H as [_ H]. rewrite H in Hs by done. done.
Qed.

(** The encoded, published pointer. *)
Lemma publish_root_accepted rp :
  root_fields rp → root_Verify rp = true → json_ok (root_json (strip_root rp)) →
  ∃ val, EncodeRootPointer (strip_root rp) = Ok val ∧ DecodeRootPointer val = Ok (strip_root rp) ∧
    rootValidator_Validate (rootKey (rp_Owner rp)) val = Ok tt.
Proof.
  intros Hf Hv Hj. destruct (root_codec (strip_root rp)) as (val & Ee & Ed); [apply Hf|apply strip_cap_ok, Hf|done|].
  exists val. split; [done|]. split; [done|]. unfold rootValidator_Validate.
  refine (proj2 (validate_spec (R := RootPointer) (rp_Owner rp) val _ _ _) _); [done| |apply Hf|].
  { refine (proj1 (bool_decide_eq_true _) _). vm_compute. reflexivity. }
  exists (strip_root rp). split_and!; [done..|]. exact Hv.
Qed.

(** A signed root pointer over the DHT: PutRoot publishes a value the
    validator accepts and that carries no decryption key; on a DHT that returns
    what was put, GetRoot resolves it to the key-stripped pointer; and whatever a
    hostile DHT answers, GetRoot and GetDeviceAuth return only records signed by
    the owner asked for. *)
Theorem root_publish_resolve {D} `{!Dht D} rp (d d' : D) :
  root_fields rp → root_Verify rp = true → json_ok (root_json (strip_root rp)) →
  (∃ val, EncodeRootPointer (strip_root rp) = Ok val ∧ rootValidator_Validate (rootKey (rp_Owner rp)) val = Ok tt ∧
    PutRoot rp d = (let '(d, res) := PutValue (rootKey (rp_Owner rp)) val d in (d, map_err NPublish res))) ∧
  rc_Key (rp_Root (strip_root rp)) = zeroKey ∧
  (dht_put_get (D := D) → PutRoot rp d = (d', Ok tt) → (GetRoot (rp_Owner rp) d').2 = Ok (Some (strip_root rp))) ∧
  (∀ (e e' : D) owner rp', GetRoot owner e = (e', Ok (Some rp')) → rp_Owner rp' = owner ∧ root_Verify rp' = true) ∧
  (∀ (e e' : D) owner a, GetDeviceAuth owner e = (e', Ok (Some a)) → au_Owner a = owner ∧ auth_Verify a = true).
Proof.
  intros Hf Hv Hj. destruct (publish_root_accepted rp Hf Hv Hj) as (val & Ee & Ed & Hval).
  assert (∀ d : D, PutRoot rp d = (let '(d, res) := PutValue (rootKey (rp_Owner rp)) val d in (d, map_err NPublish res))) as Ep.
  { intros d0. unfold PutRoot, publish. cbn [sr_encode root_record]. by rewrite Ee. }
  split; [by exists val|]. split; [done|]. split; [|split].
  - intros Hlaw Hput. rewrite Ep in Hput. destruct (PutValue _ val d) as [d1 res] eqn:E.
    apply pair_eq in Hput as [-> Er]. destruct res as [[]|]; [|done]. specialize (Hlaw _ _ _ _ E).
    destruct (GetValue (rootKey (rp_Owner rp)) d') as [d2 g] eqn:Eg. cbn [snd] in Hlaw. subst g. unfold GetRoot.
    by rewrite (@resolve_value RootPointer root_record D _ (rp_Owner rp) d' d2 val (strip_root rp) Eg Ed eq_refl Hv).
  - intros e e' owner rp' H. by apply (resolve_sound (R := RootPointer) _ _ _ _ H).
  - intros e e' owner a H. by apply (resolve_sound (R := Auth) _ _ _ _ H).
Qed.

(** The decryptable root recovered from the network is bound to the signed
    one: whatever the DHT answers, a cap GetFullRoot returns for a well-formed
    verify-root has the same kind, shards and code parameters as that root, and
    comes out of a companion signed by the owner. *)
Theorem full_root_bound {D} `{!Dht D} (d d' : D) owner priv verifyRoot full :
  cap_ok verifyRoot → cap_ok full → json_ok (cap_to_json (strip_cap verifyRoot)) → json_ok (cap_to_json (strip_cap full)) →
  GetFullRoot owner priv verifyRoot d = (d', Ok (Some full)) →
  to_verify full = to_verify verifyRoot ∧
  ∃ r, fr_Owner r = owner ∧ full_Verify r = true ∧ full_Open priv r = Ok full.
Proof.
  intros Hc Hc' Hj Hj'. unfold GetFullRoot. destruct (GetValue _ d) as [d1 res]. intros [= -> E].
  destruct res as [val|[]]; try done. apply bind_Ok in E as (r & _ & E). case_decide as Ho; [done|].
  apply bind_Ok in E as (full' & Eo & E). destruct (capBytesEqual _ _) eqn:Eq; [|done]. cbn [negb] in E.
  apply (inj Ok) in E as [= ->]. destruct (full_Open priv r) as [c|] eqn:Eopen; [|done]. cbn [map_err] in Eo. apply (inj Ok) in Eo as ->.
  split.
  - unfold capBytesEqual, cap_MarshalBinary in Eq.
    destruct (Marshal (cap_to_json (strip_cap full))) as [b1|] eqn:E1; [|done].
    destruct (Marshal (cap_to_json (strip_cap verifyRoot))) as [b2|] eqn:E2; [|done].
    cbn [of_option] in Eq. apply bool_decide_eq_true in Eq as ->.
    apply strip_cap_verify, cap_to_json_inj; [by apply strip_cap_ok..|]. by eapply json_inj.
  - exists r. split_and!; [done| |done]. unfold full_Open in Eopen. by destruct (full_Verify r).
Qed.
End claims.

(** ** Witnesses *)

(** The first slash after the leading one ends the namespace. *)
Fixpoint cut_slash (b : bytes) : option (bytes * bytes) :=
  match b with
  | [] => None
  | x :: b => if decide (x = Byte.x2f) then Some ([], b)
              else match cut_slash b with Some (ns, p) => Some (x :: ns, p) | None => None end
  end.

Lemma cut_slash_app ns path : Byte.x2f ∉ ns → cut_slash (ns ++ Byte.x2f :: path) = Some (ns, path).
Proof.
  induction ns as [|x ns IH]; intros Hns; cbn [app cut_slash]; [by rewrite decide_True|].
  apply not_elem_of_cons in Hns as [Hx Hns]. rewrite decide_False by done. by rewrite IH.
Qed.

Definition slash_key : RecordKey.
Proof.
  refine {| SplitKey k := match k with
                          | Byte.x2f :: k => match cut_slash k with Some ([], _) => None | r => r end
                          | _ => None
                          end |}.
  intros ns path Hne Hns. cbn [app]. rewrite cut_slash_app by done. by destruct ns.
Defined.

Definition map_dht : Dht (gmap bytes bytes) :=
  {| PutValue k v d := (<[k := v]> d, Ok tt); GetValue k d := (d, of_option DNotFound (d !! k)) |}.

Lemma map_dht_law : @dht_put_get _ map_dht.
Proof. intros key val d d' E. injection E as <-. cbn. by rewrite lookup_insert_eq. Qed.

Definition ex_rp : RootPointer :=
  match @SignRoot toy_ed toy_cap_json [Byte.x05] (ex_cap Byte.x01) 7 99 with Ok rp => rp | Err _ => mkRootP [] zeroCap 0 0 [] end.

Lemma ex_rp_fields : @root_fields toy_cap_json ex_rp.
Proof.
  split; [vm_compute; reflexivity|split; vm_compute; congruence|split; vm_compute; congruence|apply (ex_root_cap_ok Byte.x01)|exact I].
Qed.

(** A pair given by its second component. *)
Lemma pair_snd {A B} (p : A * B) b : p.2 = b → p = (p.1, b).
Proof. intros <-. apply surjective_pairing. Qed.

Definition ex_published : gmap bytes bytes * result net_err unit :=
  @PutRoot toy_ed toy_cap_json toy_root_json _ map_dht ex_rp ∅.

Lemma root_publish_resolve_witness :
  (@GetRoot toy_ed toy_cap_json toy_root_json _ map_dht (rp_Owner ex_rp) ex_published.1).2 = Ok (Some (strip_root ex_rp)).
Proof.
  assert (@root_Verify toy_ed toy_cap_json ex_rp = true) as Hv by (vm_compute; reflexivity).
  assert (ex_published.2 = Ok tt) as Ep by (vm_compute; reflexivity).
  exact (proj1 (proj2 (proj2 (@root_publish_resolve pad_sha toy_ed toy_cap_json toy_root_json toy_auth_json slash_key _ map_dht
    ex_rp ∅ ex_published.1 ex_rp_fields Hv I))) map_dht_law (pair_snd ex_published (Ok tt) Ep)).
Defined.

Definition ex_companion : FullRootRecord := match ex_seal [[Byte.x01]] with Ok r => r | Err _ => mkFull [] 0 [] [] [] end.
Definition ex_full_dht : gmap bytes bytes := (@PutFullRoot toy_ed toy_full_json _ map_dht ex_companion ∅).1.
Definition ex_recovered : gmap bytes bytes * result net_err (option ReadCap) :=
  @GetFullRoot toy_ed toy_gcm keyed_kem toy_cap_json toy_full_json _ map_dht (fr_Owner ex_companion) [Byte.x01]
    (strip_cap (ex_cap Byte.x01)) ex_full_dht.

Lemma full_root_bound_witness :
  ex_recovered.2 = Ok (Some (ex_cap Byte.x01)) ∧ to_verify (ex_cap Byte.x01) = to_verify (strip_cap (ex_cap Byte.x01)).
Proof.
  assert (ex_recovered.2 = Ok (Some (ex_cap Byte.x01))) as E by (vm_compute; reflexivity). split; [exact E|].
  exact (proj1 (@full_root_bound toy_ed toy_gcm keyed_kem toy_cap_json toy_full_json _ map_dht ex_full_dht ex_recovered.1
    (fr_Owner ex_companion) [Byte.x01] (strip_cap (ex_cap Byte.x01)) (ex_cap Byte.x01)
    (strip_cap_ok _ (ex_root_cap_ok Byte.x01)) (ex_root_cap_ok Byte.x01) I I (pair_snd ex_recovered _ E))).
Defined.
