(* ===== verification/RootStores.v ===== *)
(** * internal/provider: rootstore.go and file_rootstore.go

    The stores of the one mutable anchor of a User, the signed root pointer:
    in memory, in a file (optionally sealed with a passphrase), over the DHT, and
    a durable primary with best-effort mirrors. [RootStore] is the interface of
    the source; [RootStoreLaws] is what its clients rely on: a Save that succeeds
    advances the sequence number and a Save that fails changes nothing. *)

From S2P Require Import Prelude GoLib Store Crypto Stripe Erasure Chunk Pipeline Wire Codec Base64 Manifest Root Device Discovery.

Inductive rs_err :=
| RSNotAdvancing (seq stored : Z)  (* seq %d does not advance stored seq %d *)
| RSUnsigned | RSOwnerMismatch | RSRead | RSNoPassphrase | RSDecrypt (e : AtRest.err) | RSDecode (e : codec_err)
| RSBadSignature | RSEncode (e : codec_err) | RSEncrypt (e : AtRest.err) | RSMkdir | RSWrite | RSRename | RSNet (e : net_err).

Class RootStore (S : Type) := {
  rs_Load : S → S * result rs_err (option RootPointer);
  rs_Save : RootPointer → S → S * result rs_err unit;
}.

(** ** MemRootStore *)

Record MemRootStore := mkMemRoot { mr_rp : option RootPointer }.
Definition NewMemRootStore : MemRootStore := mkMemRoot None.

Definition mem_Load (m : MemRootStore) : MemRootStore * result rs_err (option RootPointer) := (m, Ok (mr_rp m)).
Definition mem_Save (rp : RootPointer) (m : MemRootStore) : MemRootStore * result rs_err unit :=
  match mr_rp m with
  | Some cur => if rp_Seq rp <=? rp_Seq cur then (m, Err (RSNotAdvancing (rp_Seq rp) (rp_Seq cur))) else (mkMemRoot (Some rp), Ok tt)
  | None => (mkMemRoot (Some rp), Ok tt)
  end.
#[export] Instance mem_root_store : RootStore MemRootStore := {| rs_Load := mem_Load; rs_Save := mem_Save |}.

(** ** FileRootStore *)

(** What one call meets outside: a failing read, the random salt and nonce, a
    failing MkdirAll, a WriteFile that stops after some bytes, a failing Rename. *)
Record Env := mkEnv {
  io_read_fails : bool; io_salt : option bytes; io_nonce : option bytes;
  io_mkdir_fails : bool; io_write_fails : option nat; io_rename_fails : bool }.

(** The file at [path], the one at [path.tmp], the passphrase ([None]: nil), and
    the environment of the calls to come. *)
Record FileRootStore := mkFileRoot {
  fs_path : option bytes; fs_tmp : option bytes; fs_passphrase : option bytes; fs_env : nat → Env; fs_calls : nat }.

Section file.
Context `{Hed : Ed25519} `{Hgcm : AesGcm} `{Harg : Argon2} `{Hcj : Json readCapJSON} `{Hrj : Json rootPointerJSON}.
Implicit Types (f : FileRootStore).

Definition file_encrypt f (env : Env) (data : bytes) : result rs_err bytes :=
  match fs_passphrase f with
  | None => Ok data
  | Some pass => map_err RSEncrypt (AtRest.Encrypt (io_salt env) (io_nonce env) data pass)
  end.

Definition file_decrypt f (data : bytes) : result rs_err bytes :=
  if negb (AtRest.IsEncrypted data) then Ok data
  else match fs_passphrase f with
       | None => Err RSNoPassphrase
       | Some pass => map_err RSDecrypt (AtRest.Decrypt data pass)
       end.

(** The body of Load, on what [os.ReadFile] gives. *)
Definition file_load f (env : Env) : result rs_err (option RootPointer) :=
  if io_read_fails env then Err RSRead
  else match fs_path f with
       | None => Ok None
       | Some raw =>
           data ← file_decrypt f raw;
           rp ← map_err RSDecode (DecodeRootPointer data);
           if negb (root_Verify rp) then Err RSBadSignature else Ok (Some rp)
       end.

Definition tick f : FileRootStore := mkFileRoot (fs_path f) (fs_tmp f) (fs_passphrase f) (fs_env f) (fs_calls f + 1).

Definition file_Load f : FileRootStore * result rs_err (option RootPointer) :=
  (tick f, file_load f (fs_env f (fs_calls f))).

(** The guards of Save. *)
Definition save_guard f (env : Env) (rp : RootPointer) : result rs_err unit :=
  if negb (root_Verify rp) then Err RSUnsigned
  else
    cur ← file_load f env;
    match cur with
    | None => Ok tt
    | Some cur =>
        if decide (rp_Owner cur ≠ rp_Owner rp) then Err RSOwnerMismatch
        else if rp_Seq rp <=? rp_Seq cur then Err (RSNotAdvancing (rp_Seq rp) (rp_Seq cur))
        else Ok tt
    end.

(** What Save writes. *)
Definition save_bytes f (env : Env) (rp : RootPointer) : result rs_err bytes :=
  plain ← map_err RSEncode (EncodeRootPointer rp);
  file_encrypt f env (plain ++ [Byte.x0a]).

(** MkdirAll, WriteFile of the temporary file, Rename. *)
Definition save_write f (env : Env) (data : bytes) : FileRootStore * result rs_err unit :=
  let put path tmp := mkFileRoot path tmp (fs_passphrase f) (fs_env f) (fs_calls f + 1) in
  if io_mkdir_fails env then (tick f, Err RSMkdir)
  else match io_write_fails env with
       | Some n => (put (fs_path f) (Some (take n data)), Err RSWrite)
       | None =>
           if io_rename_fails env then (put (fs_path f) (Some data), Err RSRename)
           else (put (Some data) None, Ok tt)
       end.

Definition file_Save (rp : RootPointer) f : FileRootStore * result rs_err unit :=
  let env := fs_env f (fs_calls f) in
  match save_guard f env rp with
  | Err e => (tick f, Err e)
  | Ok _ => match save_bytes f env rp with
            | Err e => (tick f, Err e)
            | Ok data => save_write f env data
            end
  end.
#[export] Instance file_root_store : RootStore FileRootStore := {| rs_Load := file_Load; rs_Save := file_Save |}.
End file.

(** ** DHTRootStore *)

(** [RootPublisher]: the two methods of *net.Discovery it uses. *)
Class RootPublisher (P : Type) := {
  pub_PutRoot : RootPointer → P → P * result net_err unit;
  pub_GetRoot : bytes → P → P * result net_err (option RootPointer);
}.
#[export] Instance discovery_publisher `{Ed25519, Json readCapJSON, Json rootPointerJSON} {D} `{!Dht D} : RootPublisher D :=
  {| pub_PutRoot := PutRoot; pub_GetRoot := GetRoot |}.

Record DHTRootStore (P : Type) := mkDHTRoot { ds_pub : P; ds_owner : bytes }.
Arguments mkDHTRoot {P}. Arguments ds_pub {P}. Arguments ds_owner {P}.

Section dht.
Context `{Hed : Ed25519} `{Hcj : Json readCapJSON} {P : Type} `{Hp : !RootPublisher P}.

Definition dht_Load (d : DHTRootStore P) : DHTRootStore P * result rs_err (option RootPointer) :=
  let '(p, r) := pub_GetRoot (ds_owner d) (ds_pub d) in (mkDHTRoot p (ds_owner d), map_err RSNet r).

Definition dht_Save (rp : RootPointer) (d : DHTRootStore P) : DHTRootStore P * result rs_err unit :=
  if negb (root_Verify rp) then (d, Err RSUnsigned)
  else if decide (rp_Owner rp ≠ ds_owner d) then (d, Err RSOwnerMismatch)
  else
    let '(p, r) := pub_GetRoot (ds_owner d) (ds_pub d) in
    let publish :=
      let '(p, r) := pub_PutRoot rp p in (mkDHTRoot p (ds_owner d), map_err RSNet r) in
    match r with
    | Err _ => publish
    | Ok None => publish
    | Ok (Some cur) =>
        if rp_Seq rp <=? rp_Seq cur then (mkDHTRoot p (ds_owner d), Err (RSNotAdvancing (rp_Seq rp) (rp_Seq cur)))
        else publish
    end.
#[export] Instance dht_root_store : RootStore (DHTRootStore P) := {| rs_Load := dht_Load; rs_Save := dht_Save |}.
End dht.

(** ** MultiRootStore *)

Record MultiRootStore (S M : Type) := mkMulti { mu_primary : S; mu_mirrors : list M }.
Arguments mkMulti {S M}. Arguments mu_primary {S M}. Arguments mu_mirrors {S M}.

Section multi.
Context {S M : Type} `{HS : !RootStore S} `{HM : !RootStore M}.

Definition multi_Load (m : MultiRootStore S M) : MultiRootStore S M * result rs_err (option RootPointer) :=
  let '(p, r) := rs_Load (mu_primary m) in (mkMulti p (mu_mirrors m), r).

Definition multi_Save (rp : RootPointer) (m : MultiRootStore S M) : MultiRootStore S M * result rs_err unit :=
  let '(p, r) := rs_Save rp (mu_primary m) in
  match r with
  | Err e => (mkMulti p (mu_mirrors m), Err e)
  | Ok _ => (mkMulti p ((λ mir, (rs_Save rp mir).1) <$> mu_mirrors m), Ok tt)
  end.
#[export] Instance multi_root_store : RootStore (MultiRootStore S M) := {| rs_Load := multi_Load; rs_Save := multi_Save |}.
End multi.

(** ** Laws *)

(** What clients of a store rely on: [view] is the stored pointer. *)
Class RootStoreLaws (S : Type) `{!RootStore S} (ok : S → Prop) (savable : RootPointer → Prop) (view : S → option RootPointer) := {
  rs_load_law : ∀ s s' r, ok s → rs_Load s = (s', r) →
    ok s' ∧ view s' = view s ∧ (∀ v, r = Ok v → v = view s);
  rs_save_law : ∀ rp s s' r, ok s → savable rp → rs_Save rp s = (s', r) →
    ok s' ∧ match r with
            | Ok _ => view s' = Some rp ∧ ∀ cur, view s = Some cur → rp_Seq cur < rp_Seq rp
            | Err _ => view s' = view s
            end;
}.

Lemma mem_root_laws : RootStoreLaws MemRootStore (λ _, True) (λ _, True) mr_rp.
Proof.
  split; [intros s s' r _ [= <- <-]; split_and!; [done..|]; by intros v [= ->]|]. intros rp s s' r _ _. cbn [rs_Save mem_root_store]. unfold mem_Save.
  destruct (mr_rp s) as [cur|] eqn:E; [destruct (Z.leb_spec (rp_Seq rp) (rp_Seq cur)) as [|Hlt]|]; intros [= <- <-]; split; try done.
  split; [done|]. by intros ? [= <-].
Qed.

(** JSON text: an object starts with a brace, and white space after it is
    insignificant. *)
Class JsonText (A : Type) `{!Json A} := {
  json_brace : ∀ a b, Marshal a = Some b → take 1 b = [Byte.x7b];
  json_newline : ∀ a b, Marshal a = Some b → Unmarshal (b ++ [Byte.x0a]) = Unmarshal b;
}.

Section file_laws.
Context `{Hed : Ed25519} `{Hgcm : AesGcm} `{Harg : Argon2} `{Hcj : Json readCapJSON} `{Hrj : Json rootPointerJSON}.
Context `{Hjt : !JsonText rootPointerJSON}.
Implicit Types (f : FileRootStore).

(** A pointer the code can sign: its fields fit their Go types. *)
Definition savable (rp : RootPointer) : Prop :=
  length (rp_Owner rp) = SignPubKeySize ∧ cap_ok (rp_Root rp) ∧ json_ok (root_json rp).

(** The stored pointer, when the read does not fail. *)
Definition calm : Env := mkEnv false None None false None false.
Definition file_view f : option RootPointer := match file_load f calm with Ok v => v | Err _ => None end.
Definition file_ok f : Prop :=
  is_ok (file_load f calm) = true ∧
  ∀ n, (∀ s, io_salt (fs_env f n) = Some s → length s = 16%nat) ∧ (∀ s, io_nonce (fs_env f n) = Some s → length s = 12%nat).

Lemma file_load_view f env v : file_load f env = Ok v → file_view f = v.
Proof. unfold file_view, file_load, calm. destruct (io_read_fails env); [done|]. cbn [io_read_fails]. by intros ->. Qed.

Lemma file_load_same f f' env : fs_path f' = fs_path f → fs_passphrase f' = fs_passphrase f → file_load f' env = file_load f env.
Proof. intros Hp Hs. unfold file_load, file_decrypt. by rewrite Hp, Hs. Qed.

(** What Save writes is what Load reads. *)
Lemma save_bytes_load f env rp data tmp calls :
  file_ok f → env = fs_env f (fs_calls f) → savable rp → root_Verify rp = true → save_bytes f env rp = Ok data →
  file_load (mkFileRoot (Some data) tmp (fs_passphrase f) (fs_env f) calls) calm = Ok (Some rp).
Proof.
  intros [_ Henv] -> (Ho & Hc & Hj) Hv Es. destruct (root_codec rp Ho Hc Hj) as (plain & Ee & Ed).
  unfold save_bytes in Es. rewrite Ee in Es. cbn [map_err mbind result_bind] in Es.
  assert (DecodeRootPointer (plain ++ [Byte.x0a]) = Ok rp) as Edn.
  { rewrite <-Ed. unfold DecodeRootPointer. unfold EncodeRootPointer in Ee.
    destruct (Marshal _) as [b|] eqn:Em; [|done]. cbn [of_option] in Ee. apply (inj Ok) in Ee as ->. by erewrite json_newline. }
  assert (AtRest.IsEncrypted (plain ++ [Byte.x0a]) = false) as Hne.
  { unfold EncodeRootPointer in Ee. destruct (Marshal _) as [b|] eqn:Em; [|done]. cbn [of_option] in Ee.
    apply (inj Ok) in Ee as ->. apply json_brace in Em. apply bool_decide_eq_false. intros E.
    apply (f_equal (take 1)) in E. rewrite take_take in E. destruct plain as [|x plain]; [done|]. cbn in Em, E. congruence. }
  assert (file_decrypt f data = Ok (plain ++ [Byte.x0a])) as Edec.
  { unfold file_encrypt in Es. unfold file_decrypt. destruct (fs_passphrase f) as [pass|] eqn:Ep.
    - specialize (Henv (fs_calls f)) as [Hs Hn].
      destruct (io_salt _) as [salt|] eqn:E1; [|done]. destruct (io_nonce _) as [nonce|] eqn:E2; [|done].
      destruct (atrest_roundtrip salt nonce (plain ++ [Byte.x0a]) pass (Hs _ eq_refl) (Hn _ eq_refl)) as (file & Ef & _ & Hi & Hd & _).
      rewrite Ef in Es. cbn [map_err] in Es. apply (inj Ok) in Es as <-. rewrite Hi. cbn [negb]. by rewrite Hd.
    - apply (inj Ok) in Es as <-. by rewrite Hne. }
  unfold file_load. cbn [calm io_read_fails fs_path].
  change (file_decrypt (mkFileRoot (Some data) tmp (fs_passphrase f) (fs_env f) calls) data) with (file_decrypt f data).
  rewrite Edec. cbn [mbind result_bind]. rewrite Edn. cbn [map_err mbind result_bind]. by rewrite Hv.
Qed.

Lemma file_unchanged f f' : fs_path f' = fs_path f → fs_passphrase f' = fs_passphrase f → fs_env f' = fs_env f →
  file_ok f → file_ok f' ∧ file_view f' = file_view f.
Proof.
  intros Hp Hs He [Hl Hn]. unfold file_ok, file_view. rewrite He, !(file_load_same f f') by done. done.
Qed.

Lemma save_guard_spec f env rp : save_guard f env rp = Ok tt →
  root_Verify rp = true ∧ ∀ cur, file_view f = Some cur → rp_Owner cur = rp_Owner rp ∧ rp_Seq cur < rp_Seq rp.
Proof.
  unfold save_guard. destruct (root_Verify rp); [|done]. cbn [negb]. intros E. apply bind_Ok in E as (v & El & E).
  apply file_load_view in El. split; [done|]. intros cur Hcur. rewrite Hcur in El. subst v.
  case_decide as Ho; [done|]. destruct (Z.leb_spec (rp_Seq rp) (rp_Seq cur)); [done|]. done.
Qed.

Lemma file_root_laws : RootStoreLaws FileRootStore file_ok savable file_view.
Proof.
  split.
  - intros f f' r Hok [= <- <-]. destruct (file_unchanged f (tick f)) as [Hok' Hv]; [done..|].
    split; [done|]. split; [done|]. intros v E. symmetry. by eapply file_load_view.
  - intros rp f f' r Hok Hs. cbn [rs_Save file_root_store]. unfold file_Save.
    destruct (save_guard f _ rp) as [[]|e] eqn:Eg; [|intros [= <- <-]; by apply (file_unchanged f)].
    destruct (save_bytes f _ rp) as [data|e] eqn:Es; [|intros [= <- <-]; by apply (file_unchanged f)].
    apply save_guard_spec in Eg as [Hv Hadv]. unfold save_write.
    destruct (io_mkdir_fails _); [intros [= <- <-]; by apply (file_unchanged f)|].
    destruct (io_write_fails _); [intros [= <- <-]; by apply (file_unchanged f)|].
    destruct (io_rename_fails _); intros [= <- <-]; [by apply (file_unchanged f)|].
    pose proof (save_bytes_load f _ rp data None (fs_calls f + 1)%nat Hok eq_refl Hs Hv Es) as El.
    split; [split; [by rewrite El|apply Hok]|]. split; [unfold file_view; by rewrite El|].
    intros cur Hcur. by apply Hadv.
Qed.

Lemma multi_root_laws {M} `{!RootStore M} :
  RootStoreLaws (MultiRootStore FileRootStore M) (λ m, file_ok (mu_primary m)) savable (λ m, file_view (mu_primary m)).
Proof.
  destruct file_root_laws as [HL HS]. split.
  - intros m m' r Hok. cbn [rs_Load multi_root_store]. unfold multi_Load.
    destruct (rs_Load (mu_primary m)) as [p r'] eqn:E. intros [= <- <-]. by apply (HL _ _ _ Hok E).
  - intros rp m m' r Hok Hs. cbn [rs_Save multi_root_store]. unfold multi_Save.
    destruct (rs_Save rp (mu_primary m)) as [p r'] eqn:E. specialize (HS _ _ _ _ Hok Hs E) as [Hok' Hr].
    destruct r' as [[]|e]; intros [= <- <-]; done.
Qed.
End file_laws.

(** ** Clients: a sequence of Saves *)

Section clients.
Context {S : Type} `{!RootStore S} {ok : S → Prop} {sv : RootPointer → Prop} {view : S → option RootPointer}.
Context (Hlaws : RootStoreLaws S ok sv view).

(** Save each pointer in turn; the pointers that were accepted. *)
Fixpoint save_all (rps : list RootPointer) (s : S) : S * list RootPointer :=
  match rps with
  | [] => (s, [])
  | rp :: rps =>
      let '(s, r) := rs_Save rp s in
      let '(s, acc) := save_all rps s in
      (s, if is_ok r then rp :: acc else acc)
  end.

Definition opt_list {A} (o : option A) : list A := match o with Some x => [x] | None => [] end.

Lemma save_all_spec rps : Forall sv rps → ∀ s s' acc, ok s → save_all rps s = (s', acc) →
  ok s' ∧ StronglySorted Z.lt (rp_Seq <$> (opt_list (view s) ++ acc)) ∧ view s' = last (opt_list (view s) ++ acc).
Proof.
  induction 1 as [|rp rps Hrp Hrps IH]; intros s s' acc Hok; cbn [save_all].
  { intros [= <- <-]. rewrite app_nil_r. split; [done|]. destruct (view s); split; try done; repeat constructor. }
  destruct (rs_Save rp s) as [s1 r] eqn:Es. destruct (save_all rps s1) as [s2 acc1] eqn:Er. intros [= <- <-].
  destruct (rs_save_law _ _ _ _ Hok Hrp Es) as [Hok1 Hr]. destruct (IH _ _ _ Hok1 Er) as (Hok2 & Hsort & Hlast).
  split; [done|]. destruct r as [[]|e]; cbn [is_ok].
  - destruct Hr as [Hv Hadv]. rewrite Hv in Hsort, Hlast. cbn [opt_list app] in Hsort, Hlast.
    destruct (view s) as [cur|] eqn:Ec; [|by split]. cbn [opt_list app]. split; [|by rewrite Hlast].
    specialize (Hadv cur eq_refl). cbn [fmap list_fmap] in *. apply SSorted_cons; [done|].
    inversion Hsort as [|? ? Hs' Hall]; subst. constructor; [done|]. eapply Forall_impl; [exact Hall|]. cbn. lia.
  - rewrite Hr in Hsort, Hlast. done.
Qed.
End clients.

(** ** Claims *)

(** [C32] Anti-rollback of the durable root, with any mirrors and any I/O
    failures: whatever sequence of pointers is saved, the accepted ones (after the
    one stored at the start) have strictly increasing sequence numbers, the stored
    pointer is the last accepted one, a Load that succeeds returns it, and a
    mirror never changes the outcome of a Save. *)
Theorem root_anti_rollback `{Ed25519, AesGcm, Argon2, Json readCapJSON, Json rootPointerJSON} `{!JsonText rootPointerJSON}
    {M} `{!RootStore M} rps (m m' : MultiRootStore FileRootStore M) acc :
  file_ok (mu_primary m) → Forall savable rps → save_all rps m = (m', acc) →
  let history := opt_list (file_view (mu_primary m)) ++ acc in
  StronglySorted Z.lt (rp_Seq <$> history) ∧ file_view (mu_primary m') = last history ∧
  (∀ m'' v, multi_Load m' = (m'', Ok v) → v = last history) ∧
  (∀ rp, (multi_Save rp m').2 = (file_Save rp (mu_primary m')).2).
Proof.
  intros Hok Hs E history. pose proof (multi_root_laws (M := M)) as Hlaws.
  destruct (save_all_spec Hlaws rps Hs m m' acc Hok E) as (Hok' & Hsort & Hlast).
  split; [done|]. split; [done|]. split.
  - intros m'' v El. destruct Hlaws as [HL _]. destruct (HL _ _ _ Hok' El) as (_ & _ & Hv). rewrite (Hv v) by done. exact Hlast.
  - intros rp. unfold multi_Save. cbn [rs_Save file_root_store]. destruct (file_Save rp (mu_primary m')) as [p [[]|e]]; done.
Qed.

(** ** Witnesses *)

Definition text_json (A : Type) `{!Ser A} : Json A.
Proof.
  refine {| Marshal a := Some (Byte.x7b :: ser a);
            Unmarshal b := match b with
                           | Byte.x7b :: b => match de b with Some (a, []) | Some (a, [Byte.x0a]) => Some a | _ => None end
                           | _ => None
                           end;
            json_ok _ := True |}.
  intros a _. eexists. split; [done|]. rewrite <-(app_nil_r (ser a)), de_ser. done.
Defined.

Definition text_json_text (A : Type) `{!Ser A} : @JsonText A (text_json A).
Proof.
  split.
  - by intros a b [= <-].
  - intros a b [= <-]. cbn [app Unmarshal text_json]. rewrite de_ser. by rewrite <-(app_nil_r (ser a)), de_ser.
Defined.

Definition text_root_json : Json rootPointerJSON := text_json rootPointerJSON.

Definition sign_at (seq : Z) : RootPointer :=
  match @SignRoot toy_ed toy_cap_json [Byte.x05] (ex_cap Byte.x01) seq 99 with Ok rp => rp | Err _ => mkRootP [] zeroCap 0 0 [] end.

Definition ex_env : Env := mkEnv false (Some (replicate 16 Byte.x02)) (Some (replicate 12 Byte.x03)) false None false.

(** An encrypted file with a mirror; the write of the second call fails. *)
Definition ex_multi : MultiRootStore FileRootStore MemRootStore :=
  mkMulti (mkFileRoot None None (Some [Byte.x70])
    (λ n, if decide (n = 1)%nat then mkEnv false (io_salt ex_env) (io_nonce ex_env) false (Some 3%nat) false else ex_env) 0)
    [NewMemRootStore].

Abbreviation ex_file_store := (@file_root_store toy_ed toy_gcm toy_argon toy_cap_json text_root_json).

Lemma sign_at_savable seq : 0 <= seq < 2 ^ 64 → @savable text_root_json (sign_at seq).
Proof. intros _. split; [vm_compute; reflexivity|]. split; [apply (ex_root_cap_ok Byte.x01)|exact I]. Qed.

Lemma root_anti_rollback_witness :
  let st := @multi_root_store _ MemRootStore ex_file_store mem_root_store in
  let '(m', acc) := @save_all _ st [sign_at 1; sign_at 5; sign_at 4; sign_at 4] ex_multi in
  (rp_Seq <$> acc) = [1; 4] ∧ StronglySorted Z.lt (rp_Seq <$> acc).
Proof.
  intros st. destruct (@save_all _ st [sign_at 1; sign_at 5; sign_at 4; sign_at 4] ex_multi) as [m' acc] eqn:E.
  split.
  - assert ((rp_Seq <$> (@save_all _ st [sign_at 1; sign_at 5; sign_at 4; sign_at 4] ex_multi).2) = [1; 4]) as E'
      by (vm_compute; reflexivity). rewrite E in E'. exact E'.
  - refine (proj1 (@root_anti_rollback toy_ed toy_gcm toy_argon toy_cap_json text_root_json (text_json_text _) MemRootStore
      mem_root_store _ _ m' acc _ _ E)).
    + split; [vm_compute; reflexivity|]. intros n. unfold ex_multi. cbn [mu_primary fs_env].
      destruct (decide (n = 1)%nat); (split; [intros s [= <-]; reflexivity|intros s [= <-]; reflexivity]).
    + repeat apply Forall_cons_2; try apply sign_at_savable; try lia. apply Forall_nil_2.
Defined.
