(* ===== verification/Files.v ===== *)
(** * internal/manifest: file blobs, and rekeying a subtree

    The file half of the namespace over the interface [Blobs]: storing and
    loading the bytes of a file (the loops of internal/pipeline seen through the
    blob layer; [vault_store_file] relates the two), StoreFileManifest and
    LoadFileManifest (file.go), and Rekey (rekey.go). *)

From Stdlib Require Import Ascii.
From S2P Require Import Prelude GoLib Store Crypto Stripe Erasure Chunk Pipeline Blobs Codec Manifest Namespace.

(** The file codec, with the texts it represents. *)
Class FileJson `{DirJson} := {
  file_json :: Json fileManifestJSON;
  file_json_ok : ∀ m, utf8 (fm_Name m) → meta_utf8 (fm_Meta m) → json_ok (file_to_json m);
  meta_utf8_versions : ∀ m cv mv, meta_utf8 m →  (* version tokens are byte strings: base64 *)
    meta_utf8 (mkMeta (md_Mode m) (md_Uid m) (md_Gid m) (md_ModTimeNS m) (md_ChangeTimeNS m) (md_AccessTimeNS m) (md_BirthTimeNS m)
      (md_Flags m) (md_ContentType m) (md_SymlinkTarget m) (md_Xattr m) cv mv);
}.

Section files.
Context `{Hj : DirJson} `{Hfj : !FileJson} {W : Type} `{Hb : !Blobs W} (cfg : Config).
Implicit Types (w : W) (c : ReadCap) (m : FileManifest).

(** The loop of pipeline.StoreFile; each chunk is stored as a blob. *)
Fixpoint put_chunks (items : list (result chunk_err bytes)) m w : W * result pipeline_err FileManifest :=
  match items with
  | [] => (w, Ok m)
  | Err e :: _ => (w, Err (PChunk e))
  | Ok plain :: items =>
      let '(w, r) := blob_put cfg plain w in
      match r with
      | Err e => (w, Err e)
      | Ok ref =>
          put_chunks items (mkFile (fm_Name m) (fm_Params m) (i64 (fm_Size m + Z.of_nat (length plain)))
            (fm_Meta m) (fm_Chunks m ++ [ref])) w
      end
  end.
Definition file_put (r : Reader) w : W * result pipeline_err FileManifest :=
  put_chunks (Fixed r (cf_ChunkSize cfg)) (mkFile "" cfg 0 zeroMeta []) w.

(** The loop of pipeline.LoadFile, with a writer that accepts everything. *)
Fixpoint get_chunks (p : Params) (i : nat) (refs : list ChunkRef) w : bytes * result pipeline_err unit :=
  match refs with
  | [] => ([], Ok tt)
  | ref :: refs =>
      match blob_get p ref w with
      | Err e => ([], Err (PAtChunk i e))
      | Ok plain => let '(out, r) := get_chunks p (i + 1) refs w in (plain ++ out, r)
      end
  end.
Definition file_get m w : bytes * result pipeline_err unit := get_chunks (cf_Params (fm_Params m)) 0 (fm_Chunks m) w.
End files.

(** The loop of pipeline.ReencryptFile, under the file's own configuration. *)
Fixpoint rekey_chunks {W} `{!Blobs W} (cfg : Config) (i : nat) (refs : list ChunkRef) (w : W)
    : W * result pipeline_err (list ChunkRef) :=
  match refs with
  | [] => (w, Ok [])
  | ref :: refs =>
      match blob_get (cf_Params cfg) ref w with
      | Err e => (w, Err (PAtChunk i e))
      | Ok plain =>
          let '(w, r) := blob_put cfg plain w in
          match r with
          | Err e => (w, Err (PAtChunk i e))
          | Ok newRef =>
              let '(w, rest) := rekey_chunks cfg (i + 1) refs w in
              (w, rest ← rest; Ok (newRef :: rest))
          end
      end
  end.
Definition file_rekey {W} `{!Blobs W} (m : FileManifest) (w : W) : W * result pipeline_err FileManifest :=
  let '(w, r) := rekey_chunks (fm_Params m) 0 (fm_Chunks m) w in
  (w, chunks ← r; Ok (mkFile (fm_Name m) (fm_Params m) (fm_Size m) (fm_Meta m) chunks)).

Section rekey.
Context `{Hj : DirJson} `{Hfj : !FileJson} {W : Type} `{Hb : !Blobs W} (cfg : Config).
Implicit Types (w : W) (c : ReadCap) (m : FileManifest).

Definition StoreFileManifest m w : W * result manifest_err ReadCap :=
  match EncodeFileManifest m with
  | Err e => (w, Err e)
  | Ok data => putBlob cfg KindFile data w
  end.

Definition LoadFileManifest c w : result manifest_err FileManifest :=
  data ← getBlob c KindFile w; DecodeFileManifest data.

(** The loop of [rekeyTree] over the entries of a directory. *)
Fixpoint rekey_entries (rec : ReadCap → W → W * result manifest_err ReadCap) (es : list Entry) w
    : W * result manifest_err (list Entry) :=
  match es with
  | [] => (w, Ok [])
  | e :: es =>
      let '(w, r) := rec (e_Cap e) w in
      match r with
      | Err err => (w, Err err)
      | Ok child =>
          let '(w, rest) := rekey_entries rec es w in
          (w, rest ← rest; Ok (mkEntry (e_Name e) child (e_Stat e) :: rest))
      end
  end.

(** Fuel bounds the nesting. *)
Fixpoint rekeyTree (fuel : nat) c w : W * result manifest_err ReadCap :=
  match fuel with
  | O => (w, Err MFuel)
  | S fuel =>
      match rc_Kind c with
      | KindFile =>
          match LoadFileManifest c w with
          | Err e => (w, Err e)
          | Ok m =>
              let '(w, r) := file_rekey m w in
              match r with
              | Err e => (w, Err (MBlob e))
              | Ok rm => StoreFileManifest rm w
              end
          end
      | KindDir =>
          match LoadDir c w with
          | Err e => (w, Err e)
          | Ok d =>
              let '(w, r) := rekey_entries (rekeyTree fuel) (dm_Entries d) w in
              match r with
              | Err e => (w, Err e)
              | Ok es => StoreDir cfg (mkDir (dm_Meta d) es) w
              end
          end
      | KindOther _ => (w, Err (MKindMismatch (rc_Kind c) KindDir))
      end
  end.

Definition Rekey (fuel : nat) (root : ReadCap) (subpath : string) w : W * result manifest_err ReadCap :=
  match splitPath subpath with
  | Err e => (w, Err e)
  | Ok parts =>
      match Resolve root subpath w with
      | Err e => (w, Err e)
      | Ok sub =>
          let '(w, r) := rekeyTree fuel sub w in
          match r with
          | Err e => (w, Err e)
          | Ok newSub =>
              if decide (parts = []) then (w, Ok newSub)
              else
                match Resolve root (join_slash (removelast parts)) w with
                | Err e => (w, Err e)
                | Ok parent =>
                    match LoadDir parent w with
                    | Err e => (w, Err e)
                    | Ok pd =>
                        match Lookup pd (List.last parts "") with
                        | None => (w, Err (MNotFound subpath))
                        | Some e => Graft cfg root subpath newSub (e_Stat e) w
                        end
                    end
                end
          end
      end
  end.
End rekey.

(** ** The file codec *)

(** A chunk recipe as the program builds it. *)
Definition ref_ok (r : ChunkRef) : Prop :=
  length (cr_Key r) = KeySize ∧ Forall is_id (cr_Shards r) ∧ Z.of_nat (length (cr_Shards r)) ≤ maxManifestShardsPerChunk.

(** *** Decoded values are well typed *)

Lemma decodeKey_typed x k : decodeKey x = Ok k → length k = KeySize.
Proof. unfold decodeKey. destruct (Hex.DecodeString x); [|done]. cbn [of_option mbind result_bind]. case_decide as Hn; [done|]. by intros [= <-]. Qed.

Lemma decode_ids_typed ss : ∀ ids, decode_ids ss = Ok ids → Forall is_id ids ∧ length ids = length ss.
Proof.
  induction ss as [|x ss IH]; intros ids; cbn [decode_ids]; [by intros [= <-]|]. unfold decodeShardID. destruct (Hex.DecodeString x) as [raw|]; [|done].
  cbn [of_option mbind result_bind]. case_decide as Hn; [done|]. cbn [mbind result_bind]. destruct (decode_ids ss) as [ids'|]; [|done]. intros [= <-].
  destruct (IH ids' eq_refl) as [HF HL]. split; [by constructor|cbn; by rewrite HL].
Qed.

Lemma cap_of_json_typed j c : cap_of_json j = Ok c → cap_ok c.
Proof.
  unfold cap_of_json. destruct (decodeKey (cj_key j)) as [k|] eqn:Ek; [|done]. cbn [mbind result_bind].
  destruct (Z.ltb_spec maxManifestShardsPerChunk (Z.of_nat (length (cj_shards j)))); [done|]. destruct (decode_ids _) as [ids|] eqn:Ei; [|done].
  intros [= <-]. destruct (decode_ids_typed _ _ Ei) as [HF HL]. split; [by eapply decodeKey_typed|]. cbn. split; [done|lia].
Qed.

Lemma entries_of_json_typed js : ∀ es, entries_of_json js = Ok es → Forall (λ e, cap_ok (e_Cap e)) es.
Proof.
  induction js as [|j js IH]; intros es; cbn [entries_of_json]; [by intros [= <-]|].
  destruct (match ej_cap j with Some x => cap_of_json x | None => Ok zeroCap end) as [c|] eqn:Ec; [|done]. cbn [mbind result_bind].
  destruct (entries_of_json js) as [es'|]; [|done]. intros [= <-]. constructor; [|by apply IH]. cbn [e_Cap].
  destruct (ej_cap j); [by eapply cap_of_json_typed|]. injection Ec as <-. split; [by vm_compute|]. by split; [constructor|].
Qed.

Lemma chunks_of_json_typed js : ∀ refs, chunks_of_json js = Ok refs → Forall ref_ok refs ∧ length refs = length js.
Proof.
  induction js as [|j js IH]; intros refs; cbn [chunks_of_json]; [by intros [= <-]|].
  destruct (Z.ltb_spec maxManifestShardsPerChunk (Z.of_nat (length (kj_shards j)))); [done|]. destruct (decodeKey (kj_key j)) as [k|] eqn:Ek; [|done].
  cbn [mbind result_bind]. destruct (decode_ids _) as [ids|] eqn:Ei; [|done]. destruct (chunks_of_json js) as [rest|]; [|done]. intros [= <-].
  destruct (IH rest eq_refl) as [HF HL]. destruct (decode_ids_typed _ _ Ei) as [Hi Hn]. split; [|cbn; by rewrite HL]. constructor; [|done].
  unfold ref_ok. cbn. split_and!; [by eapply decodeKey_typed|done|lia].
Qed.

Lemma chunks_json_roundtrip refs : Forall ref_ok refs → chunks_of_json (chunk_to_json <$> refs) = Ok refs.
Proof.
  induction 1 as [|r refs (Hk & Hs & Hn) _ IH]; [done|]. rewrite fmap_cons. cbn [chunks_of_json chunk_to_json kj_key kj_shards kj_compressed].
  rewrite length_fmap. destruct (Z.ltb_spec maxManifestShardsPerChunk (Z.of_nat (length (cr_Shards r)))); [lia|].
  rewrite decodeKey_hex by done. cbn [mbind result_bind]. rewrite decode_ids_hex by done. cbn [mbind result_bind].
  rewrite IH. by destruct r.
Qed.

(** What EncodeFileManifest writes, DecodeFileManifest reads, unless the file has
    too many chunks. *)
Lemma file_codec `{Json fileManifestJSON} m :
  Forall ref_ok (fm_Chunks m) → 0 ≤ fm_Size m → json_ok (file_to_json m) →
  ∃ data, EncodeFileManifest m = Ok data ∧
    DecodeFileManifest data =
      (if maxManifestChunks <? Z.of_nat (length (fm_Chunks m)) then Err (MChunkCount (length (fm_Chunks m))) else Ok m).
Proof.
  intros Hr Hs Hjs. destruct (json_roundtrip _ Hjs) as (data & Em & Eu). exists data.
  unfold EncodeFileManifest, DecodeFileManifest. rewrite Em, Eu. split; [done|].
  cbn [of_option mbind result_bind file_to_json fj_version fj_chunks fj_size fj_name fj_chunk_size fj_k fj_m fj_compress fj_meta].
  change ((fileManifestVersion <? 1) || (fileManifestVersion <? fileManifestVersion)) with false. cbv iota.
  rewrite length_fmap. destruct (maxManifestChunks <? _); [done|].
  destruct (Z.ltb_spec (fm_Size m) 0); [lia|]. rewrite chunks_json_roundtrip by done. cbn [mbind result_bind].
  by destruct m as [? [? [? ?] ?] ? ? ?].
Qed.

(** [C21] What is decoded is well typed, whatever bytes were fetched or received: the
    directories, file manifests and caps that come out of the decoders have
    32-byte keys and 32-byte addresses and no more shards and chunks than the
    limits, sizes are not negative, and the entries of a directory are sorted,
    which the binary search of Lookup relies on. *)
Theorem decoded_well_typed `{Json dirManifestJSON, Json fileManifestJSON, Json readCapJSON} (data : bytes) :
  (∀ d, DecodeDir data = Ok d → StronglySorted (key_le e_Name) (dm_Entries d) ∧ Forall (λ e, cap_ok (e_Cap e)) (dm_Entries d)) ∧
  (∀ m, DecodeFileManifest data = Ok m → 0 ≤ fm_Size m ∧ Z.of_nat (length (fm_Chunks m)) ≤ maxManifestChunks ∧ Forall ref_ok (fm_Chunks m)) ∧
  (∀ c, cap_UnmarshalBinary data = Ok c → cap_ok c).
Proof.
  split; [|split].
  - intros d. unfold DecodeDir. destruct (Unmarshal data) as [jm|]; [|done]. cbn [of_option mbind result_bind].
    destruct (entries_of_json (dj_entries jm)) as [es|] eqn:Ee; [|done]. cbn [mbind result_bind]. destruct (_ || _); [done|]. intros [= <-]. cbn [dm_Entries].
    split; [apply sort_by_sorted|]. unfold sort_entries. rewrite sort_by_perm. by eapply entries_of_json_typed.
  - intros m. unfold DecodeFileManifest. destruct (Unmarshal data) as [jm|]; [|done]. cbn [of_option mbind result_bind]. destruct (_ || _); [done|].
    destruct (Z.ltb_spec maxManifestChunks (Z.of_nat (length (fj_chunks jm)))); [done|]. destruct (Z.ltb_spec (fj_size jm) 0); [done|].
    destruct (chunks_of_json (fj_chunks jm)) as [refs|] eqn:Ec; [|done]. intros [= <-]. destruct (chunks_of_json_typed _ _ Ec) as [HF HL].
    cbn. split_and!; [lia|lia|done].
  - intros c. unfold cap_UnmarshalBinary. destruct (Unmarshal data) as [j|]; [|done]. apply cap_of_json_typed.
Qed.

(** ** The blob layer and the pipeline store the same file *)

Section vault_files.
Context `{Hsha : Sha256} `{Hgcm : AesGcm} `{Hfl : Deflate} `{Hrs : ReedSolomon}.
Context {S : Type} `{Hst : !Store S} (putter : Putter (S := S)) (rk rn : nat → option bytes) (cfg : Config).
#[local] Instance vb : Blobs (Vault S) := vault_blobs putter rk rn.

Lemma vault_put_chunks n items : ∀ i m (w : Vault S),
  v_draws w = (n + i)%nat →
  let '(w', r) := put_chunks cfg items m w in
  store_chunks putter (λ i, rk (n + i)%nat) (λ i, rn (n + i)%nat) cfg i items m (v_store w) = (v_store w', r).
Proof.
  induction items as [|[plain|e] items IH]; intros i m w Hd; cbn [put_chunks store_chunks]; [done| |done].
  cbn [blob_put vb vault_blobs]. rewrite Hd. unfold StoreBlob.
  destruct (storeChunk putter (rk (n + i)%nat) (rn (n + i)%nat) cfg plain (v_store w)) as [s [ref|e]]; [|done].
  match goal with |- context [put_chunks cfg items ?m' ?w'] => specialize (IH (i + 1)%nat m' w' ltac:(cbn [v_draws]; lia));
    destruct (put_chunks cfg items m' w') as [w2 r2] end. exact IH.
Qed.

(** Storing a file through the blob layer is pipeline.StoreFile with the random
    draws that follow. *)
Lemma vault_store_file r (w : Vault S) :
  let '(w', res) := file_put cfg r w in
  StoreFile putter (λ i, rk (v_draws w + i)%nat) (λ i, rn (v_draws w + i)%nat) cfg r (v_store w) = (v_store w', res).
Proof. unfold file_put, StoreFile. apply vault_put_chunks. lia. Qed.

Lemma vault_load_file m (w : Vault S) : file_get m w = LoadFile (λ _, true) m (v_store w).
Proof.
  unfold file_get, LoadFile. generalize 0%nat. induction (fm_Chunks m) as [|ref refs IH]; intros i; [done|].
  cbn [get_chunks load_chunks blob_get vb vault_blobs]. unfold LoadBlob. destruct (loadChunk _ ref (v_store w)); [|done].
  by rewrite IH.
Qed.
End vault_files.

(** ** Correctness over any blob layer that obeys [BlobLaws] *)

Section correctness.
Context `{Hj : DirJson} `{Hfj : !FileJson} {W : Type} `{Hb : !Blobs W} (cfg : Config).
Context {w_ok clean : W → Prop} {holds : W → Params → ChunkRef → bytes → Prop}.
Context `{HL : !BlobLaws W cfg w_ok clean holds}.
Implicit Types (w : W) (c : ReadCap) (m : FileManifest).
Abbreviation extends := (ext (w_ok := w_ok) (holds := holds)).
Abbreviation is_dir := (dir_at (holds := holds)).

(** The chunks of a file hold the pieces of its bytes. *)
Definition chunks_hold w (refs : list ChunkRef) (xs : list bytes) : Prop :=
  Forall2 (λ ref x, holds w (cf_Params cfg) ref x) refs xs.

(** A file manifest as the program builds it, of the bytes [x]. *)
Record file_holds w m (x : bytes) : Prop := {
  fh_cfg : fm_Params m = cfg;
  fh_data : ∃ xs, concat xs = x ∧ chunks_hold w (fm_Chunks m) xs;
  fh_refs : Forall ref_ok (fm_Chunks m);
  fh_size : fm_Size m = Z.of_nat (length x);
  fh_count : Z.of_nat (length (fm_Chunks m)) ≤ maxManifestChunks;
}.

(** The cap [c] addresses the manifest [m] of the bytes [x]. *)
Definition file_at w c m (x : bytes) : Prop :=
  rc_Kind c = KindFile ∧ file_holds w m x ∧ utf8 (fm_Name m) ∧ meta_utf8 (fm_Meta m) ∧
  ∃ data, holds w (cap_Params c) (chunkRef c) data ∧ DecodeFileManifest data = Ok m.

Lemma chunks_hold_ext w w' refs xs : extends w w' → chunks_hold w refs xs → chunks_hold w' refs xs.
Proof. intros [_ Hx] H. eapply Forall2_impl; [exact H|]. intros. by apply Hx. Qed.

Lemma file_holds_ext w w' m x : extends w w' → file_holds w m x → file_holds w' m x.
Proof.
  intros Hx [Hc (xs & Hxs & Hh) Hr Hs Hn]. split; try done. exists xs. split; [done|]. by eapply chunks_hold_ext.
Qed.

Lemma file_at_ext w w' c m x : extends w w' → file_at w c m x → file_at w' c m x.
Proof.
  intros Hx (Hk & Hh & Hn & Hm & data & Hd & E). split; [done|]. split; [by eapply file_holds_ext|]. do 2 (split; [done|]).
  exists data. split; [|done]. by apply Hx.
Qed.

Lemma file_at_load w c m x : w_ok w → file_at w c m x → LoadFileManifest c w = Ok m.
Proof.
  intros Hok (Hk & _ & _ & _ & data & Hh & E). unfold LoadFileManifest, getBlob. rewrite decide_False by (by intros []).
  rewrite (holds_get w _ _ _ Hok Hh). cbn [map_err mbind result_bind]. done.
Qed.

Lemma get_chunks_ok w refs xs : w_ok w → chunks_hold w refs xs → ∀ i, get_chunks (cf_Params cfg) i refs w = (concat xs, Ok tt).
Proof.
  intros Hok. induction 1 as [|ref x refs xs Hr _ IH]; intros i; [done|]. cbn [get_chunks].
  rewrite (holds_get w _ _ _ Hok Hr), IH. done.
Qed.

Lemma file_get_ok w m x : w_ok w → file_holds w m x → file_get m w = (x, Ok tt).
Proof.
  intros Hok [Hc (xs & <- & Hh) _ _ _]. unfold file_get. rewrite Hc. by apply get_chunks_ok.
Qed.

Lemma put_chunks_back items : ∀ m w, clean (put_chunks cfg items m w).1 → clean w.
Proof.
  induction items as [|[plain|e] items IH]; intros m w; cbn [put_chunks]; [done| |done].
  intros Hc. apply (clean_back cfg plain). destruct (blob_put cfg plain w) as [w1 [ref|e]]; [|done]. by eapply IH.
Qed.

Lemma put_chunks_ok plains : ∀ m w w' r,
  w_ok w → fm_Params m = cfg → in_i64 (fm_Size m + Z.of_nat (length (concat plains))) → 0 ≤ fm_Size m →
  put_chunks cfg (Ok <$> plains) m w = (w', r) → clean w' →
  ∃ refs, r = Ok (mkFile (fm_Name m) cfg (fm_Size m + Z.of_nat (length (concat plains))) (fm_Meta m) (fm_Chunks m ++ refs)) ∧
    extends w w' ∧ chunks_hold w' refs plains ∧ Forall ref_ok refs.
Proof.
  induction plains as [|x plains IH]; intros m w w' r Hok Hc Hsz H0 E Hcl; cbn [fmap list_fmap put_chunks] in E.
  { apply pair_eq in E as [<- <-]. exists []. rewrite Z.add_0_r, app_nil_r. split; [destruct m; simpl in *; by subst|].
    split; [by apply ext_refl|]. split; constructor. }
  pose proof (put_spec x w Hok) as Hp. destruct (blob_put cfg x w) as [w1 r1] eqn:Ep. cbn [fst snd] in Hp.
  cbn [concat] in Hsz |- *. rewrite length_app, Nat2Z.inj_add in Hsz |- *. unfold in_i64 in Hsz.
  assert (clean w1) as Hcl1.
  { destruct r1 as [ref|e]; [|by apply pair_eq in E as [-> _]]. eapply put_chunks_back. by rewrite E. }
  destruct (Hp Hcl1) as (ref & -> & Hok1 & Hh & Hk & Hids & Hn & Hkeep).
  apply IH in E as (refs & -> & Hx & Hhs & Hrs); [|done|done| | |done].
  - cbn [fm_Name fm_Meta fm_Size fm_Chunks]. rewrite i64_id by (unfold in_i64; lia). exists (ref :: refs).
    rewrite <-app_assoc. split; [by rewrite Z.add_assoc|]. split; [by eapply ext_trans; [split; [exact Hok1|exact Hkeep]|]|]. split.
    + constructor; [by apply Hx|done].
    + constructor; [|done]. unfold ref_ok, maxManifestShardsPerChunk. unfold maxShards in Hn. split_and!; [done..|lia].
  - cbn [fm_Size]. rewrite i64_id by (unfold in_i64; lia). unfold in_i64. lia.
  - cbn [fm_Size]. rewrite i64_id by (unfold in_i64; lia). lia.
Qed.

(** The chunks a file is cut into, and that they are few enough to be listed. *)
Definition cut (x : bytes) : list bytes := pieces (Z.to_nat (cf_ChunkSize cfg)) x.
Definition sized (x : bytes) : Prop :=
  0 < cf_ChunkSize cfg ∧ Z.of_nat (length x) < 2 ^ 63 ∧ Z.of_nat (length (cut x)) ≤ maxManifestChunks.

Lemma file_put_ok x w w' r :
  w_ok w → sized x → file_put cfg (mkReader x false) w = (w', r) → clean w' →
  ∃ m, r = Ok m ∧ extends w w' ∧ file_holds w' m x ∧ fm_Name m = "" ∧ fm_Meta m = zeroMeta.
Proof.
  intros Hok (Hs & Hl & Hn) E Hcl. unfold file_put in E. rewrite Fixed_pieces in E by done. fold (cut x) in E.
  assert (concat (cut x) = x) as Ec by (apply concat_pieces; lia).
  apply put_chunks_ok in E as (refs & -> & Hx & Hh & Hr); [|done|done|rewrite Ec; unfold in_i64; simpl; lia|simpl; lia|done].
  eexists. split; [done|]. split; [done|]. split; [|done]. split; cbn [fm_Params fm_Chunks fm_Size]; rewrite ?Ec; try done.
  - exists (cut x). by rewrite Ec.
  - apply Forall2_length in Hh. cbn. by rewrite Hh.
Qed.

Lemma file_put_back r w : clean (file_put cfg r w).1 → clean w.
Proof. apply put_chunks_back. Qed.

Lemma StoreFileManifest_back m w : clean (StoreFileManifest cfg m w).1 → clean w.
Proof.
  unfold StoreFileManifest, putBlob. destruct (EncodeFileManifest m) as [b|]; [|done]. intros Hc. apply (clean_back cfg b).
  by destruct (blob_put cfg b w).
Qed.

Lemma StoreFileManifest_spec m x w w' r :
  w_ok w → file_holds w m x → utf8 (fm_Name m) → meta_utf8 (fm_Meta m) → StoreFileManifest cfg m w = (w', r) → clean w' →
  ∃ c, r = Ok c ∧ file_at w' c m x ∧ cap_ok c ∧ extends w w'.
Proof.
  intros Hok Hh Hn Hm E Hcl.
  destruct (file_codec m (fh_refs _ _ _ Hh)) as (data & Ee & Ed);
    [rewrite (fh_size _ _ _ Hh); lia|by apply file_json_ok|].
  destruct (Z.ltb_spec maxManifestChunks (Z.of_nat (length (fm_Chunks m)))) as [Hc|_]; [pose proof (fh_count _ _ _ Hh); lia|].
  unfold StoreFileManifest, putBlob in E. rewrite Ee in E. pose proof (put_spec data w Hok) as Hp.
  destruct (blob_put cfg data w) as [w1 r1]. cbn [fst snd] in *. apply pair_eq in E as [-> <-].
  destruct (Hp Hcl) as (ref & -> & Hok' & Hd & Hkey & Hids & Hnn & Hkeep). cbn [map_err mbind result_bind].
  eexists. split; [done|]. split; [|split; [|done]].
  - split; [done|]. split; [by eapply file_holds_ext|]. do 2 (split; [done|]). exists data. split; [|done].
    destruct ref, cfg as [? [? ?] ?]. exact Hd.
  - split; [done|]. split; [done|]. cbn [capFromRef rc_Shards]. unfold maxManifestShardsPerChunk. unfold maxShards in Hnn. lia.
Qed.

(** *** Rekeying *)

Lemma rekey_chunks_back cfg' refs : ∀ i w, clean (rekey_chunks cfg' i refs w).1 → clean w.
Proof.
  induction refs as [|ref refs IH]; intros i w; cbn [rekey_chunks]; [done|].
  destruct (blob_get _ ref w) as [plain|]; [|done]. intros Hc. apply (clean_back cfg' plain).
  destruct (blob_put cfg' plain w) as [w1 [newRef|e]]; [|done]. cbn [fst]. apply (IH (i + 1)%nat).
  destruct (rekey_chunks cfg' (i + 1) refs w1) as [w2 r2]. exact Hc.
Qed.

Lemma rekey_chunks_ok refs xs : ∀ w, chunks_hold w refs xs → ∀ i w' r,
  w_ok w → rekey_chunks cfg i refs w = (w', r) → clean w' →
  ∃ refs', r = Ok refs' ∧ extends w w' ∧ chunks_hold w' refs' xs ∧ Forall ref_ok refs'.
Proof.
  intros w Hh. revert w Hh. induction refs as [|ref refs IH] in xs |- *; intros w Hh i w' r Hok E Hcl.
  { apply Forall2_nil_inv_l in Hh as ->. apply pair_eq in E as [<- <-]. exists [].
    split; [done|]. split; [by apply ext_refl|]. split; constructor. }
  apply Forall2_cons_inv_l in Hh as (x & xs' & Hr & Hh & ->). cbn [rekey_chunks] in E.
  rewrite (holds_get w _ _ _ Hok Hr) in E. pose proof (put_spec x w Hok) as Hp.
  destruct (blob_put cfg x w) as [w1 r1] eqn:Ep. cbn [fst snd] in Hp.
  assert (clean w1) as Hcl1.
  { destruct r1 as [ref'|e]; [|by apply pair_eq in E as [-> _]]. apply (rekey_chunks_back cfg refs (i + 1)%nat).
    destruct (rekey_chunks cfg (i + 1) refs w1) as [w2 r2]. by apply pair_eq in E as [-> _]. }
  destruct (Hp Hcl1) as (ref' & -> & Hok1 & Hd & Hk & Hids & Hn & Hkeep).
  assert (extends w w1) as Hx1 by by split.
  destruct (rekey_chunks cfg (i + 1) refs w1) as [w2 r2] eqn:Er. apply pair_eq in E as [<- <-].
  destruct (IH xs' w1 (chunks_hold_ext _ _ _ _ Hx1 Hh) (i + 1)%nat w2 r2 Hok1 Er Hcl) as (refs' & -> & Hx & Hh' & Hr').
  exists (ref' :: refs'). split; [done|]. split; [by eapply ext_trans|]. split.
  - constructor; [by apply Hx|done].
  - constructor; [|done]. unfold ref_ok, maxManifestShardsPerChunk. unfold maxShards in Hn. split_and!; [done..|lia].
Qed.

Lemma file_rekey_ok m x w w' r :
  w_ok w → file_holds w m x → file_rekey m w = (w', r) → clean w' →
  ∃ m', r = Ok m' ∧ extends w w' ∧ file_holds w' m' x ∧ fm_Name m' = fm_Name m ∧ fm_Meta m' = fm_Meta m.
Proof.
  intros Hok [Hc (xs & Hxs & Hh) Hr Hs Hn] E Hcl. unfold file_rekey in E. rewrite Hc in E.
  destruct (rekey_chunks cfg 0 (fm_Chunks m) w) as [w1 r1] eqn:Er. apply pair_eq in E as [-> <-].
  destruct (rekey_chunks_ok _ _ _ Hh _ _ _ Hok Er Hcl) as (refs' & -> & Hx & Hh' & Hr'). cbn [mbind result_bind].
  eexists. split; [done|]. split; [done|]. split; [|done]. split; cbn [fm_Params fm_Chunks fm_Size]; try done.
  - by exists xs.
  - rewrite (Forall2_length _ _ _ Hh'), <-(Forall2_length _ _ _ Hh). done.
Qed.

(** A tree of files and directories, at most [n] deep. *)
Fixpoint ftree (n : nat) w c : Prop :=
  match n with
  | O => False
  | S n => (∃ m x, file_at w c m x) ∨ (∃ d, is_dir w c d ∧ Forall (λ e, ftree n w (e_Cap e)) (dm_Entries d))
  end.

(** [c'] in [w'] is a copy of the tree [c] of [w]: the same names, attributes and
    bytes. *)
Fixpoint copy (n : nat) w c w' (c' : ReadCap) : Prop :=
  match n with
  | O => False
  | S n =>
      (∃ m m' x, file_at w c m x ∧ file_at w' c' m' x ∧ fm_Name m' = fm_Name m ∧ fm_Meta m' = fm_Meta m) ∨
      (∃ d d', is_dir w c d ∧ is_dir w' c' d' ∧ dm_Meta d' = dm_Meta d ∧
        Forall2 (λ e e', e_Name e' = e_Name e ∧ e_Stat e' = e_Stat e ∧ copy n w (e_Cap e) w' (e_Cap e'))
          (dm_Entries d) (dm_Entries d'))
  end.

Lemma ftree_ext n : ∀ w w' c, extends w w' → ftree n w c → ftree n w' c.
Proof.
  induction n as [|n IH]; intros w w' c Hx; [done|]. cbn [ftree]. intros [(m & x & H)|(d & Hd & Hall)].
  - left. exists m, x. by eapply file_at_ext.
  - right. exists d. split; [by eapply dir_at_ext|]. eapply Forall_impl; [exact Hall|]. intros e. by apply IH.
Qed.

Lemma copy_ext n : ∀ w c w1 w2 c', extends w1 w2 → copy n w c w1 c' → copy n w c w2 c'.
Proof.
  induction n as [|n IH]; intros w c w1 w2 c' Hx; [done|].
  cbn [copy]. intros [(m & m' & x & H1 & H2 & H3 & H4)|(d & d' & H1 & H2 & H3 & H4)]; [left|right].
  - exists m, m', x. split_and!; [done| |done..]. by eapply file_at_ext.
  - exists d, d'. split_and!; [done|by eapply dir_at_ext|done|]. eapply Forall2_impl; [exact H4|].
    intros e e' (? & ? & ?). split_and!; [done..|]. by eapply IH.
Qed.

Lemma copy_source n : ∀ w w1 c w' c', extends w w1 → w_ok w → ftree n w c → copy n w1 c w' c' → copy n w c w' c'.
Proof.
  induction n as [|n IH]; intros w w1 c w' c' Hx Hok Ht; [done|]. cbn [copy ftree] in *.
  intros [(m & m' & x & H1 & H2 & H3 & H4)|(d & d' & H1 & H2 & H3 & H4)].
  - destruct Ht as [(m0 & x0 & H0)|(d0 & H0 & _)].
    + pose proof (file_at_load _ _ _ _ Hok H0) as E0. pose proof (file_at_ext _ _ _ _ _ Hx H0) as H0'.
      pose proof (file_at_load _ _ _ _ (proj1 Hx) H0') as E0'. rewrite (file_at_load _ _ _ _ (proj1 Hx) H1) in E0'.
      apply (inj Ok) in E0' as ->. left. exists m0, m', x. split_and!; [|done..].
      destruct H1 as (_ & Hh & _), H0' as (_ & Hh0 & _). pose proof (file_get_ok _ _ _ (proj1 Hx) Hh) as G.
      rewrite (file_get_ok _ _ _ (proj1 Hx) Hh0) in G. apply pair_eq in G as [<- _]. done.
    + destruct H1 as [Hk _]. apply dir_at_kind in H0. congruence.
  - destruct Ht as [(m0 & x0 & H0)|(d0 & H0 & Hall)].
    + destruct H0 as [Hk _]. apply dir_at_kind in H1. congruence.
    + assert (d0 = d) as -> by (eapply (dir_at_unique cfg); [exact (proj1 Hx)|by eapply dir_at_ext|done]).
      right. exists d, d'. split_and!; [done..|]. revert Hall. clear -H4 IH Hx Hok. induction H4 as [|e e' l l' (Hn & Hs & Hc) _ IHl]; intros Hall; [constructor|].
      apply Forall_cons in Hall as [He Hall]. constructor; [|by apply IHl]. split_and!; [done..|]. by eapply IH.
Qed.

Lemma rekey_entries_back rec es : (∀ c w, clean (rec c w).1 → clean w) → ∀ w, clean (rekey_entries rec es w).1 → clean w.
Proof.
  intros Hrec. induction es as [|e es IH]; intros w; cbn [rekey_entries]; [done|]. intros Hc. apply (Hrec (e_Cap e)).
  destruct (rec (e_Cap e) w) as [w1 [child|err]]; [|exact Hc]. cbn [fst]. apply IH.
  destruct (rekey_entries rec es w1) as [w2 r2]. exact Hc.
Qed.

Lemma rekeyTree_back fuel : ∀ c w, clean (rekeyTree cfg fuel c w).1 → clean w.
Proof.
  induction fuel as [|fuel IH]; intros c w; cbn [rekeyTree]; [done|]. destruct (rc_Kind c); [| |done].
  - destruct (LoadFileManifest c w) as [m|]; [|done]. unfold file_rekey. intros Hc.
    apply (rekey_chunks_back (fm_Params m) (fm_Chunks m) 0%nat).
    destruct (rekey_chunks (fm_Params m) 0 (fm_Chunks m) w) as [w1 [refs|e]]; [|exact Hc].
    exact (StoreFileManifest_back _ _ Hc).
  - destruct (LoadDir c w) as [d|]; [|done]. intros Hc. apply (rekey_entries_back (rekeyTree cfg fuel) (dm_Entries d) IH).
    destruct (rekey_entries (rekeyTree cfg fuel) (dm_Entries d) w) as [w1 [es|e]]; [|exact Hc].
    exact (StoreDir_back cfg _ _ Hc).
Qed.

(** What the recursion gives for every tree of depth [n]. *)
Definition rekeys (n : nat) (rec : ReadCap → W → W * result manifest_err ReadCap) : Prop :=
  (∀ c w, clean (rec c w).1 → clean w) ∧
  ∀ c w w' r, w_ok w → ftree n w c → rec c w = (w', r) → clean w' →
  ∃ c', r = Ok c' ∧ cap_ok c' ∧ extends w w' ∧ copy n w c w' c'.

Lemma rekey_entries_ok n rec es : rekeys n rec → ∀ w w' r,
  w_ok w → Forall (λ e, ftree n w (e_Cap e)) es → rekey_entries rec es w = (w', r) → clean w' →
  ∃ es', r = Ok es' ∧ extends w w' ∧ Forall (λ e, cap_ok (e_Cap e)) es' ∧
    Forall2 (λ e e', e_Name e' = e_Name e ∧ e_Stat e' = e_Stat e ∧ copy n w (e_Cap e) w' (e_Cap e')) es es'.
Proof.
  intros [Hback Hrec]. induction es as [|e es IH]; intros w w' r Hok Hall E Hcl; cbn [rekey_entries] in E.
  { apply pair_eq in E as [<- <-]. exists []. split; [done|]. split; [by apply ext_refl|]. split; constructor. }
  apply Forall_cons in Hall as [He Hall]. destruct (rec (e_Cap e) w) as [w1 r1] eqn:E1.
  assert (clean w1) as Hcl1.
  { destruct r1 as [child|err]; [|by apply pair_eq in E as [-> _]]. apply (rekey_entries_back rec es Hback).
    destruct (rekey_entries rec es w1) as [w2 r2]. by apply pair_eq in E as [-> _]. }
  destruct (Hrec _ _ _ _ Hok He E1 Hcl1) as (child & -> & Hcc & Hx1 & Hcp).
  destruct (rekey_entries rec es w1) as [w2 r2] eqn:E2. apply pair_eq in E as [<- <-].
  destruct (IH w1 w2 r2 (proj1 Hx1)) as (es' & -> & Hx2 & Hcs & Hcps); [|done|done|].
  { eapply Forall_impl; [exact Hall|]. intros e'. by apply ftree_ext. }
  exists (mkEntry (e_Name e) child (e_Stat e) :: es'). split; [done|]. split; [by eapply ext_trans|].
  split; [by constructor|]. constructor; [split_and!; [done..|by eapply copy_ext]|].
  clear -Hcps Hx1 Hok Hall HL. induction Hcps as [|a a' l l' (H1 & H2 & H3) _ IHl]; [constructor|].
  apply Forall_cons in Hall as [Ha Hall]. constructor; [|by apply IHl]. split_and!; [done..|]. by eapply copy_source.
Qed.

Lemma same_names (es es' : list Entry) (R : Entry → Entry → Prop) :
  Forall2 R es es' → (∀ e e', R e e' → e_Name e' = e_Name e) → e_Name <$> es' = e_Name <$> es.
Proof. intros H HR. induction H as [|e e' es es' He _ IH]; [done|]. cbn [fmap list_fmap]. by rewrite (HR _ _ He), IH. Qed.

(** A directory with the same names is as well-formed. *)
Lemma good_same_names d es' :
  good_dir d → e_Name <$> es' = e_Name <$> dm_Entries d → Forall (λ e, cap_ok (e_Cap e)) es' → good_dir (mkDir (dm_Meta d) es').
Proof.
  intros [[Hnd Hs] Hc Hn Hm] E Hc'. split; [split|done| |done]; cbn [dm_Entries].
  - by rewrite E.
  - revert E. clear -Hs. revert es'. induction Hs as [|e es Hs IH Hall]; intros [|e' es'] E; try done; [constructor|].
    cbn [fmap list_fmap] in E. injection E as En E. constructor; [by apply IH|].
    apply Forall_forall. intros x Hx. assert (e_Name x ∈ e_Name <$> es) as (y & Ey & Hy)%list_elem_of_fmap.
    { rewrite <-E. apply list_elem_of_fmap. by exists x. }
    rewrite Forall_forall in Hall. specialize (Hall y Hy). unfold key_le in *. by rewrite En, Ey.
  - apply (Forall_fmap e_Name utf8). rewrite E. by apply Forall_fmap.
Qed.

Lemma rekeyTree_ok n : rekeys n (rekeyTree cfg n).
Proof.
  induction n as [|n IH]; split; try apply rekeyTree_back; [done|].
  intros c w w' r Hok Ht E Hcl. cbn [ftree] in Ht. cbn [rekeyTree] in E. destruct Ht as [(m & x & Hf)|(d & Hd & Hall)].
  - rewrite (proj1 Hf), (file_at_load _ _ _ _ Hok Hf) in E. destruct (file_rekey m w) as [w1 r1] eqn:E1.
    assert (clean w1) as Hcl1.
    { destruct r1 as [rm|]; [|by apply pair_eq in E as [-> _]]. eapply StoreFileManifest_back. by rewrite E. }
    destruct Hf as (Hk & Hh & Hn & Hm & Hdata).
    destruct (file_rekey_ok m x w w1 r1 Hok Hh E1 Hcl1) as (m' & -> & Hx1 & Hh' & Hn' & Hm').
    apply (StoreFileManifest_spec m' x) in E as (c' & -> & Hf' & Hc' & Hx2); [|exact (proj1 Hx1)|done|by rewrite Hn'|by rewrite Hm'|done].
    exists c'. split; [done|]. split; [done|]. split; [by eapply ext_trans|]. left. exists m, m', x. done.
  - rewrite (dir_at_kind _ _ _ Hd), (dir_at_load cfg _ _ _ Hok Hd) in E.
    destruct (rekey_entries (rekeyTree cfg n) (dm_Entries d) w) as [w1 r1] eqn:E1.
    assert (clean w1) as Hcl1.
    { destruct r1 as [es|]; [|by apply pair_eq in E as [-> _]]. apply (StoreDir_back cfg (mkDir (dm_Meta d) es)). by rewrite E. }
    destruct (rekey_entries_ok n _ _ IH _ _ _ Hok Hall E1 Hcl1) as (es' & -> & Hx1 & Hcs & Hcp).
    assert (good_dir (mkDir (dm_Meta d) es')) as Hg.
    { apply good_same_names; [apply Hd| |done]. eapply same_names; [exact Hcp|]. by intros ? ? (? & _). }
    destruct (StoreDir_spec cfg _ _ _ _ (proj1 Hx1) Hg E Hcl) as (c' & -> & Hd' & Hc' & Hx2).
    exists c'. split; [done|]. split; [done|]. split; [by eapply ext_trans|]. right. exists d, (mkDir (dm_Meta d) es').
    split_and!; [done..|]. cbn [dm_Entries]. eapply Forall2_impl; [exact Hcp|]. intros e e' (? & ? & ?). split_and!; [done..|].
    by eapply copy_ext.
Qed.

Abbreviation leads := (walk (holds := holds)).

Lemma walk_openable w root parts c : leads w root parts c → parts ≠ [] → openable (holds := holds) w root parts.
Proof.
  induction 1 as [|c d name e parts c' Hd Hl Hw IH]; intros Hne; [done|]. destruct parts as [|name' parts]; [by eapply open_last|].
  eapply open_in; [exact Hd|exact Hl| |by apply IH]. inversion Hw; subst. by eapply dir_at_kind.
Qed.

(** The last step of a walk. *)
Lemma walk_snoc w root init name c :
  leads w root (init ++ [name]) c → ∃ p d e, leads w root init p ∧ is_dir w p d ∧ Lookup d name = Some e ∧ e_Cap e = c.
Proof.
  revert root. induction init as [|x init IH]; intros root Hw; cbn [app] in Hw; inversion Hw as [|? d ? e ? ? Hd Hl Hw']; subst.
  - inversion Hw'; subst. exists root, d, e. split_and!; [constructor|done..].
  - destruct (IH _ Hw') as (p & d' & e' & H1 & H2 & H3 & H4). exists p, d', e'. split_and!; [|done..]. by econstructor.
Qed.

Lemma walk_Resolve w root p parts c : w_ok w → splitPath p = Ok parts → leads w root parts c → Resolve root p w = Ok c.
Proof. intros Hok Hp Hw. unfold Resolve. rewrite Hp. cbn [mbind result_bind]. by apply (walk_resolve cfg). Qed.

Lemma Graft_back root p child stat w : clean (Graft cfg root p child stat w).1 → clean w.
Proof. unfold Graft. destruct (splitPath p) as [[|x l]|]; [done| |done]. apply (graft_back cfg). Qed.

(** How Rekey ends: with the rekeyed tree itself, or with the graft of it in the
    place of the old one. *)
Lemma Rekey_run w root p parts c n w' r :
  w_ok w → splitPath p = Ok parts → leads w root parts c → ftree n w c → Rekey cfg n root p w = (w', r) → clean w' →
  ∃ w1 c', extends w w1 ∧ cap_ok c' ∧ copy n w c w1 c' ∧
    ((parts = [] ∧ r = Ok c' ∧ w' = w1) ∨ (parts ≠ [] ∧ ∃ stat, graft cfg root parts c' stat w1 = (w', r))).
Proof.
  intros Hok Hp Hw Ht E Hcl. unfold Rekey in E. rewrite Hp, (walk_Resolve w root p parts c Hok Hp Hw) in E.
  destruct (rekeyTree cfg n c w) as [w1 r1] eqn:E1. destruct (rekeyTree_ok n) as [_ Hrk].
  assert (clean w1) as Hcl1.
  { destruct r1 as [newSub|]; [|by apply pair_eq in E as [-> _]]. case_decide; [by apply pair_eq in E as [-> _]|].
    destruct (Resolve root _ w1) as [parent|]; [|by apply pair_eq in E as [-> _]].
    destruct (LoadDir parent w1) as [pd|]; [|by apply pair_eq in E as [-> _]].
    destruct (Lookup pd _) as [e|]; [|by apply pair_eq in E as [-> _]]. eapply Graft_back. by rewrite E. }
  destruct (Hrk _ _ _ _ Hok Ht E1 Hcl1) as (newSub & -> & Hcn & Hx1 & Hcp). pose proof (proj1 Hx1) as Hok1.
  exists w1, newSub. do 3 (split; [done|]). case_decide as Hparts; [apply pair_eq in E as [<- <-]; by left|right]. split; [done|].
  destruct (exists_last Hparts) as (init & name & ->).
  destruct (walk_snoc w root init name c Hw) as (pc & pd & e & Hwp & Hpd & Hl & He).
  assert (Forall normal (init ++ [name])) as Hnorm.
  { destruct (splitPath_Ok p) as [Hp' Hn]. rewrite Hp in Hp'. apply (inj Ok) in Hp' as ->. done. }
  rewrite removelast_last in E. rewrite (walk_Resolve w1 root (join_slash init) init pc) in E;
    [|done|by apply splitPath_join; apply Forall_app in Hnorm as [? _]|by eapply walk_ext].
  rewrite (dir_at_load cfg w1 pc pd Hok1) in E by (by eapply dir_at_ext).
  rewrite List.last_last, Hl in E. unfold Graft in E. rewrite Hp in E. exists (e_Stat e). destruct init; exact E.
Qed.

(** Revocation by rekeying: if the path leads to a tree of files and
    directories, Rekey with fuel for its depth succeeds; under the new root the
    path leads to a copy of the tree (the same names, attributes and bytes, in
    freshly stored blobs) and every path that is neither above nor below it
    resolves as before; the old root is not disturbed. *)
Theorem rekey_correct w root p parts c n w' r :
  w_ok w → splitPath p = Ok parts → Forall utf8 parts → leads w root parts c → ftree n w c →
  Rekey cfg n root p w = (w', r) → clean w' →
  ∃ root' c', r = Ok root' ∧ w_ok w' ∧ Resolve root' p w' = Ok c' ∧ copy n w c w' c' ∧
    (∀ q qs c, splitPath q = Ok qs → apart parts qs → leads w root qs c → Resolve root' q w' = Ok c) ∧
    (∀ q qs c, splitPath q = Ok qs → leads w root qs c → Resolve root q w' = Ok c).
Proof.
  intros Hok Hp Hu Hw Ht E Hcl. destruct (Rekey_run w root p parts c n w' r Hok Hp Hw Ht E Hcl) as (w1 & newSub & Hx1 & Hcn & Hcp & Hend).
  pose proof (proj1 Hx1) as Hok1. destruct Hend as [(-> & -> & ->)|(Hparts & stat & Eg)].
  { inversion Hw; subst. exists newSub, newSub. split; [done|]. split; [done|].
    split; [by apply (walk_Resolve _ _ p []); [..|constructor]|]. split; [done|]. split; [by intros q qs c' Hq []|].
    intros q qs c' Hq Hwq. by apply (walk_Resolve _ _ q qs); [..|by eapply walk_ext]. }
  destruct (graft_spec cfg newSub stat parts root w1 w' r Hok1) as (root' & -> & _ & _ & Hx2 & Hw2 & Hoth).
  { apply (walk_openable w1 root _ c); [by eapply walk_ext|done]. } { done. } { done. } { exact Eg. } { exact Hcl. }
  pose proof (proj1 Hx2) as Hok'. exists root', newSub. split; [done|]. split; [done|].
  split; [by apply (walk_Resolve _ _ _ parts)|]. split; [by eapply copy_ext|]. split.
  - intros q qs c' Hq Ha Hwq. apply (walk_Resolve _ _ _ qs); [done..|]. apply Hoth; [done|]. by eapply walk_ext.
  - intros q qs c' Hq Hwq. apply (walk_Resolve _ _ _ qs); [done..|]. eapply walk_ext; [|exact Hwq]. by eapply ext_trans.
Qed.
End correctness.

(** ** Witness *)

Definition ex_fj : @FileJson ex_dj.
Proof. refine {| file_json := toy_file_json |}; done. Defined.

Lemma ex_utf8 s : @utf8 ex_dj s.
Proof. exact I. Qed.
Lemma ex_meta_utf8 m : @meta_utf8 ex_dj m.
Proof. exact I. Qed.

#[local] Strategy 100 [StoreFileManifest].

(** A file "f" of six bytes in the root directory. *)
Definition ex_put : Vault Mem.MemStore * result pipeline_err FileManifest := @file_put _ ex_blobs ex_cfg (mkReader ex_data false) ex_vault.
Definition man_of (r : result pipeline_err FileManifest) : FileManifest :=
  match r with Ok m => mkFile "f" (fm_Params m) (fm_Size m) zeroMeta (fm_Chunks m) | Err _ => mkFile "" ex_cfg 0 zeroMeta [] end.
Definition ex_man : FileManifest := man_of ex_put.2.
Definition ex_filed : Vault Mem.MemStore * result manifest_err ReadCap := @StoreFileManifest ex_dj ex_fj _ ex_blobs ex_cfg ex_man ex_put.1.
Definition ex_file_cap : ReadCap := cap_of ex_filed.2.
Definition ex_fdir : DirManifest := mkDir zeroMeta [mkEntry "f" ex_file_cap (bareStat KindFile)].
Definition ex_fstored : Vault Mem.MemStore * result manifest_err ReadCap := @StoreDir ex_dj _ ex_blobs ex_cfg ex_fdir ex_filed.1.
Definition ex_froot : ReadCap := cap_of ex_fstored.2.

Lemma ex_file_world :
  ex_vok ex_fstored.1 ∧ @dir_at ex_dj _ ex_holds ex_fstored.1 ex_froot ex_fdir ∧ (cap_ok ex_froot ∧ cap_ok ex_file_cap) ∧
  @file_at ex_dj ex_fj _ ex_cfg ex_holds ex_fstored.1 ex_file_cap ex_man ex_data.
Proof.
  destruct (@file_put_ok _ ex_blobs ex_cfg ex_vok ex_clean ex_holds ex_laws ex_data ex_vault ex_put.1 ex_put.2)
    as (m & Em & Hx1 & Hh & _ & _).
  { apply ex_vault_ok. } { refine (conj _ (conj _ _)); vm_compute; [reflexivity|reflexivity|discriminate]. }
  { exact (surjective_pairing ex_put). } { apply is_clean_ok. vm_compute. reflexivity. }
  assert (@file_holds _ ex_cfg ex_holds ex_put.1 ex_man ex_data) as Hh'.
  { unfold ex_man. rewrite Em. destruct Hh as [? ? ? ? ?]. by split. }
  destruct (@StoreFileManifest_spec ex_dj ex_fj _ ex_blobs ex_cfg ex_vok ex_clean ex_holds ex_laws ex_man ex_data ex_put.1 ex_filed.1 ex_filed.2)
    as (c & Ec & Hf & Hc & Hx2); [exact (proj1 Hx1)|exact Hh'|apply ex_utf8|apply ex_meta_utf8|exact (surjective_pairing ex_filed)|apply is_clean_ok; vm_compute; reflexivity|].
  assert (ex_file_cap = c) as Hcap by (unfold ex_file_cap; by rewrite Ec). rewrite <-Hcap in Hf, Hc.
  destruct (@StoreDir_spec ex_dj _ ex_blobs ex_cfg ex_vok ex_clean ex_holds ex_laws ex_fdir ex_filed.1 ex_fstored.1 ex_fstored.2)
    as (rc & Er & Hd & Hcr & Hx3).
  { exact (proj1 Hx2). }
  { split; [split|constructor; [exact Hc|constructor]|constructor; [apply ex_utf8|constructor]|apply ex_meta_utf8].
    - apply NoDup_singleton.
    - repeat constructor. }
  { exact (surjective_pairing ex_fstored). } { apply is_clean_ok. vm_compute. reflexivity. }
  assert (ex_froot = rc) as -> by (unfold ex_froot; by rewrite Er).
  split; [exact (proj1 Hx3)|]. split; [exact Hd|]. split; [exact (conj Hcr Hc)|].
  eapply (@file_at_ext ex_dj ex_fj); [exact Hx3|exact Hf].
Qed.

Definition ex_rekeyed : Vault Mem.MemStore * result manifest_err ReadCap :=
  @Rekey ex_dj ex_fj _ ex_blobs ex_cfg 1 ex_froot "f" ex_fstored.1.

Lemma rekey_correct_witness :
  ∃ root' c', ex_rekeyed.2 = Ok root' ∧ @Resolve ex_dj _ ex_blobs root' "f" ex_rekeyed.1 = Ok c' ∧
    @copy ex_dj ex_fj _ ex_cfg ex_holds 1 ex_fstored.1 ex_file_cap ex_rekeyed.1 c'.
Proof.
  destruct ex_file_world as (Hok & Hd & Hc & Hf).
  destruct (@rekey_correct ex_dj ex_fj _ ex_blobs ex_cfg ex_vok ex_clean ex_holds ex_laws ex_fstored.1 ex_froot "f" ["f"] ex_file_cap 1
    ex_rekeyed.1 ex_rekeyed.2) as (root' & c' & E & _ & Hr & Hcp & _).
  - exact Hok.
  - reflexivity.
  - constructor; [exact I|constructor].
  - apply (@walk_in ex_dj _ ex_holds ex_fstored.1 ex_froot ex_fdir "f" (mkEntry "f" ex_file_cap (bareStat KindFile)) [] _ Hd eq_refl), walk_here.
  - left. exists ex_man, ex_data. exact Hf.
  - exact (surjective_pairing ex_rekeyed).
  - apply is_clean_ok. vm_compute. reflexivity.
  - exists root', c'. exact (conj E (conj Hr Hcp)).
Defined.
