(* ===== verification/Identity.v ===== *)
(** * internal/provider: identity.go, stable item identifiers

    The map between slash paths and opaque identifiers that a provider keeps:
    an identifier is minted the first time a path is seen and follows the item
    through renames. Go iterates over a map in an unspecified order, so the loops
    of [rename] and [remove] run over any listing of the subtree. *)

From Stdlib Require Import Ascii.
From S2P Require Import Prelude GoLib Manifest.

(** An identifier: "root", or "i" followed by a decimal number. *)
Inductive ItemID := RootID | Minted (n : Z).
#[export] Instance ItemID_eq_dec : EqDecision ItemID.
Proof. solve_decision. Defined.
#[export] Program Instance ItemID_countable : Countable ItemID :=
  inj_countable' (λ i, match i with RootID => None | Minted n => Some n end)
    (λ o, match o with None => RootID | Some n => Minted n end) _.
Next Obligation. by intros []. Qed.

Record identity := mkIds { byID : gmap ItemID string; byPath : gmap string ItemID; next : Z }.

Definition newIdentity : identity := mkIds {[RootID := ""]} {["" := RootID]} 0.

Definition idFor (path : string) (i : identity) : identity * ItemID :=
  match byPath i !! path with
  | Some id => (i, id)
  | None =>
      let n := u64 (next i + 1) in
      (mkIds (<[Minted n := path]> (byID i)) (<[path := Minted n]> (byPath i)) n, Minted n)
  end.

Definition pathFor (id : ItemID) (i : identity) : option string := byID i !! id.

(** What follows the prefix [p] in [s], if [s] starts with it. *)
Fixpoint after (p s : string) : option string :=
  match p, s with
  | EmptyString, _ => Some s
  | String a p, String b s => if decide (a = b) then after p s else None
  | _, _ => None
  end.

(** [p == prefix || strings.HasPrefix(p, prefix+"/")] *)
Definition in_subtree (prefix p : string) : bool :=
  bool_decide (p = prefix) || bool_decide (is_Some (after (prefix +:+ "/") p)).

Definition collectSubtree (m : gmap string ItemID) (prefix : string) : gmap string ItemID :=
  filter (λ kv, in_subtree prefix kv.1 = true) m.

(** [newPath + strings.TrimPrefix(p, oldPath)] *)
Definition moved (oldPath newPath p : string) : string := newPath +:+ default p (after oldPath p).

Fixpoint rename_loop (oldPath newPath : string) (l : list (string * ItemID)) (i : identity) : identity :=
  match l with
  | [] => i
  | (p, id) :: l =>
      let np := moved oldPath newPath p in
      rename_loop oldPath newPath l
        (mkIds (<[id := np]> (byID i)) (<[np := id]> (delete p (byPath i))) (next i))
  end.

Fixpoint remove_loop (l : list (string * ItemID)) (i : identity) : identity :=
  match l with
  | [] => i
  | (p, id) :: l => remove_loop l (mkIds (delete id (byID i)) (delete p (byPath i)) (next i))
  end.

Definition ids_rename (oldPath newPath : string) (i : identity) : identity :=
  rename_loop oldPath newPath (map_to_list (collectSubtree (byPath i) oldPath)) i.
Definition ids_remove (path : string) (i : identity) : identity :=
  remove_loop (map_to_list (collectSubtree (byPath i) path)) i.

(** ** The invariant: the two maps are inverse to each other *)

Record wf_ids (i : identity) : Prop := {
  wi_iff : ∀ id p, byID i !! id = Some p ↔ byPath i !! p = Some id;
  wi_root : byPath i !! "" = Some RootID;
  wi_next : 0 ≤ next i;
  wi_minted : ∀ n p, byID i !! Minted n = Some p → 0 < n ≤ next i;
}.

Lemma ids_wf_new : wf_ids newIdentity.
Proof.
  split; cbn [newIdentity byID byPath next].
  - intros id p. rewrite !lookup_singleton_Some. naive_solver.
  - by rewrite lookup_singleton_eq.
  - done.
  - intros n p E. apply lookup_singleton_Some in E as [? _]. done.
Qed.

Lemma wi_inj i p q id : wf_ids i → byPath i !! p = Some id → byPath i !! q = Some id → p = q.
Proof. intros Hwf Hp Hq. apply (wi_iff i Hwf) in Hp, Hq. congruence. Qed.

Lemma idFor_spec path i i' id : wf_ids i → next i < 2 ^ 64 - 1 → idFor path i = (i', id) →
  wf_ids i' ∧ pathFor id i' = Some path ∧ byPath i' !! path = Some id ∧ next i ≤ next i' ≤ next i + 1 ∧
  (∀ id' p, pathFor id' i = Some p → pathFor id' i' = Some p) ∧
  (∀ q, q ≠ path → byPath i' !! q = byPath i !! q).
Proof.
  intros Hwf Hn. unfold idFor, pathFor. destruct (byPath i !! path) as [id0|] eqn:E.
  { intros [= <- <-]. split; [done|]. split; [by apply Hwf|]. split; [done|]. split; [lia|]. done. }
  pose proof (wi_next i Hwf) as H0. assert (u64 (next i + 1) = next i + 1) as -> by (unfold u64; apply Z.mod_small; lia).
  assert (byID i !! Minted (next i + 1) = None) as Hfresh.
  { destruct (byID i !! Minted (next i + 1)) eqn:E'; [|done]. apply (wi_minted i Hwf) in E'. lia. }
  intros [= <- <-]. cbn [byID byPath next]. split; [split; cbn [byID byPath next]|].
  - intros id p. rewrite !lookup_insert_Some. rewrite <-(wi_iff i Hwf). split.
    + intros [[<- <-]|[Hne Hid]]; [by left|]. right. split; [|done]. intros <-. apply (wi_iff i Hwf) in Hid. congruence.
    + intros [[<- <-]|[Hne Hid]]; [by left|]. right. split; [|done]. intros <-. congruence.
  - rewrite lookup_insert_ne; [exact (wi_root i Hwf)|]. intros ->. rewrite (wi_root i Hwf) in E. done.
  - lia.
  - intros n p [[[= <-] _]|[Hne Hid]]%lookup_insert_Some; [lia|]. apply (wi_minted i Hwf) in Hid. lia.
  - split; [by rewrite lookup_insert_eq|]. split; [by rewrite lookup_insert_eq|]. split; [lia|]. split.
    + intros id' p Hid. rewrite lookup_insert_ne; [done|]. intros <-. congruence.
    + intros q Hq. by rewrite lookup_insert_ne.
Qed.

(** *** Removing a subtree *)

Lemma remove_loop_spec l : ∀ i, 
  (∀ id, byID (remove_loop l i) !! id = if decide (id ∈ l.*2) then None else byID i !! id) ∧
  (∀ p, byPath (remove_loop l i) !! p = if decide (p ∈ l.*1) then None else byPath i !! p) ∧
  next (remove_loop l i) = next i.
Proof.
  induction l as [|[p0 id0] l IH]; intros i; cbn [remove_loop fmap list_fmap fst snd].
  { split_and!; [intros id|intros p|done]; by rewrite decide_False by apply not_elem_of_nil. }
  destruct (IH (mkIds (delete id0 (byID i)) (delete p0 (byPath i)) (next i))) as (H1 & H2 & H3). split_and!; [| |done].
  - intros id. rewrite H1. cbn [byID]. destruct (decide (id ∈ l.*2)) as [Hi|Hi].
    + by rewrite decide_True by (by right).
    + destruct (decide (id = id0)) as [->|Hne]; [by rewrite lookup_delete_eq, decide_True by (by left)|].
      rewrite lookup_delete_ne, decide_False by (by rewrite ?elem_of_cons; naive_solver). done.
  - intros p. rewrite H2. cbn [byPath]. destruct (decide (p ∈ l.*1)) as [Hi|Hi].
    + by rewrite decide_True by (by right).
    + destruct (decide (p = p0)) as [->|Hne]; [by rewrite lookup_delete_eq, decide_True by (by left)|].
      rewrite lookup_delete_ne, decide_False by (by rewrite ?elem_of_cons; naive_solver). done.
Qed.

(** Listing a subtree, in any order. *)
Definition lists (i : identity) (prefix : string) (l : list (string * ItemID)) : Prop :=
  l ≡ₚ map_to_list (collectSubtree (byPath i) prefix).

Lemma lists_elem i prefix l p id : lists i prefix l → (p, id) ∈ l ↔ byPath i !! p = Some id ∧ in_subtree prefix p = true.
Proof. intros ->. rewrite elem_of_map_to_list. unfold collectSubtree. by rewrite map_lookup_filter_Some. Qed.

Lemma lists_fst i prefix l p : lists i prefix l → p ∈ l.*1 ↔ is_Some (byPath i !! p) ∧ in_subtree prefix p = true.
Proof.
  intros Hl. rewrite list_elem_of_fmap. split.
  - intros ([p' id] & -> & Hp). apply (lists_elem i prefix) in Hp as [? ?]; [|done]. cbn [fst]. eauto.
  - intros [[id Hid] Hs]. exists (p, id). split; [done|]. by apply (lists_elem i prefix).
Qed.

Lemma lists_snd i prefix l id : wf_ids i → lists i prefix l →
  id ∈ l.*2 ↔ ∃ p, byID i !! id = Some p ∧ in_subtree prefix p = true.
Proof.
  intros Hwf Hl. rewrite list_elem_of_fmap. split.
  - intros ([p id'] & -> & Hp). apply (lists_elem i prefix) in Hp as [? ?]; [|done]. exists p. split; [|done]. by apply Hwf.
  - intros (p & Hid & Hs). exists (p, id). split; [done|]. apply (lists_elem i prefix); [done|]. split; [|done]. by apply Hwf.
Qed.

(** *** Paths and subtrees *)

Lemma str_app_assoc (a b c : string) : (a +:+ b) +:+ c = a +:+ (b +:+ c).
Proof. induction a as [|x a IH]; [done|]. exact (f_equal (String x) IH). Qed.

Lemma after_Some p : ∀ s t, after p s = Some t ↔ s = p +:+ t.
Proof.
  induction p as [|a p IH]; intros s t; cbn [after]; [split; [by intros [= ->]|by intros ->]|].
  destruct s as [|b s]; [done|]. case_decide as Hab.
  - subst. rewrite IH. split; [by intros ->|]. by intros [= ->].
  - split; [done|]. intros [= E _]. done.
Qed.

Lemma in_subtree_spec prefix p : in_subtree prefix p = true ↔ p = prefix ∨ ∃ t, p = prefix +:+ "/" +:+ t.
Proof.
  unfold in_subtree. rewrite orb_true_iff, !bool_decide_eq_true. split; intros [H|H]; auto.
  - destruct H as [t Ht]. apply after_Some in Ht. right. exists t. by rewrite Ht, str_app_assoc.
  - destruct H as [t ->]. right. exists t. apply after_Some. by rewrite str_app_assoc.
Qed.

Lemma str_app_split a : ∀ x b y, a +:+ x = b +:+ y → (∃ z, b = a +:+ z ∧ x = z +:+ y) ∨ (∃ z, a = b +:+ z ∧ y = z +:+ x).
Proof.
  induction a as [|c a IH]; intros x b y E.
  - left. by exists b.
  - destruct b as [|d b]; [right; by exists (String c a)|]. injection E as <- E. destruct (IH x b y E) as [(z & -> & ->)|(z & -> & ->)].
    + left. by exists z.
    + right. by exists z.
Qed.

(** Two subtrees that share a path are nested. *)
Lemma subtree_nested a b q :
  in_subtree a q = true → in_subtree b q = true → in_subtree a b = true ∨ in_subtree b a = true.
Proof.
  rewrite !in_subtree_spec. intros Ha Hb.
  assert (∃ x, q = a +:+ x ∧ (x = "" ∨ ∃ t, x = "/" +:+ t)) as (x & Hx & Hx').
  { destruct Ha as [->|[t ->]]; [exists ""; split; [by rewrite app_empty_r|by left]|]. exists ("/" +:+ t). split; [done|]. right. by exists t. }
  assert (∃ y, q = b +:+ y ∧ (y = "" ∨ ∃ t, y = "/" +:+ t)) as (y & Hy & Hy').
  { destruct Hb as [->|[t ->]]; [exists ""; split; [by rewrite app_empty_r|by left]|]. exists ("/" +:+ t). split; [done|]. right. by exists t. }
  rewrite Hx in Hy. destruct (str_app_split _ _ _ _ Hy) as [(z & -> & ->)|(z & -> & ->)].
  - left. destruct z as [|c z]; [left; by rewrite app_empty_r|]. right.
    destruct Hx' as [?|[t Ht]]; [done|]. injection Ht as -> Ht. by exists z.
  - right. destruct z as [|c z]; [left; by rewrite app_empty_r|]. right.
    destruct Hy' as [?|[t Ht]]; [done|]. injection Ht as -> Ht. by exists z.
Qed.

Lemma moved_spec old new p : in_subtree old p = true →
  ∃ t, p = old +:+ t ∧ moved old new p = new +:+ t ∧ in_subtree new (moved old new p) = true.
Proof.
  intros Hp. assert (∃ t, p = old +:+ t ∧ (t = "" ∨ ∃ u, t = "/" +:+ u)) as (t & -> & Ht).
  { apply in_subtree_spec in Hp as [->|[t ->]]; [exists ""; split; [by rewrite app_empty_r|by left]|].
    exists ("/" +:+ t). split; [done|]. right. by exists t. }
  assert (after old (old +:+ t) = Some t) as E by (by apply after_Some).
  assert (moved old new (old +:+ t) = new +:+ t) as Em by (unfold moved; by rewrite E).
  exists t. split; [done|]. split; [done|]. rewrite Em. apply in_subtree_spec.
  destruct Ht as [->|[u ->]]; [left; by rewrite app_empty_r|]. right. by exists u.
Qed.

Lemma str_app_inj (a x y : string) : a +:+ x = a +:+ y → x = y.
Proof. induction a as [|c a IH]; [done|]. intros [= E]. by apply IH. Qed.

Lemma moved_inj old new p q :
  in_subtree old p = true → in_subtree old q = true → moved old new p = moved old new q → p = q.
Proof.
  intros Hp Hq E. destruct (moved_spec old new p Hp) as (t & -> & Et & _), (moved_spec old new q Hq) as (u & -> & Eu & _).
  rewrite Et, Eu in E. by apply str_app_inj in E as ->.
Qed.

(** *** Moving a subtree *)

Lemma rename_loop_spec old new l : NoDup l.*1 → NoDup l.*2 →
  (∀ p q, p ∈ l.*1 → q ∈ l.*1 → moved old new p = moved old new q → p = q) →
  (∀ p q, p ∈ l.*1 → q ∈ l.*1 → moved old new p ≠ q) → ∀ i,
  let i' := rename_loop old new l i in
  (∀ p id, (p, id) ∈ l → byPath i' !! moved old new p = Some id ∧ byID i' !! id = Some (moved old new p)) ∧
  (∀ q, q ∈ l.*1 → byPath i' !! q = None) ∧
  (∀ q, q ∉ l.*1 → (∀ p, p ∈ l.*1 → q ≠ moved old new p) → byPath i' !! q = byPath i !! q) ∧
  (∀ id, id ∉ l.*2 → byID i' !! id = byID i !! id) ∧ next i' = next i.
Proof.
  induction l as [|[p0 id0] l IH]; intros Hnp Hni Hinj Hdis i; cbn [rename_loop].
  { split_and!; try done; intros *; by intros ?%elem_of_nil. }
  cbn [fmap list_fmap fst snd] in *. apply NoDup_cons in Hnp as [Hp0 Hnp], Hni as [Hi0 Hni].
  set (i1 := mkIds _ _ _). destruct (IH Hnp Hni) with (i := i1) as (Ha & Hb & Hc & Hd & He).
  { intros p q Hp Hq. apply Hinj; by right. } { intros p q Hp Hq. apply Hdis; by right. }
  assert (∀ p, p ∈ l.*1 → moved old new p0 ≠ moved old new p) as Hne.
  { intros p Hp E. apply Hp0. rewrite (Hinj p0 p); [done|by left|by right|done]. }
  assert (moved old new p0 ∉ l.*1) as Hnl by (intros H; apply (Hdis p0 (moved old new p0)); [by left|by right|done]).
  cbn zeta in *. split_and!.
  - intros p id [[= -> ->]|Hin]%elem_of_cons; [|by apply Ha]. split.
    + rewrite Hc by done. cbn [i1 byPath]. by rewrite lookup_insert_eq.
    + rewrite Hd by done. cbn [i1 byID]. by rewrite lookup_insert_eq.
  - intros q [->|Hq]%elem_of_cons; [|by apply Hb]. rewrite Hc; [| |].
    + cbn [i1 byPath]. rewrite lookup_insert_ne by (apply Hdis; by left). by rewrite lookup_delete_eq.
    + done.
    + intros p Hp E. apply (Hdis p p0); [by right|by left|done].
  - intros q [Hq0 Hq]%not_elem_of_cons Hqm. rewrite Hc; [|done|intros p Hp; apply Hqm; by right].
    cbn [i1 byPath]. rewrite lookup_insert_ne by (apply not_eq_sym, Hqm; by left). by rewrite lookup_delete_ne.
  - intros id [Hid0 Hid]%not_elem_of_cons. rewrite Hd by done. cbn [i1 byID]. by rewrite lookup_insert_ne.
  - done.
Qed.

Lemma lists_NoDup i prefix l : wf_ids i → lists i prefix l → NoDup l.*1 ∧ NoDup l.*2.
Proof.
  intros Hwf Hl. assert (NoDup l.*1) as H1 by (unfold lists in Hl; rewrite Hl; apply NoDup_fst_map_to_list).
  split; [done|].
  assert (NoDup l) as Hnd by (by eapply NoDup_fmap_1).
  apply NoDup_fmap_2_strong; [|done]. intros [p id] [q id'] Hp Hq E. cbn [snd] in E. subst id'.
  apply (lists_elem i prefix) in Hp as [Hp _], Hq as [Hq _]; [|done..]. by rewrite (wi_inj i p q id Hwf Hp Hq).
Qed.

Lemma rename_loop_apart i old new l :
  wf_ids i → lists i old l →
  (∀ p q, p ∈ l.*1 → q ∈ l.*1 → moved old new p ≠ q) →
  let i' := rename_loop old new l i in
  (∀ p id, (p, id) ∈ l → byPath i' !! moved old new p = Some id ∧ byID i' !! id = Some (moved old new p)) ∧
  (∀ q, q ∈ l.*1 → byPath i' !! q = None) ∧
  (∀ q, q ∉ l.*1 → (∀ p, p ∈ l.*1 → q ≠ moved old new p) → byPath i' !! q = byPath i !! q) ∧
  (∀ id, id ∉ l.*2 → byID i' !! id = byID i !! id) ∧ next i' = next i.
Proof.
  intros Hwf Hl Hdis. destruct (lists_NoDup i old l Hwf Hl) as [H1 H2]. apply rename_loop_spec; [done..| |done].
  intros p q [_ Hp]%(lists_fst i old l) [_ Hq]%(lists_fst i old l); [|done..]. by apply moved_inj.
Qed.

(** A subtree moved to a place where nothing is known yet. *)
Lemma rename_spec i old new l :
  wf_ids i → lists i old l → old ≠ "" → (∀ q, in_subtree new q = true → byPath i !! q = None) →
  let i' := rename_loop old new l i in
  wf_ids i' ∧ next i' = next i ∧
  ∀ id p, pathFor id i = Some p → pathFor id i' = Some (if in_subtree old p then moved old new p else p).
Proof.
  intros Hwf Hl Hold Hfree.
  assert (∀ p, p ∈ l.*1 → is_Some (byPath i !! p) ∧ in_subtree old p = true) as Hin by (intros p; by apply lists_fst).
  assert (∀ p, p ∈ l.*1 → byPath i !! moved old new p = None) as Hnew.
  { intros p Hp. apply Hfree. destruct (moved_spec old new p) as (_ & _ & _ & H); [by apply Hin|done]. }
  destruct (rename_loop_apart i old new l Hwf Hl) as (Ha & Hb & Hc & Hd & He).
  { intros p q Hp Hq E. specialize (Hnew p Hp). rewrite E in Hnew. destruct (Hin q Hq) as [[id Hid] _]. congruence. }
  cbn zeta. set (i' := rename_loop old new l i) in *.
  assert (∀ id p, pathFor id i = Some p → pathFor id i' = Some (if in_subtree old p then moved old new p else p)) as Hpath.
  { intros id p Hp. unfold pathFor in *. destruct (in_subtree old p) eqn:Es.
    - apply Ha. apply (lists_elem i old l); [done|]. split; [by apply Hwf|done].
    - rewrite Hd; [done|]. intros (p' & Hp' & Hs)%(lists_snd i old l); [|done..]. congruence. }
  assert (byPath i' !! "" = Some RootID) as Hroot.
  { rewrite Hc; [exact (wi_root i Hwf)| |].
    - intros [_ Hs]%Hin. apply in_subtree_spec in Hs as [?|[t Ht]]; [done|]. by destruct old.
    - intros p Hp E. specialize (Hnew p Hp). rewrite <-E, (wi_root i Hwf) in Hnew. done. }
  split; [|by split]. split; [|done|rewrite He; apply Hwf|].
  - intros id p. split.
    + intros Hp. destruct (byID i !! id) as [p0|] eqn:E0.
      2:{ rewrite Hd in Hp; [congruence|]. intros (p' & Hp' & _)%(lists_snd i old l); [|done..]. congruence. }
      specialize (Hpath id p0 E0). unfold pathFor in Hpath. rewrite Hp in Hpath. injection Hpath as ->.
      destruct (in_subtree old p0) eqn:Es.
      * apply (Ha p0 id). apply (lists_elem i old l); [done|]. split; [by apply Hwf|done].
      * rewrite Hc; [by apply Hwf| |].
        -- intros [_ Hs]%Hin. congruence.
        -- intros p' Hp' ->. apply (wi_iff i Hwf) in E0. rewrite Hnew in E0 by done. done.
    + intros Hp. destruct (decide (p ∈ l.*1)) as [Hl1|Hl1]; [rewrite Hb in Hp by done; done|].
      destruct (decide (p ∈ moved old new <$> l.*1)) as [(p' & -> & Hp')%list_elem_of_fmap|Hno].
      * apply list_elem_of_fmap in Hp' as ([p1 id1] & -> & Hp1). destruct (Ha p1 id1 Hp1) as [H1 H2]. cbn [fst] in *. congruence.
      * rewrite Hc in Hp; [|done|intros p' Hp' ->; apply Hno; by apply list_elem_of_fmap_2].
        apply (wi_iff i Hwf) in Hp. rewrite Hd; [done|]. intros (p' & Hp' & Hs)%(lists_snd i old l); [|done..].
        apply Hl1. apply (lists_fst i old l); [done|]. assert (p' = p) as -> by congruence. split; [|done].
        exists id. by apply Hwf.
  - intros n p Hp. rewrite He. destruct (byID i !! Minted n) as [p0|] eqn:E0; [by eapply wi_minted|].
    rewrite Hd in Hp; [congruence|]. intros (p' & Hp' & _)%(lists_snd i old l); [|done..]. congruence.
Qed.

Lemma remove_spec i path l : wf_ids i → lists i path l → path ≠ "" →
  let i' := remove_loop l i in
  wf_ids i' ∧ next i' = next i ∧ ∀ id, pathFor id i' = match pathFor id i with
    | Some p => if in_subtree path p then None else Some p | None => None end.
Proof.
  intros Hwf Hl Hpath. destruct (remove_loop_spec l i) as (H1 & H2 & H3). cbn zeta. set (i' := remove_loop l i) in *.
  assert (∀ id, byID i' !! id = match byID i !! id with Some p => if in_subtree path p then None else Some p | None => None end) as HID.
  { intros id. rewrite H1. destruct (byID i !! id) as [p|] eqn:E.
    - destruct (in_subtree path p) eqn:Es.
      + rewrite decide_True; [done|]. apply (lists_snd i path l); [done..|]. by exists p.
      + rewrite decide_False; [done|]. intros (p' & ? & ?)%(lists_snd i path l); [|done..]. congruence.
    - by case_decide. }
  split; [|by split]. split.
  - intros id p. rewrite HID, H2. destruct (decide (p ∈ l.*1)) as [Hp|Hp].
    + apply (lists_fst i path l) in Hp as [[id0 Hid0] Hs]; [|done]. split; [|done].
      destruct (byID i !! id) as [p1|] eqn:E; [|done]. destruct (in_subtree path p1) eqn:Es; [done|]. intros [= ->]. congruence.
    + rewrite <-(wi_iff i Hwf). destruct (byID i !! id) as [p1|] eqn:E; [|done]. destruct (in_subtree path p1) eqn:Es; [|done].
      split; [done|]. intros [= ->]. exfalso. apply Hp, (lists_fst i path l); [done|]. split; [|done]. exists id. by apply Hwf.
  - rewrite H2, decide_False; [exact (wi_root i Hwf)|]. intros [_ Hs]%(lists_fst i path l); [|done].
    apply in_subtree_spec in Hs as [?|[t Ht]]; [done|]. by destruct path.
  - rewrite H3. apply Hwf.
  - intros n p. rewrite HID, H3. destruct (byID i !! Minted n) as [p1|] eqn:E; [|done].
    destruct (in_subtree path p1); [done|]. intros _. by eapply wi_minted.
Qed.

(** ** Claims *)

(** Identifiers are stable: idFor, remove and rename keep the two maps
    inverse to each other, in whatever order Go iterates over the subtree. idFor
    disturbs no identifier; remove retires exactly those of the subtree; rename to
    a place where no path is known yet gives every item of the subtree its new
    path under its old identifier and leaves the others alone. *)
Theorem identity_stable i :
  wf_ids i →
  (∀ path i' id, next i < 2 ^ 64 - 1 → idFor path i = (i', id) →
    wf_ids i' ∧ pathFor id i' = Some path ∧ ∀ id' p, pathFor id' i = Some p → pathFor id' i' = Some p) ∧
  (∀ path l, path ≠ "" → l ≡ₚ map_to_list (collectSubtree (byPath i) path) →
    wf_ids (remove_loop l i) ∧
    ∀ id, pathFor id (remove_loop l i) =
      match pathFor id i with Some p => if in_subtree path p then None else Some p | None => None end) ∧
  (∀ old new l, old ≠ "" → (∀ q, in_subtree new q = true → byPath i !! q = None) →
    l ≡ₚ map_to_list (collectSubtree (byPath i) old) →
    wf_ids (rename_loop old new l i) ∧
    ∀ id p, pathFor id i = Some p →
      pathFor id (rename_loop old new l i) = Some (if in_subtree old p then moved old new p else p)).
Proof.
  intros Hwf. split_and!.
  - intros path i' id Hn E. destruct (idFor_spec path i i' id Hwf Hn E) as (? & ? & _ & _ & ? & _). done.
  - intros path l Hp Hl. by destruct (remove_spec i path l Hwf Hl Hp) as (? & _ & ?).
  - intros old new l Ho Hf Hl. by destruct (rename_spec i old new l Hwf Hl Ho Hf) as (? & _ & ?).
Qed.

Definition ex_ids : identity := (idFor "b" (idFor "a/x" (idFor "a" newIdentity).1).1).1.

Lemma idFor_wf path i : wf_ids i → (next i <? 2 ^ 64 - 1) = true → wf_ids (idFor path i).1.
Proof.
  intros Hwf Hn%Z.ltb_lt. destruct (idFor path i) as [i' id] eqn:E. by apply (idFor_spec path i i' id) in E as (? & _).
Qed.

Lemma ex_ids_wf : wf_ids ex_ids.
Proof. repeat apply idFor_wf; try (vm_compute; reflexivity). apply ids_wf_new. Qed.

Lemma identity_stable_witness :
  pathFor (Minted 2) (ids_rename "a" "c" ex_ids) = Some "c/x" ∧ wf_ids (ids_rename "a" "c" ex_ids).
Proof.
  destruct (proj2 (proj2 (identity_stable ex_ids ex_ids_wf)) "a" "c" (map_to_list (collectSubtree (byPath ex_ids) "a"))) as [Hw Hp].
  - discriminate.
  - intros q Hq. destruct (byPath ex_ids !! q) as [id|] eqn:E; [|reflexivity].
    assert (q ∈ (map_to_list (byPath ex_ids)).*1) as Hin.
    { apply list_elem_of_fmap. exists (q, id). split; [reflexivity|]. by apply elem_of_map_to_list. }
    exfalso. revert Hq. assert (Forall (λ q, in_subtree "c" q = false) (map_to_list (byPath ex_ids)).*1) as HF.
    { refine (proj1 (bool_decide_eq_true _) _). vm_compute. reflexivity. }
    rewrite Forall_forall in HF. rewrite HF by exact Hin. discriminate.
  - reflexivity.
  - split; [|exact Hw]. exact (Hp (Minted 2) "a/x" eq_refl).
Defined.

(** Renaming onto a path that already has an identifier: the overwritten
    item's identifier is not retired, so two identifiers resolve to the same path
    and the maps are no longer inverse. *)
Theorem identity_rename_alias i old new id1 id2 :
  wf_ids i → byPath i !! old = Some id1 → byPath i !! new = Some id2 →
  in_subtree old new = false → in_subtree new old = false →
  id1 ≠ id2 ∧ pathFor id1 (ids_rename old new i) = Some new ∧ pathFor id2 (ids_rename old new i) = Some new ∧
  ¬ wf_ids (ids_rename old new i).
Proof.
  intros Hwf H1 H2 Hn1 Hn2. set (l := map_to_list (collectSubtree (byPath i) old)).
  assert (lists i old l) as Hl by (unfold lists; reflexivity).
  assert (id1 ≠ id2) as Hne.
  { intros ->. rewrite (wi_inj i old new id2 Hwf H1 H2) in Hn1. by rewrite (proj2 (in_subtree_spec new new)) in Hn1 by (by left). }
  destruct (rename_loop_apart i old new l Hwf Hl) as (Ha & _ & _ & Hd & _).
  { intros p q [_ Hp]%(lists_fst i old l) [_ Hq]%(lists_fst i old l) E; [|done..].
    destruct (moved_spec old new p Hp) as (_ & _ & _ & Hm). rewrite E in Hm.
    destruct (subtree_nested old new q Hq Hm); congruence. }
  assert (pathFor id1 (ids_rename old new i) = Some new) as E1.
  { unfold pathFor, ids_rename. fold l. destruct (Ha old id1) as [_ ->].
    - apply (lists_elem i old l); [done|]. split; [done|]. apply in_subtree_spec. by left.
    - f_equal. destruct (moved_spec old new old) as (t & Et & -> & _); [apply in_subtree_spec; by left|].
      assert (t = "") as -> by (apply (str_app_inj old); by rewrite app_empty_r). apply app_empty_r. }
  assert (pathFor id2 (ids_rename old new i) = Some new) as E2.
  { unfold pathFor, ids_rename. fold l. rewrite Hd; [by apply Hwf|].
    intros (p & Hp & Hs)%(lists_snd i old l); [|done..]. apply (wi_iff i Hwf) in Hp.
    rewrite (wi_inj i p new id2 Hwf Hp H2) in Hs. congruence. }
  split_and!; [done..|]. intros Hwf'. apply Hne. apply (wi_iff _ Hwf') in E1, E2. congruence.
Qed.

Lemma identity_rename_alias_witness :
  pathFor (Minted 1) (ids_rename "a" "b" ex_ids) = Some "b" ∧ pathFor (Minted 3) (ids_rename "a" "b" ex_ids) = Some "b".
Proof.
  destruct (identity_rename_alias ex_ids "a" "b" (Minted 1) (Minted 3) ex_ids_wf eq_refl eq_refl eq_refl eq_refl) as (_ & H1 & H2 & _).
  exact (conj H1 H2).
Defined.
