(* ===== verification/Provider.v ===== *)
(** * internal/provider: provider.go and manifest.go

    The filesystem surface over the namespace: items addressed by stable
    identifiers, listed and read from the current root, and changed by grafting a
    new child and committing a signed root pointer through a RootStore. The state
    is threaded by a small monad, [M]. A call receives the time its commit
    signs. *)

From Stdlib Require Import Ascii.
From S2P Require Import Prelude GoLib Store Crypto Stripe Erasure Chunk Pipeline Blobs.
From S2P Require Import Wire Codec Manifest Namespace Merge Files Root Discovery RootStores Identity.

(** ** Items *)

Record ItemVersion := mkVer { iv_Content : bytes; iv_Meta : bytes }.

Definition CapRead : Z := 1.
Definition CapWrite : Z := 2.
Definition CapRename : Z := 4.
Definition CapReparent : Z := 8.
Definition CapDelete : Z := 16.
Definition CapAddSubItems : Z := 32.
Definition CapEnumerate : Z := 64.

Record Item := mkItem {
  it_ID : ItemID; it_Parent : ItemID; it_Name : string; it_IsDir : bool; it_IsLink : bool; it_Size : Z;
  it_Version : ItemVersion; it_Meta : Metadata; it_Caps : Z; it_Cap : ReadCap }.

(** [cq_Contents = None]: a nil reader. *)
Record CreateRequest := mkCreate { cq_Name : string; cq_IsDir : bool; cq_Meta : Metadata; cq_Contents : option Reader }.
Record ModifyRequest := mkModify { mq_Contents : option Reader; mq_Meta : option Metadata }.

Inductive ChangeType := ChangeAdded | ChangeModified | ChangeDeleted.
Record Change := mkChange { ch_Type : ChangeType; ch_ID : ItemID; ch_Path : string; ch_Item : option Item }.

Inductive prov_err :=
| PNotFound                      (* provider: item not found *)
| PManifest (e : manifest_err) | PPipeline (e : pipeline_err)
| PNoName | PRootFixed | PRootEntry | PNotDirectory (p : string) | PNotFile (p : string)
| PLoadRoot (e : rs_err) | PBadRootSig | PForeignRoot | PSign (e : manifest_err) | PPublish (e : rs_err).

(** ** Paths *)

Definition join (parentPath name : string) : string :=
  if decide (parentPath = "") then name else parentPath +:+ "/" +:+ name.

(** The part before the last slash and the part after it; [seen] is what the
    scan has passed since the last slash. *)
Fixpoint last_slash (s : string) : option (string * string) :=
  match s with
  | EmptyString => None
  | String c s =>
      match last_slash s with
      | Some (a, b) => Some (String c a, b)
      | None => if decide (c = "/"%char) then Some ("", s) else None
      end
  end.

Definition parentAndBase (path : string) : string * string := default ("", path) (last_slash path).

(** [fs.ModeDir | 0o755] *)
Definition ModeDir : Z := 2 ^ 31.
Definition dirMode : Z := Z.lor ModeDir 493.

Definition capsFor (isDir : bool) (mode : Z) : Z :=
  let caps := Z.lor CapRead (Z.lor CapRename (Z.lor CapReparent CapDelete)) in
  if isDir then Z.lor caps (Z.lor CapWrite (Z.lor CapAddSubItems CapEnumerate))
  else if (mode =? 0) || negb (Z.land (Z.land mode 511) 128 =? 0) then Z.lor caps CapWrite
  else caps.

Definition statFromManifest (fm : FileManifest) : StatCache :=
  mkStat KindFile (fm_Size fm) (md_Mode (fm_Meta fm)) (md_ModTimeNS (fm_Meta fm))
    (md_ContentVersion (fm_Meta fm)) (md_MetaVersion (fm_Meta fm)).

Definition dirStat (meta : Metadata) : StatCache := mkStat KindDir 0 (md_Mode meta) (md_ModTimeNS meta) [] [].

(** [pipeline.Metadata{Mode: mode, ModTimeNS: t}] *)
Definition lightMeta (mode modTimeNS : Z) : Metadata := mkMeta mode 0 0 modTimeNS 0 0 0 0 "" "" ∅ [] [].

Definition hashCap `{Sha256, Json readCapJSON} (c : ReadCap) : bytes :=
  match cap_MarshalBinary c with Ok b => take 16 (Sum256 b) | Err _ => [] end.

Definition prov_capEqual `{Json readCapJSON} (a b : ReadCap) : bool :=
  match cap_MarshalBinary a, cap_MarshalBinary b with Ok x, Ok y => bool_decide (x = y) | _, _ => false end.

(** ** The provider *)

Record Provider (W R : Type) := mkProv {
  p_store : W; p_roots : R; p_ids : identity; p_root : ReadCap; p_seq : Z }.
Arguments mkProv {W R}.
Arguments p_store {W R}.
Arguments p_roots {W R}.
Arguments p_ids {W R}.
Arguments p_root {W R}.
Arguments p_seq {W R}.

(** State and error. *)
Definition M (P A : Type) : Type := P → P * result prov_err A.
Definition ret {P A} (a : A) : M P A := λ p, (p, Ok a).
Definition fail {P A} (e : prov_err) : M P A := λ p, (p, Err e).
Definition bind {P A B} (m : M P A) (k : A → M P B) : M P B :=
  λ p, let '(p, r) := m p in match r with Ok a => k a p | Err e => (p, Err e) end.
Notation "'let!' x ':=' m 'in' k" := (bind m (λ x, k)) (at level 10, x pattern, m at level 100, k at level 200).
Definition of_opt {P A} (e : prov_err) (o : option A) : M P A := match o with Some a => ret a | None => fail e end.

Section provider.
Context `{Hsha : Sha256} `{Hed : Ed25519} `{Hcj : Json readCapJSON} `{Hj : DirJson} `{Hfj : !FileJson}.
Context {W : Type} `{Hb : !Blobs W} {R : Type} `{Hrs : !RootStore R}.
Context (cfg : Config) (signer : bytes).
Abbreviation P := (Provider W R).
Implicit Types (p : P).

(** Reading and writing the store, minting identifiers. *)
Definition reads {A} (f : W → result manifest_err A) : M P A := λ p, (p, map_err PManifest (f (p_store p))).
Definition writes {A} (f : W → W * result manifest_err A) : M P A := λ p,
  let '(w, r) := f (p_store p) in (mkProv w (p_roots p) (p_ids p) (p_root p) (p_seq p), map_err PManifest r).
Definition stores_file (r : Reader) : M P FileManifest := λ p,
  let '(w, res) := file_put cfg r (p_store p) in (mkProv w (p_roots p) (p_ids p) (p_root p) (p_seq p), map_err PPipeline res).
Definition id_for (path : string) : M P ItemID := λ p,
  let '(i, id) := idFor path (p_ids p) in (mkProv (p_store p) (p_roots p) i (p_root p) (p_seq p), Ok id).
Definition path_of (id : ItemID) : M P string := λ p, of_opt PNotFound (pathFor id (p_ids p)) p.
Definition get_root : M P ReadCap := λ p, (p, Ok (p_root p)).
Definition with_ids (f : identity → identity) : M P unit := λ p,
  (mkProv (p_store p) (p_roots p) (f (p_ids p)) (p_root p) (p_seq p), Ok tt).

(** Sign and save a pointer to [newRoot]; the sequence number is taken back on
    failure. *)
Definition commit (now : Z) (newRoot : ReadCap) : M P unit := λ p,
  let seq := u64 (p_seq p + 1) in
  match SignRoot signer newRoot seq now with
  | Err e => (p, Err (PSign e))
  | Ok rp =>
      let '(roots, r) := rs_Save rp (p_roots p) in
      match r with
      | Err e => (mkProv (p_store p) roots (p_ids p) (p_root p) (p_seq p), Err (PPublish e))
      | Ok _ => (mkProv (p_store p) roots (p_ids p) newRoot seq, Ok tt)
      end
  end.

(** The tail that CreateItem and ModifyItem share: graft the child, commit. *)
Definition graft_commit (now : Z) (path : string) (child : ReadCap) (stat : StatCache) : M P unit :=
  let! root := get_root in
  let! newRoot := writes (Graft cfg root path child stat) in
  commit now newRoot.

(** [New] on a store [w] and root store [roots]; on failure there is no
    provider. *)
Definition New (now : Z) (w : W) (roots : R) : P * result prov_err unit :=
  let '(roots, r) := rs_Load roots in
  let p := mkProv w roots newIdentity zeroCap 0 in
  match r with
  | Err e => (p, Err (PLoadRoot e))
  | Ok (Some rp) =>
      if negb (root_Verify rp) then (p, Err PBadRootSig)
      else if decide (rp_Owner rp ≠ Public signer) then (p, Err PForeignRoot)
      else (mkProv w roots newIdentity (rp_Root rp) (rp_Seq rp), Ok tt)
  | Ok None =>
      (let! empty := writes (StoreDir cfg (NewDir (lightMeta dirMode 0))) in commit now empty) p
  end.

(** [it.ID] is minted before [it.Parent]. *)
Definition itemFromEntry (parentPath : string) (e : Entry) : M P Item :=
  let! id := id_for (join parentPath (e_Name e)) in
  let! parent := id_for parentPath in
  let isDir := bool_decide (rc_Kind (e_Cap e) = KindDir) in
  let content := match sc_ContentVersion (e_Stat e) with [] => hashCap (e_Cap e) | c => c end in
  ret (mkItem id parent (e_Name e) isDir (negb (Z.land (sc_Mode (e_Stat e)) ModeSymlink =? 0)) (sc_Size (e_Stat e))
    (mkVer content (sc_MetaVersion (e_Stat e))) (lightMeta (sc_Mode (e_Stat e)) (sc_ModTimeNS (e_Stat e)))
    (capsFor isDir (sc_Mode (e_Stat e))) (e_Cap e)).

(** The directory at [path] under [root]. *)
Definition dir_of (root : ReadCap) (path : string) : M P DirManifest :=
  let! c := reads (Resolve root path) in
  if decide (rc_Kind c ≠ KindDir) then fail (PNotDirectory path) else reads (LoadDir c).

Definition entryOf (root : ReadCap) (path : string) : M P Entry :=
  if decide (path = "") then fail PRootEntry
  else
    let '(parent, base) := parentAndBase path in
    let! d := dir_of root parent in
    of_opt PNotFound (Lookup d base).

Definition prov_Root : M P ItemID := ret RootID.

Definition Stat (id : ItemID) : M P Item :=
  let! path := path_of id in
  let! root := get_root in
  if decide (path = "") then
    let! d := reads (LoadDir root) in
    ret (mkItem RootID RootID "" true false 0 (mkVer (hashCap root) []) (dm_Meta d) (capsFor true (md_Mode (dm_Meta d))) root)
  else
    let! e := entryOf root path in
    let! it := itemFromEntry (parentAndBase path).1 e in
    let set it meta size ver := mkItem (it_ID it) (it_Parent it) (it_Name it) (it_IsDir it) (it_IsLink it) size ver meta
      (it_Caps it) (it_Cap it) in
    match rc_Kind (e_Cap e) with
    | KindFile =>
        let! fm := reads (LoadFileManifest (e_Cap e)) in
        ret (set it (fm_Meta fm) (fm_Size fm)
          (match md_ContentVersion (fm_Meta fm) with
           | [] => it_Version it
           | _ => mkVer (md_ContentVersion (fm_Meta fm)) (md_MetaVersion (fm_Meta fm)) end))
    | KindDir =>
        let! d := reads (LoadDir (e_Cap e)) in ret (set it (dm_Meta d) (it_Size it) (it_Version it))
    | KindOther _ => ret it
    end.

Definition prov_Lookup (parent : ItemID) (name : string) : M P Item :=
  let! parentPath := path_of parent in
  let! root := get_root in
  let! d := dir_of root parentPath in
  let! e := of_opt PNotFound (Lookup d name) in
  itemFromEntry parentPath e.

Fixpoint items_of (dirPath : string) (es : list Entry) : M P (list Item) :=
  match es with
  | [] => ret []
  | e :: es => let! it := itemFromEntry dirPath e in let! its := items_of dirPath es in ret (it :: its)
  end.

Definition Enumerate (dir : ItemID) : M P (list Item) :=
  let! dirPath := path_of dir in
  let! root := get_root in
  let! d := dir_of root dirPath in
  items_of dirPath (dm_Entries d).

(** What reached the writer, and the result. *)
Definition FetchContents (id : ItemID) p : bytes * result prov_err ItemVersion :=
  match pathFor id (p_ids p) with
  | None => ([], Err PNotFound)
  | Some path =>
      match Resolve (p_root p) path (p_store p) with
      | Err e => ([], Err (PManifest e))
      | Ok c =>
          if decide (rc_Kind c ≠ KindFile) then ([], Err (PNotFile path))
          else match LoadFileManifest c (p_store p) with
               | Err e => ([], Err (PManifest e))
               | Ok fm =>
                   let ver := mkVer (md_ContentVersion (fm_Meta fm)) (md_MetaVersion (fm_Meta fm)) in
                   if IsSymlink (fm_Meta fm) then ([], Ok ver)
                   else match file_get fm (p_store p) with
                        | (out, Ok _) => (out, Ok ver)
                        | (out, Err e) => (out, Err (PPipeline e))
                        end
               end
      end
  end.

Definition Evict (id : ItemID) : M P unit := let! _ := path_of id in ret tt.

(** The manifest of a new file: no data for a symlink or without a reader. *)
Definition build_file (meta : Metadata) (contents : option Reader) : M P FileManifest :=
  match IsSymlink meta, contents with
  | false, Some r => stores_file r
  | _, _ => ret (mkFile "" cfg 0 zeroMeta [])
  end.

Definition buildChild (name : string) (isDir : bool) (meta : Metadata) (contents : option Reader) : M P (ReadCap * StatCache) :=
  if isDir then
    let! c := writes (StoreDir cfg (NewDir meta)) in ret (c, dirStat meta)
  else
    let! fm := build_file meta contents in
    let fm := DeriveVersions (mkFile name (fm_Params fm) (fm_Size fm) meta (fm_Chunks fm)) in
    let! c := writes (StoreFileManifest cfg fm) in
    ret (c, statFromManifest fm).

Definition CreateItem (now : Z) (parent : ItemID) (req : CreateRequest) : M P Item :=
  if decide (cq_Name req = "") then fail PNoName
  else
    let! parentPath := path_of parent in
    let childPath := join parentPath (cq_Name req) in
    let! (childCap, stat) := buildChild (cq_Name req) (cq_IsDir req) (cq_Meta req) (cq_Contents req) in
    let! _ := graft_commit now childPath childCap stat in
    itemFromEntry parentPath (mkEntry (cq_Name req) childCap stat).

(** The new blob of a modified entry. *)
Definition modifyChild (e : Entry) (req : ModifyRequest) : M P (ReadCap * StatCache) :=
  match rc_Kind (e_Cap e) with
  | KindDir =>
      let! d := reads (LoadDir (e_Cap e)) in
      let d := mkDir (default (dm_Meta d) (mq_Meta req)) (dm_Entries d) in
      let! c := writes (StoreDir cfg d) in
      ret (c, dirStat (dm_Meta d))
  | KindFile =>
      let! fm := reads (LoadFileManifest (e_Cap e)) in
      let meta := default (fm_Meta fm) (mq_Meta req) in
      let! fm := match mq_Contents req with
                 | Some r =>
                     let! nfm := stores_file r in
                     ret (mkFile (fm_Name fm) (fm_Params nfm) (fm_Size nfm) meta (fm_Chunks nfm))
                 | None => ret (mkFile (fm_Name fm) (fm_Params fm) (fm_Size fm) meta (fm_Chunks fm))
                 end in
      let fm := DeriveVersions fm in
      let! c := writes (StoreFileManifest cfg fm) in
      ret (c, statFromManifest fm)
  | KindOther _ => ret (zeroCap, mkStat KindFile 0 0 0 [] [])
  end.

Definition ModifyItem (now : Z) (id : ItemID) (req : ModifyRequest) : M P Item :=
  let! path := path_of id in
  if decide (path = "") then fail PRootFixed
  else match mq_Contents req, mq_Meta req with
       | None, None => Stat id
       | _, _ =>
           let! root := get_root in
           let! e := entryOf root path in
           let! (newCap, stat) := modifyChild e req in
           let! _ := graft_commit now path newCap stat in
           let '(parent, name) := parentAndBase path in
           itemFromEntry parent (mkEntry name newCap stat)
       end.

Definition DeleteItem (now : Z) (id : ItemID) : M P unit :=
  let! path := path_of id in
  if decide (path = "") then fail PRootFixed
  else
    let! root := get_root in
    let! newRoot := writes (GraftRemove cfg root path) in
    let! _ := commit now newRoot in
    with_ids (ids_remove path).

Definition Rename (now : Z) (id newParent : ItemID) (newName : string) : M P Item :=
  let! oldPath := path_of id in
  if decide (oldPath = "") then fail PRootFixed
  else if decide (newName = "") then fail PNoName
  else
    let! newParentPath := path_of newParent in
    let newPath := join newParentPath newName in
    if decide (newPath = oldPath) then Stat id
    else
      let! root := get_root in
      let! e := entryOf root oldPath in
      let! grafted := writes (Graft cfg root newPath (e_Cap e) (e_Stat e)) in
      let! newRoot := writes (GraftRemove cfg grafted oldPath) in
      let! _ := commit now newRoot in
      let! _ := with_ids (ids_rename oldPath newPath) in
      itemFromEntry newParentPath (mkEntry newName (e_Cap e) (e_Stat e)).
End provider.

(** ** Paths by components *)

Lemma join_slash_snoc parts name : Forall normal parts → join (join_slash parts) name = join_slash (parts ++ [name]).
Proof.
  unfold join. destruct parts as [|x parts]; intros Hn; [done|].
  rewrite decide_False.
  2:{ apply Forall_cons in Hn as [[Hx _] _]. destruct x as [|c x]; [done|]. by destruct parts. }
  clear Hn. revert x. induction parts as [|y parts IH]; intros x; [done|].
  change (join_slash (x :: y :: parts)) with (x +:+ "/" +:+ join_slash (y :: parts)).
  change (join_slash ((x :: y :: parts) ++ [name])) with (x +:+ "/" +:+ join_slash ((y :: parts) ++ [name])).
  rewrite <-IH, !str_app_assoc. done.
Qed.

Lemma last_slash_none name : has_slash name = false → last_slash name = None.
Proof.
  induction name as [|c name IH]; intros Hn; [done|]. cbn [has_slash] in Hn. apply orb_false_iff in Hn as [Hc Hn].
  cbn [last_slash]. rewrite IH by done. apply bool_decide_eq_false in Hc. by rewrite decide_False.
Qed.

Lemma last_slash_app a name : has_slash name = false → last_slash (a +:+ "/" +:+ name) = Some (a, name).
Proof.
  intros Hn. induction a as [|c a IH].
  - change ("" +:+ "/" +:+ name) with (String "/" name). cbn [last_slash]. rewrite last_slash_none by done. by rewrite decide_True.
  - change (String c a +:+ "/" +:+ name) with (String c (a +:+ "/" +:+ name)). cbn [last_slash]. by rewrite IH.
Qed.

Lemma parentAndBase_snoc parts name : Forall normal (parts ++ [name]) →
  parentAndBase (join_slash (parts ++ [name])) = (join_slash parts, name) ∧ join_slash (parts ++ [name]) ≠ "".
Proof.
  intros [Hp Hn]%Forall_app. apply Forall_cons in Hn as [(Hne & _ & _ & Hs) _].
  rewrite <-join_slash_snoc by done. unfold join, parentAndBase. case_decide as E.
  - rewrite last_slash_none by done. rewrite E. done.
  - rewrite last_slash_app by done. split; [done|]. by destruct (join_slash parts).
Qed.

(** ** Correctness *)

(** A provider with another store. *)
Definition set_store {W R} (p : Provider W R) (w : W) : Provider W R := mkProv w (p_roots p) (p_ids p) (p_root p) (p_seq p).

Section correctness.
Context `{Hsha : Sha256} `{Hed : Ed25519} `{Hcj : Json readCapJSON} `{Hj : DirJson} `{Hfj : !FileJson}.
Context {W : Type} `{Hb : !Blobs W} {R : Type} `{Hrs : !RootStore R}.
Context (cfg : Config) (signer : bytes).
Context {w_ok clean : W → Prop} {holds : W → Params → ChunkRef → bytes → Prop}.
Context `{HL : !BlobLaws W cfg w_ok clean holds}.
Context {rok : R → Prop} {sv : RootPointer → Prop} {view : R → option RootPointer}.
Context (HR : RootStoreLaws R rok sv view).
(** The codec represents every cap, and every pointer this owner signs can be
    saved. *)
Context (Hcaps : ∀ c, cap_ok c → json_ok (cap_to_json c)).
Context (Hsv : ∀ rp, rp_Owner rp = Public signer → cap_ok (rp_Root rp) → sv rp).
Abbreviation P := (Provider W R).
Abbreviation extends := (ext (w_ok := w_ok) (holds := holds)).
Abbreviation is_dir := (dir_at (holds := holds)).
Abbreviation leads := (walk (holds := holds)).
Abbreviation is_file := (file_at cfg (holds := holds)).
Implicit Types (p : P) (w : W).

Record prov_ok p : Prop := {
  po_store : w_ok (p_store p);
  po_roots : rok (p_roots p);
  po_ids : wf_ids (p_ids p);
  po_root : ∃ d, is_dir (p_store p) (p_root p) d;
  po_view : ∃ rp, view (p_roots p) = Some rp ∧ rp_Root rp = p_root p ∧ rp_Seq rp = p_seq p ∧ rp_Owner rp = Public signer;
  po_seq : 0 ≤ p_seq p;
}.

Lemma bind_inv {A B} (m : M P A) (k : A → M P B) p p' r :
  bind m k p = (p', r) → ∃ p1 r1, m p = (p1, r1) ∧ match r1 with Ok a => k a p1 = (p', r) | Err e => p' = p1 ∧ r = Err e end.
Proof.
  unfold bind. destruct (m p) as [p1 [a|e]]; [by eauto|]. intros E. apply pair_eq in E as [<- <-].
  by exists p1, (Err e).
Qed.

Lemma ed_public_size k : length (Public k) = SignPubKeySize.
Proof. apply ed_public_length. Qed.

(** A commit either moves to the new root at the next sequence number, durably,
    or leaves everything as it was. *)
Lemma commit_spec now newRoot p p' r :
  rok (p_roots p) → cap_ok newRoot → 0 ≤ p_seq p < 2 ^ 64 - 1 → in_i64 now → commit signer now newRoot p = (p', r) →
  p_store p' = p_store p ∧ p_ids p' = p_ids p ∧ rok (p_roots p') ∧
  match r with
  | Ok _ => p_root p' = newRoot ∧ p_seq p' = p_seq p + 1 ∧
      ∃ rp, view (p_roots p') = Some rp ∧ rp_Root rp = newRoot ∧ rp_Seq rp = p_seq p + 1 ∧ rp_Owner rp = Public signer ∧
        root_Verify rp = true
  | Err e => (∃ se, e = PPublish se) ∧ p_root p' = p_root p ∧ p_seq p' = p_seq p ∧ view (p_roots p') = view (p_roots p)
  end.
Proof.
  intros Hok Hc Hs Ht. unfold commit. assert (u64 (p_seq p + 1) = p_seq p + 1) as -> by (unfold u64; apply Z.mod_small; lia).
  destruct (SignRoot_spec signer newRoot (p_seq p + 1) now) as (sig & Es & Hv).
  { split; [apply ed_public_size|unfold is_u64; cbn; lia|done|done|]. apply Hcaps. by apply strip_cap_ok. }
  rewrite Es. set (rp := mkRootP _ _ _ _ sig). destruct (rs_Save rp (p_roots p)) as [roots res] eqn:E.
  destruct (rs_save_law rp (p_roots p) roots res Hok (Hsv rp eq_refl Hc) E) as [Hok' Hr].
  destruct res as [[]|e]; intros Ep; apply pair_eq in Ep as [<- <-]; cbn [p_store p_ids p_roots p_root p_seq].
  - destruct Hr as [Hview _]. split_and!; try done. exists rp. split_and!; done.
  - split_and!; try done. by exists e.
Qed.

(** *** Minting the identifiers of a returned item *)

Definition room p : Prop := next (p_ids p) < 2 ^ 64 - 3.

Lemma id_for_spec path p p' r : wf_ids (p_ids p) → next (p_ids p) < 2 ^ 64 - 1 → id_for path p = (p', r) →
  ∃ id, r = Ok id ∧ p_store p' = p_store p ∧ p_roots p' = p_roots p ∧ p_root p' = p_root p ∧ p_seq p' = p_seq p ∧
    wf_ids (p_ids p') ∧ pathFor id (p_ids p') = Some path ∧ next (p_ids p') ≤ next (p_ids p) + 1 ∧
    ∀ id' q, pathFor id' (p_ids p) = Some q → pathFor id' (p_ids p') = Some q.
Proof.
  intros Hwf Hn. unfold id_for. destruct (idFor path (p_ids p)) as [i id] eqn:E. intros Ep. apply pair_eq in Ep as [<- <-].
  destruct (idFor_spec path (p_ids p) i id Hwf Hn E) as (? & ? & _ & ? & ? & _). exists id. cbn. split_and!; try done. lia.
Qed.

Lemma itemFromEntry_spec parentPath e p p' r : wf_ids (p_ids p) → room p → itemFromEntry parentPath e p = (p', r) →
  ∃ it, r = Ok it ∧ it_Name it = e_Name e ∧ it_Cap it = e_Cap e ∧ it_IsDir it = bool_decide (rc_Kind (e_Cap e) = KindDir) ∧
    pathFor (it_ID it) (p_ids p') = Some (join parentPath (e_Name e)) ∧
    pathFor (it_Parent it) (p_ids p') = Some parentPath ∧
    p_store p' = p_store p ∧ p_roots p' = p_roots p ∧ p_root p' = p_root p ∧ p_seq p' = p_seq p ∧ wf_ids (p_ids p') ∧
    ∀ id' q, pathFor id' (p_ids p) = Some q → pathFor id' (p_ids p') = Some q.
Proof.
  intros Hwf Hn E. unfold room in Hn. unfold itemFromEntry in E. apply bind_inv in E as (p1 & r1 & E1 & E).
  apply id_for_spec in E1 as (id & -> & S1 & R1 & T1 & Q1 & Hwf1 & Hp1 & Hn1 & Hk1); [|done|lia].
  apply bind_inv in E as (p2 & r2 & E2 & E).
  apply id_for_spec in E2 as (par & -> & S2 & R2 & T2 & Q2 & Hwf2 & Hp2 & Hn2 & Hk2); [|done|lia].
  unfold ret in E. apply pair_eq in E as [<- <-]. eexists. split; [done|]. cbn [it_Name it_Cap it_IsDir it_ID it_Parent].
  split_and!; try done; try congruence; auto.
Qed.

Lemma sets_store {A} (f : W → W * result manifest_err A) p p' r : writes f p = (p', r) →
  ∃ w' r', f (p_store p) = (w', r') ∧ p' = set_store p w' ∧ r = map_err PManifest r'.
Proof. unfold writes. destruct (f (p_store p)) as [w' r']. intros E. apply pair_eq in E as [<- <-]. by exists w', r'. Qed.

Lemma commit_store now newRoot p : p_store (commit signer now newRoot p).1 = p_store p.
Proof.
  unfold commit. destruct (SignRoot _ _ _ _); [|done]. by destruct (rs_Save _ _) as [? [[]|]].
Qed.

(** A fresh namespace: an empty root directory at sequence number 1. *)
Lemma New_fresh now w roots p r :
  w_ok w → rok roots → view roots = None → meta_utf8 (lightMeta dirMode 0) → in_i64 now →
  (∀ roots', rs_Load roots = (roots', Ok None) → New cfg signer now w roots = (p, r) → clean (p_store p) →
   match r with Ok _ => prov_ok p ∧ p_seq p = 1 ∧ p_ids p = newIdentity | Err e => ∃ se, e = PPublish se end).
Proof.
  intros Hok Hrok Hv Hm Ht roots' El E Hcl. unfold New in E. rewrite El in E.
  destruct (rs_load_law _ _ _ Hrok El) as (Hrok' & Hv' & _).
  apply bind_inv in E as (p1 & r1 & E1 & E). apply sets_store in E1 as (w1 & r1' & E1 & -> & ->). cbn [p_store] in E1.
  assert (clean w1) as Hcl1.
  { destruct r1' as [c|]; cbn [map_err] in E; [|by destruct E as [-> _]].
    match type of E with commit _ _ _ ?q = _ => pose proof (commit_store now c q) as Hst end. rewrite E in Hst. cbn in Hst. by rewrite <-Hst. }
  destruct (StoreDir_spec cfg (NewDir (lightMeta dirMode 0)) w w1 r1' Hok) as (c & -> & Hd & Hc & Hx); [|done|done|].
  { split; [split; constructor|constructor|constructor|done]. }
  cbn [map_err] in E. apply commit_spec in E as (Es & Ei & Hrk & Hr); [|done|done|cbn; lia|done].
  cbn [set_store p_store p_ids p_seq p_root p_roots] in *. destruct r as [[]|e]; [|by destruct Hr].
  destruct Hr as (Er & Eq & rp & H1 & H2 & H3 & H4 & _). split; [|by rewrite Eq].
  split; rewrite ?Es, ?Er, ?Ei, ?Eq; try done; [apply Hx|apply ids_wf_new|by eexists|by exists rp].
Qed.

(** *** Creating *)

Lemma item_store parentPath e p : p_store (itemFromEntry parentPath e p).1 = p_store p.
Proof.
  unfold itemFromEntry, bind, id_for. destruct (idFor _ (p_ids p)) as [i id]. cbn [p_ids].
  by destruct (idFor parentPath i) as [i' id'].
Qed.

Lemma graft_commit_back now path child stat p :
  clean (p_store (graft_commit cfg signer now path child stat p).1) → clean (p_store p).
Proof.
  unfold graft_commit, bind, get_root, writes. intros Hc. apply (Graft_back cfg (p_root p) path child stat).
  destruct (Graft cfg (p_root p) path child stat (p_store p)) as [w [newRoot|]]; [|exact Hc].
  change (clean (p_store (commit signer now newRoot (set_store p w)).1)) in Hc. by rewrite commit_store in Hc.
Qed.

Lemma item_root parentPath e p :
  p_root (itemFromEntry parentPath e p).1 = p_root p ∧ p_seq (itemFromEntry parentPath e p).1 = p_seq p.
Proof.
  unfold itemFromEntry, bind, id_for. destruct (idFor _ (p_ids p)) as [i id]. cbn [p_ids].
  by destruct (idFor parentPath i) as [i' id'].
Qed.

(** What a mutation that grafts [child] at [parts] leaves behind. *)
Record grafted (p p' : P) (parts : list string) (child : ReadCap) : Prop := {
  gr_ok : prov_ok p';
  gr_seq : p_seq p' = p_seq p + 1;
  gr_ext : extends (p_store p) (p_store p');
  gr_here : leads (p_store p') (p_root p') parts child;
  gr_else : ∀ qs c, apart parts qs → leads (p_store p) (p_root p) qs c → leads (p_store p') (p_root p') qs c;
}.

(** What a mutation that failed at the commit leaves behind. *)
Record refused (p p' : P) (e : prov_err) : Prop := {
  re_err : ∃ se, e = PPublish se;
  re_root : p_root p' = p_root p;
  re_seq : p_seq p' = p_seq p;
  re_view : view (p_roots p') = view (p_roots p);
  re_ids : p_ids p' = p_ids p;
  re_ok : prov_ok p';
}.

Lemma graft_commit_spec now path parts child stat p p' r :
  prov_ok p → p_seq p < 2 ^ 64 - 1 → in_i64 now → splitPath path = Ok parts → Forall utf8 parts → cap_ok child →
  openable (holds := holds) (p_store p) (p_root p) parts →
  graft_commit cfg signer now path child stat p = (p', r) → clean (p_store p') →
  p_ids p' = p_ids p ∧
  match r with
  | Ok _ => grafted p p' parts child
  | Err e => refused p p' e
  end.
Proof.
  intros [Hok Hrok Hids Hroot Hview Hseq] Hs Ht Hp Hu Hc Ho E Hcl. unfold graft_commit in E.
  apply bind_inv in E as (p0 & r0 & E0 & E). unfold get_root in E0. apply pair_eq in E0 as [<- <-].
  apply bind_inv in E as (p1 & r1 & E1 & E). apply sets_store in E1 as (w1 & r1' & E1 & -> & ->).
  assert (clean w1) as Hcl1.
  { destruct r1' as [newRoot|]; cbn [map_err] in E.
    - pose proof (commit_store now newRoot (set_store p w1)) as Hst. rewrite E in Hst. cbn in Hst. by rewrite <-Hst.
    - destruct E as [-> _]. done. }
  unfold Graft in E1. rewrite Hp in E1.
  assert (graft cfg (p_root p) parts child stat (p_store p) = (w1, r1')) as Eg by (destruct parts; [by inversion Ho|done]).
  destruct (graft_spec cfg child stat parts (p_root p) (p_store p) w1 r1' Hok Ho Hu Hc Eg Hcl1)
    as (root' & -> & Hcr & Hk & Hx & Hw & Hoth).
  cbn [map_err] in E. apply commit_spec in E as (Es & Ei & Hrok' & Hr); [|done|done|cbn; lia|done].
  cbn [set_store p_store p_ids p_seq p_root p_roots] in *. split; [done|]. destruct r as [[]|e].
  - destruct Hr as (Er & Eq & rp & Hv & H1 & H2 & H3 & _). split; rewrite ?Es, ?Er; try done.
    + split; rewrite ?Es, ?Er, ?Ei, ?Eq; try done; [apply Hx| |by exists rp|lia].
      destruct parts as [|x parts]; [by inversion Ho|]. inversion Hw; subst. by eexists.
  - destruct Hr as (He & Er & Eq & Hv). split; rewrite ?Er, ?Eq; try done.
    split; rewrite ?Es, ?Er, ?Ei, ?Eq, ?Hv; try done; [apply Hx|].
    destruct Hroot as [d Hd]. exists d. by eapply dir_at_ext.
Qed.

Lemma DeriveVersions_holds w fm x : file_holds cfg (holds := holds) w fm x → file_holds cfg (holds := holds) w (DeriveVersions fm) x.
Proof. intros [? ? ? ? ?]. by split. Qed.

Lemma buildChild_back name isDir meta contents p : clean (p_store (buildChild cfg name isDir meta contents p).1) → clean (p_store p).
Proof.
  unfold buildChild. destruct isDir.
  - unfold bind, writes. intros Hc. apply (StoreDir_back cfg (NewDir meta)).
    destruct (StoreDir cfg (NewDir meta) (p_store p)) as [w [c|]]; exact Hc.
  - assert (∀ fm (p1 : P), clean (p_store ((let! c := writes (StoreFileManifest cfg fm) in ret (c, statFromManifest fm)) p1).1) → clean (p_store p1)) as Hman.
    { intros fm p1. unfold bind, writes. intros Hc. apply (StoreFileManifest_back cfg fm).
      destruct (StoreFileManifest cfg fm (p_store p1)) as [w [c|]]; exact Hc. }
    unfold build_file. destruct (IsSymlink meta); [apply Hman|]. destruct contents as [rd|]; [|apply Hman].
    unfold bind at 1, stores_file. intros Hc. apply (file_put_back cfg rd).
    destruct (file_put cfg rd (p_store p)) as [w [fm|]]; [|exact Hc]. exact (Hman _ _ Hc).
Qed.

(** The blob of a new file. *)
Lemma buildChild_file name meta x p p1 r1 :
  w_ok (p_store p) → IsSymlink meta = false → sized cfg x → utf8 name → meta_utf8 meta →
  buildChild cfg name false meta (Some (mkReader x false)) p = (p1, r1) → clean (p_store p1) →
  ∃ c fm, r1 = Ok (c, statFromManifest fm) ∧ p1 = set_store p (p_store p1) ∧ extends (p_store p) (p_store p1) ∧
    is_file (p_store p1) c fm x ∧ cap_ok c ∧ fm_Name fm = name ∧ IsSymlink (fm_Meta fm) = false.
Proof.
  intros Hok Hsym Hx Hn Hm E Hcl. unfold buildChild, build_file in E. rewrite Hsym in E.
  apply bind_inv in E as (p2 & r2 & E2 & E). unfold stores_file in E2.
  destruct (file_put cfg (mkReader x false) (p_store p)) as [w2 res] eqn:Ef. apply pair_eq in E2 as [<- <-].
  assert (clean w2) as Hcl2.
  { destruct res as [fm|e]; cbn [map_err] in E; [|by destruct E as [-> _]].
    apply bind_inv in E as (p3 & r3 & E3 & E). apply sets_store in E3 as (w3 & r3' & E3 & -> & ->).
    cbn [p_store] in E3. eapply (StoreFileManifest_back cfg). rewrite E3. cbn [fst].
    destruct r3' as [c|]; cbn [map_err] in E; [|by destruct E as [-> _]]. unfold ret in E. by apply pair_eq in E as [<- _]. }
  destruct (file_put_ok cfg x (p_store p) w2 res Hok Hx Ef Hcl2) as (fm & -> & Hx2 & Hh & _ & _). cbn [map_err] in E.
  set (fm' := DeriveVersions _) in E. apply bind_inv in E as (p3 & r3 & E3 & E). apply sets_store in E3 as (w3 & r3' & E3 & -> & ->).
  cbn [p_store] in E3.
  assert (p1 = set_store p w3) as ->.
  { destruct r3' as [c|]; cbn [map_err] in E; [unfold ret in E; by apply pair_eq in E as [<- _]|by destruct E as [-> _]]. }
  cbn [p_store set_store] in *.
  destruct (StoreFileManifest_spec cfg fm' x w2 w3 r3' (proj1 Hx2)) as (c & -> & Hf & Hc & Hx3).
  { apply DeriveVersions_holds. destruct Hh as [? ? ? ? ?]. by split. } { done. } { by apply meta_utf8_versions. } { exact E3. } { exact Hcl. }
  unfold ret in E. apply pair_eq in E as [_ <-]. exists c, fm'. split; [done|]. split; [done|].
  split; [by eapply ext_trans|]. split; [done|]. split; [done|]. split; [done|]. exact Hsym.
Qed.

Lemma prov_ok_store p w' : prov_ok p → extends (p_store p) w' → prov_ok (set_store p w').
Proof.
  intros [Hok Hrok Hids [d Hd] Hview Hseq] Hx. split; try done; [apply Hx|]. exists d. by eapply dir_at_ext.
Qed.

Lemma openable_ext w w' c parts : extends w w' → openable (holds := holds) w c parts → openable (holds := holds) w' c parts.
Proof. intros Hx. induction 1; econstructor; try done; by eapply dir_at_ext. Qed.

(** Reading an item whose path leads to a file. *)
Lemma Fetch_file id parts c fm x p :
  w_ok (p_store p) → Forall normal parts → pathFor id (p_ids p) = Some (join_slash parts) → leads (p_store p) (p_root p) parts c →
  is_file (p_store p) c fm x → IsSymlink (fm_Meta fm) = false →
  FetchContents id p = (x, Ok (mkVer (md_ContentVersion (fm_Meta fm)) (md_MetaVersion (fm_Meta fm)))).
Proof.
  intros Hok Hn Hp Hw Hf Hs. unfold FetchContents. rewrite Hp.
  rewrite (walk_Resolve cfg (p_store p) (p_root p) _ parts c Hok (splitPath_join parts Hn) Hw).
  rewrite decide_False by (intros H; apply H; apply Hf). rewrite (file_at_load cfg _ _ _ _ Hok Hf), Hs.
  by rewrite (file_get_ok cfg _ _ _ Hok (proj1 (proj2 Hf))).
Qed.

(** *** Removing and moving *)

Lemma apart_sym a : ∀ b, apart a b → apart b a.
Proof.
  induction a as [|x a IH]; intros [|y b]; cbn [apart]; try done. intros [H|[-> H]]; [by left|]. right. split; [done|]. by apply IH.
Qed.

Lemma walk_prefix w root a : ∀ b c, leads w root (a ++ b) c → ∃ c', leads w root a c' ∧ leads w c' b c.
Proof.
  revert root. induction a as [|x a IH]; intros root b c Hw; cbn [app] in Hw; [exists root; by split; [constructor|]|].
  inversion Hw as [|? d ? e ? ? Hd Hl Hw']; subst. destruct (IH _ _ _ Hw') as (c' & H1 & H2). exists c'. split; [by econstructor|done].
Qed.

Lemma missing_app w root a b : missing (holds := holds) w root a → missing (holds := holds) w root (a ++ b).
Proof. induction 1; cbn [app]; [by eapply missing_here|by eapply missing_in]. Qed.

Lemma missing_Resolve w root parts : w_ok w → Forall normal parts → missing (holds := holds) w root parts →
  ∃ name, Resolve root (join_slash parts) w = Err (MNotFound name).
Proof.
  intros Hok Hn Hm. destruct (missing_resolve cfg w root parts Hok Hm) as [name E]. exists name.
  unfold Resolve. rewrite splitPath_join by done. exact E.
Qed.

Lemma GraftRemove_back root path w : clean (GraftRemove cfg root path w).1 → clean w.
Proof. unfold GraftRemove. destruct (splitPath path) as [[|x l]|]; [done| |done]. apply (graftRemove_back cfg). Qed.

(** The tail of DeleteItem and Rename: remove the path, commit. *)
Lemma remove_commit now root path parts c p p' r :
  prov_ok p → p_seq p < 2 ^ 64 - 1 → in_i64 now → splitPath path = Ok parts → parts ≠ [] → Forall utf8 parts →
  leads (p_store p) root parts c →
  (let! newRoot := writes (GraftRemove cfg root path) in commit signer now newRoot) p = (p', r) → clean (p_store p') →
  p_ids p' = p_ids p ∧
  match r with
  | Ok _ => prov_ok p' ∧ p_seq p' = p_seq p + 1 ∧ extends (p_store p) (p_store p') ∧
      missing (holds := holds) (p_store p') (p_root p') parts ∧
      ∀ qs c, apart parts qs → leads (p_store p) root qs c → leads (p_store p') (p_root p') qs c
  | Err e => refused p p' e
  end.
Proof.
  intros [Hok Hrok Hids Hroot Hview Hseq] Hs Ht Hp Hne Hu Hw E Hcl.
  apply bind_inv in E as (p1 & r1 & E1 & E). apply sets_store in E1 as (w1 & r1' & E1 & -> & ->).
  assert (clean w1) as Hcl1.
  { destruct r1' as [newRoot|]; cbn [map_err] in E; [|by destruct E as [-> _]].
    pose proof (commit_store now newRoot (set_store p w1)) as Hst. rewrite E in Hst. cbn in Hst. by rewrite <-Hst. }
  unfold GraftRemove in E1. rewrite Hp in E1.
  assert (graftRemove cfg root parts (p_store p) = (w1, r1')) as Eg by (by destruct parts).
  destruct (graftRemove_spec cfg parts root (p_store p) w1 r1' c Hok Hne Hw Hu Eg Hcl1) as (root' & -> & Hcr & Hk & Hx & Hmiss & Hoth).
  cbn [map_err] in E. apply commit_spec in E as (Es & Ei & Hrok' & Hr); [|done|done|cbn; lia|done].
  cbn [set_store p_store p_ids p_seq p_root p_roots] in *. split; [done|]. destruct r as [[]|e].
  - destruct Hr as (Er & Eq & rp & Hv & H1 & H2 & H3 & _). rewrite ?Es, ?Er. split_and!; try done.
    split; rewrite ?Es, ?Er, ?Ei, ?Eq; try done; [apply Hx| |by exists rp|lia].
    inversion Hmiss; subst; by eexists.
  - destruct Hr as (He & Er & Eq & Hv). split; rewrite ?Er, ?Eq; try done.
    split; rewrite ?Es, ?Er, ?Ei, ?Eq, ?Hv; try done; [apply Hx|].
    destruct Hroot as [d Hd]. exists d. by eapply dir_at_ext.
Qed.

Lemma prov_ok_ids p i : prov_ok p → wf_ids i → prov_ok (mkProv (p_store p) (p_roots p) i (p_root p) (p_seq p)).
Proof. intros [? ? ? ? ? ?] Hi. by split. Qed.

(** The entry of a path that leads somewhere. *)
Lemma entryOf_spec parts name c p :
  w_ok (p_store p) → Forall normal (parts ++ [name]) → leads (p_store p) (p_root p) (parts ++ [name]) c →
  ∃ e, entryOf (p_root p) (join_slash (parts ++ [name])) p = (p, Ok e) ∧ e_Cap e = c.
Proof.
  intros Hok Hn Hw. destruct (walk_snoc _ _ _ _ _ Hw) as (pc & d & e & Hwp & Hd & Hl & Hc).
  destruct (parentAndBase_snoc parts name Hn) as [Epb Hne]. exists e. split; [|done].
  unfold entryOf. rewrite decide_False by done. rewrite Epb. unfold dir_of, bind, reads.
  apply Forall_app in Hn as [Hn _]. rewrite (walk_Resolve cfg _ _ _ parts pc Hok (splitPath_join parts Hn) Hwp). cbn [map_err].
  rewrite decide_False by (intros H; apply H; by eapply dir_at_kind). rewrite (dir_at_load cfg _ _ _ Hok Hd). cbn [map_err].
  by rewrite Hl.
Qed.

Lemma bind_assoc {A B C} (m : M P A) (k : A → M P B) (h : B → M P C) p :
  bind m (λ a, bind (k a) h) p = bind (bind m k) h p.
Proof. unfold bind. by destruct (m p) as [p1 [a|e]]. Qed.

(** ** Claims *)

(** [C35] Creating a file and reading it back: in a well-formed provider, CreateItem
    of a file under a directory whose path is open either fails at the commit and
    leaves the root, the sequence number, the identifiers and the saved pointer as
    they were, or commits the next sequence number: the returned item has the
    name and the path asked for, fetching it gives exactly the bytes, every path
    that is neither above nor below it leads where it led, no identifier moves,
    and the provider stays well-formed. *)
Theorem create_correct now parent parts name meta x p p' r :
  prov_ok p → room p → p_seq p < 2 ^ 64 - 1 → in_i64 now → pathFor parent (p_ids p) = Some (join_slash parts) →
  Forall normal (parts ++ [name]) → Forall utf8 (parts ++ [name]) → openable (holds := holds) (p_store p) (p_root p) (parts ++ [name]) →
  IsSymlink meta = false → sized cfg x → meta_utf8 meta →
  CreateItem cfg signer now parent (mkCreate name false meta (Some (mkReader x false))) p = (p', r) → clean (p_store p') →
  prov_ok p' ∧
  match r with
  | Ok it => p_seq p' = p_seq p + 1 ∧ it_Name it = name ∧ it_IsDir it = false ∧
      pathFor (it_ID it) (p_ids p') = Some (join_slash (parts ++ [name])) ∧
      (∃ ver, FetchContents (it_ID it) p' = (x, Ok ver)) ∧
      (∀ qs c, apart (parts ++ [name]) qs → leads (p_store p) (p_root p) qs c → leads (p_store p') (p_root p') qs c) ∧
      (∀ id q, pathFor id (p_ids p) = Some q → pathFor id (p_ids p') = Some q)
  | Err e => (∃ se, e = PPublish se) ∧ p_root p' = p_root p ∧ p_seq p' = p_seq p ∧ p_ids p' = p_ids p ∧
      view (p_roots p') = view (p_roots p)
  end.
Proof.
  intros Hpo Hroom Hseq Hnow Hpar Hn Hu Ho Hsym Hx Hm E Hcl.
  pose proof Hn as [Hnp Hnn]%Forall_app. apply Forall_cons in Hnn as [Hname _].
  pose proof Hu as [_ Hun]%Forall_app. apply Forall_cons in Hun as [Huname _].
  unfold CreateItem in E. cbn [cq_Name cq_IsDir cq_Meta cq_Contents] in E. rewrite decide_False in E by apply Hname.
  apply bind_inv in E as (p0 & r0 & E0 & E). unfold path_of in E0. rewrite Hpar in E0. apply pair_eq in E0 as [<- <-].
  apply bind_inv in E as (p1 & r1 & E1 & E). rewrite join_slash_snoc in E by done.
  assert (clean (p_store p1)) as Hcl1.
  { destruct r1 as [[c st]|e]; [|by destruct E as [-> _]]. apply bind_inv in E as (p2 & r2 & E2 & E).
    eapply graft_commit_back. rewrite E2. cbn [fst]. destruct r2 as [[]|e]; [|by destruct E as [-> _]].
    pose proof (item_store (join_slash parts) (mkEntry name c st) p2) as Hst. rewrite E in Hst. cbn [fst] in Hst. by rewrite <-Hst. }
  destruct (buildChild_file name meta x p p1 r1 (po_store p Hpo) Hsym Hx Huname Hm E1 Hcl1)
    as (c & fm & -> & Hp1 & Hx1 & Hf & Hc & _ & Hs').
  assert (prov_ok p1) as Hpo1 by (rewrite Hp1; by apply prov_ok_store).
  apply bind_inv in E as (p2 & r2 & E2 & E).
  assert (p_store p' = p_store p2) as Hst.
  { destruct r2 as [[]|e]; [|by destruct E as [-> _]].
    pose proof (item_store (join_slash parts) (mkEntry name c (statFromManifest fm)) p2) as Hst. by rewrite E in Hst. }
  rewrite Hst in Hcl.
  apply (graft_commit_spec now (join_slash (parts ++ [name])) (parts ++ [name])) in E2 as (Hi2 & Hr2);
    [|done|by rewrite Hp1|done|by apply splitPath_join|done|done| |done].
  2:{ rewrite Hp1. cbn [set_store p_root p_store]. by eapply openable_ext. }
  assert (p_ids p1 = p_ids p ∧ p_root p1 = p_root p ∧ p_seq p1 = p_seq p ∧ p_roots p1 = p_roots p) as (Hi1 & Hrt1 & Hsq1 & Hrs1)
    by (rewrite Hp1; done).
  destruct r2 as [[]|e].
  2:{ destruct E as [-> ->]. destruct Hr2 as [He Hr Hs Hv Hi Hok]. split; [done|]. rewrite Hr, Hs, Hv, Hi2. by rewrite Hi1, Hrt1, Hsq1, Hrs1. }
  destruct Hr2 as [Hok2 Hs2 Hx2 Hw2 Helse].
  apply itemFromEntry_spec in E as (it & -> & En & Ec & Ed & Eid & _ & S3 & R3 & T3 & Q3 & Hwf3 & Hk3); [|apply Hok2|unfold room in *; by rewrite Hi2, Hi1].
  cbn [e_Name e_Cap] in *. rewrite join_slash_snoc in Eid by done.
  assert (prov_ok p') as Hok3.
  { destruct Hok2 as [H1 H2 H3 H4 H5 H6]. split; rewrite ?S3, ?R3, ?T3, ?Q3; done. }
  split; [done|]. split_and!; try done.
  - by rewrite Q3, Hs2, Hsq1.
  - rewrite Ed. apply bool_decide_eq_false. destruct Hf as [Hk _]. by rewrite Hk.
  - eexists. apply (Fetch_file _ (parts ++ [name]) c fm x); [apply Hok3|done|done|by rewrite S3, T3| |done].
    rewrite S3. by eapply file_at_ext.
  - intros qs c' Ha Hw. rewrite S3, T3. apply Helse; [done|]. rewrite Hrt1. by eapply walk_ext.
  - intros id q Hq. apply Hk3. by rewrite Hi2, Hi1.
Qed.

(** Deleting: an item whose path leads somewhere is removed with its whole
    subtree, its identifier and those of the subtree are retired, every other
    path leads where it led and every other identifier stays; a failed commit
    changes nothing. *)
Theorem delete_correct now id parts c p p' r :
  prov_ok p → p_seq p < 2 ^ 64 - 1 → in_i64 now → pathFor id (p_ids p) = Some (join_slash parts) → parts ≠ [] →
  Forall normal parts → Forall utf8 parts → leads (p_store p) (p_root p) parts c →
  DeleteItem cfg signer now id p = (p', r) → clean (p_store p') →
  prov_ok p' ∧
  match r with
  | Ok _ => p_seq p' = p_seq p + 1 ∧
      (∃ n, Resolve (p_root p') (join_slash parts) (p_store p') = Err (MNotFound n)) ∧
      (∀ qs c, apart parts qs → leads (p_store p) (p_root p) qs c → leads (p_store p') (p_root p') qs c) ∧
      (∀ id', pathFor id' (p_ids p') =
         match pathFor id' (p_ids p) with Some q => if in_subtree (join_slash parts) q then None else Some q | None => None end)
  | Err e => (∃ se, e = PPublish se) ∧ p_root p' = p_root p ∧ p_seq p' = p_seq p ∧ p_ids p' = p_ids p ∧
      view (p_roots p') = view (p_roots p)
  end.
Proof.
  intros Hpo Hseq Hnow Hid Hne Hn Hu Hw E Hcl.
  assert (join_slash parts ≠ "") as Hjs.
  { destruct (exists_last Hne) as (init & name & ->). by apply parentAndBase_snoc. }
  unfold DeleteItem in E. apply bind_inv in E as (p0 & r0 & E0 & E). unfold path_of in E0. rewrite Hid in E0.
  apply pair_eq in E0 as [<- <-]. rewrite decide_False in E by done.
  apply bind_inv in E as (p1 & r1 & E1 & E). unfold get_root in E1. apply pair_eq in E1 as [<- <-].
  rewrite bind_assoc in E. apply bind_inv in E as (p2 & r2 & E2 & E).
  assert (p_store p' = p_store p2) as Hst.
  { destruct r2 as [[]|e]; [unfold with_ids in E; by apply pair_eq in E as [<- _]|by destruct E as [-> _]]. }
  rewrite Hst in Hcl.
  destruct (remove_commit now (p_root p) (join_slash parts) parts c p p2 r2 Hpo Hseq Hnow (splitPath_join parts Hn) Hne Hu Hw E2 Hcl)
    as [Hi2 Hr2].
  destruct r2 as [[]|e].
  2:{ destruct E as [-> ->]. destruct Hr2 as [He Hr Hs Hv Hi Hok]. done. }
  destruct Hr2 as (Hok2 & Hs2 & Hx2 & Hmiss & Helse). unfold with_ids in E. apply pair_eq in E as [<- <-].
  cbn [p_store p_root p_seq p_ids]. rewrite Hi2.
  destruct (remove_spec (p_ids p) (join_slash parts) (map_to_list (collectSubtree (byPath (p_ids p)) (join_slash parts))))
    as (Hwf' & _ & Hpaths); [apply Hpo|unfold lists; reflexivity|done|].
  split; [by apply prov_ok_ids|]. split_and!; try done. by apply missing_Resolve; [apply Hok2|..].
Qed.

(** The two grafts of Rename, when both succeed. *)
Lemma rename_grafts now old new e p p' r :
  Forall normal old → Forall normal new → old ≠ [] → Forall utf8 old → Forall utf8 new → cap_ok (e_Cap e) →
  prov_ok p → p_seq p < 2 ^ 64 - 1 → in_i64 now →
  openable (holds := holds) (p_store p) (p_root p) new →
  (∀ w' root', extends (p_store p) w' → leads w' root' new (e_Cap e) →
     (∀ qs c, apart new qs → leads (p_store p) (p_root p) qs c → leads w' root' qs c) → ∃ c', leads w' root' old c') →
  (let! grafted := writes (Graft cfg (p_root p) (join_slash new) (e_Cap e) (e_Stat e)) in
   let! newRoot := writes (GraftRemove cfg grafted (join_slash old)) in
   commit signer now newRoot) p = (p', r) → clean (p_store p') →
  p_ids p' = p_ids p ∧ extends (p_store p) (p_store p') ∧
  match r with
  | Ok _ => prov_ok p' ∧ p_seq p' = p_seq p + 1 ∧ missing (holds := holds) (p_store p') (p_root p') old ∧
      (apart old new → leads (p_store p') (p_root p') new (e_Cap e)) ∧
      (∀ qs c, apart new qs → apart old qs → leads (p_store p) (p_root p) qs c → leads (p_store p') (p_root p') qs c)
  | Err er => (∃ se, er = PPublish se) ∧ p_root p' = p_root p ∧ p_seq p' = p_seq p ∧ view (p_roots p') = view (p_roots p) ∧ prov_ok p'
  end.
Proof.
  intros Hno Hnn Hne Huo Hun Hc Hpo Hseq Hnow Ho Hold E Hcl.
  apply bind_inv in E as (p1 & r1 & E1 & E). apply sets_store in E1 as (w1 & r1' & E1 & -> & ->).
  assert (clean w1) as Hcl1.
  { destruct r1' as [g|]; cbn [map_err] in E; [|by destruct E as [-> _]].
    apply bind_inv in E as (p2 & r2 & E2 & E). apply sets_store in E2 as (w2 & r2' & E2 & -> & ->). cbn [set_store p_store] in *.
    apply (GraftRemove_back g (join_slash old)). rewrite E2. cbn [fst].
    destruct r2' as [nr|]; cbn [map_err] in E; [|by destruct E as [-> _]].
    pose proof (commit_store now nr (set_store (set_store p w1) w2)) as Hst. rewrite E in Hst. cbn in Hst. by rewrite <-Hst. }
  unfold Graft in E1. rewrite splitPath_join in E1 by done.
  assert (graft cfg (p_root p) new (e_Cap e) (e_Stat e) (p_store p) = (w1, r1')) as Eg by (destruct new; [by inversion Ho|done]).
  destruct (graft_spec cfg (e_Cap e) (e_Stat e) new (p_root p) (p_store p) w1 r1' (po_store p Hpo) Ho Hun Hc Eg Hcl1)
    as (g & -> & _ & _ & Hx1 & Hw1 & Hoth1).
  cbn [map_err] in E. destruct (Hold w1 g Hx1 Hw1 Hoth1) as [c' Hold'].
  assert (prov_ok (set_store p w1)) as Hpo1 by (by apply prov_ok_store).
  destruct (remove_commit now g (join_slash old) old c' (set_store p w1) p' r Hpo1 Hseq Hnow (splitPath_join old Hno) Hne Huo Hold' E Hcl)
    as [Hi2 Hr2].
  split; [done|]. destruct r as [[]|er].
  - destruct Hr2 as (Hok2 & Hs2 & Hx2 & Hmiss & Helse). cbn [set_store p_store p_root p_seq] in *.
    split; [by eapply ext_trans|]. split_and!; try done.
    + intros Ha. by apply Helse.
    + intros qs c Han Hao Hw. apply Helse; [done|]. by apply Hoth1.
  - destruct Hr2 as [He Hr Hs Hv Hi Hok]. cbn [set_store p_store p_root p_seq p_roots] in *. split; [|done].
    destruct Hpo as [Hwok _ _ _ _ _]. destruct Hok as [Hwok' _ _ _ _ _].
    apply bind_inv in E as (p2 & r2 & E2 & E). apply sets_store in E2 as (w2 & r2' & E2 & -> & ->). cbn [set_store p_store] in *.
    unfold GraftRemove in E2. rewrite splitPath_join in E2 by done.
    assert (graftRemove cfg g old w1 = (w2, r2')) as Eg2 by (by destruct old).
    assert (p_store p' = w2) as Hw2.
    { destruct r2' as [nr|]; cbn [map_err] in E; [|by destruct E as [-> _]].
      pose proof (commit_store now nr (set_store (set_store p w1) w2)) as Hst. by rewrite E in Hst. }
    rewrite Hw2 in Hcl |- *.
    destruct (graftRemove_spec cfg old g w1 w2 r2' c' (proj1 Hx1) Hne Hold' Huo Eg2 Hcl) as (? & _ & _ & _ & Hx2 & _).
    by eapply ext_trans.
Qed.

(** The steps of Rename before its grafts. *)
Lemma Rename_unfold now id newParent newName old nparts c p :
  w_ok (p_store p) → pathFor id (p_ids p) = Some (join_slash old) → old ≠ [] → Forall normal old → normal newName → Forall normal nparts →
  pathFor newParent (p_ids p) = Some (join_slash nparts) → nparts ++ [newName] ≠ old → leads (p_store p) (p_root p) old c →
  ∃ e, e_Cap e = c ∧
    Rename cfg signer now id newParent newName p =
    bind (let! grafted := writes (Graft cfg (p_root p) (join_slash (nparts ++ [newName])) (e_Cap e) (e_Stat e)) in
          let! newRoot := writes (GraftRemove cfg grafted (join_slash old)) in
          commit signer now newRoot)
      (λ _, let! _ := with_ids (ids_rename (join_slash old) (join_slash (nparts ++ [newName]))) in
            itemFromEntry (join_slash nparts) (mkEntry newName (e_Cap e) (e_Stat e))) p.
Proof.
  intros Hok Hid Hne Hn Hnew Hnn Hpar Hdiff Hw. destruct (exists_last Hne) as (init & name & ->).
  destruct (entryOf_spec init name c p Hok Hn Hw) as (e & Ee & Hc). exists e. split; [done|].
  destruct (parentAndBase_snoc init name Hn) as [_ Hjs].
  unfold Rename, bind at 1, path_of at 1. rewrite Hid. cbn [of_opt]. unfold ret at 1. rewrite decide_False by done.
  rewrite decide_False by apply Hnew. unfold bind at 1, path_of at 1. rewrite Hpar. cbn [of_opt]. unfold ret at 1.
  rewrite join_slash_snoc by done. rewrite decide_False.
  2:{ intros E. apply Hdiff. apply (inj (@Ok manifest_err (list string))).
      rewrite <-splitPath_join, E by (by apply Forall_app; split; [|apply Forall_singleton]). by rewrite splitPath_join. }
  unfold bind at 1, get_root at 1. unfold bind at 1. rewrite Ee. rewrite <-bind_assoc. unfold bind.
  destruct (writes (Graft cfg _ _ _ _) p) as [p1 [g|er]]; [|done]. by destruct (writes (GraftRemove cfg _ _) p1) as [p2 [nr|er]].
Qed.

(** Renaming keeps the item: moving an item to a free path outside its own
    subtree commits a root in which the new path leads to the very same cap, the
    old path is gone and every unrelated path leads where it led; the item keeps
    its identifier, and every identifier of its subtree follows it. A failed
    commit changes nothing. *)
Theorem rename_correct now id newParent newName old nparts c p p' r :
  prov_ok p → room p → p_seq p < 2 ^ 64 - 1 → in_i64 now →
  pathFor id (p_ids p) = Some (join_slash old) → old ≠ [] → Forall normal old → Forall utf8 old →
  leads (p_store p) (p_root p) old c → cap_ok c →
  pathFor newParent (p_ids p) = Some (join_slash nparts) → Forall normal (nparts ++ [newName]) → Forall utf8 (nparts ++ [newName]) →
  openable (holds := holds) (p_store p) (p_root p) (nparts ++ [newName]) → apart (nparts ++ [newName]) old →
  (∀ q, in_subtree (join_slash (nparts ++ [newName])) q = true → byPath (p_ids p) !! q = None) →
  Rename cfg signer now id newParent newName p = (p', r) → clean (p_store p') →
  prov_ok p' ∧
  match r with
  | Ok it => p_seq p' = p_seq p + 1 ∧ it_ID it = id ∧ it_Cap it = c ∧
      leads (p_store p') (p_root p') (nparts ++ [newName]) c ∧
      (∃ n, Resolve (p_root p') (join_slash old) (p_store p') = Err (MNotFound n)) ∧
      (∀ qs c, apart (nparts ++ [newName]) qs → apart old qs → leads (p_store p) (p_root p) qs c → leads (p_store p') (p_root p') qs c) ∧
      (∀ id' q, pathFor id' (p_ids p) = Some q → pathFor id' (p_ids p') =
         Some (if in_subtree (join_slash old) q then moved (join_slash old) (join_slash (nparts ++ [newName])) q else q))
  | Err e => (∃ se, e = PPublish se) ∧ p_root p' = p_root p ∧ p_seq p' = p_seq p ∧ p_ids p' = p_ids p ∧
      view (p_roots p') = view (p_roots p)
  end.
Proof.
  intros Hpo Hroom Hseq Hnow Hid Hne Hno Huo Hw Hc Hpar Hnn Hun Ho Hap Hfree E Hcl.
  pose proof Hnn as [Hnp Hnew]%Forall_app. apply Forall_cons in Hnew as [Hnew _].
  assert (nparts ++ [newName] ≠ old) as Hdiff.
  { intros <-. clear -Hap. induction (nparts ++ [newName]) as [|x l IH]; [done|]. destruct Hap as [?|[_ ?]]; [done|]. by apply IH. }
  destruct (Rename_unfold now id newParent newName old nparts c p (po_store p Hpo) Hid Hne Hno Hnew Hnp Hpar Hdiff Hw) as (e & Ec & Er).
  rewrite Er in E. apply bind_inv in E as (p1 & r1 & E1 & E). rewrite <-Ec in *.
  assert (p_store p' = p_store p1) as Hst.
  { destruct r1 as [[]|er]; [|by destruct E as [-> _]]. apply bind_inv in E as (p2 & r2 & E2 & E). unfold with_ids in E2.
    apply pair_eq in E2 as [<- <-]. match type of E with itemFromEntry ?a ?b ?c = _ => pose proof (item_store a b c) as Hst end.
    by rewrite E in Hst. }
  rewrite Hst in Hcl.
  destruct (rename_grafts now old (nparts ++ [newName]) e p p1 r1) as (Hi1 & Hx1 & Hr1); try done.
  { intros w' root' Hx Hl Hoth. exists (e_Cap e). by apply Hoth. }
  destruct r1 as [[]|er].
  2:{ destruct E as [-> ->]. destruct Hr1 as (He & Hr & Hs & Hv & Hok). by split_and!. }
  destruct Hr1 as (Hok1 & Hs1 & Hmiss & Hnewl & Helse).
  apply bind_inv in E as (p2 & r2 & E2 & E). unfold with_ids in E2. apply pair_eq in E2 as [<- <-].
  assert (join_slash old ≠ "") as Hjs by (destruct (exists_last Hne) as (init & name & ->); by apply parentAndBase_snoc).
  destruct (rename_spec (p_ids p) (join_slash old) (join_slash (nparts ++ [newName])) (map_to_list (collectSubtree (byPath (p_ids p)) (join_slash old))))
    as (Hwf' & Hnext & Hpaths); [apply Hpo|unfold lists; reflexivity|done|done|].
  fold (ids_rename (join_slash old) (join_slash (nparts ++ [newName])) (p_ids p)) in Hwf', Hnext, Hpaths.
  rewrite Hi1 in E.
  apply itemFromEntry_spec in E as (it & -> & En & Ecap & _ & Eid & _ & S3 & R3 & T3 & Q3 & Hwf3 & Hk3); [|done|unfold room in *; cbn [p_ids]; by rewrite Hnext].
  cbn [p_store p_roots p_root p_seq p_ids e_Name e_Cap] in *. rewrite join_slash_snoc in Eid by done.
  assert (pathFor id (p_ids p') = Some (join_slash (nparts ++ [newName]))) as Hidp.
  { apply Hk3. rewrite (Hpaths id _ Hid). rewrite (proj2 (in_subtree_spec _ _)) by (by left). f_equal. unfold moved.
    rewrite (proj2 (after_Some (join_slash old) (join_slash old) "")); [apply app_empty_r|by rewrite app_empty_r]. }
  split. { destruct Hok1 as [H1 H2 H3 H4 H5 H6]. split; rewrite ?S3, ?R3, ?T3, ?Q3; done. }
  split_and!; rewrite ?S3, ?T3, ?Q3; try done.
  - unfold pathFor in Eid, Hidp. apply (wi_iff _ Hwf3) in Eid, Hidp. congruence.
  - apply Hnewl. by apply apart_sym.
  - by apply missing_Resolve; [apply Hok1|..].
  - intros id' q Hq. apply Hk3. by apply Hpaths.
Qed.

(** Renaming a directory into its own subtree is not refused: the call
    commits a root in which neither the old nor the new path leads anywhere, so
    the directory and everything in it is lost to the namespace. *)
Theorem rename_into_self_loses now id newParent newName old rest c p p' it :
  prov_ok p → p_seq p < 2 ^ 64 - 1 → in_i64 now →
  pathFor id (p_ids p) = Some (join_slash old) → old ≠ [] → Forall normal old → Forall utf8 old →
  leads (p_store p) (p_root p) old c → cap_ok c →
  pathFor newParent (p_ids p) = Some (join_slash (old ++ rest)) → Forall normal (rest ++ [newName]) → Forall utf8 (rest ++ [newName]) →
  openable (holds := holds) (p_store p) (p_root p) (old ++ rest ++ [newName]) →
  Rename cfg signer now id newParent newName p = (p', Ok it) → clean (p_store p') →
  p_seq p' = p_seq p + 1 ∧
  (∃ n, Resolve (p_root p') (join_slash old) (p_store p') = Err (MNotFound n)) ∧
  (∀ below, Forall normal below → ∃ n, Resolve (p_root p') (join_slash (old ++ below)) (p_store p') = Err (MNotFound n)).
Proof.
  intros Hpo Hseq Hnow Hid Hne Hno Huo Hw Hc Hpar Hnr Hur Ho E Hcl. rewrite app_assoc in Ho.
  pose proof Hnr as [Hr Hnew]%Forall_app. apply Forall_cons in Hnew as [Hnew _]. apply Forall_app in Hur as [Hur Hun].
  assert (Forall normal (old ++ rest)) as Hnp by (by apply Forall_app).
  assert ((old ++ rest) ++ [newName] ≠ old) as Hdiff.
  { intros H%(f_equal length). rewrite !length_app in H. simpl in H. lia. }
  destruct (Rename_unfold now id newParent newName old (old ++ rest) c p (po_store p Hpo) Hid Hne Hno Hnew Hnp Hpar Hdiff Hw) as (e & Ec & Er).
  rewrite Er in E. apply bind_inv in E as (p1 & r1 & E1 & E). rewrite <-Ec in *.
  destruct r1 as [[]|er]; [|by destruct E].
  apply bind_inv in E as (p2 & r2 & E2 & E). unfold with_ids in E2. apply pair_eq in E2 as [<- <-].
  match type of E with itemFromEntry ?a ?b ?c = _ => pose proof (item_store a b c) as Hst; pose proof (item_root a b c) as [Hrt Hsq] end.
  rewrite E in Hst, Hrt, Hsq. cbn [fst p_store p_root p_seq] in *. rewrite Hst in Hcl.
  destruct (rename_grafts now old ((old ++ rest) ++ [newName]) e p p1 (Ok tt)) as (Hi1 & Hx1 & Hok1 & Hs1 & Hmiss & _ & _); try done.
  { by apply Forall_app; split; [|apply Forall_singleton]. } { apply Forall_app. split; [by apply Forall_app|done]. }
  { intros w' root' Hx Hl Hoth. rewrite <-app_assoc in Hl. destruct (walk_prefix w' root' old _ _ Hl) as (c' & Hc' & _). by exists c'. }
  rewrite Hst, Hrt, Hsq. split; [done|]. split; [by apply missing_Resolve; [apply Hok1|..]|].
  intros below Hb'. apply missing_Resolve; [apply Hok1|by apply Forall_app|by apply missing_app].
Qed.
End correctness.

(** ** Witnesses *)

#[local] Strategy 100 [CreateItem DeleteItem Rename].

Abbreviation ExP := (Provider (Vault Mem.MemStore) MemRootStore).
Abbreviation ex_pok := (@prov_ok toy_ed ex_dj _ _ [Byte.x05] ex_vok ex_holds (λ _, True) mr_rp).

Definition ex_pointer (root : ReadCap) : RootPointer := mkRootP (@Public toy_ed [Byte.x05]) root 1 0 [].

(** The provider over the namespace with one file "f". *)
Definition ex_prov : ExP := mkProv ex_fstored.1 (mkMemRoot (Some (ex_pointer ex_froot))) (idFor "f" newIdentity).1 ex_froot 1.

Lemma ex_prov_ok : ex_pok ex_prov.
Proof.
  destruct ex_file_world as (Hok & Hd & _ & _). split.
  - exact Hok.
  - exact I.
  - apply idFor_wf; [apply ids_wf_new|reflexivity].
  - exists ex_fdir. exact Hd.
  - exists (ex_pointer ex_froot). repeat split.
  - cbn. lia.
Qed.

Lemma ex_leads_f : @walk ex_dj _ ex_holds ex_fstored.1 ex_froot ["f"] ex_file_cap.
Proof.
  destruct ex_file_world as (_ & Hd & _ & _).
  apply (@walk_in ex_dj _ ex_holds ex_fstored.1 ex_froot ex_fdir "f" (mkEntry "f" ex_file_cap (bareStat KindFile)) [] _ Hd eq_refl), walk_here.
Qed.

Lemma Lookup_In d name e : Lookup d name = Some e → e ∈ dm_Entries d.
Proof.
  unfold Lookup. cbn zeta. destruct (dm_Entries d !! _) as [e'|] eqn:E; [|done]. case_match; [|done]. intros [= <-].
  by eapply list_elem_of_lookup_2.
Qed.

Lemma normal_check c : bool_decide (c ≠ "" ∧ c ≠ "." ∧ c ≠ ".." ∧ has_slash c = false) = true → normal c.
Proof. by intros ?%bool_decide_eq_true. Qed.

Definition ex_created : ExP * result prov_err Item :=
  @CreateItem mod_sha toy_ed toy_cap_json ex_dj ex_fj _ ex_blobs _ mem_root_store ex_cfg [Byte.x05] 9 RootID
    (mkCreate "g" false zeroMeta (Some (mkReader ex_data false))) ex_prov.

Lemma create_correct_witness :
  ∃ it, ex_created.2 = Ok it ∧ ∃ ver, @FetchContents ex_dj ex_fj _ ex_blobs _ (it_ID it) ex_created.1 = (ex_data, Ok ver).
Proof.
  assert (is_ok ex_created.2 = true) as Hok by (vm_compute; reflexivity).
  pose proof (@create_correct mod_sha toy_ed toy_cap_json ex_dj ex_fj _ ex_blobs _ mem_root_store ex_cfg [Byte.x05] ex_vok ex_clean ex_holds ex_laws
    (λ _, True) (λ _, True) mr_rp mem_root_laws (λ _ _, I) (λ _ _ _, I) 9 RootID [] "g" zeroMeta ex_data ex_prov ex_created.1 ex_created.2
    ex_prov_ok) as H.
  destruct H as [_ H].
  - vm_compute. reflexivity.
  - vm_compute. reflexivity.
  - split; vm_compute; congruence.
  - reflexivity.
  - constructor; [apply normal_check; reflexivity|constructor].
  - constructor; [apply ex_utf8|constructor].
  - destruct ex_file_world as (_ & Hd & _ & _). eapply open_last. exact Hd.
  - reflexivity.
  - refine (conj _ (conj _ _)); vm_compute; [reflexivity|reflexivity|discriminate].
  - apply ex_meta_utf8.
  - exact (surjective_pairing ex_created).
  - apply is_clean_ok. vm_compute. reflexivity.
  - revert H Hok. generalize ex_created. intros [p' [it|e]]; cbn [fst snd]; [|discriminate].
    intros (_ & _ & _ & _ & Hf & _) _. exists it. exact (conj eq_refl Hf).
Defined.

Definition ex_deleted : ExP * result prov_err unit :=
  @DeleteItem toy_ed toy_cap_json ex_dj _ ex_blobs _ mem_root_store ex_cfg [Byte.x05] 9 (Minted 1) ex_prov.

Lemma delete_correct_witness :
  ex_deleted.2 = Ok tt ∧ ∃ n, @Resolve ex_dj _ ex_blobs (p_root ex_deleted.1) "f" (p_store ex_deleted.1) = Err (MNotFound n).
Proof.
  assert (ex_deleted.2 = Ok tt) as Hok by (vm_compute; reflexivity). split; [exact Hok|].
  pose proof (@delete_correct toy_ed toy_cap_json ex_dj _ ex_blobs _ mem_root_store ex_cfg [Byte.x05] ex_vok ex_clean ex_holds ex_laws
    (λ _, True) (λ _, True) mr_rp mem_root_laws (λ _ _, I) (λ _ _ _, I) 9 (Minted 1) ["f"] ex_file_cap ex_prov ex_deleted.1 ex_deleted.2
    ex_prov_ok) as H.
  rewrite Hok in H. destruct H as [_ H].
  - vm_compute. reflexivity.
  - split; vm_compute; congruence.
  - reflexivity.
  - discriminate.
  - constructor; [apply normal_check; reflexivity|constructor].
  - constructor; [apply ex_utf8|constructor].
  - exact ex_leads_f.
  - rewrite <-Hok. exact (surjective_pairing ex_deleted).
  - apply is_clean_ok. vm_compute. reflexivity.
  - exact (proj1 (proj2 H)).
Defined.

Definition ex_renamed : ExP * result prov_err Item :=
  @Rename mod_sha toy_ed toy_cap_json ex_dj ex_fj _ ex_blobs _ mem_root_store ex_cfg [Byte.x05] 9 (Minted 1) RootID "h" ex_prov.

Lemma rename_correct_witness : ∃ it, ex_renamed.2 = Ok it ∧ it_ID it = Minted 1 ∧ it_Cap it = ex_file_cap.
Proof.
  assert (is_ok ex_renamed.2 = true) as Hok by (vm_compute; reflexivity).
  destruct ex_file_world as (Hvok & Hd & [_ Hfc] & Hf).
  pose proof (@rename_correct mod_sha toy_ed toy_cap_json ex_dj ex_fj _ ex_blobs _ mem_root_store ex_cfg [Byte.x05] ex_vok ex_clean ex_holds ex_laws
    (λ _, True) (λ _, True) mr_rp mem_root_laws (λ _ _, I) (λ _ _ _, I) 9 (Minted 1) RootID "h" ["f"] [] ex_file_cap ex_prov
    ex_renamed.1 ex_renamed.2 ex_prov_ok) as H.
  destruct H as [_ H].
  - vm_compute. reflexivity.
  - vm_compute. reflexivity.
  - split; vm_compute; congruence.
  - reflexivity.
  - discriminate.
  - constructor; [apply normal_check; reflexivity|constructor].
  - constructor; [apply ex_utf8|constructor].
  - exact ex_leads_f.
  - exact Hfc.
  - reflexivity.
  - constructor; [apply normal_check; reflexivity|constructor].
  - constructor; [apply ex_utf8|constructor].
  - eapply open_last. exact Hd.
  - left. discriminate.
  - intros q Hq. cbn [ex_prov p_ids]. destruct (decide (q = "f")) as [->|H1]; [discriminate Hq|].
    destruct (decide (q = "")) as [->|H2]; [discriminate Hq|].
    change (byPath (idFor "f" newIdentity).1) with (<["f" := Minted 1]> {["" := RootID]} : gmap string ItemID).
    rewrite lookup_insert_ne by congruence. apply lookup_singleton_ne. congruence.
  - exact (surjective_pairing ex_renamed).
  - apply is_clean_ok. vm_compute. reflexivity.
  - revert H Hok. generalize ex_renamed. intros [p' [it|e]]; cbn [fst snd]; [|discriminate].
    intros (_ & H1 & H2 & _) _. exists it. exact (conj eq_refl (conj H1 H2)).
Defined.

(** A namespace with a directory "d", renamed to "d/x". *)
Definition ex_droot : ReadCap := cap_of ex_grafted.2.
Definition ex_dprov : ExP := mkProv ex_grafted.1 (mkMemRoot (Some (ex_pointer ex_droot))) (idFor "d" newIdentity).1 ex_droot 1.

Lemma ex_droot_walk :
  ex_vok ex_grafted.1 ∧ ∃ c, @walk ex_dj _ ex_holds ex_grafted.1 ex_droot ["d"] c ∧ cap_ok c ∧
    (∃ d, @dir_at ex_dj _ ex_holds ex_grafted.1 ex_droot d) ∧ @openable ex_dj _ ex_holds ex_grafted.1 ex_droot ["d"; "x"].
Proof.
  destruct ex_root_at as (Hok & Hd & Hc).
  destruct (@graft_spec ex_dj _ ex_blobs ex_cfg ex_vok ex_clean ex_holds ex_laws (ex_cap Byte.x05) (bareStat KindFile) ["d"; "b"] ex_root ex_rooted.1
    ex_grafted.1 ex_grafted.2) as (root' & E & _ & _ & Hx & Hw & _).
  - exact Hok.
  - apply (@open_new ex_dj _ ex_holds ex_rooted.1 ex_root ex_root_dir "d" "b" []); [exact Hd|reflexivity].
  - constructor; [apply ex_utf8|constructor; [apply ex_utf8|constructor]].
  - apply ex_cap_ok.
  - exact (surjective_pairing ex_grafted).
  - apply is_clean_ok. vm_compute. reflexivity.
  - split; [exact (proj1 Hx)|]. unfold ex_droot. rewrite E. cbn [cap_of]. clear E Hx. revert Hw. generalize ex_grafted.1. intros w Hw.
    inversion Hw as [|? d ? e ? ? Hd1 Hl Hw']; subst. inversion Hw' as [|? d' ? e' ? ? Hd2 Hl' Hw'']; subst. exists (e_Cap e).
    split; [econstructor; [exact Hd1|exact Hl|constructor]|]. split.
    { apply Lookup_In in Hl. exact (proj1 (Forall_forall _ _) (gd_caps _ (proj1 (proj2 Hd1))) e Hl). }
    split; [by exists d|]. eapply open_in; [exact Hd1|exact Hl|exact (dir_at_kind _ _ _ Hd2)|eapply open_last; exact Hd2].
Qed.

Lemma ex_dprov_ok : ex_pok ex_dprov.
Proof.
  destruct ex_droot_walk as (Hvok & c & _ & _ & Hd & _).
  split; [exact Hvok|exact I|apply idFor_wf; [apply ids_wf_new|reflexivity]|exact Hd| |cbn; lia].
  exists (ex_pointer ex_droot). repeat split.
Qed.

Definition ex_lost : ExP * result prov_err Item :=
  @Rename mod_sha toy_ed toy_cap_json ex_dj ex_fj _ ex_blobs _ mem_root_store ex_cfg [Byte.x05] 9 (Minted 1) (Minted 1) "x" ex_dprov.

Lemma ok_inv {E A B} (x : A * result E B) : is_ok x.2 = true → ∃ b, x = (x.1, Ok b).
Proof. destruct x as [a [b|e]]; [by exists b|discriminate]. Qed.

Lemma rename_into_self_loses_witness :
  is_ok ex_lost.2 = true ∧ ∃ n, @Resolve ex_dj _ ex_blobs (p_root ex_lost.1) "d/b" (p_store ex_lost.1) = Err (MNotFound n).
Proof.
  assert (is_ok ex_lost.2 = true) as Hok by (vm_compute; reflexivity). split; [exact Hok|].
  destruct ex_droot_walk as (Hvok & c & Hw & Hcc & _ & Ho).
  destruct (ok_inv ex_lost Hok) as [it E].
  pose proof (@rename_into_self_loses mod_sha toy_ed toy_cap_json ex_dj ex_fj _ ex_blobs _ mem_root_store ex_cfg [Byte.x05] ex_vok ex_clean
    ex_holds ex_laws (λ _, True) (λ _, True) mr_rp mem_root_laws (λ _ _, I) (λ _ _ _, I) 9 (Minted 1) (Minted 1) "x" ["d"] [] c ex_dprov
    ex_lost.1 it ex_dprov_ok) as H.
  refine (proj2 (proj2 (H _ _ _ _ _ _ Hw Hcc _ _ _ Ho E _)) ["b"] _).
  - vm_compute. reflexivity.
  - split; vm_compute; congruence.
  - reflexivity.
  - discriminate.
  - constructor; [apply normal_check; reflexivity|constructor].
  - constructor; [apply ex_utf8|constructor].
  - reflexivity.
  - constructor; [apply normal_check; reflexivity|constructor].
  - constructor; [apply ex_utf8|constructor].
  - apply is_clean_ok. vm_compute. reflexivity.
  - constructor; [apply normal_check; reflexivity|constructor].
Defined.
