(* ===== verification/LocalFS.v ===== *)
(** * The local directory: package os as the source uses it, and internal/fsmeta

    A file system is a finite map from paths (lists of components from "/") to
    nodes. Every call of package os numbers itself and asks the host whether it
    fails, what the clock shows and how far a partial effect went, so that a
    theorem that quantifies over hosts quantifies over all failures. Symbolic
    links are followed as the kernel does. Reading does not update access times. *)

From Stdlib Require Import Ascii.
From S2P Require Import Prelude GoLib Chunk Pipeline Manifest.

Abbreviation path := (list string).

Record Attr := mkAttr {
  at_perm : Z; at_mtime : Z; at_atime : Z; at_ctime : Z; at_uid : Z; at_gid : Z; at_xattr : gmap string bytes }.
Inductive body := BDir | BFile (data : bytes) | BLink (target : string).
#[export] Instance body_eq_dec : EqDecision body.
Proof. solve_decision. Defined.
Record node := mkNode { n_attr : Attr; n_body : body }.
Abbreviation FS := (gmap path node).

Inductive errno := ENOENT | ENOTDIR | EISDIR | EEXIST | ENOTEMPTY | ELOOP | EIO.
#[export] Instance errno_eq_dec : EqDecision errno.
Proof. solve_decision. Defined.

(** What the host decides about a call: whether it fails, the clock, how many
    bytes a failing read or write moved, what a failing RemoveAll left. *)
Record Call := mkCall { c_fail : bool; c_now : Z; c_len : nat; c_kept : list path }.

Record Host := mkHost {
  h_call : nat → Call;
  h_uid : Z; h_gid : Z; h_umask : Z;
  h_dirsize : path → Z;              (* the size Lstat reports for a directory *)
  h_mime : string → string;          (* mime.TypeByExtension *)
}.

Record OS := mkOS { os_fs : FS; os_calls : nat }.
Definition OSM (A : Type) : Type := OS → OS * result errno A.

(** Path resolution with at most [links] symbolic links; the last component is
    followed if [follow]. *)
Fixpoint resolve_path (links : nat) (fs : FS) (follow : bool) (done todo : path) {struct links} : result errno path :=
  (fix go (done todo : path) : result errno path :=
     match todo with
     | [] => Ok done
     | c :: rest =>
         if decide (c = "" ∨ c = ".") then go done rest
         else if decide (c = "..") then go (removelast done) rest
         else
           match n_body <$> fs !! (done ++ [c]) with
           | Some (BLink t) =>
               if bool_decide (rest = []) && negb follow then Ok (done ++ [c])
               else match links with
                    | O => Err ELOOP
                    | S links => resolve_path links fs follow (if String.prefix "/" t then [] else done) (split_slash "" t ++ rest)
                    end
           | Some BDir => go (done ++ [c]) rest
           | Some (BFile _) => if decide (rest = []) then Ok (done ++ [c]) else Err ENOTDIR
           | None => if decide (rest = []) then Ok (done ++ [c]) else Err ENOENT
           end
     end) done todo.

Definition maxLinks : nat := 40.
Definition resolve_in (fs : FS) (follow : bool) (p : path) : result errno path := resolve_path maxLinks fs follow [] p.

(** ** fs.FileInfo *)

Definition fsModeDir : Z := 2 ^ 31.
Definition fi_Mode (n : node) : Z :=
  match n_body n with
  | BDir => Z.lor fsModeDir (at_perm (n_attr n))
  | BFile _ => at_perm (n_attr n)
  | BLink _ => Z.lor ModeSymlink (at_perm (n_attr n))
  end.
Definition fi_Size (h : Host) (p : path) (n : node) : Z :=
  match n_body n with
  | BDir => h_dirsize h p
  | BFile d => Z.of_nat (length d)
  | BLink t => Z.of_nat (String.length t)
  end.
Definition fi_IsDir (n : node) : bool := match n_body n with BDir => true | _ => false end.
Definition is_link (n : node) : bool := match n_body n with BLink _ => true | _ => false end.

Section calls.
Context (h : Host).

Definition os_ret {A} (a : A) : OSM A := λ o, (o, Ok a).
Definition os_fail {A} (e : errno) : OSM A := λ o, (o, Err e).
Definition os_bind {A B} (m : OSM A) (k : A → OSM B) : OSM B :=
  λ o, let '(o, r) := m o in match r with Ok a => k a o | Err e => (o, Err e) end.
(** The result of a call as a value, for code that looks at the error. *)
Definition os_try {A} (m : OSM A) : OSM (result errno A) := λ o, let '(o, r) := m o in (o, Ok r).

Definition sys {A} (f : Call → FS → FS * result errno A) : OSM A := λ o,
  let c := h_call h (os_calls o) in
  if c_fail c then (mkOS (os_fs o) (os_calls o + 1)%nat, Err EIO)
  else let '(fs, r) := f c (os_fs o) in (mkOS fs (os_calls o + 1)%nat, r).

(** A call on the object a path names. *)
Definition at_path {A} (follow : bool) (p : path) (f : Call → path → option node → FS → FS * result errno A) : OSM A :=
  sys (λ c fs, match resolve_in fs follow p with Err e => (fs, Err e) | Ok q => f c q (fs !! q) fs end).

Definition new_attr (c : Call) (perm : Z) : Attr :=
  mkAttr (Z.ldiff perm (h_umask h)) (c_now c) (c_now c) (c_now c) (h_uid h) (h_gid h) ∅.

Definition Lstat (p : path) : OSM node := at_path false p (λ c q n fs, (fs, of_option ENOENT n)).

(** What reading an opened file to its end yields. *)
Definition Open (p : path) : OSM Reader :=
  at_path true p (λ c q n fs, (fs,
    match n_body <$> n with
    | None => Err ENOENT
    | Some (BFile d) => Ok (mkReader d false)
    | Some _ => Ok (mkReader [] true)
    end)).
Definition read_all (r : Reader) : OSM Reader := λ o,
  let c := h_call h (os_calls o) in
  (mkOS (os_fs o) (os_calls o + 1)%nat, Ok (if c_fail c then mkReader (take (c_len c) (r_data r)) true else r)).

Definition Create (p : path) : OSM path :=
  at_path true p (λ c q n fs,
    match n with
    | None => (<[q := mkNode (new_attr c 438) (BFile [])]> fs, Ok q)
    | Some (mkNode a BDir) => (fs, Err EISDIR)
    | Some (mkNode a (BFile _)) =>
        (<[q := mkNode (mkAttr (at_perm a) (c_now c) (at_atime a) (c_now c) (at_uid a) (at_gid a) (at_xattr a)) (BFile [])]> fs, Ok q)
    | Some (mkNode a (BLink _)) => (fs, Err ELOOP)
    end).

(** Writing to the file opened at [q]. *)
Definition append_to (c : Call) (data : bytes) (n : node) : node :=
  match n with
  | mkNode a (BFile d) => mkNode (mkAttr (at_perm a) (c_now c) (at_atime a) (c_now c) (at_uid a) (at_gid a) (at_xattr a)) (BFile (d ++ data))
  | n => n
  end.
Definition Write (q : path) (data : bytes) : OSM unit := λ o,
  let c := h_call h (os_calls o) in
  let data' := if c_fail c then take (c_len c) data else data in
  (mkOS (alter (append_to c data') q (os_fs o)) (os_calls o + 1)%nat, if c_fail c then Err EIO else Ok tt).
Definition Close : OSM unit := sys (λ c fs, (fs, Ok tt)).

Definition has_children (fs : FS) (q : path) : bool :=
  existsb (λ x, bool_decide (q `prefix_of` x.1) && negb (bool_decide (x.1 = q))) (map_to_list fs).

Definition Remove (p : path) : OSM unit :=
  at_path false p (λ c q n fs,
    match n with
    | None => (fs, Err ENOENT)
    | Some n => if fi_IsDir n && has_children fs q then (fs, Err ENOTEMPTY) else (delete q fs, Ok tt)
    end).

Definition Symlink (target : string) (p : path) : OSM unit :=
  at_path false p (λ c q n fs,
    match n with
    | Some _ => (fs, Err EEXIST)
    | None => (<[q := mkNode (new_attr c 511) (BLink target)]> fs, Ok tt)
    end).

Definition Readlink (p : path) : OSM string :=
  at_path false p (λ c q n fs, (fs, match n_body <$> n with Some (BLink t) => Ok t | Some _ => Err EIO | None => Err ENOENT end)).

(** Changing the attributes of a node. *)
Definition set_attr (follow : bool) (p : path) (f : Call → Attr → Attr) : OSM unit :=
  at_path follow p (λ c q n fs,
    match n with
    | None => (fs, Err ENOENT)
    | Some n => (<[q := mkNode (f c (n_attr n)) (n_body n)]> fs, Ok tt)
    end).
Definition Chmod (p : path) (perm : Z) : OSM unit :=
  set_attr true p (λ c a, mkAttr perm (at_mtime a) (at_atime a) (c_now c) (at_uid a) (at_gid a) (at_xattr a)).
Definition Chtimes (p : path) (at_ mt : Z) : OSM unit :=
  set_attr true p (λ c a, mkAttr (at_perm a) mt at_ (c_now c) (at_uid a) (at_gid a) (at_xattr a)).
Definition Lchown (p : path) (uid gid : Z) : OSM unit :=
  set_attr false p (λ c a, mkAttr (at_perm a) (at_mtime a) (at_atime a) (c_now c) uid gid (at_xattr a)).
Definition Setxattr (p : path) (name : string) (val : bytes) : OSM unit :=
  set_attr true p (λ c a, mkAttr (at_perm a) (at_mtime a) (at_atime a) (c_now c) (at_uid a) (at_gid a) (<[name := val]> (at_xattr a))).

(** One component of MkdirAll: Stat, then Mkdir where there is nothing. *)
Definition Mkdir_at (p : path) (perm : Z) : OSM unit :=
  sys (λ c fs,
    match resolve_in fs true p with
    | Err e => (fs, Err e)
    | Ok q =>
        match fs !! q with
        | Some n => (fs, if fi_IsDir n then Ok tt else Err ENOTDIR)
        | None =>
            if decide (q = []) then (fs, Ok tt)
            else match resolve_in fs false p with
                 | Ok q' => if decide (q' = q) then (<[q := mkNode (new_attr c perm) BDir]> fs, Ok tt) else (fs, Err EEXIST)
                 | Err e => (fs, Err e)
                 end
        end
    end).
Fixpoint mkdirs (done todo : path) (perm : Z) : OSM unit :=
  match todo with
  | [] => os_ret tt
  | c :: todo => os_bind (Mkdir_at (done ++ [c]) perm) (λ _, mkdirs (done ++ [c]) todo perm)
  end.
Definition MkdirAll (p : path) (perm : Z) : OSM unit := mkdirs [] p perm.

(** os.ReadFile; os.CreateTemp with the name it chooses; os.Rename of a file. *)
Definition ReadFile (p : path) : OSM bytes :=
  at_path true p (λ c q n fs, (fs, match n_body <$> n with None => Err ENOENT | Some (BFile d) => Ok d | Some _ => Err EISDIR end)).
Definition CreateTemp (p : path) : OSM path :=
  at_path false p (λ c q n fs,
    match n with
    | Some _ => (fs, Err EEXIST)
    | None => (<[q := mkNode (new_attr c 384) (BFile [])]> fs, Ok q)
    end).
Definition Rename (old new : path) : OSM unit :=
  at_path false old (λ c q n fs,
    match n, resolve_in fs false new with
    | None, _ => (fs, Err ENOENT)
    | _, Err e => (fs, Err e)
    | Some n, Ok r =>
        if match fs !! r with Some m => fi_IsDir m | None => false end then (fs, Err EEXIST)
        else (<[r := n]> (delete q fs), Ok tt)
    end).

(** A failing RemoveAll leaves some paths and the directories above them. *)
Definition kept_above (kept : list path) (r : path) : bool := existsb (λ k, bool_decide (r `prefix_of` k)) kept.
Definition RemoveAll (p : path) : OSM unit := λ o,
  let c := h_call h (os_calls o) in
  let fs := os_fs o in
  match resolve_in fs false p with
  | Err ENOENT => (mkOS fs (os_calls o + 1)%nat, Ok tt)
  | Err e => (mkOS fs (os_calls o + 1)%nat, Err e)
  | Ok q =>
      if c_fail c
      then (mkOS (filter (λ x, ¬ q `prefix_of` x.1 ∨ kept_above (c_kept c) x.1 = true) fs) (os_calls o + 1)%nat, Err EIO)
      else (mkOS (filter (λ x, ¬ q `prefix_of` x.1) fs) (os_calls o + 1)%nat, Ok tt)
  end.
End calls.

Notation "'os!' x ':=' m 'in' k" := (os_bind m (λ x, k)) (at level 10, x pattern, m at level 100, k at level 200).

(** ** internal/fsmeta *)

(** [filepath.Ext]: from the last dot of the last component. *)
Fixpoint last_dot (s : string) : option string :=
  match s with
  | EmptyString => None
  | String c s' =>
      match last_dot s' with
      | Some e => Some e
      | None => if decide (c = "."%char) then Some s else None
      end
  end.
Definition Base (p : path) : string := default "/" (last p).
Definition Ext (p : path) : string := default "" (last_dot (Base p)).

Definition FlagReadOnly : Z := 2.
Definition FlagHidden : Z := 1.

(** [splitNull]: the names in a listxattr buffer; [cur] is the name read so
    far. *)
Fixpoint splitNull_loop (cur b : bytes) : list bytes :=
  match b with
  | [] => []
  | x :: b =>
      if decide (x = Byte.x00) then match cur with [] => splitNull_loop [] b | _ => cur :: splitNull_loop [] b end
      else splitNull_loop (cur ++ [x]) b
  end.
Definition splitNull : bytes → list bytes := splitNull_loop [].

Section fsmeta.
Context (h : Host).

Definition Listxattr (p : path) : OSM bytes :=
  at_path h true p (λ c q n fs, (fs,
    match n with
    | None => Err ENOENT
    | Some n => Ok (concat ((λ x, str_bytes x.1 ++ [Byte.x00]) <$> map_to_list (at_xattr (n_attr n))))
    end)).
Definition Getxattr (p : path) (name : bytes) : OSM bytes :=
  at_path h true p (λ c q n fs, (fs,
    match n with
    | None => Err ENOENT
    | Some n => of_option ENOENT (at_xattr (n_attr n) !! bytes_key name)
    end)).

(** Each name is asked for its size and then for its value; empty values and
    failures are skipped. *)
Fixpoint read_values (p : path) (names : list bytes) (out : gmap string bytes) : OSM (gmap string bytes) :=
  match names with
  | [] => os_ret out
  | name :: names =>
      os! size := os_try (Getxattr p name) in
      match size with
      | Err _ | Ok [] => read_values p names out
      | Ok _ =>
          os! val := os_try (Getxattr p name) in
          match val with
          | Err _ => read_values p names out
          | Ok val => read_values p names (<[bytes_key name := val]> out)
          end
      end
  end.
(** The empty map stands for nil. *)
Definition readXattrs (p : path) : OSM (gmap string bytes) :=
  os! size := os_try (Listxattr p) in
  match size with
  | Err _ | Ok [] => os_ret ∅
  | Ok _ =>
      os! buf := os_try (Listxattr p) in
      match buf with
      | Err _ => os_ret ∅
      | Ok buf => read_values p (splitNull buf) ∅
      end
  end.

Definition capture_flags (p : path) (n : node) : Z :=
  Z.lor (if String.prefix "." (Base p) then FlagHidden else 0)
    (if negb (is_link n) && (Z.land (at_perm (n_attr n)) 128 =? 0) then FlagReadOnly else 0).

Definition Capture (p : path) (n : node) : OSM Metadata :=
  os! target := if is_link n then os_try (Readlink h p) else os_ret (Ok "") in
  let target := match target with Ok t => t | Err _ => "" end in
  let ctype := if is_link n then "" else h_mime h (Ext p) in
  let a := n_attr n in
  os! xa := readXattrs p in
  os_ret (mkMeta (fi_Mode n) (at_uid a) (at_gid a) (at_mtime a) (at_ctime a) (at_atime a) 0
    (capture_flags p n) ctype target xa [] []).

(** Best effort: each call is made whatever the ones before returned, and any
    failure makes the result a failure ([errors.Join]). *)
Definition attempt (m : OSM unit) (errs : list errno) : OSM (list errno) := λ o,
  let '(o, r) := m o in (o, Ok (match r with Ok _ => errs | Err e => errs ++ [e] end)).
Definition joined (errs : list errno) : OSM unit := match errs with [] => os_ret tt | e :: _ => os_fail e end.

Fixpoint set_xattrs (p : path) (xs : list (string * bytes)) (errs : list errno) : OSM (list errno) :=
  match xs with
  | [] => os_ret errs
  | (name, val) :: xs => os! errs := attempt (Setxattr h p name val) errs in set_xattrs p xs errs
  end.
Definition restoreExtras (p : path) (meta : Metadata) : OSM unit :=
  os! errs := if negb (md_Uid meta =? 0) || negb (md_Gid meta =? 0) then attempt (Lchown h p (md_Uid meta) (md_Gid meta)) [] else os_ret [] in
  os! errs := set_xattrs p (map_to_list (md_Xattr meta)) errs in
  joined errs.

Definition Restore (p : path) (meta : Metadata) : OSM unit :=
  os! errs := if IsSymlink meta then os_ret []
              else if md_Mode meta =? 0 then os_ret []
              else attempt (Chmod h p (Z.land (md_Mode meta) 511)) [] in
  os! errs := if IsSymlink meta then os_ret errs
              else if md_ModTimeNS meta =? 0 then os_ret errs
              else attempt (Chtimes h p (if md_AccessTimeNS meta =? 0 then md_ModTimeNS meta else md_AccessTimeNS meta) (md_ModTimeNS meta)) errs in
  os! errs := attempt (restoreExtras p meta) errs in
  joined errs.

Definition RestoreSymlink (p : path) (meta : Metadata) : OSM unit :=
  if decide (md_SymlinkTarget meta = "") then os_fail EIO
  else
    os! r := os_try (Remove h p) in
    match r with
    | Err e => if decide (e = ENOENT) then os! _ := Symlink h (md_SymlinkTarget meta) p in Restore p meta else os_fail e
    | Ok _ => os! _ := Symlink h (md_SymlinkTarget meta) p in Restore p meta
    end.
End fsmeta.

(** ** What a call leaves alone

    In a tree without symbolic links a path names itself, so a call changes
    nothing that exists outside the path it is given. *)

Definition links_free (fs : FS) : Prop := ∀ q n, fs !! q = Some n → is_link n = false.

Lemma resolve_plain fs follow p q : links_free fs → Forall normal p → resolve_in fs follow p = Ok q → q = p.
Proof.
  intros Hl Hp. unfold resolve_in. change p with ([] ++ p) at 2. generalize (@nil string) as done. generalize maxLinks as links.
  intros links. assert (∀ todo done, Forall normal todo → resolve_path links fs follow done todo = Ok q → q = done ++ todo) as H; [|by eauto].
  induction todo as [|c rest IH]; intros done Hn E.
  { destruct links; injection E as <-; by rewrite app_nil_r. }
  apply Forall_cons in Hn as [(H1 & H2 & H3 & _) Hn].
  assert (match n_body <$> fs !! (done ++ [c]) with
          | Some BDir => resolve_path links fs follow (done ++ [c]) rest
          | Some (BFile _) => if decide (rest = []) then Ok (done ++ [c]) else Err ENOTDIR
          | _ => if decide (rest = []) then Ok (done ++ [c]) else Err ENOENT
          end = Ok q) as E'.
  { destruct links; cbn in E |- *; rewrite decide_False in E by tauto; rewrite decide_False in E by done;
      (destruct (fs !! (done ++ [c])) as [n|] eqn:En; [|exact E]);
      pose proof (Hl _ _ En) as Hk; unfold is_link in Hk; cbn in E |- *; by destruct (n_body n). }
  destruct (n_body <$> fs !! (done ++ [c])) as [[]|]; [|case_decide; simplify_eq; by rewrite ?app_nil_r..].
  rewrite (IH _ Hn E'). by rewrite <-app_assoc.
Qed.

(** A path whose directories exist resolves. *)
Lemma resolve_dirs fs follow root c : links_free fs → Forall normal root → normal c →
  (∀ k, k `prefix_of` root → k ≠ [] → n_body <$> fs !! k = Some BDir) → resolve_in fs follow (root ++ [c]) = Ok (root ++ [c]).
Proof.
  intros Hl Hr Hc. unfold resolve_in. generalize maxLinks as links. intros links.
  assert (∀ todo dn, Forall normal todo → (∀ k, k `prefix_of` todo → k ≠ [] → n_body <$> fs !! (dn ++ k) = Some BDir) →
    resolve_path links fs follow dn (todo ++ [c]) = Ok (dn ++ todo ++ [c])) as H; [|by intros Hk; apply (H root [])].
  induction todo as [|x todo IH]; intros dn Hn Hk.
  - destruct Hc as (H1 & H2 & H3 & _). destruct links; cbn; rewrite decide_False by tauto; rewrite decide_False by done;
      (destruct (fs !! (dn ++ [c])) as [n|] eqn:En; [|done]); pose proof (Hl _ _ En) as Hi; unfold is_link in Hi; cbn; by destruct (n_body n).
  - apply Forall_cons in Hn as [(H1 & H2 & H3 & _) Hn].
    assert (n_body <$> fs !! (dn ++ [x]) = Some BDir) as Ex.
    { apply (Hk [x]); [|done]. by exists todo. }
    assert (resolve_path links fs follow dn ((x :: todo) ++ [c]) = resolve_path links fs follow (dn ++ [x]) (todo ++ [c])) as ->.
    { destruct links; cbn; rewrite decide_False by tauto; rewrite decide_False by done; by rewrite Ex. }
    rewrite IH; [by rewrite <-app_assoc|done|]. intros k Hp Hne. rewrite <-app_assoc. apply Hk; [|done]. by apply prefix_cons.
Qed.

(** Nothing changes outside [p] and below, except that directories may appear
    above it. *)
Definition same_outside (p : path) (fs fs' : FS) : Prop :=
  ∀ q, ¬ p `prefix_of` q → fs' !! q = fs !! q ∨ (q `prefix_of` p ∧ fs !! q = None).
Lemma same_outside_refl p fs : same_outside p fs fs.
Proof. by left. Qed.
Lemma same_outside_trans p fs1 fs2 fs3 : same_outside p fs1 fs2 → same_outside p fs2 fs3 → same_outside p fs1 fs3.
Proof.
  intros H1 H2 q Hq. destruct (H1 q Hq) as [E1|?]; [|by right]. destruct (H2 q Hq) as [E2|[? E2]]; [left; congruence|right].
  split; congruence.
Qed.

(** [m] keeps a tree without links, and what is outside [p]. *)
Definition keeps {A} (p : path) (m : OSM A) : Prop := ∀ o, links_free (os_fs o) →
  links_free (os_fs (m o).1) ∧ same_outside p (os_fs o) (os_fs (m o).1).
#[export] Hint Resolve same_outside_refl : core.

(** The same without new directories above [p]. *)
Definition fixes {A} (p : path) (m : OSM A) : Prop := ∀ o, links_free (os_fs o) →
  links_free (os_fs (m o).1) ∧ ∀ q, ¬ p `prefix_of` q → os_fs (m o).1 !! q = os_fs o !! q.
Lemma fixes_keeps {A} p (m : OSM A) : fixes p m → keeps p m.
Proof. intros Hm o Hl. destruct (Hm o Hl) as [Hl' H]. split; [done|]. intros q Hq. left. by apply H. Qed.

Section keeps.
Context (h : Host) (p : path).

Lemma keeps_ret {A} (a : A) : keeps p (os_ret a).
Proof. intros o Hl. done. Qed.
Lemma keeps_fail {A} e : keeps p (os_fail (A := A) e).
Proof. intros o Hl. done. Qed.
Lemma keeps_bind {A B} (m : OSM A) (k : A → OSM B) : keeps p m → (∀ a, keeps p (k a)) → keeps p (os_bind m k).
Proof.
  intros Hm Hk o Hl. destruct (Hm o Hl) as [Hl' H]. unfold os_bind. destruct (m o) as [o' [a|e]]; [|done].
  destruct (Hk a o' Hl') as [Hl'' H']. split; [done|]. by eapply same_outside_trans.
Qed.
Lemma keeps_try {A} (m : OSM A) : keeps p m → keeps p (os_try m).
Proof. intros Hm o Hl. destruct (Hm o Hl) as [Hl' H]. unfold os_try. by destruct (m o). Qed.
Lemma keeps_attempt m errs : keeps p m → keeps p (attempt m errs).
Proof. intros Hm o Hl. destruct (Hm o Hl) as [Hl' H]. unfold attempt. by destruct (m o). Qed.

(** A call that changes at most the node at the path. *)
Lemma fixes_at {A} (follow : bool) (f : Call → path → option node → FS → FS * result errno A) :
  Forall normal p →
  (∀ c q fs, links_free fs → (f c q (fs !! q) fs).1 = fs ∨ ∃ n, is_link n = false ∧ (f c q (fs !! q) fs).1 = <[q := n]> fs) →
  fixes p (at_path h follow p f).
Proof.
  intros Hp Hf o Hl. unfold at_path, sys. case_match; [done|].
  destruct (resolve_in (os_fs o) follow p) as [q|e] eqn:E; [|done].
  apply resolve_plain in E as ->; [|done..].
  destruct (Hf (h_call h (os_calls o)) p (os_fs o) Hl) as [Ef|(n' & Hn' & Ef)];
    destruct (f _ p _ _) as [fs' r]; cbn in Ef |- *; subst fs'; [done|].
  split.
  - intros q n. rewrite lookup_insert_Some. intros [[<- <-]|[_ H0]]; [done|by eapply Hl].
  - intros q Hq. rewrite lookup_insert_ne; [done|]. intros ->. by apply Hq.
Qed.

(** A call that changes nothing. *)
Lemma fixes_pure {A} (m : OSM A) : (∀ o, os_fs (m o).1 = os_fs o) → fixes p m.
Proof. intros Hm o Hl. rewrite !Hm. by split. Qed.

Lemma pure_at {A} (follow : bool) (q : path) (g : Call → path → option node → FS → result errno A) (o : OS) :
  os_fs (at_path h follow q (λ c r n fs, (fs, g c r n fs)) o).1 = os_fs o.
Proof. unfold at_path, sys. case_match; [done|]. by destruct (resolve_in _ _ _). Qed.

Context (Hp : Forall normal p).

Lemma fixes_set_attr (follow : bool) f : fixes p (set_attr h follow p f).
Proof.
  apply fixes_at; [done|]. intros c q fs Hl. destruct (fs !! q) as [n|] eqn:En; [|by left].
  right. exists (mkNode (f c (n_attr n)) (n_body n)). split; [|done]. exact (Hl _ _ En).
Qed.

Lemma fixes_Create : fixes p (Create h p).
Proof.
  apply fixes_at; [done|]. intros c q fs Hl. destruct (fs !! q) as [[a [|d|t]]|] eqn:En; [by left| |by left|];
    right; eexists (mkNode _ (BFile [])); split; reflexivity.
Qed.

Lemma Create_path o o' q : links_free (os_fs o) → Create h p o = (o', Ok q) → q = p.
Proof.
  intros Hl. unfold Create, at_path, sys. case_match; [done|].
  destruct (resolve_in (os_fs o) true p) as [q'|e] eqn:E; [|done]. apply resolve_plain in E as ->; [|done..]. intros E. repeat (case_match; simplify_eq); done.
Qed.

Lemma fixes_Write data : fixes p (Write h p data).
Proof.
  intros o Hl. unfold Write. cbn. split.
  - intros q n. rewrite lookup_alter_Some. intros [(<- & n0 & E & ->)|[_ E]]; [|by eapply Hl].
    specialize (Hl _ _ E). destruct n0 as [a []]; done.
  - intros q Hq. rewrite lookup_alter_ne; [done|]. intros ->. by apply Hq.
Qed.

Lemma fixes_CreateTemp : fixes p (CreateTemp h p).
Proof.
  apply fixes_at; [done|]. intros c q fs Hl. destruct (fs !! q) as [n|] eqn:En; [by left|].
  right. eexists (mkNode _ (BFile [])). split; reflexivity.
Qed.

Lemma CreateTemp_path o o' q : links_free (os_fs o) → CreateTemp h p o = (o', Ok q) → q = p.
Proof.
  intros Hl. unfold CreateTemp, at_path, sys. case_match; [done|].
  destruct (resolve_in (os_fs o) false p) as [q'|e] eqn:E; [|done]. apply resolve_plain in E as ->; [|done..]. intros E. repeat (case_match; simplify_eq); done.
Qed.

Lemma fixes_Remove : fixes p (Remove h p).
Proof.
  intros o Hl. unfold Remove, at_path, sys. case_match; [done|].
  destruct (resolve_in (os_fs o) false p) as [q|e] eqn:E; [|done]. apply resolve_plain in E as ->; [|done..].
  destruct (os_fs o !! p) as [n|] eqn:En; [|done]. destruct (fi_IsDir n && has_children (os_fs o) p); [done|]. cbn. split.
  - intros q m. rewrite lookup_delete_Some. intros [_ Hq]. by eapply Hl.
  - intros q Hq. rewrite lookup_delete_ne; [done|]. intros ->. by apply Hq.
Qed.

Lemma Rename_keeps new o q : Forall normal new → links_free (os_fs o) → q ≠ p → q ≠ new →
  links_free (os_fs (Rename h p new o).1) ∧ os_fs (Rename h p new o).1 !! q = os_fs o !! q.
Proof.
  intros Hnew Hl Hqp Hqn. unfold Rename, at_path, sys. case_match; [done|].
  destruct (resolve_in (os_fs o) false p) as [x|e] eqn:E; [|done]. apply resolve_plain in E as ->; [|done..].
  destruct (os_fs o !! p) as [m|] eqn:Em; [|done].
  destruct (resolve_in (os_fs o) false new) as [y|e] eqn:E; [|done]. apply resolve_plain in E as ->; [|done..].
  match goal with |- context [if ?b then _ else _] => destruct b; [done|] end. cbn. split.
  - intros z m'. rewrite lookup_insert_Some. intros [[<- <-]|[_ [_ Hz]%lookup_delete_Some]]; [by eapply Hl|by eapply Hl].
  - by rewrite lookup_insert_ne, lookup_delete_ne.
Qed.

Lemma fixes_Close : fixes p (Close h).
Proof. apply fixes_pure. intros o. unfold Close, sys. by case_match. Qed.

Lemma fixes_RemoveAll : fixes p (RemoveAll h p).
Proof.
  intros o Hl. unfold RemoveAll. destruct (resolve_in (os_fs o) false p) as [q|e] eqn:E; [|by destruct e].
  apply resolve_plain in E as ->; [|done..].
  split; case_match; cbn.
  1, 2: intros q n; rewrite map_lookup_filter_Some; intros [Eq _]; by eapply Hl.
  all: intros q Hq; destruct (os_fs o !! q) as [n|] eqn:Eq;
    [apply map_lookup_filter_Some; split; [done|]; first [by left|done]|apply map_lookup_filter_None; by left].
Qed.
(** What successful calls leave at the path. *)
Definition body_at (fs : FS) (q : path) : option body := n_body <$> fs !! q.

Lemma CreateTemp_ok o o' x : links_free (os_fs o) → CreateTemp h p o = (o', Ok x) → body_at (os_fs o') p = Some (BFile []).
Proof.
  intros Hl. unfold CreateTemp, at_path, sys. case_match; [done|].
  destruct (resolve_in (os_fs o) false p) as [q'|e] eqn:E; [|done]. apply resolve_plain in E as ->; [|done..].
  destruct (os_fs o !! p); [done|]. intros [= <- <-]. unfold body_at. cbn. by rewrite lookup_insert_eq.
Qed.
Lemma set_attr_ok (follow : bool) f o o' x : links_free (os_fs o) → set_attr h follow p f o = (o', Ok x) → body_at (os_fs o') p = body_at (os_fs o) p.
Proof.
  intros Hl. unfold set_attr, at_path, sys. case_match; [done|].
  destruct (resolve_in (os_fs o) follow p) as [q'|e] eqn:E; [|done]. apply resolve_plain in E as ->; [|done..].
  unfold body_at. destruct (os_fs o !! p); [|done]. intros [= <- <-]. cbn. by rewrite lookup_insert_eq.
Qed.
Lemma Write_ok o o' x d data : Write h p data o = (o', Ok x) → body_at (os_fs o) p = Some (BFile d) → body_at (os_fs o') p = Some (BFile (d ++ data)).
Proof.
  unfold Write, body_at. intros E Hb. destruct (c_fail _); [done|]. injection E as <- _. cbn. rewrite lookup_alter_eq.
  destruct (os_fs o !! p) as [[a b]|]; [|done]. cbn in *. by destruct b; simplify_eq.
Qed.
Lemma Rename_ok new o o' x : Forall normal new → p ≠ new → links_free (os_fs o) → Rename h p new o = (o', Ok x) →
  body_at (os_fs o') new = body_at (os_fs o) p.
Proof.
  intros Hnew Hne Hl. unfold Rename, at_path, sys. case_match; [done|].
  destruct (resolve_in (os_fs o) false p) as [y|e] eqn:E; [|done]. apply resolve_plain in E as ->; [|done..].
  unfold body_at. destruct (os_fs o !! p) as [m|] eqn:Em; [|done].
  destruct (resolve_in (os_fs o) false new) as [y|e] eqn:E; [|done]. apply resolve_plain in E as ->; [|done..].
  match goal with |- context [if ?b then _ else _] => destruct b; [done|] end. intros [= <- <-]. cbn. by rewrite lookup_insert_eq.
Qed.
Lemma Rename_fail new o o' e : Rename h p new o = (o', Err e) → os_fs o' = os_fs o.
Proof. unfold Rename, at_path, sys. intros E. repeat (case_match; simplify_eq; try done). Qed.

Lemma RemoveAll_absent o q : os_fs o !! q = None → os_fs (RemoveAll h p o).1 !! q = None.
Proof.
  intros Hq. unfold RemoveAll. destruct (resolve_in _ _ _) as [x|e]; [|by destruct e].
  case_match; cbn; apply map_lookup_filter_None; by left.
Qed.
End keeps.

Create HintDb localfs.
#[export] Hint Resolve fixes_keeps keeps_ret keeps_fail keeps_try keeps_attempt : localfs.
#[export] Hint Resolve fixes_set_attr fixes_Create fixes_CreateTemp fixes_Remove fixes_Write fixes_Close fixes_RemoveAll : localfs.
#[export] Hint Unfold Chmod Chtimes Lchown Setxattr : localfs.

Lemma normal_prefix (p p' : path) : Forall normal p → p' `prefix_of` p → Forall normal p'.
Proof. by intros Hp [k ->]; apply Forall_app in Hp as [? _]. Qed.
Lemma removelast_prefix {A} (l : list A) : removelast l `prefix_of` l.
Proof.
  destruct l as [|x l]; [by exists []|]. exists [List.last (x :: l) x]. by apply app_removelast_last.
Qed.

Section mkdir.
Context (h : Host).

(** MkdirAll only adds directories on the way. *)
Lemma keeps_Mkdir_at p p' perm : Forall normal p → p' `prefix_of` p → keeps p (Mkdir_at h p' perm).
Proof.
  intros Hp Hpre o Hl. unfold Mkdir_at, sys. case_match; [done|].
  destruct (resolve_in (os_fs o) true p') as [q|e] eqn:E; [|done]. apply resolve_plain in E as ->; [|done|by eapply normal_prefix].
  destruct (os_fs o !! p') as [n|] eqn:En; [done|].
  case_decide; [done|]. destruct (resolve_in (os_fs o) false p') as [q'|e]; [|done]. case_decide as Eq; [|done]. cbn. split.
  - intros r n. rewrite lookup_insert_Some. intros [[<- <-]|[_ H']]; [done|by eapply Hl].
  - intros r Hr. destruct (decide (r = p')) as [->|Hne]; [by right|]. left. by rewrite lookup_insert_ne.
Qed.

Lemma keeps_mkdirs p todo : Forall normal p → ∀ dn perm, dn ++ todo `prefix_of` p → keeps p (mkdirs h dn todo perm).
Proof.
  intros Hp. induction todo as [|c todo IH]; intros dn perm Hpre; cbn [mkdirs]; [apply keeps_ret|].
  rewrite cons_middle, app_assoc in Hpre. apply keeps_bind; [|intros _; by apply IH].
  apply keeps_Mkdir_at; [done|]. etransitivity; [|exact Hpre]. by apply prefix_app_r.
Qed.

Lemma keeps_MkdirAll p p' perm : Forall normal p → p' `prefix_of` p → keeps p (MkdirAll h p' perm).
Proof. intros Hp Hpre. by apply keeps_mkdirs. Qed.
End mkdir.
Lemma prefix_self {A} (l : list A) : l `prefix_of` l.
Proof. done. Qed.
#[export] Hint Resolve keeps_MkdirAll removelast_prefix prefix_self : localfs.

(** Steps through the binds of a sequence of calls. *)
Ltac keeps_tac :=
  repeat (first [solve [auto with localfs] | apply keeps_bind; [|intros ?] | case_match | progress autounfold with localfs]).

Section restore.
Context (h : Host) (p : path) (Hp : Forall normal p).

Lemma keeps_Lstat : keeps p (Lstat h p).
Proof. apply fixes_keeps, fixes_pure. intros o. apply pure_at. Qed.

Lemma keeps_joined errs : keeps p (joined errs).
Proof. destruct errs; [apply keeps_ret|apply keeps_fail]. Qed.

Lemma keeps_set_xattrs xs : ∀ errs, keeps p (set_xattrs h p xs errs).
Proof. induction xs as [|[name val] xs IH]; intros errs; cbn [set_xattrs]; keeps_tac. Qed.
#[local] Hint Resolve keeps_joined keeps_set_xattrs : localfs.

Lemma keeps_restoreExtras meta : keeps p (restoreExtras h p meta).
Proof. unfold restoreExtras. keeps_tac. Qed.
#[local] Hint Resolve keeps_restoreExtras : localfs.

Lemma keeps_Restore meta : keeps p (Restore h p meta).
Proof. unfold Restore. keeps_tac. Qed.
End restore.
#[export] Hint Resolve keeps_Lstat keeps_Restore : localfs.

(** Calls that only look. *)
Definition os_pure {A} (m : OSM A) : Prop := ∀ o, os_fs (m o).1 = os_fs o.

Section pure.
Context (h : Host).

Lemma pure_ret {A} (a : A) : os_pure (os_ret a).
Proof. done. Qed.
Lemma pure_bind {A B} (m : OSM A) (k : A → OSM B) : os_pure m → (∀ a, os_pure (k a)) → os_pure (os_bind m k).
Proof. intros Hm Hk o. unfold os_bind. specialize (Hm o). destruct (m o) as [o' [a|e]]; [|done]. by rewrite Hk. Qed.
Lemma pure_try {A} (m : OSM A) : os_pure m → os_pure (os_try m).
Proof. intros Hm o. unfold os_try. specialize (Hm o). by destruct (m o). Qed.
Lemma pure_call {A} (follow : bool) (q : path) (g : Call → path → option node → FS → result errno A) :
  os_pure (at_path h follow q (λ c r n fs, (fs, g c r n fs))).
Proof. intros o. apply pure_at. Qed.
Lemma pure_Close : os_pure (Close h).
Proof. intros o. unfold Close, sys. by case_match. Qed.
Lemma pure_read_all rd : os_pure (read_all h rd).
Proof. done. Qed.

Lemma pure_Lstat p : os_pure (Lstat h p).
Proof. apply pure_call. Qed.
Lemma pure_Open p : os_pure (Open h p).
Proof. apply pure_call. Qed.
Lemma pure_ReadFile p : os_pure (ReadFile h p).
Proof. apply pure_call. Qed.

Lemma pure_read_values p names : ∀ out, os_pure (read_values h p names out).
Proof.
  induction names as [|x names IH]; intros out; cbn [read_values]; [apply pure_ret|].
  apply pure_bind; [apply pure_try, pure_call|]. intros [[|? ?]|?]; [apply IH| |apply IH].
  apply pure_bind; [apply pure_try, pure_call|]. intros [?|?]; apply IH.
Qed.

Lemma pure_Capture p n : os_pure (Capture h p n).
Proof.
  unfold Capture. apply pure_bind; [destruct (is_link n); [apply pure_try, pure_call|apply pure_ret]|]. intros t.
  apply pure_bind; [|intros xa; apply pure_ret]. unfold readXattrs.
  apply pure_bind; [apply pure_try, pure_call|]. intros [[|? ?]|?]; [apply pure_ret| |apply pure_ret].
  apply pure_bind; [apply pure_try, pure_call|]. intros [?|?]; [apply pure_read_values|apply pure_ret].
Qed.
End pure.
#[export] Hint Resolve pure_ret pure_try pure_Lstat pure_Open pure_ReadFile pure_Close pure_read_all pure_Capture : localfs.
