(* ===== verification/Sync.v ===== *)
(** * internal/sync: scans, state and plans (sync.go, remote.go, state.go, reconcile.go)

    The three-way reconciliation of a local directory with a namespace: the
    snapshots of the two sides, the base they last agreed on, and the plan of
    operations computed from the three. Go ranges over a map in an unspecified
    order; [plan] receives that order as an argument. *)

From Stdlib Require Import Ascii.
From S2P Require Import Prelude GoLib Store Crypto Chunk Pipeline Codec Manifest Identity Provider LocalFS.

(** ** Snapshots *)

Inductive kind := kindLeaf | kindDir.
#[export] Instance kind_eq_dec : EqDecision kind.
Proof. solve_decision. Defined.

Record localState := mkLS { ls_kind : kind; ls_isSymlink : bool; ls_size : Z; ls_mtimeNS : Z; ls_mode : Z }.
Record remoteState := mkRS { rs_id : ItemID; rs_kind : kind; rs_isSymlink : bool; rs_size : Z; rs_content : bytes; rs_meta : bytes }.
Abbreviation localSnapshot := (gmap string localState).
Abbreviation remoteSnapshot := (gmap string remoteState).

Definition itemKindOf (it : Item) : kind := if it_IsDir it then kindDir else kindLeaf.

Definition parentPath (p : string) : string := match last_slash p with None => "" | Some (a, _) => a end.
Definition baseName (p : string) : string := match last_slash p with None => p | Some (_, b) => b end.

Fixpoint count_slash (p : string) : Z :=
  match p with EmptyString => 0 | String c p => (if decide (c = "/"%char) then 1 else 0) + count_slash p end.
Definition depth (p : string) : Z := if decide (p = "") then 0 else count_slash p + 1.

(** [localAbs]: filepath.Join cleans the path. *)
Definition localAbs (root : path) (rel : string) : path := foldl clean_step root (split_slash "" rel).

(** What a walk of the tree meets beside the nodes: an unreadable root, a
    directory whose listing fails, an entry whose Info fails. *)
Record ScanFaults := mkScan { sf_root : bool; sf_readdir : path → bool; sf_info : path → bool }.

Section scanLocal.
Context (h : Host) (root : path) (ignore : string → bool) (sf : ScanFaults) (fs : FS).

(** Does filepath.WalkDir, with SkipDir for ignored entries and failed
    listings, reach the entry [cs] below the directory [q]? [seen] are the
    components from the root to [q]. *)
Fixpoint reached (q : path) (cs : path) : bool :=
  match cs with
  | [] => true
  | c :: cs =>
      let q' := q ++ [c] in
      negb (sf_readdir sf (root ++ q)) &&
      bool_decide (n_body <$> fs !! (root ++ q) = Some BDir) &&
      negb (ignore (join_slash q')) && reached q' cs
  end.

(** The entry recorded for one visited path. *)
Definition visit (abs : path) (n : node) : option (string * localState) :=
  let rel := drop (length root) abs in
  if bool_decide (take (length root) abs = root) && negb (bool_decide (rel = [])) && reached [] rel && negb (sf_info sf abs)
  then Some (join_slash rel,
    mkLS (if fi_IsDir n then kindDir else kindLeaf) (is_link n) (fi_Size h abs n) (at_mtime (n_attr n)) (fi_Mode n))
  else None.

Definition scanLocal : localSnapshot :=
  if sf_root sf then ∅ else list_to_map (omap (λ x, visit x.1 x.2) (map_to_list fs)).
End scanLocal.

(** ** The base *)

Record baseEntry := mkBase { be_Dir : bool; be_Size : Z; be_MtimeNS : Z; be_Content : bytes; be_Meta : bytes }.
Abbreviation baseState := (gmap string baseEntry).

Definition localMatches (b : baseEntry) (ls : localState) : bool :=
  if negb (Bool.eqb (bool_decide (ls_kind ls = kindDir)) (be_Dir b)) then false
  else if decide (ls_kind ls = kindDir) then true
  else (ls_size ls =? be_Size b) && (ls_mtimeNS ls =? be_MtimeNS b).

Definition remoteMatches (b : baseEntry) (rs : remoteState) : bool :=
  if negb (Bool.eqb (bool_decide (rs_kind rs = kindDir)) (be_Dir b)) then false
  else bool_decide (rs_content rs = be_Content b) && bool_decide (rs_meta rs = be_Meta b).

Definition agree (ls : localState) (rs : remoteState) : baseEntry :=
  mkBase (bool_decide (ls_kind ls = kindDir)) (ls_size ls) (ls_mtimeNS ls) (rs_content rs) (rs_meta rs).

(** ** Plans *)

Inductive ConflictPolicy := PreferLocal | PreferRemote | Skip.
#[export] Instance ConflictPolicy_eq_dec : EqDecision ConflictPolicy.
Proof. solve_decision. Defined.
Inductive OpKind := OpMkdirRemote | OpMkdirLocal | OpUpload | OpDownload | OpDeleteRemote | OpDeleteLocal | OpConflict.
#[export] Instance OpKind_eq_dec : EqDecision OpKind.
Proof. solve_decision. Defined.

(** The reason of an operation is text for the log. *)
Record Op := mkOp { op_Kind : OpKind; op_Path : string; op_IsDir : bool; op_IsSymlink : bool }.
Record Plan := mkPlan { pl_Ops : list Op; pl_skipped : gset string }.

Definition isDelete (k : OpKind) : bool := match k with OpDeleteRemote | OpDeleteLocal => true | _ => false end.

Section decide.
Context (conflict : ConflictPolicy).

(** A side that does not have the path is [None]. *)
Definition conflictOp (p : string) (ls : option localState) (rs : option remoteState) : option Op * bool :=
  match conflict with
  | PreferLocal =>
      match ls with
      | Some ls =>
          if decide (ls_kind ls = kindDir) then (Some (mkOp OpMkdirRemote p true false), false)
          else (Some (mkOp OpUpload p false (ls_isSymlink ls)), false)
      | None => (Some (mkOp OpDeleteRemote p (match rs with Some rs => bool_decide (rs_kind rs = kindDir) | None => false end) false), false)
      end
  | PreferRemote =>
      match rs with
      | Some rs =>
          if decide (rs_kind rs = kindDir) then (Some (mkOp OpMkdirLocal p true false), false)
          else (Some (mkOp OpDownload p false (rs_isSymlink rs)), false)
      | None => (Some (mkOp OpDeleteLocal p (match ls with Some ls => bool_decide (ls_kind ls = kindDir) | None => false end) false), false)
      end
  | Skip => (Some (mkOp OpConflict p false false), true)
  end.

Definition decideBoth (p : string) (ls : localState) (rs : remoteState) (be : option baseEntry) : option Op * bool :=
  if decide (ls_kind ls ≠ rs_kind rs) then conflictOp p (Some ls) (Some rs)
  else if decide (ls_kind ls = kindDir) then (None, false)
  else
    let lChanged := match be with None => true | Some b => negb (localMatches b ls) end in
    let rChanged := match be with None => true | Some b => negb (remoteMatches b rs) end in
    match lChanged, rChanged with
    | true, true => conflictOp p (Some ls) (Some rs)
    | true, false => (Some (mkOp OpUpload p false (ls_isSymlink ls)), false)
    | false, true => (Some (mkOp OpDownload p false (rs_isSymlink rs)), false)
    | false, false => (None, false)
    end.

Definition decideLocalOnly (p : string) (ls : localState) (be : option baseEntry) : option Op * bool :=
  match be with
  | Some b =>
      if localMatches b ls then
        if decide (ls_kind ls = kindDir) then (Some (mkOp OpDeleteLocal p true false), false)
        else (Some (mkOp OpDeleteLocal p false false), false)
      else conflictOp p (Some ls) None
  | None =>
      if decide (ls_kind ls = kindDir) then (Some (mkOp OpMkdirRemote p true false), false)
      else (Some (mkOp OpUpload p false (ls_isSymlink ls)), false)
  end.

Definition decideRemoteOnly (p : string) (rs : remoteState) (be : option baseEntry) : option Op * bool :=
  match be with
  | Some b =>
      if remoteMatches b rs then (Some (mkOp OpDeleteRemote p (bool_decide (rs_kind rs = kindDir)) false), false)
      else conflictOp p None (Some rs)
  | None =>
      if decide (rs_kind rs = kindDir) then (Some (mkOp OpMkdirLocal p true false), false)
      else (Some (mkOp OpDownload p false (rs_isSymlink rs)), false)
  end.

Definition decide_op (p : string) (ls : option localState) (rs : option remoteState) (be : option baseEntry) : option Op * bool :=
  match ls, rs with
  | Some ls, Some rs => decideBoth p ls rs be
  | Some ls, None => decideLocalOnly p ls be
  | None, Some rs => decideRemoteOnly p rs be
  | None, None => (None, false)
  end.

(** The comparison of the sort: [less a b] is the function given to
    sort.SliceStable. *)
Definition op_less (a b : Op) : bool :=
  let di := isDelete (op_Kind a) in let dj := isDelete (op_Kind b) in
  if negb (Bool.eqb di dj) then negb di
  else if di then depth (op_Path b) <? depth (op_Path a)
  else if negb (depth (op_Path a) =? depth (op_Path b)) then depth (op_Path a) <? depth (op_Path b)
  else negb (bool_decide (op_Path b ≤ op_Path a)%string).

(** sort.SliceStable, as an insertion sort: an operation goes before the first
    one that is not less. *)
Fixpoint insert_op (a : Op) (l : list Op) : list Op :=
  match l with
  | [] => [a]
  | b :: l => if op_less b a then b :: insert_op a l else a :: b :: l
  end.
Fixpoint sort_ops (l : list Op) : list Op := match l with [] => [] | a :: l => insert_op a (sort_ops l) end.

(** [order]: the paths of the union in the order the map yields them. *)
Fixpoint plan_loop (base : baseState) (local : localSnapshot) (remote : remoteSnapshot) (order : list string) : list Op * gset string :=
  match order with
  | [] => ([], ∅)
  | p :: order =>
      let '(op, skip) := decide_op p (local !! p) (remote !! p) (base !! p) in
      let '(ops, skipped) := plan_loop base local remote order in
      (match op with Some op => op :: ops | None => ops end, if skip then {[p]} ∪ skipped else skipped)
  end.
Definition plan (base : baseState) (local : localSnapshot) (remote : remoteSnapshot) (order : list string) : Plan :=
  let '(ops, skipped) := plan_loop base local remote order in mkPlan (sort_ops ops) skipped.

Definition union_paths (base : baseState) (local : localSnapshot) (remote : remoteSnapshot) : gset string :=
  dom local ∪ dom remote ∪ dom base.
Definition range_order (base : baseState) (local : localSnapshot) (remote : remoteSnapshot) (order : list string) : Prop :=
  NoDup order ∧ ∀ p, p ∈ order ↔ p ∈ union_paths base local remote.
End decide.

(** ** The agreement after a pass *)

Definition rebuilt (local : localSnapshot) (remote : remoteSnapshot) (oldBase : baseState) (skipped : gset string) : baseState :=
  let agreed := map_imap (λ p ls,
    match remote !! p with
    | Some rs => if decide (ls_kind ls ≠ rs_kind rs) then None else if bool_decide (p ∈ skipped) then None else Some (agree ls rs)
    | None => None
    end) local in
  filter (λ x, x.1 ∈ skipped) oldBase ∪ agreed.

(** ** Lemmas: one path *)

Section decisions.
Context (c : ConflictPolicy).

Lemma decide_op_path p ls rs be op skip : decide_op c p ls rs be = (Some op, skip) → op_Path op = p.
Proof.
  unfold decide_op, decideBoth, decideLocalOnly, decideRemoteOnly, conflictOp.
  intros E. repeat (case_match; simplify_eq; try done).
Qed.

Lemma decide_op_present p ls rs be op skip : decide_op c p ls rs be = (Some op, skip) → is_Some ls ∨ is_Some rs.
Proof. destruct ls, rs; cbn; intros E; eauto. discriminate. Qed.

(** A side that has nothing to lose at a path: it has no such path, or it still
    has what the base recorded. *)
Definition local_idle (ls : option localState) (be : option baseEntry) : Prop :=
  match ls with None => True | Some ls => ∃ b, be = Some b ∧ localMatches b ls = true end.
Definition remote_idle (rs : option remoteState) (be : option baseEntry) : Prop :=
  match rs with None => True | Some rs => ∃ b, be = Some b ∧ remoteMatches b rs = true end.

(** Operations that change the local side, and the remote side. *)
Definition writes_local (k : OpKind) : bool := match k with OpMkdirLocal | OpDownload | OpDeleteLocal => true | _ => false end.
Definition writes_remote (k : OpKind) : bool := match k with OpMkdirRemote | OpUpload | OpDeleteRemote => true | _ => false end.

Lemma decide_op_local p ls rs be op skip :
  decide_op c p ls rs be = (Some op, skip) → writes_local (op_Kind op) = true → c = PreferRemote ∨ local_idle ls be.
Proof.
  unfold decide_op, decideBoth, decideLocalOnly, decideRemoteOnly, conflictOp, local_idle.
  intros E Hw. repeat (case_match; simplify_eq; try done); try (by left); try (by right);
    right; eexists; (split; [done|]); try done; by apply negb_false_iff.
Qed.

Lemma decide_op_remote p ls rs be op skip :
  decide_op c p ls rs be = (Some op, skip) → writes_remote (op_Kind op) = true → c = PreferLocal ∨ remote_idle rs be.
Proof.
  unfold decide_op, decideBoth, decideLocalOnly, decideRemoteOnly, conflictOp, remote_idle.
  intros E Hw. repeat (case_match; simplify_eq; try done); try (by left); try (by right);
    right; eexists; (split; [done|]); try done; by apply negb_false_iff.
Qed.

(** A conflict is reported exactly where the policy is Skip, the sides differ
    from the base, and nothing else is planned. *)
Lemma decide_op_skip p ls rs be op skip : decide_op c p ls rs be = (op, skip) →
  if skip then op = Some (mkOp OpConflict p false false) ∧ c = Skip else ∀ o, op = Some o → op_Kind o ≠ OpConflict.
Proof.
  unfold decide_op, decideBoth, decideLocalOnly, decideRemoteOnly, conflictOp.
  intros E. repeat (case_match; simplify_eq; try done); naive_solver.
Qed.

Lemma decide_op_conflict p ls rs be : ls ≠ None ∨ rs ≠ None → ¬ local_idle ls be → ¬ remote_idle rs be → c = Skip →
  match ls, rs with Some ls, Some rs => ls_kind ls ≠ kindDir ∨ rs_kind rs ≠ kindDir | _, _ => True end →
  (decide_op c p ls rs be).2 = true.
Proof.
  unfold decide_op, decideBoth, decideLocalOnly, decideRemoteOnly, conflictOp, local_idle, remote_idle.
  intros Hex Hl Hr -> Hk. destruct ls as [ls|], rs as [rs|]; try (by exfalso; eauto).
  case_decide as Hkind; [done|]. case_decide as Hdir; [exfalso; destruct Hk; congruence|].
  destruct be as [b|]; [|done]. destruct (localMatches b ls) eqn:E1; [exfalso; eauto|].
  destruct (remoteMatches b rs) eqn:E2; [exfalso; eauto|done].
Qed.
End decisions.

(** ** Lemmas: the plan *)

Section plans.
Context (c : ConflictPolicy) (base : baseState) (local : localSnapshot) (remote : remoteSnapshot).
Definition decided (p : string) : option Op * bool := decide_op c p (local !! p) (remote !! p) (base !! p).

Lemma plan_loop_ops order op : op ∈ (plan_loop c base local remote order).1 ↔ ∃ p, p ∈ order ∧ (decided p).1 = Some op.
Proof.
  induction order as [|p order IH]; cbn [plan_loop].
  { split; [by intros ?%elem_of_nil|by intros (q & ?%elem_of_nil & _)]. }
  change (decide_op c p (local !! p) (remote !! p) (base !! p)) with (decided p). destruct (decided p) as [o s] eqn:E. destruct (plan_loop _ _ _ _ order) as [ops sk]. cbn [fst] in IH |- *.
  setoid_rewrite elem_of_cons. destruct o as [o|]; [rewrite elem_of_cons, IH|rewrite IH].
  - split.
    + intros [->|(q & Hq & Eq)]; [exists p; by rewrite E; auto|eauto].
    + intros (q & [->|Hq] & Eq); [rewrite E in Eq; cbn in Eq; left; congruence|eauto].
  - split; [intros (q & Hq & Eq); eauto|]. intros (q & [->|Hq] & Eq); [by rewrite E in Eq|eauto].
Qed.

Lemma plan_loop_skipped order p : p ∈ (plan_loop c base local remote order).2 ↔ p ∈ order ∧ (decided p).2 = true.
Proof.
  induction order as [|q order IH]; cbn [plan_loop]; [set_solver|].
  change (decide_op c q (local !! q) (remote !! q) (base !! q)) with (decided q). destruct (decided q) as [o s] eqn:E. destruct (plan_loop _ _ _ _ order) as [ops sk]. cbn [snd] in IH |- *.
  rewrite elem_of_cons. destruct s.
  - rewrite elem_of_union, elem_of_singleton, IH. split.
    + intros [->|[? ?]]; [rewrite E; auto|auto].
    + intros [[->|?] ?]; auto.
  - rewrite IH. split; [tauto|]. intros [[->|?] Hx]; [by rewrite E in Hx|auto].
Qed.

Lemma plan_loop_paths order : NoDup order → NoDup (op_Path <$> (plan_loop c base local remote order).1).
Proof.
  induction 1 as [|p order Hp Hnd IH]; cbn [plan_loop]; [constructor|].
  change (decide_op c p (local !! p) (remote !! p) (base !! p)) with (decided p). destruct (decided p) as [o s] eqn:E. destruct (plan_loop _ _ _ _ order) as [ops sk] eqn:El. cbn [fst] in IH |- *.
  destruct o as [o|]; [|done]. cbn. constructor; [|done]. intros (o' & Ep & Ho)%list_elem_of_fmap.
  assert (o' ∈ (plan_loop c base local remote order).1) as (q & Hq & Eq)%plan_loop_ops by (by rewrite El).
  destruct (decided q) as [x y] eqn:Exy. cbn in Eq. subst x. apply decide_op_path in Exy, E. congruence.
Qed.
End plans.

(** The order of the sort. *)
Definition op_le (a b : Op) : Prop := op_less b a = false.
#[export] Instance op_le_dec : RelDecision op_le.
Proof. intros a b. unfold op_le. apply _. Defined.

(** [op_le] is a lexicographic comparison: deletes last, then the depth, then
    (for the operations that are not deletes) the path. *)
Definition op_rank (a : Op) : Z * Z :=
  if isDelete (op_Kind a) then (1, - depth (op_Path a)) else (0, depth (op_Path a)).
Lemma op_le_spec a b : op_le a b ↔
  (op_rank a).1 < (op_rank b).1 ∨ ((op_rank a).1 = (op_rank b).1 ∧ ((op_rank a).2 < (op_rank b).2 ∨
    ((op_rank a).2 = (op_rank b).2 ∧ (isDelete (op_Kind a) = true ∨ (op_Path a ≤ op_Path b)%string)))).
Proof.
  unfold op_le, op_less, op_rank. destruct (isDelete (op_Kind a)), (isDelete (op_Kind b)); cbn -[depth Z.ltb Z.eqb Z.opp]; try (intuition lia).
  destruct (Z.eqb_spec (depth (op_Path b)) (depth (op_Path a))) as [E|E]; cbn -[depth Z.ltb].
  - rewrite negb_false_iff, bool_decide_eq_true. rewrite E. intuition (try lia; done).
  - rewrite Z.ltb_ge. intuition (try lia; done).
Qed.

#[export] Instance op_le_total : Total op_le.
Proof.
  intros a b. rewrite !op_le_spec. destruct (total String.le (op_Path a) (op_Path b)) as [H|H];
    destruct (Z.lt_total (op_rank a).1 (op_rank b).1) as [?|[E1|?]]; auto;
    destruct (Z.lt_total (op_rank a).2 (op_rank b).2) as [?|[E2|?]]; rewrite ?E1, ?E2; intuition auto.
Qed.

#[export] Instance op_le_trans : Transitive op_le.
Proof.
  intros x y z. rewrite !op_le_spec.
  assert ((op_rank x).1 = (op_rank y).1 → isDelete (op_Kind x) = isDelete (op_Kind y)) as Hxy.
  { unfold op_rank. do 2 case_match; cbn; congruence. }
  intros H1 H2. destruct H1 as [H1|[E1 H1]]; [left; destruct H2 as [?|[? _]]; lia|].
  destruct H2 as [H2|[E2 H2]]; [left; lia|]. right. split; [lia|].
  destruct H1 as [H1|[F1 H1]]; [left; destruct H2 as [?|[? _]]; lia|].
  destruct H2 as [H2|[F2 H2]]; [left; lia|]. right. split; [lia|]. rewrite (Hxy E1) in *.
  destruct H1 as [?|H1]; [by left|]. destruct H2 as [?|H2]; [by left|]. right. by etransitivity.
Qed.

Lemma insert_op_perm a l : insert_op a l ≡ₚ a :: l.
Proof. induction l as [|b l IH]; cbn; [done|]. case_match; [|done]. rewrite IH. apply Permutation_swap. Qed.
Lemma sort_ops_perm l : sort_ops l ≡ₚ l.
Proof. induction l as [|a l IH]; cbn; [done|]. by rewrite insert_op_perm, IH. Qed.

Lemma insert_op_sorted a l : StronglySorted op_le l → StronglySorted op_le (insert_op a l).
Proof.
  induction 1 as [|b l Hs IH Hb]; cbn; [repeat constructor|]. destruct (op_less b a) eqn:E.
  - constructor; [done|]. rewrite insert_op_perm. constructor; [|done].
    destruct (total op_le a b) as [H|H]; [|done]. unfold op_le in H. congruence.
  - constructor; [by constructor|]. constructor; [done|]. eapply Forall_impl; [exact Hb|]. intros x Hx. by transitivity b.
Qed.
Lemma sort_ops_sorted l : StronglySorted op_le (sort_ops l).
Proof. induction l; cbn; [constructor|by apply insert_op_sorted]. Qed.

(** ** The claims *)

Lemma plan_spec c base local remote order : range_order base local remote order →
  (∀ op, op ∈ pl_Ops (plan c base local remote order) ↔ ∃ p, (decided c base local remote p).1 = Some op) ∧
  (∀ p, p ∈ pl_skipped (plan c base local remote order) ↔ (decided c base local remote p).2 = true) ∧
  NoDup (op_Path <$> pl_Ops (plan c base local remote order)) ∧
  StronglySorted op_le (pl_Ops (plan c base local remote order)).
Proof.
  intros [Hnd Hel]. unfold plan.
  pose proof (plan_loop_ops c base local remote order) as Ho. pose proof (plan_loop_skipped c base local remote order) as Hs.
  pose proof (plan_loop_paths c base local remote order Hnd) as Hn.
  destruct (plan_loop c base local remote order) as [ops sk]. cbn [fst snd pl_Ops pl_skipped] in *.
  assert (∀ p, decided c base local remote p ≠ (None, false) → p ∈ order) as Hin.
  { intros p Hp. apply Hel. unfold union_paths. rewrite !elem_of_union, !elem_of_dom. unfold decided in Hp.
    destruct (local !! p); [eauto|]. destruct (remote !! p); [eauto|]. done. }
  split; [|split; [|split]].
  - intros op. rewrite (sort_ops_perm ops), Ho. split; [naive_solver|]. intros (p & Hp). exists p. split; [|done].
    apply Hin. intros E. by rewrite E in Hp.
  - intros p. rewrite Hs. split; [tauto|]. intros Hp. split; [|done]. apply Hin. intros E. by rewrite E in Hp.
  - by rewrite (sort_ops_perm ops).
  - apply sort_ops_sorted.
Qed.

Lemma plan_op c base local remote order op : range_order base local remote order →
  op ∈ pl_Ops (plan c base local remote order) →
  ∃ s, decide_op c (op_Path op) (local !! op_Path op) (remote !! op_Path op) (base !! op_Path op) = (Some op, s).
Proof.
  intros Hr Hop. apply (plan_spec c) in Hr as (Ho & _). apply Ho in Hop as (p & Hp). unfold decided in Hp.
  destruct (decide_op _ p _ _ _) as [o s] eqn:E. cbn in Hp. subst o. pose proof (decide_op_path _ _ _ _ _ _ _ E) as <-. eauto.
Qed.


Lemma sorted_filter {A} (R : relation A) (Q : A → Prop) `{∀ x, Decision (Q x)} l : StronglySorted R l → StronglySorted R (filter Q l).
Proof.
  induction 1 as [|x l Hs IH Hx]; [constructor|]. rewrite filter_cons. case_decide; [|done]. constructor; [done|].
  rewrite Forall_forall in Hx |- *. intros y [_ Hy]%list_elem_of_filter. by apply Hx.
Qed.

(** The plan does not depend on the order in which the map of paths is ranged
    over, except for the order of deletes of equal depth. *)
Theorem plan_order_free c base local remote order1 order2 :
  range_order base local remote order1 → range_order base local remote order2 →
  let p1 := plan c base local remote order1 in let p2 := plan c base local remote order2 in
  pl_skipped p1 = pl_skipped p2 ∧ pl_Ops p1 ≡ₚ pl_Ops p2 ∧
  filter (λ op, isDelete (op_Kind op) = false) (pl_Ops p1) = filter (λ op, isDelete (op_Kind op) = false) (pl_Ops p2).
Proof.
  intros H1 H2 p1 p2. destruct (plan_spec c _ _ _ _ H1) as (Ho1 & Hs1 & Hn1 & St1). destruct (plan_spec c _ _ _ _ H2) as (Ho2 & Hs2 & Hn2 & St2).
  assert (pl_Ops p1 ≡ₚ pl_Ops p2) as Hp.
  { apply NoDup_Permutation; [by eapply NoDup_fmap_1..|]. intros op. unfold p1, p2. by rewrite Ho1, Ho2. }
  split; [apply set_eq; intros p; unfold p1, p2; by rewrite Hs1, Hs2|]. split; [done|].
  apply (StronglySorted_unique_strong op_le); [|by apply sorted_filter..|by rewrite Hp].
  intros x1 x2 [N1 I1]%list_elem_of_filter [N2 I2]%list_elem_of_filter L1 L2.
  apply op_le_spec in L1, L2. unfold op_rank in L1, L2. rewrite N1, N2 in L1, L2. cbn [fst snd] in L1, L2.
  assert (op_Path x1 = op_Path x2) as Ep.
  { destruct L1 as [?|[_ [?|[? [?|L1]]]]], L2 as [?|[_ [?|[? [?|L2]]]]]; try lia; try done. by apply string_le_antisym. }
  destruct (plan_op _ _ _ _ _ _ H1 I1) as [s1 E1], (plan_op _ _ _ _ _ _ H2 I2) as [s2 E2]. rewrite Ep in E1. congruence.
Qed.

Lemma rebuilt_lookup local remote old skipped p : p ∉ skipped →
  rebuilt local remote old skipped !! p =
    (ls ← local !! p; rs ← remote !! p; if decide (ls_kind ls ≠ rs_kind rs) then None else Some (agree ls rs)).
Proof.
  intros Hp. unfold rebuilt. rewrite lookup_union_r.
  2:{ apply map_lookup_filter_None. right. intros x _. done. }
  rewrite map_lookup_imap. destruct (local !! p) as [ls|]; [|done]. cbn. destruct (remote !! p) as [rs|]; [|done]. cbn.
  case_decide; [done|]. by rewrite bool_decide_false.
Qed.

Lemma agree_matches ls rs : ls_kind ls = rs_kind rs → localMatches (agree ls rs) ls = true ∧ remoteMatches (agree ls rs) rs = true.
Proof.
  intros Hk. unfold localMatches, remoteMatches, agree. cbn. rewrite Hk, Bool.eqb_reflx. cbn. split.
  - case_decide; [done|]. by rewrite !Z.eqb_refl.
  - by rewrite !bool_decide_true.
Qed.

(** Two sides that show the same paths with the same kinds, recorded as agreed,
    give an empty plan: a pass over synchronised sides does nothing. *)
Theorem agreed_is_quiet c local remote old order :
  (∀ p, match local !! p, remote !! p with Some ls, Some rs => ls_kind ls = rs_kind rs | None, None => True | _, _ => False end) →
  range_order (rebuilt local remote old ∅) local remote order →
  plan c (rebuilt local remote old ∅) local remote order = mkPlan [] ∅.
Proof.
  intros Hsame Hr. destruct (plan_spec c _ _ _ _ Hr) as (Ho & Hs & _ & _).
  assert (∀ p, decided c (rebuilt local remote old ∅) local remote p = (None, false)) as Hq.
  { intros p. specialize (Hsame p). unfold decided. rewrite rebuilt_lookup by set_solver.
    destruct (local !! p) as [ls|], (remote !! p) as [rs|]; try done. cbn. unfold decideBoth.
    rewrite decide_False by tauto. destruct (agree_matches ls rs Hsame) as [E1 E2].
    case_decide; [done|]. rewrite decide_False by tauto. by rewrite E1, E2. }
  destruct (plan c _ local remote order) as [ops sk]. cbn [pl_Ops pl_skipped] in *. f_equal.
  - destruct ops as [|op ops]; [done|]. exfalso. destruct (proj1 (Ho op)) as [p Hp]; [left|]. by rewrite Hq in Hp.
  - apply set_eq. intros p. rewrite Hs, Hq. set_solver.
Qed.

(** ** What a scan sees *)


Section scan.
Context (h : Host) (root : path) (ignore : string → bool) (sf : ScanFaults) (fs : FS).

Lemma reached_app q a b : reached root ignore sf fs q (a ++ b) = reached root ignore sf fs q a && reached root ignore sf fs (q ++ a) b.
Proof.
  revert q. induction a as [|c a IH]; intros q; cbn [reached app]; [by rewrite app_nil_r|].
  rewrite IH, <-app_assoc. cbn [app]. by rewrite !andb_assoc.
Qed.

(** The entry recorded for the node [n] at [root ++ cs]. *)
Definition seen_as (cs : path) (n : node) : localState :=
  mkLS (if fi_IsDir n then kindDir else kindLeaf) (is_link n) (fi_Size h (root ++ cs) n) (at_mtime (n_attr n)) (fi_Mode n).

(** A path is in the snapshot exactly if it exists, the walk reaches it and its
    Info succeeds. *)
Lemma scan_lookup cs ls : (∀ q n, fs !! q = Some n → Forall normal q) → Forall normal cs → cs ≠ [] →
  scanLocal h root ignore sf fs !! join_slash cs = Some ls ↔
  sf_root sf = false ∧ reached root ignore sf fs [] cs = true ∧ sf_info sf (root ++ cs) = false ∧
    ∃ n, fs !! (root ++ cs) = Some n ∧ ls = seen_as cs n.
Proof.
  intros Hfs Hcs Hne. unfold scanLocal. destruct (sf_root sf); [rewrite lookup_empty; naive_solver|].
  assert (∀ q n st, fs !! q = Some n → visit h root ignore sf fs q n = Some (join_slash cs, st) →
    q = root ++ cs ∧ reached root ignore sf fs [] cs = true ∧ sf_info sf (root ++ cs) = false ∧ st = seen_as cs n) as Hv.
  { intros q n st Hq E. unfold visit in E. case_match eqn:Eb; [|done]. apply andb_prop in Eb as [[[E1 E2]%andb_prop E3]%andb_prop E4].
    apply bool_decide_eq_true in E1. simplify_eq.
    assert (root ++ drop (length root) q = q) as Eq by (rewrite <-E1 at 1; apply take_drop).
    assert (drop (length root) q = cs) as Er.
    { apply join_slash_inj; [|done..]. apply Forall_drop. by eapply Hfs. }
    rewrite Er in *. subst q. split; [done|]. split; [done|]. split; [by apply negb_true_iff|]. done. }
  split.
  - intros E%elem_of_list_to_map_2. apply list_elem_of_omap in E as ([q n] & Hq%elem_of_map_to_list & E).
    destruct (Hv _ _ _ Hq E) as (-> & Hr & Hi & ->). naive_solver.
  - intros (_ & Hr & Hi & n & Hn & ->). apply elem_of_list_to_map_1'.
    + intros st E. apply list_elem_of_omap in E as ([q m] & Hq%elem_of_map_to_list & E).
      destruct (Hv _ _ _ Hq E) as (-> & _ & _ & ->). cbn in Hq. by simplify_eq.
    + apply list_elem_of_omap. exists (root ++ cs, n). split; [by apply elem_of_map_to_list|]. unfold visit. cbn.
      rewrite take_app_length, drop_app_length, Hr, Hi. rewrite !bool_decide_true by done. cbn.
      rewrite bool_decide_false by done. done.
Qed.
End scan.

(** A directory whose listing fails for a moment is scanned as an empty one
    ("an unreadable directory should not abort the whole scan; skip it"): every
    file below it that both sides had agreed on is taken for deleted locally, and
    the plan deletes its stored copy, although the file is on the disk. *)
Theorem unreadable_dir_deletes_remote h root ignore sf fs c base remote order ds f n b rs :
  (∀ q n, fs !! q = Some n → Forall normal q) → Forall normal (ds ++ [f]) →
  fs !! (root ++ ds ++ [f]) = Some n → sf_readdir sf (root ++ ds) = true →
  base !! join_slash (ds ++ [f]) = Some b → remote !! join_slash (ds ++ [f]) = Some rs → remoteMatches b rs = true →
  range_order base (scanLocal h root ignore sf fs) remote order →
  mkOp OpDeleteRemote (join_slash (ds ++ [f])) (bool_decide (rs_kind rs = kindDir)) false
    ∈ pl_Ops (plan c base (scanLocal h root ignore sf fs) remote order).
Proof.
  intros Hfs Hn Hf Hrd Hb Hr Hm Hro. apply (plan_spec c) in Hro as (Ho & _). apply Ho. exists (join_slash (ds ++ [f])).
  unfold decided. destruct (scanLocal h root ignore sf fs !! join_slash (ds ++ [f])) as [ls|] eqn:E.
  - exfalso. apply scan_lookup in E as (_ & Hre & _); [|done|done|by destruct ds].
    rewrite reached_app in Hre. apply andb_prop in Hre as [_ Hre]. cbn in Hre. by rewrite Hrd in Hre.
  - rewrite Hb, Hr. cbn. by rewrite Hm.
Qed.

(** ** Witnesses *)

Lemma range_check base local remote order :
  bool_decide (NoDup order) && bool_decide (list_to_set order = union_paths base local remote) = true → range_order base local remote order.
Proof.
  intros [H1%bool_decide_eq_true H2%bool_decide_eq_true]%andb_prop. split; [done|]. intros p. by rewrite <-H2, elem_of_list_to_set.
Qed.
Definition ex_host : Host := mkHost (λ i, mkCall false (Z.of_nat i) 0 []) 0 0 18 (λ _, 4096) (λ _, "").
Definition ex_attr (mtime : Z) : Attr := mkAttr 420 mtime 0 0 0 0 ∅.
Definition no_faults : ScanFaults := mkScan false (λ _, false) (λ _, false).

(** "f" edited on both sides, "g" gone from the namespace, "h" new in it. *)
Definition ex_base3 : baseState :=
  <["f" := mkBase false 3 100 [Byte.x01] [Byte.x02]]> {["g" := mkBase false 3 100 [Byte.x01] [Byte.x02]]}.
Definition ex_local3 : localSnapshot :=
  <["f" := mkLS kindLeaf false 3 200 420]> {["g" := mkLS kindLeaf false 3 100 420]}.
Definition ex_remote3 : remoteSnapshot :=
  <["f" := mkRS (Minted 1) kindLeaf false 4 [Byte.x05] [Byte.x02]]> {["h" := mkRS (Minted 2) kindLeaf false 4 [Byte.x05] [Byte.x02]]}.


Lemma plan_order_free_witness :
  pl_skipped (plan Skip ex_base3 ex_local3 ex_remote3 ["h"; "f"; "g"]) = pl_skipped (plan Skip ex_base3 ex_local3 ex_remote3 ["g"; "h"; "f"]).
Proof.
  apply (plan_order_free Skip ex_base3 ex_local3 ex_remote3 ["h"; "f"; "g"] ["g"; "h"; "f"]); apply range_check; vm_compute; reflexivity.
Defined.

Lemma agreed_is_quiet_witness :
  let l : localSnapshot := {["f" := mkLS kindLeaf false 3 200 420]} in
  let r : remoteSnapshot := {["f" := mkRS (Minted 1) kindLeaf false 4 [Byte.x05] [Byte.x02]]} in
  plan PreferLocal (rebuilt l r ∅ ∅) l r ["f"] = mkPlan [] ∅.
Proof.
  intros l r. apply (agreed_is_quiet PreferLocal l r ∅ ["f"]); [|apply range_check; vm_compute; reflexivity].
  intros p. unfold l, r. destruct (decide (p = "f")) as [->|Hp]; [rewrite !lookup_singleton_eq; reflexivity|].
  rewrite !lookup_singleton_ne by congruence. exact I.
Defined.

(** The listing of "r/d" fails while "r/d/f" is there. *)
Definition ex_fs4 : FS :=
  list_to_map [(["r"], mkNode (ex_attr 0) BDir); (["r"; "d"], mkNode (ex_attr 0) BDir); (["r"; "d"; "f"], mkNode (ex_attr 200) (BFile [Byte.x09]))].
Definition ex_denied : ScanFaults := mkScan false (λ p, bool_decide (p = ["r"; "d"])) (λ _, false).
Definition ex_remote4 : remoteSnapshot := {["d/f" := mkRS (Minted 1) kindLeaf false 1 [Byte.x05] [Byte.x02]]}.
Definition ex_base4 : baseState := {["d/f" := mkBase false 1 200 [Byte.x05] [Byte.x02]]}.

Lemma unreadable_dir_deletes_remote_witness :
  mkOp OpDeleteRemote "d/f" false false ∈
    pl_Ops (plan PreferRemote ex_base4 (scanLocal ex_host ["r"] (λ _, false) ex_denied ex_fs4) ex_remote4 ["d"; "d/f"]).
Proof.
  apply (unreadable_dir_deletes_remote ex_host ["r"] (λ _, false) ex_denied ex_fs4 PreferRemote ex_base4 ex_remote4 ["d"; "d/f"] ["d"] "f"
    (mkNode (ex_attr 200) (BFile [Byte.x09])) (mkBase false 1 200 [Byte.x05] [Byte.x02]) (mkRS (Minted 1) kindLeaf false 1 [Byte.x05] [Byte.x02])).
  - intros q n Hq. apply elem_of_list_to_map_2 in Hq. repeat (apply elem_of_cons in Hq as [[= -> ->]|Hq]; [repeat first [constructor | apply normal_check; reflexivity]|]).
    by apply elem_of_nil in Hq.
  - repeat first [constructor | apply normal_check; reflexivity].
  - vm_compute. reflexivity.
  - vm_compute. reflexivity.
  - vm_compute. reflexivity.
  - vm_compute. reflexivity.
  - vm_compute. reflexivity.
  - apply range_check. vm_compute. reflexivity.
Defined.
