(* ===== verification/Reconcile.v ===== *)
(** * internal/sync: applying a plan (reconcile.go, remote.go, state.go, daemon.go)

    One pass of the reconciler: load the base, scan both sides, plan, apply,
    rebuild the base and save it. The remote side is reached through the
    operations of provider.Provider, the class [SyncProvider]; package os through
    LocalFS. *)

From Stdlib Require Import Ascii.
From S2P Require Import Prelude GoLib Store Crypto Chunk Pipeline Blobs Codec Manifest Namespace Files Root.
From S2P Require Import RootStores Identity Provider LocalFS Sync.

(** The operations of provider.Provider a pass uses. [FetchContents] yields what
    reached the writer. The number is the time a commit signs. *)
Class SyncProvider (P : Type) := {
  sp_Root : M P ItemID;
  sp_Stat : ItemID → M P Item;
  sp_Lookup : ItemID → string → M P Item;
  sp_Enumerate : ItemID → M P (list Item);
  sp_FetchContents : ItemID → P → bytes * result prov_err ItemVersion;
  sp_CreateItem : Z → ItemID → CreateRequest → M P Item;
  sp_ModifyItem : Z → ItemID → ModifyRequest → M P Item;
  sp_DeleteItem : Z → ItemID → M P unit;
}.

#[export] Instance manifest_provider `{Sha256} `{Ed25519} `{Json readCapJSON} `{DirJson} `{!FileJson} {W} `{!Blobs W} {R} `{!RootStore R}
    (cfg : Config) (signer : bytes) : SyncProvider (Provider W R) := {|
  sp_Root := prov_Root; sp_Stat := Stat; sp_Lookup := prov_Lookup; sp_Enumerate := Enumerate; sp_FetchContents := FetchContents;
  sp_CreateItem := CreateItem cfg signer; sp_ModifyItem := ModifyItem cfg signer; sp_DeleteItem := DeleteItem cfg signer |}.

Inductive sync_err :=
| SOs (e : errno) | SProv (e : prov_err) | SNotDirectory (p : string)
| SParse | SVersion (v : Z) | SEncode | SCancelled | SFuel.

(** The state of a pass: the disk, the provider, the directory identifiers
    resolved so far. *)
Record World (P : Type) := mkWorld { w_os : OS; w_prov : P; w_dirIDs : gmap string ItemID }.
Arguments mkWorld {P}.
Arguments w_os {P}.
Arguments w_prov {P}.
Arguments w_dirIDs {P}.

Definition SM (P A : Type) : Type := World P → World P * result sync_err A.
Definition s_ret {P A} (a : A) : SM P A := λ w, (w, Ok a).
Definition s_fail {P A} (e : sync_err) : SM P A := λ w, (w, Err e).
Definition s_bind {P A B} (m : SM P A) (k : A → SM P B) : SM P B :=
  λ w, let '(w, r) := m w in match r with Ok a => k a w | Err e => (w, Err e) end.
Definition s_try {P A} (m : SM P A) : SM P (result sync_err A) := λ w, let '(w, r) := m w in (w, Ok r).
Notation "'do!' x ':=' m 'in' k" := (s_bind m (λ x, k)) (at level 10, x pattern, m at level 100, k at level 200).

(** ** The base sidecar *)

(** [sj_entries = None]: a nil map. *)
Record stateJSON := mkState { sj_version : Z; sj_entries : option baseState }.
Definition stateVersion : Z := 1.
Definition StateFileName : string := ".revika-sync-state.json".

Record Reconciler := mkRec {
  r_root : path; r_statePath : path; r_conflict : ConflictPolicy; r_ignore : string → bool }.

Definition ROption : Type := Reconciler → Reconciler.
Definition WithConflictPolicy (c : ConflictPolicy) : ROption := λ r, mkRec (r_root r) (r_statePath r) c (r_ignore r).
Definition WithStatePath (sp : path) : ROption := λ r, mkRec (r_root r) sp (r_conflict r) (r_ignore r).
Definition WithIgnore (pred : string → bool) : ROption := λ r,
  mkRec (r_root r) (r_statePath r) (r_conflict r) (λ rel, r_ignore r rel || pred rel).

(** [New] with the absolute path of a root that is not empty and a provider; the
    directory is created. *)
Definition newReconciler (h : Host) (abs : path) (opts : list ROption) : OSM Reconciler :=
  let r := foldl (λ r o, o r) (mkRec abs (abs ++ [StateFileName]) PreferLocal (λ rel, bool_decide (rel = StateFileName))) opts in
  os! _ := MkdirAll h abs 493 in os_ret r.

(** What the surroundings decide in a pass: the walks' failures, the order in
    which Go ranges over the paths, the checks of the context, the name of the
    temporary file. *)
Record Pass := mkPass {
  ps_scan : ScanFaults; ps_rescan : ScanFaults; ps_order : list string; ps_cancelled : nat → bool; ps_tmp : path }.

Record Result := mkResult {
  res_Uploaded : Z; res_Downloaded : Z; res_DeletedRemote : Z; res_DeletedLocal : Z;
  res_MkdirRemote : Z; res_MkdirLocal : Z; res_Conflicts : Z; res_Errors : list (string * sync_err) }.
Definition noResult : Result := mkResult 0 0 0 0 0 0 0 [].

Section reconcile.
Context {P : Type} `{Hsp : !SyncProvider P} `{Hsj : Json stateJSON} (h : Host) (r : Reconciler).
Implicit Types (w : World P).

Definition on_os {A} (m : OSM A) : SM P A := λ w,
  let '(o, res) := m (w_os w) in (mkWorld o (w_prov w) (w_dirIDs w), map_err SOs res).
Definition on_prov {A} (m : M P A) : SM P A := λ w,
  let '(p, res) := m (w_prov w) in (mkWorld (w_os w) p (w_dirIDs w), map_err SProv res).
(** The clock that a commit reads. *)
Definition now_of w : Z := c_now (h_call h (os_calls (w_os w))).
Definition timed {A} (m : Z → SM P A) : SM P A := λ w, m (now_of w) w.

Definition loadState (sp : path) : SM P baseState :=
  do! data := s_try (on_os (ReadFile h sp)) in
  match data with
  | Err (SOs ENOENT) => s_ret ∅
  | Err e => s_fail e
  | Ok data =>
      match Unmarshal data with
      | None => s_fail SParse
      | Some st => if negb (sj_version st =? stateVersion) then s_fail (SVersion (sj_version st)) else s_ret (default ∅ (sj_entries st))
      end
  end.

(** A failed step removes the temporary file and returns its error. *)
Definition or_remove (tmp : path) (m : OSM unit) : SM P unit :=
  do! res := s_try (on_os m) in
  match res with
  | Ok _ => s_ret tt
  | Err e => do! _ := s_try (on_os (Remove h tmp)) in s_fail e
  end.
Definition saveState (tmp sp : path) (st : baseState) : SM P unit :=
  match Marshal (mkState stateVersion (Some st)) with
  | None => s_fail SEncode
  | Some data =>
      do! tmp := on_os (CreateTemp h tmp) in
      do! _ := or_remove tmp (Chmod h tmp 384) in
      do! _ := or_remove tmp (Write h tmp data) in
      do! _ := or_remove tmp (Close h) in
      or_remove tmp (Rename h tmp sp)
  end.

(** ** scanRemote *)

Definition remote_state (it : Item) : remoteState :=
  mkRS (it_ID it) (itemKindOf it) (it_IsLink it) (it_Size it) (iv_Content (it_Version it)) (iv_Meta (it_Version it)).

(** [rec] scans a subdirectory. *)
Fixpoint scan_items (rec : ItemID → string → remoteSnapshot → SM P remoteSnapshot) (prefix : string) (items : list Item)
    (snap : remoteSnapshot) : SM P remoteSnapshot :=
  match items with
  | [] => s_ret snap
  | it :: items =>
      let rel := join prefix (it_Name it) in
      let snap := <[rel := remote_state it]> snap in
      do! snap := if it_IsDir it then rec (it_ID it) rel snap else s_ret snap in
      scan_items rec prefix items snap
  end.
(** The fuel bounds the depth of nesting. *)
Fixpoint scanRemoteDir (fuel : nat) (dir : ItemID) (prefix : string) (snap : remoteSnapshot) : SM P remoteSnapshot :=
  match fuel with
  | O => s_fail SFuel
  | S fuel => do! items := on_prov (sp_Enumerate dir) in scan_items (scanRemoteDir fuel) prefix items snap
  end.
Definition scanRemote (fuel : nat) : SM P remoteSnapshot :=
  do! root := on_prov sp_Root in scanRemoteDir fuel root "" ∅.

Definition scan_here (sf : ScanFaults) : SM P localSnapshot := λ w,
  (w, Ok (scanLocal h (r_root r) (r_ignore r) sf (os_fs (w_os w)))).

(** ** The applier *)

Definition dirModeBit : Z := 2 ^ 31.
Definition localDirMeta (p : string) : SM P Metadata :=
  let abs := localAbs (r_root r) p in
  do! n := s_try (on_os (Lstat h abs)) in
  match n with
  | Ok n => on_os (Capture h abs n)
  | Err _ => s_ret (lightMeta (Z.lor 493 dirModeBit) 0)
  end.

Definition cache_dir (p : string) (id : ItemID) : SM P unit := λ w,
  (mkWorld (w_os w) (w_prov w) (<[p := id]> (w_dirIDs w)), Ok tt).

(** The recursion goes to the parent path, which is shorter: [S (length p)] is
    fuel enough. *)
Fixpoint remoteDirID_fuel (fuel : nat) (p : string) : SM P ItemID :=
  match fuel with
  | O => s_fail SFuel
  | S fuel =>
      if decide (p = "") then on_prov sp_Root
      else λ w,
        match w_dirIDs w !! p with
        | Some id => (w, Ok id)
        | None =>
            (do! parentID := remoteDirID_fuel fuel (parentPath p) in
             let name := baseName p in
             do! res := s_try (on_prov (sp_Lookup parentID name)) in
             match res with
             | Ok it =>
                 if negb (it_IsDir it) then s_fail (SNotDirectory p)
                 else do! _ := cache_dir p (it_ID it) in s_ret (it_ID it)
             | Err (SProv PNotFound) =>
                 do! meta := localDirMeta p in
                 do! it := timed (λ now, on_prov (sp_CreateItem now parentID (mkCreate name true meta None))) in
                 do! _ := cache_dir p (it_ID it) in s_ret (it_ID it)
             | Err e => s_fail e
             end) w
        end
  end.
Definition remoteDirID (p : string) : SM P ItemID := remoteDirID_fuel (S (String.length p)) p.

Definition remoteItemID (p : string) : SM P ItemID :=
  do! parentID := remoteDirID (parentPath p) in
  do! it := on_prov (sp_Lookup parentID (baseName p)) in
  s_ret (it_ID it).

Definition upload (p : string) : SM P unit :=
  let abs := localAbs (r_root r) p in
  do! n := on_os (Lstat h abs) in
  do! meta := on_os (Capture h abs n) in
  do! parentID := remoteDirID (parentPath p) in
  let name := baseName p in
  do! contents := if IsSymlink meta then s_ret None
                  else do! rd := on_os (Open h abs) in do! rd := on_os (read_all h rd) in s_ret (Some rd) in
  let create := do! _ := timed (λ now, on_prov (sp_CreateItem now parentID (mkCreate name false meta contents))) in s_ret tt in
  do! existing := s_try (on_prov (sp_Lookup parentID name)) in
  match existing with
  | Ok it =>
      if it_IsDir it then do! _ := timed (λ now, on_prov (sp_DeleteItem now (it_ID it))) in create
      else do! _ := timed (λ now, on_prov (sp_ModifyItem now (it_ID it) (mkModify contents (Some meta)))) in s_ret tt
  | Err (SProv PNotFound) => create
  | Err e => s_fail e
  end.

(** The file opened at [q] receives what the provider served; a provider error
    is reported after the bytes it did serve. *)
Definition fetch_into (id : ItemID) (q : path) : SM P unit := λ w,
  let '(out, res) := sp_FetchContents id (w_prov w) in
  (do! _ := on_os (Write h q out) in match res with Ok _ => s_ret tt | Err e => s_fail (SProv e) end) w.

Definition download (p : string) : SM P unit :=
  do! id := remoteItemID p in
  do! it := on_prov (sp_Stat id) in
  let abs := localAbs (r_root r) p in
  do! _ := on_os (MkdirAll h (removelast abs) 493) in
  do! n := s_try (on_os (Lstat h abs)) in
  do! _ := match n with
           | Ok n => if fi_IsDir n then on_os (RemoveAll h abs) else s_ret tt
           | Err _ => s_ret tt
           end in
  if IsSymlink (it_Meta it) then on_os (RestoreSymlink h abs (it_Meta it))
  else
    do! q := on_os (Create h abs) in
    do! res := s_try (fetch_into id q) in
    match res with
    | Err e => do! _ := s_try (on_os (Close h)) in s_fail e
    | Ok _ =>
        do! _ := on_os (Close h) in
        on_os (Restore h abs (it_Meta it))
    end.

Definition mkdirLocal (p : string) : SM P unit :=
  let abs := localAbs (r_root r) p in
  do! _ := on_os (MkdirAll h abs 493) in
  do! id := s_try (remoteItemID p) in
  match id with
  | Err _ => s_ret tt
  | Ok id =>
      do! it := s_try (on_prov (sp_Stat id)) in
      match it with Err _ => s_ret tt | Ok it => on_os (Restore h abs (it_Meta it)) end
  end.

Definition deleteRemote (p : string) : SM P unit :=
  do! id := s_try (remoteItemID p) in
  match id with
  | Err (SProv PNotFound) => s_ret tt
  | Err e => s_fail e
  | Ok id => timed (λ now, on_prov (sp_DeleteItem now id))
  end.

Definition deleteLocal (p : string) : SM P unit :=
  do! res := s_try (on_os (RemoveAll h (localAbs (r_root r) p))) in
  match res with
  | Err (SOs ENOENT) | Ok _ => s_ret tt
  | Err e => s_fail e
  end.

Definition do_op (op : Op) : SM P unit :=
  match op_Kind op with
  | OpMkdirRemote => do! _ := remoteDirID (op_Path op) in s_ret tt
  | OpMkdirLocal => mkdirLocal (op_Path op)
  | OpUpload => upload (op_Path op)
  | OpDownload => download (op_Path op)
  | OpDeleteRemote => deleteRemote (op_Path op)
  | OpDeleteLocal => deleteLocal (op_Path op)
  | OpConflict => s_ret tt
  end.

Definition count (k : OpKind) (res : Result) : Result :=
  match res with
  | mkResult u d dr dl mr ml c errs =>
      match k with
      | OpUpload => mkResult (u + 1) d dr dl mr ml c errs
      | OpDownload => mkResult u (d + 1) dr dl mr ml c errs
      | OpDeleteRemote => mkResult u d (dr + 1) dl mr ml c errs
      | OpDeleteLocal => mkResult u d dr (dl + 1) mr ml c errs
      | OpMkdirRemote => mkResult u d dr dl (mr + 1) ml c errs
      | OpMkdirLocal => mkResult u d dr dl mr (ml + 1) c errs
      | OpConflict => mkResult u d dr dl mr ml (c + 1) errs
      end
  end.
Definition failed (p : string) (e : sync_err) (res : Result) : Result :=
  match res with mkResult u d dr dl mr ml c errs => mkResult u d dr dl mr ml c (errs ++ [(p, e)]) end.

(** The loop over the plan; the context is checked before each operation. *)
Fixpoint apply_ops (cancelled : nat → bool) (i : nat) (ops : list Op) (res : Result) w : World P * Result :=
  match ops with
  | [] => (w, res)
  | op :: ops =>
      if cancelled i then (w, failed "" SCancelled res)
      else
        let '(w, x) := do_op op w in
        apply_ops cancelled (i + 1) ops (match x with Ok _ => count (op_Kind op) res | Err e => failed (op_Path op) e res end) w
  end.
Definition apply_plan (ps : Pass) (pl : Plan) w : World P * Result :=
  apply_ops (ps_cancelled ps) 0 (pl_Ops pl) noResult (mkWorld (w_os w) (w_prov w) ∅).

Definition rebuildBase (fuel : nat) (ps : Pass) (oldBase : baseState) (skipped : gset string) : SM P baseState :=
  do! local := scan_here (ps_rescan ps) in
  do! remote := scanRemote fuel in
  s_ret (rebuilt local remote oldBase skipped).

(** The base, the remote scan and the plan of a pass. *)
Definition planned (fuel : nat) (ps : Pass) : SM P (baseState * remoteSnapshot * Plan) :=
  do! base := loadState (r_statePath r) in
  do! local := scan_here (ps_scan ps) in
  do! remote := scanRemote fuel in
  s_ret (base, remote, plan (r_conflict r) base local remote (ps_order ps)).

Definition PlanOnly (fuel : nat) (ps : Pass) : SM P Plan := do! bp := planned fuel ps in s_ret bp.2.

Definition Reconcile (fuel : nat) (ps : Pass) w : World P * (Result * result sync_err unit) :=
  let '(w, bp) := planned fuel ps w in
  match bp with
  | Err e => (w, (noResult, Err e))
  | Ok (base, _, pl) =>
      let '(w, res) := apply_plan ps pl w in
      let '(w, fin) := (do! nb := rebuildBase fuel ps base (pl_skipped pl) in saveState (ps_tmp ps) (r_statePath r) nb) w in
      (w, (res, fin))
  end.

(** Daemon.tick: the callback that runs. *)
Inductive outcome := OnResult (res : Result) | OnError (e : sync_err).
Definition tick (fuel : nat) (ps : Pass) w : World P * outcome :=
  let '(w, (res, fin)) := Reconcile fuel ps w in
  (w, match fin with Ok _ => OnResult res | Err e => OnError e end).

(** Daemon.Run over the passes its ticker starts until the context ends: every
    pass runs, whatever the ones before reported. *)
Fixpoint daemon_Run (fuel : nat) (ticks : list Pass) w : World P * list outcome :=
  match ticks with
  | [] => (w, [])
  | ps :: ticks =>
      let '(w, o) := tick fuel ps w in
      let '(w, os) := daemon_Run fuel ticks w in (w, o :: os)
  end.
End reconcile.

(** ** What a pass leaves alone *)

Abbreviation fs_of w := (os_fs (w_os w)).

Section frame.
Context {P : Type} `{Hsp : !SyncProvider P} (h : Host) (r : Reconciler).
Implicit Types (w : World P).

(** The disk stays as it is. *)
Definition s_pure {A} (m : SM P A) : Prop := ∀ w, fs_of (m w).1 = fs_of w.

Lemma s_pure_ret {A} (a : A) : s_pure (s_ret a).
Proof. done. Qed.
Lemma s_pure_fail {A} e : s_pure (s_fail (A := A) e).
Proof. done. Qed.
Lemma s_pure_bind {A B} (m : SM P A) (k : A → SM P B) : s_pure m → (∀ a, s_pure (k a)) → s_pure (s_bind m k).
Proof. intros Hm Hk w. unfold s_bind. specialize (Hm w). destruct (m w) as [w' [a|e]]; [|done]. by rewrite Hk. Qed.
Lemma s_pure_try {A} (m : SM P A) : s_pure m → s_pure (s_try m).
Proof. intros Hm w. unfold s_try. specialize (Hm w). by destruct (m w). Qed.
Lemma s_pure_os {A} (m : OSM A) : os_pure m → s_pure (on_os m).
Proof. intros Hm w. unfold on_os. specialize (Hm (w_os w)). by destruct (m (w_os w)). Qed.
Lemma s_pure_prov {A} (m : M P A) : s_pure (on_prov m).
Proof. intros w. unfold on_prov. by destruct (m (w_prov w)). Qed.
Lemma s_pure_timed {A} (m : Z → SM P A) : (∀ t, s_pure (m t)) → s_pure (timed h m).
Proof. intros Hm w. apply Hm. Qed.
Lemma s_pure_cache p id : s_pure (cache_dir p id).
Proof. done. Qed.
#[local] Hint Resolve s_pure_ret s_pure_fail s_pure_try s_pure_prov s_pure_cache : localfs.
#[local] Hint Resolve s_pure_os : localfs.

Ltac pure_tac :=
  repeat (first [solve [auto with localfs] | apply s_pure_bind; [|intros ?] | apply s_pure_timed; intros ? | case_match]).

Lemma pure_localDirMeta p : s_pure (localDirMeta h r p).
Proof. unfold localDirMeta. pure_tac. Qed.
#[local] Hint Resolve pure_localDirMeta : localfs.

Lemma pure_remoteDirID_fuel fuel : ∀ p, s_pure (remoteDirID_fuel h r fuel p).
Proof.
  induction fuel as [|fuel IH]; intros p; cbn [remoteDirID_fuel]; [auto with localfs|].
  case_decide; [auto with localfs|]. intros w. case_match; [done|].
  match goal with |- fs_of (?m w).1 = _ => assert (s_pure m) as Hm; [|exact (Hm w)] end.
  apply s_pure_bind; [apply IH|intros parentID]. pure_tac.
Qed.
Lemma pure_remoteDirID p : s_pure (remoteDirID h r p).
Proof. apply pure_remoteDirID_fuel. Qed.
#[local] Hint Resolve pure_remoteDirID : localfs.
Lemma pure_remoteItemID p : s_pure (remoteItemID h r p).
Proof. unfold remoteItemID. pure_tac. Qed.
#[local] Hint Resolve pure_remoteItemID : localfs.

Lemma pure_upload p : s_pure (upload h r p).
Proof. unfold upload. pure_tac. Qed.
Lemma pure_deleteRemote p : s_pure (deleteRemote h r p).
Proof. unfold deleteRemote. pure_tac. Qed.

Lemma pure_scan_items rec prefix items : (∀ id rel snap, s_pure (rec id rel snap)) → ∀ snap, s_pure (scan_items rec prefix items snap).
Proof. intros Hrec. induction items as [|it items IH]; intros snap; cbn [scan_items]; pure_tac; auto. Qed.
Lemma pure_scanRemoteDir fuel : ∀ id prefix snap, s_pure (scanRemoteDir fuel id prefix snap).
Proof.
  induction fuel as [|fuel IH]; intros id prefix snap; cbn [scanRemoteDir]; [auto with localfs|].
  apply s_pure_bind; [auto with localfs|]. intros items. by apply pure_scan_items.
Qed.
Lemma pure_scanRemote fuel : s_pure (scanRemote fuel).
Proof. unfold scanRemote. apply s_pure_bind; [auto with localfs|]. intros root. apply pure_scanRemoteDir. Qed.
Lemma pure_scan_here sf : s_pure (scan_here h r sf).
Proof. done. Qed.
#[local] Hint Resolve pure_scanRemote pure_scan_here : localfs.
Lemma pure_planned `{Json stateJSON} fuel ps : s_pure (planned h r fuel ps).
Proof. unfold planned, loadState. pure_tac. Qed.
Lemma pure_rebuildBase fuel ps old sk : s_pure (rebuildBase h r fuel ps old sk).
Proof. unfold rebuildBase. pure_tac. Qed.
End frame.

(** A step that keeps a tree without links, and every node outside [p]. *)
Definition s_keeps {P A} (p : path) (m : SM P A) : Prop := ∀ w, links_free (fs_of w) →
  links_free (fs_of (m w).1) ∧ same_outside p (fs_of w) (fs_of (m w).1).

Section keeps.
Context {P : Type} `{Hsp : !SyncProvider P} (h : Host) (r : Reconciler) (p : path).
Implicit Types (w : World P).

Lemma s_keeps_pure {A} (m : SM P A) : s_pure m → s_keeps p m.
Proof. intros Hm w Hl. rewrite (Hm w). by split. Qed.
Lemma s_keeps_os {A} (m : OSM A) : keeps p m → s_keeps p (on_os (P := P) m).
Proof. intros Hm w Hl. destruct (Hm (w_os w) Hl) as [Hl' H]. unfold on_os. by destruct (m (w_os w)). Qed.

(** [Q]: what is known of the result. *)
Lemma s_keeps_bind {A B} (Q : A → Prop) (m : SM P A) (k : A → SM P B) :
  s_keeps p m → (∀ w w' a, links_free (fs_of w) → m w = (w', Ok a) → Q a) → (∀ a, Q a → s_keeps p (k a)) → s_keeps p (s_bind m k).
Proof.
  intros Hm HQ Hk w Hl. unfold s_bind. destruct (Hm w Hl) as [Hl' H]. destruct (m w) as [w' [a|e]] eqn:E; [|done].
  destruct (Hk a (HQ _ _ _ Hl E) w' Hl') as [Hl'' H']. split; [done|]. by eapply same_outside_trans.
Qed.
Lemma s_keeps_bind' {A B} (m : SM P A) (k : A → SM P B) : s_keeps p m → (∀ a, s_keeps p (k a)) → s_keeps p (s_bind m k).
Proof. intros Hm Hk. by apply (s_keeps_bind (λ _, True)). Qed.
Lemma s_keeps_try {A} (m : SM P A) : s_keeps p m → s_keeps p (s_try m).
Proof. intros Hm w Hl. destruct (Hm w Hl) as [Hl' H]. unfold s_try. by destruct (m w). Qed.
End keeps.

Section ops.
Context {P : Type} `{Hsp : !SyncProvider P} (h : Host) (r : Reconciler).
Implicit Types (w : World P).
(** No item of the provider is a symbolic link. *)
Definition no_link_items : Prop := ∀ id q q' it, sp_Stat id q = (q', Ok it) → IsSymlink (it_Meta it) = false.
Context (Hno : no_link_items) (p : string) (abs := localAbs (r_root r) p) (Habs : Forall normal abs).

#[local] Hint Resolve s_pure_ret s_pure_fail s_pure_try s_pure_prov s_pure_cache s_pure_os pure_remoteItemID pure_remoteDirID : localfs.
#[local] Hint Resolve s_keeps_pure s_keeps_os s_keeps_try : localfs.
Ltac sk_tac := repeat (first [solve [auto with localfs] | apply s_keeps_bind'; [|intros ?] | case_match]).

Lemma keeps_fetch_into id : s_keeps abs (fetch_into h id abs).
Proof.
  intros w Hl. unfold fetch_into. destruct (sp_FetchContents id (w_prov w)) as [out res].
  match goal with |- context [(?m w).1] => assert (s_keeps abs m) as Hm; [|exact (Hm w Hl)] end. sk_tac.
Qed.
#[local] Hint Resolve keeps_fetch_into : localfs.

Lemma keeps_download : s_keeps abs (download h r p).
Proof.
  unfold download. fold abs. apply s_keeps_bind'; [sk_tac|intros id].
  apply (s_keeps_bind _ (λ it, IsSymlink (it_Meta it) = false)); [sk_tac| |intros it Hit].
  { intros w w' it _ E. unfold on_prov in E. destruct (sp_Stat id (w_prov w)) as [q [x|e]] eqn:Es; [|done].
    apply pair_eq in E as [_ E]. apply (inj Ok) in E as <-. by eapply Hno. }
  apply s_keeps_bind'; [sk_tac|intros _]. apply s_keeps_bind'; [sk_tac|intros n]. apply s_keeps_bind'; [sk_tac|intros _].
  rewrite Hit. apply (s_keeps_bind _ (λ q, q = abs)); [sk_tac| |intros q ->; sk_tac].
  intros w w' q Hl E. unfold on_os in E. destruct (Create h abs (w_os w)) as [o [x|e]] eqn:Ec; [|done].
  apply pair_eq in E as [_ E]. apply (inj Ok) in E as <-. by eapply Create_path.
Qed.

Lemma keeps_mkdirLocal : s_keeps abs (mkdirLocal h r p).
Proof. unfold mkdirLocal. fold abs. sk_tac. Qed.
Lemma keeps_deleteLocal : s_keeps (P := P) abs (deleteLocal h r p).
Proof. unfold deleteLocal. fold abs. sk_tac. Qed.
End ops.

Section pass.
Context {P : Type} `{Hsp : !SyncProvider P} (h : Host) (r : Reconciler).
Implicit Types (w : World P).
Context (Hno : no_link_items (P := P)).

(** An operation changes nothing but what is at its path and below, and only
    the operations on the local side change anything. *)
Lemma do_op_keeps op : Forall normal (localAbs (r_root r) (op_Path op)) → s_keeps (localAbs (r_root r) (op_Path op)) (do_op h r op).
Proof.
  intros Hn. unfold do_op. destruct (op_Kind op).
  - apply s_keeps_pure, s_pure_bind; [apply pure_remoteDirID|done].
  - by apply keeps_mkdirLocal.
  - apply s_keeps_pure, pure_upload.
  - by apply keeps_download.
  - apply s_keeps_pure, pure_deleteRemote.
  - by apply keeps_deleteLocal.
  - by apply s_keeps_pure.
Qed.
Lemma do_op_pure op : writes_local (op_Kind op) = false → s_pure (do_op h r op).
Proof.
  unfold do_op. destruct (op_Kind op); try done; intros _.
  - apply s_pure_bind; [apply pure_remoteDirID|done].
  - apply pure_upload.
  - apply pure_deleteRemote.
Qed.

(** A node that no local operation of the plan is above survives the plan. *)
Definition spares (q : path) (op : Op) : Prop :=
  writes_local (op_Kind op) = false ∨
  (Forall normal (localAbs (r_root r) (op_Path op)) ∧ ¬ localAbs (r_root r) (op_Path op) `prefix_of` q).
Definition tame (op : Op) : Prop := Forall normal (localAbs (r_root r) (op_Path op)).

Lemma apply_ops_keeps cancelled q n ops : Forall tame ops → Forall (spares q) ops → ∀ i res w, links_free (fs_of w) → fs_of w !! q = Some n →
  links_free (fs_of (apply_ops h r cancelled i ops res w).1) ∧ fs_of (apply_ops h r cancelled i ops res w).1 !! q = Some n.
Proof.
  intros Ht. induction 1 as [|op ops Hop Hops IH]; intros i res w Hl Hq; cbn [apply_ops]; [done|].
  apply Forall_cons in Ht as [Hto Ht]. destruct (cancelled i); [done|].
  assert (links_free (fs_of (do_op h r op w).1) ∧ fs_of (do_op h r op w).1 !! q = Some n) as [Hl' Hq'].
  { destruct Hop as [Hw|[Ha Hnp]]; [by rewrite do_op_pure|]. destruct (do_op_keeps op Ha w Hl) as [H1 H2]. split; [done|].
    destruct (H2 q Hnp) as [->|[_ H0]]; [done|congruence]. }
  destruct (do_op h r op w) as [w' x]. by apply IH.
Qed.
End pass.

Section loop.
Context {P : Type} `{Hsp : !SyncProvider P} (h : Host) (r : Reconciler).
Implicit Types (w : World P).

Lemma apply_ops_links cancelled ops : no_link_items (P := P) → Forall (tame r) ops → ∀ i res w, links_free (fs_of w) →
  links_free (fs_of (apply_ops h r cancelled i ops res w).1).
Proof.
  intros Hno. induction 1 as [|op ops Hop _ IH]; intros i res w Hl; cbn [apply_ops]; [done|]. destruct (cancelled i); [done|].
  destruct (do_op_keeps h r Hno op Hop w Hl) as [Hl' _]. destruct (do_op h r op w) as [w' x]. by apply IH.
Qed.

Lemma apply_ops_app cancelled ops1 ops2 : (∀ i, cancelled i = false) → ∀ i res w,
  apply_ops h r cancelled i (ops1 ++ ops2) res w =
    let '(w', res') := apply_ops h r cancelled i ops1 res w in apply_ops h r cancelled (i + length ops1) ops2 res' w'.
Proof.
  intros Hc. induction ops1 as [|op ops1 IH]; intros i res w; cbn [app apply_ops length]; [by rewrite Nat.add_0_r|].
  rewrite Hc. destruct (do_op h r op w) as [w' x]. rewrite IH. destruct (apply_ops h r cancelled (i + 1) ops1 _ w') as [w2 res2]. f_equal. lia.
Qed.

(** Deletes create nothing. *)
Lemma delete_absent op w q : isDelete (op_Kind op) = true → fs_of w !! q = None → fs_of (do_op h r op w).1 !! q = None.
Proof.
  unfold do_op. destruct (op_Kind op); try done; intros _ Hq; [by rewrite (pure_deleteRemote h r (op_Path op) w)|].
  unfold deleteLocal, s_bind, s_try, on_os. pose proof (RemoveAll_absent h (localAbs (r_root r) (op_Path op)) (w_os w) q Hq) as H.
  destruct (RemoveAll _ _ _) as [o [[]|e]]; cbn in *; [done|]. by destruct e.
Qed.
Lemma deletes_absent cancelled q ops : Forall (λ op, isDelete (op_Kind op) = true) ops → ∀ i res w, fs_of w !! q = None →
  fs_of (apply_ops h r cancelled i ops res w).1 !! q = None.
Proof.
  induction 1 as [|op ops Hop _ IH]; intros i res w Hq; cbn [apply_ops]; [done|]. destruct (cancelled i); [done|].
  pose proof (delete_absent op w q Hop Hq). destruct (do_op h r op w) as [w' x]. by apply IH.
Qed.

(** A delete that nothing stops removes the directory and all below it. *)
Lemma deleteLocal_effect p q w : (∀ i, c_fail (h_call h i) = false) →
  resolve_in (fs_of w) false (localAbs (r_root r) p) = Ok (localAbs (r_root r) p) → localAbs (r_root r) p `prefix_of` q →
  fs_of (deleteLocal (P := P) h r p w).1 !! q = None.
Proof.
  intros Hf Hres Hpre. unfold deleteLocal, s_bind, s_try, on_os, RemoveAll. rewrite Hres, Hf. cbn.
  apply map_lookup_filter_None. right. intros n _ H. by apply H.
Qed.
End loop.

(** ** The sidecar's effect on the rest of the disk *)

Section sidecar.
Context {P : Type} (h : Host) (q : path).

Definition s_spares {A} (m : SM P A) : Prop := ∀ w, links_free (fs_of w) →
  links_free (fs_of (m w).1) ∧ fs_of (m w).1 !! q = fs_of w !! q.

Lemma spares_os {A} p (m : OSM A) : ¬ p `prefix_of` q → fixes p m → s_spares (on_os m).
Proof. intros Hp Hm w Hl. destruct (Hm (w_os w) Hl) as [H1 H2]. unfold on_os. specialize (H2 q Hp). by destruct (m (w_os w)). Qed.
Lemma spares_try {A} (m : SM P A) : s_spares m → s_spares (s_try m).
Proof. intros Hm w Hl. destruct (Hm w Hl) as [H1 H2]. unfold s_try. by destruct (m w). Qed.
Lemma spares_bind {A B} (Q : A → Prop) (m : SM P A) (k : A → SM P B) :
  s_spares m → (∀ w w' a, links_free (fs_of w) → m w = (w', Ok a) → Q a) → (∀ a, Q a → s_spares (k a)) → s_spares (s_bind m k).
Proof.
  intros Hm HQ Hk w Hl. destruct (Hm w Hl) as [Hl' H]. unfold s_bind. destruct (m w) as [w' [a|e]] eqn:E; [|done].
  cbn in H, Hl'. rewrite <-H. apply (Hk a); eauto.
Qed.

Context (tmp sp : path) (Ht : Forall normal tmp) (Hs : Forall normal sp) (Hqt : ¬ tmp `prefix_of` q) (Hqs : q ≠ sp).

Lemma spares_or_remove m : s_spares (on_os (P := P) m) → s_spares (or_remove h tmp m).
Proof.
  intros Hm. apply (spares_bind (λ _, True)); [by apply spares_try|done|].
  intros [a|e] _; [by intros w|]. apply (spares_bind (λ _, True)); [|done|by intros a _ w].
  by apply spares_try, (spares_os tmp), fixes_Remove.
Qed.

Lemma spares_step m : fixes tmp m → s_spares (or_remove (P := P) h tmp m).
Proof. intros Hm. by apply spares_or_remove, (spares_os tmp). Qed.

Lemma spares_saveState `{Json stateJSON} st : s_spares (saveState h tmp sp st).
Proof.
  unfold saveState. destruct (Marshal _) as [data|]; [|by intros w].
  apply (spares_bind (λ x, x = tmp)); [by apply (spares_os tmp), fixes_CreateTemp| |intros x ->].
  { intros w w' x Hl E. unfold on_os in E. destruct (CreateTemp h tmp (w_os w)) as [o [y|e]] eqn:Ec; [|done].
    apply pair_eq in E as [_ E]. apply (inj Ok) in E as <-. by eapply CreateTemp_path. }
  apply (spares_bind (λ _, True)); [by apply spares_step, fixes_set_attr|done|intros _ _].
  apply (spares_bind (λ _, True)); [by apply spares_step, fixes_Write|done|intros _ _].
  apply (spares_bind (λ _, True)); [by apply spares_step, fixes_Close|done|intros _ _].
  apply spares_or_remove. intros w Hl. unfold on_os.
  destruct (Rename_keeps h tmp Ht sp (w_os w) q) as [H1 H2]; try done; [by intros ->|]. by destruct (Rename h tmp sp (w_os w)).
Qed.
End sidecar.

Section atomic.
Context {P : Type} `{Hsj : Json stateJSON} (h : Host) (tmp sp : path).
Implicit Types (w : World P).
Context (Ht : Forall normal tmp) (Hs : Forall normal sp) (Hts : ¬ tmp `prefix_of` sp).

Lemma or_remove_ok m w w' : or_remove (P := P) h tmp m w = (w', Ok tt) → on_os m w = (w', Ok tt).
Proof.
  unfold or_remove, s_bind, s_try. destruct (on_os m w) as [w1 [[]|e]]; [by intros [= ->]|].
  destruct (on_os (Remove h tmp) w1). done.
Qed.
Lemma on_os_ok {A} (m : OSM A) w w' a : on_os m w = (w', Ok a) → m (w_os w) = (w_os w', Ok a).
Proof. unfold on_os. destruct (m (w_os w)) as [o [x|e]]; intros [=]; by subst. Qed.

(** Writing the sidecar either installs the new state or leaves the old file as
    it was. *)
Lemma saveState_spec st w w' res : links_free (fs_of w) → json_ok (mkState stateVersion (Some st)) →
  saveState h tmp sp st w = (w', res) →
  match res with
  | Ok _ => ∃ data, body_at (fs_of w') sp = Some (BFile data) ∧ Unmarshal data = Some (mkState stateVersion (Some st))
  | Err _ => fs_of w' !! sp = fs_of w !! sp
  end.
Proof.
  intros Hl Hj E. destruct (json_roundtrip _ Hj) as (data & Em & Eu). unfold saveState in E. rewrite Em in E.
  assert (∀ m, fixes tmp m → s_spares (P := P) sp (or_remove h tmp m)) as Hstep by (intros m Hm; by apply spares_step).
  unfold s_bind in E.
  destruct (spares_os (P := P) sp tmp (CreateTemp h tmp) Hts (fixes_CreateTemp h tmp Ht) w Hl) as [Hl1 Q1].
  destruct (on_os (CreateTemp h tmp) w) as [w1 [x|e]] eqn:E1; [|by simplify_eq/=]. cbn [fst] in *. apply on_os_ok in E1.
  rewrite (CreateTemp_path h tmp Ht _ _ _ Hl E1) in E. apply CreateTemp_ok in E1; [|done..].
  destruct (Hstep (Chmod h tmp 384) (fixes_set_attr h tmp Ht true _) w1 Hl1) as [Hl2 Q2].
  destruct (or_remove h tmp (Chmod h tmp 384) w1) as [w2 [[]|e]] eqn:E2; [|simplify_eq/=; congruence]. cbn [fst] in *.
  apply or_remove_ok, on_os_ok, set_attr_ok in E2; [|done..]. rewrite E1 in E2.
  destruct (Hstep (Write h tmp data) (fixes_Write h tmp Ht data) w2 Hl2) as [Hl3 Q3].
  destruct (or_remove h tmp (Write h tmp data) w2) as [w3 [[]|e]] eqn:E3; [|simplify_eq/=; congruence]. cbn [fst] in *.
  apply or_remove_ok, on_os_ok in E3. apply (Write_ok _ _ _ _ _ _ _ E3) in E2.
  destruct (Hstep (Close h) (fixes_Close h tmp) w3 Hl3) as [Hl4 Q4].
  destruct (or_remove h tmp (Close h) w3) as [w4 [[]|e]] eqn:E4; [|simplify_eq/=; congruence]. cbn [fst] in *.
  apply or_remove_ok, on_os_ok in E4. pose proof (pure_Close h (w_os w3)) as Hc. rewrite E4 in Hc. cbn in Hc. rewrite <-Hc in E2.
  destruct res as [[]|e].
  - assert (tmp ≠ sp) as Hne by (intros ->; by apply Hts).
    apply or_remove_ok, on_os_ok in E. rewrite (Rename_ok h tmp Ht sp _ _ _ Hs Hne Hl4 E), E2. by exists data.
  - unfold or_remove, s_bind, s_try, on_os in E. destruct (Rename h tmp sp (w_os w4)) as [o [x'|e']] eqn:Er; [done|]. cbn in E.
    apply Rename_fail in Er. destruct (fixes_Remove h tmp Ht o) as [_ Hr]; [by rewrite Er|].
    specialize (Hr sp Hts). destruct (Remove h tmp o) as [o' res]. cbn in *. apply (f_equal (λ x, fs_of x.1)) in E. cbn in E. congruence.
Qed.
End atomic.

(** ** The claims *)

Lemma localAbs_parts root parts : Forall normal parts → localAbs root (join_slash parts) = root ++ parts.
Proof. intros Hp. unfold localAbs. by rewrite clean_join. Qed.

(** The plan's paths are names as file systems have them. *)
Definition tidy (op : Op) : Prop := ∃ parts, op_Path op = join_slash parts ∧ parts ≠ [] ∧ Forall normal parts.

Lemma tidy_tame r op : Forall normal (r_root r) → tidy op → tame r op.
Proof. intros Hr (parts & E & _ & Hp). unfold tame. rewrite E, localAbs_parts by done. by apply Forall_app. Qed.

Section claims.
Context {P : Type} `{Hsp : !SyncProvider P} `{Hsj : Json stateJSON} (h : Host) (r : Reconciler).
Implicit Types (w : World P).

Lemma planned_inv fuel ps w w1 base remote pl : planned h r fuel ps w = (w1, Ok (base, remote, pl)) →
  pl = plan (r_conflict r) base (scanLocal h (r_root r) (r_ignore r) (ps_scan ps) (fs_of w)) remote (ps_order ps) ∧ fs_of w1 = fs_of w.
Proof.
  intros E. pose proof (pure_planned h r fuel ps w) as Hp. rewrite E in Hp. split; [|exact Hp].
  unfold planned, s_bind in E. destruct (loadState h (r_statePath r) w) as [w2 [b|e]] eqn:El; [|done].
  assert (fs_of w2 = fs_of w) as Hf.
  { assert (s_pure (loadState (P := P) h (r_statePath r))) as Hl.
    { unfold loadState. apply s_pure_bind; [apply s_pure_try, s_pure_os, pure_ReadFile|]. intros a. repeat case_match; done. }
    specialize (Hl w). by rewrite El in Hl. }
  cbn in E. destruct (scanRemote fuel w2) as [w3 [rm|e]]; [|done]. rewrite Hf in E.
  apply pair_eq in E as [_ E]. apply (inj Ok) in E. by simplify_eq.
Qed.

(** The steps after the plan: nothing more happens on the disk than the
    operations and the sidecar. *)
Lemma Reconcile_steps fuel ps w w' out w1 base remote pl :
  planned h r fuel ps w = (w1, Ok (base, remote, pl)) → Reconcile h r fuel ps w = (w', out) →
  ∃ w2 res, apply_plan h r ps pl w1 = (w2, res) ∧
    (∀ q, Forall normal (ps_tmp ps) → Forall normal (r_statePath r) →
      ¬ ps_tmp ps `prefix_of` q → q ≠ r_statePath r → links_free (fs_of w2) → fs_of w' !! q = fs_of w2 !! q).
Proof.
  intros E Er. unfold Reconcile in Er. rewrite E in Er. destruct (apply_plan h r ps pl w1) as [w2 res] eqn:Ea. exists w2, res. split; [done|].
  intros q Ht Hs H1 H2 Hl.
  assert (s_spares (P := P) q (do! nb := rebuildBase h r fuel ps base (pl_skipped pl) in saveState h (ps_tmp ps) (r_statePath r) nb)) as Hsp'.
  { apply (spares_bind q (λ _, True)); [|done|intros nb _; by apply spares_saveState].
    intros w3 Hl3. by rewrite (pure_rebuildBase h r fuel ps base (pl_skipped pl) w3). }
  destruct (Hsp' w2 Hl) as [_ Hq]. destruct (s_bind _ _ w2) as [w4 fin]. by simplify_eq.
Qed.


(** The directories down to the root are not touched by a plan. *)
Lemma apply_ops_root cancelled ops i res w k : no_link_items (P := P) → links_free (fs_of w) → Forall normal (r_root r) → Forall tidy ops →
  k `prefix_of` r_root r → n_body <$> fs_of w !! k = Some BDir → n_body <$> fs_of (apply_ops h r cancelled i ops res w).1 !! k = Some BDir.
Proof.
  intros Hno Hl Hr Hti Hk Hb. destruct (fs_of w !! k) as [n|] eqn:En; [|done].
  destruct (apply_ops_keeps h r Hno cancelled k n ops) with (i := i) (res := res) (w := w) as [_ ->]; try done.
  - eapply Forall_impl; [exact Hti|]. intros op. by apply tidy_tame.
  - eapply Forall_impl; [exact Hti|]. intros op (parts & Epath & Hpne & Hpn). right. rewrite Epath, localAbs_parts by done.
    split; [by apply Forall_app|]. intros Hpre. assert (r_root r ++ parts `prefix_of` r_root r) as [z Hz] by (by etransitivity).
    apply (f_equal length) in Hz. rewrite !length_app in Hz. destruct parts; cbn in Hz; [done|lia].
Qed.

(** A plan that removes a directory of the root leaves nothing of it. *)
Lemma apply_removes cancelled ops d q w : no_link_items (P := P) → links_free (fs_of w) →
  (∀ i, c_fail (h_call h i) = false) → (∀ i, cancelled i = false) → Forall normal (r_root r) → normal d →
  (∀ k, k `prefix_of` r_root r → k ≠ [] → n_body <$> fs_of w !! k = Some BDir) →
  Forall tidy ops → StronglySorted op_le ops → mkOp OpDeleteLocal d true false ∈ ops → r_root r ++ [d] `prefix_of` q →
  fs_of (apply_ops h r cancelled 0 ops noResult w).1 !! q = None.
Proof.
  intros Hno Hl Hh Hcan Hr Hd Hroot Htidy Hsort (l1 & l2 & ->)%list_elem_of_split Hq.
  rewrite apply_ops_app by done. apply Forall_app in Htidy as [Hti1 _].
  assert (Forall (tame r) l1) as Ht1 by (eapply Forall_impl; [exact Hti1|]; intros op; by apply tidy_tame).
  pose proof (apply_ops_links h r cancelled l1 Hno Ht1 0 noResult w Hl) as Hlb.
  assert (∀ k, k `prefix_of` r_root r → k ≠ [] → n_body <$> fs_of (apply_ops h r cancelled 0 l1 noResult w).1 !! k = Some BDir) as Hkb.
  { intros k Hk Hne. apply apply_ops_root; auto. }
  destruct (apply_ops h r cancelled 0 l1 noResult w) as [wb resb]. cbn [fst] in *. cbn [apply_ops]. rewrite Hcan.
  assert (fs_of (do_op h r (mkOp OpDeleteLocal d true false) wb).1 !! q = None) as Hgone.
  { change (do_op h r (mkOp OpDeleteLocal d true false) wb) with (deleteLocal (P := P) h r d wb).
    assert (localAbs (r_root r) d = r_root r ++ [d]) as Eabs by (apply (localAbs_parts (r_root r) [d]); by constructor).
    apply deleteLocal_effect; [done| |]; rewrite Eabs; [by apply resolve_dirs|done]. }
  destruct (do_op h r (mkOp OpDeleteLocal d true false) wb) as [wc xc]. apply deletes_absent; [|done].
  apply StronglySorted_app_1_r in Hsort. apply StronglySorted_cons in Hsort as [Hle _]. eapply Forall_impl; [exact Hle|].
  intros op Hop%op_le_spec. unfold op_rank in Hop. cbn -[depth] in Hop. destruct (isDelete (op_Kind op)); [done|]. cbn -[depth] in Hop. lia.
Qed.

(** Under the Skip policy, a file edited locally in a directory that was removed
    remotely is reported as a conflict left untouched on both sides; the same
    plan removes the directory (a directory always matches the base), and the
    edit with it. *)
Theorem skip_conflict_destroyed fuel ps w w1 w' out base remote pl d f bd bf ld lf
    (local := scanLocal h (r_root r) (r_ignore r) (ps_scan ps) (fs_of w)) (q := r_root r ++ [d; f]) :
  no_link_items (P := P) → links_free (fs_of w) → r_conflict r = Skip →
  (∀ i, c_fail (h_call h i) = false) → (∀ i, ps_cancelled ps i = false) →
  Forall normal (r_root r) → Forall normal (ps_tmp ps) → Forall normal (r_statePath r) → normal d → normal f →
  (∀ k, k `prefix_of` r_root r → k ≠ [] → n_body <$> fs_of w !! k = Some BDir) →
  ¬ ps_tmp ps `prefix_of` q → q ≠ r_statePath r →
  planned h r fuel ps w = (w1, Ok (base, remote, pl)) → range_order base local remote (ps_order ps) → Forall tidy (pl_Ops pl) →
  local !! d = Some ld → ls_kind ld = kindDir → base !! d = Some bd → be_Dir bd = true → remote !! d = None →
  local !! join_slash [d; f] = Some lf → base !! join_slash [d; f] = Some bf → localMatches bf lf = false → remote !! join_slash [d; f] = None →
  Reconcile h r fuel ps w = (w', out) →
  join_slash [d; f] ∈ pl_skipped pl ∧ mkOp OpConflict (join_slash [d; f]) false false ∈ pl_Ops pl ∧ fs_of w' !! q = None.
Proof.
  intros Hno Hl Hc Hh Hcan Hr Ht Hs Hd Hf Hroot H1 H3 Ep Hro Htidy El Hkd Eb Hbd Er Elf Ebf Hm Erf E.
  destruct (planned_inv _ _ _ _ _ _ _ Ep) as [Epl Hfs]. destruct (Reconcile_steps _ _ _ _ _ _ _ _ _ Ep E) as (w2 & res & Ea & Hrest).
  fold local in Epl. pose proof (plan_spec (r_conflict r) _ _ _ _ Hro) as (Ho & Hsk & _ & Hsort). rewrite <-Epl in Ho, Hsk, Hsort.
  assert (decided (r_conflict r) base local remote (join_slash [d; f]) = (Some (mkOp OpConflict (join_slash [d; f]) false false), true)) as Dconf.
  { unfold decided. rewrite Elf, Erf, Ebf. cbn -[join_slash]. rewrite Hm, Hc. done. }
  assert (decided (r_conflict r) base local remote d = (Some (mkOp OpDeleteLocal d true false), false)) as Ddel.
  { unfold decided. rewrite El, Er, Eb. unfold decide_op, decideLocalOnly, localMatches. rewrite Hkd, Hbd. done. }
  split; [apply Hsk; by rewrite Dconf|]. split; [apply Ho; exists (join_slash [d; f]); by rewrite Dconf|].
  assert (mkOp OpDeleteLocal d true false ∈ pl_Ops pl) as Hop by (apply Ho; exists d; by rewrite Ddel).
  unfold apply_plan in Ea. rewrite Hrest; try done.
  - change w2 with (w2, res).1. rewrite <-Ea. apply (apply_removes _ _ d); try done; cbn [w_os]; [by rewrite Hfs|by intros k Hk Hne; rewrite Hfs; apply Hroot|].
    exists [f]. by rewrite <-app_assoc.
  - change w2 with (w2, res).1. rewrite <-Ea. apply apply_ops_links; [done| |cbn; by rewrite Hfs].
    eapply Forall_impl; [exact Htidy|]. intros op. by apply tidy_tame.
Qed.

(** An operation that fails is forgotten: the pass reports the error, and yet
    the base it saves records the path as agreed if both sides still have it, so
    a later pass that finds both sides as this one left them has nothing to do
    for the path, and the edit that was not transferred stays on its side. *)
Theorem failed_op_forgotten fuel ps w w1 w2 w3 w' res base remote remote2 pl p e ls rs
    (local2 := scanLocal h (r_root r) (r_ignore r) (ps_rescan ps) (fs_of w2)) :
  no_link_items (P := P) → links_free (fs_of w) → Forall tidy (pl_Ops pl) →
  Forall normal (r_root r) → Forall normal (ps_tmp ps) → Forall normal (r_statePath r) → ¬ ps_tmp ps `prefix_of` r_statePath r →
  planned h r fuel ps w = (w1, Ok (base, remote, pl)) → apply_plan h r ps pl w1 = (w2, res) →
  (p, e) ∈ res_Errors res →
  scanRemote fuel w2 = (w3, Ok remote2) → p ∉ pl_skipped pl →
  local2 !! p = Some ls → remote2 !! p = Some rs → ls_kind ls = rs_kind rs →
  json_ok (mkState stateVersion (Some (rebuilt local2 remote2 base (pl_skipped pl)))) →
  Reconcile h r fuel ps w = (w', (res, Ok tt)) →
  ∃ nb data, body_at (fs_of w') (r_statePath r) = Some (BFile data) ∧ Unmarshal data = Some (mkState stateVersion (Some nb)) ∧
    ∀ c (local' : localSnapshot) (remote' : remoteSnapshot), local' !! p = Some ls → remote' !! p = Some rs → decide_op c p (local' !! p) (remote' !! p) (nb !! p) = (None, false).
Proof.
  intros Hno Hl Htidy Hr Ht Hs Hts Ep Ea _ Esc Hsk Els Ers Hk Hj E. destruct (planned_inv _ _ _ _ _ _ _ Ep) as [_ Hf].
  assert (links_free (fs_of w2)) as Hl2.
  { unfold apply_plan in Ea. change w2 with (w2, res).1. rewrite <-Ea. apply apply_ops_links; [done| |cbn; by rewrite Hf].
    eapply Forall_impl; [exact Htidy|]. intros op. by apply tidy_tame. }
  assert (fs_of w3 = fs_of w2) as Hf3 by (pose proof (pure_scanRemote fuel w2) as H; by rewrite Esc in H).
  unfold Reconcile in E. rewrite Ep, Ea in E. unfold rebuildBase, s_bind at 1 in E.
  cbn [scan_here s_bind] in E. unfold s_bind in E. rewrite Esc in E. cbn in E. fold local2 in E.
  destruct (saveState h (ps_tmp ps) (r_statePath r) _ w3) as [w4 fin] eqn:Es. injection E as <- ->.
  apply saveState_spec in Es; [|done..|by rewrite Hf3|done]. destruct Es as (data & Eb & Eu).
  exists (rebuilt local2 remote2 base (pl_skipped pl)), data. split; [done|]. split; [done|].
  intros c local' remote' -> ->. rewrite rebuilt_lookup, Els, Ers by done. cbn. rewrite decide_False by tauto.
  unfold decideBoth. rewrite decide_False by tauto. destruct (agree_matches ls rs Hk) as [-> ->]. by case_decide.
Qed.
End claims.

(** ** Witnesses *)

#[export] Instance baseEntry_ser : Ser baseEntry.
Proof.
  refine (ser_iso (λ b, (be_Dir b, be_Size b, be_MtimeNS b, be_Content b, be_Meta b)) (λ '(a, b, c, d, e), mkBase a b c d e) _). by intros [].
Defined.
#[export] Instance stateJSON_ser : Ser stateJSON.
Proof. refine (ser_iso (λ s, (sj_version s, sj_entries s)) (λ '(a, b), mkState a b) _). by intros []. Defined.
Definition toy_state_json : Json stateJSON := ser_json stateJSON.

(** A namespace with the given items in its root, which nothing can change. *)
Definition fixed_prov (its : list Item) : SyncProvider unit := {|
  sp_Root := ret RootID;
  sp_Stat id := of_opt PNotFound (List.find (λ it, bool_decide (it_ID it = id)) its);
  sp_Lookup _ name := of_opt PNotFound (List.find (λ it, bool_decide (it_Name it = name)) its);
  sp_Enumerate _ := ret its;
  sp_FetchContents _ _ := ([], Err PNotFound);
  sp_CreateItem _ _ _ := fail PForeignRoot;
  sp_ModifyItem _ _ _ := fail PForeignRoot;
  sp_DeleteItem _ _ := fail PForeignRoot;
|}.

Definition ex_item : Item :=
  mkItem (Minted 1) RootID "f" false false 3 (mkVer [Byte.x01] [Byte.x02]) (lightMeta 420 7) 0 zeroCap.
Definition ex_rec (c : ConflictPolicy) : Reconciler := mkRec ["r"] ["r"; StateFileName] c (λ rel, bool_decide (rel = StateFileName)).
Definition ex_pass (order : list string) : Pass := mkPass no_faults no_faults order (λ _, false) ["r"; "tmp"].
Definition state_file (b : baseState) : node :=
  mkNode (ex_attr 0) (BFile (default [] (@Marshal _ toy_state_json (mkState stateVersion (Some b))))).

(** A file "f" edited since the base, in a namespace that refuses changes. *)
Definition ex_fs : FS :=
  list_to_map [(["r"], mkNode (ex_attr 0) BDir); (["r"; "f"], mkNode (ex_attr 200) (BFile [Byte.x09]));
    (["r"; StateFileName], state_file {["f" := mkBase false 3 100 [Byte.x01] [Byte.x02]]})].
Definition ex_world : World unit := mkWorld (mkOS ex_fs 0) tt ∅.

Lemma links_free_check fs : forallb (λ x, negb (is_link x.2)) (map_to_list fs) = true → links_free fs.
Proof.
  intros H q n Hq%elem_of_map_to_list. rewrite forallb_forall in H. apply negb_true_iff, (H (q, n)). by apply list_elem_of_In.
Qed.
Lemma tidy_check ops :
  forallb (λ op, bool_decide (join_slash (clean_parts (op_Path op)) = op_Path op) && negb (bool_decide (clean_parts (op_Path op) = []))) ops = true →
  Forall tidy ops.
Proof.
  intros H. apply Forall_forall. intros op Hop. rewrite forallb_forall in H. apply list_elem_of_In, H, andb_prop in Hop as [H1 H2].
  apply bool_decide_eq_true in H1. apply negb_true_iff, bool_decide_eq_false in H2.
  exists (clean_parts (op_Path op)). destruct (splitPath_Ok (op_Path op)) as [_ ?]. auto.
Qed.
Lemma fixed_no_links its : Forall (λ it, IsSymlink (it_Meta it) = false) its → @no_link_items _ (fixed_prov its).
Proof.
  intros H id q q' it E. unfold fixed_prov in E. cbn in E. unfold of_opt in E.
  destruct (List.find _ its) as [x|] eqn:Ef; [|done]. unfold ret in E. simplify_eq. apply find_some in Ef as [Hi _].
  rewrite Forall_forall in H. by apply H, list_elem_of_In.
Qed.
Ltac normal_tac := repeat first [constructor | apply normal_check; reflexivity].

Definition ok_or {E A} (d : A) (x : result E A) : A := match x with Ok a => a | Err _ => d end.

Definition ex_plan1 := @planned _ (fixed_prov [ex_item]) toy_state_json ex_host (ex_rec PreferLocal) 3 (ex_pass ["f"]) ex_world.
Definition ex_bp1 : baseState * remoteSnapshot * Plan := ok_or (∅, ∅, mkPlan [] ∅) ex_plan1.2.
Definition ex_done1 := @Reconcile _ (fixed_prov [ex_item]) toy_state_json ex_host (ex_rec PreferLocal) 3 (ex_pass ["f"]) ex_world.

Lemma ex_plan1_eq : ex_plan1 = (ex_plan1.1, Ok (ex_bp1.1.1, ex_bp1.1.2, ex_bp1.2)).
Proof. vm_compute. reflexivity. Qed.
Lemma ex_no_links : @no_link_items _ (fixed_prov [ex_item]).
Proof. apply fixed_no_links. repeat constructor. Qed.
Lemma ex_links : links_free ex_fs.
Proof. apply links_free_check. vm_compute. reflexivity. Qed.


Lemma failed_op_forgotten_witness : ∃ nb data,
  body_at (fs_of ex_done1.1) ["r"; StateFileName] = Some (BFile data) ∧ @Unmarshal _ toy_state_json data = Some (mkState stateVersion (Some nb)) ∧
  nb !! "f" = Some (mkBase false 1 200 [Byte.x01] [Byte.x02]).
Proof.
  pose (wa := @apply_plan _ (fixed_prov [ex_item]) ex_host (ex_rec PreferLocal) (ex_pass ["f"]) ex_bp1.2 ex_plan1.1).
  destruct (@failed_op_forgotten _ (fixed_prov [ex_item]) toy_state_json ex_host (ex_rec PreferLocal) 3 (ex_pass ["f"]) ex_world ex_plan1.1 wa.1
    (@scanRemote _ (fixed_prov [ex_item]) 3 wa.1).1 ex_done1.1 ex_done1.2.1 ex_bp1.1.1 ex_bp1.1.2
    {["f" := remote_state ex_item]} ex_bp1.2 "f" (SProv PForeignRoot) (mkLS kindLeaf false 1 200 420) (remote_state ex_item))
    as (nb & data & H1 & H2 & H3).
  - exact ex_no_links.
  - exact ex_links.
  - apply tidy_check. vm_compute. reflexivity.
  - normal_tac.
  - normal_tac.
  - normal_tac.
  - intros [k E]. discriminate E.
  - exact ex_plan1_eq.
  - vm_compute. reflexivity.
  - vm_compute. left.
  - vm_compute. reflexivity.
  - vm_compute (pl_skipped _). apply not_elem_of_empty.
  - vm_compute. reflexivity.
  - apply lookup_singleton_eq.
  - reflexivity.
  - exact I.
  - vm_compute. reflexivity.
  - exists nb, data. split; [exact H1|]. split; [exact H2|].
    vm_compute in H1. injection H1 as <-. vm_compute in H2. injection H2 as <-. vm_compute. reflexivity.
Defined.

(** A directory "d" removed from the namespace, with an edited file. *)
Definition ex_fs2 : FS :=
  list_to_map [(["r"], mkNode (ex_attr 0) BDir); (["r"; "d"], mkNode (ex_attr 0) BDir);
    (["r"; "d"; "f"], mkNode (ex_attr 200) (BFile [Byte.x09]));
    (["r"; StateFileName], state_file (<["d" := mkBase true 4096 0 [Byte.x01] []]> {["d/f" := mkBase false 3 100 [Byte.x01] [Byte.x02]]}))].
Definition ex_world2 : World unit := mkWorld (mkOS ex_fs2 0) tt ∅.
Definition ex_plan2 := @planned _ (fixed_prov []) toy_state_json ex_host (ex_rec Skip) 3 (ex_pass ["d"; "d/f"]) ex_world2.
Definition ex_bp2 : baseState * remoteSnapshot * Plan := ok_or (∅, ∅, mkPlan [] ∅) ex_plan2.2.
Definition ex_done2 := @Reconcile _ (fixed_prov []) toy_state_json ex_host (ex_rec Skip) 3 (ex_pass ["d"; "d/f"]) ex_world2.

Lemma skip_conflict_destroyed_witness : "d/f" ∈ pl_skipped ex_bp2.2 ∧ fs_of ex_done2.1 !! ["r"; "d"; "f"] = None.
Proof.
  destruct (@skip_conflict_destroyed _ (fixed_prov []) toy_state_json ex_host (ex_rec Skip) 3 (ex_pass ["d"; "d/f"]) ex_world2 ex_plan2.1 ex_done2.1 ex_done2.2
    ex_bp2.1.1 ex_bp2.1.2 ex_bp2.2 "d" "f" (mkBase true 4096 0 [Byte.x01] []) (mkBase false 3 100 [Byte.x01] [Byte.x02])
    (mkLS kindDir false 4096 0 (Z.lor fsModeDir 420)) (mkLS kindLeaf false 1 200 420)) as (H1 & _ & H2).
  - apply fixed_no_links. constructor.
  - apply links_free_check. vm_compute. reflexivity.
  - reflexivity.
  - reflexivity.
  - reflexivity.
  - normal_tac.
  - normal_tac.
  - normal_tac.
  - apply normal_check. reflexivity.
  - apply normal_check. reflexivity.
  - intros [|x [|y k]] [z E] Hne; [done| |discriminate E]. injection E as <- _. vm_compute. reflexivity.
  - intros [k E]. discriminate E.
  - discriminate.
  - vm_compute. reflexivity.
  - apply range_check. vm_compute. reflexivity.
  - apply tidy_check. vm_compute. reflexivity.
  - vm_compute. reflexivity.
  - reflexivity.
  - vm_compute. reflexivity.
  - reflexivity.
  - vm_compute. reflexivity.
  - vm_compute. reflexivity.
  - vm_compute. reflexivity.
  - vm_compute. reflexivity.
  - vm_compute. reflexivity.
  - apply surjective_pairing.
  - exact (conj H1 H2).
Defined.
