(* ===== verification/Defense.v ===== *)
(** * internal/net/defense.go: the connection blocklist

    The operator's blocklist and the runtime one: parsing a blocklist file, the
    connection gater, and [Blocklister], which bans a peer, appends it to the
    auto-blocklist file and closes its connection. The file is its bytes; every
    append has an outcome chosen by the environment (no directory, no file, a
    short write, a whole write). Peer identifiers are libp2p's: their text form
    is a parameter (class [PeerText]). The parts of package net and bufio the
    parser uses (IP and CIDR syntax, line scanning, trimming) are written out. *)

From Stdlib Require Import Ascii.
From S2P Require Import Prelude GoLib RateLimit.

Definition text (s : string) : bytes := String.list_byte_of_string s.
Definition chr (c : ascii) : byte := Ascii.byte_of_ascii c.

(** ** Package net: addresses *)

Module Inet.

Definition nib (c : byte) : option Z := Hex.nibble (Ascii.ascii_of_byte c).
Definition is_digit (c : byte) : bool := (48 <=? b2Z c) && (b2Z c <=? 57).
Definition digit_val (c : byte) : Z := b2Z c - 48.

(** Splitting at every occurrence of a byte: never empty. *)
Fixpoint split_on (sep : byte) (s : bytes) : list bytes :=
  match s with
  | [] => [[]]
  | x :: s =>
      if decide (x = sep) then [] :: split_on sep s
      else match split_on sep s with
           | [] => [[x]]
           | h :: t => (x :: h) :: t
           end
  end.

(** One decimal field of a dotted address. *)
Definition octet (s : bytes) : option byte :=
  match s with
  | [] => None
  | x :: r =>
      if negb (forallb is_digit s) then None
      else if is_digit x && (digit_val x =? 0) && negb (bool_decide (r = [])) then None
      else let v := foldl (λ a c, a * 10 + digit_val c) 0 s in
           if 255 <? v then None else Some (Z2b v)
  end.

Definition parseIPv4 (s : bytes) : option bytes :=
  let fs := split_on (chr ".") s in
  if decide (length fs = 4%nat) then mapM octet fs else None.

(** The leading hexadecimal digits of a group, and the rest. *)
Fixpoint hex_run (s : bytes) : list Z * bytes :=
  match s with
  | [] => ([], [])
  | c :: r =>
      match (if decide (65 ≤ b2Z c ≤ 70) then nib (Z2b (b2Z c + 32)) else nib c) with
      | None => ([], s)
      | Some d => let '(ds, rest) := hex_run r in (d :: ds, rest)
      end
  end.

(** What the group loop of the address parser has when it stops: the bytes read
    so far, where the ellipsis stands, and the unread text. *)
Fixpoint groups (fuel : nat) (ip : bytes) (ellipsis : option nat) (s : bytes)
    : option (bytes * option nat * bytes) :=
  match fuel with
  | O => Some (ip, ellipsis, s)
  | S fuel =>
      let '(ds, rest) := hex_run s in
      if decide (length ds = 0 ∨ 4 < length ds)%nat then None
      else
        let acc := foldl (λ a d, a * 16 + d) 0 ds in
        match rest with
        | c :: _ =>
            if decide (c = chr ".") then
              if bool_decide (ellipsis = None) && negb (bool_decide (length ip = 12%nat)) then None
              else if decide (16 < length ip + 4)%nat then None
              else (λ v4, (ip ++ v4, ellipsis, [])) <$> parseIPv4 s
            else
              let ip := ip ++ [Z2b (acc / 256); Z2b acc] in
              if negb (bool_decide (c = chr ":")) then None
              else
                match drop 1 rest with
                | [] => None
                | d :: r =>
                    if decide (d = chr ":") then
                      if bool_decide (is_Some ellipsis) then None
                      else match r with
                           | [] => Some (ip, Some (length ip), [])
                           | _ => groups fuel ip (Some (length ip)) r
                           end
                    else groups fuel ip ellipsis (d :: r)
                end
        | [] => Some (ip ++ [Z2b (acc / 256); Z2b acc], ellipsis, [])
        end
  end.

Definition parse6 (s : bytes) : option bytes :=
  let '(ell, s') :=
    match s with
    | a :: b :: r => if decide (a = chr ":" ∧ b = chr ":") then (Some 0%nat, r) else (None, s)
    | _ => (None, s)
    end in
  if bool_decide (is_Some ell) && bool_decide (s' = []) then Some (replicate 16 Byte.x00)
  else
    match groups 8 [] ell s' with
    | None => None
    | Some (ip, ell, rest) =>
        if negb (bool_decide (rest = [])) then None
        else if decide (length ip < 16)%nat then
          match ell with
          | None => None
          | Some e => Some (take e ip ++ replicate (16 - length ip) Byte.x00 ++ drop e ip)
          end
        else match ell with Some _ => None | None => Some ip end
    end.

(** An address, its bit length and whether it has a zone. *)
Record addr := mkAddr { as16 : bytes; bitLen : Z; zoned : bool }.

Definition parseIPv6 (s : bytes) : option addr :=
  match split_on (chr "%") s with
  | [] | [_] => (λ ip, mkAddr ip 128 false) <$> parse6 s
  | a :: zone =>
      if decide (zone = [[]]) then None else (λ ip, mkAddr ip 128 true) <$> parse6 a
  end.

Definition v4InV6Prefix : bytes := replicate 10 Byte.x00 ++ [Byte.xff; Byte.xff].

Fixpoint find_kind (s : bytes) : option byte :=
  match s with
  | [] => None
  | c :: s => if decide (c = chr "." ∨ c = chr ":" ∨ c = chr "%") then Some c else find_kind s
  end.

Definition ParseAddr (s : bytes) : option addr :=
  match find_kind s with
  | None => None
  | Some c =>
      if decide (c = chr ".") then (λ v4, mkAddr (v4InV6Prefix ++ v4) 32 false) <$> parseIPv4 s
      else if decide (c = chr ":") then parseIPv6 s
      else None
  end.

Definition ParseIP (s : bytes) : option bytes :=
  match ParseAddr s with
  | Some a => if zoned a then None else Some (as16 a)
  | None => None
  end.

Record IPNet := mkIPNet { net_IP : bytes; net_Mask : bytes }.

(** [IP.Mask] for the masks [ParseCIDR] builds. *)
Definition mask_ip (ip m : bytes) : bytes :=
  let ip := if decide (length m = 4%nat ∧ take 12 ip = v4InV6Prefix) then drop 12 ip else ip in
  if decide (length ip = length m) then zip_with and8 ip m else [].

(** The digits of a prefix length: at least one, no other character. *)
Definition dtoi (s : bytes) : option Z :=
  if bool_decide (s = []) || negb (forallb is_digit s) then None
  else let v := foldl (λ a c, a * 10 + digit_val c) 0 s in
       if 16777215 <=? v then None else Some v.

Definition ParseCIDR (s : bytes) : option IPNet :=
  match split_on (chr "/") s with
  | a :: m0 :: ms =>
      let m := drop (length a + 1) s in
      match ParseAddr a with
      | None => None
      | Some ip =>
          if zoned ip then None
          else match dtoi m with
               | None => None
               | Some n =>
                   if bitLen ip <? n then None
                   else let mask := CIDRMask (Z.to_nat (bitLen ip / 8)) n in
                        Some (mkIPNet (mask_ip (as16 ip) mask) mask)
               end
      end
  | _ => None
  end.

Definition networkNumberAndMask (n : IPNet) : option (bytes * bytes) :=
  let ip := match To4 (net_IP n) with Some v4 => v4 | None => net_IP n end in
  if negb (bool_decide (length ip = 4%nat)) && negb (bool_decide (length ip = 16%nat)) then None
  else if decide (length (net_Mask n) = 4%nat) then
    if decide (length ip = 4%nat) then Some (ip, net_Mask n) else None
  else if decide (length (net_Mask n) = 16%nat) then
    Some (ip, if decide (length ip = 4%nat) then drop 12 (net_Mask n) else net_Mask n)
  else None.

Definition Contains (n : IPNet) (ip : bytes) : bool :=
  let ip := match To4 ip with Some v4 => v4 | None => ip end in
  match networkNumberAndMask n with
  | None => bool_decide (ip = [])
  | Some (nn, m) =>
      bool_decide (length ip = length nn)
      && bool_decide (zip_with and8 nn m = zip_with and8 ip m)
  end.
End Inet.
Import Inet.

(** [hostRoute] *)
Definition hostRoute (ip : bytes) : IPNet :=
  match To4 ip with
  | Some v4 => mkIPNet v4 (CIDRMask 4 32)
  | None => mkIPNet ip (CIDRMask 16 128)
  end.

(** ** Text *)

Definition nl : byte := Byte.x0a.

(** The UTF-8 encodings of the code points [unicode.IsSpace] accepts. *)
Definition spaces : list bytes :=
  [[Byte.x09]; [Byte.x0a]; [Byte.x0b]; [Byte.x0c]; [Byte.x0d]; [Byte.x20];
   [Byte.xc2; Byte.x85]; [Byte.xc2; Byte.xa0]; [Byte.xe1; Byte.x9a; Byte.x80]]
  ++ ((λ c, [Byte.xe2; Byte.x80; Z2b c]) <$> [128; 129; 130; 131; 132; 133; 134; 135; 136; 137; 138; 168; 169; 175])
  ++ [[Byte.xe2; Byte.x81; Byte.x9f]; [Byte.xe3; Byte.x80; Byte.x80]].

Definition starts_with (p s : bytes) : bool := bool_decide (take (length p) s = p).

Fixpoint trim_left (sps : list bytes) (fuel : nat) (s : bytes) : bytes :=
  match fuel with
  | O => s
  | S fuel =>
      match list_find (λ p, Is_true (starts_with p s)) sps with
      | Some (_, p) => trim_left sps fuel (drop (length p) s)
      | None => s
      end
  end.

(** [strings.TrimSpace]; each round removes at least a byte. *)
Definition TrimSpace (s : bytes) : bytes :=
  let s := trim_left spaces (length s) s in
  reverse (trim_left (reverse <$> spaces) (length s) (reverse s)).

(** [stripComment] *)
Definition stripComment (s : bytes) : bytes :=
  match list_find (λ c, c = chr "#") s with
  | None => s
  | Some (i, _) =>
      if bool_decide (i = 0%nat)
         || bool_decide (s !! (i - 1)%nat = Some (chr " ")) || bool_decide (s !! (i - 1)%nat = Some Byte.x09)
      then take i s else s
  end.

(** [sanitizeComment] *)
Definition sanitizeComment (s : bytes) : bytes :=
  s ≫= (λ c, if decide (c = nl ∨ c = Byte.x0d) then [chr " "] else if decide (c = chr "#") then [] else [c]).

(** The tokens of a [bufio.Scanner]: the text between newlines, a last
    unterminated line if it is not empty. *)
Definition raw_lines (s : bytes) : list bytes :=
  let ls := split_on nl s in
  if bool_decide (list.last ls = Some []) then take (length ls - 1) ls else ls.

Definition dropCR (s : bytes) : bytes :=
  if bool_decide (list.last s = Some Byte.x0d) then take (length s - 1) s else s.

Definition MaxScanTokenSize : Z := 65536.

(** ** Peer identifiers *)

(** Base58 text: letters and digits. *)
Definition alnum (c : byte) : bool :=
  is_digit c || ((65 <=? b2Z c) && (b2Z c <=? 90)) || ((97 <=? b2Z c) && (b2Z c <=? 122)).

Class PeerText := {
  valid_peer : bytes → Prop;
  peer_String : bytes → bytes;
  peer_Decode : bytes → option bytes;
  peer_roundtrip : ∀ p, valid_peer p → peer_Decode (peer_String p) = Some p;
  peer_base58 : ∀ p, valid_peer p → peer_String p ≠ [] ∧ forallb alnum (peer_String p) = true;
  peer_short : ∀ p, valid_peer p → Z.of_nat (length (peer_String p)) ≤ 128;
}.

(** ** The gater *)

Record blocklistGater := mkGater { g_peers : gset bytes; g_subnets : list IPNet }.

Definition newBlocklistGater (peers : list bytes) (subnets : list IPNet) : blocklistGater :=
  mkGater (foldl (λ m p, m ∪ {[p]}) ∅ peers) subnets.

Definition addPeer (p : bytes) (g : blocklistGater) : blocklistGater * bool :=
  if decide (p ∈ g_peers g) then (g, false) else (mkGater (g_peers g ∪ {[p]}) (g_subnets g), true).

Definition blockedPeer (g : blocklistGater) (p : bytes) : bool := bool_decide (p ∈ g_peers g).

(** A multiaddress is what [manet.ToIP] makes of it: its IP, if it has one. *)
Definition blockedAddr (g : blocklistGater) (a : option bytes) : bool :=
  if bool_decide (g_subnets g = []) then false
  else match a with
       | None => false
       | Some ip => existsb (λ sub, Contains sub ip) (g_subnets g)
       end.

Definition InterceptPeerDial (g : blocklistGater) (p : bytes) : bool := negb (blockedPeer g p).
Definition InterceptAddrDial (g : blocklistGater) (p : bytes) (a : option bytes) : bool :=
  negb (blockedPeer g p || blockedAddr g a).
Definition InterceptAccept (g : blocklistGater) (a : option bytes) : bool := negb (blockedAddr g a).
Definition InterceptSecured (g : blocklistGater) (p : bytes) (a : option bytes) : bool :=
  if blockedPeer g p then false else negb (blockedAddr g a).
Definition InterceptUpgraded (g : blocklistGater) : bool := true.

Definition gater_counts (g : blocklistGater) : nat * nat := (size (g_peers g), length (g_subnets g)).

(** The stages libp2p takes a connection through, in order. *)
Inductive direction := Outbound | Inbound.
Definition stages (g : blocklistGater) (d : direction) (p : bytes) (a : option bytes) : list bool :=
  match d with
  | Outbound => [InterceptPeerDial g p; InterceptAddrDial g p a; InterceptSecured g p a; InterceptUpgraded g]
  | Inbound => [InterceptAccept g a; InterceptSecured g p a; InterceptUpgraded g]
  end.
Definition connects (g : blocklistGater) (d : direction) (p : bytes) (a : option bytes) : bool :=
  forallb id (stages g d p a).

(** ** Connection watermarks of [defenseOptions] *)

Definition defaultConnLow : Z := 64.
Definition defaultConnHigh : Z := 192.
Definition defaultConnGrace : Z := 30 * Second.

(** The connection manager's parameters, if it is installed. *)
Definition conn_manager (ConnLow ConnHigh ConnGrace : Z) : option (Z * Z * Z) :=
  let '(low, high) :=
    if (ConnLow =? 0) && (ConnHigh =? 0) then (defaultConnLow, defaultConnHigh) else (ConnLow, ConnHigh) in
  let grace := if ConnGrace =? 0 then defaultConnGrace else ConnGrace in
  if 0 <? high then Some (low, high, grace) else None.

(** ** Files *)

Inductive block_err :=
| EBadLine (line : Z) (token : bytes)
| ERead
| EOpen
| EStat.

Section blocklist.
Context `{Hpt : PeerText}.

(** One line of [ParseBlocklist]. *)
Definition parse_line (line : Z) (raw : bytes) (ps : list bytes) (ns : list IPNet)
    : result block_err (list bytes * list IPNet) :=
  let t := TrimSpace (stripComment (dropCR raw)) in
  if decide (t = []) then Ok (ps, ns)
  else match ParseCIDR t with
       | Some cidr => Ok (ps, ns ++ [cidr])
       | None =>
           match ParseIP t with
           | Some ip => Ok (ps, ns ++ [hostRoute ip])
           | None =>
               match peer_Decode t with
               | Some p => Ok (ps ++ [p], ns)
               | None => Err (EBadLine line t)
               end
           end
       end.

Fixpoint parse_lines (line : Z) (raws : list bytes) (ps : list bytes) (ns : list IPNet)
    : result block_err (list bytes * list IPNet) :=
  match raws with
  | [] => Ok (ps, ns)
  | raw :: raws =>
      if MaxScanTokenSize <=? Z.of_nat (length raw) then Err ERead
      else match parse_line line raw ps ns with
           | Err e => Err e
           | Ok (ps, ns) => parse_lines (line + 1) raws ps ns
           end
  end.

(** The reader yields [data] and then end of file or, with [rerr], an error. *)
Definition ParseBlocklist (data : bytes) (rerr : bool) : result block_err (list bytes * list IPNet) :=
  match parse_lines 1 (raw_lines data) [] [] with
  | Err e => Err e
  | Ok r => if rerr then Err ERead else Ok r
  end.

(** What opening and reading a file gives. *)
Inductive opened := ONotExist | OFails | OData (data : bytes) (rerr : bool).

Definition LoadBlocklistFile (f : opened) : result block_err (list bytes * list IPNet) :=
  match f with
  | ONotExist | OFails => Err EOpen
  | OData data rerr => ParseBlocklist data rerr
  end.

Record Blocklister := mkBL { bl_gater : blocklistGater; bl_autoPath : bool; bl_host : bool }.

(** The stat of the auto file comes first; [autoPath] tells whether it is set. *)
Inductive stat_res := SExists | SMissing | SFails.

Definition NewBlocklister (operatorPeers : list bytes) (operatorSubnets : list IPNet)
    (autoPath : bool) (st : stat_res) (f : opened) : result block_err Blocklister :=
  if negb autoPath then Ok (mkBL (newBlocklistGater operatorPeers operatorSubnets) false false)
  else match st with
       | SExists =>
           match LoadBlocklistFile f with
           | Err e => Err e
           | Ok (ap, ns) =>
               Ok (mkBL (newBlocklistGater (operatorPeers ++ ap) (operatorSubnets ++ ns)) true false)
           end
       | SMissing => Ok (mkBL (newBlocklistGater operatorPeers operatorSubnets) true false)
       | SFails => Err EStat
       end.

Definition SetHost (b : Blocklister) : Blocklister := mkBL (bl_gater b) (bl_autoPath b) true.
Definition Blocked (b : Blocklister) (p : bytes) : bool := blockedPeer (bl_gater b) p.

(** ** Banning a peer *)

(** How the calls of one [appendAuto] end. *)
Inductive append_io := AMkdirFails | AOpenFails | AShort (n : nat) | ADone.

Definition auto_line (p reason : bytes) : bytes :=
  peer_String p ++ text "  # auto: " ++ sanitizeComment reason ++ [nl].

Definition appendAuto (io : append_io) (p reason : bytes) (file : option bytes) : option bytes * bool :=
  match io with
  | AMkdirFails | AOpenFails => (file, false)
  | AShort n => (Some (default [] file ++ take n (auto_line p reason)), false)
  | ADone => (Some (default [] file ++ auto_line p reason), true)
  end.

(** A node's defence: its blocklister, the auto file, the peers it is connected
    to, and the outcomes of the calls to come (an append, a ClosePeer). *)
Record Defended := mkDef {
  df_bl : Blocklister; df_file : option bytes; df_live : gset bytes; df_env : list (append_io * bool) }.

Definition next_env (d : Defended) : append_io * bool := default (ADone, true) (head (df_env d)).

Definition Block (p reason : bytes) (d : Defended) : Defended :=
  let '(g, added) := addPeer p (bl_gater (df_bl d)) in
  if negb added then d
  else
    let b := mkBL g (bl_autoPath (df_bl d)) (bl_host (df_bl d)) in
    let '(io, closed) := next_env d in
    let file := if bl_autoPath b then (appendAuto io p reason (df_file d)).1 else df_file d in
    let live := if bl_host b && closed then df_live d ∖ {[p]} else df_live d in
    mkDef b file live (tail (df_env d)).

(** A restart: what [NewBlocklister] makes of the file left behind. *)
Definition restart (peers : list bytes) (subnets : list IPNet) (file : option bytes) : result block_err Blocklister :=
  match file with
  | None => NewBlocklister peers subnets true SMissing ONotExist
  | Some data => NewBlocklister peers subnets true SExists (OData data false)
  end.
End blocklist.

(** ** Lemmas *)

Lemma connects_spec g d p a : connects g d p a = negb (blockedPeer g p || blockedAddr g a).
Proof.
  unfold connects, stages, InterceptPeerDial, InterceptAddrDial, InterceptAccept, InterceptSecured.
  destruct d; cbn; by destruct (blockedPeer g p), (blockedAddr g a).
Qed.

Lemma elem_of_gater ps ns p : p ∈ g_peers (newBlocklistGater ps ns) ↔ p ∈ ps.
Proof.
  cbn. assert (∀ m : gset bytes, p ∈ foldl (λ m p, m ∪ {[p]}) m ps ↔ p ∈ m ∨ p ∈ ps) as ->; [|set_solver].
  induction ps as [|q ps IH]; intros m; cbn; [set_solver|]. rewrite IH. set_solver.
Qed.

Lemma split_on_ne c a : split_on c a ≠ [].
Proof. destruct a as [|x a]; cbn; [done|]. case_decide; [done|]. by destruct (split_on c a). Qed.

Lemma split_on_sep c a b : split_on c (a ++ c :: b) = split_on c a ++ split_on c b.
Proof.
  induction a as [|x a IH]; cbn; [by rewrite decide_True|].
  case_decide; [by rewrite IH|]. rewrite IH.
  pose proof (split_on_ne c a). by destruct (split_on c a).
Qed.

Lemma split_on_none c a : c ∉ a → split_on c a = [a].
Proof.
  induction a as [|x a IH]; [done|]. intros [Hx Ha]%not_elem_of_cons. cbn.
  rewrite decide_False by done. by rewrite IH.
Qed.

(** A text whose last line is complete. *)
Definition terminated (s : bytes) : Prop := s = [] ∨ ∃ s', s = s' ++ [nl].

Lemma raw_lines_terminated s : terminated s → split_on nl s = raw_lines s ++ [[]].
Proof.
  intros [->|[s' ->]]; [done|]. unfold raw_lines. rewrite split_on_sep. cbn.
  rewrite bool_decide_true by apply last_snoc.
  by rewrite length_app, Nat.add_sub, take_app_eq.
Qed.

Lemma raw_lines_append s l : terminated s → nl ∉ l → raw_lines (s ++ l ++ [nl]) = raw_lines s ++ [l].
Proof.
  intros Hs Hl.
  assert (split_on nl (s ++ l ++ [nl]) = raw_lines s ++ [l] ++ [[]]) as E.
  { destruct Hs as [->|[s' ->]].
    - cbn. rewrite split_on_sep. by rewrite split_on_none.
    - rewrite <-app_assoc. cbn. rewrite split_on_sep, split_on_sep, (split_on_none nl l) by done.
      pose proof (raw_lines_terminated (s' ++ [nl])) as E. rewrite split_on_sep in E. cbn in E.
      apply (app_inj_tail _ _ [] []) in E as [-> _]; [done|]. right. by eexists. }
  unfold raw_lines at 1. rewrite E, app_assoc, bool_decide_true by apply last_snoc.
  by rewrite length_app, Nat.add_sub, take_app_eq.
Qed.

Lemma find_hash a b : chr "#" ∉ a → list_find (λ c, c = chr "#") (a ++ chr "#" :: b) = Some (length a, chr "#").
Proof.
  intros Ha. apply list_find_Some. split; [by apply list_lookup_middle|]. split; [done|].
  intros j y Hy Hj ->. rewrite lookup_app_l in Hy by done. apply Ha. by eapply list_elem_of_lookup_2.
Qed.

Lemma stripComment_trailing a b c : chr "#" ∉ a → c = chr " " → stripComment (a ++ c :: chr "#" :: b) = a ++ [c].
Proof.
  intros Ha ->. unfold stripComment.
  replace (a ++ chr " " :: chr "#" :: b) with ((a ++ [chr " "]) ++ chr "#" :: b) by by rewrite <-app_assoc.
  rewrite find_hash; [|rewrite not_elem_of_app, list_elem_of_singleton; by split].
  rewrite length_app. cbn [length]. rewrite (bool_decide_true (_ !! _ = Some (chr " "))).
  { rewrite orb_true_r. cbn [orb]. apply take_app_eq. by rewrite length_app. }
  rewrite <-app_assoc, lookup_app_r by lia. by replace (length a + 1 - 1 - length a)%nat with 0%nat by lia.
Qed.

(** Trimming stops at a visible ASCII character: no space encoding starts with one. *)
Definition ink (c : byte) : bool := (33 <=? b2Z c) && (b2Z c <=? 126).
Definition no_ink (sps : list bytes) : bool :=
  forallb (λ p, match p with [] => false | h :: _ => negb (ink h) end) sps.

Lemma trim_left_stop sps n x s : no_ink sps → ink x = true → trim_left sps n (x :: s) = x :: s.
Proof.
  intros Hs Hx. destruct n as [|n]; [done|]. cbn.
  destruct (list_find _ sps) as [[i p]|] eqn:E; [|done]. exfalso.
  apply list_find_Some in E as (Hp & Hm & _). apply Is_true_true in Hs.
  unfold no_ink in Hs. rewrite forallb_forall in Hs.
  pose proof (Hs p (proj1 (list_elem_of_In _ _) (list_elem_of_lookup_2 _ _ _ Hp))) as Hh.
  destruct p as [|h p]; [done|]. unfold starts_with in Hm. apply bool_decide_unpack in Hm.
  cbn in Hm. injection Hm as -> _. by rewrite Hx in Hh.
Qed.

Definition blank (c : byte) : Prop := c = chr " " ∨ c = nl.

Lemma trim_left_blank sps c n s : sps = spaces ∨ sps = reverse <$> spaces → blank c → trim_left sps (S n) (c :: s) = trim_left sps n s.
Proof. by intros [-> | ->] [-> | ->]. Qed.

Lemma trim_left_blanks sps cs n s : sps = spaces ∨ sps = reverse <$> spaces → Forall blank cs →
  trim_left sps (length cs + n) (cs ++ s) = trim_left sps n s.
Proof. intros Hs. induction 1 as [|c cs Hc _ IH]; [done|]. cbn [length app]. by rewrite Nat.add_succ_l, trim_left_blank. Qed.

Lemma TrimSpace_tail s tail : s ≠ [] → forallb ink s = true → Forall blank tail → TrimSpace (s ++ tail) = s.
Proof.
  intros Hne Hs Ht. unfold TrimSpace. destruct s as [|x r]; [done|].
  rewrite <-app_comm_cons, trim_left_stop; [|done|by apply andb_prop in Hs as [? _]].
  set (s := x :: r) in *. rewrite app_comm_cons. change (x :: r) with s. rewrite reverse_app, length_app.
  rewrite Nat.add_comm, <-(length_reverse tail), trim_left_blanks; [|by auto|by apply Forall_reverse].
  destruct (reverse s) as [|y t] eqn:E; [apply (f_equal length) in E; by rewrite length_reverse in E|].
  rewrite trim_left_stop; [rewrite <-E; apply reverse_involutive|done|].
  rewrite forallb_forall in Hs. apply Hs. rewrite <-list_elem_of_In, <-elem_of_reverse, E. apply list_elem_of_here.
Qed.

Lemma alnum_ink c : alnum c = true → ink c = true.
Proof. unfold alnum, is_digit, ink. intros H. apply andb_true_iff. rewrite !Z.leb_le. rewrite !orb_true_iff, !andb_true_iff, !Z.leb_le in H. lia. Qed.

Lemma TrimSpace_padded s : s ≠ [] → forallb alnum s = true → TrimSpace (s ++ [chr " "; chr " "]) = s.
Proof.
  intros Hne Hs. apply TrimSpace_tail; [done| |by repeat constructor]. rewrite forallb_forall in Hs |- *. intros c Hc. by apply alnum_ink, Hs.
Qed.

Lemma alnum_not s c : forallb alnum s = true → alnum c = false → c ∉ s.
Proof. intros Hs Hc Hin. rewrite forallb_forall in Hs. rewrite list_elem_of_In in Hin. apply Hs in Hin. congruence. Qed.

Lemma find_kind_alnum s : forallb alnum s = true → find_kind s = None.
Proof.
  induction s as [|x s IH]; [done|]. cbn. intros [Hx Hs]%andb_prop.
  rewrite decide_False; [auto|]. by intros [-> | [-> | ->] ].
Qed.

Lemma sanitize_clean s c : c = nl ∨ c = Byte.x0d → c ∉ sanitizeComment s.
Proof.
  intros Hc Hin. apply list_elem_of_bind in Hin as (x & Hin & Hx).
  repeat case_decide; set_unfold; destruct Hc, Hin; simplify_eq; naive_solver.
Qed.

Lemma sanitize_shorter s : (length (sanitizeComment s) ≤ length s)%nat.
Proof.
  induction s as [|x s IH]; [done|]. change (sanitizeComment (x :: s)) with
    ((if decide (x = nl ∨ x = Byte.x0d) then [chr " "] else if decide (x = chr "#") then [] else [x]) ++ sanitizeComment s).
  rewrite length_app. repeat case_decide; cbn; lia.
Qed.

Section facts.
Context `{Hpt : PeerText}.

(** The text of the line [Block] appends for a name [s], before its newline. *)
Definition auto_body (s reason : bytes) : bytes := s ++ text "  # auto: " ++ sanitizeComment reason.

Definition name_ok (s : bytes) : Prop := s ≠ [] ∧ forallb alnum s = true.

Lemma auto_line_body p reason : auto_line p reason = auto_body (peer_String p) reason ++ [nl].
Proof. unfold auto_line, auto_body. by rewrite <-!app_assoc. Qed.

Lemma auto_body_clean s reason c : name_ok s → c = nl ∨ c = Byte.x0d → c ∉ auto_body s reason.
Proof.
  intros [_ Hal] Hc. unfold auto_body. rewrite !not_elem_of_app.
  split_and!; [eapply alnum_not; [done|by destruct Hc; subst]| |by apply sanitize_clean].
  destruct Hc as [-> | ->]; refine (bool_decide_eq_true_1 _ _); by vm_compute.
Qed.

Lemma dropCR_clean s : Byte.x0d ∉ s → dropCR s = s.
Proof.
  intros Hs. unfold dropCR. rewrite bool_decide_false; [done|].
  intros [s' E]%last_Some. apply Hs. rewrite E. set_solver.
Qed.

Lemma auto_body_token s reason : name_ok s → TrimSpace (stripComment (dropCR (auto_body s reason))) = s.
Proof.
  intros Hs. rewrite dropCR_clean by (apply auto_body_clean; auto). destruct Hs as [Hne Hal]. unfold auto_body.
  change (text "  # auto: ") with ([chr " "] ++ chr " " :: chr "#" :: text " auto: ").
  rewrite <-app_assoc, app_assoc, <-app_comm_cons, <-app_comm_cons.
  rewrite stripComment_trailing, <-app_assoc; [by apply TrimSpace_padded| |done].
  rewrite not_elem_of_app. split; [by eapply alnum_not|]. by rewrite list_elem_of_singleton.
Qed.

Lemma parse_line_auto k s reason ps ns : name_ok s →
  parse_line k (auto_body s reason) ps ns =
    match peer_Decode s with Some p => Ok (ps ++ [p], ns) | None => Err (EBadLine k s) end.
Proof.
  intros Hs. unfold parse_line. rewrite auto_body_token by done. destruct Hs as [Hne Hal].
  rewrite decide_False by done.
  unfold ParseCIDR, ParseIP, ParseAddr. rewrite split_on_none by by eapply alnum_not.
  by rewrite find_kind_alnum.
Qed.

Lemma auto_body_short s reason : Z.of_nat (length s) ≤ 256 → Z.of_nat (length reason) ≤ 1024 →
  Z.of_nat (length (auto_body s reason)) < MaxScanTokenSize.
Proof.
  intros Hp Hr. pose proof (sanitize_shorter reason). unfold auto_body, MaxScanTokenSize. rewrite !length_app.
  change (length (text "  # auto: ")) with 10%nat. lia.
Qed.

Lemma parse_lines_snoc raws : ∀ k ps ns l r, parse_lines k raws ps ns = Ok r →
  Z.of_nat (length l) < MaxScanTokenSize →
  parse_lines k (raws ++ [l]) ps ns = parse_line (k + Z.of_nat (length raws)) l r.1 r.2.
Proof.
  induction raws as [|x raws IH]; intros k ps ns l r; cbn [parse_lines app].
  - intros [= <-] Hl. rewrite (proj2 (Z.leb_gt _ _)) by lia. cbn [fst snd length]. change (Z.of_nat 0) with 0. rewrite Z.add_0_r.
    by destruct (parse_line _ _ _ _) as [[??]|].
  - destruct (MaxScanTokenSize <=? _); [done|]. destruct (parse_line _ _ _ _) as [[ps' ns']|] eqn:E; [|done].
    intros Hr Hl. rewrite (IH _ _ _ _ _ Hr Hl). f_equal. cbn [length]. lia.
Qed.

Lemma parse_append s p reason ps ns : terminated s → valid_peer p → Z.of_nat (length reason) ≤ 1024 →
  ParseBlocklist s false = Ok (ps, ns) → ParseBlocklist (s ++ auto_line p reason) false = Ok (ps ++ [p], ns).
Proof.
  intros Hs Hp Hr. pose proof (peer_base58 p Hp) as Hn. pose proof (peer_short p Hp).
  unfold ParseBlocklist. rewrite auto_line_body, raw_lines_append; [|done|apply auto_body_clean; auto].
  destruct (parse_lines 1 (raw_lines s) [] []) as [[ps' ns']|] eqn:E; [intros [= -> ->]|done].
  rewrite (parse_lines_snoc _ _ _ _ _ _ E) by (apply auto_body_short; lia).
  cbn. by rewrite parse_line_auto, peer_roundtrip.
Qed.

Lemma terminated_auto s p reason : terminated (s ++ auto_line p reason).
Proof. right. exists (s ++ auto_body (peer_String p) reason). by rewrite auto_line_body, app_assoc. Qed.

(** The file of a running node and its gater say the same: a restart with the
    same operator lists rebuilds the gater's peers and subnets. *)
Record persisted (ops : list bytes) (subs : list IPNet) (d : Defended) : Prop := {
  pe_auto : bl_autoPath (df_bl d) = true;
  pe_ended : terminated (default [] (df_file d));
  pe_parsed : ∃ ps ns, ParseBlocklist (default [] (df_file d)) false = Ok (ps, ns) ∧
    (∀ p, p ∈ g_peers (bl_gater (df_bl d)) ↔ p ∈ ops ++ ps) ∧ g_subnets (bl_gater (df_bl d)) = subs ++ ns;
}.

Lemma persisted_start ops subs (d : Defended) b :
  terminated (default [] (df_file d)) → restart ops subs (df_file d) = Ok b →
  bl_gater (df_bl d) = bl_gater b → bl_autoPath (df_bl d) = true → persisted ops subs d.
Proof.
  intros Ht Hb Hg Ha. split; [done..|]. rewrite Hg. unfold restart, NewBlocklister in Hb. cbn [negb] in Hb.
  destruct (df_file d) as [s|]; cbn in *.
  - destruct (ParseBlocklist s false) as [[ps ns]|]; [|done]. injection Hb as <-. exists ps, ns.
    split_and!; [done| |done]. intros p. apply elem_of_gater.
  - injection Hb as <-. exists [], []. rewrite app_nil_r. split_and!; [done| |by rewrite app_nil_r].
    intros p. apply elem_of_gater.
Qed.

Lemma persisted_block ops subs d p reason : persisted ops subs d → valid_peer p → Z.of_nat (length reason) ≤ 1024 →
  (next_env d).1 = ADone → persisted ops subs (Block p reason d).
Proof.
  intros Hd Hp Hr He. pose proof Hd as [Ha Ht (ps & ns & Hps & Hin & Hns)]. unfold Block, addPeer.
  case_decide as Hold; [done|]. cbn [negb]. destruct (next_env d) as [io closed]. cbn in He. subst io.
  split; cbn [df_bl df_file bl_autoPath bl_gater g_peers g_subnets]; rewrite ?Ha; cbn [appendAuto fst default]; [done| |].
  - apply terminated_auto.
  - exists (ps ++ [p]), ns. split_and!; [by apply parse_append| |done].
    intros q. rewrite elem_of_union, Hin. set_solver.
Qed.

Definition bans (l : list (bytes * bytes)) (d : Defended) : Defended := foldl (λ d '(p, r), Block p r d) d l.

Lemma Block_env p reason d : Forall (λ e, e.1 = ADone) (df_env d) → Forall (λ e, e.1 = ADone) (df_env (Block p reason d)).
Proof.
  intros H. unfold Block. destruct (addPeer _ _) as [g []]; [|done]. cbn [negb]. destruct (next_env d).
  cbn. destruct (df_env d); [done|]. by inv H.
Qed.

Lemma Block_blocks p reason d q : Blocked (df_bl (Block p reason d)) q = bool_decide (q = p) || Blocked (df_bl d) q.
Proof.
  unfold Block, addPeer, Blocked, blockedPeer. case_decide as Hp.
  - cbn. repeat case_bool_decide; set_solver.
  - cbn [negb]. destruct (next_env d). cbn. repeat case_bool_decide; set_solver.
Qed.

Lemma bans_persisted ops subs l : ∀ d, persisted ops subs d → Forall (λ e, e.1 = ADone) (df_env d) →
  Forall (λ '(p, r), valid_peer p ∧ Z.of_nat (length r) ≤ 1024) l →
  persisted ops subs (bans l d) ∧ ∀ q, Blocked (df_bl (bans l d)) q = bool_decide (q ∈ l.*1) || Blocked (df_bl d) q.
Proof.
  induction l as [|[p r] l IH]; intros d Hd He Hl.
  { split; [done|]. intros q. by rewrite bool_decide_false by apply not_elem_of_nil. }
  apply Forall_cons in Hl as [[Hp Hr] Hl]. destruct (IH (Block p r d)) as [IH1 IH2]; [|by apply Block_env|done|].
  { apply persisted_block; [done..|]. unfold next_env. destruct (df_env d) as [|e es]; [done|]. by apply Forall_cons in He as [He _]. }
  split; [done|]. intros q. cbn [bans foldl]. change (foldl _ (Block p r d) l) with (bans l (Block p r d)).
  rewrite IH2, Block_blocks. cbn. repeat case_bool_decide; set_solver.
Qed.
End facts.

(** A ban is kept across restarts. Start a node whose auto-blocklist is
    missing or parses; ban any peers, for any (short) reasons, with every append
    written whole. Then the file parses again, and a node restarted on it with
    the same operator lists blocks exactly the peers the running node blocks:
    those it blocked at the start and those banned since. Every one of them is
    refused in both directions, whatever its address. *)
Theorem ban_survives_restart `{PeerText} (ops : list bytes) (subs : list IPNet) (d : Defended) (b : Blocklister)
    (l : list (bytes * bytes)) :
  restart ops subs (df_file d) = Ok b →
  terminated (default [] (df_file d)) →
  bl_gater (df_bl d) = bl_gater b → bl_autoPath (df_bl d) = true →
  Forall (λ e, e.1 = ADone) (df_env d) →
  Forall (λ '(p, r), valid_peer p ∧ Z.of_nat (length r) ≤ 1024) l →
  ∃ b', restart ops subs (df_file (bans l d)) = Ok b' ∧
    (∀ q, Blocked b' q = Blocked (df_bl (bans l d)) q) ∧
    (∀ q, Blocked (df_bl (bans l d)) q = bool_decide (q ∈ l.*1) || Blocked b q) ∧
    (∀ q dir a, q ∈ l.*1 → connects (bl_gater b') dir q a = false).
Proof.
  intros Hb Ht Hg Ha He Hl.
  destruct (bans_persisted ops subs l d) as [[Ha' _ (ps & ns & Hps & Hin & _)] Hbl];
    [by eapply persisted_start|done..|].
  assert (∃ b', restart ops subs (df_file (bans l d)) = Ok b' ∧
    ∀ q, Blocked b' q = Blocked (df_bl (bans l d)) q) as (b' & Hb' & Hq).
  { unfold restart, NewBlocklister, Blocked, blockedPeer. cbn [negb]. destruct (df_file (bans l d)) as [s|]; cbn in *.
    - rewrite Hps. eexists. split; [done|]. intros q. apply bool_decide_ext. rewrite Hin. apply elem_of_gater.
    - injection Hps as <- <-. eexists. split; [done|]. intros q. apply bool_decide_ext. rewrite Hin, app_nil_r. apply elem_of_gater. }
  exists b'. split_and!; [done..| |].
  - intros q. rewrite Hbl. unfold Blocked. by rewrite Hg.
  - intros q dir a Hql. rewrite connects_spec. change (blockedPeer (bl_gater b') q) with (Blocked b' q).
    by rewrite Hq, Hbl, bool_decide_true.
Qed.

(** A short append disarms the next start. If the write of a ban's line
    stops inside the peer's name and another peer is banned later, the two names
    run together in the file; unless that text happens to be a peer identifier,
    the next start fails: no gater, no node. *)
Theorem torn_append_stops_restart `{PeerText} (ops : list bytes) (subs : list IPNet) (p q r1 r2 : bytes) (n : nat)
    (bl : Blocklister) (live : gset bytes) (c1 c2 : bool) :
  valid_peer p → valid_peer q → Z.of_nat (length r2) ≤ 1024 →
  p ≠ q → Blocked bl p = false → Blocked bl q = false → bl_autoPath bl = true →
  (n ≤ length (peer_String p))%nat → peer_Decode (take n (peer_String p) ++ peer_String q) = None →
  restart ops subs (df_file (bans [(p, r1); (q, r2)] (mkDef bl None live [(AShort n, c1); (ADone, c2)]))) =
    Err (EBadLine 1 (take n (peer_String p) ++ peer_String q)).
Proof.
  intros Hp Hq Hr Hpq Bp Bq Ha Hn Hdec.
  unfold Blocked, blockedPeer in Bp, Bq. apply bool_decide_eq_false in Bp, Bq.
  set (tok := take n (peer_String p) ++ peer_String q) in *.
  assert (df_file (bans [(p, r1); (q, r2)] (mkDef bl None live [(AShort n, c1); (ADone, c2)])) =
    Some (take n (peer_String p) ++ auto_line q r2)) as ->.
  { cbn [bans foldl]. unfold Block, addPeer. cbn.
    rewrite !(decide_False (P := p ∈ g_peers (bl_gater bl))) by done. cbn.
    rewrite decide_False by set_solver. cbn. rewrite Ha. cbn. unfold auto_line. by rewrite take_app_le. }
  unfold restart, NewBlocklister. cbn [negb LoadBlocklistFile].
  destruct (peer_base58 p Hp) as [_ Hap], (peer_base58 q Hq) as [Hqn Haq].
  pose proof (peer_short p Hp). pose proof (peer_short q Hq).
  assert (name_ok tok) as Htok.
  { split; [by intros [_ ?]%app_nil|]. unfold tok. rewrite forallb_app, Haq, andb_true_r.
    rewrite <-(take_drop n (peer_String p)), forallb_app in Hap. by apply andb_prop in Hap as [? _]. }
  replace (take n (peer_String p) ++ auto_line q r2) with ([] ++ auto_body tok r2 ++ [nl])
    by (unfold tok, auto_line, auto_body; by rewrite <-!app_assoc).
  unfold ParseBlocklist. rewrite raw_lines_append; [|by left|apply auto_body_clean; auto].
  rewrite (parse_lines_snoc (raw_lines []) 1 [] [] _ ([], [])), parse_line_auto, Hdec; [done..|].
  apply auto_body_short; [|done]. unfold tok. rewrite length_app, length_take. lia.
Qed.

(** ** Witnesses *)

Section examples.
(** Peer names in hexadecimal: one form of text with the laws. *)
Definition hex_peer : PeerText.
Proof.
  refine {| valid_peer p := p ≠ [] ∧ Z.of_nat (length p) ≤ 64;
            peer_String p := text (Hex.EncodeToString p);
            peer_Decode s := Hex.DecodeString (bytes_key s) |}.
  - intros p _. unfold text, bytes_key. by rewrite String.string_of_list_byte_of_string, Hex.Decode_Encode.
  - intros p [Hp _]. split; [by destruct p|]. induction p as [|x [|y p] IH]; [done| |].
    + by destruct x.
    + cbn -[Hex.EncodeToString alnum] in *. change (text (Hex.EncodeToString (x :: y :: p))) with
        (text (Hex.EncodeToString [x]) ++ text (Hex.EncodeToString (y :: p))).
      rewrite forallb_app, IH by done. by destruct x.
  - intros p [_ Hp]. assert (length (text (Hex.EncodeToString p)) = 2 * length p)%nat as ->; [|lia].
    clear. induction p as [|x p IH]; [done|]. cbn -[Hex.EncodeToString].
    change (text (Hex.EncodeToString (x :: p))) with (text (Hex.EncodeToString [x]) ++ text (Hex.EncodeToString p)).
    rewrite length_app, IH. cbn. lia.
Defined.
#[local] Existing Instance hex_peer.

Definition ex_file : bytes := text "# operators" ++ [nl] ++ text "10.0.0.0/8" ++ [nl] ++ text "::1 # loopback" ++ [nl] ++ text "ab01" ++ [nl].

Lemma ex_file_parsed :
  ParseBlocklist ex_file false =
    Ok ([[Byte.xab; Byte.x01]],
        [mkIPNet [Byte.x0a; Byte.x00; Byte.x00; Byte.x00] [Byte.xff; Byte.x00; Byte.x00; Byte.x00];
         mkIPNet (replicate 15 Byte.x00 ++ [Byte.x01]) (replicate 16 Byte.xff)]).
Proof. by vm_compute. Qed.

Definition ex_gater : blocklistGater :=
  newBlocklistGater ([] ++ [[Byte.xab; Byte.x01]])
    ([] ++ [mkIPNet [Byte.x0a; Byte.x00; Byte.x00; Byte.x00] [Byte.xff; Byte.x00; Byte.x00; Byte.x00];
            mkIPNet (replicate 15 Byte.x00 ++ [Byte.x01]) (replicate 16 Byte.xff)]).
Definition ex_def : Defended := mkDef (mkBL ex_gater true true) (Some ex_file) ∅ [].
Definition ex_bans : list (bytes * bytes) := [([Byte.x42], text "rebalance off-schedule (too fast)")].

Lemma ban_survives_restart_witness :
  ∃ b', restart [] [] (df_file (bans ex_bans ex_def)) = Ok b' ∧
    connects (bl_gater b') Inbound [Byte.x42] (Some [Byte.x01; Byte.x02; Byte.x03; Byte.x04]) = false.
Proof.
  destruct (ban_survives_restart [] [] ex_def (mkBL ex_gater true false) ex_bans) as (b' & Hb & _ & _ & Hc).
  - unfold restart, NewBlocklister, LoadBlocklistFile. cbn [df_file ex_def negb]. by rewrite ex_file_parsed.
  - right. exists (take (length ex_file - 1) ex_file). by vm_compute.
  - done.
  - done.
  - done.
  - apply Forall_singleton. by vm_compute.
  - exists b'. split; [exact Hb|]. apply Hc. apply list_elem_of_here.
Defined.

Lemma torn_append_stops_restart_witness :
  restart [] [] (df_file (bans [([Byte.x42], []); ([Byte.x43], [])]
    (mkDef (mkBL (newBlocklistGater [] []) true false) None ∅ [(AShort 1, true); (ADone, true)])))
  = Err (EBadLine 1 (text "443")).
Proof.
  replace (text "443") with (take 1 (peer_String [Byte.x42]) ++ peer_String [Byte.x43]) by by vm_compute.
  apply (torn_append_stops_restart [] [] [Byte.x42] [Byte.x43] [] [] 1 (mkBL (newBlocklistGater [] []) true false) ∅ true true);
    try done; vm_compute; lia.
Defined.
End examples.
