(* ===== verification/Abuse.v ===== *)
(** * internal/net/abuse.go: maintenance-abuse detection

    Two triggers per peer: rebalance sweeps that come faster than the cluster's
    schedule, and failed possession proofs. The monitor bans through the
    interface [PeerBlocker]; [Defense.Block] is the implementation, a recorder
    of calls the one the statements about decisions use. Times are nanoseconds,
    durations int64. *)

From S2P Require Import Prelude GoLib RateLimit Defense.

Definition Hour : Z := 60 * Minute.
Definition defaultAbuseTolerance : Z := 10 * Minute.
Definition defaultAbuseCoalesceCap : Z := 5 * Minute.
Definition defaultAbuseStrikes : Z := 3.
Definition defaultAbuseDecay : Z := 24 * Hour.
Definition defaultAbuseCoalesceFrac : Z := 4.

(** The interface [peerBlocker]. *)
Class PeerBlocker (B : Type) := { ban : bytes → bytes → B → B }.

#[export] Instance defended_blocker `{PeerText} : PeerBlocker Defended := {| ban := Block |}.
#[export] Instance recorder : PeerBlocker (list (bytes * bytes)) := {| ban p r l := l ++ [(p, r)] |}.

Record AbuseConfig := mkAbuseCfg {
  RebalanceInterval : Z; Tolerance : Z; Coalesce : Z; Strikes : Z; Decay : Z }.

(** [AbuseConfig.withDefaults] *)
Definition abuse_defaults (c : AbuseConfig) : AbuseConfig :=
  mkAbuseCfg (RebalanceInterval c)
    (if Tolerance c =? 0 then defaultAbuseTolerance else Tolerance c)
    (if Coalesce c =? 0 then
       if 0 <? RebalanceInterval c then
         let q := RebalanceInterval c ÷ defaultAbuseCoalesceFrac in
         if q <? defaultAbuseCoalesceCap then q else defaultAbuseCoalesceCap
       else defaultAbuseCoalesceCap
     else Coalesce c)
    (if Strikes c =? 0 then defaultAbuseStrikes else Strikes c)
    (if Decay c =? 0 then defaultAbuseDecay else Decay c).

Record peerAbuse := mkPA { lastMove : Z; lastEvent : Z; haveEvent : bool; strikes : list Z }.

(** The zero value of the struct. *)
Definition zeroAbuse : peerAbuse := mkPA zeroTime zeroTime false [].

Record AbuseMonitor := mkAM { am_cfg : AbuseConfig; am_peers : gmap bytes peerAbuse }.

Definition NewAbuseMonitor (cfg : AbuseConfig) : AbuseMonitor := mkAM (abuse_defaults cfg) ∅.

Definition reason_fast : bytes := text "rebalance off-schedule (too fast)".
Definition reason_lies : bytes := text "repeated possession lies".

(** What one move does to a peer's entry, and whether it is a violation. *)
Definition note_move (c : AbuseConfig) (now : Z) (o : option peerAbuse) : peerAbuse * bool :=
  match o with
  | None => (mkPA now now true [], false)
  | Some st =>
      if Sub now (lastMove st) <? Coalesce c
      then (mkPA now (lastEvent st) (haveEvent st) (strikes st), false)
      else
        let gap := Sub now (lastEvent st) in
        (mkPA now now true (strikes st),
         haveEvent st && (gap <? i64 (RebalanceInterval c - Tolerance c)))
  end.

Definition note_lie (c : AbuseConfig) (now : Z) (o : option peerAbuse) : peerAbuse * bool :=
  let st := default zeroAbuse o in
  let cutoff := now + i64 (- Decay c) in
  let kept := List.filter (λ t, cutoff <? t) (strikes st) ++ [now] in
  let over := Strikes c <=? Z.of_nat (length kept) in
  (mkPA (lastMove st) (lastEvent st) (haveEvent st) (if over then [] else kept), over).

#[global] Arguments note_move : simpl never.
#[global] Arguments note_lie : simpl never.

Section ops.
Context {B : Type} `{!PeerBlocker B}.

Definition RecordRebalanceMove (p : bytes) (now : Z) (m : AbuseMonitor) (b : B) : AbuseMonitor * B :=
  if RebalanceInterval (am_cfg m) <=? 0 then (m, b)
  else
    let '(st, tooFast) := note_move (am_cfg m) now (am_peers m !! p) in
    (mkAM (am_cfg m) (<[p := st]> (am_peers m)), if tooFast then ban p reason_fast b else b).

Definition RecordPossessionLie (p : bytes) (now : Z) (m : AbuseMonitor) (b : B) : AbuseMonitor * B :=
  let '(st, over) := note_lie (am_cfg m) now (am_peers m !! p) in
  (mkAM (am_cfg m) (<[p := st]> (am_peers m)), if over then ban p reason_lies b else b).

(** Any interleaving of the calls the server and the rebalancer make. *)
Inductive abuse_event := Moved (p : bytes) (now : Z) | Lied (p : bytes) (now : Z).

Definition abuse_step (s : AbuseMonitor * B) (e : abuse_event) : AbuseMonitor * B :=
  match e with
  | Moved p now => RecordRebalanceMove p now s.1 s.2
  | Lied p now => RecordPossessionLie p now s.1 s.2
  end.

Definition watch (es : list abuse_event) (s : AbuseMonitor * B) : AbuseMonitor * B := foldl abuse_step s es.
End ops.

(** ** One peer at a time *)

Definition about (p : bytes) (e : abuse_event) : bool :=
  match e with Moved q _ | Lied q _ => bool_decide (q = p) end.

(** What an event does to the entry of the peer it names. *)
Definition peer_step (c : AbuseConfig) (o : option peerAbuse) (e : abuse_event) : option peerAbuse * list bytes :=
  match e with
  | Moved _ now =>
      if RebalanceInterval c <=? 0 then (o, [])
      else let '(st, fast) := note_move c now o in (Some st, if fast then [reason_fast] else [])
  | Lied _ now =>
      let '(st, over) := note_lie c now o in (Some st, if over then [reason_lies] else [])
  end.

Fixpoint peer_run (c : AbuseConfig) (o : option peerAbuse) (es : list abuse_event) : option peerAbuse * list bytes :=
  match es with
  | [] => (o, [])
  | e :: es => let '(o, r) := peer_step c o e in let '(o, rs) := peer_run c o es in (o, r ++ rs)
  end.

Definition reasons_of (p : bytes) (l : list (bytes * bytes)) : list bytes :=
  (List.filter (λ x, bool_decide (x.1 = p)) l).*2.

Definition event_peer (e : abuse_event) : bytes := match e with Moved q _ | Lied q _ => q end.

Definition ban_all {B} `{!PeerBlocker B} (q : bytes) (rs : list bytes) (b : B) : B := foldl (λ b r, ban q r b) b rs.

Lemma abuse_step_peer {B} `{!PeerBlocker B} e (m : AbuseMonitor) (b : B) :
  let '(m', b') := abuse_step (m, b) e in
  let q := event_peer e in
  am_cfg m' = am_cfg m ∧ am_peers m' !! q = (peer_step (am_cfg m) (am_peers m !! q) e).1 ∧
  (∀ p, p ≠ q → am_peers m' !! p = am_peers m !! p) ∧
  b' = ban_all q (peer_step (am_cfg m) (am_peers m !! q) e).2 b.
Proof.
  destruct e as [q now|q now]; cbn; unfold RecordRebalanceMove, RecordPossessionLie.
  - destruct (RebalanceInterval (am_cfg m) <=? 0); [done|]. destruct (note_move _ _ _) as [st []]; cbn;
      (split_and!; [done|by rewrite lookup_insert_eq|by intros; rewrite lookup_insert_ne|done]).
  - destruct (note_lie _ _ _) as [st []]; cbn;
      (split_and!; [done|by rewrite lookup_insert_eq|by intros; rewrite lookup_insert_ne|done]).
Qed.

Lemma reasons_of_ban p q rs : ∀ l, reasons_of p (ban_all q rs l) = reasons_of p l ++ (if bool_decide (q = p) then rs else []).
Proof.
  induction rs as [|r rs IH]; intros l.
  { cbn. by destruct (bool_decide _); rewrite app_nil_r. }
  transitivity (reasons_of p (ban_all q rs (l ++ [(q, r)]))); [done|]. rewrite IH. unfold reasons_of. rewrite List.filter_app, fmap_app. cbn.
  destruct (bool_decide (q = p)); cbn; [by rewrite <-app_assoc|by rewrite !app_nil_r].
Qed.

(** The fate of a peer depends on its own events only. *)
Lemma watch_peer p es : ∀ m (l : list (bytes * bytes)),
  let '(m', l') := watch es (m, l) in
  am_cfg m' = am_cfg m ∧
  let '(o, rs) := peer_run (am_cfg m) (am_peers m !! p) (List.filter (about p) es) in
  am_peers m' !! p = o ∧ reasons_of p l' = reasons_of p l ++ rs.
Proof.
  induction es as [|e es IH]; intros m l; cbn; [by rewrite app_nil_r|].
  pose proof (abuse_step_peer e m l) as Hs. destruct (abuse_step (m, l) e) as [m1 l1]. cbn in Hs.
  destruct Hs as (Hc & Hq & Ho & ->). specialize (IH m1 (ban_all (event_peer e) (peer_step (am_cfg m) (am_peers m !! event_peer e) e).2 l)).
  unfold watch in IH. destruct (foldl _ _ es) as [m2 l2]. rewrite Hc in IH. destruct IH as [-> IH]. split; [done|].
  rewrite reasons_of_ban in IH.
  replace (about p e) with (bool_decide (event_peer e = p)) by by destruct e.
  destruct (decide (event_peer e = p)) as [<-|Hne].
  - rewrite bool_decide_true in * by done. cbn. rewrite Hq in IH.
    destruct (peer_step _ _ e) as [o r]. cbn in *. destruct (peer_run _ o _) as [o' rs]. by rewrite app_assoc.
  - rewrite bool_decide_false, app_nil_r in IH by done. rewrite bool_decide_false by done. by rewrite <-Ho.
Qed.

(** Any blocker receives the calls the recorder lists. *)
Lemma watch_blocker {B} `{!PeerBlocker B} es : ∀ m (b : B) (l : list (bytes * bytes)),
  ∃ k, watch es (m, l) = ((watch es (m, b)).1, l ++ k) ∧ (watch es (m, b)).2 = foldl (λ b '(p, r), ban p r b) b k.
Proof.
  induction es as [|e es IH]; intros m b l; cbn [watch foldl].
  { exists []. by rewrite app_nil_r. }
  assert (∃ m1 k1, abuse_step (m, b) e = (m1, foldl (λ b '(p, r), ban p r b) b k1) ∧ abuse_step (m, l) e = (m1, l ++ k1))
    as (m1 & k1 & -> & ->).
  { destruct e as [q t|q t]; cbn; unfold RecordRebalanceMove, RecordPossessionLie.
    - destruct (RebalanceInterval (am_cfg m) <=? 0); [by exists m, []; rewrite app_nil_r|].
      destruct (note_move _ _ _) as [st []]; eexists; [by exists [(q, reason_fast)]|by exists []; rewrite app_nil_r].
    - destruct (note_lie _ _ _) as [st []]; eexists; [by exists [(q, reason_lies)]|by exists []; rewrite app_nil_r]. }
  destruct (IH m1 (foldl (λ b '(p, r), ban p r b) b k1) (l ++ k1)) as (k & Hk & Hb).
  exists (k1 ++ k). unfold watch in Hk, Hb. by rewrite Hk, Hb, app_assoc, foldl_app.
Qed.

Lemma bans_blocked `{PeerText} l : ∀ d q, Blocked (df_bl (bans l d)) q = bool_decide (reasons_of q l ≠ []) || Blocked (df_bl d) q.
Proof.
  induction l as [|[p r] l IH]; intros d q; cbn; [done|].
  change (foldl _ (Block p r d) l) with (bans l (Block p r d)).
  rewrite IH, Block_blocks. unfold reasons_of. cbn. rewrite (bool_decide_ext (q = p) (p = q)) by done.
  destruct (bool_decide (p = q)); [|done]. cbn. by rewrite orb_true_r.
Qed.

(** The monitor over the real blocklist: a peer is blocked if it was, or if its
    own events led to a ban. *)
Lemma watch_defended `{PeerText} p es m (d : Defended) :
  Blocked (df_bl (watch es (m, d)).2) p =
    bool_decide ((peer_run (am_cfg m) (am_peers m !! p) (List.filter (about p) es)).2 ≠ []) || Blocked (df_bl d) p.
Proof.
  destruct (watch_blocker es m d []) as (k & Hk & ->). pose proof (watch_peer p es m []) as Hp.
  rewrite Hk in Hp. destruct Hp as [_ Hp]. destruct (peer_run _ _ _) as [o rs]. destruct Hp as [_ Hp].
  change (reasons_of p []) with (@nil bytes) in Hp. cbn [app] in Hp.
  change (foldl _ d k) with (bans k d). by rewrite bans_blocked, Hp.
Qed.

(** ** Sweeps *)

(** Settings for which the detector's arithmetic does not wrap. *)
Record sane (c : AbuseConfig) : Prop := {
  sane_interval : 0 < RebalanceInterval c < 2 ^ 63;
  sane_tolerance : 0 ≤ Tolerance c < 2 ^ 63;
  sane_coalesce : 0 < Coalesce c < 2 ^ 63;
}.

(** Moves less than a coalesce window apart. *)
Fixpoint flows (c : AbuseConfig) (prev : Z) (ts : list Z) : Prop :=
  match ts with
  | [] => True
  | t :: ts => prev ≤ t ∧ t - prev < Coalesce c ∧ flows c t ts
  end.

(** A sweep: its first move and the others. *)
Abbreviation sweep := (Z * list Z)%type.
Definition ends (w : sweep) : Z := default w.1 (list.last w.2).

(** Sweeps at least a coalesce window apart. Every sequence of moves in time
    order is such a sequence of sweeps. *)
Fixpoint sweeps (c : AbuseConfig) (prev : Z) (ws : list sweep) : Prop :=
  match ws with
  | [] => True
  | w :: ws => Coalesce c ≤ w.1 - prev ∧ flows c w.1 w.2 ∧ sweeps c (ends w) ws
  end.

Definition moves_of (p : bytes) (w : sweep) : list abuse_event := Moved p <$> (w.1 :: w.2).

(** The gaps between the starts of consecutive sweeps. *)
Fixpoint gaps (s : Z) (ws : list sweep) : list Z :=
  match ws with [] => [] | w :: ws => (w.1 - s) :: gaps w.1 ws end.

Lemma Sub_forward t u : u ≤ t → Sub t u = Z.min (t - u) (2 ^ 63 - 1).
Proof. unfold Sub. lia. Qed.

Lemma peer_run_app c es1 : ∀ o es2,
  peer_run c o (es1 ++ es2) =
    let '(o1, r1) := peer_run c o es1 in let '(o2, r2) := peer_run c o1 es2 in (o2, r1 ++ r2).
Proof.
  induction es1 as [|e es1 IH]; intros o es2; cbn; [by destruct (peer_run c o es2)|].
  destruct (peer_step c o e) as [o1 r1]. rewrite IH. destruct (peer_run c o1 es1) as [o2 r2].
  destruct (peer_run c o2 es2). by rewrite app_assoc.
Qed.

Lemma flow_run c p s h k : sane c → ∀ ts u, flows c u ts →
  peer_run c (Some (mkPA u s h k)) (Moved p <$> ts) = (Some (mkPA (default u (list.last ts)) s h k), []).
Proof.
  intros Hc. induction ts as [|t ts IH]; intros u; [done|]. cbn [flows]. intros (Hut & Htu & Hf).
  destruct Hc as [Hi _ Hco]. cbn. rewrite (proj2 (Z.leb_gt _ _)) by lia.
  unfold note_move. cbn [lastMove lastEvent haveEvent strikes]. rewrite Sub_forward by done.
  rewrite (proj2 (Z.ltb_lt _ _)) by lia. cbn in IH. rewrite IH by done. cbn [app].
  change (match ts with [] => Some t | _ :: _ => list.last ts end) with (list.last (t :: ts)); rewrite last_cons. by destruct (list.last ts).
Qed.

Lemma sweeps_run c p : sane c → ∀ ws u s, s ≤ u → sweeps c u ws →
  (peer_run c (Some (mkPA u s true [])) (ws ≫= moves_of p)).2 =
    gaps s ws ≫= (λ g, if g <? RebalanceInterval c - Tolerance c then [reason_fast] else []).
Proof.
  intros Hc. induction ws as [|[s' ts] ws IH]; intros u s Hsu; [done|]. cbn [sweeps fst snd]. intros (Hg & Hf & Hw).
  pose proof Hc as [Hi Ht Hco]. cbn [mbind list_bind]. rewrite peer_run_app.
  unfold moves_of at 1. cbn [fst snd fmap list_fmap peer_run]. unfold peer_step. rewrite (proj2 (Z.leb_gt _ _)) by lia.
  unfold note_move. cbn [lastMove lastEvent haveEvent strikes]. rewrite !Sub_forward by lia.
  rewrite (proj2 (Z.ltb_ge (Z.min (s' - u) _) _)) by lia. cbn [andb].
  change (list_fmap _ _ (Moved p) ts) with (Moved p <$> ts). rewrite flow_run by done. cbn [gaps fst].
  assert (s' ≤ ends (s', ts)) as He.
  { unfold ends. cbn. clear -Hf. revert s' Hf. induction ts as [|t ts IH]; intros s' Hf; [done|].
    destruct Hf as (? & _ & Hf). specialize (IH t Hf). rewrite last_cons. destruct (list.last ts); cbn in *; lia. }
  specialize (IH _ _ He Hw). unfold ends in IH. cbn in IH.
  destruct (peer_run c _ (ws ≫= moves_of p)) as [o rs]. cbn in IH |- *. rewrite IH, app_nil_r.
  f_equal. rewrite i64_id by (unfold in_i64; lia).
  destruct (Z.ltb_spec (s' - s) (RebalanceInterval c - Tolerance c)), (Z.ltb_spec (Z.min (s' - s) (2 ^ 63 - 1)) (RebalanceInterval c - Tolerance c)); try done; lia.
Qed.

Lemma first_sweeps_run c p w ws : sane c → flows c w.1 w.2 → sweeps c (ends w) ws → w.1 ≤ ends w →
  (peer_run c None ((w :: ws) ≫= moves_of p)).2 =
    gaps w.1 ws ≫= (λ g, if g <? RebalanceInterval c - Tolerance c then [reason_fast] else []).
Proof.
  intros Hc Hf Hw Hend. rewrite <-(sweeps_run c p Hc ws _ _ Hend Hw). destruct Hc as [Hi Ht Hco].
  cbn [mbind list_bind]. rewrite peer_run_app. unfold moves_of at 1. cbn [fmap list_fmap peer_run].
  unfold peer_step. rewrite (proj2 (Z.leb_gt (RebalanceInterval c) 0)) by lia. unfold note_move.
  rewrite flow_run by done. change (default w.1 (list.last w.2)) with (ends w).
  by destruct (peer_run c _ (ws ≫= moves_of p)).
Qed.

(** ** Lies *)

Definition lies (es : list abuse_event) : list Z :=
  omap (λ e, match e with Lied _ t => Some t | Moved _ _ => None end) es.

Definition marks (o : option peerAbuse) : list Z := strikes (default zeroAbuse o).

Lemma move_marks c o t p : marks (peer_step c o (Moved p t)).1 = marks o.
Proof.
  cbn. destruct (_ <=? 0); [done|]. unfold note_move. destruct o as [st|]; [|done]. by destruct (_ <? _).
Qed.

Lemma lie_marks c o t p : marks (peer_step c o (Lied p t)).1 =
  let kept := List.filter (λ x, t + i64 (- Decay c) <? x) (marks o) ++ [t] in
  if Strikes c <=? Z.of_nat (length kept) then [] else kept.
Proof. done. Qed.

Lemma filter_kept c now (l : list Z) : in_i64 (- Decay c) →
  (∀ t, t ∈ l → now - t < Decay c) → List.filter (λ t, now + i64 (- Decay c) <? t) l = l.
Proof.
  intros Hd. rewrite i64_id by done. induction l as [|t l IH]; intros Hl; [done|]. cbn.
  rewrite (proj2 (Z.ltb_lt _ _)), IH; [done|set_solver|].
  specialize (Hl t (list_elem_of_here _ _)). lia.
Qed.

Lemma lies_run c es : in_i64 (- Decay c) → ∀ o,
  (∀ t u, t ∈ marks o ++ lies es → u ∈ lies es → u - t < Decay c) →
  Z.of_nat (length (marks o)) < Strikes c ≤ Z.of_nat (length (marks o ++ lies es)) →
  (peer_run c o es).2 ≠ [].
Proof.
  intros Hd. induction es as [|e es IH]; intros o Hw Hn; cbn in *.
  { rewrite app_nil_r in Hn. lia. }
  pose proof (IH (peer_step c o e).1) as IHe. clear IH.
  destruct e as [p t|p t].
  - rewrite move_marks in IHe. specialize (IHe Hw Hn).
    destruct (peer_step c o (Moved p t)) as [o1 r1]. cbn in *. destruct (peer_run c o1 es) as [o2 r2]. cbn in *.
    by intros [_ ?]%app_nil.
  - rewrite lie_marks in IHe. cbn in *. unfold note_lie in *. fold (marks o) in *.
    rewrite (filter_kept c t (marks o)) in * by (done || set_solver).
    destruct (Z.leb_spec (Strikes c) (Z.of_nat (length (marks o ++ [t])))).
    + by destruct (peer_run c _ es).
    + change (omap _ es) with (lies es) in Hw, Hn. rewrite <-app_assoc in IHe. cbn in IHe.
      destruct (peer_run c _ es) as [o2 r2]. apply IHe; [set_solver|lia].
Qed.

Lemma few_lies_run c es : ∀ o,
  Z.of_nat (length (marks o) + length (lies es)) < Strikes c → reason_lies ∉ (peer_run c o es).2.
Proof.
  induction es as [|e es IH]; intros o Hn; cbn in *; [apply not_elem_of_nil|].
  specialize (IH (peer_step c o e).1). destruct e as [p t|p t].
  - rewrite move_marks in IH. specialize (IH Hn). cbn in *. destruct (_ <=? 0).
    + cbn in *. by destruct (peer_run c o es).
    + destruct (note_move c t o) as [st []]; cbn in *; destruct (peer_run c _ es); cbn in *; [|done].
      by apply not_elem_of_cons.
  - rewrite lie_marks in IH. cbn in *. unfold note_lie in *. fold (marks o) in *.
    pose proof (List.filter_length_le (λ x, t + i64 (- Decay c) <? x) (marks o)) as Hf.
    rewrite length_app in *. cbn [length] in *.
    rewrite (proj2 (Z.leb_gt _ _)) in * by lia. rewrite length_app in IH. cbn in *.
    destruct (peer_run c _ es). cbn in *. apply IH. change (omap _ es) with (lies es) in Hn. lia.
Qed.

(** The schedule check, exactly. Whatever other peers do meanwhile, let a
    peer's moves be any sequence in time order, cut into sweeps (moves less than
    a coalesce window apart inside a sweep, sweeps at least a window apart), and
    let it tell no possession lie. After those moves it is refused if and only
    if it was before or two consecutive sweeps of its own started less than
    interval - tolerance apart. So a peer that keeps the schedule is never
    banned, and neither is one that moves shards without pause, whatever the
    number of moves: that is one sweep. *)
Theorem schedule_check_exact `{PeerText} (cfg : AbuseConfig) (p : bytes) (w : sweep) (ws : list sweep)
    (es : list abuse_event) (d : Defended) :
  let c := abuse_defaults cfg in
  sane c → flows c w.1 w.2 → sweeps c (ends w) ws → w.1 ≤ ends w →
  List.filter (about p) es = (w :: ws) ≫= moves_of p →
  let '(m, d') := watch es (NewAbuseMonitor cfg, d) in
  Blocked (df_bl d') p =
    existsb (λ g, g <? RebalanceInterval c - Tolerance c) (gaps w.1 ws) || Blocked (df_bl d) p.
Proof.
  intros c Hc Hf Hw Hend He. pose proof (watch_defended p es (NewAbuseMonitor cfg) d) as Hd.
  destruct (watch es _) as [m d']. cbn [snd am_cfg NewAbuseMonitor am_peers] in Hd. rewrite Hd, He, lookup_empty. f_equal.
  fold c. rewrite (first_sweeps_run c p w ws) by done. clear.
  generalize (gaps w.1 ws). intros l. induction l as [|g l IH]; [done|]. cbn. by destruct (g <? _).
Qed.

(** The strike budget. Whatever else happens, and with moves of the peer
    itself interleaved: once a peer has failed as many possession proofs as the
    budget, all within one decay window, it is refused by the gater in both
    directions from any address; and as long as it has failed fewer in all, no
    ban for lying is issued against it. *)
Theorem strike_budget `{PeerText} (cfg : AbuseConfig) (p : bytes) (es : list abuse_event) (d : Defended) :
  let c := abuse_defaults cfg in
  let ts := lies (List.filter (about p) es) in
  in_i64 (- Decay c) → 0 < Strikes c →
  ((∀ t u, t ∈ ts → u ∈ ts → u - t < Decay c) → Strikes c ≤ Z.of_nat (length ts) →
     ∀ dir a, connects (bl_gater (df_bl (watch es (NewAbuseMonitor cfg, d)).2)) dir p a = false) ∧
  (Z.of_nat (length ts) < Strikes c →
     reason_lies ∉ reasons_of p (watch es (NewAbuseMonitor cfg, @nil (bytes * bytes))).2).
Proof.
  intros c ts Hd Hs. split.
  - intros Hw Hn dir a. rewrite connects_spec. change (blockedPeer (bl_gater ?b)) with (Blocked b).
    rewrite watch_defended, bool_decide_true; [done|]. cbn [am_cfg am_peers NewAbuseMonitor]. rewrite lookup_empty.
    apply lies_run; [done|done|].
    change (marks None) with (@nil Z). cbn [app length]. fold c ts. lia.
  - intros Hn. pose proof (watch_peer p es (NewAbuseMonitor cfg) []) as Hp.
    destruct (watch es _) as [m l]. cbn [am_cfg am_peers NewAbuseMonitor] in Hp. rewrite lookup_empty in Hp.
    pose proof (few_lies_run c (List.filter (about p) es) None) as Hf. fold c in Hp.
    destruct Hp as [_ Hp]. destruct (peer_run _ _ _) as [o rs]. destruct Hp as [_ Hp].
    cbn [snd]. rewrite Hp. apply Hf. exact Hn.
Qed.

Section examples.
#[local] Existing Instance hex_peer.
Definition ex_cfg : AbuseConfig := mkAbuseCfg (60 * Minute) 0 0 0 0.
Definition ex_clean : Defended := mkDef (mkBL (newBlocklistGater [] []) false false) None ∅ [].

Lemma schedule_check_exact_witness :
  let '(m, d') := watch [Moved [Byte.x01] 0; Moved [Byte.x02] 5; Moved [Byte.x01] 1; Moved [Byte.x01] (30 * Minute)]
                    (NewAbuseMonitor ex_cfg, ex_clean) in
  Blocked (df_bl d') [Byte.x01] = true.
Proof.
  apply (schedule_check_exact ex_cfg [Byte.x01] (0, [1]) [(30 * Minute, [])]); try done.
Defined.

Lemma strike_budget_witness :
  connects (bl_gater (df_bl (watch [Lied [Byte.x01] 0; Moved [Byte.x01] 3; Lied [Byte.x01] 5; Lied [Byte.x01] 6]
    (NewAbuseMonitor ex_cfg, ex_clean)).2)) Inbound [Byte.x01] None = false.
Proof.
  apply (strike_budget ex_cfg [Byte.x01] [Lied [Byte.x01] 0; Moved [Byte.x01] 3; Lied [Byte.x01] 5; Lied [Byte.x01] 6] ex_clean);
    [by vm_compute|by vm_compute| |by vm_compute].
  change (lies _) with [0; 5; 6]. intros t u Ht Hu. change (Decay (abuse_defaults ex_cfg)) with 86400000000000.
  rewrite !elem_of_cons, elem_of_nil in Ht, Hu. lia.
Defined.
End examples.
