(* ===== verification/Rebalance.v ===== *)
(** * internal/net/balance.go, internal/net/rebalance.go: diffusion rebalancing

    A node with too much load sheds its coldest shards to an emptier peer. One
    round ([RunOnce]) runs over this node's blob store and ledger and over a
    network state [W] in which every peer answers as its [Peer] says, honest or
    not. The clock, the context's cancellation at each check and the bytes
    rand.Read gives are arguments. Fractions are binary64 values. *)

From S2P Require Import Prelude GoLib Store Crypto Stripe Ledger RateLimit Wire Server Node Client.
From S2P Require Import Codec Placement Defense Abuse.

Definition maxLoadReport : Z := 4096.
Definition coldShardScan : Z := 256.

(** ** balance.go *)

Record LoadReport := mkReport { UsedBytes : Z; CapacityBytes : Z; Shards : Z }.
#[export] Instance LoadReport_eq_dec : EqDecision LoadReport.
Proof. solve_decision. Defined.

Definition report_Load (r : LoadReport) : Load := mkLoad (UsedBytes r) (CapacityBytes r).
Definition report_Frac (r : LoadReport) : F64.t := Frac (report_Load r).
Definition FreeBytes (r : LoadReport) : Z := Free (report_Load r).

(** [LoadSource]: the node's own report, or the text of an error. *)
Abbreviation LoadSource := (result bytes LoadReport).

Inductive balance_err :=
| BNet (e : client_err)
| BBadReport
| BSelf (msg : bytes)
| BPeers (msg : bytes)
| BLedger (e : ledger_err)
| BCancelled.

(** An error with no status of its own. *)
Definition reply_text (msg : bytes) : reply :=
  Reply (writeByte (status_byte statusError) ++ blob_bytes msg).

Definition handleLoad `{Json LoadReport} (src : option LoadSource) : reply :=
  match src with
  | None => reply_text (text "load reporting not enabled")
  | Some (Err msg) => reply_text msg
  | Some (Ok rep) =>
      match Marshal rep with
      | None => reply_text (text "marshal")
      | Some body => replyOK (blob_bytes body)
      end
  end.

Section network.
Context `{Hsha : Sha256} `{Hed : Ed25519} `{Hj : Json LoadReport} {W : Type}.
(** The peers: the shard and probe protocols, and the balance protocol. *)
Context (node : bytes → Peer W) (on_balance : bytes → W → W * reply).

Definition QueryLoad (p : bytes) (w : W) : W * result balance_err LoadReport :=
  let '(w, r) := exchange (node p) (λ _, on_balance p) [] w in
  (w, match r with
      | Err e => Err (BNet e)
      | Ok s =>
          match readBlob maxLoadReport s with
          | Err e => Err (BNet (CRead e))
          | Ok (body, _) => of_option BBadReport (Unmarshal body)
          end
      end).

(** ** rebalance.go *)

Record Rebalancer := mkRB {
  rb_ID : bytes;              (* the host's own identity *)
  rb_threshold : F64.t;
  rb_sample : Z;
  rb_cooldown : Z;
}.

Definition NewRebalancer (self : bytes) : Rebalancer := mkRB self (F64.ratio 1 10) 3 Hour.
Definition SetThreshold (t : F64.t) (rb : Rebalancer) : Rebalancer := mkRB (rb_ID rb) t (rb_sample rb) (rb_cooldown rb).
Definition SetSample (n : Z) (rb : Rebalancer) : Rebalancer :=
  mkRB (rb_ID rb) (rb_threshold rb) (if n <? 1 then 1 else n) (rb_cooldown rb).
Definition SetCooldown (d : Z) (rb : Rebalancer) : Rebalancer := mkRB (rb_ID rb) (rb_threshold rb) (rb_sample rb) d.

(** The candidates sampled: the first ones that are not this node. *)
Fixpoint sample_peers (self : bytes) (n : Z) (candidates sampled : list bytes) : list bytes :=
  match candidates with
  | [] => sampled
  | p :: candidates =>
      if decide (p = self) then sample_peers self n candidates sampled
      else
        let sampled := sampled ++ [p] in
        if n <=? Z.of_nat (length sampled) then sampled else sample_peers self n candidates sampled
  end.

(** [cancelled i]: what the context says at the [i]-th check. *)
Fixpoint best_peer (cancelled : nat → bool) (i : nat) (ps : list bytes) (best : option (bytes * Load)) (w : W)
    : W * result balance_err (option (bytes * Load)) :=
  match ps with
  | [] => (w, Ok best)
  | p :: ps =>
      if cancelled i then (w, Err BCancelled)
      else
        let '(w, r) := QueryLoad p w in
        match r with
        | Err _ => best_peer cancelled (S i) ps best w
        | Ok rep =>
            let l := report_Load rep in
            let best := match best with
                        | None => Some (p, l)
                        | Some (_, bl) => if F64.ltb (Frac l) (Frac bl) then Some (p, l) else best
                        end in
            best_peer cancelled (S i) ps best w
        end
  end.

Definition pickTarget (rb : Rebalancer) (peers : result bytes (list bytes)) (cancelled : nat → bool) (w : W)
    : W * result balance_err (option (bytes * Load)) :=
  match peers with
  | Err msg => (w, Err (BPeers msg))
  | Ok candidates =>
      match sample_peers (rb_ID rb) (rb_sample rb) candidates [] with
      | [] => (w, Ok None)
      | sampled => best_peer cancelled 0 sampled None w
      end
  end.

(** [peerStripeLoad] *)
Fixpoint peerStripeLoad (target : bytes) (siblings : list ShardID) (exclude : ShardID) (limit held : Z) (w : W)
    : W * result client_err Z :=
  match siblings with
  | [] => (w, Ok held)
  | sib :: siblings =>
      if decide (sib = exclude) then peerStripeLoad target siblings exclude limit held w
      else
        let '(w, r) := has (node target) sib w in
        match r with
        | Err e => (w, Err e)
        | Ok true =>
            let held := held + 1 in
            if limit <=? held then (w, Ok held) else peerStripeLoad target siblings exclude limit held w
        | Ok false => peerStripeLoad target siblings exclude limit held w
        end
  end.

(** [confirmStored], with what rand.Read returned. *)
Definition confirmStored (target : bytes) (nonce : option bytes) (id : ShardID) (want : bytes) (w : W)
    : W * result client_err bool :=
  match nonce with
  | None => (w, Err CNonceSize)
  | Some nonce => Probe (node target) id want nonce w
  end.

Definition inCooldown (rb : Rebalancer) (moved : gmap ShardID Z) (id : ShardID) (now : Z) : bool :=
  match moved !! id with
  | Some t => Sub now t <? rb_cooldown rb
  | None => false
  end.
Definition markMoved (id : ShardID) (now : Z) (moved : gmap ShardID Z) : gmap ShardID Z := <[id := now]> moved.
Definition pruneCooldown (rb : Rebalancer) (now : Z) (moved : gmap ShardID Z) : gmap ShardID Z :=
  filter (λ '(_, t), Sub now t < rb_cooldown rb) moved.

Context {S : Type} `{Hst : !Store S} {B : Type} `{Hbl : !PeerBlocker B}.

Record Round := mkRound {
  rd_blobs : S; rd_led : Ledger; rd_net : W; rd_moved : gmap ShardID Z;
  rd_abuse : option (AbuseMonitor * B) }.

(** [release] *)
Definition release (id : ShardID) (s : S) (l : Ledger) : S * Ledger * result store_err unit :=
  let '(s, r) := Delete id s in
  match r with
  | Err ErrNotFound | Ok _ => (s, DropRecord id l, Ok tt)
  | Err e => (s, l, Err e)
  end.

Inductive outcome := Skip | Stop | Shipped (n : Z).

Definition strike (target : bytes) (now : Z) (a : option (AbuseMonitor * B)) : option (AbuseMonitor * B) :=
  match a with Some (m, b) => Some (RecordPossessionLie target now m b) | None => None end.

(** The body of the loop over the cold shards, after the cooldown check. *)
Definition place (target : bytes) (now : Z) (nonce : option bytes) (row : StripeRow) (data : bytes) (rd : Round)
    : Round * outcome :=
  let desc := mkDesc (sr_K row) (sr_M row) (sr_siblings row) in
  let '(w, r) := putGrant (node target) data desc (sr_grant row) ReasonRebalance (rd_net rd) in
  let rd := mkRound (rd_blobs rd) (rd_led rd) w (rd_moved rd) (rd_abuse rd) in
  match r with
  | Err CQuotaExceeded => (rd, Stop)
  | Err _ => (rd, Skip)
  | Ok _ =>
      let '(w, r) := confirmStored target nonce (sr_id row) data (rd_net rd) in
      let rd := mkRound (rd_blobs rd) (rd_led rd) w (rd_moved rd) (rd_abuse rd) in
      match r with
      | Err _ => (rd, Skip)
      | Ok false =>
          (mkRound (rd_blobs rd) (rd_led rd) (rd_net rd) (rd_moved rd) (strike target now (rd_abuse rd)), Stop)
      | Ok true =>
          let '(s, l, _) := release (sr_id row) (rd_blobs rd) (rd_led rd) in
          (mkRound s l (rd_net rd) (markMoved (sr_id row) now (rd_moved rd)) (rd_abuse rd),
           Shipped (Z.of_nat (length data)))
      end
  end.

Definition shed_row (rb : Rebalancer) (target : bytes) (now : Z) (nonce : option bytes) (row : StripeRow) (rd : Round)
    : Round * outcome :=
  if inCooldown rb (rd_moved rd) (sr_id row) now then (rd, Skip)
  else match Get (sr_id row) (rd_blobs rd) with
       | Err _ => (rd, Skip)
       | Ok data =>
           if 0 <? sr_M row then
             let '(w, r) := peerStripeLoad target (sr_siblings row) (sr_id row) (sr_M row) 0 (rd_net rd) in
             let rd := mkRound (rd_blobs rd) (rd_led rd) w (rd_moved rd) (rd_abuse rd) in
             match r with
             | Err _ => (rd, Skip)
             | Ok held => if sr_M row <=? held then (rd, Skip) else place target now nonce row data rd
             end
           else place target now nonce row data rd
       end.

Fixpoint shed (rb : Rebalancer) (target : bytes) (now : Z) (cancelled : nat → bool) (rand : nat → option bytes)
    (i : nat) (rows : list StripeRow) (budget moved : Z) (rd : Round) : Round * Z :=
  match rows with
  | [] => (rd, moved)
  | row :: rows =>
      if cancelled i then (rd, moved)
      else if budget <=? 0 then (rd, moved)
      else
        let '(rd, out) := shed_row rb target now (rand i) row rd in
        match out with
        | Skip => shed rb target now cancelled rand (Datatypes.S i) rows budget moved rd
        | Stop => (rd, moved)
        | Shipped n => shed rb target now cancelled rand (Datatypes.S i) rows (i64 (budget - n)) (moved + 1) rd
        end
  end.

(** What one round is given: the load source, the candidates, the context at
    the checks of both loops, the nonces. *)
Record RoundEnv := mkEnv {
  en_self : LoadSource; en_peers : result bytes (list bytes);
  en_pick : nat → bool; en_shed : nat → bool; en_rand : nat → option bytes }.

Definition RunOnce (rb : Rebalancer) (now : Z) (e : RoundEnv) (rd : Round) : Round * result balance_err Z :=
  match en_self e with
  | Err msg => (rd, Err (BSelf msg))
  | Ok selfRep =>
      let selfLoad := report_Load selfRep in
      if ld_Capacity selfLoad <=? 0 then (rd, Ok 0)
      else
        let '(w, r) := pickTarget rb (en_peers e) (en_pick e) (rd_net rd) in
        let rd := mkRound (rd_blobs rd) (rd_led rd) w (rd_moved rd) (rd_abuse rd) in
        match r with
        | Err x => (rd, Err x)
        | Ok None => (rd, Ok 0)
        | Ok (Some (target, targetLoad)) =>
            let budget := OffloadBytes selfLoad targetLoad (rb_threshold rb) in
            if budget <=? 0 then (rd, Ok 0)
            else
              let rd := mkRound (rd_blobs rd) (rd_led rd) (rd_net rd) (pruneCooldown rb now (rd_moved rd)) (rd_abuse rd) in
              match ColdShards coldShardScan (rd_led rd) with
              | Err x => (rd, Err (BLedger x))
              | Ok rows =>
                  let '(rd, n) := shed rb target now (en_shed e) (en_rand e) 0 rows budget 0 rd in
                  (rd, Ok n)
              end
        end
  end.
End network.

(** ** What a round does *)

Section facts.
Context `{Hsha : Sha256} `{Hed : Ed25519} `{Hj : Json LoadReport} {W : Type}.
Context (node : bytes → Peer W) (on_balance : bytes → W → W * reply).
Context {S : Type} `{Hst : !Store S} {ok : S → Prop} `{Hlaws : !StoreLaws S ok} {B : Type} `{Hbl : !PeerBlocker B}.
Implicit Types (rd : Round (W := W) (S := S) (B := B)) (w : W).

Lemma release_spec id s l : ok s → release id s l = ((Delete id s).1, DropRecord id l, Ok tt).
Proof.
  intros Hs. unfold release. pose proof (delete_result s id Hs) as Hr.
  destruct (Delete id s) as [s' r]. cbn in *. subst r. by destruct (is_ok _).
Qed.

(** A shard leaves this node only in the order of the protocol: the peer
    accepted it, then proved that it holds these bytes. *)
Record handed_over (target : bytes) (row : StripeRow) (data : bytes) (w w' : W) : Prop := {
  ho_spread : 0 < sr_M row → ∃ held w1,
    peerStripeLoad node target (sr_siblings row) (sr_id row) (sr_M row) 0 w = (w1, Ok held) ∧ held < sr_M row;
  ho_proved : ∃ w0 w1 id nonce,
    putGrant (node target) data (mkDesc (sr_K row) (sr_M row) (sr_siblings row)) (sr_grant row) ReasonRebalance w0 = (w1, Ok id) ∧
    Probe (node target) (sr_id row) data nonce w1 = (w', Ok true);
}.

(** Everything a row can do. *)
Definition row_effect (rb : Rebalancer) (target : bytes) (now : Z) (row : StripeRow) rd rd' (out : outcome) : Prop :=
  match out with
  | Shipped n => ∃ data, Get (sr_id row) (rd_blobs rd) = Ok data ∧ n = Z.of_nat (length data) ∧
      inCooldown rb (rd_moved rd) (sr_id row) now = false ∧
      rd_blobs rd' = (Delete (sr_id row) (rd_blobs rd)).1 ∧ rd_led rd' = DropRecord (sr_id row) (rd_led rd) ∧
      rd_moved rd' = <[sr_id row := now]> (rd_moved rd) ∧ rd_abuse rd' = rd_abuse rd ∧
      handed_over target row data (rd_net rd) (rd_net rd')
  | Skip => rd_blobs rd' = rd_blobs rd ∧ rd_led rd' = rd_led rd ∧ rd_moved rd' = rd_moved rd ∧ rd_abuse rd' = rd_abuse rd
  | Stop => rd_blobs rd' = rd_blobs rd ∧ rd_led rd' = rd_led rd ∧ rd_moved rd' = rd_moved rd ∧
      (rd_abuse rd' = rd_abuse rd ∨ rd_abuse rd' = strike target now (rd_abuse rd))
  end.

Lemma place_effect target now nonce row data rd : ok (rd_blobs rd) →
  let '(rd', out) := place node target now nonce row data rd in
  match out with
  | Shipped n => n = Z.of_nat (length data) ∧
      rd_blobs rd' = (Delete (sr_id row) (rd_blobs rd)).1 ∧ rd_led rd' = DropRecord (sr_id row) (rd_led rd) ∧
      rd_moved rd' = <[sr_id row := now]> (rd_moved rd) ∧ rd_abuse rd' = rd_abuse rd ∧
      ∃ w1 id nonce, putGrant (node target) data (mkDesc (sr_K row) (sr_M row) (sr_siblings row)) (sr_grant row) ReasonRebalance (rd_net rd) = (w1, Ok id) ∧
        Probe (node target) (sr_id row) data nonce w1 = (rd_net rd', Ok true)
  | Skip => rd_blobs rd' = rd_blobs rd ∧ rd_led rd' = rd_led rd ∧ rd_moved rd' = rd_moved rd ∧ rd_abuse rd' = rd_abuse rd
  | Stop => rd_blobs rd' = rd_blobs rd ∧ rd_led rd' = rd_led rd ∧ rd_moved rd' = rd_moved rd ∧
      (rd_abuse rd' = rd_abuse rd ∨ rd_abuse rd' = strike target now (rd_abuse rd))
  end.
Proof.
  intros Hs. unfold place. destruct (putGrant _ _ _ _ _ _) as [w1 [id|e]] eqn:Ep; [|destruct e; cbn; auto].
  unfold confirmStored. cbn [rd_net]. destruct nonce as [nonce|]; [|cbn; auto].
  destruct (Probe _ _ _ _ _) as [w2 [[]|e]] eqn:Eq; cbn [rd_net rd_blobs rd_led rd_moved rd_abuse]; [|auto..].
  rewrite release_spec by done. cbn. split_and!; try done. by exists w1, id, nonce.
Qed.

Lemma shed_row_effect rb target now nonce row rd : ok (rd_blobs rd) →
  let '(rd', out) := shed_row node rb target now nonce row rd in row_effect rb target now row rd rd' out.
Proof.
  intros Hs. unfold shed_row. destruct (inCooldown _ _ _ _) eqn:Ec; [cbn; auto|].
  destruct (Get (sr_id row) (rd_blobs rd)) as [data|] eqn:Eg; [|cbn; auto].
  destruct (Z.ltb_spec 0 (sr_M row)) as [Hm|Hm].
  - destruct (peerStripeLoad _ _ _ _ _ _) as [w1 [held|e]] eqn:Eh; [|cbn; auto].
    destruct (Z.leb_spec (sr_M row) held); [cbn; auto|].
    pose proof (place_effect target now nonce row data (mkRound (rd_blobs rd) (rd_led rd) w1 (rd_moved rd) (rd_abuse rd)) Hs) as Hp.
    destruct (place _ _ _ _ _ _ _) as [rd' []]; cbn in *; [done..|].
    destruct Hp as (-> & ? & ? & ? & ? & w2 & id & nn & ? & ?). exists data. split_and!; try done.
    split; [by eauto|]. by exists w1, w2, id, nn.
  - pose proof (place_effect target now nonce row data rd Hs) as Hp.
    destruct (place _ _ _ _ _ _ _) as [rd' []]; cbn in *; [done..|].
    destruct Hp as (-> & ? & ? & ? & ? & w2 & id & nn & ? & ?). exists data. split_and!; try done.
    split; [lia|]. by exists (rd_net rd), w2, id, nn.
Qed.

(** *** Custody: shards are never lost between the nodes *)

(** [holds p id w]: in the network state [w], peer [p] has the shard [id]. What
    the statement relies on: a peer whose possession proof verifies has the
    shard, and no request of a round makes any peer lose one. *)
Record custody (holds : bytes → ShardID → W → Prop) : Prop := {
  cu_proof : ∀ t id want nonce w w', is_id id → Probe (node t) id want nonce w = (w', Ok true) → holds t id w';
  cu_probe : ∀ p id t x want nonce w, holds p id w → holds p id (Probe (node t) x want nonce w).1;
  cu_has : ∀ p id t x w, holds p id w → holds p id (has (node t) x w).1;
  cu_put : ∀ p id t data d grant w, holds p id w → holds p id (putGrant (node t) data d grant ReasonRebalance w).1;
  cu_load : ∀ p id t w, holds p id w → holds p id (on_balance t w).1;
}.

Definition somewhere (holds : bytes → ShardID → W → Prop) (id : ShardID) rd : Prop :=
  is_ok (Get id (rd_blobs rd)) = true ∨ ∃ p, holds p id (rd_net rd).

Section custody.
Context (holds : bytes → ShardID → W → Prop) (Hc : custody holds).

Lemma stripe_load_keeps p id t ex lim sibs : ∀ held w, holds p id w → holds p id (peerStripeLoad node t sibs ex lim held w).1.
Proof.
  induction sibs as [|x sibs IH]; intros held w Hw; [done|]. cbn. case_decide; [by apply IH|].
  pose proof (cu_has _ Hc p id t x w Hw) as Hh. destruct (has (node t) x w) as [w1 [[]|]]; [|by apply IH|done].
  destruct (_ <=? _); [done|by apply IH].
Qed.

Lemma query_keeps p id t w : holds p id w → holds p id (QueryLoad node on_balance t w).1.
Proof.
  intros Hw. unfold QueryLoad, exchange. destruct (negb _); [done|]. cbn.
  pose proof (cu_load _ Hc p id t w Hw) as Hl. by destruct (on_balance t w).
Qed.

Lemma best_peer_keeps p id cn ps : ∀ i best w, holds p id w → holds p id (best_peer node on_balance cn i ps best w).1.
Proof.
  induction ps as [|q ps IH]; intros i best w Hw; [done|]. cbn. destruct (cn i); [done|].
  pose proof (query_keeps p id q w Hw) as Hq. destruct (QueryLoad _ _ q w) as [w1 [rep|]]; by apply IH.
Qed.

Lemma pick_keeps p id rb peers cn w : holds p id w → holds p id (pickTarget node on_balance rb peers cn w).1.
Proof.
  intros Hw. unfold pickTarget. destruct peers; [|done]. destruct (sample_peers _ _ _ _); [done|]. by apply best_peer_keeps.
Qed.

Lemma place_keeps p id target now nonce row data rd : holds p id (rd_net rd) →
  holds p id (rd_net (place node target now nonce row data rd).1).
Proof.
  intros Hw. unfold place.
  pose proof (cu_put _ Hc p id target data (mkDesc (sr_K row) (sr_M row) (sr_siblings row)) (sr_grant row) _ Hw) as Hp.
  destruct (putGrant _ _ _ _ _ _) as [w1 [?|e]]; [|by destruct e]. unfold confirmStored. cbn [rd_net].
  destruct nonce as [nonce|]; [|done]. pose proof (cu_probe _ Hc p id target (sr_id row) data nonce _ Hp) as Hq.
  destruct (Probe _ _ _ _ _) as [w2 [[]|]]; [|done..]. by destruct (release _ _ _) as [[??]?].
Qed.

Lemma shed_row_keeps p id rb target now nonce row rd : holds p id (rd_net rd) →
  holds p id (rd_net (shed_row node rb target now nonce row rd).1).
Proof.
  intros Hw. unfold shed_row. destruct (inCooldown _ _ _ _); [done|]. destruct (Get _ _); [|done].
  destruct (0 <? _); [|by apply place_keeps].
  pose proof (stripe_load_keeps p id target (sr_id row) (sr_M row) (sr_siblings row) 0 _ Hw) as Hl.
  destruct (peerStripeLoad _ _ _ _ _ _) as [w1 [held|]]; [|done]. destruct (_ <=? held); [done|]. by apply place_keeps.
Qed.

Lemma shed_row_somewhere id rb target now nonce row rd : is_id id → ok (rd_blobs rd) → somewhere holds id rd →
  ok (rd_blobs (shed_row node rb target now nonce row rd).1) ∧
  somewhere holds id (shed_row node rb target now nonce row rd).1.
Proof.
  intros Hid Hs Hw. pose proof (shed_row_effect rb target now nonce row rd Hs) as He.
  pose proof (λ p, shed_row_keeps p id rb target now nonce row rd) as Hk.
  destruct (shed_row _ _ _ _ _ _) as [rd' out]. cbn [fst] in *. unfold row_effect in He. unfold somewhere in *. destruct out.
  - destruct He as (-> & _). split; [done|]. naive_solver.
  - destruct He as (-> & _). split; [done|]. naive_solver.
  - destruct He as (data & Eg & _ & _ & -> & _ & _ & _ & [_ (w0 & w1 & i & nonce' & _ & Hp)]).
    split; [by apply (delete_ok (ok := ok))|].
    destruct Hw as [Hw|[p Hw]]; [|by right; eauto]. destruct (decide (id = sr_id row)) as [->|Hne].
    + right. exists target. by eapply cu_proof.
    + left. by rewrite (delete_get_other (ok := ok)).
Qed.

Lemma shed_somewhere id rb target now cn rand rows : ∀ i budget moved rd,
  is_id id → ok (rd_blobs rd) → somewhere holds id rd →
  ok (rd_blobs (shed node rb target now cn rand i rows budget moved rd).1) ∧
  somewhere holds id (shed node rb target now cn rand i rows budget moved rd).1.
Proof.
  induction rows as [|row rows IH]; intros i budget moved rd Hid Hs Hw; [done|]. cbn.
  destruct (cn i); [done|]. destruct (budget <=? 0); [done|].
  pose proof (shed_row_somewhere id rb target now (rand i) row rd Hid Hs Hw) as [Hs' Hw'].
  destruct (shed_row _ _ _ _ _ _) as [rd' []]; cbn in *; [by apply IH|done|by apply IH].
Qed.
End custody.
End facts.

(** *** An honest peer is a custodian *)

Section honest.
Context `{Hsha : Sha256} `{Hed : Ed25519} `{Har : Argon2} {S : Type} `{Hst : !Store S}.
Context (err_msg : net_err → bytes) (po : policy) (c : conn).
(** Storing a blob hides no other. *)
Context (Hput : ∀ id d (s : S), is_ok (Get id s) = true → is_ok (Get id (Put d s).1) = true).
Implicit Types (srv : Server S).

Definition stores (_ : bytes) (id : ShardID) srv : Prop := is_ok (Get id (sv_store srv)) = true.

Lemma announce_store id srv : sv_store (announce po id srv) = sv_store srv.
Proof. by destruct (announce_same po id srv) as [-> _]. Qed.

Lemma commit_put_store f owner g srv id :
  sv_store (commit_put err_msg po c f id owner g srv).1 = (Put (pf_data f) (sv_store srv)).1.
Proof.
  unfold commit_put. destruct (Put _ _) as [s [?|?]]; [|done]. cbn [set_store sv_ledger].
  destruct owner as [o|]; [|apply announce_store]. destruct (sv_ledger srv) as [l|]; [|apply announce_store].
  destruct (AddOwner _ _ _ _ _ _) as [l' [[]|]]; [|done..]. apply announce_store.
Qed.

Lemma handlePut_stores p id input srv : stores p id srv → stores p id (handlePut err_msg po c input srv).1.
Proof.
  unfold stores. intros Hs. unfold handlePut. destruct (negb _); [done|]. destruct (read_put input) as [[f rest]|]; [|done].
  destruct (grant_revoked _ _ _); [done|]. destruct (sv_ledger srv) as [l|]; [|by rewrite commit_put_store; apply Hput].
  destruct (authorize_put_same po c f (HashOf (pf_data f)) (put_grant c f (HashOf (pf_data f))) srv) as [Es _].
  destruct (authorize_put _ _ _ _ _ _) as [srv1 [o|]]; cbn [fst] in *; [|by rewrite Es].
  rewrite commit_put_store. apply Hput.
  destruct (record_move_same po c f (put_grant c f (HashOf (pf_data f))) srv1) as [-> _]. by rewrite Es.
Qed.

Lemma replyErr_refuses e : ∃ b x, replyErr err_msg e = Reply b ∧ readResp b = Err x.
Proof.
  unfold replyErr. destruct (errToStatus e) eqn:E; [by destruct e as [[]|[]| | | |]|..]; eexists.
  all: unfold readResp; cbn; eauto.
  rewrite decide_True by done. destruct (readBlob MaxShardSize (blob_bytes (err_msg e))) as [[msg r]|x] eqn:Er;
    eexists; (split; [reflexivity|]); cbn; rewrite Er; done.
Qed.

Lemma exchange_stores p id o ws srv : o = opPut ∨ o = opHas → stores p id srv →
  stores p id (exchange (node_peer err_msg po c) (on_shard (node_peer err_msg po c)) (Ok (writeByte (op_byte o)) :: ws) srv).1.
Proof.
  intros Ho Hs. unfold exchange. cbn [dials node_peer negb write_all on_shard]. destruct (write_all ws) as [rest e].
  assert (stores p id (handleShard err_msg po c (writeByte (op_byte o) ++ rest) srv).1) as Hh;
    [|destruct (handleShard _ _ _ _ _) as [srv' rep]; by destruct e].
  unfold handleShard. destruct (subnet_allow _ _ _) as [l []]; [|done]. cbn [negb writeByte app].
  unfold dispatch. cbn [readByte]. rewrite op_of_op_byte. destruct Ho as [-> | ->]; [by apply handlePut_stores|].
  unfold handleHas. destruct (readID rest) as [[??]|]; [|done]. by destruct (Has _ _).
Qed.

(** A node that runs the handlers, whatever it answers about its load. *)
Lemma honest_custody (on_balance : bytes → Server S → Server S * reply) :
  (∀ p srv, sv_store (on_balance p srv).1 = sv_store srv) →
  custody (λ _, node_peer err_msg po c) on_balance stores.
Proof.
  intros Hb. split.
  - intros t id want nonce w w' Hid. unfold Probe. case_decide as Hn; [done|]. unfold exchange.
    cbn [dials node_peer negb write_all on_probe]. unfold handleProbe.
    destruct (subnet_allow _ _ _) as [l []]; [|done]. cbn [negb]. rewrite app_nil_r.
    unfold readID, writeID, readNonce. rewrite readFull_app by done. cbn [mbind result_bind].
    rewrite readFull_all by done. cbn [mbind result_bind set_subnet sv_store].
    destruct (Get id (sv_store w)) as [d|e] eqn:E.
    + intros [<- _]%pair_eq. unfold stores. cbn. by rewrite E.
    + destruct (replyErr_refuses (NStore e)) as (b & x & -> & Ex). rewrite Ex. by intros [_ Hr]%pair_eq.
  - intros p id t x want nonce w Hw. unfold Probe. case_decide; [done|]. unfold exchange.
    cbn [dials node_peer negb write_all on_probe]. unfold handleProbe. destruct (subnet_allow _ _ _) as [l []]; [|done].
    cbn [negb]. destruct (_ ≫= _) as [[id' n']|]; [|done]. by destruct (Get id' _).
  - intros p id t x w Hw. unfold has.
    pose proof (exchange_stores p id opHas [Ok (writeID x)] w (or_intror eq_refl) Hw) as He.
    by destruct (exchange _ _ _ w).
  - intros p id t data d grant w Hw. unfold putGrant. destruct (map_err _ _) as [st|]; [|done]. unfold putRaw.
    match goal with |- context [exchange ?a ?b ?ws w] =>
      pose proof (exchange_stores p id opPut (tail ws) w (or_introl eq_refl) Hw) as He; cbn [tail] in He; by destruct (exchange a b ws w) end.
  - intros p id t w Hw. unfold stores. by rewrite Hb.
Qed.
End honest.

(** [C22] A rebalance round never loses a shard. Start from any node and any
    network whose peers can prove possession only of shards they have and do not
    discard shards on the requests a round makes. Whatever the round does (an
    interruption, an unreachable or refusing peer, a failed proof, a full move),
    every shard that was on this node or on some peer before is on this node or
    on some peer after. *)
Theorem rebalance_conserves `{Sha256, Ed25519, Json LoadReport} {W : Type} (node : bytes → Peer W)
    (on_balance : bytes → W → W * reply) {S : Type} `{!Store S} {ok : S → Prop} `{!StoreLaws S ok}
    {B : Type} `{!PeerBlocker B} (holds : bytes → ShardID → W → Prop) (rb : Rebalancer) (now : Z) (e : RoundEnv)
    (rd : Round (W := W) (S := S) (B := B)) (id : ShardID) :
  custody node on_balance holds → is_id id → ok (rd_blobs rd) → somewhere holds id rd →
  let rd' := (RunOnce node on_balance rb now e rd).1 in
  ok (rd_blobs rd') ∧ somewhere holds id rd'.
Proof.
  intros Hc Hid Hs Hw. unfold RunOnce. destruct (en_self e) as [rep|]; [|done]. destruct (_ <=? 0); [done|].
  pose proof (λ p, pick_keeps node on_balance holds Hc p id rb (en_peers e) (en_pick e) (rd_net rd)) as Hk.
  destruct (pickTarget _ _ _ _ _ _) as [w r].
  assert (somewhere holds id (mkRound (rd_blobs rd) (rd_led rd) w (rd_moved rd) (rd_abuse rd))) as Hw'.
  { destruct Hw as [Hw|[p Hw]]; [by left|right; exists p; by apply Hk]. }
  destruct r as [[[t tl]|]|]; [|done..]. destruct (_ <=? 0); [done|]. destruct (ColdShards _ _) as [rows|]; [|done].
  match goal with |- context [shed node rb t now ?cn ?rn 0 rows ?bu 0 ?r0] =>
    pose proof (shed_somewhere node on_balance holds Hc id rb t now cn rn rows 0 bu 0 r0 Hid Hs Hw') as Hf;
    destruct (shed node rb t now cn rn 0 rows bu 0 r0) as [rd' n] end.
  exact Hf.
Qed.

(** ** Bounds and accounting of a round *)

Lemma scan_rows_ids rows : ∀ out, scan_rows rows = Ok out → sr_id <$> out = rows.*1.
Proof.
  induction rows as [|[id r] rows IH]; intros out; cbn; [by intros [= <-]|].
  intros (row & Er & E)%bind_Ok. apply bind_Ok in E as (rest & Eo & [= <-]). cbn. rewrite (IH _ Eo). f_equal.
  unfold scanStripeRow in Er. repeat case_match; simplify_eq; done.
Qed.

Lemma omap_keys_NoDup {A C} (f : ShardID * A → option (ShardID * C)) (l : list (ShardID * A)) :
  (∀ x y, f x = Some y → y.1 = x.1) → NoDup l.*1 → NoDup (omap f l).*1.
Proof.
  intros Hf. induction l as [|x l IH]; cbn; [constructor|]. intros [Hx Hl]%NoDup_cons.
  destruct (f x) as [y|] eqn:E; [|by apply IH]. cbn. constructor; [|by apply IH].
  rewrite (Hf x y E). intros Hin. apply Hx. apply list_elem_of_fmap in Hin as (z & -> & Hz).
  apply list_elem_of_omap in Hz as (u & Hu & Eu). rewrite (Hf u z Eu). by apply list_elem_of_fmap_2.
Qed.

Lemma ColdShards_rows lim l rows : 0 < lim → ColdShards lim l = Ok rows →
  NoDup (sr_id <$> rows) ∧ Z.of_nat (length rows) ≤ lim.
Proof.
  intros Hlim. unfold ColdShards. rewrite (proj2 (Z.ltb_lt _ _)) by done.
  set (raw := omap _ _). set (srt := sort_by2 _ _ raw). intros E. pose proof (scan_rows_ids _ _ E) as Hi.
  assert (NoDup ((λ '(id, r, c), id) <$> raw)) as Hraw.
  { unfold raw. pose proof (omap_keys_NoDup (λ '(id, r), s ← shards l !! id; Some (id, (r, created s))) (map_to_list (stripes l))) as Hn.
    assert ((λ '(id, r, c), id) <$> omap (λ '(id, r), s ← shards l !! id; Some (id, r, created s)) (map_to_list (stripes l)) =
      (omap (λ '(id, r), s ← shards l !! id; Some (id, (r, created s))) (map_to_list (stripes l))).*1) as ->.
    { clear. induction (map_to_list (stripes l)) as [|[id r] m IH]; [done|]. cbn.
      destruct (shards l !! id); cbn; by rewrite ?IH. }
    apply Hn; [|apply NoDup_fst_map_to_list]. intros [id r] y. by intros (s & _ & [= <-])%bind_Some. }
  assert (sr_id <$> rows = take (Z.to_nat lim) ((λ '(id, r, c), id) <$> srt)) as ->.
  { rewrite Hi, <-fmap_take, <-list_fmap_compose. apply list_fmap_ext. by intros ? [[??]?]. }
  split.
  - assert (NoDup ((λ '(id, r, c), id) <$> srt)) as Hs.
    { unfold srt. by rewrite sort_by2_perm. }
    rewrite <-(take_drop (Z.to_nat lim)) in Hs. by apply NoDup_app in Hs as [? _].
  - rewrite <-(length_fmap sr_id rows), Hi, !length_fmap, length_take. lia.
Qed.

Section bounds.
Context `{Hsha : Sha256} `{Hed : Ed25519} {W : Type} (node : bytes → Peer W).
Context {S : Type} `{Hst : !Store S} {ok : S → Prop} `{Hlaws : !StoreLaws S ok} {B : Type} `{Hbl : !PeerBlocker B}.
Implicit Types (rd : Round (W := W) (S := S) (B := B)) (sent : list (ShardID * bytes)).

Definition sizes sent : Z := zsum (λ x, Z.of_nat (length x.2)) sent.

(** The shards a loop shipped, in order: each was here, out of cooldown, and is
    gone and locked out after; nothing else changed; the bytes of all but the
    last are within the budget; the ledger dropped their records. *)
Record shipped (rb : Rebalancer) (now budget : Z) rd rd' sent : Prop := {
  sh_sent : ∀ id d, (id, d) ∈ sent →
    Get id (rd_blobs rd) = Ok d ∧ inCooldown rb (rd_moved rd) id now = false ∧
    Get id (rd_blobs rd') = Err ErrNotFound ∧ rd_moved rd' !! id = Some now;
  sh_rest : ∀ id, id ∉ sent.*1 →
    Get id (rd_blobs rd') = Get id (rd_blobs rd) ∧ rd_moved rd' !! id = rd_moved rd !! id;
  sh_budget : ∀ xs x, sent = xs ++ [x] → sizes xs < budget;
  sh_ledger : rd_led rd' = foldl (λ l id, DropRecord id l) (rd_led rd) sent.*1;
  sh_backed : backed (rd_blobs rd) (rd_led rd) → backed (rd_blobs rd') (rd_led rd');
  sh_ok : ok (rd_blobs rd');
}.

Lemma shipped_none rb now budget rd rd' : ok (rd_blobs rd) →
  rd_blobs rd' = rd_blobs rd → rd_led rd' = rd_led rd → rd_moved rd' = rd_moved rd → shipped rb now budget rd rd' [].
Proof.
  intros Hs Eb El Em. split; rewrite ?Eb, ?El, ?Em; try done.
  - by intros id d ?%elem_of_nil.
  - intros xs x E. by destruct xs.
Qed.

Lemma shipped_skip rb now budget rd rd1 rd' sent :
  rd_blobs rd1 = rd_blobs rd → rd_led rd1 = rd_led rd → rd_moved rd1 = rd_moved rd →
  shipped rb now budget rd1 rd' sent → shipped rb now budget rd rd' sent.
Proof. intros Eb El Em [H1 H2 H3 H4 H5 H6]. rewrite Eb, El, Em in *. by split. Qed.

Lemma shipped_cons rb now budget rd rd1 rd' row data sent : ok (rd_blobs rd) → 0 < budget →
  Get (sr_id row) (rd_blobs rd) = Ok data → inCooldown rb (rd_moved rd) (sr_id row) now = false →
  rd_blobs rd1 = (Delete (sr_id row) (rd_blobs rd)).1 → rd_led rd1 = DropRecord (sr_id row) (rd_led rd) →
  rd_moved rd1 = <[sr_id row := now]> (rd_moved rd) → sr_id row ∉ sent.*1 →
  shipped rb now (budget - Z.of_nat (length data)) rd1 rd' sent → shipped rb now budget rd rd' ((sr_id row, data) :: sent).
Proof.
  intros Hs Hb Hg Hc Eb El Em Hn [H1 H2 H3 H4 H5 H6]. split.
  - intros id d [[= -> ->]|Hin]%elem_of_cons.
    + destruct (H2 _ Hn) as [Eg Em']. split_and!; [done..| |].
      * by rewrite Eg, Eb, (delete_get_same (ok := ok)).
      * by rewrite Em', Em, lookup_insert_eq.
    + assert (id ≠ sr_id row) as Hne by (intros ->; apply Hn; by apply (list_elem_of_fmap_2 fst _ (_, d))).
      destruct (H1 id d Hin) as (Eg & Ec & ? & ?). split_and!; [|..|done|done].
      * by rewrite Eb, (delete_get_other (ok := ok)) in Eg.
      * unfold inCooldown in *. by rewrite Em, lookup_insert_ne in Ec.
  - cbn. intros id [Hne Hid]%not_elem_of_cons. destruct (H2 id Hid) as [-> ->]. split.
    + by rewrite Eb, (delete_get_other (ok := ok)).
    + by rewrite Em, lookup_insert_ne.
  - intros [|y xs] x E; [by cbn|]. injection E as <- E. specialize (H3 _ _ E).
    change (sizes ((sr_id row, data) :: xs)) with (Z.of_nat (length data) + sizes xs). lia.
  - cbn. by rewrite H4, El.
  - intros Hbk. apply H5. rewrite Eb, El. by apply (backed_delete (ok := ok)).
  - done.
Qed.

Lemma shed_trace rb target now cn rand rows : NoDup (sr_id <$> rows) → ∀ i budget moved rd, ok (rd_blobs rd) →
  (∀ id d, Get id (rd_blobs rd) = Ok d → Z.of_nat (length d) < 2 ^ 63) → budget < 2 ^ 63 →
  let '(rd', n) := shed node rb target now cn rand i rows budget moved rd in
  ∃ sent, n = moved + Z.of_nat (length sent) ∧ sent.*1 `sublist_of` (sr_id <$> rows) ∧ shipped rb now budget rd rd' sent.
Proof.
  induction rows as [|row rows IH]; intros Hnd i budget moved rd Hs Hlen Hbud; cbn [shed].
  { exists []. split; [cbn; lia|]. split; [constructor|]. by apply shipped_none. }
  apply NoDup_cons in Hnd as [Hrow Hnd].
  assert (∀ rd', rd_blobs rd' = rd_blobs rd → rd_led rd' = rd_led rd → rd_moved rd' = rd_moved rd →
    ∃ sent, moved = moved + Z.of_nat (length sent) ∧ sent.*1 `sublist_of` (sr_id <$> row :: rows) ∧ shipped rb now budget rd rd' sent) as Hstop.
  { intros rd' ???. exists []. split; [cbn; lia|]. split; [apply sublist_nil_l|]. by apply shipped_none. }
  destruct (cn i); [by apply Hstop|]. destruct (Z.leb_spec budget 0); [by apply Hstop|].
  pose proof (shed_row_effect node rb target now (rand i) row rd Hs) as He.
  destruct (shed_row _ _ _ _ _ _) as [rd1 []]; cbn [row_effect] in He.
  - destruct He as (Eb & El & Em & _). specialize (IH Hnd (Datatypes.S i) budget moved rd1). rewrite Eb in IH.
    specialize (IH Hs Hlen Hbud). destruct (shed _ _ _ _ _ _ _ _ _ _ _) as [rd' n]. destruct IH as (sent & -> & Hsub & Hsh).
    exists sent. split_and!; [done|by constructor|by eapply shipped_skip].
  - destruct He as (Eb & El & Em & _). by apply Hstop.
  - destruct He as (data & Eg & -> & Ec & Eb & El & Em & _ & _). specialize (Hlen _ _ Eg) as Hd.
    rewrite i64_id by (unfold in_i64; lia).
    specialize (IH Hnd (Datatypes.S i) (budget - Z.of_nat (length data)) (moved + 1) rd1). rewrite Eb in IH.
    destruct (shed _ _ _ _ _ _ _ _ _ _ _) as [rd' n]. destruct IH as (sent & -> & Hsub & Hsh).
    + by apply (delete_ok (ok := ok)).
    + intros id d Hd'. destruct (decide (id = sr_id row)) as [->|Hne].
      * by rewrite (delete_get_same (ok := ok)) in Hd'.
      * rewrite (delete_get_other (ok := ok)) in Hd' by done. by eapply Hlen.
    + lia.
    + exists ((sr_id row, data) :: sent). split_and!; [cbn; lia|by apply sublist_skip|].
      eapply shipped_cons; try done. intros Hin. apply Hrow. by eapply elem_of_sublist.
Qed.
End bounds.

(** The shards [sent] in a round from [rd] to [rd'], on the loads and candidates
    it saw. *)
Record round_moved `{Sha256} {W S B : Type} `{!Store S} (rb : Rebalancer) (now : Z) (self : LoadReport) (cands : list bytes)
    (rd rd' : Round (W := W) (S := S) (B := B)) (sent : list (ShardID * bytes)) : Prop := {
  rm_count : Z.of_nat (length sent) ≤ 256;
  rm_ledger : rd_led rd' = foldl (λ l id, DropRecord id l) (rd_led rd) sent.*1;
  rm_sent : ∀ id d, (id, d) ∈ sent →
    Get id (rd_blobs rd) = Ok d ∧ inCooldown rb (rd_moved rd) id now = false ∧
    Get id (rd_blobs rd') = Err ErrNotFound ∧ rd_moved rd' !! id = Some now;
  rm_rest : ∀ id, id ∉ sent.*1 → Get id (rd_blobs rd') = Get id (rd_blobs rd);
  rm_budget : sent ≠ [] → ∃ target load, target ∈ cands ∧ target ≠ rb_ID rb ∧
    ∀ xs x, sent = xs ++ [x] → sizes xs < OffloadBytes (report_Load self) load (rb_threshold rb);
}.

Lemma round_moved_none `{Sha256} {W S B : Type} `{!Store S} rb now self cands (rd rd' : Round (W := W) (S := S) (B := B)) :
  rd_blobs rd' = rd_blobs rd → rd_led rd' = rd_led rd → round_moved rb now self cands rd rd' [].
Proof. intros Eb El. split; rewrite ?Eb, ?El; try done. by intros id d ?%elem_of_nil. Qed.

Lemma prune_cooldown rb now moved id : inCooldown rb (pruneCooldown rb now moved) id now = inCooldown rb moved id now.
Proof.
  unfold inCooldown, pruneCooldown. destruct (filter _ moved !! id) as [t|] eqn:E.
  - by apply map_lookup_filter_Some in E as [-> _].
  - destruct (moved !! id) as [t|] eqn:Em; [|done]. symmetry. apply Z.ltb_ge.
    apply map_lookup_filter_None in E as [E|E]; [congruence|]. specialize (E t Em). cbn in E. lia.
Qed.

Lemma sample_peers_in self n cs : ∀ acc p, p ∈ sample_peers self n cs acc → p ∈ acc ∨ (p ∈ cs ∧ p ≠ self).
Proof.
  induction cs as [|c cs IH]; intros acc p; cbn; [by left|]. case_decide.
  { intros [|[]]%IH; [by left|right; set_solver]. }
  destruct (_ <=? _); [|intros [|[]]%IH]; set_solver.
Qed.

Lemma best_peer_in `{Sha256, Ed25519, Json LoadReport} {W} (node : bytes → Peer W) on_balance cn ps : ∀ i best w t l,
  (best_peer node on_balance cn i ps best w).2 = Ok (Some (t, l)) → t ∈ ps ∨ best = Some (t, l).
Proof.
  induction ps as [|p ps IH]; intros i best w t l; cbn; [intros [= ->]; by right|]. destruct (cn i); [done|].
  destruct (QueryLoad _ _ p w) as [w1 [rep|]]; [|intros [?|?]%IH; [by left; right|by right]].
  intros [?|Hb]%IH; [by left; right|]. destruct best as [[q bl]|]; [|injection Hb as -> _; by left; left].
  destruct (F64.ltb _ _); [injection Hb as -> _; by left; left|by right].
Qed.

Lemma pick_target_candidate `{Sha256, Ed25519, Json LoadReport} {W} (node : bytes → Peer W) on_balance rb cands cn w t l :
  (pickTarget node on_balance rb (Ok cands) cn w).2 = Ok (Some (t, l)) → t ∈ cands ∧ t ≠ rb_ID rb.
Proof.
  unfold pickTarget. destruct (sample_peers _ _ _ _) as [|p ps] eqn:E; [done|].
  intros [Hin|?]%best_peer_in; [|done]. rewrite <-E in Hin.
  by apply sample_peers_in in Hin as [?%elem_of_nil|].
Qed.

Lemma offload_small self l th : in_i64 (UsedBytes self) → OffloadBytes (report_Load self) l th < 2 ^ 63.
Proof.
  unfold in_i64. intros Hu. unfold OffloadBytes. destruct (F64.leb _ _); [lia|]. cbn zeta.
  repeat match goal with |- context [if ?a <? ?b then _ else _] => destruct (Z.ltb_spec a b) end; cbn [ld_Used report_Load] in *; lia.
Qed.

(** What a rebalance round moves. A round that ends normally with [n]
    moves shipped [n] shards, at most 256, all stored here and none of them moved
    within the cooldown; each is gone from this node and locked out from now on,
    nothing else in the store or in the cooldown table (expired entries apart)
    changed, their records are dropped from the ledger, and the ledger still
    records only shards the store has. The bytes of all of them but the last are
    less than the imbalance the two loads allow, [OffloadBytes]; the target is a
    candidate other than this node. *)
Theorem rebalance_bounded `{Sha256, Ed25519, Json LoadReport} {W : Type} (node : bytes → Peer W)
    (on_balance : bytes → W → W * reply) {S : Type} `{!Store S} {ok : S → Prop} `{!StoreLaws S ok}
    {B : Type} `{!PeerBlocker B} (rb : Rebalancer) (now : Z) (e : RoundEnv) (self : LoadReport) (cands : list bytes)
    (rd : Round (W := W) (S := S) (B := B)) (n : Z) :
  en_self e = Ok self → en_peers e = Ok cands → in_i64 (UsedBytes self) →
  ok (rd_blobs rd) → backed (rd_blobs rd) (rd_led rd) →
  (∀ id d, Get id (rd_blobs rd) = Ok d → Z.of_nat (length d) < 2 ^ 63) →
  (RunOnce node on_balance rb now e rd).2 = Ok n →
  let rd' := (RunOnce node on_balance rb now e rd).1 in
  backed (rd_blobs rd') (rd_led rd') ∧
  ∃ sent, n = Z.of_nat (length sent) ∧ round_moved rb now self cands rd rd' sent.
Proof.
  intros Eself Epeers Hused Hs Hb Hlen. unfold RunOnce. rewrite Eself.
  destruct (_ <=? 0); [intros [= <-]; split; [done|]; exists []; split; [done|by apply round_moved_none]|].
  pose proof (pick_target_candidate node on_balance rb cands (en_pick e) (rd_net rd)) as Ht. rewrite <-Epeers in Ht.
  destruct (pickTarget _ _ _ _ _ _) as [w r]. 
  destruct r as [[[t tl]|]|]; [|intros [= <-]; split; [done|]; exists []; split; [done|by apply round_moved_none]|done].
  destruct (Z.leb_spec (OffloadBytes (report_Load self) tl (rb_threshold rb)) 0) as [|Hbud];
    [intros [= <-]; split; [done|]; exists []; split; [done|by apply round_moved_none]|].
  cbn [rd_led]. destruct (ColdShards coldShardScan (rd_led rd)) as [rows|] eqn:Ec; [|done].
  destruct (ColdShards_rows coldShardScan _ _ ltac:(done) Ec) as [Hnd Hrows].
  match goal with |- context [shed node rb t now ?cn ?rn 0 rows ?bu 0 ?r0] =>
    pose proof (shed_trace node rb t now cn rn rows Hnd 0 bu 0 r0 Hs Hlen (offload_small self tl (rb_threshold rb) Hused)) as Hf;
    destruct (shed node rb t now cn rn 0 rows bu 0 r0) as [rd' k] end.
  destruct Hf as (sent & -> & Hsub & [Q1 Q2 Q3 Q4 Q5 Q6]). cbn [fst snd rd_blobs rd_led rd_moved] in *. intros [= <-].
  split; [by apply Q5|]. exists sent.
  assert (length sent ≤ length rows)%nat as Hl by (rewrite <-(length_fmap fst sent), <-(length_fmap sr_id rows); by apply sublist_length).
  unfold coldShardScan in Hrows. split; [done|]. split; [lia|done|..].
  - intros id d Hin. destruct (Q1 id d Hin) as (? & Hcd & ? & ?). split_and!; try done.
    by rewrite prune_cooldown in Hcd.
  - intros id Hid. by destruct (Q2 id Hid).
  - intros _. exists t, tl. destruct (Ht t tl eq_refl). by split_and!.
Qed.

(** ** Claims do not move with a shard *)

Section claims.
Context `{Hsha : Sha256} `{Hed : Ed25519} `{Har : Argon2} {S : Type} `{Hst : !Store S}.
Context (err_msg : net_err → bytes) (po : policy) (c : conn).

Definition claims (srv : Server S) (id : ShardID) (o : bytes) : option OwnerRow :=
  match sv_ledger srv with Some l => owners l !! (id, o) | None => None end.

Lemma put_grant_owner f id d o : put_grant c f id = Some (d, o) → o = grant_pub (pf_grant f).
Proof.
  unfold put_grant. destruct (pf_stripe f) as [|sb st], (pf_grant f) as [|b g]; try done.
  destruct (UnmarshalDescriptor _) as [d'|]; [|done]. destruct (VerifyGrant _ _ _) as [o'|] eqn:Ev; [|done].
  destruct (Contains d' id); [|done]. intros [= <- <-]. unfold VerifyGrant in Ev.
  case_decide; [done|]. destruct (_ && _); [done|]. apply bind_Ok in Ev as (db & _ & Ev). by destruct (negb _); simplify_eq.
Qed.

Lemma commit_put_claims f id o g srv id' o' : o' ≠ o →
  claims (commit_put err_msg po c f id (Some o) g srv).1 id' o' = claims srv id' o'.
Proof.
  intros Hne. unfold claims, commit_put. destruct (Put _ _) as [s [?|?]]; [|done]. cbn [set_store sv_ledger].
  destruct (sv_ledger srv) as [l|] eqn:El;
    [|cbn [fst]; destruct (announce_same po id (set_store s srv)) as [_ ->]; cbn; by rewrite El].
  destruct (AddOwner _ _ _ _ _ _) as [l1 r] eqn:Ea.
  assert (owners l1 !! (id', o') = owners l !! (id', o')) as E1.
  { unfold AddOwner in Ea. destruct (owners l !! (id, o));
      [injection Ea as <- _; cbn; by rewrite lookup_insert_ne by (intros [= -> ->]; done)|].
    destruct (quota_refuses _ _ _ _ _); [by injection Ea as <- _|]. injection Ea as <- _.
    cbn. rewrite lookup_insert_ne by (intros [= -> ->]; done). by destruct (shards l !! id). }
  destruct r as [[]|]; cbn [fst set_ledger sv_ledger]; [|done..].
  match goal with |- context [announce po id ?x] => destruct (announce_same po id x) as [_ ->] end. cbn.
  destruct g as [[d ?]|]; [|done]. rewrite <-E1. unfold Ledger.PutStripe.
  destruct (pf_grant f); [done|]. by destruct (shards l1 !! id).
Qed.

Lemma handlePut_granted body f rest srv id o : read_put body = Ok (f, rest) → pf_token f = [] →
  o ≠ grant_pub (pf_grant f) → claims (handlePut err_msg po c body srv).1 id o = claims srv id o.
Proof.
  intros Er Et Ho. unfold handlePut. destruct (negb _); [done|]. rewrite Er. destruct (grant_revoked _ _ _); [done|].
  destruct (sv_ledger srv) as [l|] eqn:El.
  2:{ unfold claims, commit_put. rewrite El. destruct (Put _ _) as [s [?|?]]; cbn; [|by rewrite El].
      destruct (announce_same po (HashOf (pf_data f)) (set_store s srv)) as [_ ->]. cbn. by rewrite El. }
  unfold authorize_put. rewrite Et. destruct (put_grant c f (HashOf (pf_data f))) as [[d o']|] eqn:Eg; [|done].
  apply put_grant_owner in Eg as Eo. rewrite commit_put_claims by congruence.
  unfold claims. by destruct (record_move_same po c f (Some (d, o')) srv) as [_ ->].
Qed.
End claims.

(** A move forgets every claim but the grant issuer's. A shard claimed by
    several owners carries the repair grant of one of them. When it is shipped
    to an honest node, that node records a claim for the issuer of the grant
    only, and the source drops its record with all claims: an owner other than
    the issuer that had no claim on the target before has none on either node
    afterwards, and the issuer alone can then have the shard deleted. *)
Theorem move_forgets_other_owners `{Sha256, Ed25519, Argon2} {S S' : Type} `{!Store S, !Store S'} {ok : S → Prop} `{!StoreLaws S ok}
    {B : Type} `{!PeerBlocker B} (err_msg : net_err → bytes) (po : policy) (c : conn)
    (target : bytes) (now n : Z) (nonce : option bytes) (row : StripeRow) (data stripeBytes o : bytes)
    (rd rd' : Round (W := Server S') (S := S) (B := B)) :
  place (λ _, node_peer err_msg po c) target now nonce row data rd = (rd', Shipped n) →
  ok (rd_blobs rd) → wf (rd_led rd) → sv_subnet (rd_net rd) = None →
  MarshalBinary (mkDesc (sr_K row) (sr_M row) (sr_siblings row)) = Ok stripeBytes →
  put_fits (mkPut data [] stripeBytes (sr_grant row) ReasonRebalance) →
  o ≠ grant_pub (sr_grant row) →
  claims (rd_net rd) (sr_id row) o = None →
  owners (rd_led rd') !! (sr_id row, o) = None ∧ claims (rd_net rd') (sr_id row) o = None.
Proof.
  intros Hp Hs Hwf Hsub Em Hfit Ho Hcl.
  pose proof (place_effect (λ _, node_peer err_msg po c) target now nonce row data rd Hs) as He.
  rewrite Hp in He. destruct He as (_ & _ & El & _ & _ & w1 & id & nn & Eput & Eprobe). split.
  { rewrite El. destruct (owners (DropRecord _ _) !! _) as [r|] eqn:Er; [|done]. by apply drop_owners in Er as [_ []]. }
  assert (claims w1 (sr_id row) o = None) as Hw1.
  { unfold putGrant in Eput. rewrite Em in Eput. cbn [map_err] in Eput.
    destruct (putRaw_exchange err_msg po c _ (rd_net rd) Hfit Hsub) as (body & Er & Ex). cbn [pf_data pf_token pf_stripe pf_grant pf_reason] in Ex.
    rewrite Ex in Eput. rewrite <-Hcl, <-(handlePut_granted err_msg po c body _ [] (rd_net rd) (sr_id row) o Er eq_refl Ho).
    destruct (handlePut _ _ _ _ _) as [srv' rep]. by injection Eput as -> _. }
  unfold Probe, exchange in Eprobe. case_decide; [done|]. cbn [dials node_peer negb write_all on_probe] in Eprobe.
  unfold handleProbe in Eprobe. destruct (subnet_allow _ _ _) as [sl []]; cbn [negb] in Eprobe; [|by injection Eprobe as <- _].
  destruct (_ ≫= _) as [[id' n']|]; [|by injection Eprobe as <- _]. by destruct (Get id' _); injection Eprobe as <- _.
Qed.

(** Load reports survive the wire: what a node with a load source answers
    decodes to the report itself when its encoding fits the limit; with no
    source, or a failing one, the query fails with the source's error text. *)
Theorem load_report_roundtrip `{Sha256, Ed25519, Json LoadReport} {W : Type} (node : bytes → Peer W) (p : bytes) (w : W)
    (src : option LoadSource) :
  dials (node p) w = true →
  let q := QueryLoad node (λ _ w, (w, handleLoad src)) p w in
  q.1 = w ∧
  match src with
  | Some (Ok rep) =>
      json_ok rep → (∀ b, Marshal rep = Some b → Z.of_nat (length b) ≤ maxLoadReport) → q.2 = Ok rep
  | Some (Err msg) => Z.of_nat (length msg) ≤ MaxShardSize → q.2 = Err (BNet (CRemote msg))
  | None => q.2 = Err (BNet (CRemote (text "load reporting not enabled")))
  end.
Proof.
  intros Hd. cbn zeta. unfold QueryLoad, exchange. rewrite Hd. cbn [negb write_all].
  assert (∀ msg, Z.of_nat (length msg) ≤ MaxShardSize →
    ∃ b, reply_text msg = Reply b ∧ readResp b = Err (CRemote msg)) as Htext.
  { intros msg Hm. unfold reply_text, blob_bytes. destruct (writeBlob_total msg Hm) as [b Eb]. rewrite Eb.
    eexists. split; [done|]. unfold readResp. cbn. pose proof (blob_roundtrip MaxShardSize msg b [] Hm Eb) as Er.
    rewrite app_nil_r in Er. by rewrite Er. }
  unfold handleLoad. destruct src as [[rep|msg]|].
  - split; [done|]. intros Hok Hmax. destruct (json_roundtrip rep Hok) as (body & Em & Eu). rewrite Em.
    specialize (Hmax body Em). unfold maxLoadReport in Hmax. destruct (writeBlob_total body) as [b Eb]; [unfold MaxShardSize; lia|].
    unfold blob_bytes, replyOK. rewrite Eb. cbn [snd]. rewrite readResp_ok.
    pose proof (blob_roundtrip maxLoadReport body b [] Hmax Eb) as Er. rewrite app_nil_r in Er. by rewrite Er, Eu.
  - split; [done|]. intros Hm. destruct (Htext msg Hm) as (b & -> & Er). cbn. by rewrite Er.
  - destruct (Htext (text "load reporting not enabled")) as (b & -> & Er); [by vm_compute|]. cbn. by rewrite Er.
Qed.

(** ** Witnesses *)

Section examples.
#[local] Existing Instances pad_sha toy_ed toy_argon.
#[local] Instance LoadReport_ser : Ser LoadReport.
Proof.
  refine (ser_iso (λ r, (UsedBytes r, CapacityBytes r, Shards r)) (λ '(a, b, c), mkReport a b c) _). by intros [].
Defined.
#[local] Instance toy_load_json : Json LoadReport := ser_json LoadReport.

(** A shard of two owners with a grant of the first, on a full node; an empty
    honest peer. *)
Definition ex_sibling : ShardID := HashOf [Byte.x63].
Definition ex_desc : Descriptor := mkDesc 1 1 [ex_id; ex_sibling].
Definition ex_grant : bytes :=
  match BuildGrant (Some (replicate 8 Byte.x07)) ex_key ex_desc 0 with Ok g => g | Err _ => [] end.
Definition ex_other : bytes := Public [Byte.x0a].
Definition ex_led : Ledger :=
  (Ledger.PutStripe ex_id 1 1 [ex_id; ex_sibling] ex_grant
    (AddOwner (po_opts ex_policy) ex_id ex_other 2 (900 * Second)
      (AddOwner (po_opts ex_policy) ex_id ex_owner 2 (900 * Second) empty_ledger).1).1).1.
Definition ex_blobs : Mem.MemStore := (Mem.put ex_data Mem.NewMemStore).1.
Definition ex_round : Round (W := Server Mem.MemStore) (S := Mem.MemStore) (B := list (bytes * bytes)) :=
  mkRound ex_blobs ex_led ex_server ∅ None.
Definition ex_rb : Rebalancer := NewRebalancer [Byte.x02].
Definition ex_renv : RoundEnv :=
  mkEnv (Ok (mkReport 2 4 1)) (Ok [[Byte.x02]; [Byte.x01]]) (λ _, false) (λ _, false) (λ _, Some (replicate 32 Byte.x05)).
Definition ex_nodes (_ : bytes) : Peer (Server Mem.MemStore) := node_peer no_msg ex_policy (ex_conn (1000 * Second)).
Definition ex_loads (_ : bytes) (w : Server Mem.MemStore) : Server Mem.MemStore * reply :=
  (w, handleLoad (Some (Ok (mkReport 0 4 0)))).
Definition ex_run := RunOnce ex_nodes ex_loads ex_rb (1000 * Second) ex_renv ex_round.

Lemma ex_run_moves : ex_run.2 = Ok 1.
Proof. by vm_compute. Qed.

Lemma mem_put_keeps id d (s : Mem.MemStore) : is_ok (Get id s) = true → is_ok (Get id (Put d s).1) = true.
Proof.
  cbn. unfold Mem.get, Mem.put. destruct (Mem.blobs s !! HashOf d) eqn:E; [done|]. cbn.
  rewrite lookup_insert. by case_decide.
Qed.

Lemma ex_custody : custody ex_nodes ex_loads stores.
Proof. apply honest_custody; [exact mem_put_keeps|done]. Qed.

Lemma ex_blobs_wf : Mem.wf ex_blobs.
Proof. exact (proj2 (put_result (ok := Mem.wf) Mem.NewMemStore ex_data Mem.wf_new)). Qed.

Lemma ex_led_backed : backed ex_blobs ex_led.
Proof.
  apply backed_stripe.
  assert (backed ex_blobs (AddOwner (po_opts ex_policy) ex_id ex_owner 2 (900 * Second) empty_ledger).1) as H1.
  { refine (backed_claim (ok := Mem.wf) (po_opts ex_policy) Mem.NewMemStore empty_ledger ex_data ex_owner (900 * Second) _ _ _); [apply Mem.wf_new| |].
    - split; [apply wf_empty|]. intros id r. cbn. by rewrite lookup_empty.
    - intros d. cbn. unfold Mem.get. cbn. by rewrite lookup_empty. }
  assert ((Put ex_data ex_blobs).1 = ex_blobs) as E by by vm_compute. rewrite <-E at 1.
  refine (backed_claim (ok := Mem.wf) (po_opts ex_policy) ex_blobs _ ex_data ex_other (900 * Second) _ _ _); [apply ex_blobs_wf|exact H1|].
  intros d Hd. vm_compute in Hd. by injection Hd as <-.
Qed.

Lemma rebalance_conserves_witness : somewhere stores ex_id ex_round ∧ somewhere stores ex_id ex_run.1.
Proof.
  split; [left; by vm_compute|].
  apply (rebalance_conserves (ok := Mem.wf) ex_nodes ex_loads stores ex_rb (1000 * Second) ex_renv ex_round ex_id ex_custody eq_refl ex_blobs_wf).
  left. by vm_compute.
Defined.

Lemma rebalance_bounded_witness :
  ∃ sent, 1 = Z.of_nat (length sent) ∧ round_moved ex_rb (1000 * Second) (mkReport 2 4 1) [[Byte.x02]; [Byte.x01]] ex_round ex_run.1 sent.
Proof.
  apply (rebalance_bounded (ok := Mem.wf) ex_nodes ex_loads ex_rb (1000 * Second) ex_renv (mkReport 2 4 1) [[Byte.x02]; [Byte.x01]] ex_round 1).
  - reflexivity.
  - reflexivity.
  - vm_compute. split; [discriminate|reflexivity].
  - exact ex_blobs_wf.
  - exact ex_led_backed.
  - intros id d Hd. cbn in Hd. unfold ex_blobs, Mem.get, Mem.put in Hd. cbn in Hd. rewrite lookup_empty in Hd. cbn in Hd.
    rewrite lookup_insert in Hd. case_decide; [injection Hd as <-; reflexivity|]. by rewrite lookup_empty in Hd.
  - exact ex_run_moves.
Defined.

Definition ex_row : StripeRow := mkStripeRow ex_id 1 1 [ex_id; ex_sibling] ex_grant.
Definition ex_place := place ex_nodes [Byte.x01] (1000 * Second) (Some (replicate 32 Byte.x05)) ex_row ex_data ex_round.
Lemma ex_place_ships : ex_place.2 = Shipped 2.
Proof. by vm_compute. Qed.
Lemma ex_desc_bytes : ∃ b, MarshalBinary ex_desc = Ok b ∧ Z.of_nat (length b) ≤ maxStripeBlob.
Proof. eexists. split; [by vm_compute|by vm_compute]. Qed.

Lemma move_forgets_other_owners_witness :
  is_Some (owners (rd_led ex_round) !! (ex_id, ex_other)) ∧
  owners (rd_led ex_place.1) !! (ex_id, ex_other) = None ∧ claims (rd_net ex_place.1) ex_id ex_other = None.
Proof.
  split; [vm_compute; eauto|]. destruct ex_desc_bytes as (sb & Esb & Hsb).
  apply (move_forgets_other_owners (ok := Mem.wf) no_msg ex_policy (ex_conn (1000 * Second)) [Byte.x01] (1000 * Second) 2
    (Some (replicate 32 Byte.x05)) ex_row ex_data sb ex_other ex_round ex_place.1).
  - rewrite <-ex_place_ships. exact (surjective_pairing ex_place).
  - exact ex_blobs_wf.
  - exact (proj1 ex_led_backed).
  - reflexivity.
  - exact Esb.
  - split_and!; [by vm_compute|by vm_compute|exact Hsb|by vm_compute].
  - by vm_compute.
  - by vm_compute.
Defined.

Lemma load_report_roundtrip_witness :
  (QueryLoad ex_nodes (λ _ w, (w, handleLoad (Some (Ok (mkReport 0 4 0))))) [Byte.x01] ex_server).2 = Ok (mkReport 0 4 0).
Proof.
  apply (load_report_roundtrip ex_nodes [Byte.x01] ex_server (Some (Ok (mkReport 0 4 0))) eq_refl); [done|].
  intros b [= <-]. by vm_compute.
Defined.
End examples.
