(* ===== verification/NetStores.v ===== *)
(** * internal/net/dht.go (lookups), placement.go, repair.go: stores over the network

    The three stores a user or a repairing node works through: [DHTStore] reads
    from whoever the DHT lists, [PlacementStore] places new shards, [RepairStore]
    surveys a stripe and places regenerated shards under its grant. The DHT and
    the dialer are libp2p's: an [Overlay] says what their calls return in the
    network state [W]; the peers are the [Peer]s of [Client]. *)

From S2P Require Import Prelude GoLib Store Crypto Stripe Ledger RateLimit Wire Server Node Client.
From S2P Require Import Codec Placement Defense Rebalance.

Record Overlay (W : Type) := mkOverlay {
  ov_self : bytes;                                        (* h.ID() *)
  ov_peer : bytes → Peer W;
  ov_providers : ShardID → Z → W → W * list bytes;        (* FindProvidersAsync *)
  ov_peers : Z → W → W * option (list bytes);             (* discutil.FindPeers *)
  ov_connected : bytes → W → bool;                        (* Connectedness *)
  ov_connect : bytes → W → W * bool;                      (* Connect *)
  ov_balance : bytes → W → W * reply;                     (* the balance protocol *)
}.
Arguments mkOverlay {W} _ _ _ _ _ _ _. Arguments ov_self {W} _. Arguments ov_peer {W} _ _.
Arguments ov_providers {W} _ _ _ _. Arguments ov_peers {W} _ _ _. Arguments ov_connected {W} _ _ _.
Arguments ov_connect {W} _ _ _. Arguments ov_balance {W} _ _ _.

Inductive ns_err :=
| NSReadOnly
| NSNotFound                (* wraps store.ErrNotFound *)
| NSConnect (p : bytes)
| NSFindNodes
| NSNoNodes
| NSClient (e : client_err)
| NSNoFresh.                (* no fresh node accepted it *)

Definition defaultMaxProviders : Z := 20.

Section overlay.
Context `{Hsha : Sha256} `{Hed : Ed25519} {W : Type} (ov : Overlay W).
Implicit Types (w : W).

(** ** dht.go *)

Definition FindProviders (id : ShardID) (max : Z) w : W * list bytes :=
  let max := if max <=? 0 then 20 else max in
  let '(w, ps) := ov_providers ov id max w in
  (w, List.filter (λ p, negb (bool_decide (p = ov_self ov))) ps).

Definition FindNodes (limit : Z) w : W * result ns_err (list bytes) :=
  let limit := if limit <=? 0 then 20 else limit in
  let '(w, r) := ov_peers ov limit w in
  (w, match r with
      | None => Err NSFindNodes
      | Some ps => Ok (List.filter (λ p, negb (bool_decide (p = ov_self ov))) ps)
      end).

(** ** DHTStore *)

Definition ensureConnected (p : bytes) w : W * result ns_err unit :=
  if ov_connected ov p w then (w, Ok tt)
  else let '(w, ok) := ov_connect ov p w in (w, if ok then Ok tt else Err (NSConnect p)).

Definition dht_Put (data : bytes) : result ns_err ShardID := Err NSReadOnly.
Definition dht_Delete (id : ShardID) : result ns_err unit := Err NSReadOnly.

Fixpoint get_from (id : ShardID) (ps : list bytes) w : W * result ns_err bytes :=
  match ps with
  | [] => (w, Err NSNotFound)
  | p :: ps =>
      let '(w, c) := ensureConnected p w in
      match c with
      | Err _ => get_from id ps w
      | Ok _ =>
          let '(w, r) := get (ov_peer ov p) id w in
          match r with Ok data => (w, Ok data) | Err _ => get_from id ps w end
      end
  end.

Definition dht_Get (id : ShardID) w : W * result ns_err bytes :=
  let '(w, ps) := FindProviders id defaultMaxProviders w in get_from id ps w.

Fixpoint has_from (id : ShardID) (ps : list bytes) w : W * result ns_err bool :=
  match ps with
  | [] => (w, Ok false)
  | p :: ps =>
      let '(w, c) := ensureConnected p w in
      match c with
      | Err _ => has_from id ps w
      | Ok _ =>
          let '(w, r) := has (ov_peer ov p) id w in
          match r with Ok true => (w, Ok true) | _ => has_from id ps w end
      end
  end.

Definition dht_Has (id : ShardID) w : W * result ns_err bool :=
  let '(w, ps) := FindProviders id defaultMaxProviders w in has_from id ps w.

(** ** RepairStore *)

(** [local] is the node's own blob store, if any; [rs_next] the round-robin cursor. *)
Record RepairStore (S : Type) := mkRS {
  rs_local : option S; rs_desc : Descriptor; rs_grant : bytes; rs_verify : bool; rs_useProbe : bool; rs_next : nat }.
Arguments mkRS {S} _ _ _ _ _ _. Arguments rs_local {S} _. Arguments rs_desc {S} _. Arguments rs_grant {S} _.
Arguments rs_verify {S} _. Arguments rs_useProbe {S} _. Arguments rs_next {S} _.

Context {S : Type} `{Hst : !Store S}.

Definition NewRepairStore (local : option S) (d : Descriptor) (grant : bytes) : RepairStore S :=
  mkRS local d grant false false 0.
Definition SetVerifyPossession (v : bool) (r : RepairStore S) : RepairStore S :=
  mkRS (rs_local r) (rs_desc r) (rs_grant r) v (rs_useProbe r) (rs_next r).
Definition SetUseProbe (v : bool) (r : RepairStore S) : RepairStore S :=
  mkRS (rs_local r) (rs_desc r) (rs_grant r) (rs_verify r) v (rs_next r).
Definition rs_Delete (id : ShardID) : result ns_err unit := Err NSReadOnly.

(** [nonce] is what rand.Read gives. *)
Definition probeOne (id : ShardID) (data : bytes) (nonce : option bytes) w : W * bool :=
  let '(w, ps) := FindProviders id 1 w in
  match ps with
  | [] => (w, false)
  | p :: _ =>
      let '(w, c) := ensureConnected p w in
      match c, nonce with
      | Ok _, Some nonce =>
          let '(w, r) := Probe (ov_peer ov p) id data nonce w in
          (w, match r with Ok ok => ok | Err _ => false end)
      | _, _ => (w, false)
      end
  end.

Definition local_has (r : RepairStore S) (id : ShardID) : bool :=
  match rs_local r with
  | Some s => match Has id s with Ok ok => ok | Err _ => false end
  | None => false
  end.

(** Is the error one of store.ErrNotFound, store.ErrCorrupt? *)
Definition is_missing (e : ns_err) : bool :=
  match e with NSNotFound | NSClient CNotFound | NSClient CCorrupt => true | _ => false end.

Definition rs_Has (r : RepairStore S) (id : ShardID) (nonce : option bytes) w : W * result ns_err bool :=
  if local_has r id then (w, Ok true)
  else if rs_verify r then
    let '(w, g) := dht_Get id w in
    match g with
    | Err e => (w, if is_missing e then Ok false else Err e)
    | Ok data =>
        if rs_useProbe r then let '(w, ok) := probeOne id data nonce w in (w, Ok ok) else (w, Ok true)
    end
  else dht_Has id w.

Definition rs_Get (r : RepairStore S) (id : ShardID) w : W * result ns_err bytes :=
  match (match rs_local r with Some s => Get id s | None => Err ErrNotFound end) with
  | Ok data => (w, Ok data)
  | Err _ => dht_Get id w
  end.

(** The candidates from [fresh[(start+i) mod len]] on, each tried once. *)
Fixpoint try_fresh (r : RepairStore S) (data : bytes) (order : list bytes) w
    : W * result ns_err ShardID :=
  match order with
  | [] => (w, Err NSNoFresh)
  | p :: order =>
      let '(w, c) := ensureConnected p w in
      match c with
      | Err _ => try_fresh r data order w
      | Ok _ =>
          let '(w, x) := putGrant (ov_peer ov p) data (rs_desc r) (rs_grant r) ReasonRepair w in
          match x with
          | Err _ => try_fresh r data order w
          | Ok got => (w, Ok got)
          end
      end
  end.

Definition rotate_from (start : nat) (fresh : list bytes) : list bytes :=
  (λ i, default [] (fresh !! ((start + i) mod length fresh)%nat)) <$> seq 0 (length fresh).

Definition rs_Put (r : RepairStore S) (data : bytes) w : RepairStore S * W * result ns_err ShardID :=
  let id := HashOf data in
  let '(w, holders) := FindProviders id defaultMaxProviders w in
  let '(w, c) := FindNodes defaultMaxProviders w in
  match c with
  | Err e => (r, w, Err e)
  | Ok candidates =>
      let fresh := List.filter (λ p, negb (bool_decide (p ∈ holders))) candidates in
      match fresh with
      | [] => (r, w, Ok id)
      | _ =>
          let start := rs_next r in
          let r := mkRS (rs_local r) (rs_desc r) (rs_grant r) (rs_verify r) (rs_useProbe r) (Datatypes.S (rs_next r)) in
          let '(w, x) := try_fresh r data (rotate_from start fresh) w in (r, w, x)
      end
  end.
End overlay.
Arguments mkRS {S} _ _ _ _ _ _. Arguments rs_local {S} _. Arguments rs_desc {S} _. Arguments rs_grant {S} _.
Arguments rs_verify {S} _. Arguments rs_useProbe {S} _. Arguments rs_next {S} _.

(** ** PlacementStore *)

(** The two selectors of package placement a store runs with. *)
Inductive selector := SelRoundRobin (r : RR.RoundRobin) | SelWeighted (w : WRR.Weighted).
Definition sel_Pick (cand : list Node) (s : selector) : selector * result placement_err NodeID :=
  match s with
  | SelRoundRobin r => let '(r, x) := Pick cand r in (SelRoundRobin r, x)
  | SelWeighted w => let '(w, x) := Pick cand w in (SelWeighted w, x)
  end.

Record PlacementStore := mkPS {
  ps_nodes : list bytes; ps_signer : bytes; ps_grantExpiry : Z; ps_sel : selector; ps_cand : list Node;
  ps_byNodeID : gmap NodeID bytes; ps_capacityUnit : Z }.

Section placement.
Context `{Hsha : Sha256} `{Hed : Ed25519} `{Hpt : PeerText} `{Hj : Json LoadReport} {W : Type} (ov : Overlay W).

Definition node_id (p : bytes) : NodeID := bytes_key (peer_String p).

Definition index_nodes (m : gmap NodeID bytes) (nodes : list bytes) : gmap NodeID bytes :=
  foldl (λ m p, <[node_id p := p]> m) m nodes.

Definition NewPlacementStore (nodes : list bytes) (signer : bytes) : result ns_err PlacementStore :=
  match nodes with
  | [] => Err NSNoNodes
  | _ => Ok (mkPS nodes signer 0 (SelRoundRobin RR.NewRoundRobin)
               ((λ p, mkNode (node_id p) "" 0 0 false) <$> nodes)
               (index_nodes ∅ nodes) 0)
  end.

Definition SetSelector (s : selector) (p : PlacementStore) : PlacementStore :=
  mkPS (ps_nodes p) (ps_signer p) (ps_grantExpiry p) s (ps_cand p) (ps_byNodeID p) (ps_capacityUnit p).
Definition with_cand (c : list Node) (p : PlacementStore) : PlacementStore :=
  mkPS (ps_nodes p) (ps_signer p) (ps_grantExpiry p) (ps_sel p) c (ps_byNodeID p) (ps_capacityUnit p).
Definition set_free (n : Node) (f : Z) : Node := mkNode (nd_ID n) (nd_Domain n) f (nd_Weight n) (nd_Down n).

Definition UpdateCapacities (free : gmap NodeID Z) (p : PlacementStore) : PlacementStore :=
  with_cand ((λ n, match free !! nd_ID n with Some f => set_free n f | None => n end) <$> ps_cand p) p.

Fixpoint fetch_loop (byNodeID : gmap NodeID bytes) (cand : list Node) (w : W) : W * list Node :=
  match cand with
  | [] => (w, [])
  | n :: cand =>
      let pid := default [] (byNodeID !! nd_ID n) in
      let '(w, r) := QueryLoad (ov_peer ov) (ov_balance ov) pid w in
      let n := match r with Ok lr => set_free n (FreeBytes lr) | Err _ => n end in
      let '(w, cand) := fetch_loop byNodeID cand w in (w, n :: cand)
  end.
Definition FetchAndUpdateCapacities (p : PlacementStore) (w : W) : W * PlacementStore :=
  let '(w, cand) := fetch_loop (ps_byNodeID p) (ps_cand p) w in (w, with_cand cand p).

Definition SetCapacityWeighted (unitBytes : Z) (p : PlacementStore) : PlacementStore :=
  if unitBytes <=? 0 then p
  else mkPS (ps_nodes p) (ps_signer p) (ps_grantExpiry p) (SelWeighted WRR.NewWeighted) (ps_cand p) (ps_byNodeID p) unitBytes.
Definition SetGrantExpiry (ts : Z) (p : PlacementStore) : PlacementStore :=
  mkPS (ps_nodes p) (ps_signer p) ts (ps_sel p) (ps_cand p) (ps_byNodeID p) (ps_capacityUnit p).

Definition nextTarget (p : PlacementStore) : PlacementStore * bytes :=
  let cand := if 0 <? ps_capacityUnit p then WeightByFree (ps_cand p) (ps_capacityUnit p) else ps_cand p in
  let '(s, r) := sel_Pick cand (ps_sel p) in
  (SetSelector s p,
   match r with
   | Err _ => default [] (head (ps_nodes p))
   | Ok nid => default [] (ps_byNodeID p !! nid)
   end).

Definition signedTo (p : PlacementStore) (target : bytes) : NetStore :=
  mkNet target (Some (ps_signer p)) (ps_grantExpiry p).

Definition ps_Put (p : PlacementStore) (clk : Z) (data : bytes) (w : W) : PlacementStore * W * result client_err ShardID :=
  let '(p, target) := nextTarget p in
  let '(w, r) := put (ov_peer ov target) (signedTo p target) clk data w in (p, w, r).

Definition ps_PutStripe (p : PlacementStore) (clk : Z) (nonce : option bytes) (data : bytes) (d : Descriptor) (w : W)
    : PlacementStore * W * result client_err ShardID :=
  let '(p, target) := nextTarget p in
  let '(w, r) := Client.PutStripe (ov_peer ov target) (signedTo p target) clk nonce data d w in (p, w, r).

Fixpoint delete_from (p : PlacementStore) (clk : Z) (id : ShardID) (ps : list bytes) (deleted : bool) (last : option ns_err) (w : W)
    : W * result ns_err unit :=
  match ps with
  | [] => (w, if deleted then Ok tt else match last with Some e => Err e | None => Err NSNotFound end)
  | q :: ps =>
      let '(w, c) := ensureConnected ov q w in
      match c with
      | Err e => delete_from p clk id ps deleted (Some e) w
      | Ok _ =>
          let '(w, r) := Client.delete (ov_peer ov q) (NewNetStoreSigned q (ps_signer p)) clk id w in
          match r with
          | Err e => delete_from p clk id ps deleted (Some (NSClient e)) w
          | Ok _ => delete_from p clk id ps true last w
          end
      end
  end.

Definition ps_Delete (p : PlacementStore) (clk : Z) (id : ShardID) (w : W) : W * result ns_err unit :=
  let '(w, ps) := FindProviders ov id defaultMaxProviders w in
  match ps with
  | [] => (w, Err NSNotFound)
  | _ => delete_from p clk id ps false None w
  end.
End placement.

(** ** Lemmas *)

Section facts.
Context `{Hsha : Sha256} `{Hed : Ed25519} {W : Type} (ov : Overlay W).
Implicit Types (w : W).

Lemma net_get_sound (p : Peer W) id w d : (get p id w).2 = Ok d → HashOf d = id.
Proof.
  unfold get. destruct (exchange _ _ _ _) as [w' r]. cbn [snd]. intros E.
  apply bind_Ok in E as (s & _ & E). apply bind_Ok in E as ([x s'] & _ & E). destruct (decide _); [|done].
  by apply (inj Ok) in E as <-.
Qed.

Lemma put_grant_sound (p : Peer W) data d g reason w id : (putGrant p data d g reason w).2 = Ok id → id = HashOf data.
Proof.
  unfold putGrant, putRaw. destruct (map_err _ _); [|done]. destruct (exchange _ _ _ _) as [w' r]. cbn [snd]. intros E.
  apply bind_Ok in E as (s & _ & E). apply bind_Ok in E as ([i s'] & _ & E). destruct (decide _); [|done].
  by apply (inj Ok) in E as <-.
Qed.

(** A peer that can be reached whatever happened before. *)
Definition reachable (p : bytes) : Prop := ∀ w, ov_connected ov p w = true ∨ (ov_connect ov p w).2 = true.

Lemma reachable_connects p w : reachable p → (ensureConnected ov p w).2 = Ok tt.
Proof.
  intros Hr. unfold ensureConnected. destruct (Hr w) as [-> | Hc]; [done|].
  destruct (ov_connected ov p w); [done|]. destruct (ov_connect ov p w) as [w' c]. cbn in Hc. by subst c.
Qed.

Lemma FindProviders_self id max w : ov_self ov ∉ (FindProviders ov id max w).2.
Proof.
  unfold FindProviders. destruct (ov_providers _ _ _ _) as [w' ps]. cbn. intros Hin.
  apply list_elem_of_In, filter_In in Hin as [_ Hin]. by rewrite bool_decide_true in Hin.
Qed.

Lemma get_from_spec id ps : ∀ w,
  match (get_from ov id ps w).2 with
  | Ok d => ∃ p w', p ∈ ps ∧ (get (ov_peer ov p) id w').2 = Ok d
  | Err e => e = NSNotFound
  end.
Proof.
  induction ps as [|p ps IH]; intros w; cbn; [done|].
  destruct (ensureConnected ov p w) as [w1 [[]|e]].
  - destruct (get (ov_peer ov p) id w1) as [w2 [d|e]] eqn:E; cbn; [exists p, w1; split; [left|by rewrite E]|].
    specialize (IH w2). destruct (get_from ov id ps w2) as [w3 [d|]]; cbn in *; [|done].
    destruct IH as (q & w' & Hq & Hg). exists q, w'. split; [by right|done].
  - specialize (IH w1). destruct (get_from ov id ps w1) as [w3 [d|]]; cbn in *; [|done].
    destruct IH as (q & w' & Hq & Hg). exists q, w'. split; [by right|done].
Qed.

Lemma get_from_found id ps p : p ∈ ps → reachable p → (∀ w, is_ok (get (ov_peer ov p) id w).2 = true) →
  ∀ w, is_ok (get_from ov id ps w).2 = true.
Proof.
  intros Hin Hr Hg. induction ps as [|q ps IH]; intros w; [by apply elem_of_nil in Hin|]. cbn.
  apply elem_of_cons in Hin as [<-|Hin].
  - pose proof (reachable_connects p w Hr) as Hc. destruct (ensureConnected ov p w) as [w1 r]. cbn in Hc. subst r.
    specialize (Hg w1). by destruct (get (ov_peer ov p) id w1) as [w2 [d|]].
  - specialize (IH Hin). destruct (ensureConnected ov q w) as [w1 [[]|]]; [|done].
    by destruct (get (ov_peer ov q) id w1) as [w2 [d|]].
Qed.
End facts.

(** Reads through the DHT. Whatever the DHT lists and the peers answer, a
    Get that succeeds returns bytes that hash to the address, fetched from a
    listed provider other than this host; a Get that fails says "not found",
    which the decoder counts as one lost shard; and a single listed provider that
    can be reached and serves the shard is enough, whatever the others do. *)
Theorem dht_get_correct `{Sha256, Ed25519} {W : Type} (ov : Overlay W) (id : ShardID) (w : W) :
  (∀ d, (dht_Get ov id w).2 = Ok d →
     HashOf d = id ∧ ∃ p w', p ∈ (FindProviders ov id defaultMaxProviders w).2 ∧ p ≠ ov_self ov ∧
       (get (ov_peer ov p) id w').2 = Ok d) ∧
  (∀ e, (dht_Get ov id w).2 = Err e → e = NSNotFound) ∧
  (∀ p, p ∈ (FindProviders ov id defaultMaxProviders w).2 → reachable ov p →
     (∀ w', is_ok (get (ov_peer ov p) id w').2 = true) → is_ok (dht_Get ov id w).2 = true).
Proof.
  unfold dht_Get. pose proof (FindProviders_self ov id defaultMaxProviders w) as Hself.
  destruct (FindProviders ov id defaultMaxProviders w) as [w1 ps]. cbn [snd] in *.
  pose proof (get_from_spec ov id ps w1) as Hs. split_and!.
  - intros d E. rewrite E in Hs. destruct Hs as (p & w' & Hp & Hg). split; [by eapply net_get_sound|].
    exists p, w'. split_and!; [done| |done]. by intros ->.
  - intros e E. by rewrite E in Hs.
  - intros p Hp Hr Hg. by eapply get_from_found.
Qed.

(** Survival checks never say "inconclusive". Whatever the network does, a
    repairing node's Has of a shard answers yes or no: an unreachable provider, a
    failed lookup, an interrupted call and a failed challenge all count as
    missing. With verification on, yes means that this node has the shard or that
    a provider just served bytes that hash to its address. *)
Theorem repair_has_decides `{Sha256, Ed25519} {W S : Type} `{!Store S} (ov : Overlay W) (r : RepairStore S) (id : ShardID)
    (nonce : option bytes) (w : W) :
  (∃ b, (rs_Has ov r id nonce w).2 = Ok b) ∧
  (rs_verify r = true → (rs_Has ov r id nonce w).2 = Ok true →
     local_has r id = true ∨
     ∃ p w' d, p ∈ (FindProviders ov id defaultMaxProviders w).2 ∧ (get (ov_peer ov p) id w').2 = Ok d ∧ HashOf d = id) ∧
  (rs_verify r = true → local_has r id = false →
     (∀ p w', (ensureConnected ov p w').2 ≠ Ok tt) → (rs_Has ov r id nonce w).2 = Ok false).
Proof.
  unfold rs_Has. destruct (local_has r id); [split_and!; eauto; done|].
  unfold dht_Get, dht_Has. destruct (FindProviders ov id defaultMaxProviders w) as [w1 ps]. cbn [snd].
  pose proof (get_from_spec ov id ps w1) as Hs. destruct (rs_verify r).
  - destruct (get_from ov id ps w1) as [w2 [d|e]] eqn:Eg; cbn [snd] in Hs.
    + destruct Hs as (p & w' & Hp & Hg). split_and!.
      * destruct (rs_useProbe r); [|by eauto]. destruct (probeOne _ _ _ _ _) as [w3 b]. by exists b.
      * intros _ _. right. exists p, w', d. split_and!; [done..|by eapply net_get_sound].
      * intros _ _ Hno. exfalso. assert (∀ w, (get_from ov id ps w).2 = Err NSNotFound) as Hn; [|specialize (Hn w1); by rewrite Eg in Hn].
        clear -Hno. induction ps as [|q ps IH]; intros w; [done|]. cbn. specialize (Hno q w).
        destruct (ensureConnected ov q w) as [w2 [[]|]]; [done|apply IH].
    + subst e. cbn. by split_and!; eauto.
  - split_and!; [|done..]. clear. revert w1. induction ps as [|p ps IH]; intros w1; cbn; [by eauto|].
    destruct (ensureConnected ov p w1) as [w2 [[]|]]; [|apply IH].
    destruct (has (ov_peer ov p) id w2) as [w3 [[]|]]; [by eauto|apply IH..].
Qed.

(** ** Placing a regenerated shard *)

Lemma elem_of_rotate_from start fresh p : p ∈ rotate_from start fresh ↔ p ∈ fresh.
Proof.
  unfold rotate_from. rewrite list_elem_of_fmap. split.
  - intros (i & -> & Hi). apply elem_of_seq in Hi.
    destruct (lookup_lt_is_Some_2 fresh ((start + i) mod length fresh)%nat) as [x Hx]; [apply Nat.mod_upper_bound; lia|].
    rewrite Hx. by eapply list_elem_of_lookup_2.
  - intros [j Hj]%list_elem_of_lookup_1. pose proof (lookup_lt_Some _ _ _ Hj) as Hl.
    set (n := length fresh) in *. set (s := (start mod n)%nat).
    pose proof (Nat.div_mod_eq start n) as Es. pose proof (Nat.mod_upper_bound start n ltac:(lia)) as Hs. fold s in Es, Hs.
    exists (if decide (s ≤ j)%nat then (j - s)%nat else (j + n - s)%nat).
    assert (((start + (if decide (s ≤ j)%nat then j - s else j + n - s)) mod n)%nat = j) as ->.
    { case_decide.
      - replace (start + (j - s))%nat with (j + (start / n) * n)%nat by lia. rewrite Nat.Div0.mod_add. by apply Nat.mod_small.
      - replace (start + (j + n - s))%nat with (j + (start / n + 1) * n)%nat by lia. rewrite Nat.Div0.mod_add. by apply Nat.mod_small. }
    rewrite Hj. split; [done|]. apply elem_of_seq. case_decide; lia.
Qed.

Section repair_put.
Context `{Hsha : Sha256} `{Hed : Ed25519} {W S : Type} `{Hst : !Store S} (ov : Overlay W).

Lemma try_fresh_spec (r : RepairStore S) data order : ∀ w,
  match (try_fresh ov r data order w).2 with
  | Ok id => id = HashOf data ∧
      ∃ p w', p ∈ order ∧ (putGrant (ov_peer ov p) data (rs_desc r) (rs_grant r) ReasonRepair w').2 = Ok id
  | Err e => e = NSNoFresh
  end.
Proof.
  induction order as [|p order IH]; intros w; cbn; [done|].
  destruct (ensureConnected ov p w) as [w1 [[]|e]].
  - destruct (putGrant _ _ _ _ _ w1) as [w2 [id|e]] eqn:E; cbn.
    + split; [eapply put_grant_sound; by rewrite E|]. exists p, w1. split; [left|by rewrite E].
    + specialize (IH w2). destruct (try_fresh ov r data order w2) as [w3 [d|]]; cbn in *; [|done].
      destruct IH as (-> & q & w' & Hq & Hg). split; [done|]. exists q, w'. split; [by right|done].
  - specialize (IH w1). destruct (try_fresh ov r data order w1) as [w3 [d|]]; cbn in *; [|done].
    destruct IH as (-> & q & w' & Hq & Hg). split; [done|]. exists q, w'. split; [by right|done].
Qed.

Lemma try_fresh_found (r : RepairStore S) data order p : p ∈ order → reachable ov p →
  (∀ w, is_ok (putGrant (ov_peer ov p) data (rs_desc r) (rs_grant r) ReasonRepair w).2 = true) →
  ∀ w, is_ok (try_fresh ov r data order w).2 = true.
Proof.
  intros Hin Hr Hg. induction order as [|q order IH]; intros w; [by apply elem_of_nil in Hin|]. cbn.
  apply elem_of_cons in Hin as [<-|Hin].
  - pose proof (reachable_connects ov p w Hr) as Hc. destruct (ensureConnected ov p w) as [w1 x]. cbn in Hc. subst x.
    specialize (Hg w1). by destruct (putGrant _ _ _ _ _ w1) as [w2 [d|]].
  - specialize (IH Hin). destruct (ensureConnected ov q w) as [w1 [[]|]]; [|done].
    by destruct (putGrant _ _ _ _ _ w1) as [w2 [d|]].
Qed.

(** The nodes a regenerated shard may go to: discovered and not listed as
    providers. *)
Definition fresh_nodes (id : ShardID) (w : W) : result ns_err (list bytes) :=
  let '(w1, holders) := FindProviders ov id defaultMaxProviders w in
  match (FindNodes ov defaultMaxProviders w1).2 with
  | Err e => Err e
  | Ok cs => Ok (List.filter (λ p, negb (bool_decide (p ∈ holders))) cs)
  end.
End repair_put.

(** Placing a regenerated shard. Put ends in one of these ways: the node
    list cannot be had; no discovered node is fresh and it reports success,
    having sent nothing; a fresh node accepted the shard under the stripe's
    grant and the address returned is its hash; or every fresh node was
    unreachable or refused. One reachable, willing fresh node is enough, from any
    position of the round-robin cursor. *)
Theorem repair_put_outcomes `{Sha256, Ed25519} {W S : Type} `{!Store S} (ov : Overlay W) (r : RepairStore S) (data : bytes) (w : W) :
  let '(r', w', x) := rs_Put ov r data w in
  match fresh_nodes ov (HashOf data) w with
  | Err e => x = Err e ∧ r' = r
  | Ok [] => x = Ok (HashOf data) ∧ r' = r
  | Ok fresh =>
      rs_next r' = Datatypes.S (rs_next r) ∧
      match x with
      | Ok id => id = HashOf data ∧ ∃ p w1, p ∈ fresh ∧
          (putGrant (ov_peer ov p) data (rs_desc r) (rs_grant r) ReasonRepair w1).2 = Ok id
      | Err e => e = NSNoFresh ∧ ∀ p, p ∈ fresh → reachable ov p →
          ¬ ∀ w1, is_ok (putGrant (ov_peer ov p) data (rs_desc r) (rs_grant r) ReasonRepair w1).2 = true
      end
  end.
Proof.
  unfold rs_Put, fresh_nodes. destruct (FindProviders ov (HashOf data) defaultMaxProviders w) as [w1 holders].
  destruct (FindNodes ov defaultMaxProviders w1) as [w2 [cs|e]]; cbn [snd]; [|done].
  destruct (List.filter _ cs) as [|f fs] eqn:Ef; [done|]. set (fresh := f :: fs).
  set (r1 := mkRS _ _ _ _ _ _). pose proof (try_fresh_spec ov r1 data (rotate_from (rs_next r) fresh) w2) as Hs.
  pose proof (λ p Hp Hr Hg, try_fresh_found ov r1 data (rotate_from (rs_next r) fresh) p Hp Hr Hg w2) as Hf.
  destruct (try_fresh _ _ _ _ _) as [w3 [id|e]]; cbn [snd] in *; (split; [done|]).
  - destruct Hs as (-> & p & w' & Hp & Hg). split; [done|]. exists p, w'. split; [by apply elem_of_rotate_from in Hp|done].
  - split; [done|]. intros p Hp Hr Hall. apply elem_of_rotate_from with (start := rs_next r) in Hp.
    by specialize (Hf p Hp Hr Hall).
Qed.

(** Repair can succeed without repairing. Let lookups leave the network as
    it is, and let every discovered node be listed as a provider of a shard while
    the survival check finds it missing (stale records, or providers that do not
    have it). Then Put of the regenerated shard reports success, nothing changes
    anywhere, and the next survival check finds the shard missing again. *)
Theorem repair_put_trusts_records `{Sha256, Ed25519} {W S : Type} `{!Store S} (ov : Overlay W) (r : RepairStore S) (data : bytes)
    (nonce : option bytes) (w : W) (cs : list bytes) :
  (∀ id max w', (ov_providers ov id max w').1 = w') → (∀ max w', (ov_peers ov max w').1 = w') →
  (FindNodes ov defaultMaxProviders w).2 = Ok cs →
  (∀ p, p ∈ cs → p ∈ (FindProviders ov (HashOf data) defaultMaxProviders w).2) →
  (rs_Has ov r (HashOf data) nonce w).2 = Ok false →
  rs_Put ov r data w = (r, w, Ok (HashOf data)) ∧
  let '(r', w', _) := rs_Put ov r data w in (rs_Has ov r' (HashOf data) nonce w').2 = Ok false.
Proof.
  intros Hpr Hpe Ec Hsub Hm.
  assert (rs_Put ov r data w = (r, w, Ok (HashOf data))) as E; [|by rewrite E].
  unfold rs_Put. assert ((FindProviders ov (HashOf data) defaultMaxProviders w).1 = w) as Ew.
  { unfold FindProviders. specialize (Hpr (HashOf data) defaultMaxProviders w). cbn -[ov_providers] in *. by destruct (ov_providers ov _ _ w). }
  assert ((FindNodes ov defaultMaxProviders w).1 = w) as Ew2.
  { unfold FindNodes. specialize (Hpe defaultMaxProviders w). cbn -[ov_peers] in *. by destruct (ov_peers ov _ w). }
  destruct (FindProviders ov (HashOf data) defaultMaxProviders w) as [w1 holders]. cbn in Ew, Hsub. subst w1.
  destruct (FindNodes ov defaultMaxProviders w) as [w2 c]. cbn in Ec, Ew2. subst c w2.
  assert (List.filter (λ p, negb (bool_decide (p ∈ holders))) cs = []) as ->; [|done].
  induction cs as [|p cs IH]; [done|]. cbn. rewrite bool_decide_true by (apply Hsub; left). cbn. apply IH. intros q Hq. apply Hsub. by right.
Qed.

(** ** Placement *)

Section targets.
Context `{Hpt : PeerText}.

Fixpoint targets (n : nat) (p : PlacementStore) : list bytes :=
  match n with
  | O => []
  | S n => let '(p, t) := nextTarget p in t :: targets n p
  end.

(** A store over [nodes] with the default policy. *)
Record fresh_store (nodes : list bytes) (p : PlacementStore) : Prop := {
  fs_nodes : ps_nodes p = nodes;
  fs_cand : ps_cand p = (λ q, mkNode (node_id q) "" 0 0 false) <$> nodes;
  fs_map : ∀ q, q ∈ nodes → ps_byNodeID p !! node_id q = Some q;
  fs_unit : ps_capacityUnit p = 0;
}.

Lemma node_id_inj p q : valid_peer p → valid_peer q → node_id p = node_id q → p = q.
Proof.
  intros Hp Hq E. unfold node_id, bytes_key in E. apply (f_equal String.list_byte_of_string) in E.
  rewrite !String.list_byte_of_string_of_list_byte in E.
  pose proof (peer_roundtrip p Hp) as E1. rewrite E, (peer_roundtrip q Hq) in E1. by injection E1.
Qed.

Lemma by_node_id nodes : NoDup nodes → Forall valid_peer nodes →
  ∀ q, q ∈ nodes → index_nodes ∅ nodes !! node_id q = Some q.
Proof.
  intros Hnd Hv. assert (∀ m q, (q ∈ nodes → index_nodes m nodes !! node_id q = Some q) ∧
    (valid_peer q → q ∉ nodes → index_nodes m nodes !! node_id q = m !! node_id q)) as H;
    [|intros q; apply H].
  induction nodes as [|x nodes IH]; intros m q; [split; [by intros ?%elem_of_nil|done]|].
  change (index_nodes m (x :: nodes)) with (index_nodes (<[node_id x := x]> m) nodes).
  apply NoDup_cons in Hnd as [Hx Hnd]. apply Forall_cons in Hv as [Hvx Hv].
  destruct (IH Hnd Hv (<[node_id x := x]> m) q) as [IH1 IH2]. split.
  - intros [->|Hq]%elem_of_cons; [|by apply IH1]. by rewrite IH2, lookup_insert_eq.
  - intros Hvq [Hne Hq]%not_elem_of_cons. rewrite IH2 by done. apply lookup_insert_ne.
    intros E%node_id_inj; congruence.
Qed.

Lemma usable_all nodes : usableNodes ((λ q, mkNode (node_id q) "" 0 0 false) <$> nodes) = (λ q, mkNode (node_id q) "" 0 0 false) <$> nodes.
Proof. unfold usableNodes. induction nodes as [|x nodes IH]; cbn; [done|]. by rewrite IH. Qed.

Lemma next_target_round_robin nodes p r : fresh_store nodes p → nodes ≠ [] → ps_sel p = SelRoundRobin r →
  let '(p', t) := nextTarget p in
  fresh_store nodes p' ∧ ps_sel p' = SelRoundRobin (RR.mkRR (RR.next r + 1)) ∧
  nodes !! (RR.next r mod length nodes)%nat = Some t.
Proof.
  intros [Hn Hc Hm Hu] Hne Hs. unfold nextTarget. rewrite Hu, Hs. cbn [Z.ltb Z.compare]. rewrite Hc.
  cbn [sel_Pick]. change (Pick ?c r) with (RR.pick c r). unfold RR.pick. rewrite usable_all, length_fmap.
  destruct (lookup_lt_is_Some_2 nodes (RR.next r mod length nodes)%nat) as [t Ht];
    [apply Nat.mod_upper_bound; by destruct nodes|].
  destruct ((λ q, mkNode (node_id q) "" 0 0 false) <$> nodes) as [|y ys] eqn:E; [by destruct nodes|].
  rewrite <-E, list_lookup_fmap, Ht. cbn [fmap option_fmap option_map nd_ID].
  rewrite Hm by (by eapply list_elem_of_lookup_2). cbn. split_and!; [|done|done]. split; cbn; [done|congruence|done|done].
Qed.

Lemma targets_round_robin nodes n : ∀ p r, fresh_store nodes p → nodes ≠ [] → ps_sel p = SelRoundRobin r →
  targets n p = (λ i, default [] (nodes !! ((RR.next r + i) mod length nodes)%nat)) <$> seq 0 n.
Proof.
  induction n as [|n IH]; intros p r Hp Hne Hs; [done|]. cbn [targets].
  pose proof (next_target_round_robin nodes p r Hp Hne Hs) as Ht. destruct (nextTarget p) as [p' t].
  destruct Ht as (Hp' & Hs' & Ht). rewrite (IH p' _ Hp' Hne Hs'). cbn [seq fmap list_fmap].
  rewrite Nat.add_0_r, Ht. f_equal. rewrite <-(fmap_S_seq 0 n), <-list_fmap_compose. apply list_fmap_ext. intros _ i _.
  cbn. do 3 f_equal. lia.
Qed.
End targets.

(** A stripe lands on distinct nodes. A PlacementStore made over distinct
    nodes sends any [n] consecutive Puts, from the first on, to pairwise distinct
    nodes of the set as long as [n] is at most its size: with at least k+m
    candidates no node gets two shards of a stripe. *)
Theorem placement_distinct `{PeerText} (nodes : list bytes) (signer : bytes) (n skip : nat) (p : PlacementStore) :
  NoDup nodes → Forall valid_peer nodes → (n ≤ length nodes)%nat → NewPlacementStore nodes signer = Ok p →
  let ts := drop skip (targets (skip + n) p) in
  length ts = n ∧ NoDup ts ∧ ∀ t, t ∈ ts → t ∈ nodes.
Proof.
  intros Hnd Hv Hn E. destruct nodes as [|x nodes0]; [done|]. set (nodes := x :: nodes0) in *.
  assert (fresh_store nodes p) as Hf.
  { injection E as <-. split; [done|done| |done]. intros q Hq. by apply (by_node_id nodes). }
  assert (ps_sel p = SelRoundRobin (RR.mkRR 0)) as Hs by by injection E as <-.
  cbn zeta. rewrite (targets_round_robin nodes _ p _ Hf) by done. cbn [RR.next].
  rewrite seq_app, fmap_app, drop_app_eq by (by rewrite length_fmap, length_seq).
  assert (0 < length nodes)%nat as Hpos by (cbn; lia).
  assert (∀ i, ∃ y, nodes !! (i mod length nodes)%nat = Some y) as Hl.
  { intros i. apply lookup_lt_is_Some_2, Nat.mod_upper_bound. lia. }
  split_and!; [by rewrite length_fmap, length_seq| |].
  - apply NoDup_fmap_2_strong; [|apply NoDup_seq]. intros i j Hi Hj Eij. apply elem_of_seq in Hi, Hj.
    destruct (Hl (0 + i)%nat) as [a Ha], (Hl (0 + j)%nat) as [b Hb]. rewrite Ha, Hb in Eij. cbn in Eij. subst b.
    pose proof (NoDup_lookup nodes _ _ a Hnd Ha Hb) as Em. set (u := length nodes) in *.
    pose proof (Nat.div_mod_eq (0 + i) u). pose proof (Nat.div_mod_eq (0 + j) u).
    assert ((0 + i) / u = (0 + j) / u)%nat by nia. nia.
  - intros t (i & -> & _)%list_elem_of_fmap. destruct (Hl (0 + i)%nat) as [y Hy]. rewrite Hy. by eapply list_elem_of_lookup_2.
Qed.

Section deletes.
Context `{Hsha : Sha256} `{Hed : Ed25519} {W : Type} (ov : Overlay W) (p : PlacementStore) (clk : Z) (id : ShardID).

Definition confirms (q : bytes) (w : W) : Prop :=
  (Client.delete (ov_peer ov q) (NewNetStoreSigned q (ps_signer p)) clk id w).2 = Ok tt.

Lemma delete_from_spec ps : ∀ deleted last w,
  (delete_from ov p clk id ps deleted last w).2 = Ok tt → deleted = true ∨ ∃ q w', q ∈ ps ∧ confirms q w'.
Proof.
  unfold confirms. induction ps as [|q ps IH]; intros deleted last w; cbn; [destruct deleted; [by left|by destruct last]|].
  destruct (ensureConnected ov q w) as [w1 [[]|]].
  - destruct (Client.delete _ _ _ _ w1) as [w2 [[]|]] eqn:E; intros H.
    + right. exists q, w1. split; [left|by rewrite E].
    + apply IH in H as [?|(q' & w' & ? & ?)]; [by left|]. right. exists q', w'. split; [by right|done].
  - intros H. apply IH in H as [?|(q' & w' & ? & ?)]; [by left|]. right. exists q', w'. split; [by right|done].
Qed.

Lemma delete_from_done ps : ∀ deleted last w,
  deleted = true ∨ (∃ q, q ∈ ps ∧ reachable ov q ∧ ∀ w', confirms q w') →
  (delete_from ov p clk id ps deleted last w).2 = Ok tt.
Proof.
  induction ps as [|q ps IH]; intros deleted last w Hd; cbn.
  { destruct Hd as [-> |(q & ?%elem_of_nil & _)]; done. }
  assert (deleted = true ∨ (reachable ov q ∧ ∀ w', confirms q w') ∨ ∃ q, q ∈ ps ∧ reachable ov q ∧ ∀ w', confirms q w') as Hd'.
  { destruct Hd as [?|(q' & [->|?]%elem_of_cons & ? & ?)]; eauto. right; right. eauto. }
  destruct Hd' as [->|[[Hr Hc]|Ho]].
  - destruct (ensureConnected ov q w) as [w1 [[]|]]; [|by apply IH; left].
    destruct (Client.delete _ _ _ _ w1) as [w2 [[]|]]; apply IH; by left.
  - pose proof (reachable_connects ov q w Hr) as Hcn. destruct (ensureConnected ov q w) as [w1 r]. cbn in Hcn. subst r.
    specialize (Hc w1). unfold confirms in Hc. destruct (Client.delete _ _ _ _ w1) as [w2 r]. cbn in Hc. subst r. apply IH. by left.
  - destruct (ensureConnected ov q w) as [w1 [[]|]]; [|apply IH; by right].
    destruct (Client.delete _ _ _ _ w1) as [w2 [[]|]]; apply IH; by right.
Qed.
End deletes.

(** Deleting through the network. With no listed provider Delete says "not
    found". It succeeds only if a listed provider confirmed that it dropped the
    caller's claim, and does succeed when a listed provider can be reached and
    confirms, whatever the others do: success does not mean that every copy is
    gone. *)
Theorem placement_delete `{Sha256, Ed25519} {W : Type} (ov : Overlay W) (p : PlacementStore) (clk : Z) (id : ShardID) (w : W) :
  let providers := (FindProviders ov id defaultMaxProviders w).2 in
  (providers = [] → (ps_Delete ov p clk id w).2 = Err NSNotFound) ∧
  ((ps_Delete ov p clk id w).2 = Ok tt → ∃ q w', q ∈ providers ∧ confirms ov p clk id q w') ∧
  ((∃ q, q ∈ providers ∧ reachable ov q ∧ ∀ w', confirms ov p clk id q w') → (ps_Delete ov p clk id w).2 = Ok tt).
Proof.
  cbn zeta. unfold ps_Delete. destruct (FindProviders ov id defaultMaxProviders w) as [w1 ps]. cbn [snd].
  destruct ps as [|q ps]; [by split_and!; [| |intros (q & ?%elem_of_nil & _)]|]. split_and!; [done| |].
  - intros [?|?]%delete_from_spec; [done|done].
  - intros Hq. apply delete_from_done. by right.
Qed.

(** ** Witnesses *)

Section examples.
#[local] Existing Instances pad_sha toy_ed toy_argon hex_peer.

Definition three : list bytes := [[Byte.x01]; [Byte.x02]; [Byte.x03]].
Definition ex_store : PlacementStore :=
  match NewPlacementStore three ex_key with Ok p => p | Err _ => mkPS [] [] 0 (SelRoundRobin RR.NewRoundRobin) [] ∅ 0 end.

Lemma placement_distinct_witness :
  targets 5 ex_store = [[Byte.x01]; [Byte.x02]; [Byte.x03]; [Byte.x01]; [Byte.x02]] ∧ NoDup (drop 2 (targets 5 ex_store)).
Proof.
  split; [by vm_compute|]. apply (placement_distinct three ex_key 3 2 ex_store).
  - refine (proj1 (bool_decide_eq_true _) _). by vm_compute.
  - repeat constructor; vm_compute; congruence.
  - vm_compute. lia.
  - reflexivity.
Defined.

(** An empty node that the DHT lists as the only provider and the only node. *)
Definition ex_stale : Overlay (Server Mem.MemStore) :=
  mkOverlay [Byte.x09] (λ _, node_peer no_msg ex_policy (ex_conn (1000 * Second)))
    (λ _ _ w, (w, [[Byte.x01]])) (λ _ w, (w, Some [[Byte.x01]])) (λ _ _, true) (λ _ w, (w, true)) (λ _ w, (w, Reset)).
Definition ex_rs : RepairStore Mem.MemStore := SetVerifyPossession true (NewRepairStore (Some Mem.NewMemStore) ex_desc ex_grant).

Lemma repair_put_trusts_records_witness :
  rs_Put ex_stale ex_rs ex_data ex_open = (ex_rs, ex_open, Ok ex_id) ∧ (rs_Has ex_stale ex_rs ex_id None ex_open).2 = Ok false.
Proof.
  destruct (repair_put_trusts_records ex_stale ex_rs ex_data None ex_open [[Byte.x01]]) as [H1 H2].
  - intros id max w'. reflexivity.
  - intros max w'. reflexivity.
  - by vm_compute.
  - intros p Hp. exact Hp.
  - by vm_compute.
  - split; [exact H1|]. by rewrite H1 in H2.
Defined.
End examples.
