(* ===== verification/Params.v ===== *)
(** * internal/net/params.go, root_proto.go: what a node tells a client

    A node's admission and maintenance policy over the params protocol, and how a
    newcomer reconciles the policies of its bootstrap peers; root pointers served
    over the root protocol from the node's view of the DHT. Every query is one
    stream to a peer that answers as it likes. *)

From S2P Require Import Prelude GoLib Store Crypto Stripe Erasure Chunk Pipeline Wire Codec Base64 Manifest Root Device Discovery.
From S2P Require Import Ledger RateLimit Server Node Client Placement Defense Abuse Rebalance.

Definition maxParamsReport : Z := 4096.
Definition maxRootReport : Z := 65536.

Record PoWInfo := mkPoW { pow_Enabled : bool; pow_Difficulty : Z }.
Record RepairInfo := mkRepair { rep_Enabled : bool; rep_Interval : Z }.
Record RebalanceInfo := mkRebal { reb_Enabled : bool; reb_Interval : Z; reb_Threshold : F64.t }.
Record NodeParams := mkParams { np_PoW : PoWInfo; np_Repair : RepairInfo; np_Rebalance : RebalanceInfo }.

Definition zeroParams : NodeParams := mkParams (mkPoW false 0) (mkRepair false 0) (mkRebal false 0 (F64.of_Z 0)).

Inductive params_err :=
| PNet (e : client_err)
| PBadParams
| PBadAddr (addr : bytes)
| PUnreachable (last : option client_err)   (* could not reach any bootstrap node *)
| PBadRoot (e : codec_err)
| PUnverified.

(** ** params.go *)

(** [Server.powInfo] *)
Definition powInfo (powMin : Z) : PoWInfo := if powMin =? 0 then mkPoW false 0 else mkPoW true powMin.

(** [Server.handleParams] *)
Definition handleParams `{Json NodeParams} (powMin : Z) (repairPolicy : RepairInfo) (rebalancePolicy : RebalanceInfo) : reply :=
  match Marshal (mkParams (powInfo powMin) repairPolicy rebalancePolicy) with
  | None => reply_text (text "marshal")
  | Some body => replyOK (blob_bytes body)
  end.

Section params.
Context `{Hsha : Sha256} `{Hed : Ed25519} `{Hj : Json NodeParams} {W : Type}.
(** Peers; their params handlers; libp2p's Connect and address syntax. *)
Context (node : bytes → Peer W) (on_params : bytes → W → W * reply).
Context (connect : bytes → W → W * bool) (AddrInfoFromString : bytes → option bytes).

Definition QueryParams (p : bytes) (w : W) : W * result params_err NodeParams :=
  let '(w, r) := exchange (node p) (λ _, on_params p) [] w in
  (w, match r with
      | Err e => Err (PNet e)
      | Ok s =>
          match readBlob maxParamsReport s with
          | Err e => Err (PNet (CRead e))
          | Ok (body, _) => of_option PBadParams (Unmarshal body)
          end
      end).

(** The variables of the loop: the policy so far, whether a threshold was seen,
    how many nodes answered. *)
Record policy_acc := mkAccum { pa_out : NodeParams; pa_haveThresh : bool; pa_reached : Z }.

(** [iv > 0 && (out == 0 || iv < out)] *)
Definition shorter (iv out : Z) : Z := if (0 <? iv) && ((out =? 0) || (iv <? out)) then iv else out.

Definition adopt (np : NodeParams) (a : policy_acc) : policy_acc :=
  let out := pa_out a in
  let pow := if pow_Enabled (np_PoW np) && (pow_Difficulty (np_PoW out) <? pow_Difficulty (np_PoW np))
             then mkPoW (pow_Enabled (np_PoW out)) (pow_Difficulty (np_PoW np)) else np_PoW out in
  let rep := if rep_Enabled (np_Repair np)
             then mkRepair true (shorter (rep_Interval (np_Repair np)) (rep_Interval (np_Repair out)))
             else np_Repair out in
  let take_thresh := negb (pa_haveThresh a) || F64.ltb (reb_Threshold (np_Rebalance np)) (reb_Threshold (np_Rebalance out)) in
  let reb := if reb_Enabled (np_Rebalance np)
             then mkRebal true (shorter (reb_Interval (np_Rebalance np)) (reb_Interval (np_Rebalance out)))
                    (if take_thresh then reb_Threshold (np_Rebalance np) else reb_Threshold (np_Rebalance out))
             else np_Rebalance out in
  mkAccum (mkParams pow rep reb) (pa_haveThresh a || reb_Enabled (np_Rebalance np)) (pa_reached a + 1).

Fixpoint fetch_policies (bootstrap : list bytes) (a : policy_acc) (last : option client_err) (w : W)
    : W * result params_err policy_acc :=
  match bootstrap with
  | [] => (w, if pa_reached a =? 0 then Err (PUnreachable last) else Ok a)
  | addr :: bootstrap =>
      match AddrInfoFromString addr with
      | None => (w, Err (PBadAddr addr))
      | Some p =>
          let '(w, ok) := connect p w in
          if negb ok then fetch_policies bootstrap a (Some COpen) w
          else
            let '(w, r) := QueryParams p w in
            match r with
            | Err (PNet e) => fetch_policies bootstrap a (Some e) w
            | Err _ => fetch_policies bootstrap a (Some (CRead WShort)) w
            | Ok np => fetch_policies bootstrap (adopt np a) last w
            end
      end
  end.

Definition FetchNodePolicy (bootstrap : list bytes) (w : W) : W * result params_err NodeParams :=
  let '(w, r) := fetch_policies bootstrap (mkAccum zeroParams false 0) None w in
  (w, match r with
      | Err e => Err e
      | Ok a =>
          let out := pa_out a in
          Ok (mkParams (mkPoW (0 <? pow_Difficulty (np_PoW out)) (pow_Difficulty (np_PoW out))) (np_Repair out) (np_Rebalance out))
      end).
End params.

(** ** root_proto.go *)

Section root_proto.
Context `{Hsha : Sha256} `{Hed : Ed25519} `{Hrj : Json rootPointerJSON} `{Hcj : Json readCapJSON}.

(** [Server.handleRoot] over the node's resolver, with the text of its errors. *)
Definition handleRoot {D : Type} `{!Dht D} (err_text : Discovery.net_err → bytes) (enc_text : codec_err → bytes)
    (input : bytes) (d : D) : D * reply :=
  match readFull SignPubKeySize input with
  | Err _ => (d, Reset)
  | Ok (owner, _) =>
      let '(d, r) := GetRoot owner d in
      (d, match r with
          | Err e => reply_text (err_text e)
          | Ok None => Reply (writeByte (status_byte statusNotFound))
          | Ok (Some rp) =>
              match EncodeRootPointer rp with
              | Err e => reply_text (enc_text e)
              | Ok body => replyOK (blob_bytes body)
              end
          end)
  end.

Definition QueryRoot {W : Type} (node : bytes → Peer W) (on_root : bytes → bytes → W → W * reply) (p owner : bytes) (w : W)
    : W * result params_err (option RootPointer) :=
  let '(w, r) := exchange (node p) (on_root p) [Ok owner] w in
  (w, match r with
      | Err CNotFound => Ok None
      | Err e => Err (PNet e)
      | Ok s =>
          match readBlob maxRootReport s with
          | Err e => Err (PNet (CRead e))
          | Ok (body, _) =>
              match DecodeRootPointer body with
              | Err e => Err (PBadRoot e)
              | Ok rp =>
                  if negb (bool_decide (rp_Owner rp = owner)) || negb (root_Verify rp) then Err PUnverified else Ok (Some rp)
              end
          end
      end).
End root_proto.

(** ** Lemmas *)

Lemma ltb_trans (x y z : F64.t) : F64.ltb x y = true → F64.ltb y z = true → F64.ltb x z = true.
Proof.
  unfold F64.ltb, SpecFloat.SFltb. destruct x as [[]|[]| |[] m1 e1], y as [[]|[]| |[] m2 e2], z as [[]|[]| |[] m3 e3]; cbn; try done.
  all: destruct (Z.compare_spec e1 e2), (Z.compare_spec e2 e3), (Z.compare_spec e1 e3); cbn; try lia; try done.
  all: rewrite ?Pos.compare_cont_spec; unfold CompOpp; cbn;
    destruct (Pos.compare_spec m1 m2), (Pos.compare_spec m2 m3), (Pos.compare_spec m1 m3); cbn; try done; lia.
Qed.

Lemma ltb_irrefl (x : F64.t) : F64.ltb x x = false.
Proof.
  unfold F64.ltb, SpecFloat.SFltb. destruct x as [[]|[]| |[] m e]; cbn; try done; rewrite Z.compare_refl.
  - by rewrite Pos.compare_cont_spec, Pos.compare_refl.
  - by rewrite Pos.compare_cont_spec, Pos.compare_refl.
Qed.

(** The least positive interval of those enabled: [iv] as the loop keeps it. *)
Record least {A} (on : A → bool) (iv : A → Z) (l : list A) (out : Z) : Prop := {
  le_nonneg : 0 ≤ out;
  le_bound : ∀ x, x ∈ l → on x = true → 0 < iv x → 0 < out ≤ iv x;
  le_some : out = 0 ∨ ∃ x, x ∈ l ∧ on x = true ∧ iv x = out;
}.

Lemma least_nil {A} (on : A → bool) iv : least on iv [] 0.
Proof. split; [done|by intros x ?%elem_of_nil|by left]. Qed.

Lemma least_snoc {A} (on : A → bool) iv l x out : least on iv l out →
  least on iv (l ++ [x]) (if on x then shorter (iv x) out else out).
Proof.
  intros [H1 H2 H3]. unfold shorter.
  destruct (on x) eqn:Ex; [destruct (Z.ltb_spec 0 (iv x)), (Z.eqb_spec out 0), (Z.ltb_spec (iv x) out)|]; cbn [andb orb];
    (split; [lia|intros y [Hy| ->%list_elem_of_singleton]%elem_of_app Ey Hp; [specialize (H2 y Hy Ey Hp)|]; try congruence; lia|]).
  all: try (right; exists x; split_and!; [set_solver|done|done]).
  all: destruct H3 as [?|(y & ? & ? & ?)]; [by left|right; exists y; split_and!; [set_solver|done|done]].
Qed.

(** What the policy so far is, after the answers [nps]. *)
Record strictest (nps : list NodeParams) (a : policy_acc) : Prop := {
  st_reached : pa_reached a = Z.of_nat (length nps);
  st_hard : ∀ np, np ∈ nps → pow_Enabled (np_PoW np) = true → pow_Difficulty (np_PoW np) ≤ pow_Difficulty (np_PoW (pa_out a));
  st_hard_some : pow_Difficulty (np_PoW (pa_out a)) = 0 ∨
    ∃ np, np ∈ nps ∧ pow_Enabled (np_PoW np) = true ∧ pow_Difficulty (np_PoW np) = pow_Difficulty (np_PoW (pa_out a));
  st_hard_pos : 0 ≤ pow_Difficulty (np_PoW (pa_out a));
  st_rep_on : rep_Enabled (np_Repair (pa_out a)) = existsb (λ np, rep_Enabled (np_Repair np)) nps;
  st_rep : least (λ np, rep_Enabled (np_Repair np)) (λ np, rep_Interval (np_Repair np)) nps (rep_Interval (np_Repair (pa_out a)));
  st_reb_on : reb_Enabled (np_Rebalance (pa_out a)) = existsb (λ np, reb_Enabled (np_Rebalance np)) nps;
  st_reb : least (λ np, reb_Enabled (np_Rebalance np)) (λ np, reb_Interval (np_Rebalance np)) nps (reb_Interval (np_Rebalance (pa_out a)));
  st_have : pa_haveThresh a = existsb (λ np, reb_Enabled (np_Rebalance np)) nps;
  st_thresh : ∀ np, np ∈ nps → reb_Enabled (np_Rebalance np) = true →
    F64.ltb (reb_Threshold (np_Rebalance np)) (reb_Threshold (np_Rebalance (pa_out a))) = false;
  st_thresh_some : pa_haveThresh a = true → ∃ np, np ∈ nps ∧ reb_Enabled (np_Rebalance np) = true ∧
    reb_Threshold (np_Rebalance np) = reb_Threshold (np_Rebalance (pa_out a));
}.

Lemma strictest_nil : strictest [] (mkAccum zeroParams false 0).
Proof. split; cbn; try done; try apply least_nil; try (by intros x ?%elem_of_nil); by left. Qed.

Lemma existsb_snoc {A} (f : A → bool) l x : existsb f (l ++ [x]) = existsb f l || f x.
Proof. rewrite existsb_app. cbn. by rewrite orb_false_r. Qed.

Lemma strictest_snoc nps a np : strictest nps a → strictest (nps ++ [np]) (adopt np a).
Proof.
  intros [Hr H1 H2 H3 H4 H5 H6 H7 H8 H9 H10]. unfold adopt. split; cbn [pa_out pa_reached pa_haveThresh np_PoW np_Repair np_Rebalance].
  - rewrite length_app. cbn. lia.
  - intros x [Hx| ->%list_elem_of_singleton]%elem_of_app Ex.
    + specialize (H1 x Hx Ex). destruct (_ && _) eqn:E; [|done]. apply andb_prop in E as [_ E%Z.ltb_lt]. cbn. lia.
    + rewrite Ex. cbn [andb]. destruct (Z.ltb_spec (pow_Difficulty (np_PoW (pa_out a))) (pow_Difficulty (np_PoW np))); cbn; lia.
  - destruct (pow_Enabled (np_PoW np) && _) eqn:E.
    + apply andb_prop in E as [Ee _]. right. exists np. split_and!; [set_solver|done|done].
    + destruct H2 as [?|(x & ? & ? & ?)]; [by left|]. right. exists x. split_and!; [set_solver|done|done].
  - destruct (_ && _) eqn:E; [|done]. apply andb_prop in E as [_ E%Z.ltb_lt]. cbn. lia.
  - rewrite existsb_snoc, <-H4. destruct (rep_Enabled (np_Repair np)); [by rewrite orb_true_r|by rewrite orb_false_r].
  - pose proof (least_snoc _ _ nps np _ H5) as Hl. cbn beta in Hl. by destruct (rep_Enabled (np_Repair np)).
  - rewrite existsb_snoc, <-H6. destruct (reb_Enabled (np_Rebalance np)); [by rewrite orb_true_r|by rewrite orb_false_r].
  - pose proof (least_snoc _ _ nps np _ H7) as Hl. cbn beta in Hl. by destruct (reb_Enabled (np_Rebalance np)).
  - by rewrite existsb_snoc, H8.
  - intros x Hx Ex. apply elem_of_app in Hx as [Hx| ->%list_elem_of_singleton].
    + destruct (reb_Enabled (np_Rebalance np)); [|by apply H9]. cbn. destruct (negb (pa_haveThresh a)) eqn:Eh.
      { exfalso. apply negb_true_iff in Eh. rewrite H8 in Eh.
        assert (existsb (λ np, reb_Enabled (np_Rebalance np)) nps = true) as E; [|congruence].
        apply existsb_exists. exists x. split; [by apply list_elem_of_In|exact Ex]. }
      cbn [orb]. destruct (F64.ltb (reb_Threshold (np_Rebalance np)) _) eqn:El; [|by apply H9].
      destruct (F64.ltb (reb_Threshold (np_Rebalance x)) _) eqn:Ey; [|done].
      by rewrite <-(H9 x Hx Ex), (ltb_trans _ _ _ Ey El).
    + rewrite Ex. cbn. destruct (_ || _) eqn:E; [apply ltb_irrefl|]. by apply orb_false_elim in E as [_ E].
  - intros Hh. destruct (reb_Enabled (np_Rebalance np)) eqn:En.
    + clear Hh. cbn. destruct (_ || _) eqn:E; [exists np; split_and!; [set_solver|done|done]|].
      apply orb_false_elim in E as [E _]. apply negb_false_iff in E. destruct (H10 E) as (x & ? & ? & ?).
      exists x. split_and!; [set_solver|done|done].
    + rewrite orb_false_r in Hh. destruct (H10 Hh) as (x & ? & ? & ?). exists x. split_and!; [set_solver|done|done].
Qed.

Section fetch.
Context `{Hsha : Sha256} `{Hed : Ed25519} `{Hj : Json NodeParams} {W : Type}.
Context (node : bytes → Peer W) (on_params : bytes → W → W * reply).
Context (connect : bytes → W → W * bool) (AddrInfoFromString : bytes → option bytes).

(** [np] was answered by the peer some bootstrap address names. *)
Definition answered (bootstrap : list bytes) (np : NodeParams) : Prop :=
  ∃ addr p w, addr ∈ bootstrap ∧ AddrInfoFromString addr = Some p ∧ (QueryParams node on_params p w).2 = Ok np.

Lemma fetch_trace bs : ∀ a last w nps0 r, strictest nps0 a →
  (fetch_policies node on_params connect AddrInfoFromString bs a last w).2 = Ok r →
  ∃ nps, strictest (nps0 ++ nps) r ∧ Forall (answered bs) nps ∧ pa_reached r ≠ 0.
Proof.
  induction bs as [|addr bs IH]; intros a last w nps0 r Hs; cbn.
  { destruct (Z.eqb_spec (pa_reached a) 0); [done|]. intros [= <-]. exists []. rewrite app_nil_r. by split_and!. }
  destruct (AddrInfoFromString addr) as [p|] eqn:Ea; [|done]. destruct (connect p w) as [w1 []]; cbn [negb].
  - destruct (QueryParams node on_params p w1) as [w2 [np|e]] eqn:Eq.
    + intros H. destruct (IH _ _ _ _ _ (strictest_snoc _ _ np Hs) H) as (nps & H1 & H2 & H3).
      exists (np :: nps). rewrite <-app_assoc in H1. split_and!; [done| |done]. constructor.
      * exists addr, p, w1. split_and!; [left|done|by rewrite Eq].
      * eapply Forall_impl; [exact H2|]. intros x (ad & q & wq & ? & ?). exists ad, q, wq. split; [by right|done].
    + intros H. assert (∃ last', (fetch_policies node on_params connect AddrInfoFromString bs a last' w2).2 = Ok r) as [l' H'].
      { destruct e; eauto. }
      destruct (IH _ _ _ _ _ Hs H') as (nps & H1 & H2 & H3). exists nps. split_and!; [done| |done].
      eapply Forall_impl; [exact H2|]. intros x (ad & q & wq & ? & ?). exists ad, q, wq. split; [by right|done].
  - intros H. destruct (IH _ _ _ _ _ Hs H) as (nps & H1 & H2 & H3). exists nps. split_and!; [done| |done].
    eapply Forall_impl; [exact H2|]. intros x (ad & q & wq & ? & ?). exists ad, q, wq. split; [by right|done].
Qed.
End fetch.

(** The policy a newcomer adopts is the strictest of the answers. When
    FetchNodePolicy succeeds, at least one bootstrap node answered, and over the
    answers [nps]: the difficulty is the largest enforced one (an identity minted
    at it meets every answering node's bar) and proof of work is on exactly when
    it is positive; repair and rebalancing run exactly when some node runs them,
    at the shortest positive interval of those that do, and the rebalancing
    threshold is one of theirs that no other is below. *)
Theorem policy_strictest `{Sha256, Ed25519, Json NodeParams} {W : Type} (node : bytes → Peer W) (on_params : bytes → W → W * reply)
    (connect : bytes → W → W * bool) (AddrInfoFromString : bytes → option bytes) (bootstrap : list bytes) (w : W) (out : NodeParams) :
  (FetchNodePolicy node on_params connect AddrInfoFromString bootstrap w).2 = Ok out →
  ∃ nps, nps ≠ [] ∧ Forall (answered node on_params AddrInfoFromString bootstrap) nps ∧
    (∀ np, np ∈ nps → pow_Enabled (np_PoW np) = true → pow_Difficulty (np_PoW np) ≤ pow_Difficulty (np_PoW out)) ∧
    pow_Enabled (np_PoW out) = (0 <? pow_Difficulty (np_PoW out)) ∧
    (pow_Enabled (np_PoW out) = true →
       ∃ np, np ∈ nps ∧ pow_Enabled (np_PoW np) = true ∧ pow_Difficulty (np_PoW np) = pow_Difficulty (np_PoW out)) ∧
    rep_Enabled (np_Repair out) = existsb (λ np, rep_Enabled (np_Repair np)) nps ∧
    least (λ np, rep_Enabled (np_Repair np)) (λ np, rep_Interval (np_Repair np)) nps (rep_Interval (np_Repair out)) ∧
    reb_Enabled (np_Rebalance out) = existsb (λ np, reb_Enabled (np_Rebalance np)) nps ∧
    least (λ np, reb_Enabled (np_Rebalance np)) (λ np, reb_Interval (np_Rebalance np)) nps (reb_Interval (np_Rebalance out)) ∧
    (reb_Enabled (np_Rebalance out) = true →
       (∃ np, np ∈ nps ∧ reb_Enabled (np_Rebalance np) = true ∧ reb_Threshold (np_Rebalance np) = reb_Threshold (np_Rebalance out)) ∧
       ∀ np, np ∈ nps → reb_Enabled (np_Rebalance np) = true →
         F64.ltb (reb_Threshold (np_Rebalance np)) (reb_Threshold (np_Rebalance out)) = false).
Proof.
  unfold FetchNodePolicy. pose proof (fetch_trace node on_params connect AddrInfoFromString bootstrap (mkAccum zeroParams false 0) None w []) as Ht.
  destruct (fetch_policies _ _ _ _ _ _ _ _) as [w' [a|e]]; [|done]. intros [= <-].
  destruct (Ht a strictest_nil eq_refl) as (nps & [Q1 Q2 Q3 Q4 Q5 Q6 Q7 Q8 Q9 Q10 Q11] & Hf & Hr). cbn in *.
  exists nps. split_and!; try done.
  - intros ->. by rewrite Q1 in Hr.
  - intros Hp%Z.ltb_lt. destruct Q3 as [E|?]; [lia|done].
  - intros Hon. split; [apply Q11; congruence|done].
Qed.

(** Root pointers from a peer. Whatever the peer answers, a pointer QueryRoot
    returns is the asked owner's and carries its valid signature. A node that runs
    the handler over its DHT serves what the DHT resolves: no record is reported as
    none, a resolved pointer arrives unchanged when it can be encoded and fits
    64 KiB. *)
Theorem root_query `{Sha256, Ed25519, Json rootPointerJSON, Json readCapJSON} {W : Type} `{!Dht W}
    (node : bytes → Peer W) (p owner : bytes) (w : W) :
  (∀ on_root rp, (QueryRoot node on_root p owner w).2 = Ok (Some rp) → rp_Owner rp = owner ∧ root_Verify rp = true) ∧
  (∀ err_text enc_text, dials (node p) w = true → length owner = SignPubKeySize →
     let q := QueryRoot node (λ _ input d, handleRoot err_text enc_text input d) p owner w in
     q.1 = (GetRoot owner w).1 ∧
     match (GetRoot owner w).2 with
     | Ok None => q.2 = Ok None
     | Ok (Some rp) =>
         cap_ok (rp_Root rp) → json_ok (root_json rp) →
         (∀ b, EncodeRootPointer rp = Ok b → Z.of_nat (length b) ≤ maxRootReport) → q.2 = Ok (Some rp)
     | Err e => Z.of_nat (length (err_text e)) ≤ MaxShardSize → q.2 = Err (PNet (CRemote (err_text e)))
     end).
Proof.
  split.
  - intros on_root rp. unfold QueryRoot. destruct (exchange _ _ _ _) as [w' [s|e]]; [|by destruct e]. cbn [snd].
    destruct (readBlob _ _) as [[body ?]|]; [|done]. destruct (DecodeRootPointer body) as [rp'|]; [|done].
    destruct (negb (bool_decide _)) eqn:E1; [done|]. destruct (negb (root_Verify rp')) eqn:E2; [done|]. intros [= <-].
    apply negb_false_iff in E1, E2. by apply bool_decide_eq_true in E1.
  - intros err_text enc_text Hd Ho. cbn zeta. unfold QueryRoot, exchange. rewrite Hd. cbn [negb write_all]. rewrite app_nil_r.
    unfold handleRoot. rewrite readFull_all by done.
    assert (∀ rp, (GetRoot owner w).2 = Ok (Some rp) → rp_Owner rp = owner ∧ root_Verify rp = true) as Hres.
    { intros rp. unfold GetRoot, resolve. destruct (GetValue _ w) as [w' [v|e]]; [|by destruct e]. cbn [snd].
      intros (r & _ & E)%bind_Ok. destruct (decide _) as [|Hn]; [done|]. destruct (negb (sr_verify r)) eqn:Ev; [done|].
      injection E as <-. apply negb_false_iff in Ev. split; [by apply dec_stable in Hn|done]. }
    destruct (GetRoot owner w) as [w' [[rp|]|e]]; cbn [fst snd] in *.
    + split; [by destruct (EncodeRootPointer rp)|]. intros Hc Hj Hmax. destruct (Hres rp eq_refl) as [Hown Hv].
      destruct (root_codec rp) as (body & Ee & Edec); [by rewrite Hown|done|done|]. rewrite Ee.
      specialize (Hmax body Ee). unfold maxRootReport in Hmax. destruct (writeBlob_total body) as [b Eb]; [unfold MaxShardSize; lia|].
      unfold replyOK, blob_bytes. rewrite Eb. cbn [snd]. rewrite readResp_ok.
      pose proof (blob_roundtrip maxRootReport body b [] Hmax Eb) as Er. rewrite app_nil_r in Er. rewrite Er, Edec.
      rewrite bool_decide_true by done. by rewrite Hv.
    + done.
    + split; [done|]. intros Hm. unfold reply_text, blob_bytes. destruct (writeBlob_total (err_text e) Hm) as [b Eb]. rewrite Eb.
      cbn [snd]. pose proof (blob_roundtrip MaxShardSize _ b [] Hm Eb) as Er. rewrite app_nil_r in Er.
      unfold readResp. cbn. by rewrite Er.
Qed.

(** ** Witnesses *)

Section examples.
#[local] Existing Instances pad_sha toy_ed toy_argon.
#[local] Instance spec_float_ser : Ser F64.t.
Proof.
  refine (ser_iso (λ x : F64.t, match x with
      | SpecFloat.S754_zero s => inl (inl s) | SpecFloat.S754_infinity s => inl (inr s)
      | SpecFloat.S754_nan => inr (inl tt) | SpecFloat.S754_finite s m e => inr (inr (s, m, e)) end)
    (λ y, match y with
      | inl (inl s) => SpecFloat.S754_zero s | inl (inr s) => SpecFloat.S754_infinity s
      | inr (inl _) => SpecFloat.S754_nan | inr (inr (s, m, e)) => SpecFloat.S754_finite s m e end) _).
  by intros [].
Defined.
#[local] Instance NodeParams_ser : Ser NodeParams.
Proof.
  refine (ser_iso (λ p, ((pow_Enabled (np_PoW p), pow_Difficulty (np_PoW p)), (rep_Enabled (np_Repair p), rep_Interval (np_Repair p)),
      (reb_Enabled (np_Rebalance p), reb_Interval (np_Rebalance p), reb_Threshold (np_Rebalance p))))
    (λ '((a, b), (c, d), (e, f, g)), mkParams (mkPoW a b) (mkRepair c d) (mkRebal e f g)) _).
  by intros [[] [] []].
Defined.
#[local] Instance toy_params_json : Json NodeParams := ser_json NodeParams.

(** Two nodes: one asks 12 bits and repairs hourly, the other 9 and rebalances. *)
Definition ex_on_params (p : bytes) (w : unit) : unit * reply :=
  (w, if decide (p = [Byte.x01]) then handleParams 12 (mkRepair true Hour) (mkRebal false 0 (F64.of_Z 0))
      else handleParams 9 (mkRepair false 0) (mkRebal true Minute (F64.ratio 1 10))).
Definition ex_peers (_ : bytes) : Peer unit := mkPeer (λ _, true) (λ _ w, (w, Reset)) (λ _ w, (w, Reset)).

Lemma policy_strictest_witness : ∃ out nps,
  (FetchNodePolicy ex_peers ex_on_params (λ _ w, (w, true)) Some [[Byte.x01]; [Byte.x02]] tt).2 = Ok out ∧
  pow_Difficulty (np_PoW out) = 12 ∧ nps ≠ [] ∧ reb_Enabled (np_Rebalance out) = existsb (λ np, reb_Enabled (np_Rebalance np)) nps.
Proof.
  exists (mkParams (mkPoW true 12) (mkRepair true Hour) (mkRebal true Minute (F64.ratio 1 10))).
  destruct (policy_strictest ex_peers ex_on_params (λ _ w, (w, true)) Some [[Byte.x01]; [Byte.x02]] tt
    (mkParams (mkPoW true 12) (mkRepair true Hour) (mkRebal true Minute (F64.ratio 1 10)))) as (nps & Hne & _ & _ & _ & _ & _ & _ & Hreb & _).
  - by vm_compute.
  - exists nps. split; [by vm_compute|]. split; [reflexivity|]. split; [exact Hne|exact Hreb].
Defined.
End examples.
