(* ===== verification/Diff.v ===== *)
(** * internal/provider/diff.go: change enumeration

    The delta between two roots of the namespace, found by walking the two trees
    and pruning where the caps agree. The order in which Go ranges over a map is
    the argument [iter]: for each directory visited, some order of its entries.
    Fuel bounds the nesting; a tree of depth [n] needs [n]. *)

From S2P Require Import Prelude GoLib Store Crypto Stripe Erasure Chunk Pipeline Wire Codec Manifest Blobs Namespace Merge Base64 Root.
From S2P Require Import RootStores Files Identity Provider.

Record SyncAnchor := mkAnchor { an_Seq : Z; an_Root : ReadCap }.
Record ChangeSet := mkChanges { cs_Changes : list Change; cs_Anchor : SyncAnchor }.

(** [SyncAnchor.Bytes] and [ParseAnchor], over encoding/json. *)
Record anchorJSON := mkAnchorJ { aj_seq : Z; aj_root : readCapJSON }.
Definition anchor_Bytes `{Json anchorJSON} (a : SyncAnchor) : bytes :=
  default [] (Marshal (mkAnchorJ (an_Seq a) (cap_to_json (an_Root a)))).
Definition ParseAnchor `{Json anchorJSON} (b : bytes) : result manifest_err SyncAnchor :=
  j ← of_option MJson (Unmarshal b); c ← cap_of_json (aj_root j); Ok (mkAnchor (aj_seq j) c).

Section diff.
Context `{Hsha : Sha256} `{Hcj : Json readCapJSON} `{Hj : DirJson} {W : Type} `{Hb : !Blobs W} {R : Type}.
(** The order of iteration over the new ([true]) or old entries of a path. *)
Context (iter : bool → string → gmap string Entry → list (string * Entry)).
Abbreviation P := (Provider W R).

Definition dirEntries (c : ReadCap) : M P (gmap string Entry) :=
  if decide (rc_Kind c ≠ KindDir) then ret ∅
  else let! d := reads (LoadDir c) in ret (entryMap d).

Fixpoint for_each {A} (f : A → M P (list Change)) (l : list A) : M P (list Change) :=
  match l with
  | [] => ret []
  | x :: l => let! a := f x in let! b := for_each f l in ret (a ++ b)
  end.

Fixpoint emitSubtree (fuel : nat) (parentPath name : string) (e : Entry) (t : ChangeType) : M P (list Change) :=
  match fuel with
  | O => fail (PManifest MFuel)
  | S fuel =>
      let childPath := join parentPath name in
      let! ch := match t with
                 | ChangeDeleted => let! id := id_for childPath in ret (mkChange t id childPath None)
                 | _ => let! it := itemFromEntry parentPath e in ret (mkChange t (it_ID it) childPath (Some it))
                 end in
      if decide (rc_Kind (e_Cap e) ≠ KindDir) then ret [ch]
      else
        let! entries := dirEntries (e_Cap e) in
        let! rest := for_each (λ '(cn, ce), emitSubtree fuel childPath cn ce t)
                       (iter (match t with ChangeDeleted => false | _ => true end) childPath entries) in
        ret (ch :: rest)
  end.

Fixpoint diffDir (fuel : nat) (path : string) (oldCap newCap : ReadCap) : M P (list Change) :=
  match fuel with
  | O => fail (PManifest MFuel)
  | S fuel' =>
      if prov_capEqual oldCap newCap then ret []
      else
        let! oldEntries := dirEntries oldCap in
        let! newEntries := dirEntries newCap in
        let! a := for_each (λ '(name, ne),
          match oldEntries !! name with
          | None => emitSubtree fuel path name ne ChangeAdded
          | Some oe =>
              if prov_capEqual (e_Cap oe) (e_Cap ne) then ret []
              else if bool_decide (rc_Kind (e_Cap oe) = KindDir) && bool_decide (rc_Kind (e_Cap ne) = KindDir)
              then diffDir fuel' (join path name) (e_Cap oe) (e_Cap ne)
              else let! it := itemFromEntry path ne in
                   ret [mkChange ChangeModified (it_ID it) (join path name) (Some it)]
          end) (iter true path newEntries) in
        let! b := for_each (λ '(name, oe),
          match newEntries !! name with
          | Some _ => ret []
          | None => emitSubtree fuel path name oe ChangeDeleted
          end) (iter false path oldEntries) in
        ret (a ++ b)
  end.

Definition diff (fuel : nat) (oldRoot newRoot : ReadCap) : M P (list Change) := diffDir fuel "" oldRoot newRoot.

Definition CurrentAnchor (p : P) : SyncAnchor := mkAnchor (p_seq p) (p_root p).

Definition EnumerateChanges (fuel : nat) (since : SyncAnchor) : M P ChangeSet := λ p,
  let '(root, seq) := (p_root p, p_seq p) in
  (let! changes := diff fuel (an_Root since) root in ret (mkChanges changes (mkAnchor seq root))) p.
End diff.

(** ** The specification: entries by path *)

Section spec.
Context `{Hj : DirJson} {W : Type} `{Hb : !Blobs W}.

Definition kids (w : W) (c : ReadCap) : gmap string Entry :=
  if decide (rc_Kind c = KindDir) then match LoadDir c w with Ok d => entryMap d | Err _ => ∅ end else ∅.

(** The entry at a path of one or more names below a cap. *)
Fixpoint entry_at (w : W) (c : ReadCap) (parts : list string) : option Entry :=
  match parts with
  | [] => None
  | name :: rest =>
      match kids w c !! name, rest with
      | Some e, [] => Some e
      | Some e, _ => entry_at w (e_Cap e) rest
      | None, _ => None
      end
  end.

Definition is_dir_entry (e : Entry) : bool := bool_decide (rc_Kind (e_Cap e) = KindDir).

(** No path is a directory in one tree and something else in the other. *)
Definition kinds_agree (w : W) (old new : ReadCap) : Prop := ∀ parts a b,
  entry_at w old parts = Some a → entry_at w new parts = Some b → is_dir_entry a = is_dir_entry b.

(** The change at a path, from what is there before and after. *)
Definition change_of (a b : option Entry) : option ChangeType :=
  match a, b with
  | None, None => None
  | None, Some _ => Some ChangeAdded
  | Some _, None => Some ChangeDeleted
  | Some a, Some b => if decide (e_Cap a = e_Cap b) then None else if is_dir_entry b then None else Some ChangeModified
  end.

(** A change of kind [t] at the path [s] is in the list. *)
Definition reported (t : ChangeType) (s : string) (cs : list Change) : Prop :=
  ∃ ch, ch ∈ cs ∧ ch_Type ch = t ∧ ch_Path ch = s.

Definition joins (path : string) (parts : list string) : string := foldl join path parts.
End spec.

(** ** Correctness *)

Section facts.
Context `{Hsha : Sha256} `{Hcj : Json readCapJSON} `{Hj : DirJson} {W : Type} `{Hb : !Blobs W} {R : Type}.
Context (cfg : Config) {w_ok clean : W → Prop} {holds : W → Params → ChunkRef → bytes → Prop}.
Context `{HL : !BlobLaws W cfg w_ok clean holds}.
Context (Hcaps : ∀ c, cap_ok c → json_ok (cap_to_json c)).
Context (iter : bool → string → gmap string Entry → list (string * Entry)).
Context (Hiter : ∀ b s m, iter b s m ≡ₚ map_to_list m).
Abbreviation P := (Provider W R).
Abbreviation tree := (tree (holds := holds)).
Implicit Types (p : P) (w : W).

(** *** Equality of caps *)

Lemma prov_capEqual_eq a b : cap_ok a → cap_ok b → prov_capEqual a b = bool_decide (a = b).
Proof.
  intros Ha Hb'. unfold prov_capEqual, cap_MarshalBinary.
  destruct (json_roundtrip _ (Hcaps a Ha)) as (x & Ex & Ux), (json_roundtrip _ (Hcaps b Hb')) as (y & Ey & Uy).
  rewrite Ex, Ey. cbn [of_option]. apply bool_decide_ext. split; [intros ->|intros ->; congruence].
  assert (cap_to_json a = cap_to_json b) as E by congruence. pose proof (cap_json_roundtrip a Ha) as Ra. rewrite E, cap_json_roundtrip in Ra by done.
  by apply (inj Ok) in Ra.
Qed.

(** *** Trees and their entries *)

Lemma tree_kids w n c : w_ok w → tree w (S n) c →
  ∀ name e, kids w c !! name = Some e → e_Name e = name ∧ tree w n (e_Cap e).
Proof.
  intros Hok Ht name e. unfold kids. case_decide as Hk; [|by rewrite lookup_empty].
  inversion Ht as [|? ? d Hd _ Hes]; subst; [done|]. rewrite (dir_at_load (w_ok := w_ok) cfg w c d Hok Hd).
  destruct Hd as (_ & Hg & _). rewrite entryMap_dir by apply Hg. intros [E <-]%dir_map_Some; [|apply Hg].
  split; [done|]. by apply Hes.
Qed.

Lemma tree_zero w c : tree w 0 c → rc_Kind c ≠ KindDir.
Proof. by inversion 1. Qed.

Lemma tree_mono w n c : tree w n c → tree w (S n) c.
Proof.
  induction 1 as [n c Hk Hc|n c d Hd Hc _ IH]; [by apply tree_leaf|]. by eapply tree_dir.
Qed.

Lemma dirEntries_spec w n c p : w_ok w → tree w (S n) c → p_store p = w →
  dirEntries c p = (p, Ok (kids w c)).
Proof.
  intros Hok Ht Hp. unfold dirEntries, kids. case_decide as Hk; case_decide as Hk'; try done.
  inversion Ht as [|? ? d Hd _ Hes]; subst; [done|]. unfold bind, reads.
  by rewrite (dir_at_load (w_ok := w_ok) cfg (p_store p) c d Hok Hd).
Qed.

(** *** Effects: only identifiers are minted *)

(** [m] succeeds without touching the store and reports exactly [Q]. *)
Definition reports w (m : M P (list Change)) (Q : ChangeType → string → Prop) : Prop :=
  ∀ p, p_store p = w → ∃ p' cs, m p = (p', Ok cs) ∧ p_store p' = w ∧ ∀ t s, reported t s cs ↔ Q t s.

Lemma reports_iff w m Q Q' : (∀ t s, Q t s ↔ Q' t s) → reports w m Q → reports w m Q'.
Proof. intros Hq Hm p Hp. destruct (Hm p Hp) as (p' & cs & E & Hp' & Hr). exists p', cs. split_and!; [done..|]. intros t s. by rewrite Hr. Qed.

Lemma reported_app t s xs ys : reported t s (xs ++ ys) ↔ reported t s xs ∨ reported t s ys.
Proof. unfold reported. set_solver. Qed.
Lemma reported_nil t s : ¬ reported t s [].
Proof. by intros (ch & ?%elem_of_nil & _). Qed.
Lemma reported_cons t s ch cs : reported t s (ch :: cs) ↔ (ch_Type ch = t ∧ ch_Path ch = s) ∨ reported t s cs.
Proof. unfold reported. set_solver. Qed.

Lemma reports_ret_nil w : reports w (ret []) (λ _ _, False).
Proof. intros p Hp. exists p, []. split_and!; [done..|]. intros t s. split; [apply reported_nil|done]. Qed.

Lemma item_mints parentPath e p : ∃ it p', itemFromEntry parentPath e p = (p', Ok it) ∧ p_store p' = p_store p.
Proof.
  unfold itemFromEntry, bind, id_for. destruct (idFor _ (p_ids p)) as [i1 id1]. cbn.
  destruct (idFor _ i1) as [i2 id2]. by eexists _, _.
Qed.

Lemma reports_bind w m k Q1 Q2 : reports w m Q1 → reports w k Q2 →
  reports w (let! a := m in let! b := k in ret (a ++ b)) (λ t s, Q1 t s ∨ Q2 t s).
Proof.
  intros H1 H2 p Hp. destruct (H1 p Hp) as (p1 & a & E1 & Hp1 & R1), (H2 p1 Hp1) as (p2 & b & E2 & Hp2 & R2).
  exists p2, (a ++ b). unfold bind. rewrite E1, E2. split_and!; [done..|]. intros t s. by rewrite reported_app, R1, R2.
Qed.

Lemma reports_for_each {A} w (f : A → M P (list Change)) (Q : A → ChangeType → string → Prop) l :
  (∀ x, x ∈ l → reports w (f x) (Q x)) → reports w (for_each f l) (λ t s, ∃ x, x ∈ l ∧ Q x t s).
Proof.
  induction l as [|x l IH]; intros Hf.
  - eapply reports_iff; [|apply reports_ret_nil]. intros t s. set_solver.
  - cbn [for_each]. eapply reports_iff; [|apply reports_bind; [apply Hf; left|apply IH; intros y Hy; apply Hf; by right]].
    intros t s. set_solver.
Qed.

Lemma elem_of_iter b q m name e : (name, e) ∈ iter b q m ↔ m !! name = Some e.
Proof. rewrite (Hiter b q m). apply elem_of_map_to_list. Qed.

Lemma exists_iter b q m (Q : string → Entry → ChangeType → string → Prop) t s :
  (∃ x, x ∈ iter b q m ∧ (λ '(name, e), Q name e) x t s) ↔ ∃ name e, m !! name = Some e ∧ Q name e t s.
Proof.
  split.
  - intros ([name e] & Hin%elem_of_iter & HQ). eauto.
  - intros (name & e & Hin & HQ). exists (name, e). by rewrite elem_of_iter.
Qed.

Lemma kids_leaf w c : rc_Kind c ≠ KindDir → kids w c = ∅.
Proof. intros Hk. unfold kids. by rewrite decide_False. Qed.

Lemma entry_at_cons w c name rest :
  entry_at w c (name :: rest) = match kids w c !! name with
    | None => None
    | Some e => if decide (rest = []) then Some e else entry_at w (e_Cap e) rest end.
Proof. cbn. destruct (kids w c !! name) as [e|]; [|by destruct rest]. by destruct rest. Qed.

Lemma entry_at_leaf w c parts : rc_Kind c ≠ KindDir → entry_at w c parts = None.
Proof. intros Hk. destruct parts as [|x parts]; [done|]. by rewrite entry_at_cons, kids_leaf, lookup_empty. Qed.

(** The paths an entry brings along. *)
Definition brings w (e : Entry) (child s : string) : Prop :=
  s = child ∨ ∃ parts, is_Some (entry_at w (e_Cap e) parts) ∧ s = joins child parts.

Lemma brings_kids w e child s : brings w e child s ↔
  s = child ∨ ∃ cn ce, kids w (e_Cap e) !! cn = Some ce ∧ brings w ce (join child cn) s.
Proof.
  unfold brings. split; (intros [?|H]; [by left|right]).
  - destruct H as ([|cn parts] & [x Hx] & ->); [done|]. rewrite entry_at_cons in Hx.
    destruct (kids w (e_Cap e) !! cn) as [ce|] eqn:E; [|done]. exists cn, ce. split; [done|].
    case_decide as Hr; [subst; by left|]. right. exists parts. split; [by eexists|done].
  - destruct H as (cn & ce & E & [-> |(parts & [x Hx] & ->)]).
    + exists [cn]. rewrite entry_at_cons, E. split; [by rewrite decide_True|done].
    + exists (cn :: parts). rewrite entry_at_cons, E. split; [|done]. case_decide; eauto.
Qed.

Lemma emit_head w t parent name e p : p_store p = w →
  ∃ p1 ch, (match t with
     | ChangeDeleted => let! id := id_for (join parent name) in ret (mkChange t id (join parent name) None)
     | _ => let! it := itemFromEntry parent e in ret (mkChange t (it_ID it) (join parent name) (Some it))
     end) p = (p1, Ok ch) ∧ p_store p1 = w ∧ ch_Type ch = t ∧ ch_Path ch = join parent name.
Proof.
  intros Hp. destruct (item_mints parent e p) as (it & pi & Ei & Hi).
  destruct t; [unfold bind; rewrite Ei..|].
  - eexists _, _. split; [done|]. split; [by rewrite Hi|done].
  - eexists _, _. split; [done|]. split; [by rewrite Hi|done].
  - unfold bind, id_for. destruct (idFor _ (p_ids p)) as [i id]. eexists _, _. split; [done|]. by split.
Qed.

Lemma emitSubtree_S fuel parentPath name e t :
  emitSubtree (R := R) iter (S fuel) parentPath name e t =
    let! ch := match t with
               | ChangeDeleted => let! id := id_for (join parentPath name) in ret (mkChange t id (join parentPath name) None)
               | _ => let! it := itemFromEntry parentPath e in ret (mkChange t (it_ID it) (join parentPath name) (Some it))
               end in
    if decide (rc_Kind (e_Cap e) ≠ KindDir) then ret [ch]
    else
      let! entries := dirEntries (e_Cap e) in
      let! rest := for_each (λ '(cn, ce), emitSubtree iter fuel (join parentPath name) cn ce t)
                     (iter (match t with ChangeDeleted => false | _ => true end) (join parentPath name) entries) in
      ret (ch :: rest).
Proof. done. Qed.

Lemma emit_reports w : w_ok w → ∀ n e parent name t, tree w n (e_Cap e) →
  reports w (emitSubtree iter (S n) parent name e t) (λ t' s, t' = t ∧ brings w e (join parent name) s).
Proof.
  intros Hok. induction n as [|n IH]; intros e parent name t Ht p Hp; rewrite emitSubtree_S;
    destruct (emit_head w t parent name e p Hp) as (p1 & ch & Eh & Hp1 & Et & Ep); unfold bind at 1; rewrite Eh; clear Eh.
  - rewrite decide_True by by inversion Ht. exists p1, [ch]. split; [done|]. split; [done|]. intros t' s.
    rewrite reported_cons, brings_kids, kids_leaf by by inversion Ht. setoid_rewrite lookup_empty.
    pose proof (reported_nil t' s). naive_solver.
  - case_decide as Hk.
    + exists p1, [ch]. split; [done|]. split; [done|]. intros t' s. rewrite reported_cons, brings_kids, kids_leaf by done.
      setoid_rewrite lookup_empty. pose proof (reported_nil t' s). naive_solver.
    + unfold bind at 1. rewrite (dirEntries_spec w n) by done. cbv beta iota.
      destruct (reports_for_each w (λ '(cn, ce), emitSubtree iter (S n) (join parent name) cn ce t)
        (λ '(cn, ce), λ t' s, t' = t ∧ brings w ce (join (join parent name) cn) s)
        (iter (match t with ChangeDeleted => false | _ => true end) (join parent name) (kids w (e_Cap e)))) with (p := p1)
        as (p2 & cs & E2 & Hp2 & R2); [|done|].
      { intros [cn ce] Hin. apply elem_of_iter in Hin. apply IH. by eapply (tree_kids w n (e_Cap e)). }
      unfold bind. rewrite E2. exists p2, (ch :: cs). split; [done|]. split; [done|]. intros t' s.
      rewrite reported_cons, R2, brings_kids, exists_iter. naive_solver.
Qed.

(** *** The walk *)

Definition both_dirs (a b : Entry) : bool :=
  bool_decide (rc_Kind (e_Cap a) = KindDir) && bool_decide (rc_Kind (e_Cap b) = KindDir).

(** What the walk reports at a path, name by name. *)
Fixpoint delta w (old new : ReadCap) (t : ChangeType) (parts : list string) : Prop :=
  match parts with
  | [] => False
  | name :: rest =>
      match kids w old !! name, kids w new !! name with
      | None, None => False
      | None, Some ne => t = ChangeAdded ∧ (rest = [] ∨ is_Some (entry_at w (e_Cap ne) rest))
      | Some oe, None => t = ChangeDeleted ∧ (rest = [] ∨ is_Some (entry_at w (e_Cap oe) rest))
      | Some oe, Some ne => e_Cap oe ≠ e_Cap ne ∧
          if both_dirs oe ne then delta w (e_Cap oe) (e_Cap ne) t rest else t = ChangeModified ∧ rest = []
      end
  end.

Lemma delta_same w c t parts : ¬ delta w c c t parts.
Proof. destruct parts as [|name rest]; cbn; [by intros []|]. destruct (kids w c !! name); [by intros [? _]|by intros []]. Qed.

Lemma brings_rest w e child s : brings w e child s ↔ ∃ rest, s = joins child rest ∧ (rest = [] ∨ is_Some (entry_at w (e_Cap e) rest)).
Proof.
  unfold brings. split.
  - intros [->|(parts & Hs & ->)]; [exists []; split; [done|by left]|]. exists parts. auto.
  - intros (rest & -> & [->|Hs]); [by left|]. right. eauto.
Qed.

Definition new_case w old path (name : string) (ne : Entry) (t : ChangeType) (s : string) : Prop :=
  match kids w old !! name with
  | None => t = ChangeAdded ∧ brings w ne (join path name) s
  | Some oe => e_Cap oe ≠ e_Cap ne ∧
      if both_dirs oe ne then ∃ parts, s = joins (join path name) parts ∧ delta w (e_Cap oe) (e_Cap ne) t parts
      else t = ChangeModified ∧ s = join path name
  end.
Definition old_case w new path (name : string) (oe : Entry) (t : ChangeType) (s : string) : Prop :=
  match kids w new !! name with Some _ => False | None => t = ChangeDeleted ∧ brings w oe (join path name) s end.

Lemma cases_delta w old new path t s :
  (∃ name ne, kids w new !! name = Some ne ∧ new_case w old path name ne t s) ∨
  (∃ name oe, kids w old !! name = Some oe ∧ old_case w new path name oe t s) ↔
  ∃ parts, s = joins path parts ∧ delta w old new t parts.
Proof.
  unfold new_case, old_case. split.
  - intros [(name & ne & En & H)|(name & oe & Eo & H)].
    + destruct (kids w old !! name) as [oe|] eqn:Eo.
      * destruct H as [Hne H]. destruct (both_dirs oe ne) eqn:Eb.
        -- destruct H as (parts & -> & Hd). exists (name :: parts). split; [done|]. cbn. by rewrite Eo, En, Eb.
        -- destruct H as [-> ->]. exists [name]. split; [done|]. cbn. by rewrite Eo, En, Eb.
      * destruct H as [-> (rest & -> & Hr)%brings_rest]. exists (name :: rest). split; [done|]. cbn. by rewrite Eo, En.
    + destruct (kids w new !! name) as [ne|] eqn:En; [done|]. destruct H as [-> (rest & -> & Hr)%brings_rest].
      exists (name :: rest). split; [done|]. cbn. by rewrite Eo, En.
  - intros ([|name rest] & -> & H); [done|]. cbn in H.
    destruct (kids w old !! name) as [oe|] eqn:Eo, (kids w new !! name) as [ne|] eqn:En; [| | |done].
    + left. exists name, ne. split; [done|]. rewrite Eo. destruct H as [Hne H]. split; [done|].
      destruct (both_dirs oe ne); [by exists rest|]. by destruct H as [-> ->].
    + right. exists name, oe. split; [done|]. rewrite En. destruct H as [-> Hr]. split; [done|]. apply brings_rest. by exists rest.
    + left. exists name, ne. split; [done|]. rewrite Eo. destruct H as [-> Hr]. split; [done|]. apply brings_rest. by exists rest.
Qed.

Lemma reports_item w path name ne : reports w
  (let! it := itemFromEntry path ne in ret [mkChange ChangeModified (it_ID it) (join path name) (Some it)])
  (λ t s, t = ChangeModified ∧ s = join path name).
Proof.
  intros p Hp. destruct (item_mints path ne p) as (it & p1 & E & Hs). unfold bind. rewrite E. eexists p1, _. split; [done|].
  split; [by rewrite Hs|]. intros t s. rewrite reported_cons. pose proof (reported_nil t s). cbn. naive_solver.
Qed.

Lemma diff_reports w : w_ok w → ∀ n path old new, tree w (S n) old → tree w (S n) new →
  reports w (diffDir iter (S n) path old new) (λ t s, ∃ parts, s = joins path parts ∧ delta w old new t parts).
Proof.
  intros Hok. induction n as [n IH] using lt_wf_ind. intros path old new Ho Hn.
  pose proof (tree_kids w n old Hok Ho) as Ko. pose proof (tree_kids w n new Hok Hn) as Kn.
  intros p Hp. cbn [diffDir]. rewrite prov_capEqual_eq by by eapply tree_cap_ok. case_bool_decide as Hq.
  { subst new. exists p, []. split; [done|]. split; [done|]. intros t s. split; [by intros ?%reported_nil|].
    intros (parts & _ & Hd). by apply delta_same in Hd. }
  unfold bind at 1. rewrite (dirEntries_spec w n) by done. cbv beta iota. unfold bind at 1.
  rewrite (dirEntries_spec w n) by done. cbv beta iota. revert p Hp. fold (reports w).
  match goal with |- ∀ p, p_store p = w → ∃ p' cs, ?m p = _ ∧ _ => change (reports w m (λ t s, ∃ parts, s = joins path parts ∧ delta w old new t parts)) end.
  eapply reports_iff; [intros t s; apply cases_delta|]. apply reports_bind.
  - eapply reports_iff; [intros t s; apply (exists_iter true path (kids w new) (new_case w old path))|].
    apply (reports_for_each w _ (λ '(name, ne), new_case w old path name ne)). intros [name ne] Hin. apply elem_of_iter in Hin.
    destruct (Kn name ne Hin) as [_ Tn]. unfold new_case. destruct (kids w old !! name) as [oe|] eqn:Eo; [|by apply emit_reports].
    destruct (Ko name oe Eo) as [_ To]. rewrite prov_capEqual_eq by by eapply tree_cap_ok.
    case_bool_decide as Hc; [eapply reports_iff; [|apply reports_ret_nil]; naive_solver|].
    fold (both_dirs oe ne). destruct (both_dirs oe ne) eqn:Eb.
    + destruct n as [|n]. { apply andb_prop in Eb as [Eb _]. apply bool_decide_eq_true in Eb. by inversion To. }
      eapply reports_iff; [|apply (IH n); [lia|done|done]]. naive_solver.
    + eapply reports_iff; [|apply reports_item]. naive_solver.
  - eapply reports_iff; [intros t s; apply (exists_iter false path (kids w old) (old_case w new path))|].
    apply (reports_for_each w _ (λ '(name, oe), old_case w new path name oe)). intros [name oe] Hin. apply elem_of_iter in Hin.
    destruct (Ko name oe Hin) as [_ To]. unfold old_case. destruct (kids w new !! name) as [ne|] eqn:En; [apply reports_ret_nil|].
    by apply emit_reports.
Qed.

(** *** The walk against the specification *)

Lemma delta_change w parts : ∀ old new t, kinds_agree w old new →
  (delta w old new t parts ↔ change_of (entry_at w old parts) (entry_at w new parts) = Some t).
Proof.
  induction parts as [|name rest IH]; intros old new t Hk; [done|]. rewrite !entry_at_cons. cbn [delta].
  destruct (kids w old !! name) as [oe|] eqn:Eo, (kids w new !! name) as [ne|] eqn:En; [| | |done].
  - assert (is_dir_entry oe = is_dir_entry ne) as Hd.
    { apply (Hk [name]); rewrite entry_at_cons; [rewrite Eo|rewrite En]; by rewrite decide_True. }
    assert (both_dirs oe ne = is_dir_entry ne) as ->.
    { unfold both_dirs. fold (is_dir_entry oe) (is_dir_entry ne). rewrite Hd. by destruct (is_dir_entry ne). }
    case_decide as Hr.
    + subst rest. cbn [change_of]. case_decide; [naive_solver|]. destruct (is_dir_entry ne); [naive_solver|].
      split; [by intros [_ [-> _]]|]. intros [= ->]. done.
    + destruct (decide (e_Cap oe = e_Cap ne)) as [Ec|Ec].
      { rewrite Ec. split; [naive_solver|]. destruct (entry_at w (e_Cap ne) rest); cbn; [|done]. by rewrite decide_True. }
      destruct (is_dir_entry ne) eqn:Ed.
      * rewrite <-IH; [naive_solver|]. intros q a b Ha Hb'. destruct q as [|x q]; [done|].
        apply (Hk (name :: x :: q)); rewrite entry_at_cons; [rewrite Eo|rewrite En]; by rewrite decide_False.
      * apply bool_decide_eq_false in Ed. apply bool_decide_eq_false in Hd. rewrite !entry_at_leaf by done. cbn. naive_solver.
  - destruct (decide (rest = [])) as [->|Hr]; cbn; [naive_solver|]. destruct (entry_at w (e_Cap oe) rest) as [e|]; cbn.
    + split; [by intros [-> _]|]. intros [= <-]. split; [done|]. right. by eexists.
    + split; [|done]. by intros [_ [?|[? ?]]].
  - destruct (decide (rest = [])) as [->|Hr]; cbn; [naive_solver|]. destruct (entry_at w (e_Cap ne) rest) as [e|]; cbn.
    + split; [by intros [-> _]|]. intros [= <-]. split; [done|]. right. by eexists.
    + split; [|done]. by intros [_ [?|[? ?]]].
Qed.

(** When a name of the root turns from a file into a directory, whatever
    the directory holds, the change enumeration reports one modification at that
    name and nothing below it: the items the directory brought are not reported
    as added. *)
Theorem kind_change_hides_items n since p name oe ne :
  w_ok (p_store p) → tree (p_store p) (S n) (an_Root since) → tree (p_store p) (S n) (p_root p) →
  kids (p_store p) (an_Root since) !! name = Some oe → kids (p_store p) (p_root p) !! name = Some ne →
  is_dir_entry oe = false → is_dir_entry ne = true →
  delete name (kids (p_store p) (an_Root since)) = delete name (kids (p_store p) (p_root p)) →
  ∃ p' cs, EnumerateChanges iter (S n) since p = (p', Ok (mkChanges cs (CurrentAnchor p))) ∧
    ∀ t s, reported t s cs ↔ t = ChangeModified ∧ s = join "" name.
Proof.
  intros Hok Ho Hn Eo En Do Dn Hd. destruct (diff_reports (p_store p) Hok n "" (an_Root since) (p_root p) Ho Hn p eq_refl) as (p' & cs & E & Hp' & Hr).
  exists p', cs. split; [unfold EnumerateChanges, diff, bind; by rewrite E|]. intros t s. rewrite Hr.
  assert (∀ parts, delta (p_store p) (an_Root since) (p_root p) t parts ↔ t = ChangeModified ∧ parts = [name]) as Hdel.
  { intros [|x rest]; [naive_solver|]. cbn [delta]. destruct (decide (x = name)) as [->|Hx].
    - rewrite Eo, En. unfold both_dirs. fold (is_dir_entry oe). rewrite Do. cbn [andb].
      assert (e_Cap oe ≠ e_Cap ne) as Hne by (intros Hc; unfold is_dir_entry in Do, Dn; rewrite Hc, Dn in Do; done).
      split; [by intros (_ & -> & ->)|by intros [-> [= ->]]].
    - rewrite <-(lookup_delete_ne _ name x), <-(lookup_delete_ne (kids _ (p_root p)) name x), Hd by done.
      destruct (delete name (kids (p_store p) (p_root p)) !! x); naive_solver. }
  setoid_rewrite Hdel. split; [|by intros [-> ->]; exists [name]]. by intros (parts & -> & -> & ->).
Qed.
End facts.

(** ** Witnesses *)

Definition ex_iter (_ : bool) (_ : string) (m : gmap string Entry) : list (string * Entry) := map_to_list m.

(** The provider at the remote root of the merge example. *)
Definition ex_at (w : Vault Mem.MemStore) (root : ReadCap) : Provider (Vault Mem.MemStore) MemRootStore :=
  mkProv w (mkMemRoot None) newIdentity root 1.

Lemma ex_kids w c d : ex_vok w → @dir_at ex_dj _ ex_holds w c d → @kids ex_dj _ ex_blobs w c = entryMap d.
Proof.
  intros Hok Hd. unfold kids. rewrite decide_True by exact (dir_at_kind _ _ _ Hd).
  by rewrite (@dir_at_load ex_dj _ ex_blobs ex_cfg ex_vok ex_clean ex_holds ex_laws w c d Hok Hd).
Qed.

Lemma ex_flat w c parts e : @tree ex_dj _ ex_holds w 1 c → ex_vok w →
  @entry_at ex_dj _ ex_blobs w c parts = Some e → is_dir_entry e = false.
Proof.
  intros Ht Hok. destruct parts as [|name rest]; [done|]. rewrite entry_at_cons.
  destruct (@kids ex_dj _ ex_blobs w c !! name) as [x|] eqn:E; [|done].
  pose proof (proj2 (@tree_kids ex_dj _ ex_blobs ex_cfg ex_vok ex_clean ex_holds ex_laws w 0 c Hok Ht name x E)) as Hx.
  assert (rc_Kind (e_Cap x) ≠ KindDir) as Hk by exact (tree_zero _ _ Hx). case_decide as Hr.
  - intros [= <-]. by apply bool_decide_eq_false.
  - by rewrite entry_at_leaf.
Qed.


(** The root in which "c" is the local directory of the merge example. *)
Definition ex_over : DirManifest := mkDir zeroMeta [mkEntry "c" ex_local (bareStat KindDir)].
Definition ex_overed : Vault Mem.MemStore * result manifest_err ReadCap := @StoreDir ex_dj _ ex_blobs ex_cfg ex_over ex_remoted.1.

Lemma ex_over_trees : ex_vok ex_overed.1 ∧ @tree ex_dj _ ex_holds ex_overed.1 2 ex_remote ∧
  @tree ex_dj _ ex_holds ex_overed.1 2 (cap_of ex_overed.2) ∧ is_dir_entry (mkEntry "c" ex_local (bareStat KindDir)) = true.
Proof.
  destruct ex_three as (Hok & _ & Htl & Hte).
  assert (cap_ok ex_local ∧ rc_Kind ex_local = KindDir) as [Hc Hk] by (split; [exact (tree_cap_ok _ _ _ Htl)|vm_compute; reflexivity]).
  destruct (@StoreDir_spec ex_dj _ ex_blobs ex_cfg ex_vok ex_clean ex_holds ex_laws ex_over ex_remoted.1 ex_overed.1 ex_overed.2)
    as (c & E & Hd & Hcc & Hx).
  - exact Hok.
  - apply ex_good; [vm_compute; reflexivity|repeat constructor|by apply Forall_singleton].
  - exact (surjective_pairing ex_overed).
  - apply is_clean_ok. vm_compute. reflexivity.
  - split; [exact (proj1 Hx)|]. split; [by apply tree_mono, (tree_ext _ _ _ _ Hx)|]. rewrite E. split; [|by apply bool_decide_eq_true].
    apply (@tree_dir ex_dj _ ex_holds ex_overed.1 1 c ex_over Hd Hcc). intros e He. apply list_elem_of_singleton in He as ->.
    exact (tree_ext _ _ _ _ Hx Htl).
Qed.

Lemma kind_change_hides_items_witness :
  ∃ p' cs, @EnumerateChanges mod_sha toy_cap_json ex_dj _ ex_blobs _ ex_iter 2 (mkAnchor 0 ex_remote) (ex_at ex_overed.1 (cap_of ex_overed.2)) =
    (p', Ok (mkChanges cs (mkAnchor 1 (cap_of ex_overed.2)))) ∧ ∀ t s, reported t s cs ↔ t = ChangeModified ∧ s = "c".
Proof.
  destruct ex_over_trees as (Hok & Htr & Hto & Hd).
  apply (@kind_change_hides_items mod_sha toy_cap_json ex_dj _ ex_blobs _ ex_cfg ex_vok ex_clean ex_holds ex_laws (λ _ _, I) ex_iter
    (λ _ _ _, reflexivity _) 1 (mkAnchor 0 ex_remote) (ex_at ex_overed.1 (cap_of ex_overed.2)) "c" (ex_entry "c" Byte.x06)
    (mkEntry "c" ex_local (bareStat KindDir))).
  - exact Hok.
  - exact Htr.
  - exact Hto.
  - vm_compute. reflexivity.
  - vm_compute. reflexivity.
  - reflexivity.
  - exact Hd.
  - vm_compute. reflexivity.
Defined.
