(* ===== verification/Commit.v ===== *)
(** * cmd/revika-ctl: committing a root (commands.go)

    [commitRoot] advances a User's namespace: it reads the root published in the
    DHT, merges it when another device moved it, signs, seals the companion,
    publishes both records, reads back to catch a racing writer and saves the
    durable file. The blob store, the DHT and the file are the three parts of
    the state. The DHT is any [FullRootPublisher]: its answers may change between
    two calls, which is how other devices and a hostile DHT appear. *)

From S2P Require Import Prelude GoLib Store Crypto Stripe Erasure Chunk Pipeline Blobs Wire Codec Base64 Manifest Namespace Merge.
From S2P Require Import Root Device Discovery RootStores.

(** ** Interfaces and data *)

(** [fullRootPublisher]: the publisher of a root store, and the two methods of the
    sealed companion. *)
Class FullRootPublisher (D : Type) := {
  frp_root :: RootPublisher D;
  frp_PutFullRoot : FullRootRecord → D → D * result net_err unit;
  frp_GetFullRoot : bytes → bytes → ReadCap → D → D * result net_err (option ReadCap);
}.
#[export] Instance discovery_full `{Ed25519, AesGcm, MlKem, Json readCapJSON, Json rootPointerJSON, Json fullRootJSON} {D} `{!Dht D} :
    FullRootPublisher D :=
  {| frp_root := discovery_publisher; frp_PutFullRoot := PutFullRoot; frp_GetFullRoot := GetFullRoot |}.

(** What the dynamic type of the publisher offers. *)
Inductive pub_kind := PubNil | PubRoot | PubFull.

Record commitConfig := mkCC {
  cc_signer : bytes; cc_mlkemOK : bool; cc_priv : bytes; cc_pub : bytes; cc_label : string → string;
  cc_cfg : Config; cc_recipients : list bytes }.

(** The clock and the random source of one attempt. *)
Record Draw := mkDraw { dr_now : Z; dr_rnd : nat → bytes; dr_nonce : nat → option bytes }.

Record Site (W D F : Type) := mkSite { si_blobs : W; si_dht : D; si_file : F }.
Arguments mkSite {W D F}. Arguments si_blobs {W D F}. Arguments si_dht {W D F}. Arguments si_file {W D F}.

Inductive commit_err :=
| CSealedRoot | CForeignRoot | CMerge (e : manifest_err) | CSign (e : manifest_err) | CSealErr (e : fullroot_err)
| CSave (e : rs_err) | CGaveUp.

Definition commitMaxAttempts : nat := 5.

(** [deviceLabeler], for the tag of the device ("" when it has none). *)
Definition deviceLabeler (tag name : string) : string :=
  if decide (tag = "") then DefaultLabeler name
  else let ext := path_Ext name in TrimSuffix name ext +:+ " (conflict " +:+ tag +:+ ")" +:+ ext.

(** [newRootStore]: the file with the passphrase of the process, if any. *)
Definition newRootStore (passphrase : option bytes) (f : FileRootStore) : FileRootStore :=
  mkFileRoot (fs_path f) (fs_tmp f) passphrase (fs_env f) (fs_calls f).

(** ** The commit *)

Section commit.
Context `{Hed : Ed25519} `{Hgcm : AesGcm} `{Hkem : MlKem} `{Hcj : Json readCapJSON} `{Hj : DirJson}.
Context {W D F : Type} `{Hb : !Blobs W} `{Hpub : !FullRootPublisher D} `{Hrs : !RootStore F}.
Implicit Types (cc : commitConfig) (dr : Draw) (s : Site W D F) (prev remote : option RootPointer).

(** [sameVerify]: the caps address the same blob, keys aside. *)
Definition sameVerify (a b : ReadCap) : bool := capBytesEqual (strip_cap a) (strip_cap b).

Definition sealCompanion cc dr (root : ReadCap) (seq : Z) : result fullroot_err FullRootRecord :=
  match cc_recipients cc with
  | [] => SealFullRoot (dr_rnd dr 0) (dr_nonce dr 0) (cc_signer cc) (cc_pub cc) root seq
  | recipients => SealFullRootFor (dr_rnd dr) (dr_nonce dr) (cc_signer cc) recipients root seq
  end.

Definition with_dht (d : D) s : Site W D F := mkSite (si_blobs s) d (si_file s).
Definition with_file (f : F) s : Site W D F := mkSite (si_blobs s) (si_dht s) f.
Definition with_blobs (w : W) s : Site W D F := mkSite w (si_dht s) (si_file s).

Definition commitLocalOnly cc dr (newRoot : ReadCap) prev (hasPub : bool) s : Site W D F * result commit_err unit :=
  let seq := match prev with Some p => u64 (rp_Seq p + 1) | None => 1 end in
  match SignRoot (cc_signer cc) newRoot seq (dr_now dr) with
  | Err e => (s, Err (CSign e))
  | Ok rp =>
      if hasPub then
        let '(m, r) := multi_Save rp (mkMulti (si_file s) [mkDHTRoot (si_dht s) (Public (cc_signer cc))]) in
        (mkSite (si_blobs s) (default (si_dht s) (ds_pub <$> head (mu_mirrors m))) (mu_primary m), map_err CSave r)
      else let '(f, r) := rs_Save rp (si_file s) in (with_file f s, map_err CSave r)
  end.

(** The sequence number of an attempt. *)
Definition next_seq (prevSeq : Z) remote : Z :=
  let newSeq := u64 (prevSeq + 1) in
  match remote with
  | Some r => if newSeq <? u64 (rp_Seq r + 1) then u64 (rp_Seq r + 1) else newSeq
  | None => newSeq
  end.

(** Whether the switch of the loop reaches its default case. *)
Definition forked prev remote : bool :=
  match remote, prev with
  | None, _ => false
  | Some r, None => true
  | Some r, Some p => negb (rp_Seq r <? rp_Seq p) && negb (sameVerify (rp_Root r) (rp_Root p))
  end.

(** The switch: the root to publish and the conflicts of the merge. *)
Definition fold_remote cc (fuel : nat) prev (localTip : ReadCap) remote s
    : Site W D F * result commit_err (ReadCap * list string) :=
  match remote with
  | Some r =>
      if forked prev remote then
        let '(d, full) := frp_GetFullRoot (Public (cc_signer cc)) (cc_priv cc) (rp_Root r) (si_dht s) in
        let s := with_dht d s in
        match full with
        | Ok (Some remoteFull) =>
            let base := match prev with Some p => rp_Root p | None => zeroCap end in
            let '(w, m) := Merge3 (cc_cfg cc) (cc_label cc) fuel base localTip remoteFull (si_blobs s) in
            (with_blobs w s, map_err CMerge m)
        | _ => (s, Ok (localTip, []))
        end
      else (s, Ok (localTip, []))
  | None => (s, Ok (localTip, []))
  end.

(** An attempt ends the commit, or was raced: fold in and try again. *)
Inductive attempt_res := Settled (r : result commit_err (list string)) | Raced (merged : ReadCap) (seq : Z).

(** From the merged root on: sign, seal, publish both records, re-read, save. *)
Definition publish_root cc dr (merged : ReadCap) (newSeq : Z) (conflicts : list string) s : Site W D F * attempt_res :=
  match SignRoot (cc_signer cc) merged newSeq (dr_now dr) with
  | Err e => (s, Settled (Err (CSign e)))
  | Ok rp =>
      match sealCompanion cc dr merged newSeq with
      | Err e => (s, Settled (Err (CSealErr e)))
      | Ok rec =>
          let '(d, _) := frp_PutFullRoot rec (si_dht s) in
          let '(d, _) := pub_PutRoot rp d in
          let '(d, cur) := pub_GetRoot (Public (cc_signer cc)) d in
          let s := with_dht d s in
          let save :=
            let '(f, r) := rs_Save rp (si_file s) in
            (with_file f s, Settled (match r with Ok _ => Ok conflicts | Err e => Err (CSave e) end)) in
          match cur with
          | Ok (Some cur) =>
              if (newSeq <=? rp_Seq cur) && negb (sameVerify (rp_Root cur) merged) then (s, Raced merged (rp_Seq cur)) else save
          | _ => save
          end
      end
  end.

Definition commit_attempt cc dr (fuel : nat) prev (localTip : ReadCap) (prevSeq : Z) s : Site W D F * attempt_res :=
  let '(d, remote) := pub_GetRoot (Public (cc_signer cc)) (si_dht s) in
  let s := with_dht d s in
  match remote with
  | Err _ =>
      let '(s, r) := commitLocalOnly cc dr localTip prev true s in
      (s, Settled (match r with Ok _ => Ok [] | Err e => Err e end))
  | Ok remote =>
      let '(s, m) := fold_remote cc fuel prev localTip remote s in
      match m with
      | Err e => (s, Settled (Err e))
      | Ok (merged, conflicts) => publish_root cc dr merged (next_seq prevSeq remote) conflicts s
      end
  end.

(** The loop, with [n] attempts left; attempt [i] draws [draws i]. *)
Fixpoint commit_loop cc (draws : nat → Draw) (fuel : nat) prev (n i : nat) (localTip : ReadCap) (prevSeq : Z) s
    : Site W D F * result commit_err (list string) :=
  match n with
  | O => (s, Err CGaveUp)
  | S n =>
      let '(s, a) := commit_attempt cc (draws i) fuel prev localTip prevSeq s in
      match a with
      | Settled r => (s, r)
      | Raced merged seq => commit_loop cc draws fuel prev n (S i) merged seq s
      end
  end.

(** The paths reported as conflicts, on success. *)
Definition commitRoot cc (draws : nat → Draw) (fuel : nat) (newRoot : ReadCap) prev (sealed : bool) (pub : pub_kind) s
    : Site W D F * result commit_err (list string) :=
  if sealed then (s, Err CSealedRoot)
  else if match prev with Some p => bool_decide (rp_Owner p ≠ Public (cc_signer cc)) | None => false end then (s, Err CForeignRoot)
  else match pub, cc_mlkemOK cc with
       | PubFull, true => commit_loop cc draws fuel prev commitMaxAttempts 0 newRoot (match prev with Some p => rp_Seq p | None => 0 end) s
       | _, _ =>
           let '(s, r) := commitLocalOnly cc (draws 0%nat) newRoot prev (match pub with PubNil => false | _ => true end) s in
           (s, match r with Ok _ => Ok [] | Err e => Err e end)
       end.
End commit.

(** ** A merge of trees is a tree *)

Lemma Upsert_elem d e x : x ∈ dm_Entries (Upsert d e) → x = e ∨ x ∈ dm_Entries d.
Proof.
  assert (x ∈ (λ cur, if decide (e_Name cur = e_Name e) then e else cur) <$> dm_Entries d → x = e ∨ x ∈ dm_Entries d) as Hm.
  { intros (y & -> & Hy)%list_elem_of_fmap. case_decide; auto. }
  unfold Upsert. cbn [dm_Entries]. destruct (existsb _ _); [done|]. unfold sort_entries. rewrite (sort_by_perm e_Name), elem_of_app, list_elem_of_singleton.
  intros [?|?]; auto.
Qed.

(** The entries a verdict keeps come from one of the sides. *)
Lemma judge_from l r b :
  match judge l r b with
  | VKeep (Some e) | VEdit e => l = Some e ∨ r = Some e
  | VBoth le re => l = Some le ∧ r = Some re
  | _ => True
  end.
Proof.
  unfold judge. destruct (capEqual (capOf l) (capOf r)); [destruct l; auto|].
  destruct (capEqual (capOf b) (capOf l)); [destruct r; auto|]. destruct (capEqual (capOf b) (capOf r)); [destruct l; auto|].
  destruct l, r; auto. destruct (_ && _); auto.
Qed.

Section trees.
Context `{Hj : DirJson} {W : Type} `{Hb : !Blobs W} (cfg : Config) (label : string → string).
Context {w_ok clean : W → Prop} {holds : W → Params → ChunkRef → bytes → Prop}.
Context `{HL : !BlobLaws W cfg w_ok clean holds}.
Context (Hlabel : ∀ name, utf8 name → utf8 (label name)).
Abbreviation tree := (tree (holds := holds)).
Abbreviation side := (side (holds := holds)).
Abbreviation extends := (ext (w_ok := w_ok) (holds := holds)).

(** A directory the store can hold, with trees for entries. *)
Definition planted (w : W) n (d : DirManifest) : Prop := good_dir d ∧ ∀ e, e ∈ dm_Entries d → tree w n (e_Cap e).

Lemma planted_upsert w n d e : planted w n d → tree w n (e_Cap e) → utf8 (e_Name e) → planted w n (Upsert d e).
Proof. intros [Hg Hd] He Hu. split; [apply good_upsert; [done|by eapply tree_cap_ok|done]|]. intros x [->|Hx]%Upsert_elem; auto. Qed.
Lemma planted_ext w w' n d : extends w w' → planted w n d → planted w' n d.
Proof. intros Hx [Hg Hd]. split; [done|]. intros e He. by eapply tree_ext, Hd. Qed.

Lemma merge_loop_trees rec prefix lE rE bE n w0 names :
  (∀ p b l r w, clean (rec p b l r w).1 → clean w) →
  (∀ p b l r w w' c sub, extends w0 w → tree w0 n l → tree w0 n r → side w0 n b →
     rc_Kind l = KindDir → rc_Kind r = KindDir → rec p b l r w = (w', Ok (c, sub)) → clean w' →
     extends w w' ∧ tree w' n c) →
  (∀ name e, lE !! name = Some e ∨ rE !! name = Some e → tree w0 n (e_Cap e) ∧ utf8 (e_Name e)) →
  (∀ name e, bE !! name = Some e → tree w0 n (e_Cap e)) → Forall utf8 names →
  ∀ out conf w w' out' conf', extends w0 w → planted w n out →
    merge_loop label rec prefix lE rE bE names out conf w = (w', Ok (out', conf')) → clean w' →
    extends w w' ∧ planted w' n out'.
Proof.
  intros Hback Hrec Hlr Hbase. induction 1 as [|name names Hname _ IH]; intros out conf w w' out' conf' Hx Ho E Hcl.
  { cbn in E. simplify_eq. split; [apply ext_refl, Hx|done]. }
  cbn [merge_loop] in E. pose proof (judge_from (lE !! name) (rE !! name) (bE !! name)) as Hf.
  assert (∀ e, lE !! name = Some e ∨ rE !! name = Some e → tree w n (e_Cap e) ∧ utf8 (e_Name e)) as Hw.
  { intros e He. destruct (Hlr _ _ He) as [? ?]. split; [by eapply tree_ext|done]. }
  assert (∀ d e, lE !! name = Some e ∨ rE !! name = Some e → planted w n d → planted w n (Upsert d e)) as Hp.
  { intros d e He Hd. apply planted_upsert; [done|by apply Hw..]. }
  destruct (judge (lE !! name) (rE !! name) (bE !! name)) as [[e|]|e| |le re] eqn:Ej.
  - eapply IH; [done| |exact E|done]. by apply Hp.
  - by eapply IH.
  - eapply IH; [done| |exact E|done]. by apply Hp.
  - destruct (judge_sub _ _ _ Ej) as (le & re & El & Er & Hkl & Hkr). rewrite El, Er in E. cbn [capOf] in E.
    destruct (rec _ _ _ _ w) as [w1 [[c sub]|]] eqn:Erec; [|done].
    assert (clean w1) as Hcl1 by (eapply (merge_loop_back label rec prefix lE rE bE names Hback _ _ w1); by rewrite E).
    assert (side w0 n (capOf (bE !! name))) as Hbside.
    { destruct (bE !! name) as [e|] eqn:Eb; [left; by eapply Hbase|by right]. }
    destruct (Hrec _ _ _ _ _ _ _ _ Hx (proj1 (Hlr _ _ (or_introl El))) (proj1 (Hlr _ _ (or_intror Er))) Hbside Hkl Hkr Erec Hcl1) as [Hx1 Ht].
    destruct (IH _ _ _ _ _ _ (ext_trans _ _ _ Hx Hx1) (planted_upsert _ _ _ (mkEntry name c (bareStat KindDir))
      (planted_ext _ _ _ _ Hx1 Ho) Ht Hname) E Hcl) as [Hx2 Ho2].
    split; [by eapply ext_trans|done].
  - destruct Hf as [Hl Hr]. eapply IH; [done| |exact E|done]. apply planted_upsert; [apply Hp; auto|exact (proj1 (Hw re (or_intror Hr)))|by apply Hlabel].
Qed.

Lemma mergeDir_tree fuel : ∀ prefix base local remote w w' c conf,
  w_ok w → tree w (S fuel) local → tree w (S fuel) remote → side w (S fuel) base →
  mergeDir cfg label (S fuel) prefix base local remote w = (w', Ok (c, conf)) → clean w' → extends w w' ∧ tree w' (S fuel) c.
Proof.
  induction fuel as [fuel IH] using lt_wf_ind. intros prefix base local remote w w' c conf Hok Hl Hr Hbs E Hcl.
  destruct (mergeDir_spec cfg label Hlabel fuel prefix base local remote w w' _ Hok Hl Hr Hbs E Hcl) as (? & ? & [= <- <-] & Hx & Hc & _).
  split; [done|]. cbn [mergeDir] in E.
  destruct (capEqual local remote); [by simplify_eq|]. destruct (capEqual base local); [by simplify_eq|].
  destruct (capEqual base remote); [by simplify_eq|].
  destruct (side_load' cfg w fuel base Hok Hbs) as (bD & Lb & _ & Gb & Tb).
  destruct (side_load' cfg w fuel local Hok ltac:(by left)) as (lD & Ll & _ & Gl & Tl).
  destruct (side_load' cfg w fuel remote Hok ltac:(by left)) as (rD & Lr & _ & Gr & Tr).
  rewrite Lb, Ll, Lr in E. cbn [mbind result_bind] in E. rewrite !entryMap_dir in E by (apply gd_wf, Gl || apply gd_wf, Gr || apply gd_wf, Gb).
  destruct (merge_loop _ _ _ _ _ _ _ _ _ w) as [w1 [[out conf1]|]] eqn:Eloop; [|done].
  assert (clean w1) as Hcl1.
  { apply (StoreDir_back (HL := HL) cfg out). destruct (StoreDir cfg out w1). by apply pair_eq in E as [-> _]. }
  assert (∀ d, good_dir d → (∀ e, e ∈ dm_Entries d → tree w fuel (e_Cap e)) → ∀ name e, dir_map d !! name = Some e →
    tree w fuel (e_Cap e) ∧ utf8 (e_Name e) ∧ e_Name e = name) as Hin.
  { intros d Hg Ht name e He. apply elem_dir_map in He as [He <-]; [|apply Hg]. split; [by apply Ht|]. split; [|done].
    destruct Hg as [_ _ Hn _]. rewrite Forall_forall in Hn. by apply Hn. }
  destruct (merge_loop_trees (mergeDir cfg label fuel) prefix (dir_map lD) (dir_map rD) (dir_map bD) fuel w
    (unionNames (dir_map lD) (dir_map rD)) (λ p b l r w0, mergeDir_back cfg label fuel p b l r w0))
    with (out := NewDir (dm_Meta lD)) (conf := @nil string) (w := w) (w' := w1) (out' := out) (conf' := conf1) as [Hx1 [Hg Ho]]; try done.
  { intros p b l r w2 w3 c3 sub Hx2 Ht1 Ht2 Hs Hk1 Hk2 Em Hc3. destruct fuel as [|fuel]; [by inversion Ht1|].
    assert (side w2 (S fuel) b) as Hs' by (destruct Hs as [Hs| ->]; [left; by eapply tree_ext|by right]).
    exact (IH fuel ltac:(lia) p b l r w2 w3 c3 sub (proj1 Hx2) (tree_ext _ _ _ _ Hx2 Ht1) (tree_ext _ _ _ _ Hx2 Ht2) Hs' Em Hc3). }
  { intros name e [He|He]; [destruct (Hin lD Gl Tl name e He) as (? & ? & _)|destruct (Hin rD Gr Tr name e He) as (? & ? & _)]; done. }
  { intros name e He. by destruct (Hin bD Gb Tb name e He) as (? & _). }
  { apply Forall_forall. intros nm [[e He]|[e He]]%unionNames_spec;
      [destruct (Hin lD Gl Tl nm e He) as (_ & ? & <-)|destruct (Hin rD Gr Tr nm e He) as (_ & ? & <-)]; done. }
  { split; [split; [split; constructor|constructor|constructor|apply Gl]|]. intros e []%elem_of_nil. }
  destruct (StoreDir cfg out w1) as [w2 r2] eqn:Est. apply pair_eq in E as [-> E]. destruct r2 as [c2|]; [|done].
  cbn in E. apply (inj Ok) in E as [= <- _].
  destruct (StoreDir_spec cfg out w1 w' _ (proj1 Hx1) Hg Est Hcl) as (? & [= <-] & Hd & _ & Hx2).
  eapply tree_dir; [done|done|]. intros e He. eapply tree_ext; [done|by apply Ho].
Qed.
End trees.

(** ** Outcomes of a commit *)

Lemma SignRoot_ok `{Ed25519, Json readCapJSON} k root seq t rp : SignRoot k root seq t = Ok rp →
  rp_Owner rp = Public k ∧ rp_Root rp = root ∧ rp_Seq rp = seq ∧ root_Verify rp = true.
Proof.
  unfold SignRoot. intros E. apply bind_Ok in E as (p & Ep & E). apply (inj Ok) in E as <-. do 3 (split; [done|]).
  unfold root_Verify. change (root_signingPayload (mkRootP (Public k) root seq t (Sign k p)))
    with (root_signingPayload (mkRootP (Public k) root seq t [])). rewrite Ep. cbn [rp_Owner rp_Sig].
  unfold Verify, Public, Sign. apply ed_verify_sign.
Qed.

Lemma is_u64_u64 z : is_u64 (u64 z).
Proof. unfold is_u64, u64. apply Z.mod_pos_bound. lia. Qed.

Lemma next_seq_u64 prevSeq remote : is_u64 (next_seq prevSeq remote).
Proof. unfold next_seq. destruct remote; [destruct (_ <? _)|]; apply is_u64_u64. Qed.

Section outcomes.
Context `{Hed : Ed25519} `{Hgcm : AesGcm} `{Hkem : MlKem} `{Hcj : Json readCapJSON} `{Hj : DirJson}.
Context {W D F : Type} `{Hb : !Blobs W} `{Hpub : !FullRootPublisher D} `{Hrs : !RootStore F}.
Context (cc : commitConfig) (n : nat) (prev : option RootPointer).
Context {w_ok clean : W → Prop} {holds : W → Params → ChunkRef → bytes → Prop} `{HL : !BlobLaws W (cc_cfg cc) w_ok clean holds}.
Context {f_ok : F → Prop} {sv : RootPointer → Prop} {view : F → option RootPointer} (Hfile : RootStoreLaws F f_ok sv view).
Context (Hlabel : ∀ name, utf8 name → utf8 (cc_label cc name)).
Context (Hsv : ∀ root seq t rp, SignRoot (cc_signer cc) root seq t = Ok rp → cap_ok root → is_u64 seq → sv rp).
Abbreviation tree := (tree (holds := holds)).
Abbreviation side := (side (holds := holds)).
Abbreviation extends := (ext (w_ok := w_ok) (holds := holds)).
Implicit Types (s : Site W D F) (dr : Draw).

(** A root another device of the owner sealed to this one. *)
Definition opened (c : ReadCap) : Prop :=
  ∃ d d' v, frp_GetFullRoot (Public (cc_signer cc)) (cc_priv cc) v d = (d', Ok (Some c)).

(** What the commit relies on of the DHT: in a state that is fine over a blob
    store, a companion that opens gives a whole tree of that store; the calls of
    the commit, other devices acting in between, keep it so. *)
Record publisher_ok (d_ok : W → D → Prop) : Prop := {
  po_mono : ∀ w w' d, extends w w' → d_ok w d → d_ok w' d;
  po_open : ∀ w d d' v c, d_ok w d → frp_GetFullRoot (Public (cc_signer cc)) (cc_priv cc) v d = (d', Ok (Some c)) → tree w (S n) c;
  po_full : ∀ w d v, d_ok w d → d_ok w (frp_GetFullRoot (Public (cc_signer cc)) (cc_priv cc) v d).1;
  po_get : ∀ w d, d_ok w d → d_ok w (pub_GetRoot (Public (cc_signer cc)) d).1;
  po_put : ∀ w d rp, d_ok w d → d_ok w (pub_PutRoot rp d).1;
  po_seal : ∀ w d dr c seq rec, d_ok w d → tree w (S n) c → sealCompanion cc dr c seq = Ok rec → d_ok w (frp_PutFullRoot rec d).1;
}.
Context {d_ok : W → D → Prop} (Hpo : publisher_ok d_ok).

Definition base_cap : ReadCap := match prev with Some p => rp_Root p | None => zeroCap end.

(** [c'] is [c] with the roots [rs] merged in, one after the other, over the base. *)
Inductive folds (w : W) : ReadCap → list ReadCap → ReadCap → Prop :=
| folds_nil c : folds w c [] c
| folds_cons c r c1 conf rs c2 :
    opened r → merged (cc_label cc) (holds := holds) (S n) w "" base_cap c r c1 conf → folds w c1 rs c2 → folds w c (r :: rs) c2.

Lemma folds_ext w w' c rs c' : extends w w' → folds w c rs c' → folds w' c rs c'.
Proof.
  intros Hx. induction 1 as [|c r c1 conf rs c2 Ho Hm _ IH]; [constructor|]. econstructor; [done| |done].
  eapply merged_mono; [done|done|exact Hm].
Qed.
Lemma folds_app w c rs c1 rs' c2 : folds w c rs c1 → folds w c1 rs' c2 → folds w c (rs ++ rs') c2.
Proof. induction 1; [done|]. intros Hf. econstructor; [done..|auto]. Qed.

(** The saved pointer of a successful commit. *)
Record committed (newRoot : ReadCap) s (rp : RootPointer) : Prop := {
  co_saved : view (si_file s) = Some rp;
  co_owner : rp_Owner rp = Public (cc_signer cc);
  co_signed : root_Verify rp = true;
  co_advances : ∀ p, prev = Some p → rp_Seq p < rp_Seq rp;
  co_root : ∃ rs, folds (si_blobs s) newRoot rs (rp_Root rp);
}.

(** What an attempt works on. *)
Record working (localTip : ReadCap) s : Prop := {
  wk_ok : w_ok (si_blobs s);
  wk_dht : d_ok (si_blobs s) (si_dht s);
  wk_tip : tree (si_blobs s) (S n) localTip;
  wk_base : side (si_blobs s) (S n) base_cap;
  wk_file : f_ok (si_file s);
  wk_view : view (si_file s) = prev;
}.

Lemma working_blobs localTip m s w : working localTip s → extends (si_blobs s) w → tree w (S n) m → working m (with_blobs w s).
Proof.
  intros [_ Hd Ht Hs Hf Hv] Hx Hm. split; [apply Hx|by eapply (po_mono _ Hpo)|done| |done|done].
  destruct Hs as [Hs| ->]; [left; by eapply tree_ext|by right].
Qed.

Lemma working_dht localTip s d : working localTip s → d_ok (si_blobs s) d → working localTip (with_dht d s).
Proof. intros [Hx ? ? ? ? ?] Hd. by split. Qed.

Lemma save_spec localTip rp s f r seq t :
  working localTip s → SignRoot (cc_signer cc) localTip seq t = Ok rp → is_u64 seq → rs_Save rp (si_file s) = (f, r) →
  f_ok f ∧ match r with
           | Ok _ => rp_Root rp = localTip ∧ ∀ d, committed localTip (mkSite (si_blobs s) d f) rp
           | Err _ => view f = prev
           end.
Proof.
  intros [_ _ Ht Hs Hf Hv] Es Hu E. destruct (SignRoot_ok _ _ _ _ _ Es) as (Ho & Hr & _ & Hver).
  destruct (rs_save_law rp _ _ _ Hf (Hsv _ _ _ _ Es (tree_cap_ok _ _ _ Ht) Hu) E) as [Hf' Hres]. split; [done|].
  destruct r as [[]|e]; [|by rewrite Hres]. destruct Hres as [Hview Hadv]. split; [done|]. intros d. split; [done|done|done| |].
  - intros p Hp. apply Hadv. by rewrite Hv.
  - exists []. rewrite Hr. constructor.
Qed.

Lemma local_only_spec localTip dr hasPub s s' r :
  working localTip s → commitLocalOnly cc dr localTip prev hasPub s = (s', r) →
  si_blobs s' = si_blobs s ∧ f_ok (si_file s') ∧
  match r with Ok _ => ∃ rp, rp_Root rp = localTip ∧ committed localTip s' rp | Err _ => view (si_file s') = prev end.
Proof.
  intros Hw E. unfold commitLocalOnly in E.
  set (seq := match prev with Some p => u64 (rp_Seq p + 1) | None => 1 end) in E.
  assert (is_u64 seq) as Hu by (unfold seq; destruct prev; [apply is_u64_u64|unfold is_u64; lia]).
  destruct (SignRoot _ _ seq _) as [rp|e] eqn:Es.
  2:{ apply pair_eq in E as [<- <-]. split; [done|]. split; [apply Hw|apply Hw]. }
  destruct hasPub.
  - unfold multi_Save in E. cbn [mu_primary mu_mirrors] in E. destruct (rs_Save rp (si_file s)) as [f r1] eqn:Ef.
    destruct (save_spec localTip rp s f r1 seq (dr_now dr) Hw Es Hu Ef) as [Hf Hr].
    destruct r1 as [[]|e]; apply pair_eq in E as [<- <-]; split_and!; try done. cbn [map_err]. exists rp. split; apply Hr.
  - destruct (rs_Save rp (si_file s)) as [f r1] eqn:Ef. destruct (save_spec localTip rp s f r1 seq (dr_now dr) Hw Es Hu Ef) as [Hf Hr].
    apply pair_eq in E as [<- <-]. split_and!; [done..|]. destruct r1 as [[]|e]; cbn [map_err]; [|done]. exists rp. split; apply Hr.
Qed.

Lemma fold_remote_spec localTip remote s s' r :
  working localTip s → fold_remote cc (S n) prev localTip remote s = (s', r) → clean (si_blobs s') →
  ∃ m conf rs, r = Ok (m, conf) ∧ working m s' ∧ extends (si_blobs s) (si_blobs s') ∧ folds (si_blobs s') localTip rs m.
Proof.
  intros Hw E Hcl. assert (w_ok (si_blobs s)) as Hok by apply Hw.
  assert (∀ d, d_ok (si_blobs s) d → (with_dht d s, Ok (localTip, [])) = (s', r) →
    ∃ m conf rs, r = Ok (m, conf) ∧ working m s' ∧ extends (si_blobs s) (si_blobs s') ∧ folds (si_blobs s') localTip rs m) as Hsame.
  { intros d Hd [= <- <-]. exists localTip, [], []. split; [done|]. split; [by apply working_dht|]. split; [by apply ext_refl|constructor]. }
  assert ((s, Ok (localTip, [])) = (s', r) →
    ∃ m conf rs, r = Ok (m, conf) ∧ working m s' ∧ extends (si_blobs s) (si_blobs s') ∧ folds (si_blobs s') localTip rs m) as Hid.
  { intros E1. apply (Hsame (si_dht s)); [apply Hw|]. by destruct s. }
  unfold fold_remote in E. destruct remote as [rem|]; [|by apply Hid]. destruct (forked prev (Some rem)); [|by apply Hid].
  pose proof (po_full _ Hpo (si_blobs s) (si_dht s) (rp_Root rem) (wk_dht _ _ Hw)) as Hd.
  destruct (frp_GetFullRoot _ _ _ _) as [d full] eqn:Eg. cbn [fst] in Hd. destruct full as [[c|]|e]; [|by apply (Hsame d)..].
  pose proof (po_open _ Hpo _ _ _ _ _ (wk_dht _ _ Hw) Eg) as Htc. pose proof (wk_tip _ _ Hw) as Htip. pose proof (wk_base _ _ Hw) as Hbase.
  fold base_cap in E. cbn [si_blobs with_dht] in E. destruct (Merge3 _ _ _ _ _ _ _) as [w m] eqn:Em. apply pair_eq in E as [<- <-]. cbn [si_blobs with_blobs] in *.
  destruct (mergeDir_spec (cc_cfg cc) (cc_label cc) Hlabel n "" base_cap localTip c (si_blobs s) w m Hok Htip Htc Hbase Em Hcl)
    as (m1 & conf & -> & Hx & _ & Hm).
  destruct (mergeDir_tree (cc_cfg cc) (cc_label cc) Hlabel n "" base_cap localTip c (si_blobs s) w m1 conf Hok Htip Htc Hbase Em Hcl) as [_ Htm].
  exists m1, conf, [c]. split; [done|]. split; [|split; [done|econstructor; [by eexists _, _, _|exact Hm|constructor]]].
  eapply working_blobs; [by apply working_dht|done|done].
Qed.

(** What an attempt that started from [localTip] leaves behind. *)
Definition attempt_spec (localTip : ReadCap) s (a : attempt_res) : Prop :=
  f_ok (si_file s) ∧
  match a with
  | Settled (Ok _) => ∃ rp, committed localTip s rp
  | Settled (Err _) => view (si_file s) = prev
  | Raced m _ => working m s ∧ ∃ rs, folds (si_blobs s) localTip rs m
  end.

Lemma committed_folds localTip rs m s rp : folds (si_blobs s) localTip rs m → committed m s rp → committed localTip s rp.
Proof. intros Hf [? ? ? ? [rs' Hr]]. split; [done..|]. exists (rs ++ rs'). by eapply folds_app. Qed.

Lemma publish_root_blobs m dr seq conf s : si_blobs (publish_root cc dr m seq conf s).1 = si_blobs s.
Proof.
  unfold publish_root. destruct (SignRoot _ _ _ _); [|done]. destruct (sealCompanion _ _ _ _); [|done].
  destruct (frp_PutFullRoot _ _) as [d1 _]. destruct (pub_PutRoot _ d1) as [d2 _]. destruct (pub_GetRoot _ d2) as [d3 cur].
  cbn [si_file with_dht]. destruct (rs_Save _ _) as [f r], cur as [[cur|]|]; [destruct (_ && _)|..]; done.
Qed.

Lemma fold_remote_back localTip remote s : clean (si_blobs (fold_remote cc (S n) prev localTip remote s).1) → clean (si_blobs s).
Proof.
  unfold fold_remote. destruct remote as [rem|]; [|done]. destruct (forked _ _); [|done].
  destruct (frp_GetFullRoot _ _ _ _) as [d1 [[c|]|e]]; [|done..]. fold base_cap. cbn [si_blobs with_dht].
  intros Hc. apply (mergeDir_back (cc_cfg cc) (cc_label cc) (S n) "" base_cap localTip c). unfold Merge3 in Hc.
  by destruct (mergeDir _ _ _ _ _ _ _ _).
Qed.

Lemma publish_root_spec m dr seq conf s s' a :
  working m s → is_u64 seq → publish_root cc dr m seq conf s = (s', a) → si_blobs s' = si_blobs s ∧ attempt_spec m s' a.
Proof.
  intros Hw Hu E. unfold publish_root in E.
  assert (∀ e, (s, Settled (Err e)) = (s', a) → si_blobs s' = si_blobs s ∧ attempt_spec m s' a) as Herr.
  { intros e [= <- <-]. split; [done|]. split; [apply Hw|apply Hw]. }
  destruct (SignRoot _ _ _ _) as [rp|e] eqn:Es; [|by eapply Herr]. destruct (sealCompanion _ _ _ _) as [rec|e] eqn:Ec; [|by eapply Herr].
  pose proof (po_seal _ Hpo _ _ _ _ _ _ (wk_dht _ _ Hw) (wk_tip _ _ Hw) Ec) as Hd1. destruct (frp_PutFullRoot rec _) as [d1 x1].
  pose proof (po_put _ Hpo _ _ rp Hd1) as Hd2. cbn [fst] in Hd2. destruct (pub_PutRoot rp d1) as [d2 x2].
  pose proof (po_get _ Hpo _ _ Hd2) as Hd3. cbn [fst] in Hd3. destruct (pub_GetRoot _ d2) as [d3 cur].
  cbn [si_file with_dht fst] in E, Hd3.
  assert (∀ s', (let '(f, r) := rs_Save rp (si_file s) in
      (with_file f (with_dht d3 s), Settled (match r with Ok _ => Ok conf | Err e => Err (CSave e) end))) = (s', a) →
    si_blobs s' = si_blobs s ∧ attempt_spec m s' a) as Hsave.
  { intros s1. destruct (rs_Save rp (si_file s)) as [f r] eqn:Ef. destruct (save_spec m rp s f r seq (dr_now dr) Hw Es Hu Ef) as [Hf Hr].
    intros [= <- <-]. split; [done|]. split; [done|]. destruct r as [[]|e]; [|done]. exists rp. apply (proj2 Hr). }
  destruct cur as [[cur|]|e]; [|by apply Hsave..]. destruct (_ && _); [|by apply Hsave].
  injection E as <- <-. split; [done|]. split; [apply Hw|]. split; [by apply working_dht|]. exists []. constructor.
Qed.

Lemma attempt_ok localTip dr prevSeq s s' a :
  working localTip s → commit_attempt cc dr (S n) prev localTip prevSeq s = (s', a) → clean (si_blobs s') →
  extends (si_blobs s) (si_blobs s') ∧ attempt_spec localTip s' a.
Proof.
  intros Hw E Hcl. assert (w_ok (si_blobs s)) as Hok by apply Hw. unfold commit_attempt in E.
  pose proof (po_get _ Hpo _ _ (wk_dht _ _ Hw)) as Hd. destruct (pub_GetRoot _ _) as [d remote]. pose proof (working_dht localTip s d Hw Hd) as Hwd.
  destruct remote as [remote|e].
  - destruct (fold_remote _ _ _ _ _ _) as [s1 m] eqn:Ef.
    assert (clean (si_blobs s1)) as Hc1.
    { destruct m as [[m conf]|e]; [|by injection E as -> _]. by rewrite <-(publish_root_blobs m dr (next_seq prevSeq remote) conf), E. }
    destruct (fold_remote_spec localTip remote _ s1 m Hwd Ef Hc1) as (m1 & conf & rs & -> & Hw1 & Hx & Hf).
    destruct (publish_root_spec m1 dr (next_seq prevSeq remote) conf s1 s' a Hw1 (next_seq_u64 _ _) E) as [Eb [Hfo Ha]].
    rewrite Eb. split; [done|]. split; [done|]. destruct a as [[]|m2 sq]; [|done|].
    + destruct Ha as [rp Hc]. exists rp. eapply committed_folds; [by rewrite Eb|done].
    + destruct Ha as [Hw2 [rs' Hf']]. split; [done|]. exists (rs ++ rs'). eapply folds_app; [by rewrite Eb|done].
  - destruct (commitLocalOnly _ _ _ _ _ _) as [s1 r] eqn:El. injection E as <- <-.
    destruct (local_only_spec localTip dr true _ s1 r Hwd El) as (Eb & Hf & Hr). rewrite Eb. split; [by apply ext_refl|]. split; [done|].
    destruct r as [[]|e']; [|done]. destruct Hr as (rp & _ & Hr). by exists rp.
Qed.

Lemma attempt_back localTip dr prevSeq s : clean (si_blobs (commit_attempt cc dr (S n) prev localTip prevSeq s).1) → clean (si_blobs s).
Proof.
  unfold commit_attempt. destruct (pub_GetRoot _ _) as [d remote]. destruct remote as [remote|e].
  - intros Hc. apply (fold_remote_back localTip remote (with_dht d s)).
    destruct (fold_remote _ _ _ _ _ _) as [s1 [[m conf]|e]]; [|exact Hc]. by rewrite publish_root_blobs in Hc.
  - unfold commitLocalOnly. destruct (SignRoot _ _ _ _); [|done]. by destruct (multi_Save _ _).
Qed.

Lemma loop_back draws k : ∀ i localTip prevSeq s,
  clean (si_blobs (commit_loop cc draws (S n) prev k i localTip prevSeq s).1) → clean (si_blobs s).
Proof.
  induction k as [|k IH]; intros i localTip prevSeq s; cbn [commit_loop]; [done|]. intros Hc.
  apply (attempt_back localTip (draws i) prevSeq). destruct (commit_attempt _ _ _ _ _ _ _) as [s1 [r|m sq]]; [exact Hc|]. by eapply IH.
Qed.

Lemma commit_back draws newRoot sealed pub s :
  clean (si_blobs (commitRoot cc draws (S n) newRoot prev sealed pub s).1) → clean (si_blobs s).
Proof.
  unfold commitRoot. destruct sealed; [done|]. destruct (match prev with Some p => _ | None => _ end); [done|].
  assert (∀ b, clean (si_blobs (let '(s, r) := commitLocalOnly cc (draws 0%nat) newRoot prev b s in
    (s, match r with Ok _ => @Ok commit_err (list string) [] | Err e => Err e end)).1) → clean (si_blobs s)) as Hl.
  { intros b. unfold commitLocalOnly. destruct (SignRoot _ _ _ _); [|done]. destruct b; [by destruct (multi_Save _ _)|by destruct (rs_Save _ _)]. }
  destruct pub; [apply Hl..|]. destruct (cc_mlkemOK cc); [apply loop_back|apply Hl].
Qed.

Lemma commit_loop_ok draws k : ∀ i localTip prevSeq s s' r,
  working localTip s → commit_loop cc draws (S n) prev k i localTip prevSeq s = (s', r) → clean (si_blobs s') →
  extends (si_blobs s) (si_blobs s') ∧ f_ok (si_file s') ∧
  match r with Ok _ => ∃ rp, committed localTip s' rp | Err _ => view (si_file s') = prev end.
Proof.
  induction k as [|k IH]; intros i localTip prevSeq s s' r Hw E Hcl; cbn [commit_loop] in E.
  { injection E as <- <-. split; [apply ext_refl, Hw|]. split; apply Hw. }
  destruct (commit_attempt _ _ _ _ _ _ _) as [s1 a] eqn:Ea.
  assert (clean (si_blobs s1)) as Hc1.
  { destruct a as [r1|m sq]; [by injection E as -> _|]. eapply (loop_back draws k). by rewrite E. }
  destruct (attempt_ok localTip (draws i) prevSeq s s1 a Hw Ea Hc1) as [Hx [Hf Ha]].
  destruct a as [r1|m sq]; [by injection E as <- <-|]. destruct Ha as [Hw1 [rs Hfo]].
  destruct (IH (S i) m sq s1 s' r Hw1 E Hcl) as (Hx' & Hf' & Hr). split; [by eapply ext_trans|]. split; [done|].
  destruct r as [conf|e]; [|done]. destruct Hr as [rp Hc]. exists rp. eapply committed_folds; [by eapply folds_ext|done].
Qed.

Lemma commit_ok draws newRoot pub s s' r :
  working newRoot s → commitRoot cc draws (S n) newRoot prev false pub s = (s', r) → clean (si_blobs s') →
  extends (si_blobs s) (si_blobs s') ∧ f_ok (si_file s') ∧
  match r with
  | Ok _ => ∃ rp, committed newRoot s' rp ∧ (pub ≠ PubFull ∨ cc_mlkemOK cc = false → rp_Root rp = newRoot)
  | Err _ => view (si_file s') = prev
  end.
Proof.
  intros Hw E Hcl. unfold commitRoot in E.
  assert (∀ b, (let '(s, r) := commitLocalOnly cc (draws 0%nat) newRoot prev b s in
     (s, match r with Ok _ => Ok [] | Err e => Err e end)) = (s', r) →
    extends (si_blobs s) (si_blobs s') ∧ f_ok (si_file s') ∧
    match r with
    | Ok _ => ∃ rp, committed newRoot s' rp ∧ (pub ≠ PubFull ∨ cc_mlkemOK cc = false → rp_Root rp = newRoot)
    | Err _ => view (si_file s') = prev
    end) as Hloc.
  { intros b. clear E. destruct (commitLocalOnly cc (draws 0%nat) newRoot prev b s) as [s1 r1] eqn:El. intros E1. apply pair_eq in E1 as [<- <-].
    destruct (local_only_spec newRoot (draws 0%nat) b s s1 r1 Hw El) as (Eb & Hfo & Hr). rewrite Eb. split; [apply ext_refl, Hw|].
    split; [done|]. destruct r1 as [[]|e]; [|done]. destruct Hr as (rp & Hrr & Hc). exists rp. auto. }
  destruct (match prev with Some p => _ | None => _ end). { injection E as <- <-. split; [apply ext_refl, Hw|]. split; apply Hw. }
  destruct pub; [by eapply Hloc..|]. destruct (cc_mlkemOK cc) eqn:Ek; [|by eapply Hloc].
  destruct (commit_loop_ok draws commitMaxAttempts 0 newRoot _ s s' r Hw E Hcl) as (Hx & Hf & Hr). split; [done|]. split; [done|].
  destruct r as [conf|e]; [|done]. destruct Hr as [rp Hc]. exists rp. split; [done|]. by intros [?|?].
Qed.

End outcomes.

(** ** A remote that cannot be opened *)

(** A published root whose companion cannot be opened is published over.
    When the DHT holds a root of another device that this device must merge and
    the companion is missing or does not open, the commit signs its own tree,
    with nothing of the other device's, at a sequence number above the published
    one and puts it in the DHT, where the selection rule prefers it. The comment
    at that point says the remote root is not overwritten. *)
Theorem commit_overwrites_unopened `{Ed25519, AesGcm, MlKem, Json readCapJSON, DirJson} {W D F} `{!Blobs W, !FullRootPublisher D, !RootStore F}
    cc draws fuel newRoot prev (s : Site W D F) d1 d2 rem full :
  cc_mlkemOK cc = true → (∀ p, prev = Some p → rp_Owner p = Public (cc_signer cc)) →
  pub_GetRoot (Public (cc_signer cc)) (si_dht s) = (d1, Ok (Some rem)) → is_u64 (rp_Seq rem) → rp_Seq rem ≠ 2 ^ 64 - 1 →
  forked prev (Some rem) = true →
  frp_GetFullRoot (Public (cc_signer cc)) (cc_priv cc) (rp_Root rem) d1 = (d2, full) → (∀ c, full ≠ Ok (Some c)) →
  ∀ rp rec, let seq := next_seq (match prev with Some p => rp_Seq p | None => 0 end) (Some rem) in
  SignRoot (cc_signer cc) newRoot seq (dr_now (draws 0%nat)) = Ok rp → sealCompanion cc (draws 0%nat) newRoot seq = Ok rec →
  ∀ d3 cur, pub_GetRoot (Public (cc_signer cc)) (pub_PutRoot rp (frp_PutFullRoot rec d2).1).1 = (d3, Ok (Some cur)) →
    rp_Seq cur = rp_Seq rp → sameVerify (rp_Root cur) newRoot = true →
  rp_Root rp = newRoot ∧ rp_Seq rem < rp_Seq rp ∧
  commitRoot cc draws fuel newRoot prev false PubFull s =
    (let '(f, r) := rs_Save rp (si_file s) in
     (mkSite (si_blobs s) d3 f, match r with Ok _ => Ok [] | Err e => Err (CSave e) end)).
Proof.
  intros Hk Hown Eg Hu Hmax Hf Ef Hno rp rec seq Es Ec d3 cur Ecur Hseq Hsame.
  destruct (SignRoot_ok _ _ _ _ _ Es) as (_ & Hr & Hs & _). split; [done|]. split.
  - rewrite Hs. unfold seq, next_seq. rewrite (u64_id (rp_Seq rem + 1)) by (unfold is_u64 in *; lia). generalize (u64 (match prev with Some p => rp_Seq p | None => 0 end + 1)).
    intros q. destruct (Z.ltb_spec q (rp_Seq rem + 1)); lia.
  - unfold commitRoot. rewrite Hk. cbn [orb]. replace (match prev with Some p => _ | None => _ end) with false.
    2:{ destruct prev as [p|]; [|done]. symmetry. apply bool_decide_eq_false. intros Hn. by apply Hn, Hown. }
    cbn [commitMaxAttempts commit_loop]. unfold commit_attempt. rewrite Eg. unfold fold_remote. rewrite Hf. cbn [si_dht with_dht]. rewrite Ef.
    destruct full as [[c|]|e]; [by destruct (Hno c)| |]; unfold publish_root; fold seq; rewrite Es, Ec; cbn [si_dht with_dht];
      destruct (frp_PutFullRoot rec d2) as [d4 x4]; cbn [fst] in Ecur; destruct (pub_PutRoot rp d4) as [d5 x5]; cbn [fst] in Ecur; rewrite Ecur;
      rewrite Hsame, andb_false_r; cbn [si_file with_dht]; by destruct (rs_Save rp (si_file s)) as [f [[]|e']].
Qed.

(** ** A commit that gives up *)

Section gave_up.
Context `{Hed : Ed25519} `{Hgcm : AesGcm} `{Hkem : MlKem} `{Hcj : Json readCapJSON} `{Hj : DirJson}.
Context {W D F : Type} `{Hb : !Blobs W} `{Hpub : !FullRootPublisher D} `{Hrs : !RootStore F}.
Implicit Types (s : Site W D F).

Lemma local_only_err cc dr newRoot prev hasPub s : (commitLocalOnly cc dr newRoot prev hasPub s).2 ≠ Err CGaveUp.
Proof.
  unfold commitLocalOnly. destruct (SignRoot _ _ _ _); [|done].
  destruct hasPub; [destruct (multi_Save _ _) as [m [?|?]]|destruct (rs_Save _ _) as [f [?|?]]]; done.
Qed.

(** An attempt that does not save leaves the file alone, and gives no CGaveUp. *)
Lemma attempt_file cc dr fuel prev localTip prevSeq s s' a :
  commit_attempt cc dr fuel prev localTip prevSeq s = (s', a) →
  a ≠ Settled (Err CGaveUp) ∧ match a with Raced _ _ => si_file s' = si_file s | _ => True end.
Proof.
  unfold commit_attempt. destruct (pub_GetRoot _ _) as [d [remote|e]].
  - intros E. destruct (fold_remote _ _ _ _ _ _) as [s1 m] eqn:Ef.
    assert (si_file s1 = si_file s ∧ ∀ e, m = Err e → e ≠ CGaveUp) as [Hs1 Hm].
    { unfold fold_remote in Ef. destruct remote as [rem|]; [destruct (forked _ _)|]; [|by simplify_eq..].
      destruct (frp_GetFullRoot _ _ _ _) as [d1 [[c|]|e]]; [|by simplify_eq..]. destruct (Merge3 _ _ _ _ _ _ _) as [w [?|?]]; simplify_eq; [done|]. split; [done|]. by intros ? [= <-]. }
    destruct m as [[m conf]|e]; [|simplify_eq; split; [|done]; intros [= Hc]; by eapply Hm].
    unfold publish_root in E. destruct (SignRoot _ _ _ _); [|by simplify_eq]. destruct (sealCompanion _ _ _ _); [|by simplify_eq].
    destruct (frp_PutFullRoot _ _) as [d1 _]. destruct (pub_PutRoot _ d1) as [d2 _]. destruct (pub_GetRoot _ d2) as [d3 cur].
    cbn [si_file with_dht] in E. destruct (rs_Save _ _) as [f [?|?]], cur as [[cur|]|]; try destruct (_ && _); by simplify_eq.
  - pose proof (local_only_err cc dr localTip prev true (with_dht d s)) as Hl.
    destruct (commitLocalOnly _ _ _ _ _ _) as [s1 [?|?]]; intros [= <- <-]; split; [done|done| |done]. intros [= Hc]. apply Hl. by rewrite Hc.
Qed.

Lemma loop_gave_up cc draws fuel prev k : ∀ i localTip prevSeq s s',
  commit_loop cc draws fuel prev k i localTip prevSeq s = (s', Err CGaveUp) → si_file s' = si_file s.
Proof.
  induction k as [|k IH]; intros i localTip prevSeq s s'; cbn [commit_loop]; [by intros [= ->]|].
  destruct (commit_attempt _ _ _ _ _ _ _) as [s1 a] eqn:Ea. destruct (attempt_file _ _ _ _ _ _ _ _ _ Ea) as [Hn Hf].
  destruct a as [r|m sq]; [intros [= -> ->]; done|]. intros E. rewrite <-Hf. by eapply IH.
Qed.

(** A commit that gives up keeps nothing. When commitRoot loses every race
    it returns the error that says the change was kept locally, and the comment
    says that the local root file holds the last signed attempt; but the durable
    file is the one it started from, so the change is in no root of this
    device. *)
Theorem commit_gave_up_keeps_nothing cc draws fuel newRoot prev sealed pub s s' :
  commitRoot cc draws fuel newRoot prev sealed pub s = (s', Err CGaveUp) → si_file s' = si_file s.
Proof.
  unfold commitRoot. destruct sealed; [done|]. destruct (match prev with Some _ => _ | None => _ end); [done|].
  assert (∀ b, (let '(s, r) := commitLocalOnly cc (draws 0%nat) newRoot prev b s in (s, match r with Ok _ => Ok [] | Err e => Err e end)) =
    (s', @Err _ (list string) CGaveUp) → si_file s' = si_file s) as Hl.
  { intros b. pose proof (local_only_err cc (draws 0%nat) newRoot prev b s) as Hl.
    destruct (commitLocalOnly cc (draws 0%nat) newRoot prev b s) as [s1 [?|?]]; [done|]. intros [= <- ->]. done. }
  destruct pub; [apply Hl..|]. destruct (cc_mlkemOK cc); [apply loop_gave_up|apply Hl].
Qed.
End gave_up.

(** ** Witnesses *)

#[local] Strategy 100 [commitRoot].

(** A DHT that answers call [k] of GetRoot with [roots k], opens every companion
    to [full], and forgets what it is given. *)
Definition scripted (roots : nat → option RootPointer) (full : option ReadCap) : FullRootPublisher nat := {|
  frp_root := {| pub_PutRoot _ k := (k, Ok tt); pub_GetRoot _ k := ((k + 1)%nat, Ok (roots k)) |};
  frp_PutFullRoot _ k := (k, Ok tt);
  frp_GetFullRoot _ _ _ k := (k, Ok full) |}.

Definition ex_cc : commitConfig := mkCC [Byte.x05] true [Byte.x01] [Byte.x01] DefaultLabeler ex_cfg [].
Definition ex_draw (_ : nat) : Draw := mkDraw 99 (λ _, []) (λ _, Some (replicate 12 Byte.x09)).
Definition ex_signed (c : ReadCap) (seq : Z) : RootPointer :=
  match @SignRoot toy_ed toy_cap_json [Byte.x05] c seq 99 with Ok rp => rp | Err _ => mkRootP [] zeroCap 0 0 [] end.

(** Three devices' roots over the directory {c}; this one commits the local. *)
Definition ex_prev : RootPointer := ex_signed ex_root 1.
Definition ex_site : Site (Vault Mem.MemStore) nat MemRootStore := mkSite ex_remoted.1 0%nat (mkMemRoot (Some ex_prev)).
Definition ex_commit (P : FullRootPublisher nat) : Site (Vault Mem.MemStore) nat MemRootStore * result commit_err (list string) :=
  @commitRoot toy_ed toy_gcm keyed_kem toy_cap_json ex_dj _ _ _ ex_blobs P mem_root_store ex_cc ex_draw 1 ex_local (Some ex_prev) false PubFull ex_site.

Definition ex_forked : FullRootPublisher nat := scripted (λ k, if decide (k = 0)%nat then Some (ex_signed ex_remote 2) else None) (Some ex_remote).

Lemma scripted_ok roots c0 :
  @publisher_ok toy_ed toy_gcm keyed_kem toy_cap_json ex_dj _ _ (scripted roots (Some c0)) ex_cc 0 ex_vok ex_holds (λ w _, @tree ex_dj _ ex_holds w 1 c0).
Proof.
  split; cbn [scripted frp_root frp_PutFullRoot frp_GetFullRoot pub_PutRoot pub_GetRoot fst]; try done.
  - intros w w' _ Hx Ht. exact (tree_ext _ _ _ _ Hx Ht).
  - intros w d d' v c Ht [_ E]%pair_eq. injection E as <-. exact Ht.
Qed.


(** The published root is another device's and has no companion; afterwards the
    DHT answers with what was put. *)
Definition ex_unopened : FullRootPublisher nat :=
  scripted (λ k, if decide (k = 0)%nat then Some (ex_signed ex_remote 7) else Some (ex_signed ex_local 8)) None.
Definition ex_record : FullRootRecord :=
  match @sealCompanion toy_ed toy_gcm keyed_kem toy_cap_json ex_cc (ex_draw 0) ex_local 8 with Ok r => r | Err _ => mkFull [] 0 [] [] [] end.

Lemma commit_overwrites_unopened_witness :
  rp_Seq (ex_signed ex_remote 7) < 8 ∧ mr_rp (si_file (ex_commit ex_unopened).1) = Some (ex_signed ex_local 8).
Proof.
  assert (rp_Owner ex_prev = @Public toy_ed [Byte.x05]) as Hown by (vm_compute; reflexivity).
  destruct (@commit_overwrites_unopened toy_ed toy_gcm keyed_kem toy_cap_json ex_dj _ nat MemRootStore ex_blobs ex_unopened mem_root_store ex_cc ex_draw 1
    ex_local (Some ex_prev) ex_site 1%nat 1%nat (ex_signed ex_remote 7) (Ok None)) with (rp := ex_signed ex_local 8) (rec := ex_record)
    (d3 := 2%nat) (cur := ex_signed ex_local 8) as (_ & Hs & E).
  - reflexivity.
  - intros p [= <-]. exact Hown.
  - reflexivity.
  - split; vm_compute; [discriminate|reflexivity].
  - vm_compute. discriminate.
  - vm_compute. reflexivity.
  - reflexivity.
  - discriminate.
  - vm_compute. reflexivity.
  - vm_compute. reflexivity.
  - reflexivity.
  - reflexivity.
  - vm_compute. reflexivity.
  - split; [exact Hs|]. unfold ex_commit. rewrite E. vm_compute. reflexivity.
Defined.

(** Another device publishes at every turn, and its companion is never there. *)
Definition ex_racing : FullRootPublisher nat := scripted (λ k, Some (ex_signed ex_remote (Z.of_nat k + 10))) None.

Lemma commit_gave_up_keeps_nothing_witness :
  (ex_commit ex_racing).2 = Err CGaveUp ∧ si_file (ex_commit ex_racing).1 = mkMemRoot (Some ex_prev).
Proof.
  assert ((ex_commit ex_racing).2 = Err CGaveUp) as E by (vm_compute; reflexivity). split; [exact E|].
  refine (@commit_gave_up_keeps_nothing toy_ed toy_gcm keyed_kem toy_cap_json ex_dj _ nat MemRootStore ex_blobs ex_racing mem_root_store ex_cc ex_draw 1
    ex_local (Some ex_prev) false PubFull ex_site (ex_commit ex_racing).1 _).
  rewrite <-E. exact (surjective_pairing (ex_commit ex_racing)).
Defined.
