(* ===== verification/Reclaim.v ===== *)
(** * cmd/revika-ctl: rm and revoke (commands.go)

    The commands that take something out of the namespace and then reclaim its
    shards: [cmdRm] and [cmdRevoke], on the root pointer they loaded, with
    [collectShards] (which shards a tree refers to) and the loop that deletes the
    ones nothing refers to any more. *)

From S2P Require Import Prelude GoLib Store Crypto Stripe Erasure Chunk Pipeline Blobs Wire Codec Base64 Manifest Namespace Merge.
From S2P Require Import Files Root Device Discovery RootStores Commit.

(** [Store.Delete] of the backend. *)
Class Deleter (W : Type) := { shard_delete : ShardID → W → W * result store_err unit }.

Inductive ctl_err :=
| CtlRootItself | CtlNoRoot | CtlSealed | CtlForeign | CtlResolve (e : manifest_err) | CtlCollect (e : manifest_err)
| CtlRemove (e : manifest_err) | CtlRekey (e : manifest_err) | CtlGraft (e : manifest_err) | CtlCommit (e : commit_err)
| CtlRemaining (e : manifest_err) | CtlSamePath | CtlIntoItself | CtlNameless | CtlUsage.

Record Tally := mkTally { ta_deleted : Z; ta_missing : Z; ta_kept : Z; ta_failed : Z }.

Section reclaim.
Context `{Hed : Ed25519} `{Hgcm : AesGcm} `{Hkem : MlKem} `{Hcj : Json readCapJSON} `{Hj : DirJson} `{Hfj : !FileJson}.
Context {W D F : Type} `{Hb : !Blobs W} `{Hdel : !Deleter W} `{Hpub : !FullRootPublisher D} `{Hrs : !RootStore F}.
(** The order in which Go ranges over a set of shards. *)
Context (order : gset ShardID → list ShardID).
Implicit Types (w : W) (c : ReadCap) (out keep : gset ShardID) (s : Site W D F).

(** The range over the entries of a directory; [rec] is the recursive call. *)
Fixpoint collect_entries (rec : ReadCap → gset ShardID → result manifest_err (gset ShardID)) (es : list Entry) out
    : result manifest_err (gset ShardID) :=
  match es with
  | [] => Ok out
  | e :: es => out ← rec (e_Cap e) out; collect_entries rec es out
  end.

Fixpoint collectShards (fuel : nat) c w out : result manifest_err (gset ShardID) :=
  match fuel with
  | O => Err MFuel
  | S fuel =>
      let out := list_to_set (rc_Shards c) ∪ out in
      match rc_Kind c with
      | KindDir => d ← LoadDir c w; collect_entries (λ c out, collectShards fuel c w out) (dm_Entries d) out
      | KindFile => fm ← LoadFileManifest c w; Ok (list_to_set (concat (cr_Shards <$> fm_Chunks fm)) ∪ out)
      | KindOther _ => Ok out
      end
  end.

(** The loop over the shards of what was removed. *)
Fixpoint reclaim keep (ids : list ShardID) (t : Tally) w : W * Tally :=
  match ids with
  | [] => (w, t)
  | id :: ids =>
      if decide (id ∈ keep) then reclaim keep ids (mkTally (ta_deleted t) (ta_missing t) (ta_kept t + 1) (ta_failed t)) w
      else
        let '(w, r) := shard_delete id w in
        let t := match r with
                 | Ok _ => mkTally (ta_deleted t + 1) (ta_missing t) (ta_kept t) (ta_failed t)
                 | Err ErrNotFound => mkTally (ta_deleted t) (ta_missing t + 1) (ta_kept t) (ta_failed t)
                 | Err _ => mkTally (ta_deleted t) (ta_missing t) (ta_kept t) (ta_failed t + 1)
                 end in
        reclaim keep ids t w
  end.

(** The guards on the loaded root: it exists, is not sealed, and is the signer's. *)
Definition owned_root (signer : bytes) (prev : option RootPointer) (sealed : bool) : result ctl_err RootPointer :=
  p ← of_option CtlNoRoot prev;
  if (sealed : bool) then Err CtlSealed
  else if decide (rp_Owner p ≠ Public signer) then Err CtlForeign
  else Ok p.

(** What both commands do with the new root: commit it, then delete the old shards
    that it does not refer to. *)
Definition commit_reclaim (cc : commitConfig) (draws : nat → Draw) (fuel : nat) (newRoot : ReadCap) (shards : gset ShardID)
    (prev : option RootPointer) (pub : pub_kind) s : Site W D F * result ctl_err Tally :=
  let '(s, r) := commitRoot cc draws fuel newRoot prev false pub s in
  match r with
  | Err e => (s, Err (CtlCommit e))
  | Ok _ =>
      match collectShards fuel newRoot (si_blobs s) ∅ with
      | Err e => (s, Err (CtlRemaining e))
      | Ok keep => let '(w, t) := reclaim keep (order shards) (mkTally 0 0 0 0) (si_blobs s) in (with_blobs w s, Ok t)
      end
  end.

Definition cmdRm (cc : commitConfig) (draws : nat → Draw) (fuel : nat) (target : string) (prev : option RootPointer) (sealed : bool)
    (pub : pub_kind) s : Site W D F * result ctl_err Tally :=
  if decide (target = "") then (s, Err CtlRootItself)
  else
    match
      p ← owned_root (cc_signer cc) prev sealed;
      victim ← map_err CtlResolve (Resolve (rp_Root p) target (si_blobs s));
      shards ← map_err CtlCollect (collectShards fuel victim (si_blobs s) ∅);
      Ok (p, shards)
    with
    | Err e => (s, Err e)
    | Ok (p, shards) =>
        let '(w, r) := GraftRemove (cc_cfg cc) (rp_Root p) target (si_blobs s) in
        match r with
        | Err e => (with_blobs w s, Err (CtlRemove e))
        | Ok newRoot => commit_reclaim cc draws fuel newRoot shards prev pub (with_blobs w s)
        end
    end.

Definition cmdRevoke (cc : commitConfig) (draws : nat → Draw) (fuel : nat) (target : string) (prev : option RootPointer) (sealed : bool)
    (pub : pub_kind) s : Site W D F * result ctl_err Tally :=
  match
    p ← owned_root (cc_signer cc) prev sealed;
    oldSub ← map_err CtlResolve (Resolve (rp_Root p) target (si_blobs s));
    oldShards ← map_err CtlCollect (collectShards fuel oldSub (si_blobs s) ∅);
    Ok (p, oldShards)
  with
  | Err e => (s, Err e)
  | Ok (p, oldShards) =>
      let '(w, r) := Rekey (cc_cfg cc) fuel (rp_Root p) target (si_blobs s) in
      match r with
      | Err e => (with_blobs w s, Err (CtlRekey e))
      | Ok newRoot => commit_reclaim cc draws fuel newRoot oldShards prev pub (with_blobs w s)
      end
  end.
End reclaim.

(** What the commands rely on of Delete: it harms no blob but those that have
    the shard, and unless it fails the shard is gone ([there]: the backend still
    has it for this User). *)
Class DeleteLaws (W : Type) `{!Deleter W} (w_ok clean : W → Prop) (holds : W → Params → ChunkRef → bytes → Prop) (there : ShardID → W → Prop) := {
  delete_fine : ∀ id w, w_ok w → w_ok (shard_delete id w).1;
  delete_clean : ∀ id w, clean (shard_delete id w).1 → clean w;
  delete_gone : ∀ id w, w_ok w → (shard_delete id w).2 = Ok tt ∨ (shard_delete id w).2 = Err ErrNotFound → ¬ there id (shard_delete id w).1;
  delete_stays : ∀ id id' w, w_ok w → ¬ there id w → ¬ there id (shard_delete id' w).1;
  delete_other : ∀ id w p ref x, w_ok w → holds w p ref x → id ∉ cr_Shards ref → holds (shard_delete id w).1 p ref x;
}.

(** ** The shards of a tree *)

Section facts.
Context `{Hj : DirJson} `{Hfj : !FileJson} {W : Type} `{Hb : !Blobs W} `{Hdel : !Deleter W} (cfg : Config).
Context {w_ok clean : W → Prop} {holds : W → Params → ChunkRef → bytes → Prop}.
Context {there : ShardID → W → Prop} `{HL : !BlobLaws W cfg w_ok clean holds} `{HD : !DeleteLaws W w_ok clean holds there}.
Implicit Types (w : W) (c : ReadCap) (out keep : gset ShardID).
Abbreviation extends := (ext (w_ok := w_ok) (holds := holds)).
Abbreviation is_dir := (dir_at (holds := holds)).
Abbreviation ftree := (ftree cfg (holds := holds)).
Abbreviation file_at := (file_at cfg (holds := holds)).

Definition among keep (ids : list ShardID) : Prop := ∀ id, id ∈ ids → id ∈ keep.

(** A tree all of whose shards, of directories, manifests and chunks, are in
    [keep]. *)
Fixpoint within keep (n : nat) w c : Prop :=
  match n with
  | O => False
  | S n => among keep (rc_Shards c) ∧
      ((∃ m x, file_at w c m x ∧ Forall (λ ref, among keep (cr_Shards ref)) (fm_Chunks m)) ∨
       (∃ d, is_dir w c d ∧ Forall (λ e, within keep n w (e_Cap e)) (dm_Entries d)))
  end.

Lemma within_ftree keep n : ∀ w c, within keep n w c → ftree n w c.
Proof.
  induction n as [|n IH]; intros w c; [done|]. intros [_ [(m & x & H & _)|(d & Hd & Hall)]]; [left; eauto|right].
  exists d. split; [done|]. eapply Forall_impl; [exact Hall|]. auto.
Qed.

Lemma within_mono keep keep' n : keep ⊆ keep' → ∀ w c, within keep n w c → within keep' n w c.
Proof.
  intros Hs. assert (∀ ids, among keep ids → among keep' ids) as Ha by (intros ids H id Hid; by apply Hs, H).
  induction n as [|n IH]; intros w c; [done|]. intros [Hc [(m & x & H & Hall)|(d & Hd & Hall)]]; (split; [by apply Ha|]); [left|right].
  - exists m, x. split; [done|]. eapply Forall_impl; [exact Hall|]. auto.
  - exists d. split; [done|]. eapply Forall_impl; [exact Hall|]. auto.
Qed.

(** Deleting a shard that is not referred to leaves the tree whole. *)
Lemma within_delete keep n id : id ∉ keep → ∀ w c, w_ok w → within keep n w c → within keep n (shard_delete id w).1 c.
Proof.
  intros Hid. assert (∀ ids, among keep ids → id ∉ ids) as Ha by (intros ids H Hin; by apply Hid, H).
  induction n as [|n IH]; intros w c Hok; [done|]. intros [Hc [(m & x & H & Hall)|(d & Hd & Hall)]]; (split; [done|]); [left|right].
  - exists m, x. split; [|done]. destruct H as (Hk & [Hp (xs & Hx & Hch) Hr Hs Hn] & Hu & Hm & data & Hh & E).
    split; [done|]. split.
    + split; [done| |done..]. exists xs. split; [done|]. clear -Hch Hall Ha Hok HD. unfold chunks_hold in *.
      induction Hch as [|ref y refs ys Hy _ IHc]; [constructor|]. apply Forall_cons in Hall as [H1 Hall].
      constructor; [|by apply IHc]. apply delete_other; [done|done|by apply Ha].
    + split; [done|]. split; [done|]. exists data. split; [|done]. by apply delete_other; [..|apply Ha].
  - exists d. split.
    + destruct Hd as (Hk & Hg & data & Hh & E). split; [done|]. split; [done|]. exists data. split; [|done].
      by apply delete_other; [..|apply Ha].
    + eapply Forall_impl; [exact Hall|]. intros e He. by apply IH.
Qed.

(** The directories of the tree are the same before and after. *)
Lemma within_dir_delete keep n id : id ∉ keep → ∀ w c d, w_ok w → within keep n w c → is_dir w c d →
  is_dir (shard_delete id w).1 c d ∧ (∀ e, e ∈ dm_Entries d → within keep (pred n) w (e_Cap e)).
Proof.
  intros Hid w c d Hok Hw Hd. destruct n as [|n]; [done|]. destruct Hw as [Hc Hw]. split.
  - destruct Hd as (Hk & Hg & data & Hh & E). split; [done|]. split; [done|]. exists data. split; [|done].
    apply delete_other; [done|done|]. intros Hin. by apply Hid, Hc.
  - intros e He. destruct Hw as [(m & x & [Hk _] & _)|(d' & Hd' & Hall)]; [apply dir_at_kind in Hd; congruence|].
    rewrite (dir_at_unique cfg w c d d' Hok Hd Hd') in He. rewrite Forall_forall in Hall. by apply Hall.
Qed.

Lemma Lookup_entry d name e : good_dir d → Lookup d name = Some e → e ∈ dm_Entries d.
Proof. intros [Hwf _ _ _]. rewrite Lookup_map by done. intros [H _]%elem_dir_map; done. Qed.

Lemma walk_delete keep id : id ∉ keep → ∀ w c parts c', w_ok w → walk (holds := holds) w c parts c' → ∀ n, within keep n w c →
  walk (holds := holds) (shard_delete id w).1 c parts c'.
Proof.
  intros Hid w c parts c' Hok. induction 1 as [|c d name e parts c' Hd Hl _ IH]; intros n Hw; [constructor|].
  destruct (within_dir_delete keep n id Hid w c d Hok Hw Hd) as [Hd' He]. econstructor; [done|done|].
  apply (IH (pred n)), He. by eapply Lookup_entry; [apply Hd|].
Qed.

Lemma missing_delete keep id : id ∉ keep → ∀ w c parts, w_ok w → missing (holds := holds) w c parts → ∀ n, within keep n w c →
  missing (holds := holds) (shard_delete id w).1 c parts.
Proof.
  intros Hid w c parts Hok. induction 1 as [c d name parts Hd Hl|c d name e parts Hd Hl _ IH]; intros n Hw;
    destruct (within_dir_delete keep n id Hid w c d Hok Hw Hd) as [Hd' He]; [by eapply missing_here|].
  eapply missing_in; [done|done|]. apply (IH (pred n)), He. by eapply Lookup_entry; [apply Hd|].
Qed.

Lemma reclaim_clean keep : ∀ ids t w, clean (reclaim keep ids t w).1 → clean w.
Proof.
  induction ids as [|id ids IH]; intros t w; cbn [reclaim]; [done|]. case_decide; [apply IH|]. intros Hc.
  apply (delete_clean id). destruct (shard_delete id w) as [w1 r]. by eapply IH.
Qed.

(** The loop leaves a tree whose shards are kept as it was: whole, with the same
    paths. *)
Lemma reclaim_within keep n c : ∀ ids t w w' t', w_ok w → within keep n w c → reclaim keep ids t w = (w', t') →
  w_ok w' ∧ within keep n w' c ∧
  (∀ parts c', walk (holds := holds) w c parts c' → walk (holds := holds) w' c parts c') ∧
  (∀ parts, missing (holds := holds) w c parts → missing (holds := holds) w' c parts).
Proof.
  induction ids as [|id ids IH]; intros t w w' t' Hok Hw; cbn [reclaim]; [by intros [= <- <-]|]. case_decide as Hin; [by apply IH|].
  pose proof (within_delete keep n id Hin w c Hok Hw) as Hw1. pose proof (delete_fine id w Hok) as Hok1.
  assert (∀ parts c', walk (holds := holds) w c parts c' → walk (holds := holds) (shard_delete id w).1 c parts c') as Hwk
    by (intros; by eapply walk_delete).
  assert (∀ parts, missing (holds := holds) w c parts → missing (holds := holds) (shard_delete id w).1 c parts) as Hms
    by (intros; by eapply missing_delete).
  destruct (shard_delete id w) as [w1 r]. intros E. destruct (IH _ _ _ _ Hok1 Hw1 E) as (? & ? & ? & ?). split_and!; auto.
Qed.

Lemma collect_entries_spec n w es : w_ok w →
  (∀ c out, ftree n w c → ∃ out', collectShards n c w out = Ok out' ∧ out ⊆ out' ∧ within out' n w c) →
  Forall (λ e, ftree n w (e_Cap e)) es → ∀ out, ∃ out', collect_entries (λ c out, collectShards n c w out) es out = Ok out' ∧
    out ⊆ out' ∧ Forall (λ e, within out' n w (e_Cap e)) es.
Proof.
  intros Hok Hrec. induction 1 as [|e es He Hes IH]; intros out; cbn [collect_entries]; [exists out; split_and!; [done|done|constructor]|].
  destruct (Hrec (e_Cap e) out He) as (o1 & E1 & S1 & W1). rewrite E1. cbn [mbind result_bind].
  destruct (IH o1) as (o2 & E2 & S2 & W2). exists o2. split; [done|]. split; [by etransitivity|]. constructor; [by eapply within_mono|done].
Qed.

(** [collectShards] succeeds on a tree, with fuel for its depth, and misses none
    of its shards. *)
Lemma collect_spec n w : w_ok w → ∀ c out, ftree n w c →
  ∃ out', collectShards n c w out = Ok out' ∧ out ⊆ out' ∧ within out' n w c.
Proof using HL.
  clear HD there Hdel.
  intros Hok. induction n as [|n IH]; intros c out; [done|]. intros [(m & x & H)|(d & Hd & Hall)]; cbn [collectShards].
  - rewrite (proj1 H), (file_at_load cfg _ _ _ _ Hok H). cbn [mbind result_bind]. eexists. split; [done|]. split; [set_solver|]. split.
    + intros id Hid. set_solver.
    + left. exists m, x. split; [done|]. apply Forall_forall. intros ref Hr id Hid. apply elem_of_union_l, elem_of_list_to_set, list_elem_of_In, in_concat.
      exists (cr_Shards ref). rewrite <-!list_elem_of_In. split; [by apply list_elem_of_fmap_2|done].
  - rewrite (dir_at_kind _ _ _ Hd), (dir_at_load cfg w c d Hok Hd). cbn [mbind result_bind].
    destruct (collect_entries_spec n w (dm_Entries d) Hok IH Hall (list_to_set (rc_Shards c) ∪ out)) as (o & E & S & Hw).
    exists o. split; [done|]. split; [set_solver|]. split; [|right; by exists d]. intros id Hid. apply S. set_solver.
Qed.

(** The shards of a tree do not depend on what else is stored. *)
Lemma collect_ext n : ∀ w w' c out, w_ok w → extends w w' → ftree n w c → collectShards n c w' out = collectShards n c w out.
Proof.
  induction n as [|n IH]; intros w w' c out Hok Hx; [done|]. pose proof (proj1 Hx) as Hok'.
  intros [(m & x & H)|(d & Hd & Hall)]; cbn [collectShards].
  - rewrite (proj1 H), (file_at_load cfg _ _ _ _ Hok H). pose proof (file_at_ext cfg _ _ _ _ _ Hx H) as H'.
    by rewrite (file_at_load cfg _ _ _ _ Hok' H').
  - rewrite (dir_at_kind _ _ _ Hd), (dir_at_load cfg w c d Hok Hd), (dir_at_load cfg w' c d Hok') by by eapply dir_at_ext.
    cbn [mbind result_bind]. generalize (list_to_set (rc_Shards c) ∪ out : gset ShardID). clear Hd. induction Hall as [|e es He _ IHe]; intros o; [done|].
    cbn [collect_entries]. rewrite (IH w w' (e_Cap e) o Hok Hx He). destruct (collectShards n (e_Cap e) w o); [apply IHe|done].
Qed.

(** What the loop counts, and what it leaves. *)
Lemma reclaim_gone keep : ∀ ids t w w' t', w_ok w → reclaim keep ids t w = (w', t') →
  (∀ id, ¬ there id w → ¬ there id w') ∧ ta_failed t ≤ ta_failed t' ∧
  ta_deleted t' + ta_missing t' + ta_kept t' + ta_failed t' =
    ta_deleted t + ta_missing t + ta_kept t + ta_failed t + Z.of_nat (length ids) ∧
  (ta_failed t' = ta_failed t → ∀ id, id ∈ ids → id ∉ keep → ¬ there id w').
Proof.
  induction ids as [|id ids IH]; intros t w w' t' Hok; cbn [reclaim].
  { intros [= <- <-]. split_and!; [done|lia|cbn; lia|]. by intros _ id ?%elem_of_nil. }
  case_decide as Hin.
  - intros E. destruct (IH _ _ _ _ Hok E) as (H1 & H2 & H3 & H4). cbn [ta_deleted ta_missing ta_kept ta_failed] in *. rewrite length_cons.
    split_and!; [done|lia|lia|]. intros Hf x [->|Hx]%elem_of_cons Hk; [done|]. by apply H4.
  - pose proof (delete_fine id w Hok) as Hok1. pose proof (delete_gone id w Hok) as Hg.
    assert (∀ x, ¬ there x w → ¬ there x (shard_delete id w).1) as Hst by (intros x; by apply delete_stays).
    destruct (shard_delete id w) as [w1 r]. cbn [fst snd] in *. intros E. destruct (IH _ _ _ _ Hok1 E) as (H1 & H2 & H3 & H4). rewrite length_cons.
    split; [auto|]. destruct r as [[]|e]; [|destruct e];
      cbn [ta_deleted ta_missing ta_kept ta_failed] in *; (split; [lia|]); (split; [lia|]); intros Hf x [->|Hx]%elem_of_cons Hk;
      (by apply H1, Hg; auto) || (by apply H4) || lia.
Qed.

(** ** Trees under changes of the namespace *)

Lemma ftree_mono n : ∀ k w c, (n ≤ k)%nat → ftree n w c → ftree k w c.
Proof.
  induction n as [|n IH]; intros k w c Hk; [done|]. destruct k as [|k]; [lia|]. intros [?|(d & Hd & Hall)]; [by left|right].
  exists d. split; [done|]. eapply Forall_impl; [exact Hall|]. intros e. apply IH. lia.
Qed.

Lemma ftree_dir n w c d : w_ok w → ftree (S n) w c → is_dir w c d → Forall (λ e, ftree n w (e_Cap e)) (dm_Entries d).
Proof.
  intros Hok [(m & x & Hk & _)|(d' & Hd' & Hall)] Hd; [apply dir_at_kind in Hd; congruence|].
  by rewrite (dir_at_unique cfg w c d d' Hok Hd Hd').
Qed.

Lemma ftree_load n w c d : w_ok w → ftree n w c → LoadDir c w = Ok d → is_dir w c d.
Proof.
  intros Hok Ht El. destruct n as [|n]; [done|]. destruct Ht as [(m & x & Hk & _)|(d' & Hd & _)].
  - unfold LoadDir, getBlob in El. by rewrite Hk in El.
  - rewrite (dir_at_load cfg w c d' Hok Hd) in El. by apply (inj Ok) in El as ->.
Qed.

(** The tree over a new directory. *)
Lemma store_ftree n d w w' r : w_ok w → good_dir d → Forall (λ e, ftree n w (e_Cap e)) (dm_Entries d) →
  StoreDir cfg d w = (w', r) → clean w' → ∃ c, r = Ok c ∧ ftree (S n) w' c ∧ cap_ok c ∧ extends w w' ∧ is_dir w' c d.
Proof.
  intros Hok Hg Hall E Hcl. destruct (StoreDir_spec cfg d w w' r Hok Hg E Hcl) as (c & -> & Hd & Hc & Hx). exists c.
  split_and!; [done| |done|done|done]. right. exists d. split; [done|]. eapply Forall_impl; [exact Hall|].
  intros e He. eapply ftree_ext; [exact Hx|exact He].
Qed.

Lemma graftRemove_ftree : ∀ parts n root w w' root', w_ok w → ftree (S n) w root → Forall utf8 parts →
  graftRemove cfg root parts w = (w', Ok root') → clean w' → ftree (S n) w' root' ∧ cap_ok root' ∧ extends w w'.
Proof.
  induction parts as [|name parts IH]; intros n root w w' root' Hok Ht Hu E Hcl; cbn [graftRemove] in E; [by destruct (LoadDir root w)|].
  apply Forall_cons in Hu as [Hun Hu]. destruct (LoadDir root w) as [d|] eqn:El; [|done].
  pose proof (ftree_load _ w root d Hok Ht El) as Hd. pose proof (ftree_dir n w root d Hok Ht Hd) as Hall. pose proof (proj1 (proj2 Hd)) as Hg.
  destruct parts as [|name' parts].
  - pose proof (good_remove d name Hg) as Hg'. destruct (Remove d name) as [out b] eqn:Er. destruct (negb b); [done|].
    destruct (store_ftree n out w w' (Ok root') Hok Hg') as (c & [= <-] & ? & ? & ? & _); [|done|done|by split_and!].
    assert (out = (Remove d name).1) as -> by by rewrite Er. cbn [Remove fst dm_Entries]. apply Forall_forall. intros e [He _]%elem_of_List_filter.
    rewrite Forall_forall in Hall. by apply Hall.
  - destruct (Lookup d name) as [e|] eqn:Ee; [|done]. destruct (decide _); [done|].
    destruct (graftRemove cfg (e_Cap e) (name' :: parts) w) as [w1 r1] eqn:Eg. destruct r1 as [newSub|]; [|done].
    assert (clean w1) as Hc1 by (eapply (StoreDir_back (HL := HL) cfg); by rewrite E).
    assert (ftree n w (e_Cap e)) as Hte by (rewrite Forall_forall in Hall; apply Hall; by eapply Lookup_entry).
    destruct n as [|n]; [done|]. destruct (IH n (e_Cap e) w w1 newSub Hok Hte Hu Eg Hc1) as (Hts & Hcs & Hx).
    destruct (store_ftree (S n) (Upsert d (mkEntry name newSub (bareStat KindDir))) w1 w' (Ok root') (proj1 Hx)) as (c & [= <-] & ? & ? & ? & _); [..|done|done|].
    + by apply good_upsert.
    + apply Forall_forall. intros x [->|Hxe]%Upsert_elem; [done|]. eapply ftree_ext; [done|]. rewrite Forall_forall in Hall. by apply Hall.
    + split_and!; [done|done|by eapply ext_trans..].
Qed.

Lemma empty_ftree w w' r : w_ok w → StoreDir cfg (NewDir zeroMeta) w = (w', r) → clean w' →
  ∃ c, r = Ok c ∧ ftree 1 w' c ∧ cap_ok c ∧ extends w w' ∧ rc_Kind c = KindDir.
Proof.
  intros Hok E Hcl. destruct (store_ftree 0 (NewDir zeroMeta) w w' r Hok good_new (List.Forall_nil _) E Hcl) as (c & -> & Ht & Hc & Hx & Hd).
  exists c. split_and!; [done..|]. by eapply dir_at_kind.
Qed.

Lemma graft_ftree child stat k : ∀ parts n root w w' root', w_ok w → ftree (S n) w root → ftree k w child → cap_ok child →
  (length parts + k ≤ S n)%nat → Forall utf8 parts → graft cfg root parts child stat w = (w', Ok root') → clean w' →
  ftree (S n) w' root' ∧ cap_ok root' ∧ extends w w'.
Proof.
  induction parts as [|name parts IH]; intros n root w w' root' Hok Ht Hch Hcc Hlen Hu E Hcl; cbn [graft] in E; [by destruct (LoadDir root w)|].
  apply Forall_cons in Hu as [Hun Hu]. cbn [length] in Hlen. destruct (LoadDir root w) as [d|] eqn:El; [|done].
  pose proof (ftree_load _ w root d Hok Ht El) as Hd. pose proof (ftree_dir n w root d Hok Ht Hd) as Hall. pose proof (proj1 (proj2 Hd)) as Hg.
  assert (∀ w1 c, extends w w1 → ftree n w1 c → cap_ok c → ∀ st, StoreDir cfg (Upsert d (mkEntry name c st)) w1 = (w', Ok root') →
    ftree (S n) w' root' ∧ cap_ok root' ∧ extends w w') as Hstore.
  { intros w1 c Hx Htc Hc st Es. destruct (store_ftree n (Upsert d (mkEntry name c st)) w1 w' (Ok root') (proj1 Hx)) as (? & [= <-] & ? & ? & ? & _); [..|done|done|].
    - by apply good_upsert.
    - apply Forall_forall. intros x [->|Hxe]%Upsert_elem; [done|]. eapply ftree_ext; [done|]. rewrite Forall_forall in Hall. by apply Hall.
    - split_and!; [done|done|by eapply ext_trans..]. }
  destruct parts as [|name' parts].
  - eapply Hstore; [by apply ext_refl| |done|exact E]. eapply ftree_mono; [|done]. cbn [length] in Hlen. lia.
  - destruct n as [|n]; [cbn [length] in Hlen; lia|].
    destruct (match Lookup d name with Some e => _ | None => _ end) as [w1 r1] eqn:Esub. destruct r1 as [sub|]; [|done].
    destruct (graft cfg sub (name' :: parts) child stat w1) as [w2 r2] eqn:Eg. destruct r2 as [newSub|]; [|done].
    assert (clean w2) as Hc2 by (eapply (StoreDir_back (HL := HL) cfg); by rewrite E).
    assert (clean w1) as Hc1 by (eapply (graft_back (HL := HL) cfg child stat (name' :: parts) sub); by rewrite Eg).
    assert (ftree (S n) w1 sub ∧ extends w w1) as [Hts Hx1].
    { destruct (Lookup d name) as [e|] eqn:Ee.
      - destruct (decide _); [done|]. injection Esub as <- <-. split; [|by apply ext_refl]. rewrite Forall_forall in Hall. apply Hall. by eapply Lookup_entry.
      - destruct (empty_ftree w w1 (Ok sub) Hok Esub Hc1) as (? & [= <-] & Ht1 & _ & Hx & _). split; [|done]. eapply ftree_mono; [|done]. lia. }
    destruct (IH n sub w1 w2 newSub (proj1 Hx1) Hts) as (Htn & Hcn & Hx2); [by eapply ftree_ext|done|cbn [length] in *; lia|done|done|done|].
    eapply Hstore; [by eapply ext_trans|done|done|exact E].
Qed.

(** A copy is as deep as what it copies. *)
Lemma copy_ftree n : ∀ k w c w' c', w_ok w → copy cfg (holds := holds) n w c w' c' → ftree k w c → ftree k w' c'.
Proof.
  induction n as [|n IH]; intros k w c w' c' Hok; [done|]. destruct k as [|k]; [done|].
  intros [(m & m' & x & _ & H & _)|(d & d' & Hd & Hd' & _ & Hall)] Ht; [left; eauto|right]. exists d'. split; [done|].
  pose proof (ftree_dir k w c d Hok Ht Hd) as Hf. clear -Hall Hf IH Hok. induction Hall as [|e e' es es' (_ & _ & Hc) _ IHa]; [constructor|].
  apply Forall_cons in Hf as [He Hf]. constructor; [by eapply IH|by apply IHa].
Qed.

Lemma walk_depth w c parts c' : w_ok w → walk (holds := holds) w c parts c' → ∀ k, ftree k w c →
  ∃ j, ftree j w c' ∧ (length parts + j ≤ k)%nat.
Proof.
  intros Hok. induction 1 as [|c d name e parts c' Hd Hl _ IH]; intros k Ht; [by exists k|]. destruct k as [|k]; [done|].
  pose proof (ftree_dir k w c d Hok Ht Hd) as Hall. rewrite Forall_forall in Hall.
  destruct (IH k) as (j & Hfj0 & Hlen); [apply Hall; eapply Lookup_entry; [apply Hd|done]|]. exists j. split; [done|]. cbn [length]. lia.
Qed.

(** A whole tree, files included, is a tree of directories. *)
Lemma ftree_tree n : ∀ w c, ftree n w c → cap_ok c → tree (holds := holds) w n c.
Proof.
  induction n as [|n IH]; intros w c; [done|]. intros [(m & x & Hk & _)|(d & Hd & Hall)] Hc.
  - apply tree_leaf; [by rewrite Hk|done].
  - eapply tree_dir; [done|done|]. intros e He. rewrite Forall_forall in Hall. apply IH; [by apply Hall|].
    destruct Hd as (_ & [_ Hcs _ _] & _). rewrite Forall_forall in Hcs. by apply Hcs.
Qed.
End facts.

(** ** The commands *)

Section commands.
Context `{Hed : Ed25519} `{Hgcm : AesGcm} `{Hkem : MlKem} `{Hcj : Json readCapJSON} `{Hj : DirJson} `{Hfj : !FileJson}.
Context {W D F : Type} `{Hb : !Blobs W} `{Hdel : !Deleter W} `{Hpub : !FullRootPublisher D} `{Hrs : !RootStore F}.
Context (order : gset ShardID → list ShardID) (Horder : ∀ X, order X ≡ₚ elements X).
Context (cc : commitConfig) (n : nat) (p : RootPointer).
Context {w_ok clean : W → Prop} {holds : W → Params → ChunkRef → bytes → Prop} {there : ShardID → W → Prop}.
Context `{HL : !BlobLaws W (cc_cfg cc) w_ok clean holds} `{HD : !DeleteLaws W w_ok clean holds there}.
Context {f_ok : F → Prop} {sv : RootPointer → Prop} {view : F → option RootPointer} (Hfile : RootStoreLaws F f_ok sv view).
Context (Hlabel : ∀ name, utf8 name → utf8 (cc_label cc name)).
Context (Hsv : ∀ root seq t rp, SignRoot (cc_signer cc) root seq t = Ok rp → cap_ok root → is_u64 seq → sv rp).
Context {d_ok : W → D → Prop} (Hpo : publisher_ok cc n (w_ok := w_ok) (holds := holds) d_ok).
Abbreviation ftree := (ftree (cc_cfg cc) (holds := holds)).
Abbreviation leads := (walk (holds := holds)).
Abbreviation extends := (ext (w_ok := w_ok) (holds := holds)).
Implicit Types (s : Site W D F).

(** The site a command starts from: the durable file holds [p], whose namespace
    is whole in the blob store. *)
Record settled_site s : Prop := {
  ss_ok : w_ok (si_blobs s);
  ss_dht : d_ok (si_blobs s) (si_dht s);
  ss_tree : ftree (S n) (si_blobs s) (rp_Root p);
  ss_cap : cap_ok (rp_Root p);
  ss_file : f_ok (si_file s);
  ss_view : view (si_file s) = Some p;
}.

(** What is left of a command that took [newRoot], stored at [w1], through the
    commit: the root in the durable file, the whole tree under [newRoot] with its
    paths as at [w1], and the shards of [shards] that it does not refer to gone. *)
Record reclaimed (newRoot : ReadCap) (w1 : W) (shards : gset ShardID) (pub : pub_kind) s (t : Tally) : Prop := {
  rc_saved : ∃ rp, view (si_file s) = Some rp ∧ rp_Owner rp = Public (cc_signer cc) ∧ root_Verify rp = true ∧ rp_Seq p < rp_Seq rp ∧
    (pub ≠ PubFull ∨ cc_mlkemOK cc = false → rp_Root rp = newRoot);
  rc_whole : ftree (S n) (si_blobs s) newRoot;
  rc_paths : ∀ parts c, leads w1 newRoot parts c → leads (si_blobs s) newRoot parts c;
  rc_missing : ∀ parts, missing (holds := holds) w1 newRoot parts → missing (holds := holds) (si_blobs s) newRoot parts;
  rc_count : ta_deleted t + ta_missing t + ta_kept t + ta_failed t = Z.of_nat (size shards);
  rc_gone : ta_failed t = 0 → ∀ keep, collectShards (S n) newRoot w1 ∅ = Ok keep → ∀ id, id ∈ shards → id ∉ keep → ¬ there id (si_blobs s);
}.

Lemma commit_reclaim_ok draws newRoot shards pub s s' r :
  settled_site s → rp_Owner p = Public (cc_signer cc) → ∀ w1, extends (si_blobs s) w1 → ftree (S n) w1 newRoot → cap_ok newRoot →
  commit_reclaim order cc draws (S n) newRoot shards (Some p) pub (with_blobs w1 s) = (s', r) → clean (si_blobs s') →
  w_ok (si_blobs s') ∧
  match r with
  | Ok t => reclaimed newRoot w1 shards pub s' t
  | Err e => (∃ ce, e = CtlCommit ce) ∧ view (si_file s') = Some p
  end.
Proof.
  intros [Hok Hd Ht Hc Hf Hv] Hown w1 Hx1 Ht1 Hc1 E Hcl. pose proof (proj1 Hx1) as Hok1.
  assert (working n (Some p) (w_ok := w_ok) (holds := holds) (f_ok := f_ok) (view := view) (d_ok := d_ok) newRoot (with_blobs w1 s)) as Hw.
  { split; cbn [with_blobs si_blobs si_dht si_file]; [done|by eapply (po_mono _ _ _ Hpo)|by apply (ftree_tree (cc_cfg cc))| |done|done].
    left. cbn [base_cap]. eapply tree_ext; [done|]. by apply (ftree_tree (cc_cfg cc)). }
  unfold commit_reclaim in E. destruct (commitRoot _ _ _ _ _ _ _ _) as [s1 r1] eqn:Ec.
  assert (clean (si_blobs s1)) as Hcl1.
  { destruct r1 as [cf|e]; [|by injection E as -> _]. destruct (collectShards _ _ _ _) as [keep|e]; [|by injection E as -> _].
    apply (reclaim_clean keep (order shards) (mkTally 0 0 0 0)). destruct (reclaim _ _ _ _) as [w2 t]. by injection E as <- _. }
  destruct (commit_ok cc n (Some p) Hfile Hlabel Hsv Hpo draws newRoot pub _ s1 r1 Hw Ec Hcl1) as (Hx2 & _ & Hr). cbn [with_blobs si_blobs] in Hx2.
  destruct r1 as [cf|e]; [|injection E as <- <-; split; [apply Hx2|]; split; [by eexists|done]].
  destruct Hr as (rp & [Hsv1 Ho1 Hvf Hadv _] & Hroot). pose proof (proj1 Hx2) as Hok2.
  pose proof (ftree_ext (cc_cfg cc) (S n) w1 (si_blobs s1) newRoot Hx2 Ht1) as Ht2.
  destruct (collect_spec (cc_cfg cc) (S n) (si_blobs s1) Hok2 newRoot ∅ Ht2) as (keep & Ek & _ & Hwi). rewrite Ek in E.
  destruct (reclaim keep (order shards) (mkTally 0 0 0 0) (si_blobs s1)) as [w2 t] eqn:Er. injection E as <- <-.
  destruct (reclaim_within (cc_cfg cc) keep (S n) newRoot _ _ _ _ _ Hok2 Hwi Er) as (Hok3 & Hwi3 & Hwk & Hms).
  destruct (reclaim_gone keep _ _ _ _ _ Hok2 Er) as (_ & _ & Hcount & Hgone). cbn [with_blobs si_blobs si_file ta_deleted ta_missing ta_kept ta_failed] in *.
  split; [done|]. split; cbn [with_blobs si_blobs si_file].
  - exists rp. split_and!; [done|done|done|by apply Hadv|done].
  - by eapply within_ftree.
  - intros parts c Hl. apply Hwk. by eapply walk_ext.
  - intros parts Hm. apply Hms. by eapply missing_ext.
  - rewrite Hcount. rewrite (Horder shards). reflexivity.
  - intros Hf0 keep' Ek'. rewrite (collect_ext (cc_cfg cc) (S n) w1 (si_blobs s1) newRoot ∅ Hok1 Hx2 Ht1) in Ek. rewrite Ek in Ek'.
    apply (inj Ok) in Ek' as <-. intros id Hid Hk. apply Hgone; [done| |done]. rewrite (Horder shards). by apply elem_of_elements.
Qed.

Lemma commit_reclaim_back draws newRoot shards pub s :
  clean (si_blobs (commit_reclaim order cc draws (S n) newRoot shards (Some p) pub s).1) → clean (si_blobs s).
Proof.
  intros Hc. apply (commit_back cc n (Some p) draws newRoot false pub). unfold commit_reclaim in Hc.
  destruct (commitRoot _ _ _ _ _ _ _ _) as [s1 [cf|e]]; [|done]. cbn [fst]. destruct (collectShards _ _ _ _) as [keep|e]; [|done].
  apply (reclaim_clean keep (order shards) (mkTally 0 0 0 0)). by destruct (reclaim _ _ _ _).
Qed.

Lemma walk_ftree w c parts c' : w_ok w → leads w c parts c' → ∀ k, ftree k w c → ftree k w c'.
Proof.
  intros Hok. induction 1 as [|c d name e parts c' Hd Hl _ IH]; intros k Ht; [done|]. apply IH. destruct k as [|k]; [done|].
  apply (ftree_mono (cc_cfg cc) k); [lia|]. pose proof (ftree_dir (cc_cfg cc) k w c d Hok Ht Hd) as Hall. rewrite Forall_forall in Hall.
  apply Hall. eapply Lookup_entry; [apply Hd|done].
Qed.

(** The prefix both commands share: the root is ours, the path resolves and its
    shards are enumerated. *)
Lemma victim_ok target parts victim s :
  settled_site s → rp_Owner p = Public (cc_signer cc) → splitPath target = Ok parts → leads (si_blobs s) (rp_Root p) parts victim →
  ∃ shards, collectShards (S n) victim (si_blobs s) ∅ = Ok shards ∧
    (q ← owned_root (cc_signer cc) (Some p) false; c ← map_err CtlResolve (Resolve (rp_Root q) target (si_blobs s));
     ids ← map_err CtlCollect (collectShards (S n) c (si_blobs s) ∅); Ok (q, ids)) = Ok (p, shards).
Proof.
  intros [Hok _ Ht _ _ _] Hown Hp Hw. pose proof (walk_ftree _ _ _ _ Hok Hw (S n) Ht) as Htv.
  destruct (collect_spec (cc_cfg cc) (S n) (si_blobs s) Hok victim ∅ Htv) as (shards & Es & _ & _). exists shards. split; [done|].
  unfold owned_root. cbn [of_option mbind result_bind]. rewrite decide_False by (by intros []). cbn [mbind result_bind].
  rewrite (walk_Resolve (cc_cfg cc) _ _ _ _ _ Hok Hp Hw). cbn [map_err mbind result_bind]. by rewrite Es.
Qed.


(** Revoking a path. From a site whose durable root is whole, revoke of a
    path that resolves either fails in the commit, and the durable root is as
    before, or succeeds: the durable root has advanced; under the new root the
    path leads to a copy of the old tree (the same names, attributes and bytes, in
    blobs under fresh keys), every path neither above nor below it resolves as
    before, and the whole namespace is readable after the deletions; when no
    deletion failed, every shard of the old tree that the new root does not refer
    to is gone, so that the old cap has nothing to read there. *)
Theorem revoke_correct draws target parts oldSub pub s s' r :
  settled_site s → rp_Owner p = Public (cc_signer cc) →
  splitPath target = Ok parts → Forall utf8 parts → leads (si_blobs s) (rp_Root p) parts oldSub →
  cmdRevoke order cc draws (S n) target (Some p) false pub s = (s', r) → clean (si_blobs s') →
  match r with
  | Err e => (∃ ce, e = CtlCommit ce) ∧ view (si_file s') = Some p
  | Ok t => ∃ newRoot w1 shards newSub, collectShards (S n) oldSub (si_blobs s) ∅ = Ok shards ∧ reclaimed newRoot w1 shards pub s' t ∧
      copy (cc_cfg cc) (holds := holds) (S n) (si_blobs s) oldSub w1 newSub ∧ Resolve newRoot target (si_blobs s') = Ok newSub ∧
      ∀ q qs c, splitPath q = Ok qs → apart parts qs → leads (si_blobs s) (rp_Root p) qs c → Resolve newRoot q (si_blobs s') = Ok c
  end.
Proof.
  intros Hs Hown Hp Hu Hw E Hcl. unfold cmdRevoke in E.
  destruct (victim_ok target parts oldSub s Hs Hown Hp Hw) as (shards & Esh & Epre). rewrite Epre in E. clear Epre.
  pose proof (ss_ok _ Hs) as Hok. pose proof (walk_ftree _ _ _ _ Hok Hw (S n) (ss_tree _ Hs)) as Htv.
  destruct (Rekey _ _ _ _ _) as [w1 r1] eqn:Er.
  assert (clean w1) as Hcl1.
  { destruct r1 as [newRoot|e]; [|by injection E as <- _]. eapply (commit_reclaim_back draws newRoot shards pub (with_blobs w1 s)). by rewrite E. }
  destruct (Rekey_run (cc_cfg cc) (si_blobs s) (rp_Root p) target parts oldSub (S n) w1 r1 Hok Hp Hw Htv Er Hcl1)
    as (w0 & newSub & Hx0 & Hcn & Hcp & Hend).
  destruct (walk_depth (cc_cfg cc) _ _ _ _ Hok Hw (S n) (ss_tree _ Hs)) as (j & Hjt & Hlen).
  pose proof (copy_ftree (cc_cfg cc) (S n) j _ _ _ _ Hok Hcp Hjt) as Hj0.
  assert (∃ newRoot, r1 = Ok newRoot ∧ extends (si_blobs s) w1 ∧ extends w0 w1 ∧ ftree (S n) w1 newRoot ∧ cap_ok newRoot ∧ leads w1 newRoot parts newSub ∧
    ∀ q c, apart parts q → leads (si_blobs s) (rp_Root p) q c → leads w1 newRoot q c) as (newRoot & -> & Hx & Hx1 & Htn & Hcr & Hl & Hq).
  { destruct Hend as [(-> & -> & ->)|(Hne & stat & Eg)].
    - exists newSub. split; [done|]. split; [done|]. split; [apply ext_refl, Hx0|]. split; [by eapply ftree_mono; [|exact Hj0]|].
      split; [done|]. split; [constructor|]. by intros q c [].
    - destruct (graft_spec (cc_cfg cc) newSub stat parts (rp_Root p) w0 w1 r1 (proj1 Hx0)) as (newRoot & -> & Hcr & _ & Hx1 & Hl & Hq); [|done|done|done|done|].
      { apply (walk_openable w0 _ parts oldSub); [by eapply walk_ext|done]. }
      exists newRoot. split; [done|]. split; [by eapply ext_trans|]. split; [done|].
      destruct (graft_ftree (cc_cfg cc) newSub stat j parts n (rp_Root p) w0 w1 newRoot (proj1 Hx0)) as (Htn & _ & _);
        [by eapply ftree_ext; [|apply Hs]|done|done|done|done|done|done|].
      split; [done|]. split; [done|]. split; [done|]. intros q c Ha Hwq. apply Hq; [done|]. by eapply walk_ext. }
  destruct (commit_reclaim_ok draws newRoot shards pub s s' r Hs Hown w1 Hx Htn Hcr E Hcl) as [Hok' Hr].
  destruct r as [t|e]; [|done]. exists newRoot, w1, shards, newSub. split; [done|]. split; [done|]. split; [by eapply copy_ext|]. split.
  - apply (walk_Resolve (cc_cfg cc) _ _ _ parts); [done|done|]. by apply (rc_paths _ _ _ _ _ _ Hr).
  - intros q qs c Hqs Ha Hwq. apply (walk_Resolve (cc_cfg cc) _ _ _ qs); [done|done|]. apply (rc_paths _ _ _ _ _ _ Hr). by apply Hq.
Qed.
End commands.

(** ** The blob layer over a Store *)

Section vault_delete.
Context `{Hsha : Sha256} `{Hgcm : AesGcm} `{Hfl : Deflate} `{Hrs : ReedSolomon}.
Context {S : Type} `{Hst : !Store S} {ok : S → Prop} `{Hlaws : !StoreLaws S ok}.
Implicit Types (w : Vault S).

#[export] Instance vault_deleter : Deleter (Vault S) := {|
  shard_delete id w := let '(s, r) := Delete id (v_store w) in (mkVault s (v_draws w) (v_log w) (v_small w), r) |}.

Definition vault_there (id : ShardID) w : Prop := is_ok (Get id (v_store w)) = true.

Lemma vault_delete_store id w : v_store (shard_delete id w).1 = (Delete id (v_store w)).1 ∧ v_log (shard_delete id w).1 = v_log w ∧
  v_small (shard_delete id w).1 = v_small w ∧ (shard_delete id w).2 = (Delete id (v_store w)).2.
Proof. cbn [shard_delete vault_deleter]. by destruct (Delete id (v_store w)). Qed.

Lemma delete_get s id id' : ok s → Get id' (Delete id s).1 = if decide (id' = id) then Err ErrNotFound else Get id' s.
Proof. intros Hok. case_decide; [subst; by apply delete_get_same|]. by apply delete_get_other. Qed.

Lemma present_delete s id ids : ok s → id ∉ ids → present (Delete id s).1 ids = present s ids.
Proof.
  intros Hok. unfold present. induction ids as [|x ids IH]; [done|]. intros [Hx Hin]%not_elem_of_cons. cbn [List.filter].
  rewrite delete_get, decide_False by done. specialize (IH Hin). destruct (is_ok (Get x s)); cbn [length]; lia.
Qed.

#[export] Instance vault_delete_laws : DeleteLaws (Vault S) (vault_ok (ok := ok)) vault_clean vault_holds vault_there.
Proof.
  split.
  - intros id w [Hok Hin]. destruct (vault_delete_store id w) as (Es & El & _). split; rewrite Es; [by apply delete_ok|].
    intros x y. rewrite El, delete_get by done. case_decide; [done|]. apply Hin.
  - intros id w. destruct (vault_delete_store id w) as (_ & El & Em & _). unfold vault_clean. by rewrite El, Em.
  - intros id w [Hok _] Hr. destruct (vault_delete_store id w) as (Es & _). unfold vault_there. rewrite Es, delete_get_same by done. done.
  - intros id id' w [Hok _]. destruct (vault_delete_store id' w) as (Es & _). unfold vault_there. rewrite Es, delete_get by done. by case_decide.
  - intros id w p ref x [Hok _] (Hp & He & shards & Hrec & Hr & Hl & HK) Hid. destruct (vault_delete_store id w) as (Es & El & _).
    split; [done|]. split; [done|]. exists shards. split; [done|]. rewrite Es, El. split; [|split; [done|by rewrite present_delete]].
    intros sh Hsh. rewrite delete_get by done. case_decide; [right; by left|]. by apply Hr.
Qed.
End vault_delete.

(** ** Examples *)

#[local] Strategy 100 [cmdRm cmdRevoke commitRoot].

Abbreviation ex_del := (@vault_deleter _ ex_mem).

(** The namespace with the one file "f", on a single node. *)
Definition ex_fp : RootPointer := ex_signed ex_froot 1.
Definition ex_fsite : Site (Vault Mem.MemStore) nat MemRootStore := mkSite ex_fstored.1 0%nat (mkMemRoot (Some ex_fp)).
Definition ex_quiet : FullRootPublisher nat := scripted (λ _, None) None.
Definition ex_elements (X : gset ShardID) : list ShardID := elements X.

Lemma quiet_ok : @publisher_ok toy_ed toy_gcm keyed_kem toy_cap_json ex_dj _ _ ex_quiet ex_cc 1 ex_vok ex_holds (λ _ _, True).
Proof. by split. Qed.

Lemma ex_settled : @settled_site ex_dj ex_fj _ nat MemRootStore ex_cc 1 ex_fp ex_vok ex_holds (λ _, True) mr_rp (λ _ _, True) ex_fsite.
Proof.
  destruct ex_file_world as (Hok & Hd & [Hcr Hc] & Hf). split; [exact Hok|exact I| |exact Hcr|exact I|reflexivity].
  right. exists ex_fdir. split; [exact Hd|]. constructor; [|constructor]. left. exists ex_man, ex_data. exact Hf.
Qed.

Definition ex_rm (P : FullRootPublisher nat) (pub : pub_kind) s : Site (Vault Mem.MemStore) nat MemRootStore * result ctl_err Tally :=
  @cmdRm toy_ed toy_gcm keyed_kem toy_cap_json ex_dj ex_fj _ _ _ ex_blobs ex_del P mem_root_store ex_elements ex_cc ex_draw 2 "f" (Some ex_fp) false pub s.


Definition ex_revoke : Site (Vault Mem.MemStore) nat MemRootStore * result ctl_err Tally :=
  @cmdRevoke toy_ed toy_gcm keyed_kem toy_cap_json ex_dj ex_fj _ _ _ ex_blobs ex_del ex_quiet mem_root_store ex_elements ex_cc ex_draw 2 "f" (Some ex_fp)
    false PubNil ex_fsite.

Lemma revoke_correct_witness :
  ∃ t, ex_revoke.2 = Ok t ∧ ta_failed t = 0 ∧ ∃ newRoot newSub, @Resolve ex_dj _ ex_blobs newRoot "f" (si_blobs ex_revoke.1) = Ok newSub.
Proof.
  assert (∃ t, ex_revoke.2 = Ok t ∧ ta_failed t = 0) as (t & Er & Ht) by (eexists; split; vm_compute; reflexivity).
  destruct ex_file_world as (_ & Hd & _).
  pose proof (@revoke_correct toy_ed toy_gcm keyed_kem toy_cap_json ex_dj ex_fj _ nat MemRootStore ex_blobs ex_del ex_quiet mem_root_store ex_elements
    (λ _, reflexivity _) ex_cc 1 ex_fp ex_vok ex_clean ex_holds _ ex_laws
    (@vault_delete_laws mod_sha null_gcm toy_deflate Xor.coder _ ex_mem _ (@Mem.mem_laws mod_sha)) (λ _, True) (λ _, True) mr_rp mem_root_laws
    (λ _ H, H) (λ _ _ _ _ _ _ _, I) _ quiet_ok ex_draw "f" ["f"] ex_file_cap PubNil ex_fsite ex_revoke.1 ex_revoke.2 ex_settled) as H.
  rewrite Er in H. destruct H as (newRoot & w1 & shards & newSub & _ & _ & _ & Hr & _).
  - vm_compute. reflexivity.
  - reflexivity.
  - constructor; [exact I|constructor].
  - apply (@walk_in ex_dj _ ex_holds ex_fstored.1 ex_froot ex_fdir "f" (mkEntry "f" ex_file_cap (bareStat KindFile)) [] _ Hd eq_refl), walk_here.
  - rewrite <-Er. exact (surjective_pairing ex_revoke).
  - apply is_clean_ok. vm_compute. reflexivity.
  - exists t. split; [exact Er|]. split; [exact Ht|]. exists newRoot, newSub. exact Hr.
Defined.

(** Another device copied "f" to "g" and published: the same cap at two paths. *)
Definition ex_two : DirManifest := mkDir zeroMeta [mkEntry "f" ex_file_cap (bareStat KindFile); mkEntry "g" ex_file_cap (bareStat KindFile)].
Definition ex_twoed : Vault Mem.MemStore * result manifest_err ReadCap := @StoreDir ex_dj _ ex_blobs ex_cfg ex_two ex_fstored.1.
Definition ex_copied : FullRootPublisher nat :=
  scripted (λ k, if decide (k = 0)%nat then Some (ex_signed (cap_of ex_twoed.2) 2) else None) (Some (cap_of ex_twoed.2)).
Definition ex_lost : Site (Vault Mem.MemStore) nat MemRootStore * result ctl_err Tally :=
  ex_rm ex_copied PubFull (mkSite ex_twoed.1 0%nat (mkMemRoot (Some ex_fp))).

(** rm deletes shards that the root it committed refers to. Device A removes
    "f" while device B has published a root in which "f" is also at "g" (a copy
    shares its cap). The commit merges: the durable root has "g". Then rm keeps
    only the shards of its own tree, not of the merged one, and deletes those of
    "f" without a failure: the durable root still leads from "g" to the file, and
    the file can no longer be read. *)
Theorem rm_deletes_merged :
  @LoadFileManifest ex_dj ex_fj _ ex_blobs ex_file_cap ex_twoed.1 = Ok ex_man ∧
  (ta_failed <$> (match ex_lost.2 with Ok t => Some t | Err _ => None end)) = Some 0 ∧
  match mr_rp (si_file ex_lost.1) with
  | Some rp => @Resolve ex_dj _ ex_blobs (rp_Root rp) "g" (si_blobs ex_lost.1) = Ok ex_file_cap
  | None => False
  end ∧
  is_ok (@LoadFileManifest ex_dj ex_fj _ ex_blobs ex_file_cap (si_blobs ex_lost.1)) = false.
Proof. vm_compute. repeat split; reflexivity. Qed.
