(* ===== verification/Move.v ===== *)
(** * cmd/revika-ctl: cp and mv inside the namespace (commands.go)

    [cpCopy] grafts an existing cap at a second path, [mvRename] grafts it and
    removes the first path, each in one commit. Both are metadata only. The paths
    come from the command line: the package path of Go ([path_Clean], [path_Join],
    [path_Base]) and [destPath] are modelled on arbitrary strings. *)

From Stdlib Require Import Strings.Ascii.
From S2P Require Import Prelude GoLib Store Crypto Stripe Erasure Chunk Pipeline Blobs Wire Codec Base64 Manifest Namespace Merge.
From S2P Require Import Files Root Device Discovery RootStores Identity Provider Commit Reclaim.

(** ** The package path *)

(** A component of [path.Clean]: ".." removes the component before it; with none
    to remove it vanishes at the root of a rooted path and is kept otherwise. *)
Definition rel_step (rooted : bool) (acc : list string) (c : string) : list string :=
  if decide (c = "" ∨ c = ".") then acc
  else if decide (c = "..") then
    match last acc with
    | Some x => if decide (x = "..") then acc ++ [".."] else removelast acc
    | None => if rooted then acc else [".."]
    end
  else acc ++ [c].

Definition path_rooted (p : string) : bool := HasPrefix p "/".
Definition rel_parts (p : string) : list string := foldl (rel_step (path_rooted p)) [] (split_slash "" p).

Definition path_Clean (p : string) : string :=
  if path_rooted p then String "/"%char (join_slash (rel_parts p))
  else if decide (rel_parts p = []) then "." else join_slash (rel_parts p).

(** [path.Join] of two elements: empty elements are ignored. *)
Definition path_Join (a b : string) : string :=
  if decide (a = "") then if decide (b = "") then "" else path_Clean b
  else if decide (b = "") then path_Clean a
  else path_Clean (a +:+ String "/"%char b).

(** [strings.CutSuffix] of a slash. *)
Fixpoint CutSlash (s : string) : option string :=
  match s with
  | EmptyString => None
  | String c EmptyString => if decide (c = "/"%char) then Some "" else None
  | String c s => String c <$> CutSlash s
  end.

(** Strip trailing slashes. *)
Fixpoint trim_slashes (s : string) : string :=
  match s with
  | EmptyString => ""
  | String c s => match trim_slashes s with
                  | EmptyString => if decide (c = "/"%char) then "" else String c ""
                  | s' => String c s'
                  end
  end.

Definition path_Base (p : string) : string :=
  if decide (p = "") then "."
  else match trim_slashes p with
       | EmptyString => "/"
       | p' => default "" (last (split_slash "" p'))
       end.

(** ** Addresses *)

Definition isRvk (s : string) : bool := HasPrefix s "rvk:".
Definition rvkPath (s : string) : string := if isRvk s then String.substring 4 (String.length s - 4) s else s.

(** ** The commands *)

Section move.
Context `{Hed : Ed25519} `{Hgcm : AesGcm} `{Hkem : MlKem} `{Hcj : Json readCapJSON} `{Hj : DirJson}.
Context {W D F : Type} `{Hb : !Blobs W} `{Hpub : !FullRootPublisher D} `{Hrs : !RootStore F}.
Implicit Types (w : W) (s : Site W D F).

Definition destPath w (root : ReadCap) (dst base : string) : string :=
  if decide (dst = "") then base
  else match CutSlash dst with
       | Some trimmed => path_Join trimmed base
       | None => match Resolve root dst w with
                 | Ok c => if decide (rc_Kind c = KindDir) then path_Join dst base else dst
                 | Err _ => dst
                 end
       end.

Definition currentRoot (cfg : Config) (prev : option RootPointer) w : W * result manifest_err ReadCap :=
  match prev with
  | Some p => (w, Ok (rp_Root p))
  | None => StoreDir cfg (NewDir zeroMeta) w
  end.

(** The base name of the source, which must name something. *)
Definition source_base (srcRvk : string) : result ctl_err string :=
  let base := path_Base srcRvk in
  if decide (base = "." ∨ base = "/" ∨ base = "") then Err CtlNameless else Ok base.

(** The common start of both commands: the root is ours, the source is there and
    has a name; the entry and the path it goes to. *)
Definition move_plan (signer : bytes) (srcRvk dstRvk : string) (prev : option RootPointer) (sealed : bool) w
    : result ctl_err (RootPointer * Entry * string) :=
  p ← owned_root signer prev sealed;
  srcEntry ← map_err CtlResolve (ResolveEntry (rp_Root p) srcRvk w);
  base ← source_base srcRvk;
  Ok (p, srcEntry, destPath w (rp_Root p) dstRvk base).

(** The commit at the end of both. *)
Definition commit_move (cc : commitConfig) (draws : nat → Draw) (fuel : nat) (newRoot : ReadCap) (prev : option RootPointer) (pub : pub_kind)
    (dstPath : string) s : Site W D F * result ctl_err string :=
  let '(s, r) := commitRoot cc draws fuel newRoot prev false pub s in
  (s, match r with Ok _ => Ok dstPath | Err e => Err (CtlCommit e) end).

Definition cpCopy (cc : commitConfig) (draws : nat → Draw) (fuel : nat) (srcRvk dstRvk : string) (prev : option RootPointer) (sealed : bool)
    (pub : pub_kind) s : Site W D F * result ctl_err string :=
  match move_plan (cc_signer cc) srcRvk dstRvk prev sealed (si_blobs s) with
  | Err e => (s, Err e)
  | Ok (p, srcEntry, dstPath) =>
      let '(w, r) := Graft (cc_cfg cc) (rp_Root p) dstPath (e_Cap srcEntry) (e_Stat srcEntry) (si_blobs s) in
      match r with
      | Err e => (with_blobs w s, Err (CtlGraft e))
      | Ok newRoot => commit_move cc draws fuel newRoot prev pub dstPath (with_blobs w s)
      end
  end.

(** The two refusals of mv, on the cleaned paths. *)
Definition mv_refuses (srcRvk dstPath : string) : option ctl_err :=
  let srcClean := path_Clean srcRvk in let dstClean := path_Clean dstPath in
  if decide (srcClean = dstClean) then Some CtlSamePath
  else if HasPrefix (dstClean +:+ "/") (srcClean +:+ "/") then Some CtlIntoItself
  else None.

Definition mvRename (cc : commitConfig) (draws : nat → Draw) (fuel : nat) (srcRvk dstRvk : string) (prev : option RootPointer) (sealed : bool)
    (pub : pub_kind) s : Site W D F * result ctl_err string :=
  match move_plan (cc_signer cc) srcRvk dstRvk prev sealed (si_blobs s) with
  | Err e => (s, Err e)
  | Ok (p, srcEntry, dstPath) =>
      match mv_refuses srcRvk dstPath with
      | Some e => (s, Err e)
      | None =>
          let '(w, r) := Graft (cc_cfg cc) (rp_Root p) dstPath (e_Cap srcEntry) (e_Stat srcEntry) (si_blobs s) in
          match r with
          | Err e => (with_blobs w s, Err (CtlGraft e))
          | Ok moved =>
              let '(w, r) := GraftRemove (cc_cfg cc) moved srcRvk w in
              match r with
              | Err e => (with_blobs w s, Err (CtlRemove e))
              | Ok newRoot => commit_move cc draws fuel newRoot prev pub dstPath (with_blobs w s)
              end
          end
      end
  end.

(** The arguments of mv after the flags: two addresses of the namespace. *)
Definition cmdMv (cc : commitConfig) (draws : nat → Draw) (fuel : nat) (args : list string) (prev : option RootPointer) (sealed : bool)
    (pub : pub_kind) s : Site W D F * result ctl_err string :=
  match args with
  | [src; dst] => if isRvk src && isRvk dst then mvRename cc draws fuel (rvkPath src) (rvkPath dst) prev sealed pub s else (s, Err CtlUsage)
  | _ => (s, Err CtlUsage)
  end.
End move.

Example path_Clean_examples :
  path_Clean "" = "." ∧ path_Clean "/a" = "/a" ∧ path_Clean "a/./b//c/.." = "a/b" ∧ path_Clean "../a" = "../a" ∧ path_Clean "/../a" = "/a" ∧
  path_Clean "a/../.." = ".." ∧ path_Clean "a/../../../b" = "../../b".
Proof. by vm_compute. Qed.
Example path_Base_examples :
  path_Base "" = "." ∧ path_Base "/" = "/" ∧ path_Base "a/b//" = "b" ∧ path_Base "a" = "a" ∧ path_Base "a/.." = "..".
Proof. by vm_compute. Qed.
Example path_Join_examples : path_Join "" "b" = "b" ∧ path_Join "a" "b" = "a/b" ∧ path_Join "a//" "../b" = "b" ∧ path_Join "/" "b" = "/b".
Proof. by vm_compute. Qed.

(** ** Lemmas: paths *)

(** A relative path that stays inside: it names what [splitPath] makes of it. *)
Definition plain (p : string) : Prop := path_rooted p = false ∧ ".." ∉ rel_parts p.
#[export] Instance plain_dec p : Decision (plain p).
Proof. unfold plain. apply _. Defined.

Lemma plain_check p : bool_decide (plain p) = true → plain p.
Proof. apply bool_decide_eq_true. Qed.

Lemma rel_step_keeps r acc c : ".." ∈ acc → ".." ∈ rel_step r acc c.
Proof.
  intros H. unfold rel_step. case_decide; [done|]. case_decide; [|apply elem_of_app; by left].
  destruct (last acc) as [x|] eqn:El; [|apply last_None in El as ->; by apply elem_of_nil in H]. case_decide as Hx; [apply elem_of_app; by left|].
  apply last_Some in El as [l ->]. rewrite removelast_last. apply elem_of_app in H as [?|H%list_elem_of_singleton]; [done|by destruct Hx].
Qed.

Lemma rel_fold_keeps r cs : ∀ acc, ".." ∈ acc → ".." ∈ foldl (rel_step r) acc cs.
Proof. induction cs as [|c cs IH]; intros acc H; [done|]. cbn [foldl]. by apply IH, rel_step_keeps. Qed.

Lemma rel_step_clean r acc c : ".." ∉ rel_step r acc c → ".." ∉ acc → rel_step r acc c = clean_step acc c.
Proof.
  unfold rel_step, clean_step. intros H Ha. case_decide; [done|]. case_decide; [|done].
  destruct (last acc) as [x|] eqn:El.
  - case_decide as Hx; [|done]. destruct Ha. apply last_Some in El as [l ->]. apply elem_of_app. right. subst. by apply list_elem_of_singleton.
  - apply last_None in El as ->. destruct r; [done|]. destruct H. by apply list_elem_of_singleton.
Qed.

Lemma rel_fold_clean r cs : ∀ acc, ".." ∉ acc → ".." ∉ foldl (rel_step r) acc cs → foldl (rel_step r) acc cs = foldl clean_step acc cs.
Proof.
  induction cs as [|c cs IH]; intros acc Ha H; [done|]. cbn [foldl] in *.
  assert (".." ∉ rel_step r acc c) as Hs by (intros Hin; by apply H, rel_fold_keeps). rewrite IH by done. by rewrite rel_step_clean.
Qed.

Lemma plain_parts p : plain p → rel_parts p = clean_parts p.
Proof. intros [_ H]. unfold rel_parts, clean_parts. apply rel_fold_clean; [|done]. by apply not_elem_of_nil. Qed.

Lemma clean_parts_normal p : Forall normal (clean_parts p).
Proof. apply splitPath_Ok. Qed.

Lemma clean_parts_last p init name : clean_parts p = init ++ [name] → normal name.
Proof. intros E. pose proof (clean_parts_normal p) as HF. rewrite E in HF. by apply Forall_app in HF as [_ [? _]%Forall_cons]. Qed.

Lemma join_slash_nil parts : Forall normal parts → join_slash parts = "" → parts = [].
Proof. intros Hn E. apply (inj (@Ok manifest_err _)). rewrite <-(splitPath_join parts Hn), E. by vm_compute. Qed.

Lemma plain_Clean p : plain p → clean_parts p ≠ [] → path_Clean p = join_slash (clean_parts p).
Proof. intros Hp Hne. unfold path_Clean. destruct Hp as [Hr ?]. rewrite Hr. rewrite plain_parts by done. by rewrite decide_False. Qed.


(** Each component followed by a slash. *)
Fixpoint slashed (parts : list string) : string :=
  match parts with [] => "" | c :: parts => c +:+ String "/" (slashed parts) end.

Lemma slashed_join parts : parts ≠ [] → join_slash parts +:+ "/" = slashed parts.
Proof.
  induction parts as [|c parts IH]; [done|]. intros _. destruct parts as [|c' parts]; [done|].
  change (join_slash (c :: c' :: parts)) with (c +:+ String "/" (join_slash (c' :: parts))). rewrite str_app_assoc.
  change (c +:+ String "/" (join_slash (c' :: parts) +:+ "/") = slashed (c :: c' :: parts)). by rewrite IH.
Qed.

Lemma prefix_slash a : ∀ b s t, has_slash a = false → has_slash b = false →
  String.prefix (a +:+ String "/" s) (b +:+ String "/" t) = bool_decide (a = b) && String.prefix s t.
Proof.
  induction a as [|x a IH]; intros [|y b] s t Ha Hb'; cbn [has_slash] in *.
  - rewrite bool_decide_true by done. change (String.prefix (String "/" s) (String "/" t) = String.prefix s t).
    cbn [String.prefix]. by destruct (ascii_dec "/" "/").
  - apply orb_false_iff in Hb' as [Hy _]. apply bool_decide_eq_false in Hy. rewrite bool_decide_false by done.
    change (String.prefix (String "/" s) (String y (b +:+ String "/" t)) = false). cbn [String.prefix]. by destruct (ascii_dec "/" y).
  - apply orb_false_iff in Ha as [Hx _]. apply bool_decide_eq_false in Hx. rewrite bool_decide_false by done.
    change (String.prefix (String x (a +:+ String "/" s)) (String "/" t) = false). cbn [String.prefix]. by destruct (ascii_dec x "/").
  - apply orb_false_iff in Ha as [_ Ha]. apply orb_false_iff in Hb' as [_ Hb'].
    change (String.prefix (String x (a +:+ String "/" s)) (String y (b +:+ String "/" t)) = bool_decide (String x a = String y b) && String.prefix s t).
    cbn [String.prefix]. destruct (ascii_dec x y) as [->|Hn].
    + rewrite IH by done. f_equal. apply bool_decide_ext. split; congruence.
    + rewrite bool_decide_false by congruence. done.
Qed.

Lemma slashed_prefix a : ∀ b, Forall normal a → Forall normal b → String.prefix (slashed a) (slashed b) = bool_decide (a `prefix_of` b).
Proof.
  induction a as [|x a IH]; intros b Ha Hb'.
  { cbn [slashed]. rewrite bool_decide_true by apply prefix_nil. by destruct (slashed b). }
  apply Forall_cons in Ha as [Hx Ha]. destruct b as [|y b].
  { rewrite bool_decide_false by apply prefix_nil_not. cbn [slashed]. by destruct x. }
  apply Forall_cons in Hb' as [Hy Hb']. cbn [slashed]. rewrite prefix_slash by (apply Hx || apply Hy). rewrite IH by done.
  destruct (decide (x = y)) as [->|Hn].
  - rewrite bool_decide_true by done. cbn [andb]. apply bool_decide_ext. split; [apply prefix_cons|apply prefix_cons_inv_2].
  - rewrite bool_decide_false by done. cbn [andb]. symmetry. apply bool_decide_eq_false. intros H%prefix_cons_inv_1. done.
Qed.

(** On plain paths the refusals of mv are exact. *)
Lemma mv_refuses_spec src dst : plain src → plain dst → clean_parts src ≠ [] → clean_parts dst ≠ [] →
  mv_refuses src dst = (if decide (clean_parts src = clean_parts dst) then Some CtlSamePath
                        else if decide (clean_parts src `prefix_of` clean_parts dst) then Some CtlIntoItself else None).
Proof.
  intros Hs Hd Hns Hnd. pose proof (clean_parts_normal src) as Fs. pose proof (clean_parts_normal dst) as Fd.
  unfold mv_refuses. rewrite (plain_Clean src Hs Hns), (plain_Clean dst Hd Hnd). unfold HasPrefix. rewrite !slashed_join by done.
  rewrite slashed_prefix by done. destruct (decide (clean_parts src = clean_parts dst)) as [E|Hn].
  - by rewrite E, decide_True.
  - rewrite decide_False by (intros E; by apply Hn, join_slash_inj). case_decide; [by rewrite bool_decide_true|by rewrite bool_decide_false].
Qed.

Lemma path_rooted_app a b : a ≠ "" → path_rooted (a +:+ b) = path_rooted a.
Proof.
  destruct a as [|x a]; [done|]. intros _. unfold path_rooted, HasPrefix.
  change (String x a +:+ b) with (String x (a +:+ b)). cbn [String.prefix].
  destruct (ascii_dec "/" x); [|done]. by destruct a, b.
Qed.

Lemma split_slash_snoc a b : ∀ cur, has_slash b = false → split_slash cur (a +:+ String "/" b) = split_slash cur a ++ [b].
Proof.
  intros cur Hnb. revert cur. induction a as [|x a IH]; intros cur.
  - change ("" +:+ String "/" b) with (String "/" b). cbn [split_slash]. rewrite decide_True by done. cbn [app]. f_equal.
    by rewrite split_slash_one.
  - change (String x a +:+ String "/" b) with (String x (a +:+ String "/" b)). cbn [split_slash]. case_decide; [cbn [app]; f_equal|]; apply IH.
Qed.

Lemma rel_step_normal r acc c : normal c → rel_step r acc c = acc ++ [c].
Proof. intros (H1 & H2 & H3 & _). unfold rel_step. rewrite decide_False by tauto. by rewrite decide_False. Qed.

Lemma rel_parts_snoc a b : a ≠ "" → normal b → rel_parts (a +:+ String "/" b) = rel_parts a ++ [b].
Proof.
  intros Ha Hn. unfold rel_parts. rewrite path_rooted_app, split_slash_snoc by (done || apply Hn).
  rewrite foldl_app. cbn [foldl]. by rewrite rel_step_normal.
Qed.

Lemma split_join parts : Forall normal parts → parts ≠ [] → split_slash "" (join_slash parts) = parts.
Proof.
  induction 1 as [|c parts Hc HF IH]; [done|]. intros _. destruct parts as [|c' parts].
  - cbn [join_slash]. rewrite split_slash_one by apply Hc. done.
  - change (join_slash (c :: c' :: parts)) with (c +:+ String "/" (join_slash (c' :: parts))).
    rewrite split_slash_cons by apply Hc. by rewrite IH.
Qed.

Lemma rel_fold_normal r parts : Forall normal parts → ∀ acc, foldl (rel_step r) acc parts = acc ++ parts.
Proof.
  induction 1 as [|c parts Hc _ IH]; intros acc; [by rewrite app_nil_r|]. cbn [foldl]. rewrite rel_step_normal, IH by done.
  by rewrite <-app_assoc.
Qed.

(** A path written out of normal components is plain. *)
Lemma plain_join parts : Forall normal parts → plain (join_slash parts) ∧ clean_parts (join_slash parts) = parts.
Proof.
  intros Hn. assert (clean_parts (join_slash parts) = parts) as Hc.
  { apply (inj (@Ok manifest_err _)). rewrite <-(proj1 (splitPath_Ok _)). by apply splitPath_join. }
  split; [|done]. destruct (decide (parts = [])) as [->|Hne]. { split; [done|]. vm_compute. intros H. inversion H. }
  assert (rel_parts (join_slash parts) = parts) as Hr by (unfold rel_parts; by rewrite split_join, rel_fold_normal).
  split.
  - destruct parts as [|[|x c] parts]; [done|by apply Forall_cons in Hn as [[? _] _]|]. apply Forall_cons in Hn as [(_ & _ & _ & Hs) _].
    cbn [has_slash] in Hs. apply orb_false_iff in Hs as [Hx _]. apply bool_decide_eq_false in Hx. unfold path_rooted, HasPrefix.
    destruct parts; cbn [join_slash]; [|change (String x c +:+ ?t) with (String x (c +:+ t))]; cbn [String.prefix]; by destruct (ascii_dec "/" x).
  - rewrite Hr. intros Hin. rewrite Forall_forall in Hn. by destruct (Hn _ Hin) as (_ & _ & ? & _).
Qed.

(** A rooted source is never refused for a relative destination. *)
Lemma mv_rooted_passes src dst : path_rooted src = true → plain dst → mv_refuses src dst = None.
Proof.
  intros Hs [Hr Hd]. assert (path_rooted (path_Clean src) = true) as Hcs.
  { unfold path_Clean. rewrite Hs. unfold path_rooted, HasPrefix. cbn [String.prefix]. destruct (ascii_dec "/" "/"); [|done]. by destruct (join_slash (rel_parts src)). }
  assert (path_rooted (path_Clean dst) = false) as Hcd.
  { unfold path_Clean. rewrite Hr. case_decide; [done|]. rewrite plain_parts by done. apply plain_join, clean_parts_normal. }
  unfold mv_refuses. rewrite decide_False by congruence. revert Hcs Hcd. generalize (path_Clean src) (path_Clean dst). intros [|x a] [|y b]; [done|done| |].
  - unfold path_rooted, HasPrefix. change (String x a +:+ "/") with (String x (a +:+ "/")). change ("" +:+ "/") with "/". cbn [String.prefix].
    destruct (ascii_dec "/" x); [|done]. intros _ _. destruct (ascii_dec x "/"); [|done]. by destruct a.
  - unfold path_rooted, HasPrefix. change (String x a +:+ "/") with (String x (a +:+ "/")). change (String y b +:+ "/") with (String y (b +:+ "/")).
    cbn [String.prefix]. destruct (ascii_dec "/" x); [|done]. destruct (ascii_dec "/" y); [by destruct b|]. destruct (ascii_dec x y); [congruence|done].
Qed.

Lemma path_Join_plain a b : plain a → normal b → plain (path_Join a b) ∧ clean_parts (path_Join a b) = clean_parts a ++ [b].
Proof.
  intros Ha Hn. assert (Forall normal (clean_parts a ++ [b])) as HF by (apply Forall_app; split; [apply clean_parts_normal|by apply Forall_singleton]).
  enough (path_Join a b = join_slash (clean_parts a ++ [b])) as -> by (by apply plain_join).
  unfold path_Join. case_decide as Hae.
  - subst a. rewrite decide_False by apply Hn. pose proof (plain_join [b] ltac:(by apply Forall_singleton)) as [Hp Hc]. cbn [join_slash] in Hp, Hc.
    rewrite plain_Clean, Hc by (done || by rewrite Hc). done.
  - rewrite decide_False by apply Hn. unfold path_Clean. rewrite path_rooted_app, rel_parts_snoc by done. destruct Ha as [Hr Hd]. rewrite Hr.
    rewrite plain_parts by done. rewrite decide_False; [done|]. by destruct (clean_parts a).
Qed.

Lemma CutSlash_spec s t : CutSlash s = Some t → s = t +:+ "/".
Proof.
  revert t. induction s as [|c s IH]; intros t; [done|]. cbn [CutSlash]. destruct s as [|c' s].
  - case_decide; intros [= <-]. by subst.
  - intros (t' & E & ->)%fmap_Some. change (String c t' +:+ "/") with (String c (t' +:+ "/")). f_equal. by apply IH.
Qed.

Lemma plain_trim t : t ≠ "" → plain (t +:+ "/") → plain t ∧ clean_parts t = clean_parts (t +:+ "/").
Proof.
  intros Ht [Hr Hd]. rewrite path_rooted_app in Hr by done.
  assert (rel_parts (t +:+ "/") = rel_parts t) as E.
  { unfold rel_parts. rewrite path_rooted_app by done. rewrite (split_slash_snoc t "" "") by done. rewrite foldl_app. cbn [foldl].
    unfold rel_step at 1. by rewrite decide_True by (by left). }
  rewrite E in Hd. split; [done|]. unfold clean_parts. rewrite (split_slash_snoc t "" "") by done. rewrite foldl_app. cbn [foldl].
  unfold clean_step at 2. by rewrite decide_True by (by left).
Qed.

(** What [destPath] makes of a plain destination: the path itself, or the base name
    in it when it is empty, ends in a slash or names a directory. *)
Section dest.
Context `{Hj : DirJson} {W : Type} `{Hb : !Blobs W}.
Definition into_dir (w : W) (root : ReadCap) (dst : string) : bool :=
  bool_decide (dst = "") || bool_decide (is_Some (CutSlash dst)) ||
  match Resolve root dst w with Ok c => bool_decide (rc_Kind c = KindDir) | Err _ => false end.

Lemma destPath_spec w root dst base : plain dst → normal base →
  plain (destPath w root dst base) ∧
  clean_parts (destPath w root dst base) = (if into_dir w root dst then clean_parts dst ++ [base] else clean_parts dst).
Proof.
  intros Hp Hn. unfold destPath, into_dir. case_decide as He.
  { subst dst. rewrite bool_decide_true by done. cbn [orb]. pose proof (plain_join [base] ltac:(by apply Forall_singleton)) as H. exact H. }
  rewrite (bool_decide_false (dst = "")) by done. cbn [orb]. destruct (CutSlash dst) as [t|] eqn:Ec.
  - rewrite bool_decide_true by eauto. cbn [orb]. apply CutSlash_spec in Ec as ->.
    destruct (decide (t = "")) as [->|Ht]; [by destruct Hp|]. destruct (plain_trim t Ht Hp) as [Ht' <-]. by apply path_Join_plain.
  - rewrite bool_decide_false by (by intros [? ?]). cbn [orb]. destruct (Resolve root dst w) as [c|]; [|done].
    case_decide as Hk; [rewrite bool_decide_true by done; by apply path_Join_plain|by rewrite bool_decide_false].
Qed.
End dest.

(** ** The commands *)

Section commands.
Context `{Hed : Ed25519} `{Hgcm : AesGcm} `{Hkem : MlKem} `{Hcj : Json readCapJSON} `{Hj : DirJson} `{Hfj : !FileJson}.
Context {W D F : Type} `{Hb : !Blobs W} `{Hpub : !FullRootPublisher D} `{Hrs : !RootStore F}.
Context (cc : commitConfig) (n : nat) (p : RootPointer).
Context {w_ok clean : W → Prop} {holds : W → Params → ChunkRef → bytes → Prop}.
Context `{HL : !BlobLaws W (cc_cfg cc) w_ok clean holds}.
Context {f_ok : F → Prop} {sv : RootPointer → Prop} {view : F → option RootPointer} (Hfile : RootStoreLaws F f_ok sv view).
Context (Hlabel : ∀ name, utf8 name → utf8 (cc_label cc name)).
Context (Hsv : ∀ root seq t rp, SignRoot (cc_signer cc) root seq t = Ok rp → cap_ok root → is_u64 seq → sv rp).
Context {d_ok : W → D → Prop} (Hpo : publisher_ok cc n (w_ok := w_ok) (holds := holds) d_ok).
Abbreviation ftree := (ftree (cc_cfg cc) (holds := holds)).
Abbreviation leads := (walk (holds := holds)).
Abbreviation extends := (ext (w_ok := w_ok) (holds := holds)).
Abbreviation settled := (settled_site cc n p (w_ok := w_ok) (holds := holds) (f_ok := f_ok) (view := view) (d_ok := d_ok)).
Implicit Types (s : Site W D F).

(** The durable file of [s] holds a later pointer of the owner; without a DHT to
    merge with, to [newRoot] itself. *)
Definition advanced (newRoot : ReadCap) (pub : pub_kind) s : Prop :=
  ∃ rp, view (si_file s) = Some rp ∧ rp_Owner rp = Public (cc_signer cc) ∧ root_Verify rp = true ∧ rp_Seq p < rp_Seq rp ∧
    (pub ≠ PubFull ∨ cc_mlkemOK cc = false → rp_Root rp = newRoot).

Lemma commit_move_ok draws newRoot dstPath pub s s' r w1 :
  settled s → extends (si_blobs s) w1 → ftree (S n) w1 newRoot → cap_ok newRoot →
  commit_move cc draws (S n) newRoot (Some p) pub dstPath (with_blobs w1 s) = (s', r) → clean (si_blobs s') →
  extends w1 (si_blobs s') ∧
  match r with Ok d => d = dstPath ∧ advanced newRoot pub s' | Err e => (∃ ce, e = CtlCommit ce) ∧ view (si_file s') = Some p end.
Proof.
  intros [Hok Hd Ht Hc Hf Hv] Hx1 Ht1 Hc1 E Hcl. unfold commit_move in E. destruct (commitRoot _ _ _ _ _ _ _ _) as [s1 r1] eqn:Ec.
  apply pair_eq in E as [<- <-].
  assert (working n (Some p) (w_ok := w_ok) (holds := holds) (f_ok := f_ok) (view := view) (d_ok := d_ok) newRoot (with_blobs w1 s)) as Hw.
  { split; cbn [with_blobs si_blobs si_dht si_file]; [apply Hx1|by eapply (po_mono _ _ _ Hpo)|by apply (ftree_tree (cc_cfg cc))| |done|done].
    left. cbn [base_cap]. eapply tree_ext; [done|]. by apply (ftree_tree (cc_cfg cc)). }
  destruct (commit_ok cc n (Some p) Hfile Hlabel Hsv Hpo draws newRoot pub _ s1 r1 Hw Ec Hcl) as (Hx2 & _ & Hr). split; [done|].
  destruct r1 as [cf|e]; [|split; [by eexists|done]]. destruct Hr as (rp & [Hsv1 Ho1 Hvf Hadv _] & Hroot). split; [done|].
  exists rp. split_and!; [done|done|done|by apply Hadv|done].
Qed.

Lemma commit_move_back draws newRoot dstPath pub s :
  clean (si_blobs (commit_move cc draws (S n) newRoot (Some p) pub dstPath s).1) → clean (si_blobs s).
Proof.
  intros Hc. apply (commit_back cc n (Some p) draws newRoot false pub). unfold commit_move in Hc.
  by destruct (commitRoot _ _ _ _ _ _ _ _).
Qed.

(** The entry a path leads to. *)
Lemma walk_entry w root parts c : w_ok w → leads w root parts c → parts ≠ [] →
  ∃ e, resolve_entry parts root w = Ok e ∧ e_Cap e = c ∧ cap_ok c.
Proof.
  intros Hok. induction 1 as [|c d name e parts c' Hd Hl Hw IH]; intros Hne; [done|]. cbn [resolve_entry].
  rewrite decide_False by (intros Hk; by apply Hk, (dir_at_kind (holds := holds) w _ d)). rewrite (dir_at_load (cc_cfg cc) w _ d Hok Hd). cbn [mbind result_bind].
  rewrite Hl. destruct parts as [|x parts].
  - inversion Hw; subst. exists e. split; [done|]. split; [done|]. pose proof (Lookup_entry d name e (proj1 (proj2 Hd)) Hl) as He.
    destruct (proj1 (proj2 Hd)) as [_ Hcs _ _]. rewrite Forall_forall in Hcs. by apply Hcs.
  - by apply IH.
Qed.

(** The start of the commands, when the source is there and its base name is the
    last component of its path. *)
Lemma move_plan_ok src dst init name c s :
  settled s → rp_Owner p = Public (cc_signer cc) → clean_parts src = init ++ [name] → path_Base src = name →
  leads (si_blobs s) (rp_Root p) (init ++ [name]) c →
  ∃ e, e_Cap e = c ∧ cap_ok c ∧
    move_plan (cc_signer cc) src dst (Some p) false (si_blobs s) = Ok (p, e, destPath (si_blobs s) (rp_Root p) dst name).
Proof.
  intros Hs Hown Hc Hbase Hw. assert (init ++ [name] ≠ []) as Hne by (by destruct init).
  destruct (walk_entry (si_blobs s) (rp_Root p) _ c (ss_ok _ _ _ _ Hs) Hw Hne) as (e & Ee & <- & Hcap). exists e. split; [done|]. split; [done|].
  unfold move_plan, owned_root. cbn [of_option mbind result_bind]. rewrite decide_False by (by intros []). cbn [mbind result_bind].
  unfold ResolveEntry. rewrite (proj1 (splitPath_Ok src)), Hc. cbn [mbind result_bind].
  replace (match init ++ [name] with [] => _ | _ :: _ => _ end) with (resolve_entry (init ++ [name]) (rp_Root p) (si_blobs s)) by (by destruct init).
  rewrite Ee. cbn [map_err mbind result_bind]. unfold source_base. rewrite Hbase.
  pose proof (clean_parts_normal src) as HF. rewrite Hc in HF. apply Forall_app in HF as [_ HF]. apply Forall_cons in HF as [(H1 & H2 & _ & H4) _].
  rewrite decide_False; [done|]. intros [?|[->|?]]; done.
Qed.

(** Where the commands put the source. *)
Definition landing (dst name : string) s : list string :=
  if into_dir (si_blobs s) (rp_Root p) dst then clean_parts dst ++ [name] else clean_parts dst.

Lemma landing_spec dst name s : settled s → rc_Kind (rp_Root p) = KindDir → plain dst → normal name →
  plain (destPath (si_blobs s) (rp_Root p) dst name) ∧ clean_parts (destPath (si_blobs s) (rp_Root p) dst name) = landing dst name s ∧
  landing dst name s ≠ [].
Proof.
  intros Hs Hk Hp Hn. destruct (destPath_spec (si_blobs s) (rp_Root p) dst name Hp Hn) as [H1 H2]. split; [done|]. split; [done|].
  unfold landing. destruct (into_dir _ _ _) eqn:Ei; [by destruct (clean_parts dst)|]. intros E. unfold into_dir in Ei.
  apply orb_false_iff in Ei as [_ Ei]. unfold Resolve in Ei. rewrite (proj1 (splitPath_Ok dst)), E in Ei. cbn [mbind result_bind resolve_parts] in Ei. by rewrite bool_decide_true in Ei.
Qed.

Lemma landing_utf8 dst init name s : Forall utf8 (init ++ [name]) → Forall utf8 (clean_parts dst) → Forall utf8 (landing dst name s).
Proof.
  intros [_ Hn]%Forall_app Hd. unfold landing. destruct (into_dir _ _ _); [|done]. apply Forall_app. by split.
Qed.

Lemma walk_head w root parts c : leads w root parts c → parts ≠ [] → rc_Kind root = KindDir.
Proof. destruct 1 as [|c d name e parts c' Hd _ _]; [done|]. intros _. by eapply dir_at_kind. Qed.

(** The grafts of mv and its commit, when the refusals let it pass; [old] is still
    there after the first graft. *)
Lemma mv_run draws dstPath src old new e k pub s s' r :
  settled s → clean_parts src = old → old ≠ [] → clean_parts dstPath = new → Forall utf8 old → Forall utf8 new → cap_ok (e_Cap e) →
  ftree k (si_blobs s) (e_Cap e) → (length new + k ≤ S n)%nat → openable (holds := holds) (si_blobs s) (rp_Root p) new →
  (∀ w' root', extends (si_blobs s) w' → leads w' root' new (e_Cap e) →
     (∀ qs c, apart new qs → leads (si_blobs s) (rp_Root p) qs c → leads w' root' qs c) → ∃ c', leads w' root' old c') →
  (let '(w, r) := Graft (cc_cfg cc) (rp_Root p) dstPath (e_Cap e) (e_Stat e) (si_blobs s) in
   match r with
   | Err e => (with_blobs w s, Err (CtlGraft e))
   | Ok moved =>
       let '(w, r) := GraftRemove (cc_cfg cc) moved src w in
       match r with
       | Err e => (with_blobs w s, Err (CtlRemove e))
       | Ok newRoot => commit_move cc draws (S n) newRoot (Some p) pub dstPath (with_blobs w s)
       end
   end) = (s', r) → clean (si_blobs s') →
  w_ok (si_blobs s') ∧
  match r with
  | Err e => (∃ ce, e = CtlCommit ce) ∧ view (si_file s') = Some p
  | Ok d => d = dstPath ∧ ∃ newRoot, advanced newRoot pub s' ∧ ftree (S n) (si_blobs s') newRoot ∧
      missing (holds := holds) (si_blobs s') newRoot old ∧ (apart old new → leads (si_blobs s') newRoot new (e_Cap e)) ∧
      ∀ qs c, apart new qs → apart old qs → leads (si_blobs s) (rp_Root p) qs c → leads (si_blobs s') newRoot qs c
  end.
Proof.
  intros Hs Eo Hne En Huo Hun Hc Ht Hlen Ho Hold E Hcl. destruct (Graft _ _ _ _ _ _) as [w1 r1] eqn:E1.
  assert (clean w1) as Hcl1.
  { destruct r1 as [g|]; [|by injection E as <- _]. apply (GraftRemove_back (cc_cfg cc) g src). destruct (GraftRemove _ _ _ _) as [w2 r2].
    destruct r2 as [nr|]; [|by injection E as <- _]. apply (commit_move_back draws nr dstPath pub (with_blobs w2 s)). by rewrite E. }
  unfold Graft in E1. rewrite (proj1 (splitPath_Ok dstPath)), En in E1.
  assert (graft (cc_cfg cc) (rp_Root p) new (e_Cap e) (e_Stat e) (si_blobs s) = (w1, r1)) as Eg by (destruct new; [by inversion Ho|done]).
  pose proof (ss_ok _ _ _ _ Hs) as Hok.
  destruct (graft_spec (cc_cfg cc) (e_Cap e) (e_Stat e) new (rp_Root p) (si_blobs s) w1 r1 Hok Ho Hun Hc Eg Hcl1) as (g & -> & Hcg & _ & Hx1 & Hw1 & Hoth1).
  destruct (graft_ftree (cc_cfg cc) (e_Cap e) (e_Stat e) k new n (rp_Root p) (si_blobs s) w1 g Hok (ss_tree _ _ _ _ Hs) Ht Hc Hlen Hun Eg Hcl1) as (Htg & _ & _).
  destruct (Hold w1 g Hx1 Hw1 Hoth1) as [c' Hold']. destruct (GraftRemove _ _ _ _) as [w2 r2] eqn:E2.
  assert (clean w2) as Hcl2.
  { destruct r2 as [nr|]; [|by injection E as <- _]. apply (commit_move_back draws nr dstPath pub (with_blobs w2 s)). by rewrite E. }
  unfold GraftRemove in E2. rewrite (proj1 (splitPath_Ok src)), Eo in E2.
  assert (graftRemove (cc_cfg cc) g old w1 = (w2, r2)) as Eg2 by (by destruct old).
  destruct (graftRemove_spec (cc_cfg cc) old g w1 w2 r2 c' (proj1 Hx1) Hne Hold' Huo Eg2 Hcl2) as (nr & -> & Hcr & _ & Hx2 & Hm & Hq).
  destruct (graftRemove_ftree (cc_cfg cc) old n g w1 w2 nr (proj1 Hx1) Htg Huo Eg2 Hcl2) as (Htn & _ & _).
  destruct (commit_move_ok draws nr dstPath pub s s' r w2 Hs (ext_trans _ _ _ Hx1 Hx2) Htn Hcr E Hcl) as [Hx3 Hr]. split; [apply Hx3|].
  destruct r as [d|er]; [|done]. destruct Hr as [-> Hadv]. split; [done|]. exists nr. split_and!; [done|by eapply ftree_ext|by eapply missing_ext| |].
  - intros Ha. eapply walk_ext; [done|]. by apply Hq.
  - intros qs c Han Hao Hw. eapply walk_ext; [done|]. apply Hq; [done|]. by apply Hoth1.
Qed.

Lemma apart_not_prefix a : ∀ b, apart b a → ¬ (a `prefix_of` b).
Proof.
  induction a as [|x a IH]; intros [|y b]; cbn [apart]; try done. intros [Hn|[-> Ha]] H; [by apply prefix_cons_inv_1 in H|].
  apply prefix_cons_inv_2 in H. by eapply IH.
Qed.

Lemma walk_splits w root path parts c : w_ok w → clean_parts path = parts → leads w root parts c → Resolve root path w = Ok c.
Proof. intros Hok <- Hw. eapply (walk_Resolve (cc_cfg cc)); [done|apply splitPath_Ok|done]. Qed.

Lemma missing_splits w root path parts : w_ok w → clean_parts path = parts → missing (holds := holds) w root parts →
  ∃ x, Resolve root path w = Err (MNotFound x).
Proof.
  intros Hok <- Hm. unfold Resolve. rewrite (proj1 (splitPath_Ok path)). cbn [mbind result_bind]. by apply (missing_resolve (cc_cfg cc)).
Qed.


(** mv of a rooted path loses what it moves. The refusals compare the paths as
    they were typed, but the namespace ignores a leading slash: with a source
    "/a/b", a destination that is the source or lies below it is not refused. If
    mv then succeeds it has committed a root in which the source path and
    everything that was below it, the new copy included, is not there. *)
Theorem mv_rooted_loses draws src dst init name c k pub s s' d :
  settled s → rp_Owner p = Public (cc_signer cc) → path_rooted src = true → plain dst →
  clean_parts src = init ++ [name] → path_Base src = name → leads (si_blobs s) (rp_Root p) (init ++ [name]) c →
  Forall utf8 (init ++ [name]) → Forall utf8 (clean_parts dst) → ftree k (si_blobs s) c →
  let new := landing dst name s in
  init ++ [name] `prefix_of` new → openable (holds := holds) (si_blobs s) (rp_Root p) new → (length new + k ≤ S n)%nat →
  mvRename cc draws (S n) src dst (Some p) false pub s = (s', Ok d) → clean (si_blobs s') →
  ∃ newRoot, advanced newRoot pub s' ∧ ∀ q qs, splitPath q = Ok qs → init ++ [name] `prefix_of` qs →
    ∃ x, Resolve newRoot q (si_blobs s') = Err (MNotFound x).
Proof.
  intros Hs Hown Hrt Hpd Hcs Hbase Hw Hus Hud Ht new Hpre Ho Hlen E Hcl.
  assert (init ++ [name] ≠ []) as Hne by (by destruct init). pose proof (walk_head _ _ _ _ Hw Hne) as Hk.
  pose proof (clean_parts_last src init name Hcs) as Hn.
  destruct (move_plan_ok src dst init name c s Hs Hown Hcs Hbase Hw) as (e & <- & Hcap & Epl). unfold mvRename in E. rewrite Epl in E.
  destruct (landing_spec dst name s Hs Hk Hpd Hn) as (Hpp & Hcp & Hnn). fold new in Hcp, Hnn.
  rewrite (mv_rooted_passes src _ Hrt Hpp) in E.
    pose proof (landing_utf8 dst init name s Hus Hud : Forall utf8 new) as Hun.
  destruct (mv_run draws _ src _ new e k pub s s' (Ok d) Hs Hcs Hne Hcp Hus Hun Hcap Ht Hlen Ho) as [Hok' (_ & nr & Hadv & _ & Hm & _)]; [|done|done|].
  { intros w' root' _ Hl _. destruct Hpre as [below Eb]. rewrite Eb in Hl. destruct (walk_prefix w' root' (init ++ [name]) below _ Hl) as (c' & Hc' & _). eauto. }
  exists nr. split; [done|]. intros q qs Eq [below ->]. apply (missing_splits _ _ _ ((init ++ [name]) ++ below)); [done| |by apply missing_app].
  rewrite (proj1 (splitPath_Ok q)) in Eq. by injection Eq.
Qed.

(** A graft and its commit, where the way to the destination is open. *)
Lemma graft_commit draws new dstPath child stat k pub s s' r :
  settled s → clean_parts dstPath = new → Forall utf8 new → cap_ok child → ftree k (si_blobs s) child →
  openable (holds := holds) (si_blobs s) (rp_Root p) new → (length new + k ≤ S n)%nat →
  (let '(w, r) := Graft (cc_cfg cc) (rp_Root p) dstPath child stat (si_blobs s) in
   match r with
   | Err e => (with_blobs w s, Err (CtlGraft e))
   | Ok newRoot => commit_move cc draws (S n) newRoot (Some p) pub dstPath (with_blobs w s)
   end) = (s', r) → clean (si_blobs s') →
  extends (si_blobs s) (si_blobs s') ∧
  match r with
  | Err e => (∃ ce, e = CtlCommit ce) ∧ view (si_file s') = Some p
  | Ok d => d = dstPath ∧ ∃ newRoot, advanced newRoot pub s' ∧ ftree (S n) (si_blobs s') newRoot ∧ leads (si_blobs s') newRoot new child ∧
      ∀ qs c, apart new qs → leads (si_blobs s) (rp_Root p) qs c → leads (si_blobs s') newRoot qs c
  end.
Proof.
  intros Hs Hcp Hun Hcap Ht Ho Hlen E Hcl. destruct (Graft _ _ _ _ _ _) as [w1 r1] eqn:E1.
  assert (clean w1) as Hcl1.
  { destruct r1 as [nr|]; [|by injection E as <- _]. eapply (commit_move_back draws nr _ pub (with_blobs w1 s)). by rewrite E. }
  unfold Graft in E1. rewrite (proj1 (splitPath_Ok _)), Hcp in E1.
  assert (graft (cc_cfg cc) (rp_Root p) new child stat (si_blobs s) = (w1, r1)) as Eg by (destruct new; [by inversion Ho|done]).
  pose proof (ss_ok _ _ _ _ Hs) as Hok.
  destruct (graft_spec (cc_cfg cc) child stat new (rp_Root p) (si_blobs s) w1 r1 Hok Ho Hun Hcap Eg Hcl1) as (g & -> & Hcg & _ & Hx1 & Hw1 & Hoth1).
  destruct (graft_ftree (cc_cfg cc) child stat k new n (rp_Root p) (si_blobs s) w1 g Hok (ss_tree _ _ _ _ Hs) Ht Hcap Hlen Hun Eg Hcl1) as (Htg & _ & _).
  destruct (commit_move_ok draws g _ pub s s' r w1 Hs Hx1 Htg Hcg E Hcl) as [Hx2 Hr]. split; [by eapply ext_trans|].
  destruct r as [d|er]; [|done]. destruct Hr as [-> Hadv]. split; [done|]. exists g. split_and!; [done|by eapply ftree_ext|by eapply walk_ext|].
  intros qs c Han Hwq. eapply walk_ext; [done|]. by apply Hoth1.
Qed.

(** Copying a path. cp inside the namespace either fails in the commit, and
    the durable root is as before, or commits a root in which the destination
    leads to the very cap of the source and every path that is neither above nor
    below the destination leads where it led; no blob that could be read before
    is lost. *)
Theorem cp_correct draws src dst init name c k pub s s' r :
  settled s → rp_Owner p = Public (cc_signer cc) → plain dst →
  clean_parts src = init ++ [name] → path_Base src = name → leads (si_blobs s) (rp_Root p) (init ++ [name]) c →
  Forall utf8 (init ++ [name]) → Forall utf8 (clean_parts dst) → ftree k (si_blobs s) c →
  let new := landing dst name s in
  openable (holds := holds) (si_blobs s) (rp_Root p) new → (length new + k ≤ S n)%nat →
  cpCopy cc draws (S n) src dst (Some p) false pub s = (s', r) → clean (si_blobs s') →
  extends (si_blobs s) (si_blobs s') ∧
  match r with
  | Err e => (∃ ce, e = CtlCommit ce) ∧ view (si_file s') = Some p
  | Ok d => clean_parts d = new ∧ ∃ newRoot, advanced newRoot pub s' ∧ ftree (S n) (si_blobs s') newRoot ∧
      Resolve newRoot d (si_blobs s') = Ok c ∧
      ∀ q qs c, splitPath q = Ok qs → apart new qs → leads (si_blobs s) (rp_Root p) qs c → Resolve newRoot q (si_blobs s') = Ok c
  end.
Proof.
  intros Hs Hown Hpd Hcs Hbase Hw Hus Hud Ht new Ho Hlen E Hcl.
  assert (init ++ [name] ≠ []) as Hne by (by destruct init). pose proof (walk_head _ _ _ _ Hw Hne) as Hk.
  pose proof (clean_parts_last src init name Hcs) as Hn.
  destruct (move_plan_ok src dst init name c s Hs Hown Hcs Hbase Hw) as (e & <- & Hcap & Epl). unfold cpCopy in E. rewrite Epl in E.
  destruct (landing_spec dst name s Hs Hk Hpd Hn) as (Hpp & Hcp & Hnn). fold new in Hcp, Hnn.
    pose proof (landing_utf8 dst init name s Hus Hud : Forall utf8 new) as Hun.
  destruct (graft_commit draws new _ (e_Cap e) (e_Stat e) k pub s s' r Hs Hcp Hun Hcap Ht Ho Hlen E Hcl) as [Hx Hr]. split; [done|].
  destruct r as [d|er]; [|done]. destruct Hr as [-> (g & Hadv & Htg & Hl & Hq)]. split; [done|]. exists g. split_and!; [done|done| |].
  - apply (walk_splits _ _ _ new); [apply Hx|done|done].
  - intros q qs c Eq Han Hwq. apply (walk_Resolve (cc_cfg cc) _ _ _ qs); [apply Hx|done|]. by apply Hq.
Qed.
End commands.

(** ** Witnesses *)

#[local] Strategy 100 [mvRename cpCopy].

Definition ex_mv (src dst : string) : Site (Vault Mem.MemStore) nat MemRootStore * result ctl_err string :=
  @mvRename toy_ed toy_gcm keyed_kem toy_cap_json ex_dj _ _ _ ex_blobs ex_quiet mem_root_store ex_cc ex_draw 2 src dst (Some ex_fp) false PubNil ex_fsite.
Definition ex_cp (src dst : string) : Site (Vault Mem.MemStore) nat MemRootStore * result ctl_err string :=
  @cpCopy toy_ed toy_gcm keyed_kem toy_cap_json ex_dj _ _ _ ex_blobs ex_quiet mem_root_store ex_cc ex_draw 2 src dst (Some ex_fp) false PubNil ex_fsite.

Lemma ex_owned : rp_Owner ex_fp = @Public toy_ed [Byte.x05].
Proof. vm_compute. reflexivity. Qed.
Lemma ex_f_tree : @Files.ftree ex_dj ex_fj _ ex_cfg ex_holds 1 ex_fstored.1 ex_file_cap.
Proof. destruct ex_file_world as (_ & _ & _ & Hf). left. exists ex_man, ex_data. exact Hf. Qed.
Lemma ex_open name : @openable ex_dj _ ex_holds ex_fstored.1 ex_froot [name].
Proof. destruct ex_file_world as (_ & Hd & _). exact (open_last _ _ _ name Hd). Qed.
Lemma ex_land dst : (dst = "g" ∨ dst = "f") → @landing ex_dj _ nat MemRootStore ex_blobs ex_fp dst "f" ex_fsite = [dst].
Proof. intros [-> | ->]; vm_compute; reflexivity. Qed.
Lemma ex_one_utf8 (name : string) : Forall (@utf8 ex_dj) [name].
Proof. constructor; [exact I|constructor]. Qed.
Lemma ex_mv_clean src dst : is_clean (si_blobs (ex_mv src dst).1) = true → ex_clean (si_blobs (ex_mv src dst).1).
Proof. apply is_clean_ok. Qed.


Lemma mv_rooted_loses_witness :
  (ex_mv "/f" "f").2 = Ok "f" ∧ ∃ newRoot x, @Resolve ex_dj _ ex_blobs newRoot "f" (si_blobs (ex_mv "/f" "f").1) = Err (MNotFound x) ∧
    ∃ rp, mr_rp (si_file (ex_mv "/f" "f").1) = Some rp ∧ rp_Root rp = newRoot.
Proof.
  assert ((ex_mv "/f" "f").2 = Ok "f") as Er by (vm_compute; reflexivity).
  pose proof (@mv_rooted_loses toy_ed toy_gcm keyed_kem toy_cap_json ex_dj ex_fj _ nat MemRootStore ex_blobs ex_quiet mem_root_store ex_cc 1 ex_fp ex_vok
    ex_clean ex_holds ex_laws (λ _, True) (λ _, True) mr_rp mem_root_laws (λ _ H, H) (λ _ _ _ _ _ _ _, I) _ quiet_ok ex_draw "/f" "f" [] "f" ex_file_cap 1
    PubNil ex_fsite (ex_mv "/f" "f").1 "f" ex_settled ex_owned) as H.
  rewrite (ex_land "f") in H by (by right). destruct H as (nr & (rp & Hv & _ & _ & _ & Hroot) & Hl).
  - reflexivity.
  - apply plain_check. vm_compute. reflexivity.
  - reflexivity.
  - reflexivity.
  - exact ex_leads_f.
  - apply ex_one_utf8.
  - apply ex_one_utf8.
  - exact ex_f_tree.
  - reflexivity.
  - apply ex_open.
  - vm_compute. lia.
  - rewrite <-Er. exact (surjective_pairing (ex_mv "/f" "f")).
  - apply ex_mv_clean. vm_compute. reflexivity.
  - split; [exact Er|]. destruct (Hl "f" ["f"] eq_refl (reflexivity _)) as [x Hx]. exists nr, x. split; [exact Hx|]. exists rp. split; [exact Hv|].
    apply Hroot. left. discriminate.
Defined.

Lemma cp_correct_witness :
  ∃ newRoot, (ex_cp "f" "g").2 = Ok "g" ∧ @Resolve ex_dj _ ex_blobs newRoot "g" (si_blobs (ex_cp "f" "g").1) = Ok ex_file_cap ∧
    @Resolve ex_dj _ ex_blobs newRoot "f" (si_blobs (ex_cp "f" "g").1) = Ok ex_file_cap.
Proof.
  assert ((ex_cp "f" "g").2 = Ok "g") as Er by (vm_compute; reflexivity).
  pose proof (@cp_correct toy_ed toy_gcm keyed_kem toy_cap_json ex_dj ex_fj _ nat MemRootStore ex_blobs ex_quiet mem_root_store ex_cc 1 ex_fp ex_vok
    ex_clean ex_holds ex_laws (λ _, True) (λ _, True) mr_rp mem_root_laws (λ _ H, H) (λ _ _ _ _ _ _ _, I) _ quiet_ok ex_draw "f" "g" [] "f" ex_file_cap 1
    PubNil ex_fsite (ex_cp "f" "g").1 (ex_cp "f" "g").2 ex_settled ex_owned) as H.
  rewrite (ex_land "g") in H by (by left). rewrite Er in H. destruct H as [_ (_ & nr & _ & _ & Hr & Hq)].
  - apply plain_check. vm_compute. reflexivity.
  - reflexivity.
  - reflexivity.
  - exact ex_leads_f.
  - apply ex_one_utf8.
  - apply ex_one_utf8.
  - exact ex_f_tree.
  - apply ex_open.
  - vm_compute. lia.
  - rewrite <-Er. exact (surjective_pairing (ex_cp "f" "g")).
  - apply is_clean_ok. vm_compute. reflexivity.
  - exists nr. split; [exact Er|]. split; [exact Hr|]. apply (Hq "f" ["f"]); [reflexivity|left; discriminate|exact ex_leads_f].
Defined.
