(* ===== verification/Tree.v ===== *)
(** * cmd/revika-ctl: copying local trees in and out (tree.go, main.go)

    [storeTree] walks a local directory and grafts what it finds into a new
    directory of the namespace; [restoreTree] writes a directory of the namespace
    to the local disk. The state is the local system of [LocalFS] and a blob store.
    Fuel bounds the nesting of directories. *)

From Stdlib Require Import Ascii.
From S2P Require Import Prelude GoLib Store Crypto Stripe Erasure Chunk Pipeline Blobs Wire Codec Base64 Manifest Namespace Merge.
From S2P Require Import Files Root Device Discovery RootStores Identity Provider Commit Reclaim Move LocalFS.

(** ** State and errors *)

Inductive tree_err :=
| TOs (e : errno) | TMan (e : manifest_err) | TPipe (e : pipeline_err) | TNotDir | TIsNotDir (k : Kind) | TUnsafe (name : string)
| TKind (k : Kind) | TNameless | TNoRoot | TCtl (e : ctl_err) | TFuel.

Record Desk (W : Type) := mkDesk { dk_os : OS; dk_blobs : W }.
Arguments mkDesk {W}. Arguments dk_os {W}. Arguments dk_blobs {W}.

Definition TM (W A : Type) : Type := Desk W → Desk W * result tree_err A.
Definition t_ret {W A} (a : A) : TM W A := λ k, (k, Ok a).
Definition t_fail {W A} (e : tree_err) : TM W A := λ k, (k, Err e).
Definition t_bind {W A B} (m : TM W A) (f : A → TM W B) : TM W B :=
  λ k, let '(k, r) := m k in match r with Ok a => f a k | Err e => (k, Err e) end.
Definition t_try {W A} (m : TM W A) : TM W (result tree_err A) := λ k, let '(k, r) := m k in (k, Ok r).
Notation "'tr!' x ':=' m 'in' k" := (t_bind m (λ x, k)) (at level 10, x pattern, m at level 100, k at level 200).

Definition on_sys {W A} (m : OSM A) : TM W A := λ k, let '(o, r) := m (dk_os k) in (mkDesk o (dk_blobs k), map_err TOs r).
Definition on_man {W A} (m : W → W * result manifest_err A) : TM W A := λ k,
  let '(w, r) := m (dk_blobs k) in (mkDesk (dk_os k) w, map_err TMan r).
Definition on_pipe {W A} (m : W → W * result pipeline_err A) : TM W A := λ k,
  let '(w, r) := m (dk_blobs k) in (mkDesk (dk_os k) w, map_err TPipe r).
Definition load {W A} (m : W → result manifest_err A) : TM W A := λ k, (k, map_err TMan (m (dk_blobs k))).

(** ** os.ReadDir and filepath.WalkDir *)

(** The entries of the directory at [q]: name and whether it is a directory. *)
Definition children (fs : FS) (q : path) : list (string * bool) :=
  omap (λ x : path * node,
    match last x.1 with
    | Some name => if decide (x.1 = q ++ [name]) then Some (name, fi_IsDir x.2) else None
    | None => None
    end) (map_to_list fs).

Definition ReadDir (h : Host) (p : path) : OSM (list (string * bool)) :=
  at_path h true p (λ c q n fs, (fs,
    if decide (q = [] ∨ n_body <$> n = Some BDir) then Ok (sort_by fst (children fs q))
    else match n with None => Err ENOENT | Some _ => Err ENOTDIR end)).

Section walkDir.
Context {W A : Type} (h : Host) (fn : path → bool → A → TM W A).

(** The loop over the entries of a directory; [rec] walks one of them. *)
Fixpoint walk_entries (rec : path → bool → A → TM W A) (p : path) (es : list (string * bool)) (a : A) : TM W A :=
  match es with
  | [] => t_ret a
  | (name, isDir) :: es => tr! a := rec (p ++ [name]) isDir a in walk_entries rec p es a
  end.

(** [fs.walkDir] for a function that returns the error it is given: the function
    on the entry, then the entries of a directory in the order of their names. *)
Fixpoint walkDir (fuel : nat) (p : path) (isDir : bool) (a : A) : TM W A :=
  match fuel with
  | O => t_fail TFuel
  | S fuel =>
      tr! a := fn p isDir a in
      if negb isDir then t_ret a
      else
        tr! es := on_sys (ReadDir h p) in
        walk_entries (walkDir fuel) p es a
  end.
End walkDir.

(** ** Storing *)

Section tree.
Context `{Hsha : Sha256} `{Hj : DirJson} `{Hfj : !FileJson} {W : Type} `{Hb : !Blobs W} (h : Host).
Implicit Types (p src dest : path).

Definition runStore (cfg : Config) p : TM W FileManifest :=
  tr! n := on_sys (Lstat h p) in
  tr! m := if is_link n then tr! target := on_sys (Readlink h p) in on_pipe (file_put cfg (mkReader (str_bytes target) false))
           else tr! rd := on_sys (Open h p) in tr! rd := on_sys (read_all h rd) in on_pipe (file_put cfg rd) in
  tr! meta := on_sys (Capture h p n) in
  t_ret (DeriveVersions (mkFile (Base p) (fm_Params m) (fm_Size m) meta (fm_Chunks m))).

(** A stored file: its manifest as a blob. *)
Definition store_leaf (cfg : Config) p : TM W (ReadCap * FileManifest) :=
  tr! fm := runStore cfg p in
  tr! fc := on_man (StoreFileManifest cfg fm) in
  t_ret (fc, fm).

(** The function storeTree gives to WalkDir; the state is the root so far and the
    number of files. *)
Definition store_visit (cfg : Config) src p (isDir : bool) (a : ReadCap * Z) : TM W (ReadCap * Z) :=
  if decide (p = src) then t_ret a
  else
    let rel := join_slash (drop (length src) p) in
    tr! fi := on_sys (Lstat h p) in
    if isDir then
      tr! meta := on_sys (Capture h p fi) in
      tr! sub := on_man (StoreDir cfg (NewDir meta)) in
      tr! root := on_man (Graft cfg a.1 rel sub (mkStat KindDir 0 (fi_Mode fi) 0 [] [])) in
      t_ret (root, a.2)
    else
      tr! x := store_leaf cfg p in
      tr! root := on_man (Graft cfg a.1 rel x.1 (statFromManifest x.2)) in
      t_ret (root, a.2 + 1).

Definition storeTree (cfg : Config) (fuel : nat) src : TM W (ReadCap * Z) :=
  tr! rootFI := on_sys (Lstat h src) in
  if negb (fi_IsDir rootFI) then t_fail TNotDir
  else
    tr! meta := on_sys (Capture h src rootFI) in
    tr! root := on_man (StoreDir cfg (NewDir meta)) in
    tr! d := on_sys (Lstat h src) in
    walkDir h (store_visit cfg src) fuel src (fi_IsDir d) (root, 0).

(** ** Restoring *)

Fixpoint has_backslash (s : string) : bool :=
  match s with EmptyString => false | String c s => bool_decide (c = "\"%char) || has_backslash s end.

Definition safeEntryName (name : string) : bool :=
  negb (bool_decide (name = "" ∨ name = "." ∨ name = "..") || has_slash name || has_backslash name).

(** The bytes of a file go to the open file as far as they can be read. *)
Definition runLoad (m : FileManifest) (q : path) : TM W unit := λ k,
  let '(out, r) := file_get m (dk_blobs k) in
  (tr! _ := on_sys (Write h q out) in match r with Ok _ => t_ret tt | Err e => t_fail (TPipe e) end) k.

Definition restoreFile (fc : ReadCap) (target : path) : TM W Z :=
  tr! fm := load (LoadFileManifest fc) in
  if IsSymlink (fm_Meta fm) then tr! _ := on_sys (RestoreSymlink h target (fm_Meta fm)) in t_ret 1
  else
    tr! f := on_sys (Create h target) in
    tr! r := t_try (runLoad fm f) in
    match r with
    | Err e => tr! _ := t_try (on_sys (Close h)) in t_fail e
    | Ok _ =>
        tr! _ := on_sys (Close h) in
        tr! _ := t_try (on_sys (Restore h target (fm_Meta fm))) in
        t_ret 1
    end.

(** The loop over the entries of a directory; [rec] restores a subdirectory. *)
Fixpoint restore_entries (rec : ReadCap → path → TM W Z) dest (es : list Entry) (files : Z) : TM W Z :=
  match es with
  | [] => t_ret files
  | e :: es =>
      if negb (safeEntryName (e_Name e)) then t_fail (TUnsafe (e_Name e))
      else
        let target := dest ++ [e_Name e] in
        match rc_Kind (e_Cap e) with
        | KindDir =>
            tr! _ := on_sys (MkdirAll h target 493) in
            tr! n := rec (e_Cap e) target in
            restore_entries rec dest es (files + n)
        | KindFile => tr! n := restoreFile (e_Cap e) target in restore_entries rec dest es (files + n)
        | k => t_fail (TKind k)
        end
  end.

Fixpoint restoreDir (fuel : nat) (dirCap : ReadCap) dest : TM W Z :=
  match fuel with
  | O => t_fail TFuel
  | S fuel =>
      tr! d := load (LoadDir dirCap) in
      tr! files := restore_entries (restoreDir fuel) dest (dm_Entries d) 0 in
      tr! _ := t_try (on_sys (Restore h dest (dm_Meta d))) in
      t_ret files
  end.

Definition restoreTree (fuel : nat) (root : ReadCap) dest : TM W Z :=
  if decide (rc_Kind root ≠ KindDir) then t_fail (TIsNotDir (rc_Kind root))
  else tr! _ := on_sys (MkdirAll h dest 493) in restoreDir fuel root dest.
End tree.

(** ** Lemmas: a local system whose calls succeed *)

(** A local tree: normal names, directories above every path, permission bits. *)
Record fs_ok (fs : FS) : Prop := {
  fo_normal : ∀ q n, fs !! q = Some n → Forall normal q;
  fo_above : ∀ q c n, fs !! (q ++ [c]) = Some n → q ≠ [] → n_body <$> fs !! q = Some BDir;
  fo_top : ∀ n, fs !! [] = Some n → n_body n = BDir;
  fo_perm : ∀ q n, fs !! q = Some n → 0 ≤ at_perm (n_attr n) < 512;
  fo_link : ∀ q n, fs !! q = Some n → n_body n ≠ BLink "";
}.

(** The directories on the way to [q] are there. *)
Definition way (fs : FS) (q : path) : Prop := ∀ k, k `prefix_of` q → k ≠ q → k ≠ [] → n_body <$> fs !! k = Some BDir.

Lemma prefix_snoc_cases {A : Type} (k l : list A) (x : A) : k `prefix_of` l ++ [x] → k = l ++ [x] ∨ k `prefix_of` l.
Proof.
  intros [m E]. destruct (decide (m = [])) as [->|Hm]; [left; by rewrite app_nil_r in E|right].
  destruct (exists_last Hm) as (m' & y & ->). rewrite app_assoc in E. apply app_inj_tail in E as [-> _]. by apply prefix_app_r.
Qed.

Lemma way_snoc fs q c : way fs q → (q = [] ∨ n_body <$> fs !! q = Some BDir) → way fs (q ++ [c]).
Proof.
  intros Hw Hq k [->|Hk]%prefix_snoc_cases Hne H0; [done|]. destruct (decide (k = q)) as [->|Hn]; [by destruct Hq|by apply Hw].
Qed.

Lemma way_init fs q c : way fs (q ++ [c]) → way fs q.
Proof. intros Hw k Hk Hne H0. apply Hw; [by apply prefix_app_r|intros ->|done]. apply prefix_length in Hk. rewrite length_app in Hk. simpl in Hk. lia. Qed.

Lemma ok_way fs q n : fs_ok fs → fs !! q = Some n → way fs q.
Proof.
  intros Hok. revert n. induction q as [|c q IH] using rev_ind; intros n Hq.
  { by intros k ->%prefix_nil_inv. }
  destruct (decide (q = [])) as [->|Hne]; [apply way_snoc; [|by left]; by intros k ->%prefix_nil_inv|].
  pose proof (fo_above _ Hok q c n Hq Hne) as Hd. apply way_snoc; [|by right]. destruct (fs !! q) eqn:E; [by eapply IH|done].
Qed.

(** A path resolves to itself where the way is there and no link is followed. *)
Lemma resolve_way fs follow q : Forall normal q → way fs q →
  (follow = true → ∀ t, n_body <$> fs !! q ≠ Some (BLink t)) → resolve_in fs follow q = Ok q.
Proof.
  intros Hn Hw Hf. unfold resolve_in. generalize maxLinks as links. intros links.
  assert (∀ todo dn, dn ++ todo = q → resolve_path links fs follow dn todo = Ok q) as H; [|by apply (H q [])].
  induction todo as [|c todo IH]; intros dn E.
  { rewrite app_nil_r in E. subst. by destruct links. }
  assert (normal c) as (H1 & H2 & H3 & _).
  { rewrite <-E in Hn. apply Forall_app in Hn as [_ Hn]. by apply Forall_cons in Hn as [? _]. }
  assert (resolve_path links fs follow dn (c :: todo) =
    match n_body <$> fs !! (dn ++ [c]) with
    | Some (BLink t) => if bool_decide (todo = []) && negb follow then Ok (dn ++ [c]) else
        match links with O => Err ELOOP | S links => resolve_path links fs follow (if String.prefix "/" t then [] else dn) (split_slash "" t ++ todo) end
    | Some BDir => resolve_path links fs follow (dn ++ [c]) todo
    | Some (BFile _) => if decide (todo = []) then Ok (dn ++ [c]) else Err ENOTDIR
    | None => if decide (todo = []) then Ok (dn ++ [c]) else Err ENOENT
    end) as ->.
  { destruct links; cbn; rewrite decide_False by tauto; rewrite decide_False by done; reflexivity. }
  destruct (decide (todo = [])) as [->|Hne].
  - rewrite <-E in Hf |- *. destruct (n_body <$> fs !! (dn ++ [c])) as [[|d|t]|] eqn:Eb; try done.
    + by destruct links.
    + destruct follow; [by destruct (Hf eq_refl t)|done].
  - rewrite (Hw (dn ++ [c])); [|rewrite <-E; exists todo; by rewrite <-app_assoc|rewrite <-E; intros E'%(f_equal length)|by destruct dn].
    + apply IH. by rewrite <-app_assoc.
    + rewrite !length_app in E'. simpl in E'. destruct todo; [done|simpl in E'; lia].
Qed.

(** A call that only reads and succeeds with a value in [P]. *)
Definition yields {A : Type} (fs : FS) (m : OSM A) (P : A → Prop) : Prop :=
  ∀ o, os_fs o = fs → ∃ o' a, m o = (o', Ok a) ∧ os_fs o' = fs ∧ P a.

Lemma yields_bind {A B : Type} fs (m : OSM A) (k : A → OSM B) P Q :
  yields fs m P → (∀ a, P a → yields fs (k a) Q) → yields fs (os_bind m k) Q.
Proof.
  intros Hm Hk o Ho. destruct (Hm o Ho) as (o1 & a & E & Ho1 & Ha). destruct (Hk a Ha o1 Ho1) as (o2 & b & E2 & Ho2 & Hb').
  exists o2, b. unfold os_bind. by rewrite E.
Qed.
Lemma yields_ret {A : Type} fs (a : A) (P : A → Prop) : P a → yields fs (os_ret a) P.
Proof. intros Ha o Ho. by exists o, a. Qed.
Lemma yields_impl {A : Type} fs (m : OSM A) (P Q : A → Prop) : yields fs m P → (∀ a, P a → Q a) → yields fs m Q.
Proof. intros Hm HPQ o Ho. destruct (Hm o Ho) as (o' & a & E & Ho' & Ha). exists o', a. auto. Qed.
Lemma yields_try {A : Type} fs (m : OSM A) : os_pure m → yields fs (os_try m) (λ _, True).
Proof. intros Hp o Ho. unfold os_try. pose proof (Hp o) as E. destruct (m o) as [o' r]. exists o', r. split_and!; [done|simpl in E; congruence|done]. Qed.

Section quiet.
Context (h : Host) (Hquiet : ∀ i, c_fail (h_call h i) = false).

Lemma yields_at {A : Type} (fs : FS) (follow : bool) (p q : path) (g : Call → path → option node → FS → result errno A) (a : A) :
  resolve_in fs follow p = Ok q → (∀ c, g c q (fs !! q) fs = Ok a) → yields fs (at_path h follow p (λ c q n fs, (fs, g c q n fs))) (eq a).
Proof.
  intros Hr Hg o Ho. unfold at_path, sys. rewrite Hquiet, Ho, Hr. rewrite Hg. eexists _, a. by split_and!.
Qed.

Context (fs : FS) (Hfs : fs_ok fs) (p : path) (n : node) (Hp : fs !! p = Some n).

Lemma here_normal : Forall normal p.
Proof. by eapply fo_normal. Qed.
Lemma resolve_self : resolve_in fs false p = Ok p.
Proof. apply resolve_way; [apply here_normal|by eapply ok_way|done]. Qed.
Lemma resolve_follow : is_link n = false → resolve_in fs true p = Ok p.
Proof. intros Hl. apply resolve_way; [apply here_normal|by eapply ok_way|]. intros _ t. rewrite Hp. cbn. unfold is_link in Hl. by destruct (n_body n). Qed.

Lemma yields_Lstat : yields fs (Lstat h p) (eq n).
Proof. apply (yields_at fs false p p (λ c q n fs, of_option ENOENT n)); [apply resolve_self|]. intros c. by rewrite Hp. Qed.

Lemma yields_Readlink t : n_body n = BLink t → yields fs (Readlink h p) (eq t).
Proof.
  intros Hb'. apply (yields_at fs false p p (λ c q n fs, match n_body <$> n with Some (BLink t) => Ok t | Some _ => Err EIO | None => Err ENOENT end)).
  - apply resolve_self.
  - intros c. rewrite Hp. cbn. by rewrite Hb'.
Qed.

Lemma yields_Open d : n_body n = BFile d → yields fs (os_bind (Open h p) (read_all h)) (eq (mkReader d false)).
Proof.
  intros Hb'. eapply yields_bind.
  - apply (yields_at fs true p p (λ c q n fs, match n_body <$> n with
      | None => Err ENOENT | Some (BFile d) => Ok (mkReader d false) | Some _ => Ok (mkReader [] true) end) (mkReader d false)).
    + apply resolve_follow. unfold is_link. by rewrite Hb'.
    + intros c. rewrite Hp. cbn. by rewrite Hb'.
  - intros rd <- o Ho. unfold read_all. rewrite Hquiet. eexists _, _. split; [done|]. by split.
Qed.

Lemma yields_ReadDir : n_body n = BDir → yields fs (ReadDir h p) (eq (sort_by fst (children fs p))).
Proof.
  intros Hb'. unfold ReadDir. apply (yields_at fs true p p (λ c q n fs, if decide (q = [] ∨ n_body <$> n = Some BDir) then Ok (sort_by fst (children fs q))
    else match n with None => Err ENOENT | Some _ => Err ENOTDIR end)).
  - apply resolve_follow. unfold is_link. by rewrite Hb'.
  - intros c. rewrite Hp. cbn. rewrite decide_True; [done|]. right. by rewrite Hb'.
Qed.

(** What Capture records. *)
Record captured (meta : Metadata) : Prop := {
  ca_mode : md_Mode meta = fi_Mode n;
  ca_plain : is_link n = false → md_SymlinkTarget meta = "";
  ca_link : ∀ t, n_body n = BLink t → md_SymlinkTarget meta = t;
  ca_xattr : is_link n = true → (∀ q m, resolve_in fs true p = Ok q → fs !! q = Some m → at_xattr (n_attr m) = ∅) → md_Xattr meta = ∅;
}.

Lemma yields_any {A : Type} (m : OSM A) : os_pure m → (∀ o, is_ok (m o).2 = true) → yields fs m (λ _, True).
Proof.
  intros Hm Ht o Ho. specialize (Hm o). specialize (Ht o). destruct (m o) as [o' [a|]]; [|done]. exists o', a. by rewrite <-Ho.
Qed.

Lemma read_values_total q names : ∀ out o, is_ok (read_values h q names out o).2 = true.
Proof.
  induction names as [|name names IH]; intros out o; cbn [read_values]; [done|].
  unfold os_bind at 1, os_try at 1. destruct (Getxattr h q name o) as [o1 [[|x v]|e]]; [apply IH| |apply IH].
  unfold os_bind, os_try. destruct (Getxattr h q name o1) as [o2 [v'|e]]; apply IH.
Qed.

Lemma yields_xattrs : yields fs (readXattrs h p) (λ xa, (∀ q m, resolve_in fs true p = Ok q → fs !! q = Some m → at_xattr (n_attr m) = ∅) → xa = ∅).
Proof.
  assert (∀ P : gmap string bytes → Prop, P ∅ → yields fs (os_ret ∅) P) as H0 by (intros; by apply yields_ret).
  unfold readXattrs. eapply (yields_bind _ _ _ (λ r, ∀ buf, r = Ok buf → buf = [] ∨ ∃ q m, resolve_in fs true p = Ok q ∧ fs !! q = Some m ∧ at_xattr (n_attr m) ≠ ∅)).
  - intros o Ho. unfold os_try, Listxattr, at_path, sys. rewrite Hquiet, Ho. destruct (resolve_in fs true p) as [q|e] eqn:Er; [|by eexists _, _].
    eexists _, _. split; [done|]. split; [done|]. intros buf E. destruct (fs !! q) as [m|] eqn:Em; [|done]. injection E as <-.
    destruct (decide (at_xattr (n_attr m) = ∅)) as [->|Hne]; [left; by rewrite map_to_list_empty|right; eauto].
  - intros r Hr. destruct r as [[|b buf]|e]; [by apply H0| |by apply H0]. destruct (Hr _ eq_refl) as [?|(q & m & E1 & E2 & E3)]; [done|].
    eapply yields_impl; [apply (yields_any)|intros xa _ Hall; by destruct E3; eapply Hall].
    + apply pure_bind; [apply pure_try, pure_call|]. intros [buf'|]; [apply pure_read_values|apply pure_ret].
    + intros o. unfold os_bind, os_try. destruct (Listxattr h p o) as [o1 [buf'|e]]; [apply read_values_total|done].
Qed.

Lemma yields_Capture : yields fs (Capture h p n) captured.
Proof.
  unfold Capture. eapply (yields_bind _ _ _ (λ r, (∀ t, n_body n = BLink t → r = Ok t) ∧ (is_link n = false → r = Ok ""))).
  - destruct (is_link n) eqn:El; [|apply yields_ret; split; [|done]; intros t Ht; unfold is_link in El; by rewrite Ht in El].
    unfold is_link in El. destruct (n_body n) as [| |t] eqn:Eb; try done. intros o Ho. destruct (yields_Readlink t Eb o Ho) as (o' & a & E & Ho' & <-).
    exists o', (Ok t). unfold os_try. rewrite E. split_and!; [done|done| |done]. by intros t' [= <-].
  - intros r [Hr1 Hr2]. eapply yields_bind; [apply yields_xattrs|]. intros xa Hxa. apply yields_ret. split; cbn [md_Mode md_SymlinkTarget md_Xattr]; [done| | |done].
    + intros Hl. by rewrite (Hr2 Hl).
    + intros t Ht. by rewrite (Hr1 t Ht).
Qed.

Lemma captured_link meta : captured meta → IsSymlink meta = is_link n.
Proof.
  intros [Hm Hpl Hl _]. unfold IsSymlink. rewrite Hm. pose proof (fo_perm _ Hfs p n Hp) as Hperm.
  assert (∀ k, 9 ≤ k → Z.testbit (at_perm (n_attr n)) k = false) as Hbit.
  { intros k Hk. destruct (decide (at_perm (n_attr n) = 0)) as [->|]; [apply Z.bits_0|].
    apply Z.bits_above_log2; [lia|]. apply Z.log2_lt_pow2; [lia|]. apply (Z.lt_le_trans _ (2 ^ 9)); [change (2 ^ 9) with 512; lia|].
    apply Z.pow_le_mono_r; lia. }
  assert (∀ a, Z.testbit a 27 = false → Z.land (Z.lor a (at_perm (n_attr n))) ModeSymlink = 0) as H27.
  { intros a Ha. unfold ModeSymlink. apply Z.bits_inj'. intros k Hk. rewrite Z.land_spec, Z.lor_spec, Z.bits_0, Z.pow2_bits_eqb by lia.
    destruct (Z.eqb_spec 27 k) as [<-|]; [|by rewrite andb_false_r]. by rewrite Ha, (Hbit 27) by lia. }
  unfold fi_Mode, is_link in *. destruct (n_body n) as [|d|t] eqn:Eb.
  - rewrite Hpl by done. rewrite bool_decide_true by done. cbn [negb orb]. by rewrite H27.
  - rewrite Hpl by done. rewrite bool_decide_true by done. cbn [negb orb]. pose proof (H27 0 ltac:(by rewrite Z.bits_0)) as E. rewrite Z.lor_0_l in E. by rewrite E.
  - assert (Z.land (Z.lor ModeSymlink (at_perm (n_attr n))) ModeSymlink ≠ 0) as Hn.
    { intros E. apply (f_equal (λ z, Z.testbit z 27)) in E. rewrite Z.land_spec, Z.lor_spec, Z.bits_0 in E. by vm_compute in E. }
    rewrite (proj2 (Z.eqb_neq _ _) Hn). by rewrite orb_true_r.
Qed.
End quiet.

(** ** The image of a local tree *)

Section image.
Context `{Hsha : Sha256} `{Hj : DirJson} `{Hfj : !FileJson} {W : Type} `{Hb : !Blobs W} (cfg : Config).
Context {w_ok clean : W → Prop} {holds : W → Params → ChunkRef → bytes → Prop}.
Context `{HL : !BlobLaws W cfg w_ok clean holds}.
Abbreviation extends := (ext (w_ok := w_ok) (holds := holds)).
Abbreviation is_dir := (dir_at (holds := holds)).
Abbreviation file_at := (file_at cfg (holds := holds)).
Implicit Types (w : W) (c : ReadCap) (fs V : FS) (q p src dest : path).

(** The cap [c] holds what is at [q] in the local tree [fs]: the bytes of a file,
    the target of a link, the entries of a directory and no others. *)
Fixpoint image (n : nat) w fs q c : Prop :=
  match n with
  | O => False
  | S n =>
      cap_ok c ∧
      match n_body <$> fs !! q with
      | None => False
      | Some (BFile x) => ∃ m, file_at w c m x ∧ IsSymlink (fm_Meta m) = false
      | Some (BLink t) => ∃ m x, file_at w c m x ∧ IsSymlink (fm_Meta m) = true ∧ md_SymlinkTarget (fm_Meta m) = t ∧ md_Xattr (fm_Meta m) = ∅
      | Some BDir => ∃ d, is_dir w c d ∧ ∀ name,
          match Lookup d name with
          | Some e => image n w fs (q ++ [name]) (e_Cap e)
          | None => fs !! (q ++ [name]) = None
          end
      end
  end.

Lemma image_ext n : ∀ w w' fs fs' q c, extends w w' → (∀ r, fs' !! (q ++ r) = fs !! (q ++ r)) → image n w fs q c → image n w' fs' q c.
Proof.
  induction n as [|n IH]; intros w w' fs fs' q c Hx Hs; [done|]. cbn [image]. intros [Hcap Hi]. split; [done|]. revert Hi.
  pose proof (Hs []) as E. rewrite app_nil_r in E. rewrite E.
  destruct (n_body <$> fs !! q) as [[|x|t]|]; [| | |done].
  - intros (d & Hd & He). exists d. split; [by eapply dir_at_ext|]. intros name. specialize (He name). destruct (Lookup d name) as [e|].
    + eapply IH; [done| |exact He]. intros r. rewrite <-!app_assoc. apply Hs.
    + by rewrite Hs.
  - intros (m & Hf & Hl). exists m. split; [by eapply file_at_ext|done].
  - intros (m & x & Hf & Hl). exists m, x. split; [by eapply file_at_ext|done].
Qed.

Lemma image_le n : ∀ m w fs q c, (n ≤ m)%nat → image n w fs q c → image m w fs q c.
Proof.
  induction n as [|n IH]; intros m w fs q c Hm; [done|]. destruct m as [|m]; [lia|]. cbn [image]. intros [Hcap Hi]. split; [done|]. revert Hi.
  destruct (n_body <$> fs !! q) as [[|x|t]|]; [|done..]. intros (d & Hd & He). exists d. split; [done|]. intros name. specialize (He name).
  destruct (Lookup d name); [|done]. apply IH; [lia|done].
Qed.

(** Replacing or adding one entry of a directory. *)
Lemma image_upsert n w w' fs fs' q c c' d name sub st :
  extends w w' → cap_ok c' → n_body <$> fs !! q = Some BDir → fs' !! q = fs !! q → is_dir w c d →
  (∀ x, match Lookup d x with Some e => image n w fs (q ++ [x]) (e_Cap e) | None => fs !! (q ++ [x]) = None end) →
  is_dir w' c' (Upsert d (mkEntry name sub st)) → (∀ x r, x ≠ name → fs' !! (q ++ x :: r) = fs !! (q ++ x :: r)) →
  image n w' fs' (q ++ [name]) sub → image (S n) w' fs' q c'.
Proof.
  intros Hx Hcap Hq Hs Hd He Hd' Ho Hsub. cbn [image]. split; [done|]. rewrite Hs, Hq. exists (Upsert d (mkEntry name sub st)). split; [done|]. intros x.
  rewrite Lookup_upsert by apply Hd. cbn [e_Name]. case_decide as Hn; [by subst|]. specialize (He x). destruct (Lookup d x) as [e|].
  - eapply image_ext; [done| |exact He]. intros r. rewrite <-!app_assoc. cbn. apply Ho. congruence.
  - rewrite Ho by congruence. done.
Qed.

Lemma graft_image child stat nd k : ∀ parts n q c w w' r V,
  w_ok w → image n w V q c → parts ≠ [] → Forall utf8 parts → cap_ok child → (length parts + k ≤ n)%nat →
  (∀ a b, parts = a ++ b → b ≠ [] → n_body <$> V !! (q ++ a) = Some BDir) →
  image k w (<[q ++ parts := nd]> V) (q ++ parts) child →
  graft cfg c parts child stat w = (w', r) → clean w' →
  ∃ c', r = Ok c' ∧ cap_ok c' ∧ extends w w' ∧ image n w' (<[q ++ parts := nd]> V) q c'.
Proof.
  induction parts as [|name parts IH]; intros n q c w w' r V Hok Hi Hne Hu Hc Hlen Hdirs Hch Eg Hcl; [done|].
  apply Forall_cons in Hu as [Hname Hu]. destruct n as [|n]; [simpl in Hlen; lia|].
  pose proof (Hdirs [] (name :: parts) eq_refl ltac:(done)) as Hq. rewrite app_nil_r in Hq.
  cbn [image] in Hi. apply proj2 in Hi. rewrite Hq in Hi. destruct Hi as (d & Hd & He).
  assert (∀ l, l ≠ [] → (<[q ++ l := nd]> V) !! q = V !! q) as Hself.
  { intros l Hl. apply lookup_insert_ne. intros E%(f_equal length). rewrite length_app in E. destruct l; [done|simpl in E; lia]. }
  assert (∀ x l r, x ≠ name → (<[q ++ name :: l := nd]> V) !! (q ++ x :: r) = V !! (q ++ x :: r)) as Hoth.
  { intros x l r' Hx. apply lookup_insert_ne. intros E. apply app_inv_head in E. congruence. }
  cbn [graft] in Eg. rewrite (dir_at_load cfg w c d Hok Hd) in Eg. destruct parts as [|name' parts].
  { destruct (StoreDir_spec cfg _ _ _ _ Hok (good_upsert d (mkEntry name child _) (proj1 (proj2 Hd)) Hc Hname) Eg Hcl) as (c' & -> & Hd' & Hcc & Hx).
    exists c'. split; [done|]. split; [done|]. split; [done|].
    eapply (image_upsert n w w' V _ q c c' d name child); [done|done|done|by apply Hself|exact Hd|exact He|exact Hd'|by intros; apply Hoth|].
    eapply image_ext; [exact Hx|done|]. eapply (image_le k); [simpl in Hlen; lia|exact Hch]. }
  specialize (He name) as Hen. pose proof (Hdirs [name] (name' :: parts) eq_refl ltac:(done)) as Hsub.
  destruct (Lookup d name) as [e|] eqn:El; [|by rewrite Hen in Hsub].
  assert (rc_Kind (e_Cap e) = KindDir) as Hk.
  { destruct n as [|n]; [done|]. cbn [image] in Hen. apply proj2 in Hen. rewrite Hsub in Hen. destruct Hen as (d1 & Hd1 & _). by eapply dir_at_kind. }
  rewrite decide_False in Eg by (by intros []). destruct (graft cfg (e_Cap e) (name' :: parts) child stat w) as [w2 r2] eqn:Erec.
  assert (clean w2) as Hcl2.
  { destruct r2 as [newSub|]; [|by apply pair_eq in Eg as [-> _]].
    apply (StoreDir_back cfg (Upsert d (mkEntry name newSub (bareStat KindDir)))). by rewrite Eg. }
  destruct (IH n (q ++ [name]) (e_Cap e) w w2 r2 V) as (newSub & -> & Hcs & Hx2 & Hi2); [done|done|done|done|done|simpl in *; lia| | |done|done|].
  { intros a b E Hnb. rewrite <-app_assoc. apply (Hdirs (name :: a) b); [|done]. by rewrite E. }
  { rewrite <-!app_assoc. exact Hch. }
  rewrite <-!app_assoc in Hi2. cbn [app] in Hi2.
  destruct (StoreDir_spec cfg _ _ _ _ (proj1 Hx2) (good_upsert d (mkEntry name newSub (bareStat KindDir)) (proj1 (proj2 Hd)) Hcs Hname) Eg Hcl) as (c' & -> & Hd' & Hcc & Hx3).
  exists c'. split; [done|]. split; [done|]. split; [by eapply ext_trans|].
  eapply (image_upsert n w w' V _ q c c' d name newSub); [by eapply ext_trans|done|done|by apply Hself|exact Hd|exact He|exact Hd'|by intros; apply Hoth|].
  eapply image_ext; [exact Hx3|done|exact Hi2].
Qed.

(** *** Storing *)

Section storing.
Context (h : Host) (Hquiet : ∀ i, c_fail (h_call h i) = false) (fs : FS) (Hfs : fs_ok fs) (src : path) (n : nat).
Context (Hsrc : src ≠ []).
Context (Hutf : ∀ rel nd, fs !! (src ++ rel) = Some nd → Forall utf8 rel).
Context (Hsize : ∀ q nd, fs !! q = Some nd → match n_body nd with BDir => True | BFile x => sized cfg x | BLink t => sized cfg (str_bytes t) end).
Context (Hmeta : ∀ q nd o o' m, fs !! q = Some nd → os_fs o = fs → Capture h q nd o = (o', Ok m) → meta_utf8 m).
Context (Hxattr : ∀ p nd q m, fs !! p = Some nd → is_link nd = true → resolve_in fs true p = Ok q → fs !! q = Some m → at_xattr (n_attr m) = ∅).
Context (Hdepth : ∀ rel, is_Some (fs !! (src ++ rel)) → (length rel < n)%nat).

(** What a step does when no call fails: it leaves the local tree alone, adds blobs
    and returns a value that satisfies [Q]. *)
Definition t_does {A : Type} w (m : TM W A) (Q : A → W → Prop) : Prop :=
  ∀ k k' r, os_fs (dk_os k) = fs → dk_blobs k = w → w_ok w → m k = (k', r) → clean (dk_blobs k') →
  ∃ a, r = Ok a ∧ os_fs (dk_os k') = fs ∧ extends w (dk_blobs k') ∧ Q a (dk_blobs k').
(** A step that ends in a clean store started in one. *)
Definition cleans {A : Type} (m : TM W A) : Prop := ∀ k, clean (dk_blobs (m k).1) → clean (dk_blobs k).

Lemma cleans_ret {A : Type} (a : A) : cleans (t_ret a).
Proof. by intros k. Qed.
Lemma cleans_fail {A : Type} e : cleans (t_fail (A := A) e).
Proof. by intros k. Qed.
Lemma cleans_bind {A B : Type} (m : TM W A) (f : A → TM W B) : cleans m → (∀ a, cleans (f a)) → cleans (t_bind m f).
Proof. intros Hm Hf k. unfold t_bind. specialize (Hm k). destruct (m k) as [k1 [a|e]]; [|done]. intros Hc. by apply Hm, (Hf a). Qed.
Lemma cleans_sys {A : Type} (m : OSM A) : cleans (on_sys m).
Proof. intros k. unfold on_sys. by destruct (m (dk_os k)). Qed.
Lemma cleans_man {A : Type} (m : W → W * result manifest_err A) : (∀ w, clean (m w).1 → clean w) → cleans (on_man m).
Proof. intros Hm k. unfold on_man. specialize (Hm (dk_blobs k)). by destruct (m (dk_blobs k)). Qed.
Lemma cleans_pipe {A : Type} (m : W → W * result pipeline_err A) : (∀ w, clean (m w).1 → clean w) → cleans (on_pipe m).
Proof. intros Hm k. unfold on_pipe. specialize (Hm (dk_blobs k)). by destruct (m (dk_blobs k)). Qed.

Lemma does_ret {A : Type} w (a : A) (Q : A → W → Prop) : Q a w → t_does w (t_ret a) Q.
Proof. intros HQ k k' r Ho Hw Hok [= <- <-] Hcl. exists a. subst w. split_and!; [done|done|by apply ext_refl|done]. Qed.
Lemma does_bind {A B : Type} w (m : TM W A) (f : A → TM W B) (P : A → W → Prop) Q :
  t_does w m P → (∀ a, cleans (f a)) → (∀ a w', extends w w' → P a w' → t_does w' (f a) Q) → t_does w (t_bind m f) Q.
Proof.
  intros Hm Hc Hf k k' r Ho Hw Hok E Hcl. unfold t_bind in E. destruct (m k) as [k1 r1] eqn:E1.
  assert (clean (dk_blobs k1)) as Hcl1.
  { destruct r1 as [a|e]; [|by injection E as <- _]. apply (Hc a). by rewrite E. }
  destruct (Hm k k1 r1 Ho Hw Hok E1 Hcl1) as (a & -> & Ho1 & Hx1 & Ha).
  destruct (Hf a _ Hx1 Ha k1 k' r Ho1 eq_refl (proj1 Hx1) E Hcl) as (b & -> & Ho2 & Hx2 & Hq).
  exists b. split_and!; [done|done|by eapply ext_trans|done].
Qed.
Lemma does_weaken {A : Type} w (m : TM W A) (P Q : A → W → Prop) : t_does w m P → (∀ a w', extends w w' → P a w' → Q a w') → t_does w m Q.
Proof. intros Hm HPQ k k' r Ho Hw Hok E Hcl. destruct (Hm k k' r Ho Hw Hok E Hcl) as (a & ? & ? & ? & ?). exists a. auto. Qed.
Lemma does_sys {A : Type} w (m : OSM A) P : yields fs m P → t_does w (on_sys m) (λ a w', w' = w ∧ P a).
Proof.
  intros Hm k k' r Ho Hw Hok E Hcl. unfold on_sys in E. destruct (Hm (dk_os k) Ho) as (o' & a & E1 & Ho' & Ha). rewrite E1 in E. injection E as <- <-.
  exists a. subst w. split_and!; [done|done|by apply ext_refl|done|done].
Qed.
Lemma does_man {A : Type} w (m : W → W * result manifest_err A) (Q : A → W → Prop) :
  (∀ w' r, m w = (w', r) → clean w' → w_ok w → ∃ a, r = Ok a ∧ extends w w' ∧ Q a w') → t_does w (on_man m) Q.
Proof.
  intros Hm k k' r Ho Hw Hok E Hcl. unfold on_man in E. rewrite Hw in E. destruct (m w) as [w' r1] eqn:E1. injection E as <- <-.
  destruct (Hm w' r1 eq_refl Hcl Hok) as (a & -> & Hx & Hq). by exists a.
Qed.

Lemma does_capture w p nd : fs !! p = Some nd →
  t_does w (on_sys (Capture h p nd)) (λ m w', w' = w ∧ captured fs p nd m ∧ meta_utf8 m).
Proof.
  intros Hp. apply does_sys. intros o Ho. destruct (yields_Capture h Hquiet fs Hfs p nd Hp o Ho) as (o' & m & E & Ho' & Hc).
  exists o', m. split; [done|]. split; [done|]. split; [done|]. exact (Hmeta p nd o o' m Hp Ho E).
Qed.

Lemma cleans_file_put r : cleans (on_pipe (file_put cfg r)).
Proof. apply cleans_pipe. intros w. apply (file_put_back cfg). Qed.

Lemma does_file_put w x : sized cfg x → t_does w (on_pipe (file_put cfg (mkReader x false))) (λ m w', file_holds cfg (holds := holds) w' m x).
Proof.
  intros Hx k k' r Ho Hw Hok E Hcl. unfold on_pipe in E. rewrite Hw in E. destruct (file_put cfg _ w) as [w' r1] eqn:E1. injection E as <- <-.
  destruct (file_put_ok cfg x w w' r1 Hok Hx E1 Hcl) as (m & -> & Hxt & Hh & _). by exists m.
Qed.

(** The bytes a leaf is stored as. *)
Definition leaf_bytes (nd : node) : bytes := match n_body nd with BFile x => x | BLink t => str_bytes t | BDir => [] end.

Lemma cleans_runStore p : cleans (runStore h cfg p).
Proof.
  unfold runStore. apply cleans_bind; [apply cleans_sys|]. intros nd. apply cleans_bind.
  - destruct (is_link nd); apply cleans_bind; [apply cleans_sys|intros; apply cleans_file_put|apply cleans_sys|].
    intros rd. apply cleans_bind; [apply cleans_sys|intros; apply cleans_file_put].
  - intros m. apply cleans_bind; [apply cleans_sys|]. intros; apply cleans_ret.
Qed.

Lemma does_runStore w p nd : fs !! p = Some nd → fi_IsDir nd = false →
  t_does w (runStore h cfg p) (λ m w', file_holds cfg (holds := holds) w' m (leaf_bytes nd) ∧ fm_Name m = Base p ∧ meta_utf8 (fm_Meta m) ∧
    captured fs p nd (fm_Meta m)).
Proof.
  intros Hp Hd. unfold runStore. eapply does_bind; [apply does_sys, (yields_Lstat h Hquiet fs Hfs p nd Hp)| |].
  { intros n0. apply cleans_bind; [|intros m; apply cleans_bind; [apply cleans_sys|intros; apply cleans_ret]].
    destruct (is_link n0); apply cleans_bind; [apply cleans_sys|intros; apply cleans_file_put|apply cleans_sys|].
    intros rd. apply cleans_bind; [apply cleans_sys|intros; apply cleans_file_put]. }
  intros n0 w0 _ [-> <-]. eapply (does_bind _ _ _ (λ m w', file_holds cfg (holds := holds) w' m (leaf_bytes nd))).
  - pose proof (Hsize p nd Hp) as Hs. unfold is_link, leaf_bytes, fi_IsDir in *. destruct (n_body nd) as [|x|t] eqn:Eb; [done| |].
    + intros k k' r Ho Hw Hok E Hcl. destruct (yields_Open h Hquiet fs Hfs p nd Hp x Eb (dk_os k) Ho) as (o' & rd & E1 & Ho' & <-).
      assert (on_pipe (file_put cfg (mkReader x false)) (mkDesk o' (dk_blobs k)) = (k', r)) as E2.
      { rewrite <-E. unfold t_bind, on_sys. unfold os_bind in E1. destruct (Open h p (dk_os k)) as [o1 [rd|]]; [|done]. cbn [map_err dk_os].
        rewrite E1. reflexivity. }
      by eapply (does_file_put w x Hs (mkDesk o' (dk_blobs k))).
    + eapply does_bind; [apply does_sys, (yields_Readlink h Hquiet fs Hfs p nd Hp t Eb)|intros; apply cleans_file_put|].
      intros t' w1 _ [-> <-]. by apply does_file_put.
  - intros m. apply cleans_bind; [apply cleans_sys|intros; apply cleans_ret].
  - intros m w1 _ Hh. eapply does_bind; [by apply (does_capture _ p nd)|intros; apply cleans_ret|]. intros meta w2 _ (-> & Hc & Hu).
    apply does_ret. split; [|split; [done|]].
    + destruct Hh as [? ? ? ? ?]. by split.
    + split; [by apply meta_utf8_versions|]. destruct Hc as [? ? ? ?]. by split.
Qed.

Lemma cleans_Graft root (s : string) child stat : cleans (on_man (Graft cfg root s child stat)).
Proof. apply cleans_man. intros w. apply (Graft_back cfg). Qed.
Lemma cleans_StoreDir d : cleans (on_man (StoreDir cfg d)).
Proof. apply cleans_man. intros w. apply (StoreDir_back cfg). Qed.

Lemma cleans_store_leaf p : cleans (store_leaf h cfg p).
Proof.
  unfold store_leaf. apply cleans_bind; [apply cleans_runStore|]. intros fm. apply cleans_bind; [|intros; apply cleans_ret].
  apply cleans_man. intros w. apply (StoreFileManifest_back cfg).
Qed.

Lemma cleans_visit p isDir a : cleans (store_visit h cfg src p isDir a).
Proof.
  unfold store_visit. case_decide; [apply cleans_ret|]. apply cleans_bind; [apply cleans_sys|]. intros fi. destruct isDir.
  - apply cleans_bind; [apply cleans_sys|]. intros meta. apply cleans_bind; [apply cleans_StoreDir|]. intros sub.
    apply cleans_bind; [apply cleans_Graft|]. intros; apply cleans_ret.
  - apply cleans_bind; [apply cleans_store_leaf|]. intros x. apply cleans_bind; [apply cleans_Graft|]. intros; apply cleans_ret.
Qed.

Lemma cleans_entries {A : Type} (rec : path → bool → A → TM W A) p es : (∀ q b a, cleans (rec q b a)) → ∀ a, cleans (walk_entries rec p es a).
Proof.
  intros Hr. induction es as [|[name b] es IH]; intros a; cbn [walk_entries]; [apply cleans_ret|]. apply cleans_bind; [apply Hr|apply IH].
Qed.

Lemma cleans_walk fuel : ∀ p isDir a, cleans (walkDir h (store_visit h cfg src) fuel p isDir a).
Proof.
  induction fuel as [|fuel IH]; intros p isDir a; cbn [walkDir]; [apply cleans_fail|]. apply cleans_bind; [apply cleans_visit|]. intros a'.
  destruct (negb isDir); [apply cleans_ret|]. apply cleans_bind; [apply cleans_sys|]. intros es. by apply cleans_entries.
Qed.

(** The image of a leaf or of a new directory. *)
Lemma does_leaf w p nd V : fs !! p = Some nd → fi_IsDir nd = false → utf8 (Base p) →
  t_does w (store_leaf h cfg p) (λ x w', cap_ok x.1 ∧ image 1 w' (<[p := nd]> V) p x.1).
Proof.
  intros Hp Hd Hu. unfold store_leaf. eapply does_bind; [by apply (does_runStore w p nd)| |].
  { intros fm. apply cleans_bind; [|intros; apply cleans_ret]. apply cleans_man. intros w0. apply (StoreFileManifest_back cfg). }
  intros fm w1 _ (Hh & Hn & Hm & Hc). eapply (does_bind _ _ _ (λ c w', cap_ok c ∧ file_at w' c fm (leaf_bytes nd))).
  - apply does_man. intros w' r E Hcl Hok. destruct (StoreFileManifest_spec cfg fm _ w1 w' r Hok Hh ltac:(by rewrite Hn) Hm E Hcl) as (c & -> & Hf & Hcc & Hx).
    exists c. split_and!; done.
  - intros; apply cleans_ret.
  - intros c w2 _ [Hcc Hf]. apply does_ret. split; [done|]. cbn [image fst]. split; [done|]. rewrite lookup_insert_eq. cbn [fmap option_fmap option_map].
    pose proof (captured_link fs Hfs p nd Hp _ Hc) as Hl. unfold is_link, leaf_bytes, fi_IsDir in *. destruct (n_body nd) as [|x|t] eqn:Eb; [done| |].
    + by exists fm.
    + exists fm, (str_bytes t). split; [done|]. split; [done|]. split; [by apply (ca_link _ _ _ _ Hc)|].
      apply (ca_xattr _ _ _ _ Hc); [unfold is_link; by rewrite Eb|]. intros q m. apply (Hxattr p nd); [done|]. unfold is_link. by rewrite Eb.
Qed.

Lemma does_newdir w p nd V meta : n_body nd = BDir → meta_utf8 meta → (∀ name, V !! (p ++ [name]) = None) →
  t_does w (on_man (StoreDir cfg (NewDir meta))) (λ c w', cap_ok c ∧ image 1 w' (<[p := nd]> V) p c).
Proof.
  intros Hd Hm Hv. apply does_man. intros w' r E Hcl Hok.
  assert (good_dir (NewDir meta)) as Hg by (by split; [split; constructor|constructor|constructor|]).
  destruct (StoreDir_spec cfg _ _ _ _ Hok Hg E Hcl) as (c & -> & Hdir & Hcc & Hx). exists c. split; [done|]. split; [done|]. split; [done|].
  cbn [image]. split; [done|]. rewrite lookup_insert_eq. cbn [fmap option_fmap option_map]. rewrite Hd. exists (NewDir meta). split; [done|].
  intros name. cbn. rewrite lookup_insert_ne; [apply Hv|]. intros E'%(f_equal length). rewrite length_app in E'. simpl in E'. lia.
Qed.

(** One visit below the root adds one path to the image. *)
Lemma does_visit w V root files rel nd :
  fs !! (src ++ rel) = Some nd → rel ≠ [] → image n w V src root →
  (∀ a b, rel = a ++ b → b ≠ [] → V !! (src ++ a) = fs !! (src ++ a)) → (∀ name, V !! (src ++ rel ++ [name]) = None) →
  t_does w (store_visit h cfg src (src ++ rel) (fi_IsDir nd) (root, files))
    (λ x w', image n w' (<[src ++ rel := nd]> V) src x.1).
Proof.
  intros Hp Hne Hi Habove Hnew. pose proof (fo_normal _ Hfs _ _ Hp) as HN. apply Forall_app in HN as [_ HN].
  assert (∀ c st w1, extends w w1 → cap_ok c → image 1 w1 (<[src ++ rel := nd]> V) (src ++ rel) c →
    t_does w1 (on_man (Graft cfg root (join_slash rel) c st)) (λ c' w', image n w' (<[src ++ rel := nd]> V) src c')) as Hgraft.
  { intros c st w1 Hx Hc Hic. apply does_man. intros w' r E Hcl Hok. unfold Graft in E. rewrite splitPath_join in E by done.
    assert (graft cfg root rel c st w1 = (w', r)) as Eg by (by destruct rel).
    destruct (graft_image c st nd 1 rel n src root w1 w' r V) as (c' & -> & _ & Hx' & Hi'); try done.
    - eapply image_ext; [done|reflexivity|done].
    - by eapply Hutf.
    - assert (length rel < n)%nat; [apply Hdepth; by eexists|lia].
    - intros a b E' Hb0. rewrite (Habove a b E' Hb0). destruct (exists_last Hb0) as (b' & x & ->).
      pose proof (ok_way fs _ _ Hfs Hp) as Hw. apply Hw; [rewrite E', app_assoc; by apply prefix_app_r| |by destruct src].
      rewrite E'. intros E1%(f_equal length). rewrite !length_app in E1. simpl in E1. lia.
    - exists c'. by split_and!. }
  unfold store_visit. rewrite decide_False.
  2:{ intros E. apply Hne. rewrite <-(app_nil_r src) in E at 2. by apply app_inv_head in E. }
  rewrite drop_app_length. eapply does_bind; [apply does_sys, (yields_Lstat h Hquiet fs Hfs _ nd Hp)| |].
  { intros fi. destruct (fi_IsDir nd); apply cleans_bind; [apply cleans_sys|intros m; apply cleans_bind; [apply cleans_StoreDir|]|apply cleans_store_leaf|];
      intros x; (apply cleans_bind; [apply cleans_Graft|intros; apply cleans_ret]). }
  intros fi w1 _ [-> <-]. destruct (fi_IsDir nd) eqn:Ed; cbn [fst].
  - eapply does_bind; [by apply (does_capture _ _ nd)| |].
    { intros m. apply cleans_bind; [apply cleans_StoreDir|]. intros c. apply cleans_bind; [apply cleans_Graft|intros; apply cleans_ret]. }
    intros meta w2 _ (-> & _ & Hu). eapply does_bind; [apply (does_newdir w (src ++ rel) nd V meta)| |].
    { unfold fi_IsDir in Ed. by destruct (n_body nd). } { done. } { intros name. rewrite <-app_assoc. apply Hnew. }
    { intros c. apply cleans_bind; [apply cleans_Graft|intros; apply cleans_ret]. }
    intros c w3 Hx3 [Hc Hic]. eapply does_bind; [by apply Hgraft|intros; apply cleans_ret|]. intros c' w4 _ Hi4. by apply does_ret.
  - eapply does_bind; [apply (does_leaf w (src ++ rel) nd V); [done|done|]| |].
    { unfold Base. rewrite last_app. destruct (exists_last Hne) as (i & x & ->). rewrite last_snoc. cbn.
      apply Hutf in Hp. apply Forall_app in Hp as [_ Hp]. by apply Forall_cons in Hp as [? _]. }
    { intros c. apply cleans_bind; [apply cleans_Graft|intros; apply cleans_ret]. }
    intros x w3 Hx3 [Hc Hic]. eapply does_bind; [by apply Hgraft|intros; apply cleans_ret|]. intros c' w4 _ Hi4. by apply does_ret.
Qed.

(** [V'] is [V] with the subtrees of [fs] at the paths in [S] added. *)
Definition grown (S : path → Prop) V V' : Prop := (∀ q, S q → V' !! q = fs !! q) ∧ (∀ q, ¬ S q → V' !! q = V !! q).

(** The entries of a directory, as ReadDir lists them. *)
Lemma children_spec q name b : (name, b) ∈ children fs q ↔ ∃ nd, fs !! (q ++ [name]) = Some nd ∧ b = fi_IsDir nd.
Proof.
  unfold children. rewrite list_elem_of_omap. split.
  - intros ([k nd] & Hk%elem_of_map_to_list & E). cbn [fst snd] in E. destruct (last k) as [x|]; [|done]. case_decide; [|done]. simplify_eq. eauto.
  - intros (nd & Hk & ->). exists (q ++ [name], nd). split; [by apply elem_of_map_to_list|]. cbn [fst snd]. rewrite last_snoc. by rewrite decide_True.
Qed.

Lemma children_NoDup q : NoDup (fst <$> children fs q).
Proof.
  unfold children. assert (NoDup (fst <$> map_to_list fs)) as Hnd by apply NoDup_fst_map_to_list. revert Hnd.
  generalize (map_to_list fs). induction l as [|[k nd] l IH]; cbn [omap list_omap fmap list_fmap fst]; [constructor|].
  intros [Hk Hl]%NoDup_cons. specialize (IH Hl). destruct (last k) as [x|]; [|done]. cbn [fst snd]. case_decide as Ek; [|done].
  cbn [fmap list_fmap fst]. constructor; [|done]. intros Hin. apply Hk. apply list_elem_of_fmap in Hin as ([y b] & Ey & Hin). cbn in Ey. subst y.
  apply list_elem_of_omap in Hin as ([k' nd'] & Hk' & E). cbn [fst snd] in E. destruct (last k') as [y|]; [|done]. case_decide; [|done]. simplify_eq.
  apply list_elem_of_fmap. by exists (q ++ [x], nd').
Qed.

Definition under (p : path) (es : list (string * bool)) (q : path) : Prop := ∃ name, name ∈ es.*1 ∧ p ++ [name] `prefix_of` q.

Lemma snoc_prefix_inj (p q : path) (x y : string) : p ++ [x] `prefix_of` q → p ++ [y] `prefix_of` q → x = y.
Proof. intros [a ->] [b E]. rewrite <-!app_assoc in E. apply app_inv_head in E. by injection E. Qed.

(** The loop over entries, given what a walk of each does. *)
Lemma does_entries (rec : path → bool → ReadCap * Z → TM W (ReadCap * Z)) rel es : (∀ q b a, cleans (rec q b a)) →
  NoDup es.*1 → (∀ name b, (name, b) ∈ es → ∃ nd, fs !! (src ++ rel ++ [name]) = Some nd ∧ b = fi_IsDir nd) →
  (∀ name nd w V root files, name ∈ es.*1 → fs !! (src ++ rel ++ [name]) = Some nd → image n w V src root →
     (∀ a b, rel = a ++ b → V !! (src ++ a) = fs !! (src ++ a)) → (∀ r, V !! (src ++ rel ++ name :: r) = None) →
     t_does w (rec (src ++ rel ++ [name]) (fi_IsDir nd) (root, files))
       (λ x w', ∃ V', grown (prefix (src ++ rel ++ [name])) V V' ∧ image n w' V' src x.1)) →
  ∀ w V root files, image n w V src root → (∀ a b, rel = a ++ b → V !! (src ++ a) = fs !! (src ++ a)) →
  (∀ name r, name ∈ es.*1 → V !! (src ++ rel ++ name :: r) = None) →
  t_does w (walk_entries rec (src ++ rel) es (root, files))
    (λ x w', ∃ V', grown (under (src ++ rel) es) V V' ∧ image n w' V' src x.1).
Proof.
  intros Hcl. induction es as [|[name b] es IH]; intros Hnd Hes Hrec w V root files Hi Hab Hnew; cbn [walk_entries].
  { apply does_ret. exists V. split; [|done]. split; [|done]. by intros q (? & ?%elem_of_nil & _). }
  cbn [fmap list_fmap fst] in *. apply NoDup_cons in Hnd as [Hni Hnd]. destruct (Hes name b ltac:(left)) as (nd & Hnd' & ->).
  rewrite <-app_assoc. eapply does_bind; [apply (Hrec name nd w V root files); [left|done|done|done|]| |].
  { intros r. apply Hnew. left. } { intros [c f]. by apply cleans_entries. }
  intros [c f] w1 Hx1 (V1 & [Hg1 Hg2] & Hi1). cbn [fst] in Hi1.
  assert (∀ x r, x ≠ name → ¬ src ++ rel ++ [name] `prefix_of` src ++ rel ++ x :: r) as Hother.
  { intros x r Hx [z E]. rewrite <-!app_assoc in E. do 2 apply app_inv_head in E. cbn in E. congruence. }
  assert (∀ a b, rel = a ++ b → ¬ src ++ rel ++ [name] `prefix_of` src ++ a) as Habv.
  { intros a b -> H%prefix_length. rewrite !length_app in H. simpl in H. lia. }
  eapply (does_weaken); [apply (IH Hnd) with (V := V1)|].
  - intros x b Hx. apply Hes. by right.
  - intros x nd1 w2 V2 root2 files2 Hx. apply Hrec. by right.
  - done.
  - intros a b E. rewrite Hg2 by (by eapply Habv). by eapply Hab.
  - intros x r Hx. rewrite Hg2; [apply Hnew; by right|]. apply Hother. by intros ->.
  - intros [c' f'] w2 _ (V2 & [Hh1 Hh2] & Hi2). exists V2. split; [|done]. split.
    + intros q (x & Hx & Hq). apply elem_of_cons in Hx as [Ex|Hx]; [|apply Hh1; by exists x]. cbn in Ex. subst x. rewrite Hh2; [apply Hg1; by rewrite app_assoc|].
      intros (y & Hy & Hq'). apply Hni. by rewrite (snoc_prefix_inj _ _ _ _ Hq Hq').
    + intros q Hq. rewrite Hh2 by (intros (x & Hx & Hp); apply Hq; exists x; split; [by right|done]). apply Hg2. intros Hp. apply Hq.
      exists name. split; [left|]. by rewrite <-app_assoc.
Qed.

(** What a walk of a subtree does, with a given fuel. *)
Definition walks (fuel : nat) : Prop := ∀ rel nd w V root files, rel ≠ [] → fs !! (src ++ rel) = Some nd → image n w V src root →
  (∀ a b, rel = a ++ b → b ≠ [] → V !! (src ++ a) = fs !! (src ++ a)) → (∀ r, V !! (src ++ rel ++ r) = None) →
  (∀ r, is_Some (fs !! (src ++ rel ++ r)) → (length r < fuel)%nat) →
  t_does w (walkDir h (store_visit h cfg src) fuel (src ++ rel) (fi_IsDir nd) (root, files))
    (λ x w', ∃ V', grown (prefix (src ++ rel)) V V' ∧ image n w' V' src x.1).

(** Nothing is below a path that is not a directory. *)
Lemma below_dir rel x r : fs !! (src ++ rel ++ x :: r) ≠ None → n_body <$> fs !! (src ++ rel) = Some BDir.
Proof.
  intros Hn. destruct (fs !! (src ++ rel ++ x :: r)) as [m|] eqn:E; [|done].
  apply (ok_way fs _ _ Hfs E); [exists (x :: r); by rewrite <-app_assoc| |by destruct src]. intros E'%(f_equal length). rewrite !length_app in E'. simpl in E'. lia.
Qed.

Lemma prefix_cases (p q : path) : (∃ x r, q = p ++ x :: r) ∨ q = p ∨ ¬ p `prefix_of` q.
Proof. destruct (decide (p `prefix_of` q)) as [[[|x r] ->]|]; [rewrite app_nil_r; auto|left; eauto|auto]. Qed.

(** Listing a directory that is in the image and walking its entries adds all that
    is below it. *)
Lemma does_children fuel rel nd w V root files : walks fuel →
  fs !! (src ++ rel) = Some nd → n_body nd = BDir → image n w V src root →
  (∀ a b, rel = a ++ b → V !! (src ++ a) = fs !! (src ++ a)) → (∀ x r, V !! (src ++ rel ++ x :: r) = None) →
  (∀ r, is_Some (fs !! (src ++ rel ++ r)) → (length r < S fuel)%nat) →
  t_does w (tr! es := on_sys (ReadDir h (src ++ rel)) in walk_entries (walkDir h (store_visit h cfg src) fuel) (src ++ rel) es (root, files))
    (λ x w', ∃ V', grown (prefix (src ++ rel)) V V' ∧ image n w' V' src x.1).
Proof.
  intros Hwalk Hp Hbd Hi Hab Hnew Hfu.
  eapply does_bind; [apply does_sys, (yields_ReadDir h Hquiet fs Hfs _ nd Hp Hbd)|intros es; apply cleans_entries, cleans_walk|].
  intros es w2 _ [-> <-]. set (es := sort_by fst (children fs (src ++ rel))).
  assert (∀ name b, (name, b) ∈ es ↔ ∃ m, fs !! (src ++ rel ++ [name]) = Some m ∧ b = fi_IsDir m) as Hes.
  { intros name b. unfold es. rewrite (sort_by_perm fst). rewrite children_spec. by setoid_rewrite <-app_assoc. }
  assert (∀ name, is_Some (fs !! (src ++ rel ++ [name])) ↔ name ∈ es.*1) as Hin.
  { intros name. rewrite list_elem_of_fmap. split.
    - intros [m Hm]. exists (name, fi_IsDir m). split; [done|]. apply Hes. eauto.
    - intros ([x b] & -> & (m & Hm & _)%Hes). by exists m. }
  eapply does_weaken; [apply (does_entries _ rel es) with (V := V)|].
  - apply cleans_walk.
  - unfold es. rewrite (sort_by_perm fst). apply children_NoDup.
  - intros name b. by apply Hes.
  - intros name m w3 V3 root3 files3 Hname Hm Hi3 Hab3 Hnew3. apply Hwalk; [by destruct rel|done|done| | |].
    + intros a b E Hb0. destruct (exists_last Hb0) as (b' & x & ->). rewrite app_assoc in E. apply app_inj_tail in E as [E _]. by eapply Hab3.
    + intros r. rewrite <-app_assoc. apply Hnew3.
    + intros r Hr. rewrite <-app_assoc in Hr. specialize (Hfu (name :: r) Hr). simpl in Hfu. lia.
  - done.
  - done.
  - intros name r _. apply Hnew.
  - intros [c' f'] w3 _ (V' & [Hg1 Hg2] & Hi3). exists V'. split; [|done]. split.
    + intros q Hq. destruct (prefix_cases (src ++ rel) q) as [(x & r & ->)|[->|?]]; [|rewrite Hg2|done].
      * rewrite <-app_assoc. destruct (decide (is_Some (fs !! (src ++ rel ++ [x])))) as [Hs|Hs].
        { apply Hg1. exists x. split; [by apply Hin|]. exists r. by rewrite <-!app_assoc. }
        rewrite Hg2, Hnew by (intros (y & Hy & [z E]); rewrite <-!app_assoc in E; do 2 apply app_inv_head in E; injection E as <- _; by apply Hs, Hin).
        symmetry. destruct (decide (fs !! (src ++ rel ++ x :: r) = None)) as [|Hn]; [done|]. destruct Hs. destruct r as [|y r].
        { by apply not_eq_None_Some. }
        assert (n_body <$> fs !! (src ++ rel ++ [x]) = Some BDir) as Hd.
        { apply (below_dir (rel ++ [x]) y r). by rewrite <-app_assoc. }
        by destruct (fs !! (src ++ rel ++ [x])); [eexists|].
      * apply (Hab rel []). by rewrite app_nil_r.
      * intros (y & _ & H%prefix_length). rewrite length_app in H. simpl in H. lia.
    + intros q Hq. apply Hg2. intros (y & _ & [z ->]). apply Hq. exists ([y] ++ z). by rewrite app_assoc.
Qed.

(** A walk below the root adds the whole subtree. *)
Lemma does_walk fuel : walks fuel.
Proof.
  induction fuel as [|fuel IH]; intros rel nd w V root files Hne Hp Hi Hab Hnew Hfu.
  { specialize (Hfu []). rewrite app_nil_r in Hfu. specialize (Hfu ltac:(by eexists)). simpl in Hfu. lia. }
  cbn [walkDir]. eapply does_bind; [apply (does_visit w V root files rel nd Hp Hne Hi Hab)| |].
  { intros name. apply Hnew. }
  { intros a. destruct (negb _); [apply cleans_ret|]. apply cleans_bind; [apply cleans_sys|]. intros es. apply cleans_entries, cleans_walk. }
  intros [c f] w1 Hx1 Hi1. cbn [fst] in Hi1.
  assert (∀ x r, (<[src ++ rel := nd]> V) !! (src ++ rel ++ x :: r) = None) as Hbelow.
  { intros x r. rewrite lookup_insert_ne; [apply Hnew|]. intros E%(f_equal length). rewrite !length_app in E. simpl in E. lia. }
  assert (∀ q, ¬ src ++ rel `prefix_of` q → (<[src ++ rel := nd]> V) !! q = V !! q) as Hout by (intros q Hq; apply lookup_insert_ne; by intros <-).
  destruct (fi_IsDir nd) eqn:Ed; cbn [negb].
  - eapply does_weaken; [apply (does_children fuel rel nd w1 (<[src ++ rel := nd]> V) c f IH Hp)|].
    + unfold fi_IsDir in Ed. by destruct (n_body nd).
    + done.
    + intros a b E. destruct (decide (b = [])) as [->|Hb0].
      * rewrite app_nil_r in E. subst a. by rewrite lookup_insert_eq.
      * rewrite Hout; [by eapply Hab|]. intros H%prefix_length. rewrite E, !length_app in H. destruct b; [done|simpl in H; lia].
    + done.
    + done.
    + intros x w3 _ (V' & [Hg1 Hg2] & Hi3). exists V'. split; [|done]. split; [done|]. intros q Hq. rewrite Hg2 by done. by apply Hout.
  - apply does_ret. exists (<[src ++ rel := nd]> V). split; [|done]. split; [|done]. intros q [[|x r] ->]; rewrite <-?app_assoc.
    + by rewrite app_nil_r, lookup_insert_eq.
    + rewrite Hbelow. symmetry. destruct (decide (fs !! (src ++ rel ++ x :: r) = None)) as [|Hn]; [done|]. apply below_dir in Hn.
      rewrite Hp in Hn. unfold fi_IsDir in Ed. cbn in Hn. injection Hn as Hn. by rewrite Hn in Ed.
Qed.

(** Storing a whole directory: the returned cap holds its image. *)
Lemma does_storeTree fuel w nd : (n ≤ fuel)%nat → fs !! src = Some nd → n_body nd = BDir →
  t_does w (storeTree h cfg fuel src) (λ x w', image n w' fs src x.1).
Proof.
  intros Hnf Hp Hd. unfold storeTree. eapply does_bind; [apply does_sys, (yields_Lstat h Hquiet fs Hfs src nd Hp)| |].
  { intros fi. destruct (negb _); [apply cleans_fail|]. apply cleans_bind; [apply cleans_sys|]. intros m. apply cleans_bind; [apply cleans_StoreDir|].
    intros c. apply cleans_bind; [apply cleans_sys|]. intros d. apply cleans_walk. }
  intros fi w0 _ [-> <-]. assert (fi_IsDir nd = true) as Hdir by (unfold fi_IsDir; by rewrite Hd). rewrite Hdir. cbn [negb].
  eapply does_bind; [by apply (does_capture _ src nd)| |].
  { intros m. apply cleans_bind; [apply cleans_StoreDir|]. intros c. apply cleans_bind; [apply cleans_sys|]. intros d. apply cleans_walk. }
  intros meta w1 _ (-> & _ & Hm). eapply does_bind; [apply (does_newdir w src nd ∅ meta Hd Hm); intros; apply lookup_empty| |].
  { intros c. apply cleans_bind; [apply cleans_sys|]. intros d. apply cleans_walk. }
  intros root w2 Hx2 [_ Hi]. eapply does_bind; [apply does_sys, (yields_Lstat h Hquiet fs Hfs src nd Hp)|intros; apply cleans_walk|].
  intros d w3 _ [-> <-]. rewrite Hdir. assert (∀ r, is_Some (fs !! (src ++ r)) → (length r < fuel)%nat) as Hfu by (intros r Hr; specialize (Hdepth r Hr); lia).
  assert (1 ≤ n)%nat as Hn1. { specialize (Hdepth []). rewrite app_nil_r in Hdepth. specialize (Hdepth ltac:(by eexists)). simpl in Hdepth. lia. }
  destruct fuel as [|m]; [lia|]. cbn [walkDir]. eapply (does_bind _ _ _ (λ x w', w' = w2 ∧ x = (root, 0))).
  { unfold store_visit. rewrite decide_True by done. by apply does_ret. }
  { intros a. cbn [negb]. apply cleans_bind; [apply cleans_sys|]. intros es. apply cleans_entries, cleans_walk. }
  intros x w3 _ [-> ->]. cbn [negb]. pose proof Hp as Hp0. rewrite <-(app_nil_r src) in Hp0.
  pose proof (does_children m [] nd w2 (<[src := nd]> ∅) root 0 (does_walk m) Hp0 Hd) as Hch. rewrite app_nil_r in Hch. cbn [app] in Hch.
  eapply does_weaken; [apply Hch|].
  - eapply image_le; [exact Hn1|exact Hi].
  - intros a b E. symmetry in E. apply app_nil in E as [-> ->]. rewrite app_nil_r, lookup_insert_eq. done.
  - intros x r. rewrite lookup_insert_ne; [apply lookup_empty|]. intros E%(f_equal length). rewrite length_app in E. simpl in E. lia.
  - done.
  - intros x w3 Hx3 (V' & [Hg1 _] & Hi3). eapply image_ext; [apply ext_refl, Hx3|intros r; symmetry; apply Hg1; by exists r|exact Hi3].
Qed.
End storing.
End image.

(** ** Restoring an image *)

(** After [m], the object at [p] has the body [b] and every other object the body it
    had. *)
Definition writes_at (p : path) (b : body) (g g' : FS) : Prop := ∀ q, body_at g' q = if decide (q = p) then Some b else body_at g q.
Definition same_bodies (g g' : FS) : Prop := ∀ q, body_at g' q = body_at g q.

Lemma same_bodies_trans g1 g2 g3 : same_bodies g1 g2 → same_bodies g2 g3 → same_bodies g1 g3.
Proof. intros H1 H2 q. by rewrite H2. Qed.
Lemma writes_same p b g g1 g2 : writes_at p b g g1 → same_bodies g1 g2 → writes_at p b g g2.
Proof. intros H1 H2 q. by rewrite H2. Qed.

Lemma writes_insert p b n g : n_body n = b → writes_at p b g (<[p := n]> g).
Proof. intros <- q. unfold body_at. case_decide as E; [subst; by rewrite lookup_insert_eq|by rewrite lookup_insert_ne]. Qed.

(** Calls that only change attributes, whatever fails. *)
Definition keeps_bodies {A : Type} (m : OSM A) : Prop := ∀ o, same_bodies (os_fs o) (os_fs (m o).1).

Section attributes.
Context (h : Host).
Lemma kb_ret {A : Type} (a : A) : keeps_bodies (os_ret a).
Proof. by intros o q. Qed.
Lemma kb_fail {A : Type} e : keeps_bodies (os_fail (A := A) e).
Proof. by intros o q. Qed.
Lemma kb_bind {A B : Type} (m : OSM A) (k : A → OSM B) : keeps_bodies m → (∀ a, keeps_bodies (k a)) → keeps_bodies (os_bind m k).
Proof.
  intros Hm Hk o. specialize (Hm o). unfold os_bind. destruct (m o) as [o1 [a|e]]; [|done]. eapply same_bodies_trans; [exact Hm|apply Hk].
Qed.
Lemma kb_attempt m errs : keeps_bodies m → keeps_bodies (attempt m errs).
Proof. intros Hm o. specialize (Hm o). unfold attempt. by destruct (m o). Qed.
Lemma kb_set_attr (follow : bool) p f : keeps_bodies (set_attr h follow p f).
Proof.
  intros o q. unfold set_attr, at_path, sys. destruct (c_fail _); [done|]. destruct (resolve_in _ _ _) as [q'|]; [|done].
  destruct (os_fs o !! q') as [n|] eqn:E; [|done]. cbn [fst os_fs]. unfold body_at. destruct (decide (q' = q)) as [->|Hn]; [|by rewrite lookup_insert_ne].
  by rewrite lookup_insert_eq, E.
Qed.
Lemma kb_xattrs p xs : ∀ errs, keeps_bodies (set_xattrs h p xs errs).
Proof. induction xs as [|[name v] xs IH]; intros errs; cbn [set_xattrs]; [apply kb_ret|]. apply kb_bind; [apply kb_attempt, kb_set_attr|apply IH]. Qed.
Lemma kb_joined errs : keeps_bodies (joined errs).
Proof. destruct errs; [apply kb_ret|apply kb_fail]. Qed.
Lemma kb_extras p meta : keeps_bodies (restoreExtras h p meta).
Proof.
  unfold restoreExtras. apply kb_bind; [destruct (_ || _); [apply kb_attempt, kb_set_attr|apply kb_ret]|]. intros errs.
  apply kb_bind; [apply kb_xattrs|apply kb_joined].
Qed.
Lemma kb_Restore p meta : keeps_bodies (Restore h p meta).
Proof.
  unfold Restore. apply kb_bind; [destruct (IsSymlink meta), (md_Mode meta =? 0); (apply kb_ret || apply kb_attempt, kb_set_attr)|]. intros e1.
  apply kb_bind; [destruct (IsSymlink meta), (md_ModTimeNS meta =? 0); (apply kb_ret || apply kb_attempt, kb_set_attr)|]. intros e2.
  apply kb_bind; [apply kb_attempt, kb_extras|apply kb_joined].
Qed.
End attributes.

(** Calls that succeed. *)
Section quiet_writes.
Context (h : Host) (Hquiet : ∀ i, c_fail (h_call h i) = false) (p : path) (Hn : Forall normal p) (Hp : p ≠ []).

Lemma way_body g g' q : (∀ k, k `prefix_of` q → k ≠ q → body_at g' k = body_at g k) → way g q → way g' q.
Proof. intros Hs Hw k Hk Hne H0. fold (body_at g' k). rewrite Hs by done. by apply Hw. Qed.

Lemma Create_new o : way (os_fs o) p → body_at (os_fs o) p = None →
  ∃ o', Create h p o = (o', Ok p) ∧ writes_at p (BFile []) (os_fs o) (os_fs o').
Proof.
  intros Hw Hb. unfold Create, at_path, sys. rewrite Hquiet, (resolve_way _ _ _ Hn Hw) by (intros _ t; unfold body_at in Hb; by rewrite Hb).
  unfold body_at in Hb. destruct (os_fs o !! p) as [n|] eqn:E; [done|]. eexists. split; [done|]. by apply writes_insert.
Qed.

Lemma Write_new o data d : body_at (os_fs o) p = Some (BFile d) →
  ∃ o', Write h p data o = (o', Ok tt) ∧ writes_at p (BFile (d ++ data)) (os_fs o) (os_fs o').
Proof.
  intros Hb. unfold Write. rewrite Hquiet. eexists. split; [done|]. intros q. cbn [os_fs]. unfold body_at in *. case_decide as E.
  - subst q. rewrite lookup_alter_eq. destruct (os_fs o !! p) as [[a b]|]; [|done]. cbn in *. injection Hb as ->. done.
  - by rewrite lookup_alter_ne.
Qed.

Lemma Close_ok o : ∃ o', Close h o = (o', Ok tt) ∧ os_fs o' = os_fs o.
Proof. unfold Close, sys. rewrite Hquiet. eexists. by split. Qed.

Lemma Symlink_new o t : way (os_fs o) p → body_at (os_fs o) p = None →
  ∃ o', Symlink h t p o = (o', Ok tt) ∧ writes_at p (BLink t) (os_fs o) (os_fs o').
Proof.
  intros Hw Hb. unfold Symlink, at_path, sys. rewrite Hquiet, (resolve_way _ _ _ Hn Hw) by done.
  unfold body_at in Hb. destruct (os_fs o !! p) as [n|] eqn:E; [done|]. eexists. split; [done|]. by apply writes_insert.
Qed.

Lemma Lchown_ok o uid gid : way (os_fs o) p → body_at (os_fs o) p ≠ None → ∃ o', Lchown h p uid gid o = (o', Ok tt) ∧ same_bodies (os_fs o) (os_fs o').
Proof.
  intros Hw Hb. pose proof (kb_set_attr h false p (λ c a, mkAttr (at_perm a) (at_mtime a) (at_atime a) (c_now c) uid gid (at_xattr a)) o) as Hk.
  unfold Lchown. unfold set_attr, at_path, sys in *. rewrite Hquiet, (resolve_way _ _ _ Hn Hw) in * by done.
  unfold body_at in Hb. destruct (os_fs o !! p) as [n|]; [|done]. eexists. split; [done|]. exact Hk.
Qed.

(** A link is recreated where nothing is. *)
Lemma RestoreSymlink_new o meta : IsSymlink meta = true → md_SymlinkTarget meta ≠ "" → md_Xattr meta = ∅ →
  way (os_fs o) p → body_at (os_fs o) p = None →
  ∃ o', RestoreSymlink h p meta o = (o', Ok tt) ∧ writes_at p (BLink (md_SymlinkTarget meta)) (os_fs o) (os_fs o').
Proof.
  intros Hl Ht Hx Hw Hb. unfold RestoreSymlink. rewrite decide_False by done.
  assert (∃ o1, Remove h p o = (o1, Err ENOENT) ∧ os_fs o1 = os_fs o) as (o1 & E1 & Ho1).
  { unfold Remove, at_path, sys. rewrite Hquiet, (resolve_way _ _ _ Hn Hw) by done. unfold body_at in Hb.
    destruct (os_fs o !! p) as [n|] eqn:E; [done|]. eexists. by split. }
  unfold os_bind at 1, os_try. rewrite E1. rewrite decide_True by done. rewrite <-Ho1 in Hw, Hb |- *.
  destruct (Symlink_new o1 (md_SymlinkTarget meta) Hw Hb) as (o2 & E2 & Hw2). unfold os_bind at 1. rewrite E2.
  assert (way (os_fs o2) p) as Hway2.
  { eapply way_body; [|exact Hw]. intros k _ Hk. rewrite (Hw2 k). by rewrite decide_False. }
  assert (body_at (os_fs o2) p ≠ None) as Hb2 by (rewrite (Hw2 p); by rewrite decide_True).
  assert (∃ o3, Restore h p meta o2 = (o3, Ok tt)) as (o3 & E3).
  { unfold Restore, restoreExtras. rewrite Hl, Hx, map_to_list_empty. cbn [set_xattrs]. destruct (negb _ || negb _).
    - unfold os_bind, os_ret, attempt. destruct (Lchown_ok o2 (md_Uid meta) (md_Gid meta) Hway2 Hb2) as (o3 & E3 & _). rewrite E3. eexists. reflexivity.
    - eexists. reflexivity. }
  exists o3. split; [done|]. eapply writes_same; [exact Hw2|]. pose proof (kb_Restore h p meta o2) as Hk. by rewrite E3 in Hk.
Qed.
End quiet_writes.

Section quiet_mkdir.
Context (h : Host) (Hquiet : ∀ i, c_fail (h_call h i) = false).

Lemma Mkdir_at_ok o p perm : Forall normal p → p ≠ [] → way (os_fs o) p → (body_at (os_fs o) p = None ∨ body_at (os_fs o) p = Some BDir) →
  ∃ o', Mkdir_at h p perm o = (o', Ok tt) ∧ writes_at p BDir (os_fs o) (os_fs o').
Proof.
  intros Hn Hp Hw Hb. unfold Mkdir_at, sys. rewrite Hquiet.
  rewrite (resolve_way _ true _ Hn Hw) by (intros _ t E; unfold body_at in Hb; rewrite E in Hb; by destruct Hb).
  unfold body_at in Hb. destruct (os_fs o !! p) as [n|] eqn:E.
  - destruct Hb as [Hb|Hb]; [done|]. cbn in Hb. injection Hb as Hb. unfold fi_IsDir. rewrite Hb. eexists. split; [done|]. intros q. cbn [os_fs].
    case_decide; [|done]. subst. unfold body_at. rewrite E. cbn. by rewrite Hb.
  - rewrite decide_False by done. rewrite (resolve_way _ false _ Hn Hw) by done. rewrite decide_True by done. eexists. split; [done|]. by apply writes_insert.
Qed.

Lemma MkdirAll_ok o p perm : Forall normal p → p ≠ [] → way (os_fs o) p → (body_at (os_fs o) p = None ∨ body_at (os_fs o) p = Some BDir) →
  ∃ o', MkdirAll h p perm o = (o', Ok tt) ∧ writes_at p BDir (os_fs o) (os_fs o').
Proof.
  intros Hn Hp Hw Hb. unfold MkdirAll.
  assert (∀ todo dn o1, dn ++ todo = p → todo ≠ [] → same_bodies (os_fs o) (os_fs o1) →
    ∃ o', mkdirs h dn todo perm o1 = (o', Ok tt) ∧ writes_at p BDir (os_fs o) (os_fs o')) as H; [|by apply (H p [])].
  induction todo as [|c todo IH]; intros dn o1 E Hne Hs; [done|]. cbn [mkdirs].
  assert (dn ++ [c] `prefix_of` p) as Hpre by (exists todo; by rewrite <-E, <-app_assoc).
  assert (way (os_fs o1) p) as Hw1 by (eapply way_body; [|exact Hw]; intros; apply Hs).
  assert (way (os_fs o1) (dn ++ [c])) as Hwc.
  { intros k Hk Hkn Hk0. apply Hw1; [by etrans| |done]. intros ->. apply Hkn. apply (anti_symm prefix); done. }
  assert (body_at (os_fs o1) (dn ++ [c]) = None ∨ body_at (os_fs o1) (dn ++ [c]) = Some BDir) as Hbc.
  { destruct (decide (dn ++ [c] = p)) as [->|Hd]; [by rewrite (Hs p)|]. right. apply Hw1; [done|done|by destruct dn]. }
  destruct (Mkdir_at_ok o1 (dn ++ [c]) perm) as (o2 & E2 & Hw2); [by eapply normal_prefix|by destruct dn|done|done|].
  unfold os_bind. rewrite E2. destruct (decide (todo = [])) as [->|Htn].
  - cbn [mkdirs]. eexists. split; [done|]. rewrite E in Hw2. intros q. rewrite (Hw2 q). case_decide; [done|]. apply Hs.
  - apply IH; [by rewrite <-app_assoc|done|]. intros q. rewrite (Hw2 q). case_decide as Eq; [|apply Hs]. subst q. symmetry. rewrite <-Hs. apply Hw1; [done| |by destruct dn].
    rewrite <-E. intros E'%(f_equal length). rewrite !length_app in E'. simpl in E'. destruct todo; [done|simpl in E'; lia].
Qed.
End quiet_mkdir.

Section restoring.
Context `{Hsha : Sha256} `{Hj : DirJson} `{Hfj : !FileJson} {W : Type} `{Hb : !Blobs W} (cfg : Config).
Context {w_ok clean : W → Prop} {holds : W → Params → ChunkRef → bytes → Prop}.
Context `{HL : !BlobLaws W cfg w_ok clean holds}.
Abbreviation image := (image cfg (holds := holds)).
Context (h : Host) (Hquiet : ∀ i, c_fail (h_call h i) = false) (fs : FS) (Hfs : fs_ok fs) (w : W) (Hok : w_ok w).
Context (Hback : ∀ q name nd, fs !! (q ++ [name]) = Some nd → has_backslash name = false).
Implicit Types (q p : path) (g : FS).

(** The desk over the local tree of [o] and the blobs [w]. *)
Abbreviation desk o := (mkDesk o w).

Lemma safe_name q name nd : fs !! (q ++ [name]) = Some nd → safeEntryName name = true ∧ normal name.
Proof.
  intros Hq. pose proof (fo_normal _ Hfs _ _ Hq) as HN. apply Forall_app in HN as [_ [HN _]%Forall_cons]. split; [|done].
  destruct HN as (H1 & H2 & H3 & H4). unfold safeEntryName. rewrite bool_decide_false by tauto. by rewrite H4, (Hback q name nd Hq).
Qed.

(** Where there is nothing at a path, there is nothing below it. *)
Lemma below_none q r : q ≠ [] → body_at fs q = None → body_at fs (q ++ r) = None.
Proof.
  intros Hq. induction r as [|x r IH] using rev_ind; [by rewrite app_nil_r|]. intros Hn. specialize (IH Hn). rewrite app_assoc. unfold body_at in *.
  destruct (fs !! ((q ++ r) ++ [x])) as [nd|] eqn:E; [|done]. apply (fo_above _ Hfs) in E; [congruence|by destruct q].
Qed.

Lemma restoreFile_ok n q c p o : image n w fs q c → body_at fs q ≠ Some BDir → Forall normal p → p ≠ [] →
  way (os_fs o) p → body_at (os_fs o) p = None →
  ∃ o', restoreFile h c p (desk o) = (desk o', Ok 1) ∧ ∀ b, body_at fs q = Some b → writes_at p b (os_fs o) (os_fs o').
Proof.
  intros Hi Hd Hn Hp Hw Hnone. destruct n as [|n]; [done|]. cbn [Tree.image] in Hi. apply proj2 in Hi. fold (body_at fs q) in Hi.
  destruct (body_at fs q) as [[|x|t]|] eqn:Eb; [done| | |done].
  - destruct Hi as (m & Hf & Hl). unfold restoreFile, t_bind at 1, load. cbn [dk_blobs]. rewrite (file_at_load cfg w c m x Hok Hf). cbn [map_err]. rewrite Hl.
    destruct (Create_new h Hquiet p Hn o Hw Hnone) as (o1 & E1 & Hw1). unfold t_bind at 1, on_sys at 1. cbn [dk_os]. rewrite E1. cbn [map_err].
    destruct (Write_new h Hquiet p o1 x [] ltac:(rewrite (Hw1 p); by rewrite decide_True)) as (o2 & E2 & Hw2).
    unfold t_bind at 1, t_try at 1, runLoad. cbn [dk_blobs]. destruct Hf as (_ & Hh & _). rewrite (file_get_ok cfg w m x Hok Hh).
    unfold t_bind at 1, on_sys at 1. cbn [dk_os]. rewrite E2. cbn [map_err dk_blobs]. unfold t_ret at 1.
    destruct (Close_ok h Hquiet o2) as (o3 & E3 & Ho3). unfold t_bind at 1, on_sys at 1. cbn [dk_os]. rewrite E3. cbn [map_err dk_blobs].
    pose proof (kb_Restore h p (fm_Meta m) o3) as Hk. unfold t_bind, t_try, on_sys. cbn [dk_os dk_blobs]. destruct (Restore h p (fm_Meta m) o3) as [o4 r4].
    exists o4. split; [by destruct r4 as [[]|]|]. intros b [= <-] k. cbn [fst] in Hk. rewrite (Hk k), Ho3, (Hw2 k), (Hw1 k). by case_decide.
  - destruct Hi as (m & x & Hf & Hl & Ht & Hx). unfold restoreFile, t_bind at 1, load. cbn [dk_blobs]. rewrite (file_at_load cfg w c m x Hok Hf).
    cbn [map_err]. rewrite Hl. destruct (RestoreSymlink_new h Hquiet p Hn o (fm_Meta m) Hl) as (o1 & E1 & Hw1); [|done|done|done|].
    { rewrite Ht. unfold body_at in Eb. destruct (fs !! q) as [nd|] eqn:E; [|done]. cbn in Eb. injection Eb as Eb. intros ->. by apply (fo_link _ Hfs q nd E). }
    unfold t_bind, on_sys. cbn [dk_os]. rewrite E1. exists o1. split; [done|]. intros b [= <-]. by rewrite <-Ht.
Qed.

(** What restoring a subdirectory does. *)
Definition restores (n : nat) (rec : ReadCap → path → TM W Z) : Prop := ∀ q c p o,
  image n w fs q c → body_at fs q = Some BDir → q ≠ [] → Forall normal p → p ≠ [] → way (os_fs o) p → body_at (os_fs o) p = Some BDir →
  (∀ x r, body_at (os_fs o) (p ++ x :: r) = None) →
  ∃ o' k, rec c p (desk o) = (desk o', Ok k) ∧ (∀ r, body_at (os_fs o') (p ++ r) = body_at fs (q ++ r)) ∧
    ∀ s, ¬ p `prefix_of` s → body_at (os_fs o') s = body_at (os_fs o) s.

(** One entry, where nothing is yet: what is below it is written, and no more. *)
Lemma restore_entry_ok n rec q p e nd o : restores n rec → q ≠ [] → Forall normal p → p ≠ [] →
  image n w fs (q ++ [e_Name e]) (e_Cap e) → fs !! (q ++ [e_Name e]) = Some nd → way (os_fs o) p → body_at (os_fs o) p = Some BDir →
  (∀ r, body_at (os_fs o) (p ++ e_Name e :: r) = None) → let target := p ++ [e_Name e] in
  ∃ o1 k1, (match rc_Kind (e_Cap e) with
      | KindDir => tr! _ := on_sys (MkdirAll h target 493) in rec (e_Cap e) target
      | KindFile => restoreFile h (e_Cap e) target
      | kd => t_fail (TKind kd)
      end) (desk o) = (desk o1, Ok k1) ∧ (∀ r, body_at (os_fs o1) (target ++ r) = body_at fs (q ++ e_Name e :: r)) ∧
      ∀ s, ¬ target `prefix_of` s → body_at (os_fs o1) s = body_at (os_fs o) s.
Proof.
  intros Hrec Hq Hn Hp Hi Hfe Hw Hd Hnew target. destruct (safe_name _ _ _ Hfe) as [_ Hnorm].
  assert (Forall normal target) as Hnt by (apply Forall_app; split; [done|by apply Forall_singleton]).
  assert (way (os_fs o) target) as Hwt by (apply way_snoc; [done|by right]).
  pose proof (Hnew []) as Hnone. fold target in Hnone.
  destruct (decide (body_at fs (q ++ [e_Name e]) = Some BDir)) as [Hdir|Hleaf].
  - assert (rc_Kind (e_Cap e) = KindDir) as ->.
    { destruct n as [|n]; [done|]. cbn [Tree.image] in Hi. apply proj2 in Hi. fold (body_at fs (q ++ [e_Name e])) in Hi. rewrite Hdir in Hi. destruct Hi as (d & Hd' & _). by eapply dir_at_kind. }
    destruct (MkdirAll_ok h Hquiet o target 493 Hnt ltac:(by destruct p) Hwt ltac:(by left)) as (o1 & E1 & Hw1).
    destruct (Hrec (q ++ [e_Name e]) (e_Cap e) target o1 Hi Hdir) as (o2 & k2 & E2 & Hin & Hout); [by destruct q|done|by destruct p| | | |].
    { eapply way_body; [|exact Hwt]. intros j _ Hjn. rewrite (Hw1 j). by rewrite decide_False. }
    { rewrite (Hw1 target). by rewrite decide_True. }
    { intros x r. rewrite (Hw1 (target ++ x :: r)), decide_False.
      - unfold target. rewrite <-app_assoc. apply (Hnew (x :: r)).
      - intros E'%(f_equal length). rewrite length_app in E'. simpl in E'. lia. }
    unfold t_bind, on_sys. cbn [dk_os]. rewrite E1. cbn [map_err dk_blobs]. exists o2, k2. split; [done|]. split.
    + intros r. rewrite Hin. by rewrite <-app_assoc.
    + intros s Hs. rewrite Hout by done. rewrite (Hw1 s), decide_False; [done|]. by intros ->.
  - assert (rc_Kind (e_Cap e) = KindFile) as ->.
    { destruct n as [|n]; [done|]. cbn [Tree.image] in Hi. apply proj2 in Hi. fold (body_at fs (q ++ [e_Name e])) in Hi.
      destruct (body_at fs (q ++ [e_Name e])) as [[|x|t]|]; [done| | |done]; [destruct Hi as (m & (Hk & _) & _)|destruct Hi as (m & x & (Hk & _) & _)]; done. }
    destruct (restoreFile_ok n (q ++ [e_Name e]) (e_Cap e) target o Hi Hleaf Hnt ltac:(by destruct p) Hwt Hnone) as (o1 & E1 & Hw1).
    exists o1, 1. split; [done|]. assert (body_at fs (q ++ [e_Name e]) = Some (n_body nd)) as Hbn by (unfold body_at; by rewrite Hfe).
    specialize (Hw1 _ Hbn). split.
    + intros [|x r].
      * rewrite app_nil_r, (Hw1 target), decide_True by done. done.
      * rewrite (Hw1 (target ++ x :: r)), decide_False by (intros E'%(f_equal length); rewrite length_app in E'; simpl in E'; lia).
        unfold target. rewrite <-app_assoc. cbn [app]. rewrite (Hnew (x :: r)). symmetry. unfold body_at.
        destruct (fs !! (q ++ e_Name e :: x :: r)) as [m|] eqn:Em; [|done]. exfalso. apply Hleaf.
        apply (ok_way fs _ _ Hfs Em); [exists (x :: r); by rewrite <-app_assoc| |by destruct q]. intros E'%(f_equal length). rewrite !length_app in E'. simpl in E'. lia.
    + intros s Hs. rewrite (Hw1 s), decide_False; [done|]. by intros ->.
Qed.

Lemma restore_entries_ok n rec q p : restores n rec → q ≠ [] → Forall normal p → p ≠ [] → ∀ es o k,
  NoDup (e_Name <$> es) → (∀ e, e ∈ es → image n w fs (q ++ [e_Name e]) (e_Cap e)) →
  way (os_fs o) p → body_at (os_fs o) p = Some BDir → (∀ e r, e ∈ es → body_at (os_fs o) (p ++ e_Name e :: r) = None) →
  ∃ o' k', restore_entries h rec p es k (desk o) = (desk o', Ok k') ∧
    (∀ e r, e ∈ es → body_at (os_fs o') (p ++ e_Name e :: r) = body_at fs (q ++ e_Name e :: r)) ∧
    (∀ s, (∀ e, e ∈ es → ¬ p ++ [e_Name e] `prefix_of` s) → body_at (os_fs o') s = body_at (os_fs o) s).
Proof.
  intros Hrec Hq Hn Hp. induction es as [|e es IH]; intros o k Hnd Hes Hw Hd Hnew; cbn [restore_entries].
  { exists o, k. split; [done|]. split; [|done]. by intros e r ?%elem_of_nil. }
  cbn [fmap list_fmap] in Hnd. apply NoDup_cons in Hnd as [Hni Hnd].
  pose proof (Hes e ltac:(left)) as Hi. assert (∃ nd, fs !! (q ++ [e_Name e]) = Some nd) as [nd Hfe].
  { destruct n as [|n]; [done|]. cbn [Tree.image] in Hi. apply proj2 in Hi. destruct (fs !! (q ++ [e_Name e])); [by eexists|done]. }
  destruct (safe_name _ _ _ Hfe) as [Hsafe _]. rewrite Hsafe. cbn [negb]. set (target := p ++ [e_Name e]).
  destruct (restore_entry_ok n rec q p e nd o Hrec Hq Hn Hp Hi Hfe Hw Hd (λ r, Hnew e r ltac:(left))) as (o1 & k1 & E1 & Hin1 & Hout1). fold target in E1, Hin1, Hout1.
  destruct (IH o1 (k + k1) Hnd) as (o2 & k2 & E2 & Hin2 & Hout2).
  { intros e' He'. apply Hes. by right. }
  { eapply way_body; [|exact Hw]. intros j Hjp _. apply Hout1. intros H%prefix_length. apply prefix_length in Hjp. unfold target in H. rewrite length_app in H. simpl in H. lia. }
  { rewrite Hout1; [done|]. intros H%prefix_length. unfold target in H. rewrite length_app in H. simpl in H. lia. }
  { intros e' r He'. rewrite Hout1; [apply Hnew; by right|]. intros [z E']. unfold target in E'. rewrite <-app_assoc in E'. apply app_inv_head in E'. injection E' as E' _.
    apply Hni. rewrite <-E'. apply list_elem_of_fmap. eauto. }
  exists o2, k2. split; [|split].
  - destruct (rc_Kind (e_Cap e)) eqn:Ek.
    + unfold t_bind in E1 |- *. rewrite E1. exact E2.
    + unfold t_bind in E1 |- *. destruct (on_sys (MkdirAll h target 493) (desk o)) as [d1 [[]|]]; [|done]. rewrite E1. exact E2.
    + done.
  - intros e' r He'. apply elem_of_cons in He' as [->|He']; [|by apply Hin2]. rewrite Hout2; [|].
    + specialize (Hin1 r). unfold target in Hin1. by rewrite <-app_assoc in Hin1.
    + intros e' He' [z E']. rewrite <-app_assoc in E'. apply app_inv_head in E'. injection E' as E' _. apply Hni. rewrite E'. apply list_elem_of_fmap. eauto.
  - intros s Hs. rewrite Hout2 by (intros e' He'; apply Hs; by right). apply Hout1. apply Hs. left.
Qed.

Lemma restoreDir_ok n : restores n (restoreDir h n).
Proof.
  induction n as [|n IH]; intros q c p o Hi Hd Hq Hn Hp Hw Hdir Hnew; [done|]. cbn [Tree.image] in Hi. apply proj2 in Hi. fold (body_at fs q) in Hi. rewrite Hd in Hi.
  destruct Hi as (d & Hdat & He). cbn [restoreDir]. unfold t_bind at 1, load. cbn [dk_blobs]. rewrite (dir_at_load cfg w c d Hok Hdat). cbn [map_err].
  pose proof (proj1 (proj2 Hdat)) as [Hwf _ _ _].
  assert (∀ name e, Lookup d name = Some e ↔ e ∈ dm_Entries d ∧ e_Name e = name) as Hlook by (intros; rewrite Lookup_map by done; apply dir_map_Some, Hwf).
  destruct (restore_entries_ok n (restoreDir h n) q p IH Hq Hn Hp (dm_Entries d) o 0) as (o1 & k1 & E1 & Hin & Hout); [apply Hwf| |done|done|by intros e r _; apply Hnew|].
  { intros e Hin. specialize (He (e_Name e)). by rewrite (proj2 (Hlook (e_Name e) e)) in He. }
  unfold t_bind at 1. rewrite E1. pose proof (kb_Restore h p (dm_Meta d) o1) as Hk. unfold t_bind, t_try, on_sys. cbn [dk_os dk_blobs].
  destruct (Restore h p (dm_Meta d) o1) as [o2 r2]. cbn [fst] in Hk. exists o2, k1. split; [by destruct r2|]. split.
  - intros [|x r]; rewrite (Hk _).
    + rewrite !app_nil_r, Hout, Hdir; [done|]. intros e _ H%prefix_length. rewrite length_app in H. simpl in H. lia.
    + destruct (Lookup d x) as [e|] eqn:El.
      * apply Hlook in El as [Hel <-]. by apply Hin.
      * rewrite Hout, Hnew; [|intros e Hel [z E']; rewrite <-app_assoc in E'; apply app_inv_head in E'; injection E' as E' _].
        { symmetry. specialize (He x). rewrite El in He. pose proof (below_none (q ++ [x]) r ltac:(by destruct q)) as Hb0. rewrite <-app_assoc in Hb0. apply Hb0.
          unfold body_at. by rewrite He. }
        assert (Lookup d x = Some e); [by apply Hlook|congruence].
  - intros s Hs. rewrite (Hk s). apply Hout. intros e _ [z ->]. apply Hs. exists ([e_Name e] ++ z). by rewrite app_assoc.
Qed.

(** Restoring an image where nothing is. *)
Lemma restoreTree_ok n src c dest o : image n w fs src c → body_at fs src = Some BDir → src ≠ [] → Forall normal dest → dest ≠ [] →
  way (os_fs o) dest → (∀ r, body_at (os_fs o) (dest ++ r) = None) →
  ∃ o' k, restoreTree h n c dest (desk o) = (desk o', Ok k) ∧ (∀ r, body_at (os_fs o') (dest ++ r) = body_at fs (src ++ r)) ∧
    ∀ s, ¬ dest `prefix_of` s → body_at (os_fs o') s = body_at (os_fs o) s.
Proof.
  intros Hi Hd Hs Hn Hp Hw Hnew. unfold restoreTree. assert (rc_Kind c = KindDir) as Hk.
  { destruct n as [|n]; [done|]. cbn [Tree.image] in Hi. apply proj2 in Hi. fold (body_at fs src) in Hi. rewrite Hd in Hi. destruct Hi as (d & Hd' & _). by eapply dir_at_kind. }
  rewrite decide_False by (by intros []). pose proof (Hnew []) as Hnone. rewrite app_nil_r in Hnone.
  destruct (MkdirAll_ok h Hquiet o dest 493 Hn Hp Hw ltac:(by left)) as (o1 & E1 & Hw1). unfold t_bind, on_sys. cbn [dk_os]. rewrite E1. cbn [map_err dk_blobs].
  destruct (restoreDir_ok n src c dest o1 Hi Hd Hs Hn Hp) as (o2 & k & E2 & Hin & Hout).
  - eapply way_body; [|exact Hw]. intros j _ Hjn. rewrite (Hw1 j). by rewrite decide_False.
  - rewrite (Hw1 dest). by rewrite decide_True.
  - intros x r. rewrite (Hw1 _), decide_False; [apply Hnew|]. intros E'%(f_equal length). rewrite length_app in E'. simpl in E'. lia.
  - exists o2, k. split; [done|]. split; [done|]. intros s Hns. rewrite Hout by done. rewrite (Hw1 s), decide_False; [done|]. by intros ->.
Qed.
End restoring.

(** ** Round trip *)

Section roundtrip.
Context `{Hsha : Sha256} `{Hj : DirJson} `{Hfj : !FileJson} {W : Type} `{Hb : !Blobs W} (cfg : Config).
Context {w_ok clean : W → Prop} {holds : W → Params → ChunkRef → bytes → Prop}.
Context `{HL : !BlobLaws W cfg w_ok clean holds}.

(** A local path that can be stored and restored: at most [n] deep, names and
    metadata that JSON represents, files that one manifest can list, no name with a
    backslash, and no link to something with extended attributes. *)
Record storable (h : Host) (fs : FS) (src : path) (n : nat) : Prop := {
  st_fs : fs_ok fs;
  st_here : is_Some (fs !! src);
  st_src : src ≠ [];
  st_utf8 : ∀ rel nd, fs !! (src ++ rel) = Some nd → Forall utf8 rel;
  st_size : ∀ q nd, fs !! q = Some nd → match n_body nd with BDir => True | BFile x => sized cfg x | BLink t => sized cfg (str_bytes t) end;
  st_meta : ∀ q nd o o' m, fs !! q = Some nd → os_fs o = fs → Capture h q nd o = (o', Ok m) → meta_utf8 m;
  st_xattr : ∀ p nd q m, fs !! p = Some nd → is_link nd = true → resolve_in fs true p = Ok q → fs !! q = Some m → at_xattr (n_attr m) = ∅;
  st_depth : ∀ rel, is_Some (fs !! (src ++ rel)) → (length rel < n)%nat;
  st_back : ∀ q name nd, fs !! (q ++ [name]) = Some nd → has_backslash name = false;
}.

(** Copying a directory in and out again. Storing a local directory whose
    system calls succeed returns a cap and changes nothing locally; from then on,
    on any machine, over any later state of the blob store, restoring that cap to a
    path where nothing is succeeds and writes the same tree: every file with its
    bytes, every link with its target, every directory, and nothing else, below
    the destination; and nothing outside it changes. *)
Theorem tree_roundtrip (h h' : Host) fs src n o (w : W) k r :
  (∀ i, c_fail (h_call h i) = false) → (∀ i, c_fail (h_call h' i) = false) → storable h fs src n → body_at fs src = Some BDir →
  os_fs o = fs → w_ok w → storeTree h cfg n src (mkDesk o w) = (k, r) → clean (dk_blobs k) →
  ∃ root files, r = Ok (root, files) ∧ os_fs (dk_os k) = fs ∧ w_ok (dk_blobs k) ∧
  ∀ w2 o2 dest, ext (w_ok := w_ok) (holds := holds) (dk_blobs k) w2 → Forall normal dest → dest ≠ [] → way (os_fs o2) dest →
    (∀ rel, body_at (os_fs o2) (dest ++ rel) = None) →
    ∃ o3 count, restoreTree h' n root dest (mkDesk o2 w2) = (mkDesk o3 w2, Ok count) ∧
      (∀ rel, body_at (os_fs o3) (dest ++ rel) = body_at fs (src ++ rel)) ∧
      (∀ q, ¬ dest `prefix_of` q → body_at (os_fs o3) q = body_at (os_fs o2) q).
Proof.
  intros Hq Hq' [Hfs _ Hs Hu Hsz Hm Hx Hdep Hbk] Hd Ho Hok E Hcl. unfold body_at in Hd. destruct (fs !! src) as [nd|] eqn:Esrc; [|done]. injection Hd as Hd.
  destruct (does_storeTree cfg h Hq fs Hfs src n Hs Hu Hsz Hm Hx Hdep n w nd (Nat.le_refl _) Esrc Hd (mkDesk o w) k r Ho eq_refl Hok E Hcl)
    as ([root files] & -> & Ho1 & Hext & Hi). cbn [fst] in Hi.
  exists root, files. split; [done|]. split; [done|]. split; [exact (proj1 Hext)|]. intros w2 o2 dest Hx2 Hn Hne Hw Hnew.
  apply (restoreTree_ok cfg h' Hq' fs Hfs w2 (proj1 Hx2) Hbk n src root dest o2); [|unfold body_at; rewrite Esrc; by rewrite <-Hd|done|done|done|done|done].
  eapply image_ext; [exact Hx2|reflexivity|exact Hi].
Qed.
End roundtrip.

(** ** Termination *)

Section stops.
Context `{Hsha : Sha256} `{Hj : DirJson} `{Hfj : !FileJson} {W : Type} `{Hb : !Blobs W} (cfg : Config) (h : Host) (fs : FS) (Hfs : fs_ok fs).

(** [m] leaves the local tree alone and does not run out of fuel. *)
Definition t_stops {A : Type} (m : TM W A) : Prop := ∀ k, os_fs (dk_os k) = fs → os_fs (dk_os (m k).1) = fs ∧ (m k).2 ≠ Err TFuel.

Lemma stops_ret {A : Type} (a : A) : t_stops (t_ret a).
Proof. by intros k. Qed.
Lemma stops_fail {A : Type} e : e ≠ TFuel → t_stops (t_fail (A := A) e).
Proof. intros He k Hk. split; [done|]. by intros [= ->]. Qed.
Lemma stops_bind' {A B : Type} (m : TM W A) (f : A → TM W B) (P : A → Prop) : t_stops m →
  (∀ k a, os_fs (dk_os k) = fs → (m k).2 = Ok a → P a) → (∀ a, P a → t_stops (f a)) → t_stops (t_bind m f).
Proof.
  intros Hm HP Hf k Hk. destruct (Hm k Hk) as [H1 H2]. specialize (HP k). unfold t_bind. destruct (m k) as [k1 [a|e]]; [by apply (Hf a (HP a Hk eq_refl) k1)|].
  split; [done|]. intros [= ->]. by apply H2.
Qed.
Lemma stops_bind {A B : Type} (m : TM W A) (f : A → TM W B) : t_stops m → (∀ a, t_stops (f a)) → t_stops (t_bind m f).
Proof. intros Hm Hf. by apply (stops_bind' m f (λ _, True)). Qed.
Lemma stops_sys {A : Type} (m : OSM A) : os_pure m → t_stops (on_sys m).
Proof. intros Hm k Hk. specialize (Hm (dk_os k)). unfold on_sys. destruct (m (dk_os k)) as [o [a|e]]; cbn in *; (split; [congruence|done]). Qed.
Lemma stops_man {A : Type} (m : W → W * result manifest_err A) : t_stops (on_man m).
Proof. intros k Hk. unfold on_man. by destruct (m (dk_blobs k)) as [w [a|e]]. Qed.
Lemma stops_pipe {A : Type} (m : W → W * result pipeline_err A) : t_stops (on_pipe m).
Proof. intros k Hk. unfold on_pipe. by destruct (m (dk_blobs k)) as [w [a|e]]. Qed.

Lemma pure_Readlink p : os_pure (Readlink h p).
Proof. apply pure_call. Qed.
Lemma pure_ReadDir p : os_pure (ReadDir h p).
Proof. apply pure_call. Qed.

(** A listing that succeeds, of a directory that is there. *)
Lemma ReadDir_lists p nd k es : fs !! p = Some nd → n_body nd = BDir → os_fs (dk_os k) = fs → (on_sys (W := W) (ReadDir h p) k).2 = Ok es →
  es = sort_by fst (children fs p).
Proof.
  intros Hp Hd Hk. unfold on_sys, ReadDir, at_path, sys. rewrite Hk. destruct (c_fail _); [done|].
  rewrite (resolve_way fs true p); [|by eapply fo_normal|by eapply ok_way|intros _ t; by rewrite Hp; cbn; rewrite Hd].
  rewrite Hp. cbn [fmap option_fmap option_map]. rewrite Hd, decide_True by (by right). by intros [= <-].
Qed.

Lemma stops_runStore p : t_stops (runStore h cfg p).
Proof.
  unfold runStore. apply stops_bind; [apply stops_sys, pure_Lstat|]. intros nd. apply stops_bind.
  - destruct (is_link nd); apply stops_bind; [apply stops_sys, pure_Readlink|intros; apply stops_pipe|apply stops_sys, pure_Open|].
    intros rd. apply stops_bind; [apply stops_sys, pure_read_all|intros; apply stops_pipe].
  - intros m. apply stops_bind; [apply stops_sys, pure_Capture|]. intros; apply stops_ret.
Qed.

Lemma stops_visit src p isDir a : t_stops (store_visit h cfg src p isDir a).
Proof.
  unfold store_visit. case_decide; [apply stops_ret|]. apply stops_bind; [apply stops_sys, pure_Lstat|]. intros fi. destruct isDir.
  - apply stops_bind; [apply stops_sys, pure_Capture|]. intros meta. apply stops_bind; [apply stops_man|]. intros sub.
    apply stops_bind; [apply stops_man|]. intros; apply stops_ret.
  - apply stops_bind; [|intros x; apply stops_bind; [apply stops_man|intros; apply stops_ret]].
    apply stops_bind; [apply stops_runStore|]. intros fm. apply stops_bind; [apply stops_man|intros; apply stops_ret].
Qed.

Lemma stops_walk src fuel : ∀ p nd a, fs !! p = Some nd → (∀ r, is_Some (fs !! (p ++ r)) → (length r < fuel)%nat) →
  t_stops (walkDir h (store_visit h cfg src) fuel p (fi_IsDir nd) a).
Proof.
  induction fuel as [|fuel IH]; intros p nd a Hp Hdep.
  { specialize (Hdep []). rewrite app_nil_r in Hdep. specialize (Hdep ltac:(by eexists)). lia. }
  cbn [walkDir]. apply stops_bind; [apply stops_visit|]. intros a'. destruct (fi_IsDir nd) eqn:Ed; cbn [negb]; [|apply stops_ret].
  assert (n_body nd = BDir) as Hd by (unfold fi_IsDir in Ed; by destruct (n_body nd)).
  apply (stops_bind' _ _ (λ es, es = sort_by fst (children fs p))); [apply stops_sys, pure_ReadDir|intros k es; by apply (ReadDir_lists p nd)|]. intros es Ees.
  assert (∀ name b, (name, b) ∈ es → ∃ m, fs !! (p ++ [name]) = Some m ∧ b = fi_IsDir m) as Hes.
  { intros name b. rewrite Ees, (sort_by_perm fst). apply children_spec. }
  clear Ees. revert a'. induction es as [|[name b] es IHes]; intros a'; cbn [walk_entries]; [apply stops_ret|].
  destruct (Hes name b ltac:(left)) as (m & Hm & ->). apply stops_bind.
  - apply IH; [done|]. intros r Hr. rewrite <-app_assoc in Hr. specialize (Hdep (name :: r) Hr). simpl in Hdep. lia.
  - intros a2. apply IHes. intros x b Hx. apply Hes. by right.
Qed.

End stops.

(** ** Confinement *)

Section confined.
Context `{Hsha : Sha256} `{Hj : DirJson} `{Hfj : !FileJson} {W : Type} `{Hb : !Blobs W} (h : Host) (w : W).
Context (Hnolink : ∀ c m, LoadFileManifest c w = Ok m → IsSymlink (fm_Meta m) = false).

(** [m] reads the blobs, keeps a tree without links, and what is outside [p]. *)
Definition t_keeps {A : Type} (p : path) (m : TM W A) : Prop := ∀ k, dk_blobs k = w → links_free (os_fs (dk_os k)) →
  dk_blobs (m k).1 = w ∧ links_free (os_fs (dk_os (m k).1)) ∧ same_outside p (os_fs (dk_os k)) (os_fs (dk_os (m k).1)).

Lemma tk_ret {A : Type} p (a : A) : t_keeps p (t_ret a).
Proof. intros k Hw Hl. by split_and!. Qed.
Lemma tk_fail {A : Type} p e : t_keeps p (t_fail (A := A) e).
Proof. intros k Hw Hl. by split_and!. Qed.
Lemma tk_bind' {A B : Type} p (m : TM W A) (f : A → TM W B) (P : A → Prop) :
  t_keeps p m → (∀ k k' a, dk_blobs k = w → links_free (os_fs (dk_os k)) → m k = (k', Ok a) → P a) → (∀ a, P a → t_keeps p (f a)) → t_keeps p (t_bind m f).
Proof.
  intros Hm HP Hf k Hw Hl. destruct (Hm k Hw Hl) as (Hw1 & Hl1 & Hs1). specialize (HP k). unfold t_bind. destruct (m k) as [k1 [a|e]]; [|done].
  destruct (Hf a (HP k1 a Hw Hl eq_refl) k1 Hw1 Hl1) as (Hw2 & Hl2 & Hs2). split_and!; [done|done|]. by eapply same_outside_trans.
Qed.
Lemma tk_bind {A B : Type} p (m : TM W A) (f : A → TM W B) : t_keeps p m → (∀ a, t_keeps p (f a)) → t_keeps p (t_bind m f).
Proof. intros Hm Hf. by apply (tk_bind' p m f (λ _, True)). Qed.
Lemma tk_try {A : Type} p (m : TM W A) : t_keeps p m → t_keeps p (t_try m).
Proof. intros Hm k Hw Hl. specialize (Hm k Hw Hl). unfold t_try. by destruct (m k). Qed.
Lemma tk_sys {A : Type} p (m : OSM A) : keeps p m → t_keeps p (on_sys m).
Proof. intros Hm k Hw Hl. specialize (Hm (dk_os k) Hl). unfold on_sys. destruct (m (dk_os k)) as [o r]. cbn. by destruct Hm. Qed.
Lemma tk_load {A : Type} p (m : W → result manifest_err A) : t_keeps p (load m).
Proof. intros k Hw Hl. by split_and!. Qed.

(** What is kept outside a path is kept outside the directory above it. *)
Lemma tk_below {A : Type} p x (m : TM W A) : t_keeps (p ++ [x]) m → t_keeps p m.
Proof.
  intros Hm k Hw Hl. destruct (Hm k Hw Hl) as (Hw1 & Hl1 & Hs). split_and!; [done|done|]. intros q Hq.
  destruct (Hs q) as [E|[Hp E]]; [intros [z ->]; apply Hq; exists ([x] ++ z); by rewrite app_assoc|by left|right]. split; [|done].
  apply prefix_snoc_cases in Hp as [->|Hp]; [|done]. destruct Hq. by apply prefix_app_r.
Qed.

Lemma tk_restoreFile c p : Forall normal p → t_keeps p (restoreFile h c p).
Proof.
  intros Hp. unfold restoreFile. apply (tk_bind' p _ _ (λ m, IsSymlink (fm_Meta m) = false)); [apply tk_load| |].
  { intros k k' m Hw _ E. unfold load in E. injection E as _ E. rewrite Hw in E. destruct (LoadFileManifest c w) eqn:El; [|done]. injection E as <-. by eapply Hnolink. }
  intros m Hm. rewrite Hm. apply (tk_bind' p _ _ (λ q, q = p)); [apply tk_sys, fixes_keeps, fixes_Create; done| |].
  { intros k k' q _ Hl E. unfold on_sys in E. destruct (Create h p (dk_os k)) as [o [q'|e]] eqn:Ec; [|done]. injection E as _ <-. by eapply Create_path. }
  intros q ->. apply tk_bind.
  { apply tk_try. intros k Hw Hl. unfold runLoad. destruct (file_get m (dk_blobs k)) as [out r].
    apply (tk_bind p _ _); [apply tk_sys, fixes_keeps, fixes_Write; done| |done|done]. intros _. destruct r; [apply tk_ret|apply tk_fail]. }
  intros [[]|e].
  - apply tk_bind; [apply tk_sys, fixes_keeps, fixes_Close|]. intros _. apply tk_bind; [by apply tk_try, tk_sys, keeps_Restore|]. intros; apply tk_ret.
  - apply tk_bind; [apply tk_try, tk_sys, fixes_keeps, fixes_Close|]. intros; apply tk_fail.
Qed.

Lemma safe_normal name : safeEntryName name = true → normal name.
Proof.
  unfold safeEntryName. intros [[H1 H2]%orb_false_iff _]%negb_true_iff%orb_false_iff. apply bool_decide_eq_false in H1. unfold normal. tauto.
Qed.

Lemma tk_entries rec p : Forall normal p → (∀ c x, normal x → t_keeps (p ++ [x]) (rec c (p ++ [x]))) → ∀ es k, t_keeps p (restore_entries h rec p es k).
Proof.
  intros Hp Hrec. induction es as [|e es IH]; intros k; cbn [restore_entries]; [apply tk_ret|].
  destruct (safeEntryName (e_Name e)) eqn:Es; cbn [negb]; [|apply tk_fail]. apply safe_normal in Es.
  assert (Forall normal (p ++ [e_Name e])) as Hn by (apply Forall_app; split; [done|by apply Forall_singleton]).
  destruct (rc_Kind (e_Cap e)); [| |apply tk_fail].
  - apply tk_bind; [by apply (tk_below p (e_Name e)), tk_restoreFile|]. intros; apply IH.
  - apply tk_bind; [apply (tk_below p (e_Name e)), tk_sys, keeps_MkdirAll; [done|apply prefix_self]|]. intros _.
    apply tk_bind; [by apply (tk_below p (e_Name e)), Hrec|]. intros; apply IH.
Qed.

Lemma tk_restoreDir fuel : ∀ c p, Forall normal p → t_keeps p (restoreDir h fuel c p).
Proof.
  induction fuel as [|fuel IH]; intros c p Hp; cbn [restoreDir]; [apply tk_fail|]. apply tk_bind; [apply tk_load|]. intros d.
  apply tk_bind; [apply tk_entries; [done|]|].
  - intros c' x Hx. apply IH. apply Forall_app. split; [done|by apply Forall_singleton].
  - intros n. apply tk_bind; [by apply tk_try, tk_sys, keeps_Restore|]. intros; apply tk_ret.
Qed.

(** [C19] Restoring is confined. Whatever the blob store serves for a cap (directories
    are untrusted: any names, any nesting), and whichever system calls fail, restoring
    it to a path changes nothing outside that path, except that directories above
    it may appear, as long as no link is involved: none on the disk and none among
    the files of the tree. *)
Theorem restore_confined fuel root dest o : Forall normal dest → links_free (os_fs o) →
  same_outside dest (os_fs o) (os_fs (dk_os (restoreTree h fuel root dest (mkDesk o w)).1)).
Proof.
  intros Hn Hl. enough (t_keeps dest (restoreTree h fuel root dest)) as H by (by apply (H (mkDesk o w))).
  unfold restoreTree. case_decide; [apply tk_fail|]. apply tk_bind; [apply tk_sys, keeps_MkdirAll; [done|apply prefix_self]|]. intros _. by apply tk_restoreDir.
Qed.
End confined.

(** ** Examples *)

Definition ex_host : Host := mkHost (λ i, mkCall false (Z.of_nat i) 0 []) 0 0 18 (λ _, 4096) (λ _, "").
Definition ex_attr (perm : Z) : Attr := new_attr ex_host (mkCall false 0 0 []) perm.

(** A directory "s" with a file "f" and a link "l" to it. *)
Definition ex_disk : FS :=
  <[["s"] := mkNode (ex_attr 493) BDir]> (<[["s"; "f"] := mkNode (ex_attr 420) (BFile ex_data)]>
  (<[["s"; "l"] := mkNode (ex_attr 420) (BLink "f")]> ∅)).

Lemma ex_disk_cases (P : path → node → Prop) :
  P ["s"] (mkNode (ex_attr 493) BDir) → P ["s"; "f"] (mkNode (ex_attr 420) (BFile ex_data)) → P ["s"; "l"] (mkNode (ex_attr 420) (BLink "f")) →
  ∀ q n, ex_disk !! q = Some n → P q n.
Proof.
  intros H1 H2 H3 q n. unfold ex_disk. intros [[<- <-]|[_ [[<- <-]|[_ [[<- <-]|[_ H]]%lookup_insert_Some]]%lookup_insert_Some]]%lookup_insert_Some; done.
Qed.

Lemma ex_fs_ok : fs_ok ex_disk.
Proof.
  split.
  - apply ex_disk_cases; repeat constructor; try discriminate; reflexivity.
  - intros q c n Hq Hne. remember (q ++ [c]) as p eqn:Ep. revert p n Hq Ep.
    refine (ex_disk_cases _ _ _ _); intros Ep; (destruct q as [|a [|b [|e q]]]; [done| | |]; simplify_list_eq; reflexivity).
  - intros n Hq. remember ([] : path) as p eqn:Ep. revert p n Hq Ep. refine (ex_disk_cases _ _ _ _); done.
  - apply ex_disk_cases; vm_compute; split; congruence.
  - apply ex_disk_cases; done.
Qed.

Lemma ex_storable : @storable ex_dj ex_cfg ex_host ex_disk ["s"] 2.
Proof.
  assert (∀ x, x ∈ [ex_data; str_bytes "f"] → sized ex_cfg x) as Hs.
  { intros x [->|[->|?%elem_of_nil]%elem_of_cons]%elem_of_cons; [| |done]; refine (conj _ (conj _ _)); vm_compute; [reflexivity|reflexivity|discriminate|reflexivity|reflexivity|discriminate]. }
  split; [exact ex_fs_ok|by eexists|done| | | | | |].
  - intros rel nd _. apply Forall_forall. intros x _. apply ex_utf8.
  - apply ex_disk_cases; [exact I|apply Hs; left|apply Hs; right; left].
  - intros. apply ex_meta_utf8.
  - intros p nd q m _ _ _. revert q m. by apply ex_disk_cases.
  - intros rel [nd Hr]. remember (["s"] ++ rel) as p eqn:Ep. revert p nd Hr Ep. refine (ex_disk_cases _ _ _ _); intros Ep; simplify_list_eq; simpl; lia.
  - intros q name nd Hr. remember (q ++ [name]) as p eqn:Ep. revert p nd Hr Ep. refine (ex_disk_cases _ _ _ _); intros Ep;
      apply (f_equal last) in Ep; rewrite last_snoc in Ep; injection Ep as <-; reflexivity.
Qed.

Lemma ex_way fs x : way fs [x].
Proof.
  intros [|y k] Hk Hne H0; [done|]. pose proof (prefix_cons_inv_2 _ _ _ _ Hk) as ->%prefix_nil_inv. apply prefix_cons_inv_1 in Hk. by subst.
Qed.
Lemma ex_dest : Forall normal ["d"].
Proof. by repeat constructor. Qed.

#[local] Strategy 100 [storeTree].

Definition ex_stored : Desk (Vault Mem.MemStore) * result tree_err (ReadCap * Z) :=
  @storeTree mod_sha ex_dj ex_fj _ ex_blobs ex_host ex_cfg 2 ["s"] (mkDesk (mkOS ex_disk 0) ex_vault).

Lemma ex_stored_clean : ex_clean (dk_blobs ex_stored.1).
Proof. apply is_clean_ok. vm_compute. reflexivity. Qed.

Lemma tree_roundtrip_witness : ∃ root files o3 count, ex_stored.2 = Ok (root, files) ∧
  @restoreTree ex_dj ex_fj _ ex_blobs ex_host 2 root ["d"] (mkDesk (mkOS ∅ 0) (dk_blobs ex_stored.1)) = (mkDesk o3 (dk_blobs ex_stored.1), Ok count) ∧
  body_at (os_fs o3) ["d"; "f"] = Some (BFile ex_data) ∧ body_at (os_fs o3) ["d"; "l"] = Some (BLink "f").
Proof.
  destruct (@tree_roundtrip mod_sha ex_dj ex_fj _ ex_blobs ex_cfg ex_vok ex_clean ex_holds ex_laws ex_host ex_host ex_disk ["s"] 2 (mkOS ex_disk 0) ex_vault
    ex_stored.1 ex_stored.2) as (root & files & E & _ & Hok & Hr);
    [done|done|exact ex_storable|reflexivity|done|exact ex_vault_ok|exact (surjective_pairing ex_stored)|exact ex_stored_clean|].
  destruct (Hr (dk_blobs ex_stored.1) (mkOS ∅ 0) ["d"]) as (o3 & count & Ec & Hin & _).
  - exact (conj Hok (λ p ref x Hh, Hh)).
  - exact ex_dest.
  - discriminate.
  - apply ex_way.
  - reflexivity.
  - exists root, files, o3, count. split; [exact E|]. split; [exact Ec|]. split; [exact (Hin ["f"])|exact (Hin ["l"])].
Defined.

(** A host on which the seventh system call fails. *)
Definition ex_failing : Host := mkHost (λ i, mkCall (bool_decide (i = 7%nat)) (Z.of_nat i) 0 []) 0 0 18 (λ _, 4096) (λ _, "").


(** A store that serves the same directory for every cap: it contains itself under
    the name "x". *)
Definition ex_loop : DirManifest := mkDir zeroMeta [mkEntry "x" (mkCap KindDir (replicate 32 Byte.x01) false 2 1 []) (bareStat KindDir)].
Definition ex_loop_data : bytes := match @EncodeDir (@dir_json ex_dj) ex_loop with Ok x => x | Err _ => [] end.
Definition ex_loop_blobs : Blobs unit := {| blob_put _ _ w := (w, Err PCompress); blob_get _ _ _ := Ok ex_loop_data |}.

Lemma ex_loop_nolink c m : @LoadFileManifest ex_dj ex_fj _ ex_loop_blobs c tt = Ok m → IsSymlink (fm_Meta m) = false.
Proof.
  assert (is_ok (@DecodeFileManifest (@file_json ex_dj ex_fj) ex_loop_data) = false) as Hd by (by vm_compute).
  unfold LoadFileManifest, getBlob. case_decide as Hk; [done|]. intros H. exfalso.
  change (@DecodeFileManifest (@file_json ex_dj ex_fj) ex_loop_data = Ok m) in H. by rewrite H in Hd.
Qed.

Definition ex_plain_disk : FS := <[["a"] := mkNode (ex_attr 420) (BFile ex_data)]> ∅.
Lemma ex_plain_links : links_free ex_plain_disk.
Proof. intros q n; unfold ex_plain_disk; intros [[_ <-]|[_ H]]%lookup_insert_Some; [reflexivity|done]. Qed.

Lemma restore_confined_witness :
  same_outside ["d"] ex_plain_disk
    (os_fs (dk_os (@restoreTree ex_dj ex_fj _ ex_loop_blobs ex_host 3 (mkCap KindDir [] false 2 1 []) ["d"] (mkDesk (mkOS ex_plain_disk 0) tt)).1)).
Proof.
  apply (@restore_confined ex_dj ex_fj unit ex_loop_blobs ex_host tt ex_loop_nolink 3 (mkCap KindDir [] false 2 1 []) ["d"] (mkOS ex_plain_disk 0)).
  - exact ex_dest.
  - exact ex_plain_links.
Defined.

(** The two entries are both named "x": a link out of the destination, and a
    directory with a file "f". *)
Definition ex_link_man : FileManifest :=
  mkFile "x" ex_cfg 0 (mkMeta (fi_Mode (mkNode (ex_attr 420) (BLink ""))) 0 0 0 0 0 0 0 "" "/o" ∅ [] []) [].
Definition ex_linked : Vault Mem.MemStore * result manifest_err ReadCap := @StoreFileManifest ex_dj ex_fj _ ex_blobs ex_cfg ex_link_man ex_fstored.1.
Definition ex_twice : DirManifest :=
  mkDir zeroMeta [mkEntry "x" (cap_of ex_linked.2) (bareStat KindFile); mkEntry "x" ex_froot (bareStat KindDir)].
Definition ex_hostile : Vault Mem.MemStore * result manifest_err ReadCap := @StoreDir ex_dj _ ex_blobs ex_cfg ex_twice ex_linked.1.
Definition ex_victim : FS := <[["o"] := mkNode (ex_attr 493) BDir]> ∅.

