(* ===== verification/Cp.v ===== *)
(** * cmd/revika-ctl: cp between the local disk and the namespace (commands.go)

    [cpStore] stores a local file, link or directory and grafts it into the
    namespace in one commit; [cpRetrieve] resolves a path of the namespace and
    writes what it holds to the local disk; [cmdCp] chooses between them and
    [Move.cpCopy]. The state is the local system of [LocalFS] and the site of
    [Commit]. Local paths are lists of components from the root. *)

From Stdlib Require Import Ascii.
From S2P Require Import Prelude GoLib Store Crypto Stripe Erasure Chunk Pipeline Blobs Wire Codec Base64 Manifest Namespace Merge.
From S2P Require Import Files Root Device Discovery RootStores Identity Provider Commit Reclaim Move LocalFS Tree.

Section cp.
Context `{Hsha : Sha256} `{Hed : Ed25519} `{Hgcm : AesGcm} `{Hkem : MlKem} `{Hcj : Json readCapJSON} `{Hj : DirJson} `{Hfj : !FileJson}.
Context {W D F : Type} `{Hb : !Blobs W} `{Hpub : !FullRootPublisher D} `{Hrs : !RootStore F} (h : Host).
Implicit Types (src dst target : path).

(** A step on the blobs, as a step of the command. *)
Definition on_blobs {A} (m : TM W A) : TM (Site W D F) A := λ k,
  let '(k', r) := m (mkDesk (dk_os k) (si_blobs (dk_blobs k))) in (mkDesk (dk_os k') (with_blobs (dk_blobs k') (dk_blobs k)), r).
(** A step of the namespace commands. *)
Definition on_site {A} (m : Site W D F → Site W D F * result ctl_err A) : TM (Site W D F) A := λ k,
  let '(s, r) := m (dk_blobs k) in (mkDesk (dk_os k) s, map_err TCtl r).
Definition of_ctl {A} (r : result ctl_err A) : TM (Site W D F) A := match r with Ok a => t_ret a | Err e => t_fail (TCtl e) end.

(** The guards on the loaded root: a new namespace is fine. *)
Definition writable_root (signer : bytes) (prev : option RootPointer) (sealed : bool) : result ctl_err unit :=
  if sealed then Err CtlSealed
  else match prev with
       | Some p => if decide (rp_Owner p ≠ Public signer) then Err CtlForeign else Ok tt
       | None => Ok tt
       end.

(** What is stored for the local path, and the attributes its entry gets. *)
Definition store_source (cfg : Config) (fuel : nat) src : TM W (ReadCap * StatCache) :=
  tr! fi := on_sys (Lstat h src) in
  if fi_IsDir fi then
    tr! c := storeTree h cfg fuel src in
    t_ret (c.1, mkStat KindDir 0 (fi_Mode fi) 0 [] [])
  else
    tr! x := store_leaf h cfg src in
    t_ret (x.1, statFromManifest x.2).

Definition cpStore (cc : commitConfig) (draws : nat → Draw) (fuel : nat) src (dstRvk : string) (prev : option RootPointer) (sealed : bool)
    (pub : pub_kind) : TM (Site W D F) string :=
  tr! _ := of_ctl (writable_root (cc_signer cc) prev sealed) in
  tr! root := on_blobs (on_man (currentRoot (cc_cfg cc) prev)) in
  tr! x := on_blobs (store_source (cc_cfg cc) fuel src) in
  λ k,
    let dstPath := destPath (si_blobs (dk_blobs k)) root dstRvk (Base src) in
    (tr! newRoot := on_site (λ s, let '(w, r) := Graft (cc_cfg cc) root dstPath x.1 x.2 (si_blobs s) in (with_blobs w s, map_err CtlGraft r)) in
     on_site (commit_move cc draws fuel newRoot prev pub dstPath)) k.

(** [os.Stat]: whether the object is a directory. *)
Definition Stat_IsDir (p : path) : OSM bool :=
  at_path h true p (λ c q n fs, (fs, if decide (q = []) then Ok true else match n with Some n => Ok (fi_IsDir n) | None => Err ENOENT end)).
(** [filepath.Join] of an absolute path and a name, [filepath.Dir]. *)
Definition fp_Join (p : path) (name : string) : path := foldl (rel_step true) [] (p ++ [name]).
Definition fp_Dir (p : path) : path := foldl (rel_step true) [] (removelast p).

(** Where the source goes: below [dst] when that is a directory. *)
Definition retrieve_target (srcRvk : string) dst : TM (Site W D F) path :=
  tr! fi := t_try (on_sys (Stat_IsDir dst)) in
  match fi with
  | Ok true => tr! base := of_ctl (source_base srcRvk) in t_ret (fp_Join dst base)
  | _ => t_ret dst
  end.

Definition cpRetrieve (fuel : nat) (srcRvk : string) dst (prev : option RootPointer) : TM (Site W D F) Z :=
  tr! p := of_ctl (of_option CtlNoRoot prev) in
  tr! c := (λ k, of_ctl (map_err CtlResolve (Resolve (rp_Root p) srcRvk (si_blobs (dk_blobs k)))) k) in
  tr! target := retrieve_target srcRvk dst in
  match rc_Kind c with
  | KindDir => on_blobs (restoreTree h fuel c target)
  | KindFile =>
      tr! _ := on_sys (MkdirAll h (fp_Dir target) 493) in
      on_blobs (restoreFile h c target)
  | k => t_fail (TKind k)
  end.

(** The two addresses of cp; [loc] reads a local path. *)
Definition cmdCp (loc : string → path) (cc : commitConfig) (draws : nat → Draw) (fuel : nat) (args : list string) (prev : option RootPointer)
    (sealed : bool) (pub : pub_kind) : TM (Site W D F) unit :=
  match args with
  | [src; dst] =>
      match isRvk src, isRvk dst with
      | false, true => tr! _ := cpStore cc draws fuel (loc src) (rvkPath dst) prev sealed pub in t_ret tt
      | true, false => tr! _ := cpRetrieve fuel (rvkPath src) (loc dst) prev in t_ret tt
      | true, true => tr! _ := on_site (cpCopy cc draws fuel (rvkPath src) (rvkPath dst) prev sealed pub) in t_ret tt
      | false, false => t_fail (TCtl CtlUsage)
      end
  | _ => t_fail (TCtl CtlUsage)
  end.
End cp.

(** ** Lemmas *)

Section facts.
Context `{Hsha : Sha256} `{Hed : Ed25519} `{Hgcm : AesGcm} `{Hkem : MlKem} `{Hcj : Json readCapJSON} `{Hj : DirJson} `{Hfj : !FileJson}.
Context {W D F : Type} `{Hb : !Blobs W} `{Hpub : !FullRootPublisher D} `{Hrs : !RootStore F}.
Context (cc : commitConfig) (n : nat) (p : RootPointer).
Context {w_ok clean : W → Prop} {holds : W → Params → ChunkRef → bytes → Prop}.
Context `{HL : !BlobLaws W (cc_cfg cc) w_ok clean holds}.
Context {f_ok : F → Prop} {sv : RootPointer → Prop} {view : F → option RootPointer} (Hfile : RootStoreLaws F f_ok sv view).
Context (Hlabel : ∀ name, utf8 name → utf8 (cc_label cc name)).
Context (Hsv : ∀ root seq t rp, SignRoot (cc_signer cc) root seq t = Ok rp → cap_ok root → is_u64 seq → sv rp).
Context {d_ok : W → D → Prop} (Hpo : publisher_ok cc n (w_ok := w_ok) (holds := holds) d_ok).
Abbreviation cfg := (cc_cfg cc).
Abbreviation ftree := (ftree cfg (holds := holds)).
Abbreviation leads := (walk (holds := holds)).
Abbreviation extends := (ext (w_ok := w_ok) (holds := holds)).
Abbreviation image := (image cfg (holds := holds)).
Abbreviation settled := (settled_site cc n p (w_ok := w_ok) (holds := holds) (f_ok := f_ok) (view := view) (d_ok := d_ok)).
Implicit Types (s : Site W D F) (w : W).

(** What holds a local tree is a whole tree. *)
Lemma image_ftree m : ∀ w fs q c, image m w fs q c → ftree m w c.
Proof.
  induction m as [|m IH]; intros w fs q c; [done|]. cbn [Tree.image Files.ftree]. intros [_ Hi]. destruct (n_body <$> fs !! q) as [[|x|t]|]; [| | |done].
  - destruct Hi as (d & Hd & He). right. exists d. split; [done|]. apply Forall_forall. intros e Hin.
    specialize (He (e_Name e)). pose proof (proj1 (proj2 Hd)) as [Hwf _ _ _].
    assert (Lookup d (e_Name e) = Some e) as El by (rewrite Lookup_map by done; apply dir_map_Some; [apply Hwf|done]).
    rewrite El in He. by eapply IH.
  - destruct Hi as (fm & Hf & _). left. eauto.
  - destruct Hi as (fm & x & Hf & _). left. eauto.
Qed.

Lemma image_cap m w fs q c : image m w fs q c → cap_ok c.
Proof. destruct m; [done|]. by intros [H _]. Qed.

(** A path of a whole tree resolves the same way in a larger store. *)
Lemma resolve_ext m w w' parts : w_ok w → extends w w' → ∀ c, ftree m w c → resolve_parts parts c w' = resolve_parts parts c w.
Proof.
  intros Hok Hx. revert m. induction parts as [|name parts IH]; intros m c Ht; [done|]. cbn [resolve_parts]. destruct m as [|m]; [done|].
  destruct Ht as [(fm & x & Hf)|(d & Hd & He)].
  - destruct Hf as (Hk & _). rewrite !decide_True by (rewrite Hk; done). done.
  - rewrite (dir_at_load cfg w c d Hok Hd), (dir_at_load cfg w' c d (proj1 Hx) (dir_at_ext _ _ _ _ Hx Hd)). cbn [mbind result_bind].
    case_decide; [done|]. destruct (Lookup d name) as [e|] eqn:El; [|done]. rewrite Forall_forall in He. apply (IH m), He.
    by apply (Lookup_entry d name e (proj1 (proj2 Hd))).
Qed.

Lemma destPath_ext m w w' root (dst base : string) : w_ok w → extends w w' → ftree m w root → destPath w' root dst base = destPath w root dst base.
Proof.
  intros Hok Hx Ht. unfold destPath. case_decide; [done|]. destruct (CutSlash dst); [done|]. unfold Resolve. rewrite (proj1 (splitPath_Ok dst)).
  cbn [mbind result_bind]. by rewrite (resolve_ext m w w').
Qed.

(** *** Storing *)

Section storing.
Context (h : Host) (Hquiet : ∀ i, c_fail (h_call h i) = false) (fs : FS) (src : path) (k : nat) (Hst : storable cfg h fs src k) (Hname : utf8 (Base src)).

Lemma src_normal : normal (Base src).
Proof.
  destruct Hst as [Hfs [nd Hnd] Hs _ _ _ _ _ _]. destruct (exists_last Hs) as (i & x & ->). unfold Base. rewrite last_snoc. cbn.
  pose proof (fo_normal _ Hfs _ _ Hnd) as HN. by apply Forall_app in HN as [_ [? _]%Forall_cons].
Qed.

Lemma cleans_storeTree fuel : cleans (clean := clean) (storeTree h cfg fuel src).
Proof.
  unfold storeTree. apply cleans_bind; [apply cleans_sys|]. intros fi. destruct (negb _); [apply cleans_fail|]. apply cleans_bind; [apply cleans_sys|]. intros m.
  apply cleans_bind; [apply (cleans_StoreDir cfg)|]. intros c. apply cleans_bind; [apply cleans_sys|]. intros d. apply (cleans_walk cfg).
Qed.

Lemma cleans_source fuel : cleans (clean := clean) (store_source h cfg fuel src).
Proof.
  unfold store_source. apply cleans_bind; [apply cleans_sys|]. intros fi. destruct (fi_IsDir fi).
  - apply cleans_bind; [apply cleans_storeTree|intros; apply cleans_ret].
  - apply cleans_bind; [apply (cleans_store_leaf cfg)|intros; apply cleans_ret].
Qed.

Lemma does_source fuel w : (k ≤ fuel)%nat →
  t_does (w_ok := w_ok) (clean := clean) (holds := holds) fs w (store_source h cfg fuel src) (λ x w', image k w' fs src x.1).
Proof.
  intros Hf. destruct Hst as [Hfs [nd Hnd] Hs Hu Hsz Hm Hx Hdep _]. unfold store_source.
  eapply does_bind; [apply does_sys, (yields_Lstat h Hquiet fs Hfs src nd Hnd)| |].
  { intros fi. destruct (fi_IsDir fi); apply cleans_bind; [apply cleans_storeTree|intros; apply cleans_ret|apply (cleans_store_leaf cfg)|intros; apply cleans_ret]. }
  intros fi w0 _ [-> <-]. destruct (fi_IsDir nd) eqn:Ed.
  - eapply does_bind; [apply (does_storeTree cfg h Hquiet fs Hfs src k Hs Hu Hsz Hm Hx Hdep fuel w nd Hf Hnd)|intros; apply cleans_ret|].
    { unfold fi_IsDir in Ed. by destruct (n_body nd). }
    intros c w1 _ Hi. by apply does_ret.
  - eapply does_bind; [apply (does_leaf cfg h Hquiet fs Hfs Hsz Hm Hx w src nd fs Hnd Ed Hname)|intros; apply cleans_ret|].
    intros x w1 _ [_ Hi]. apply does_ret. rewrite insert_id in Hi by done. eapply image_le; [|exact Hi].
    specialize (Hdep []). rewrite app_nil_r in Hdep. specialize (Hdep ltac:(by eexists)). simpl in Hdep. lia.
Qed.

(** The end of the command on a site: a graft and a commit. *)
Definition graft_then draws (dstPath : string) child stat pub w s : Site W D F * result ctl_err string :=
  let '(w, r) := Graft cfg (rp_Root p) dstPath child stat w in
  match r with
  | Err e => (with_blobs w s, Err (CtlGraft e))
  | Ok newRoot => commit_move cc draws (S n) newRoot (Some p) pub dstPath (with_blobs w s)
  end.

Lemma graft_then_run draws dstPath child stat pub o w s :
  (tr! newRoot := on_site (λ s, let '(w, r) := Graft cfg (rp_Root p) dstPath child stat (si_blobs s) in (with_blobs w s, map_err CtlGraft r)) in
   on_site (commit_move cc draws (S n) newRoot (Some p) pub dstPath)) (mkDesk o (with_blobs w s)) =
  (mkDesk o (graft_then draws dstPath child stat pub w s).1, map_err TCtl (graft_then draws dstPath child stat pub w s).2).
Proof.
  unfold graft_then, t_bind, on_site. cbn [dk_blobs dk_os with_blobs si_blobs]. destruct (Graft _ _ _ _ _ _) as [w' [nr|e]]; cbn [map_err dk_blobs dk_os]; [|done].
  change (with_blobs w' (with_blobs w s)) with (with_blobs w' s). by destruct (commit_move _ _ _ _ _ _ _ _) as [s' r'].
Qed.

Lemma graft_then_back draws dstPath child stat pub w s : clean (si_blobs (graft_then draws dstPath child stat pub w s).1) → clean w.
Proof.
  intros Hcl. apply (Graft_back cfg (rp_Root p) dstPath child stat). unfold graft_then in Hcl. destruct (Graft _ _ _ _ _ _) as [w' [nr|e]]; [|done].
  by apply (commit_move_back cc n p draws nr dstPath pub (with_blobs w' s)).
Qed.

(** The whole command. *)
Lemma cpStore_run draws dst o s pub k' r : settled s → rp_Owner p = Public (cc_signer cc) → os_fs o = fs → (k ≤ S n)%nat →
  cpStore h cc draws (S n) src dst (Some p) false pub (mkDesk o s) = (k', r) → clean (si_blobs (dk_blobs k')) →
  ∃ w1 child stat r', extends (si_blobs s) w1 ∧ image k w1 fs src child ∧ os_fs (dk_os k') = fs ∧ r = map_err TCtl r' ∧
    graft_then draws (destPath (si_blobs s) (rp_Root p) dst (Base src)) child stat pub w1 s = (dk_blobs k', r').
Proof.
  intros Hs Hown Ho Hk E Hcl. unfold cpStore, writable_root in E. rewrite decide_False in E by (by intros []).
  cbn [of_ctl] in E. unfold t_bind at 1, t_ret at 1 in E. unfold t_bind at 1, on_blobs at 1, on_man, currentRoot in E. cbn [dk_os dk_blobs map_err] in E.
  unfold t_bind at 1, on_blobs at 1 in E. cbn [dk_os dk_blobs with_blobs si_blobs] in E.
  destruct (store_source h cfg (S n) src (mkDesk o (si_blobs s))) as [k1 r1] eqn:E1.
  change (with_blobs (dk_blobs k1) (with_blobs (si_blobs s) s)) with (with_blobs (dk_blobs k1) s) in E. cbn [dk_blobs with_blobs si_blobs] in E.
  assert (clean (dk_blobs k1)) as Hcl1.
  { destruct r1 as [x|e]; [rewrite graft_then_run in E; injection E as <- _; by eapply graft_then_back|by injection E as <- _]. }
  destruct (does_source (S n) (si_blobs s) Hk (mkDesk o (si_blobs s)) _ _ Ho eq_refl (ss_ok _ _ _ _ Hs) E1 Hcl1) as ([child stat] & -> & Ho1 & Hx1 & Hi).
  rewrite graft_then_run in E. cbn [fst snd] in E, Hi. rewrite (destPath_ext (S n) (si_blobs s)) in E; [|apply Hs|done|apply Hs].
  injection E as <- <-. exists (dk_blobs k1), child, stat. eexists. split_and!; [done|done|done|done|]. cbn [dk_blobs]. by rewrite <-surjective_pairing.
Qed.
End storing.

(** *** Retrieving *)

(** Where cp puts a source of the namespace with the path [q]: at [dst] when nothing
    is there, below it when it is a directory. *)
Definition lands_at (g : FS) (q : string) (dst target : path) : Prop :=
  Forall normal dst ∧ dst ≠ [] ∧ way g dst ∧
  ((body_at g dst = None ∧ target = dst) ∨ (body_at g dst = Some BDir ∧ normal (path_Base q) ∧ target = dst ++ [path_Base q])).

Section retrieving.
Context (h : Host) (Hquiet : ∀ i, c_fail (h_call h i) = false).

Lemma Stat_IsDir_run q o : Forall normal q → q ≠ [] → way (os_fs o) q →
  (body_at (os_fs o) q = None → Stat_IsDir h q o = (mkOS (os_fs o) (os_calls o + 1), Err ENOENT)) ∧
  (body_at (os_fs o) q = Some BDir → Stat_IsDir h q o = (mkOS (os_fs o) (os_calls o + 1), Ok true)).
Proof.
  intros Hn Hne Hw. unfold Stat_IsDir, at_path, sys, body_at. rewrite Hquiet.
  split; intros Hb0; (rewrite resolve_way; [|done|done|intros _ t; by rewrite Hb0]); rewrite decide_False by done; destruct (os_fs o !! q) as [nd|] eqn:E; try done.
  cbn in Hb0. injection Hb0 as Hb0. unfold fi_IsDir. by rewrite Hb0.
Qed.

(** The target is worked out without touching the disk. *)
Lemma retrieve_target_run q dst target o s : lands_at (os_fs o) q dst target →
  ∃ o', retrieve_target h q dst (mkDesk o s) = (mkDesk o' s, Ok target) ∧ os_fs o' = os_fs o ∧ Forall normal target ∧ target ≠ [] ∧ way (os_fs o) target.
Proof.
  intros (Hn & Hne & Hw & [[Hb0 ->]|(Hb0 & Hnb & ->)]); destruct (Stat_IsDir_run dst o Hn Hne Hw) as [H0 H1]; exists (mkOS (os_fs o) (os_calls o + 1));
    unfold retrieve_target, t_bind at 1, t_try, on_sys; cbn [dk_os dk_blobs].
  - by rewrite (H0 Hb0).
  - rewrite (H1 Hb0). cbn [map_err]. unfold source_base. destruct Hnb as (N1 & N2 & N3 & N4).
    rewrite decide_False by (intros [?|[E|?]]; [done|by rewrite E in N4|done]).
    assert (Forall normal (dst ++ [path_Base q])) as HN by (apply Forall_app; split; [done|by apply Forall_singleton]).
    cbn [of_ctl]. unfold t_bind, t_ret, fp_Join. rewrite (rel_fold_normal true _ HN).
    split_and!; [done|done|done|by destruct dst|]. apply way_snoc; [done|by right].
Qed.

Lemma MkdirAll_above o target : Forall normal target → target ≠ [] → way (os_fs o) target →
  ∃ o', MkdirAll h (fp_Dir target) 493 o = (o', Ok tt) ∧ ∀ q, body_at (os_fs o') q = body_at (os_fs o) q.
Proof.
  intros Hn Hne Hw. destruct (exists_last Hne) as (i & x & ->). unfold fp_Dir. rewrite removelast_last. apply Forall_app in Hn as [Hn _].
  rewrite (rel_fold_normal true _ Hn). cbn [app]. destruct (decide (i = [])) as [->|Hi]; [by exists o|].
  assert (body_at (os_fs o) i = Some BDir) as Hd.
  { apply Hw; [by apply prefix_app_r| |done]. intros E%(f_equal length). rewrite length_app in E. simpl in E. lia. }
  destruct (MkdirAll_ok h Hquiet o i 493 Hn Hi (way_init _ _ _ Hw) ltac:(by right)) as (o' & E & Hwr). exists o'. split; [done|].
  intros q. rewrite (Hwr q). case_decide as Eq; [by subst q|done].
Qed.

(** Retrieving what holds a local tree writes it. *)
Lemma cpRetrieve_ok fs src m fuel c rp q dst target o s : fs_ok fs → (∀ q name nd, fs !! (q ++ [name]) = Some nd → has_backslash name = false) →
  src ≠ [] → w_ok (si_blobs s) → image m (si_blobs s) fs src c → (m ≤ fuel)%nat → Resolve (rp_Root rp) q (si_blobs s) = Ok c →
  lands_at (os_fs o) q dst target → (∀ rel, body_at (os_fs o) (target ++ rel) = None) →
  ∃ o' count, cpRetrieve h fuel q dst (Some rp) (mkDesk o s) = (mkDesk o' s, Ok count) ∧
    (∀ rel, body_at (os_fs o') (target ++ rel) = body_at fs (src ++ rel)) ∧ (∀ x, ¬ target `prefix_of` x → body_at (os_fs o') x = body_at (os_fs o) x).
Proof.
  intros Hfs Hbk Hsrc Hok Hi Hle Hres Hland Hnew. apply (image_le cfg m fuel) in Hi; [|done].
  destruct (retrieve_target_run q dst target o s Hland) as (o1 & E1 & Ho1 & Hn & Hne & Hw).
  unfold cpRetrieve. cbn [of_option of_ctl]. unfold t_bind at 1, t_ret at 1. unfold t_bind at 1. cbn [dk_blobs]. rewrite Hres. cbn [map_err of_ctl].
  unfold t_ret at 1, t_bind at 1. rewrite E1. rewrite <-Ho1 in Hw, Hnew |- *. destruct (decide (body_at fs src = Some BDir)) as [Hd|Hd].
  - destruct (restoreTree_ok cfg h Hquiet fs Hfs _ Hok Hbk fuel src c target o1 Hi Hd Hsrc Hn Hne Hw Hnew) as (o2 & count & E2 & Hin & Hout).
    assert (rc_Kind c = KindDir) as ->.
    { destruct fuel as [|fuel]; [done|]. destruct Hi as [_ Hi]. unfold body_at in Hd. rewrite Hd in Hi. destruct Hi as (d & Hd' & _). by eapply dir_at_kind. }
    exists o2, count. split; [|done]. unfold on_blobs. cbn [dk_os dk_blobs]. rewrite E2. by destruct s.
  - assert (rc_Kind c = KindFile ∧ ∃ b, body_at fs src = Some b) as [-> [b Hbody]].
    { destruct fuel as [|fuel]; [done|]. destruct Hi as [_ Hi]. unfold body_at in Hd |- *. destruct (n_body <$> fs !! src) as [[|x|t]|]; [done| | |done].
      - destruct Hi as (fm & (Hk & _) & _). eauto.
      - destruct Hi as (fm & x & (Hk & _) & _). eauto. }
    destruct (MkdirAll_above o1 target Hn Hne Hw) as (o2 & E2 & Hsame). unfold t_bind, on_sys. cbn [dk_os dk_blobs]. rewrite E2. cbn [map_err].
    destruct (restoreFile_ok cfg h Hquiet fs Hfs _ Hok fuel src c target o2 Hi Hd Hn Hne) as (o3 & E3 & Hwr).
    { eapply way_body; [|exact Hw]. intros j _ _. apply Hsame. } { rewrite Hsame, <-(app_nil_r target). apply Hnew. }
    specialize (Hwr b Hbody). exists o3, 1. split; [unfold on_blobs; cbn [dk_os dk_blobs]; rewrite E3; by destruct s|]. split.
    + intros [|x rel]; rewrite (Hwr _).
      * rewrite !app_nil_r, decide_True by done. done.
      * rewrite decide_False by (intros E%(f_equal length); rewrite length_app in E; simpl in E; lia). rewrite Hsame, Hnew. symmetry.
        destruct (body_at fs (src ++ x :: rel)) as [b'|] eqn:Eb; [|done]. exfalso. apply Hd. unfold body_at in Eb.
        destruct (fs !! (src ++ x :: rel)) as [nd|] eqn:En; [|done]. apply (ok_way fs _ _ Hfs En); [by apply prefix_app_r| |done].
        intros E%(f_equal length). rewrite length_app in E. simpl in E. lia.
    + intros x Hx. rewrite (Hwr x), decide_False by (intros ->; by apply Hx). apply Hsame.
Qed.
End retrieving.

(** ** Round trip *)

End facts.

(** ** Witness *)

#[local] Strategy 100 [cpStore].

Lemma ex_storable_file : @storable ex_dj ex_cfg ex_host ex_disk ["s"; "f"] 1.
Proof.
  destruct ex_storable as [Hfs _ _ _ Hsz Hm Hx _ Hbk]. split; [done|by eexists|done| |done|done|done| |done].
  - intros rel nd _. apply Forall_forall. intros x _. apply ex_utf8.
  - intros rel [nd Hr]. remember (["s"; "f"] ++ rel) as q eqn:Eq. revert q nd Hr Eq. refine (ex_disk_cases _ _ _ _); intros Eq; simplify_list_eq; simpl; lia.
Qed.

(** cp s/f rvk:g *)
Definition ex_cps : Desk (Site (Vault Mem.MemStore) nat MemRootStore) * result tree_err string :=
  @cpStore mod_sha toy_ed toy_gcm keyed_kem toy_cap_json ex_dj ex_fj _ _ _ ex_blobs ex_quiet mem_root_store ex_host ex_cc ex_draw 2 ["s"; "f"] "g" (Some ex_fp)
    false PubNil (mkDesk (mkOS ex_disk 0) ex_fsite).

Lemma ex_cps_clean : ex_clean (si_blobs (dk_blobs ex_cps.1)).
Proof. apply is_clean_ok. vm_compute. reflexivity. Qed.
Lemma ex_cps_ok : ex_cps.2 = Ok "g".
Proof. vm_compute. reflexivity. Qed.
Lemma ex_lands : lands_at ∅ "g" ["d"] ["d"].
Proof. split; [exact ex_dest|]. split; [done|]. split; [apply ex_way|]. by left. Qed.

