(* ===== verification/Browse.v ===== *)
(** * internal/ledger: browsing and opening the database (ledger.go)

    [Entries] lists the shard rows that match a filter, a page at a time; the
    filter is a LIKE pattern and a membership test, evaluated by the database.
    [migrateSchema] brings a database of any earlier release to the current
    schema, each migration in a transaction of its own. What is modelled of SQL is
    what these statements use: LIKE with an escape character, ORDER BY, LIMIT and
    OFFSET, CREATE TABLE IF NOT EXISTS and ALTER TABLE ADD COLUMN. *)

From Stdlib Require Import Ascii.
From stdpp Require Import pretty.
From S2P Require Import Prelude GoLib Store Ledger Defense.

(** ** strings and the dialects *)

Definition upper (c : byte) : byte := let n := b2Z c in if (97 <=? n) && (n <=? 122) then Z2b (n - 32) else c.
Definition lower (c : byte) : byte := let n := b2Z c in if (65 <=? n) && (n <=? 90) then Z2b (n + 32) else c.
(** [strings.ToUpper] and [ToLower] of ASCII; no other letter becomes a
    hexadecimal digit. *)
Definition ToUpper (s : bytes) : bytes := upper <$> s.
Definition ToLower (s : bytes) : bytes := lower <$> s.

Inductive driver := SQLite | Postgres.
#[export] Instance driver_eq_dec : EqDecision driver.
Proof. solve_decision. Defined.

Definition resolveDriver (name : bytes) : option driver :=
  let s := ToLower (TrimSpace name) in
  if decide (s = [] ∨ s = text "sqlite" ∨ s = text "sqlite3") then Some SQLite
  else if decide (s = text "postgres" ∨ s = text "postgresql" ∨ s = text "pgx") then Some Postgres
  else None.

Inductive journal := JDelete | JWal | JTruncate.
Definition resolveJournalMode (mode : bytes) : option journal :=
  let s := ToLower (TrimSpace mode) in
  if decide (s = [] ∨ s = text "delete") then Some JDelete
  else if decide (s = text "wal") then Some JWal
  else if decide (s = text "truncate") then Some JTruncate
  else None.

(** The checks of [Open] before the database is opened. *)
Inductive open_err := OpenDriver | OpenJournal | OpenDSN.
Definition open_mode (name mode dsn : bytes) : result open_err (driver * option journal) :=
  match resolveDriver name with
  | None => Err OpenDriver
  | Some SQLite => match resolveJournalMode mode with Some j => Ok (SQLite, Some j) | None => Err OpenJournal end
  | Some Postgres => if decide (TrimSpace dsn = []) then Err OpenDSN else Ok (Postgres, None)
  end.

(** Placeholders: the [n]-th question mark becomes $n. *)
Fixpoint bind_from (n : N) (query : bytes) : bytes :=
  match query with
  | [] => []
  | c :: query => if decide (c = chr "?") then chr "$" :: text (pretty n) ++ bind_from (n + 1) query else c :: bind_from n query
  end.
Definition bindPostgres : bytes → bytes := bind_from 1.
Definition bind (d : driver) (query : bytes) : bytes := if decide (d = Postgres) then bindPostgres query else query.

(** ** LIKE *)

Definition escapeLike (s : bytes) : bytes :=
  s ≫= λ c, if decide (c = chr "\" ∨ c = chr "%" ∨ c = chr "_") then [chr "\"; c] else [c].

(** SQL's LIKE with the escape character backslash; [fold] is what the dialect
    compares characters by. *)
Fixpoint like (fold : byte → byte) (pat s : bytes) {struct pat} : bool :=
  match pat with
  | [] => bool_decide (s = [])
  | c :: pat =>
      if decide (c = chr "\") then
        match pat, s with
        | c :: pat, d :: s => bool_decide (fold c = fold d) && like fold pat s
        | _, _ => false
        end
      else if decide (c = chr "%") then
        (fix any (s : bytes) : bool := like fold pat s || match s with [] => false | _ :: s => any s end) s
      else match s with
           | [] => false
           | d :: s => (bool_decide (c = chr "_") || bool_decide (fold c = fold d)) && like fold pat s
           end
  end.
(** SQLite ignores the case of ASCII letters, PostgreSQL does not. *)
Definition like_fold (d : driver) : byte → byte := match d with SQLite => upper | Postgres => λ c, c end.

(** ** Entries *)

Record LedgerFilter := mkFilter { lf_Prefix : bytes; lf_Owner : bytes; lf_Limit : Z; lf_Offset : Z }.
Record LedgerEntry := mkLEntry {
  le_ShardID : ShardID; le_Size : Z; le_Created : Z; le_OwnerCount : Z; le_HasStripe : bool; le_K : Z; le_M : Z; le_Siblings : Z }.
Record EntriesResult := mkEntries { er_Entries : list LedgerEntry; er_Total : Z; er_Limit : Z; er_Offset : Z }.
Definition DefaultEntryLimit : Z := 100.

(** hex(s.id), UPPER(encode(s.id, 'hex')) *)
Definition hex_upper (id : bytes) : bytes := ToUpper (text (Hex.EncodeToString id)).

(** The WHERE clause: its conditions on a shard row. *)
Definition ledgerFilterClause (d : driver) (f : LedgerFilter) (l : Ledger) (id : ShardID) : bool :=
  (let p := TrimSpace (lf_Prefix f) in
   if decide (p = []) then true else like (like_fold d) (escapeLike (ToUpper p) ++ [chr "%"]) (hex_upper id))
  && (if decide (lf_Owner f = []) then true else bool_decide (is_Some (owners l !! (id, lf_Owner f)))).

(** A row of the join, and the code that reads it. *)
Definition scanEntry (l : Ledger) (id : ShardID) (s : ShardRow) : result ledger_err LedgerEntry :=
  if decide (length id ≠ 32%nat) then Err ErrIDColumn
  else
    let cnt := Z.of_nat (length (owners_of id l)) in
    Ok match stripes l !! id with
       | Some st => mkLEntry id (size s) (created s) cnt true (st_k st) (st_m st) (Z.of_nat (length (st_siblings st)) / 32)
       | None => mkLEntry id (size s) (created s) cnt false 0 0 0
       end.

Fixpoint scan_entries (l : Ledger) (rows : list (ShardID * ShardRow)) : result ledger_err (list LedgerEntry) :=
  match rows with
  | [] => Ok []
  | (id, s) :: rows => e ← scanEntry l id s; es ← scan_entries l rows; Ok (e :: es)
  end.

(** The matching rows, ORDER BY created DESC, id. *)
Definition matching (d : driver) (f : LedgerFilter) (l : Ledger) : list (ShardID * ShardRow) :=
  sort_by2 (λ x, - created x.2) (λ x, bytes_key x.1) (List.filter (λ x, ledgerFilterClause d f l x.1) (map_to_list (shards l))).

Definition Entries (d : driver) (f : LedgerFilter) (l : Ledger) : result ledger_err EntriesResult :=
  let limit := if lf_Limit f <=? 0 then DefaultEntryLimit else lf_Limit f in
  let offset := Z.max (lf_Offset f) 0 in
  es ← scan_entries l (take (Z.to_nat limit) (drop (Z.to_nat offset) (matching d f l)));
  Ok (mkEntries es (Z.of_nat (length (matching d f l))) limit offset).

(** ** Lemmas: patterns *)

Lemma upper_lower c : upper (lower c) = upper c.
Proof. by destruct c. Qed.
Lemma lower_upper c : lower (upper c) = lower c.
Proof. by destruct c. Qed.
Lemma upper_upper c : upper (upper c) = upper c.
Proof. by destruct c. Qed.

Lemma like_any fold s : like fold [chr "%"] s = true.
Proof. induction s as [|c s IH]; [done|]. cbn in *. exact IH. Qed.

(** An escaped string followed by a percent sign matches literally, as a prefix. *)
Lemma like_literal fold p : ∀ s, like fold (escapeLike p ++ [chr "%"]) s = bool_decide ((fold <$> p) `prefix_of` (fold <$> s)).
Proof.
  induction p as [|c p IH]; intros s.
  { rewrite bool_decide_true by apply prefix_nil. apply like_any. }
  assert (like fold (escapeLike (c :: p) ++ [chr "%"]) s =
    match s with [] => false | d :: s => bool_decide (fold c = fold d) && like fold (escapeLike p ++ [chr "%"]) s end) as ->.
  { unfold escapeLike at 1. cbn [mbind list_bind]. fold (escapeLike p). case_decide as Hc; [by destruct s|].
    cbn [app like]. rewrite !decide_False by tauto. destruct s as [|d s]; [done|]. rewrite (bool_decide_false (c = chr "_")) by tauto. done. }
  destruct s as [|d s]; cbn [fmap list_fmap].
  { symmetry. apply bool_decide_eq_false. intros H%prefix_nil_not. done. }
  rewrite IH. destruct (decide (fold c = fold d)) as [E|E].
  - rewrite bool_decide_true by done. cbn [andb]. rewrite E. apply bool_decide_ext. split; [apply prefix_cons|apply prefix_cons_inv_2].
  - rewrite bool_decide_false by done. symmetry. apply bool_decide_eq_false. by intros H%prefix_cons_inv_1.
Qed.

Lemma map_prefix {A B : Type} (f : A → B) (x y : list A) : x `prefix_of` y → (f <$> x) `prefix_of` (f <$> y).
Proof. intros [z ->]. rewrite fmap_app. by apply prefix_app_r. Qed.

Lemma hex_lower id : ToLower (text (Hex.EncodeToString id)) = text (Hex.EncodeToString id).
Proof. induction id as [|x id IH]; [done|]. cbn. unfold text in IH. f_equal; [by destruct x|]. f_equal; [by destruct x|]. exact IH. Qed.

(** What the filter lets through. *)
Definition selected (f : LedgerFilter) (l : Ledger) (id : ShardID) : Prop :=
  ToLower (TrimSpace (lf_Prefix f)) `prefix_of` text (Hex.EncodeToString id) ∧ (lf_Owner f = [] ∨ is_Some (owners l !! (id, lf_Owner f))).

Lemma clause_spec d f l id : ledgerFilterClause d f l id = true ↔ selected f l id.
Proof.
  unfold ledgerFilterClause, selected. rewrite andb_true_iff. generalize (TrimSpace (lf_Prefix f)) as p. intros p.
  assert ((if decide (p = []) then true else like (like_fold d) (escapeLike (ToUpper p) ++ [chr "%"]) (hex_upper id)) = true ↔
    ToLower p `prefix_of` text (Hex.EncodeToString id)) as ->.
  { assert ((if decide (p = []) then true else like (like_fold d) (escapeLike (ToUpper p) ++ [chr "%"]) (hex_upper id)) =
      bool_decide (ToUpper p `prefix_of` hex_upper id)) as ->.
    { case_decide as Hp; [subst; rewrite bool_decide_true by apply prefix_nil; done|]. rewrite like_literal. unfold hex_upper, ToUpper.
      destruct d; cbn [like_fold]; [|by rewrite !list_fmap_id]. rewrite <-!list_fmap_compose.
      rewrite (list_fmap_ext (upper ∘ upper) upper p), (list_fmap_ext (upper ∘ upper) upper); [done|intros; apply upper_upper..]. }
    rewrite bool_decide_eq_true. rewrite <-(hex_lower id). unfold hex_upper, ToUpper, ToLower. split; intros H.
    - apply (map_prefix lower) in H. rewrite <-!list_fmap_compose in H.
      rewrite (list_fmap_ext (lower ∘ upper) lower p), (list_fmap_ext (lower ∘ upper) lower) in H; [done|intros; apply lower_upper..].
    - apply (map_prefix upper) in H. rewrite <-!list_fmap_compose in H.
      rewrite (list_fmap_ext (upper ∘ lower) upper p), (list_fmap_ext (upper ∘ lower) upper) in H; [done|intros; apply upper_lower..]. }
  case_decide; [tauto|]. rewrite bool_decide_eq_true. tauto.
Qed.

(** ** Pages *)

(** What a listing shows of a shard. *)
Definition entry_of (l : Ledger) (x : ShardID * ShardRow) : LedgerEntry :=
  let cnt := Z.of_nat (length (owners_of x.1 l)) in
  match stripes l !! x.1 with
  | Some st => mkLEntry x.1 (size x.2) (created x.2) cnt true (st_k st) (st_m st) (Z.of_nat (length (st_siblings st)) / 32)
  | None => mkLEntry x.1 (size x.2) (created x.2) cnt false 0 0 0
  end.

Lemma entry_of_id l x : le_ShardID (entry_of l x) = x.1.
Proof. unfold entry_of. by destruct (stripes l !! x.1). Qed.

Lemma scan_entries_ok l rows : Forall (λ x, length x.1 = 32%nat) rows → scan_entries l rows = Ok (entry_of l <$> rows).
Proof.
  induction 1 as [|[id s] rows Hid _ IH]; [done|]. cbn [scan_entries fmap list_fmap]. unfold scanEntry. cbn [fst] in Hid. rewrite decide_False by (by intros []).
  cbn [mbind result_bind]. rewrite IH. unfold entry_of at 2. cbn [fst snd]. by destruct (stripes l !! id).
Qed.

Lemma concat_pages {A : Type} (n : nat) (l : list A) k : (0 < n)%nat → (length l ≤ k * n)%nat → concat ((λ i, take n (drop (i * n) l)) <$> seq 0 k) = l.
Proof.
  intros Hn. revert l. induction k as [|k IH]; intros l Hl; [by destruct l; [|simpl in Hl; lia]|].
  rewrite <-cons_seq, <-fmap_S_seq. cbn [fmap list_fmap concat]. rewrite drop_0, <-list_fmap_compose.
  rewrite <-(take_drop n l) at 2. f_equal. rewrite <-(IH (drop n l)) by (rewrite length_drop; lia). f_equal.
  apply list_fmap_ext. intros _ i _. cbn. rewrite drop_drop. done.
Qed.

(** The [i]-th page of [n] rows. *)
Definition page (f : LedgerFilter) (n : Z) (i : nat) : LedgerFilter := mkFilter (lf_Prefix f) (lf_Owner f) n (Z.of_nat i * n).

Lemma matching_elem d f l x : x ∈ matching d f l ↔ shards l !! x.1 = Some x.2 ∧ selected f l x.1.
Proof.
  unfold matching. rewrite sort_by2_perm, list_elem_of_In, filter_In, <-list_elem_of_In, clause_spec. destruct x as [id s]. by rewrite elem_of_map_to_list.
Qed.

Lemma matching_NoDup d f l : NoDup (matching d f l).*1.
Proof.
  unfold matching. rewrite sort_by2_perm. pose proof (NoDup_fst_map_to_list (shards l)) as Hnd. revert Hnd. generalize (map_to_list (shards l)) as rows.
  induction rows as [|x rows IH]; cbn [List.filter fmap list_fmap]; [done|]. intros [Hx Hr]%NoDup_cons. destruct (ledgerFilterClause _ _ _ _); [|by apply IH].
  cbn [fmap list_fmap]. constructor; [|by apply IH]. intros (y & E & [Hy _]%list_elem_of_In%filter_In)%list_elem_of_fmap. apply Hx. rewrite E.
  apply list_elem_of_fmap. exists y. split; [done|]. by apply list_elem_of_In.
Qed.

(** A page is a slice of the matching rows. *)
Lemma Entries_page d f l n i : 0 < n → (∀ id s, shards l !! id = Some s → length id = 32%nat) → Entries d (page f n i) l =
  Ok (mkEntries (take (Z.to_nat n) (drop (i * Z.to_nat n) (entry_of l <$> matching d f l))) (Z.of_nat (length (matching d f l))) n (Z.of_nat i * n)).
Proof.
  intros Hn Hid. unfold Entries. change (matching d (page f n i) l) with (matching d f l). cbn [page lf_Limit lf_Offset].
  rewrite (proj2 (Z.leb_gt n 0)) by lia. rewrite Z.max_l by lia. replace (Z.to_nat (Z.of_nat i * n)) with (i * Z.to_nat n)%nat by lia.
  rewrite scan_entries_ok; [cbn [mbind result_bind]; by rewrite fmap_take, fmap_drop|].
  apply Forall_take, Forall_drop, Forall_forall. intros x [Hx _]%matching_elem. by eapply Hid.
Qed.

Lemma matching_ids d f l : le_ShardID <$> (entry_of l <$> matching d f l) = (matching d f l).*1.
Proof. rewrite <-list_fmap_compose. apply list_fmap_ext. intros _ x _. apply entry_of_id. Qed.

Lemma matching_id_elem d f l id : id ∈ (matching d f l).*1 ↔ is_Some (shards l !! id) ∧ selected f l id.
Proof.
  rewrite list_elem_of_fmap. split.
  - intros (x & -> & [Hx Hs]%matching_elem). eauto.
  - intros [[s Hs] Hsel]. exists (id, s). split; [done|]. by apply matching_elem.
Qed.

(** [C27] Browsing shows every matching shard once. With any page size, the pages of a
    filter are consecutive slices of one list and all of them together are that
    list: it holds exactly the shards whose hexadecimal address starts with the
    prefix (in either case, and taken literally: percent signs, underscores and
    backslashes in it are no patterns) and which the given owner claims; none
    twice, newest first, with what the tables say of them; and every page gives
    its length. This holds with both databases. *)
Theorem entries_pages d f l n : 0 < n → (∀ id s, shards l !! id = Some s → length id = 32%nat) →
  ∃ all : list LedgerEntry,
    (∀ i : nat, Entries d (page f n i) l =
       Ok (mkEntries (take (Z.to_nat n) (drop (i * Z.to_nat n) all)) (Z.of_nat (length all)) n (Z.of_nat i * n))) ∧
    (∀ k : nat, (length all ≤ k * Z.to_nat n)%nat → concat ((λ i, take (Z.to_nat n) (drop (i * Z.to_nat n) all)) <$> seq 0 k) = all) ∧
    NoDup (le_ShardID <$> all) ∧
    (∀ id, id ∈ le_ShardID <$> all ↔ is_Some (shards l !! id) ∧ selected f l id) ∧
    StronglySorted (λ x y, le_Created y ≤ le_Created x) all ∧
    (∀ e, e ∈ all → ∃ s, shards l !! le_ShardID e = Some s ∧ e = entry_of l (le_ShardID e, s)).
Proof.
  intros Hn Hid. exists (entry_of l <$> matching d f l).
  pose proof (matching_ids d f l) as Eids. split_and!.
  - intros i. rewrite Entries_page by done. by rewrite length_fmap.
  - intros k Hk. apply concat_pages; [lia|done].
  - rewrite Eids. apply matching_NoDup.
  - intros id. rewrite Eids. apply matching_id_elem.
  - pose proof (sort_by2_sorted (λ x : ShardID * ShardRow, - created x.2) (λ x, bytes_key x.1)
      (List.filter (λ x, ledgerFilterClause d f l x.1) (map_to_list (shards l)))) as Hs. fold (matching d f l) in Hs.
    assert (∀ x, le_Created (entry_of l x) = created x.2) as Hc by (intros x; unfold entry_of; by destruct (stripes l !! x.1)).
    clear Eids. revert Hs. generalize (matching d f l) as rows. induction 1 as [|x rows _ IH Hx]; cbn [fmap list_fmap]; constructor; [done|]. apply Forall_fmap. eapply Forall_impl; [exact Hx|].
    intros y Hy. cbn. rewrite !Hc. unfold lex_le in Hy. lia.
  - intros e (x & -> & [Hx _]%matching_elem)%list_elem_of_fmap. rewrite entry_of_id. exists x.2. split; [done|]. by destruct x.
Qed.

(** ** Migrations *)

(** The schema of a SQLite database: columns by table; the rows of accounts, whose
    first_seen is there when the column is. *)
Record AcctRow := mkAcct { ac_used : Z; ac_count : Z; ac_first_seen : option Z }.
Record SqlDB := mkDB { user_version : Z; tables : gmap string (list string); acct_rows : gmap Owner AcctRow }.
Inductive migrate_err := MigNewer (version : Z) | MigSql (version : Z) | MigPanic | MigUnsupported (version : Z).

Definition schemaVersion : Z := 2.
Definition acct_cols : list string := ["owner"; "bytes_used"; "shard_count"].
Definition schemaV0 : gmap string (list string) := list_to_map [
  ("shards", ["id"; "size"; "created"]); ("owners", ["shard_id"; "owner"; "put_at"; "expiry"]); ("accounts", acct_cols);
  ("stripes", ["shard_id"; "k"; "m"; "siblings"; "grant"])].
Definition revoked_cols : list string := ["nonce"; "owner"; "revoked_at"].

(** CREATE TABLE IF NOT EXISTS: tables that are there stay as they are. *)
Definition create_tables (ts : gmap string (list string)) (db : SqlDB) : SqlDB := mkDB (user_version db) (tables db ∪ ts) (acct_rows db).
Definition has_first_seen (db : SqlDB) : bool := bool_decide ("first_seen" ∈ default [] (tables db !! "accounts")).
(** ALTER TABLE accounts ADD COLUMN first_seen INTEGER NOT NULL DEFAULT 0 *)
Definition add_first_seen (db : SqlDB) : SqlDB :=
  mkDB (user_version db) (alter (λ cols, cols ++ ["first_seen"]) "accounts" (tables db)) ((λ r, mkAcct (ac_used r) (ac_count r) (Some 0)) <$> acct_rows db).

(** A migration: the number of statements it runs, and what they do. *)
Definition migration1 (db : SqlDB) : nat * SqlDB :=
  let db := create_tables schemaV0 db in
  if has_first_seen db then (2%nat, db) else (3%nat, add_first_seen db).
Definition migration2 (db : SqlDB) : nat * SqlDB := (1%nat, create_tables {["revoked_grants" := revoked_cols]} db).
Definition ledgerMigrations : list (SqlDB → nat * SqlDB) := [migration1; migration2].

Section migrate.
(** Which calls to the database fail, by number. *)
Context (fails : nat → bool).

(** The loop: one transaction per version, with Begin, the statements, the new
    version and Commit; when a call fails the transaction leaves nothing. *)
Fixpoint migrate_loop (fuel call : nat) (db : SqlDB) : SqlDB * result migrate_err unit :=
  if schemaVersion <=? user_version db then (db, Ok tt)
  else match fuel with
       | O => (db, Err MigPanic)
       | S fuel =>
           match (if user_version db <? 0 then None else ledgerMigrations !! Z.to_nat (user_version db)) with
           | None => (db, Err MigPanic)
           | Some migrate =>
               let '(n, db') := migrate db in
               if existsb fails (seq call (n + 3)) then (db, Err (MigSql (user_version db)))
               else migrate_loop fuel (call + n + 3) (mkDB (user_version db + 1) (tables db') (acct_rows db'))
           end
       end.

Definition migrateSchema (db : SqlDB) : SqlDB * result migrate_err unit :=
  if fails 0 then (db, Err (MigSql (user_version db)))
  else if schemaVersion <? user_version db then (db, Err (MigNewer (user_version db)))
  else migrate_loop 2 1 db.
End migrate.

(** PostgreSQL: the version is a row of a table, and one transaction does it all. *)
Record PgDB := mkPg { pg_schema : option (list Z); pg_tables : gmap string (list string) }.
Definition schemaPostgres : gmap string (list string) :=
  <["revoked_grants" := revoked_cols]> (<["accounts" := acct_cols ++ ["first_seen"]]> schemaV0).
Definition migratePostgresSchema (fails : nat → bool) (db : PgDB) : PgDB * result migrate_err unit :=
  let rows := default [] (pg_schema db) in
  let version := default 0 (head rows) in
  if existsb fails (seq 0 3) then (db, Err (MigSql version))
  else if schemaVersion <? version then (db, Err (MigNewer version))
  else if version =? 0 then
    if existsb fails (seq 3 3) then (db, Err (MigSql version))
    else (mkPg (Some (rows ++ [schemaVersion])) (pg_tables db ∪ schemaPostgres), Ok tt)
  else if version <? schemaVersion then (db, Err (MigUnsupported version))
  else if fails 3%nat then (db, Err (MigSql version))
  else (mkPg (Some rows) (pg_tables db), Ok tt).

(** *** Databases of the releases *)

Definition schemaV1 : gmap string (list string) := <["accounts" := acct_cols ++ ["first_seen"]]> schemaV0.
Definition schemaV2 : gmap string (list string) := <["revoked_grants" := revoked_cols]> schemaV1.

(** A database some release wrote: before versions were tracked, any of the tables,
    accounts with or without first_seen; then exactly the schema of its version. *)
Record released (db : SqlDB) : Prop := {
  re_tables : (user_version db = 0 ∧ (tables db ⊆ schemaV0 ∨ tables db ⊆ schemaV1)) ∨ (user_version db = 1 ∧ tables db = schemaV1) ∨
    (user_version db = 2 ∧ tables db = schemaV2);
  re_rows : ∀ o r, acct_rows db !! o = Some r → is_Some (ac_first_seen r) ↔ has_first_seen db = true;
  re_table : tables db !! "accounts" = None → acct_rows db = ∅;
}.

(** The accounts of [db] are kept in [db'], with first_seen 0 where it was not known. *)
Definition accounts_kept (db db' : SqlDB) : Prop := ∀ o,
  match acct_rows db !! o, acct_rows db' !! o with
  | Some r, Some r' => ac_used r' = ac_used r ∧ ac_count r' = ac_count r ∧ (ac_first_seen r' = ac_first_seen r ∨ (ac_first_seen r = None ∧ ac_first_seen r' = Some 0))
  | None, None => True
  | _, _ => False
  end.

Lemma accounts_kept_refl db : accounts_kept db db.
Proof. intros o. destruct (acct_rows db !! o); auto. Qed.
Lemma accounts_kept_trans a b c : accounts_kept a b → accounts_kept b c → accounts_kept a c.
Proof.
  intros Hab Hbc o. specialize (Hab o). specialize (Hbc o). destruct (acct_rows a !! o), (acct_rows b !! o), (acct_rows c !! o); try done.
  destruct Hab as (? & ? & [?|[? ?]]), Hbc as (? & ? & [?|[? ?]]); (split_and!; [congruence|congruence|]); [left; congruence|right; split; congruence|right; split; congruence|congruence].
Qed.

Lemma schema_union ts : ts ⊆ schemaV0 ∨ ts ⊆ schemaV1 → (ts ∪ schemaV0 = schemaV0 ∧ "first_seen" ∉ default [] (ts !! "accounts")) ∨
  (ts ∪ schemaV0 = schemaV1 ∧ "first_seen" ∈ default [] (ts !! "accounts")).
Proof.
  assert ("first_seen" ∉ acct_cols) as Hno by (apply (bool_decide_unpack _); vm_compute; exact I).
  assert (∀ t cols, t ≠ "accounts" → ts !! t = Some cols → ts ⊆ schemaV1 → schemaV0 !! t = Some cols) as Hoth.
  { intros t cols Ht E Hs. eapply lookup_weaken in E; [|exact Hs]. unfold schemaV1 in E. by rewrite lookup_insert_ne in E. }
  intros [Hs|Hs].
  - left. split; [by apply map_subseteq_union|]. destruct (ts !! "accounts") as [cols|] eqn:E; [|apply not_elem_of_nil].
    eapply lookup_weaken in E; [|exact Hs]. vm_compute in E. by injection E as <-.
  - destruct (ts !! "accounts") as [cols|] eqn:E.
    + right. pose proof (lookup_weaken _ _ _ _ E Hs) as E'. unfold schemaV1 in E'. rewrite lookup_insert_eq in E'. injection E' as <-. split.
      * apply map_eq. intros t. unfold schemaV1. destruct (decide (t = "accounts")) as [->|Ht].
        { rewrite lookup_insert_eq. by apply lookup_union_Some_l. }
        rewrite lookup_insert_ne by done. destruct (ts !! t) as [c|] eqn:Et; [|by apply lookup_union_r].
        rewrite (lookup_union_Some_l _ _ _ _ Et). symmetry. by apply Hoth.
      * apply (bool_decide_unpack _). vm_compute. exact I.
    + left. split; [|apply not_elem_of_nil]. apply map_subseteq_union, map_subseteq_spec. intros t c Et. apply Hoth; [by intros ->; rewrite E in Et|done|done].
Qed.

Lemma migration1_ok db : released db → user_version db = 0 →
  let db' := mkDB 1 (tables (migration1 db).2) (acct_rows (migration1 db).2) in released db' ∧ accounts_kept db db'.
Proof.
  intros [Ht Hr Ha] Hv. destruct Ht as [[_ Ht]|[[H _]|[H _]]]; [|congruence..].
  assert (has_first_seen (mkDB 1 schemaV1 ∅) = true) as HV1 by (by vm_compute).
  unfold migration1. destruct (schema_union _ Ht) as [[E Hno]|[E Hin]].
  - assert (has_first_seen (create_tables schemaV0 db) = false) as ->.
    { unfold has_first_seen, create_tables. cbn [tables]. rewrite E. by vm_compute. }
    cbn [snd add_first_seen create_tables tables acct_rows user_version]. rewrite E.
    assert (alter (λ cols, cols ++ ["first_seen"]) "accounts" schemaV0 = schemaV1) as -> by (by vm_compute). split.
    + split; cbn [user_version tables acct_rows]; [auto| |by vm_compute].
      intros o r. rewrite lookup_fmap. destruct (acct_rows db !! o); [|done]. intros [= <-]. cbn. split; [done|]. by eexists.
    + intros o. cbn [acct_rows]. rewrite lookup_fmap. destruct (acct_rows db !! o) as [r|] eqn:Eo; [|done]. cbn. split_and!; [done|done|]. right. split; [|done].
      destruct (ac_first_seen r) eqn:Ef; [|done]. exfalso. apply Hno. apply (bool_decide_eq_true _). apply (Hr o r Eo). rewrite Ef. by eexists.
  - assert (has_first_seen (create_tables schemaV0 db) = true) as ->.
    { unfold has_first_seen, create_tables. cbn [tables]. rewrite E. by vm_compute. }
    cbn [snd create_tables tables acct_rows]. rewrite E. split; [|exact (accounts_kept_refl db)].
    split; cbn [user_version tables acct_rows]; [auto| |by vm_compute]. intros o r Eo. rewrite (Hr o r Eo). split; [done|]. intros _. by apply bool_decide_eq_true.
Qed.

Lemma migration2_ok db : released db → user_version db = 1 →
  let db' := mkDB 2 (tables (migration2 db).2) (acct_rows (migration2 db).2) in released db' ∧ accounts_kept db db'.
Proof.
  intros [Ht Hr Ha] Hv. destruct Ht as [[H _]|[[_ Ht]|[H _]]]; [congruence| |congruence]. split; [|exact (accounts_kept_refl db)].
  assert (schemaV1 ∪ {["revoked_grants" := revoked_cols]} = schemaV2) as E by (by vm_compute).
  unfold has_first_seen in Hr. split; unfold has_first_seen; cbn [migration2 snd create_tables user_version tables acct_rows]; rewrite Ht, E; [auto| |by vm_compute].
  intros o r Eo. rewrite (Hr o r Eo), Ht. by vm_compute.
Qed.

(** [C28] Opening migrates safely. Starting from a database of any release, whichever
    calls to the database fail and wherever the program stops, what is left is
    again a database of some release, with every account and its usage kept (an
    account of unknown age gets the full quota), so opening can be tried again. If
    opening succeeds the schema is the current one, and it succeeds when no call
    fails. A database of a newer release is refused and not touched. *)
Theorem migrate_correct fails db : released db ∨ schemaVersion < user_version db →
  let '(db', r) := migrateSchema fails db in
  (schemaVersion < user_version db → db' = db ∧ (fails 0%nat = false → r = Err (MigNewer (user_version db)))) ∧
  (released db → released db' ∧ accounts_kept db db' ∧
     (r = Ok tt → user_version db' = schemaVersion ∧ tables db' = schemaV2) ∧ ((∀ i, fails i = false) → r = Ok tt)).
Proof.
  intros H0. unfold migrateSchema. destruct (fails 0%nat) eqn:E0.
  { split; [done|]. intros Hr. split_and!; [done|apply accounts_kept_refl|done|]. intros Hf. by rewrite Hf in E0. }
  destruct (Z.ltb_spec schemaVersion (user_version db)) as [Hn|Hn].
  { split; [done|]. intros [[[Hv _]|[[Hv _]|[Hv _]]] _ _]; unfold schemaVersion in Hn; lia. }
  assert (∀ fuel call db, released db → (Z.to_nat (2 - user_version db) ≤ fuel)%nat →
    let '(db', r) := migrate_loop fails fuel call db in released db' ∧ accounts_kept db db' ∧
      (r = Ok tt → user_version db' = schemaVersion ∧ tables db' = schemaV2) ∧ ((∀ i, fails i = false) → r = Ok tt)) as Hloop.
  { clear. induction fuel as [|fuel IH]; intros call db Hr Hfu; cbn [migrate_loop]; (destruct (Z.leb_spec schemaVersion (user_version db)) as [Hle|Hlt];
      [split_and!; [done|apply accounts_kept_refl| |done]; intros _; destruct Hr as [[[Hv _]|[[Hv _]|[Hv Ht]]] _ _]; unfold schemaVersion in *; [lia|lia|done]|]).
    { unfold schemaVersion in Hlt. lia. }
    assert (user_version db = 0 ∨ user_version db = 1) as Hv.
    { destruct Hr as [[[Hv _]|[[Hv _]|[Hv Ht]]] _ _]; unfold schemaVersion in *; [auto|auto|lia]. }
    assert (∃ mig, (if user_version db <? 0 then None else ledgerMigrations !! Z.to_nat (user_version db)) = Some mig ∧
      let db' := mkDB (user_version db + 1) (tables (mig db).2) (acct_rows (mig db).2) in released db' ∧ accounts_kept db db') as (mig & -> & Hm & Hk).
    { destruct Hv as [Hv|Hv]; rewrite Hv; [exists migration1|exists migration2]; (split; [done|]); [by apply migration1_ok|by apply migration2_ok]. }
    destruct (mig db) as [n db1]. cbn [snd] in Hm, Hk. destruct (existsb _ _) eqn:Ef.
    { split_and!; [done|apply accounts_kept_refl|done|]. intros Hf. apply existsb_exists in Ef as (x & _ & Hx). by rewrite Hf in Hx. }
    specialize (IH (call + n + 3)%nat _ Hm). cbn [user_version] in IH. specialize (IH ltac:(lia)).
    destruct (migrate_loop _ _ _ _) as [db2 r2]. destruct IH as (H1 & H2 & H3 & H4). split_and!; [done|by eapply accounts_kept_trans|done|done]. }
  destruct H0 as [Hr|?]; [|lia]. specialize (Hloop 2%nat 1%nat db Hr). destruct (migrate_loop _ _ _ _) as [db' r]. split; [lia|]. intros _.
  apply Hloop. destruct Hr as [[[Hv _]|[[Hv _]|[Hv _]]] _ _]; lia.
Qed.

(** ** Placeholders *)

(** A query as text with a placeholder after every part but the last; numbered. *)
Fixpoint queried (parts : list bytes) : bytes :=
  match parts with [] => [] | [p] => p | p :: parts => p ++ chr "?" :: queried parts end.
Fixpoint numbered (n : N) (parts : list bytes) : bytes :=
  match parts with [] => [] | [p] => p | p :: parts => p ++ chr "$" :: text (pretty n) ++ numbered (n + 1) parts end.

Lemma bind_text n p q : chr "?" ∉ p → bind_from n (p ++ q) = p ++ bind_from n q.
Proof.
  induction p as [|c p IH]; [done|]. intros [Hc Hp]%not_elem_of_cons. cbn [app bind_from]. rewrite decide_False by (intros ->; by apply Hc). by rewrite IH.
Qed.

(** The placeholders of a query are numbered from 1 in their order and the text
    between them stays, when no part of it holds a question mark. *)
Lemma bindPostgres_numbers parts : Forall (λ p, chr "?" ∉ p) parts → bindPostgres (queried parts) = numbered 1 parts.
Proof.
  unfold bindPostgres. generalize 1%N as n. intros n H. revert n. induction H as [|p parts Hp _ IH]; intros n; [done|].
  destruct parts as [|q parts].
  - cbn [queried numbered]. rewrite <-(app_nil_r p) at 1. rewrite bind_text by done. cbn [bind_from]. by rewrite app_nil_r.
  - change (queried (p :: q :: parts)) with (p ++ chr "?" :: queried (q :: parts)). rewrite bind_text by done. cbn [bind_from]. rewrite decide_True by done.
    by rewrite IH.
Qed.

(** ** Witnesses *)

Definition ex_row_id : ShardID := replicate 32 Byte.xab.
Definition ex_ledger : Ledger :=
  mkLedger (<[ex_row_id := mkShard 9 100]> (<[replicate 32 Byte.x5f := mkShard 7 50]> ∅)) (<[(ex_row_id, [Byte.x01]) := mkOwner 100 0]> ∅) ∅ ∅ ∅.

Lemma ex_ledger_ids id s : shards ex_ledger !! id = Some s → length id = 32%nat.
Proof. cbn [ex_ledger shards]. intros [[<- _]|[_ [[<- _]|[_ ?]]%lookup_insert_Some]]%lookup_insert_Some; [reflexivity|reflexivity|done]. Qed.

(** "aB" finds the shard ab..., "_" finds nothing. *)
Lemma entries_pages_witness : ∃ all, Entries SQLite (page (mkFilter (text "aB") [] 0 0) 1 0) ex_ledger = Ok (mkEntries (take 1 all) (Z.of_nat (length all)) 1 0) ∧
  ex_row_id ∈ le_ShardID <$> all.
Proof.
  destruct (entries_pages SQLite (mkFilter (text "aB") [] 0 0) ex_ledger 1 ltac:(reflexivity) ex_ledger_ids) as (all & Hp & _ & _ & Hin & _).
  exists all. split; [exact (Hp 0%nat)|]. apply Hin. split; [by eexists|]. split; [|by left]. apply (bool_decide_unpack _). vm_compute. exact I.
Defined.

(** A database from before versions were tracked, and a failing Commit. *)
Definition ex_db : SqlDB := mkDB 0 schemaV0 (<[[Byte.x01] := mkAcct 9 1 None]> ∅).

Lemma ex_released : released ex_db.
Proof.
  split; [left; split; [reflexivity|left; reflexivity]| |done].
  intros o r. cbn [ex_db acct_rows]. intros [[_ <-]|[_ ?]]%lookup_insert_Some; [|done]. cbn. split; [by intros [? ?]|]. vm_compute. discriminate.
Qed.

Lemma migrate_correct_witness :
  (migrateSchema (λ i, bool_decide (i = 10%nat)) ex_db).1 = mkDB 1 schemaV1 (<[[Byte.x01] := mkAcct 9 1 (Some 0)]> ∅) ∧
  released (migrateSchema (λ i, bool_decide (i = 10%nat)) ex_db).1 ∧ (migrateSchema (λ _, false) ex_db).2 = Ok tt.
Proof.
  split; [vm_compute; reflexivity|]. split.
  - pose proof (migrate_correct (λ i, bool_decide (i = 10%nat)) ex_db (or_introl ex_released)) as H. destruct (migrateSchema _ ex_db) as [db' r].
    destruct H as [_ H]. exact (proj1 (H ex_released)).
  - pose proof (migrate_correct (λ _, false) ex_db (or_introl ex_released)) as H. destruct (migrateSchema _ ex_db) as [db' r].
    destruct H as [_ H]. exact (proj2 (proj2 (proj2 (H ex_released))) (λ _, eq_refl)).
Defined.
