(* ===== verification/Admin.v ===== *)
(** * The node's dashboard: internal/net/admin_page.go, internal/geoip, internal/net/gcstats.go

    What the /admin page shows: the peers and this node with an estimated position,
    and the ledger a page at a time. The position may come from a web service, so
    the model keeps the list of requests that leave the machine. HTML and the
    syntax of query strings are left out: a link is the filter and the offset it
    carries. *)

From S2P Require Import Prelude GoLib Store Crypto Stripe Ledger Codec Base64 Defense Browse.

(** ** net/netip *)

(** An address of 4 or 16 bytes; [AInvalid] is the zero value. *)
Inductive Addr := AInvalid | A4 (b : bytes) | A6 (b : bytes) (zone : string).
#[export] Instance Addr_eq_dec : EqDecision Addr.
Proof. solve_decision. Defined.
#[export] Instance Addr_countable : Countable Addr.
Proof.
  refine (inj_countable' (λ a, match a with AInvalid => inl () | A4 b => inr (inl b) | A6 b z => inr (inr (b, z)) end)
    (λ x, match x with inl _ => AInvalid | inr (inl b) => A4 b | inr (inr (b, z)) => A6 b z end) _). by intros [].
Defined.

Definition octet (b : bytes) (i : nat) : Z := default 0 (b2Z <$> b !! i).
Definition u16 (b : bytes) : Z := octet b 0 * 256 + octet b 1.
Definition IsValid (a : Addr) : bool := match a with AInvalid => false | _ => true end.
Definition Is4In6 (b : bytes) : bool := bool_decide (take 12 b = replicate 10 Byte.x00 ++ [Byte.xff; Byte.xff]).
Definition Unmap (a : Addr) : Addr := match a with A6 b _ => if Is4In6 b then A4 (drop 12 b) else a | _ => a end.

(** A predicate that looks through the IPv4-mapped form. *)
Definition on_addr (p4 p6 : bytes → bool) (a : Addr) : bool := match Unmap a with AInvalid => false | A4 b => p4 b | A6 b _ => p6 b end.
Definition IsLoopback : Addr → bool := on_addr (λ b, octet b 0 =? 127) (λ b, bool_decide (b = replicate 15 Byte.x00 ++ [Byte.x01])).
Definition IsPrivate : Addr → bool :=
  on_addr (λ b, (octet b 0 =? 10) || ((octet b 0 =? 172) && (Z.land (octet b 1) 240 =? 16)) || ((octet b 0 =? 192) && (octet b 1 =? 168)))
    (λ b, Z.land (octet b 0) 254 =? 252).
Definition IsLinkLocalUnicast : Addr → bool := on_addr (λ b, (octet b 0 =? 169) && (octet b 1 =? 254)) (λ b, Z.land (u16 b) 65472 =? 65152).
Definition IsLinkLocalMulticast : Addr → bool :=
  on_addr (λ b, (octet b 0 =? 224) && (octet b 1 =? 0) && (octet b 2 =? 0)) (λ b, Z.land (u16 b) 65295 =? 65282).
Definition IsInterfaceLocalMulticast : Addr → bool := on_addr (λ _, false) (λ b, Z.land (u16 b) 65295 =? 65281).
Definition IsMulticast : Addr → bool := on_addr (λ b, Z.land (octet b 0) 240 =? 224) (λ b, octet b 0 =? 255).
Definition IsUnspecified (a : Addr) : bool := bool_decide (a = A4 (replicate 4 Byte.x00) ∨ a = A6 (replicate 16 Byte.x00) "").

(** ** internal/geoip *)

Definition IsGlobal (ip : Addr) : bool :=
  if negb (IsValid ip) then false
  else negb (IsLoopback ip || IsPrivate ip || IsLinkLocalUnicast ip || IsLinkLocalMulticast ip || IsInterfaceLocalMulticast ip || IsMulticast ip || IsUnspecified ip).

Record Location := mkLoc { lo_Lat : F64.t; lo_Lon : F64.t; lo_City : string; lo_Country : string; lo_CountryCode : string }.
Definition zeroLoc : Location := mkLoc (F64.of_Z 0) (F64.of_Z 0) "" "" "".

(** The answer of the service. *)
Record geoBody := mkBody { gb_status : string; gb_country : string; gb_countryCode : string; gb_city : string; gb_lat : F64.t; gb_lon : F64.t }.

Record cacheEntry := mkCache { ce_loc : Location; ce_ok : bool; ce_at : Z }.
Record IPAPILocator := mkLocator { lc_cache : gmap Addr cacheEntry; lc_self : option cacheEntry }.
Definition NewIPAPILocator : IPAPILocator := mkLocator ∅ None.

(** The URLs the locator asks for: one address, or the caller's own. *)
Inductive request := AskIP (ip : Addr) | AskSelf.

(** The requests sent so far, and the readings of the clock. *)
Record Web := mkWeb { wb_sent : list request; wb_ticks : nat }.

Definition ipAPISuccessTTL : Z := 60 * Minute.
Definition ipAPIFailureTTL : Z := 5 * Minute.
Definition entry_ttl (e : cacheEntry) : Z := if ce_ok e then ipAPISuccessTTL else ipAPIFailureTTL.

Section geoip.
Context `{Hgj : Json geoBody} (clock : nat → Z).
(** The service: status and body, or a failed exchange. It may depend on the past. *)
Context (http : list request → request → option (Z * bytes)).

Definition read_clock (w : Web) : Web * Z := (mkWeb (wb_sent w) (S (wb_ticks w)), clock (wb_ticks w)).

Definition fetchURL (q : request) (w : Web) : Web * (Location * bool) :=
  (mkWeb (wb_sent w ++ [q]) (wb_ticks w),
   match http (wb_sent w) q with
   | None => (zeroLoc, false)
   | Some (status, body) =>
       if negb (status =? 200) then (zeroLoc, false)
       else match Unmarshal body with
            | None => (zeroLoc, false)
            | Some b => if decide (gb_status b = "success") then (mkLoc (gb_lat b) (gb_lon b) (gb_city b) (gb_country b) (gb_countryCode b), true) else (zeroLoc, false)
            end
   end).

(** The entry of a cache that is still valid, if any. *)
Definition fresh_entry (e : option cacheEntry) (w : Web) : Web * option (Location * bool) :=
  match e with
  | None => (w, None)
  | Some e => let '(w, now) := read_clock w in (w, if entry_ttl e <=? Sub now (ce_at e) then None else Some (ce_loc e, ce_ok e))
  end.
Definition cached (ip : Addr) (l : IPAPILocator) (w : Web) : Web * option (Location * bool) := fresh_entry (lc_cache l !! ip) w.

Definition Locate (ip : Addr) (l : IPAPILocator) (w : Web) : IPAPILocator * Web * (Location * bool) :=
  if negb (IsGlobal ip) then (l, w, (zeroLoc, false))
  else
    let '(w, c) := cached ip l w in
    match c with
    | Some r => (l, w, r)
    | None =>
        let '(w, (loc, ok)) := fetchURL (AskIP ip) w in
        let '(w, now) := read_clock w in
        (mkLocator (<[ip := mkCache loc ok now]> (lc_cache l)) (lc_self l), w, (loc, ok))
    end.

Definition LocateSelf (l : IPAPILocator) (w : Web) : IPAPILocator * Web * (Location * bool) :=
  let '(w, c) := fresh_entry (lc_self l) w in
  match c with
  | Some r => (l, w, r)
  | None =>
      let '(w, (loc, ok)) := fetchURL AskSelf w in
      let '(w, now) := read_clock w in
      (mkLocator (lc_cache l) (Some (mkCache loc ok now)), w, (loc, ok))
  end.

(** ** admin_page.go: the map *)

(** The geolocator of the node: none, the web service, or an offline database, which
    is given by what it decodes for an address. *)
Inductive geolocator := GeoOff | GeoAPI | GeoDB (db : Addr → option Location).

(** [geolocator] of revika-node, from the -geoip mode; [open] is OpenMMDB. *)
Definition pick_geolocator (open : string → option (Addr → option Location)) (mode : string) : geolocator :=
  if decide (mode = "" ∨ mode = "off") then GeoOff
  else if decide (mode = "ip-api") then GeoAPI
  else match open mode with Some db => GeoDB db | None => GeoOff end.

(** [MMDBLocator.Locate]: a record at (0,0) has no position. *)
Definition locate_db (db : Addr → option Location) (ip : Addr) : Location * bool :=
  if negb (IsGlobal ip) then (zeroLoc, false)
  else match db ip with
       | None => (zeroLoc, false)
       | Some r => if SpecFloat.SFeqb (lo_Lat r) (F64.of_Z 0) && SpecFloat.SFeqb (lo_Lon r) (F64.of_Z 0) then (zeroLoc, false) else (r, true)
       end.
Definition geo_Locate (g : geolocator) (ip : Addr) (l : IPAPILocator) (w : Web) : IPAPILocator * Web * (Location * bool) :=
  match g with
  | GeoOff => (l, w, (zeroLoc, false))
  | GeoAPI => Locate ip l w
  | GeoDB db => (l, w, locate_db db ip)
  end.

Record NodeGeo := mkNodeGeo {
  ng_ID : string; ng_Direction : string; ng_Self : bool; ng_Addrs : list string; ng_IP : Addr; ng_Scope : string; ng_Located : bool; ng_Location : Location }.

(** [ng_IP] is the address whose text is shown; [AInvalid] is the empty text. *)
Definition placeIP (g : geolocator) (chosen : Addr) (ng : NodeGeo) (l : IPAPILocator) (w : Web) : IPAPILocator * Web * NodeGeo :=
  if negb (IsValid chosen) then (l, w, ng)
  else
    let put scope located loc := mkNodeGeo (ng_ID ng) (ng_Direction ng) (ng_Self ng) (ng_Addrs ng) chosen scope located loc in
    if negb (IsGlobal chosen) then (l, w, put "local" (ng_Located ng) (ng_Location ng))
    else
      let '(l, w, (loc, ok)) := geo_Locate g chosen l w in
      (l, w, if ok then put "global" true loc else put "global" (ng_Located ng) (ng_Location ng)).

(** The address to place a node by: the first, unless a later one is the first
    global one. An address that is no IP is skipped. *)
Definition prefer (chosen addr : Addr) : Addr := if negb (IsValid chosen) || (negb (IsGlobal chosen) && IsGlobal addr) then addr else chosen.
Definition choose (start : Addr) (addrs : list (option Addr)) : Addr := foldl (λ c a, match a with None => c | Some a => prefer c (Unmap a) end) start addrs.

(** A connection: the text of the remote address, its IP, the direction. *)
Record Conn := mkConn { cx_text : string; cx_ip : option Addr; cx_direction : string }.

Definition selfGeo (g : geolocator) (id : string) (publicIP : Addr) (addrs : list (string * option Addr)) (l : IPAPILocator) (w : Web) : IPAPILocator * Web * NodeGeo :=
  let chosen := choose (if IsGlobal publicIP then publicIP else AInvalid) addrs.*2 in
  let '(l, w, ng) := placeIP g chosen (mkNodeGeo id "self" true addrs.*1 AInvalid "unknown" false zeroLoc) l w in
  match g with
  | GeoAPI =>
      if IsGlobal chosen then (l, w, ng)
      else
        let '(l, w, (loc, located)) := LocateSelf l w in
        (l, w, if located then mkNodeGeo (ng_ID ng) (ng_Direction ng) (ng_Self ng) (ng_Addrs ng) AInvalid "global" true loc else ng)
  | _ => (l, w, ng)
  end.

Definition peer_geo (g : geolocator) (pid : string) (conns : list Conn) (l : IPAPILocator) (w : Web) : IPAPILocator * Web * NodeGeo :=
  placeIP g (choose AInvalid (cx_ip <$> conns))
    (mkNodeGeo pid (default "unknown" (last (cx_direction <$> conns))) false (cx_text <$> conns) AInvalid "unknown" false zeroLoc) l w.

(** The loop of [nodeGeos]. *)
Fixpoint peer_geos (g : geolocator) (peers : list (string * list Conn)) (l : IPAPILocator) (w : Web) : IPAPILocator * Web * list NodeGeo :=
  match peers with
  | [] => (l, w, [])
  | (pid, conns) :: peers =>
      let '(l, w, ng) := peer_geo g pid conns l w in
      let '(l, w, out) := peer_geos g peers l w in (l, w, ng :: out)
  end.
Definition nodeGeos (g : geolocator) (peers : list (string * list Conn)) (l : IPAPILocator) (w : Web) : IPAPILocator * Web * list NodeGeo :=
  let '(l, w, out) := peer_geos g peers l w in (l, w, sort_by ng_ID out).

(** The nodes of the page: the peers are placed first, this node is shown first. *)
Definition admin_nodes (g : geolocator) (id : string) (publicIP : Addr) (addrs : list (string * option Addr)) (peers : list (string * list Conn))
    (l : IPAPILocator) (w : Web) : IPAPILocator * Web * list NodeGeo :=
  let '(l, w, out) := nodeGeos g peers l w in
  let '(l, w, self) := selfGeo g id publicIP addrs l w in (l, w, self :: out).
End geoip.

(** ** What leaves the machine *)

Section privacy.
Context `{Hgj : Json geoBody} (clock : nat → Z) (http : list request → request → option (Z * bytes)).
Implicit Types (g : geolocator) (l : IPAPILocator) (w : Web) (ip : Addr) (sent : list request).

(** The cache has an answer for [ip] that was stored under this clock. *)
Definition timed l ip : Prop := ∃ e k, lc_cache l !! ip = Some e ∧ ce_at e = clock k.
(** The page is made within the life of a cached answer. *)
Definition quick : Prop := ∀ i j, Sub (clock i) (clock j) < ipAPIFailureTTL.

(** A step that sends [sent]: only global addresses, only for the web service, and,
    on a page that is made quickly, none that was asked before. *)
Record asks g sent l w l' w' : Prop := {
  as_sent : wb_sent w' = wb_sent w ++ sent;
  as_global : Forall (λ q, ∃ ip, q = AskIP ip ∧ IsGlobal ip = true) sent;
  as_off : g ≠ GeoAPI → sent = [];
  as_self : lc_self l' = lc_self l;
  as_once : quick → NoDup sent ∧ (∀ ip, AskIP ip ∈ sent → timed l' ip) ∧ (∀ ip, timed l ip → timed l' ip ∧ AskIP ip ∉ sent);
}.

Lemma asks_none g l w w' : wb_sent w' = wb_sent w → asks g [] l w l w'.
Proof. intros E. split; [by rewrite app_nil_r|done|done|done|]. intros _. split_and!; [constructor|by intros ip ?%elem_of_nil|]. intros ip H. split; [done|by apply not_elem_of_nil]. Qed.

Lemma asks_app g s1 s2 l w l1 w1 l2 w2 : asks g s1 l w l1 w1 → asks g s2 l1 w1 l2 w2 → asks g (s1 ++ s2) l w l2 w2.
Proof.
  intros [A1 A2 A3 A4 A5] [B1 B2 B3 B4 B5]. split.
  - by rewrite B1, A1, app_assoc.
  - by apply Forall_app.
  - intros Hg. by rewrite A3, B3.
  - congruence.
  - intros Hq. destruct (A5 Hq) as (N1 & T1 & K1), (B5 Hq) as (N2 & T2 & K2). split_and!.
    + apply NoDup_app. split_and!; [done| |done]. intros q H1 H2. rewrite Forall_forall in A2. destruct (A2 q H1) as (ip & -> & _). by apply (K2 ip (T1 ip H1)).
    + intros ip [H|H]%elem_of_app; [by apply K2, T1|by apply T2].
    + intros ip H. destruct (K1 ip H) as [H1 N]. destruct (K2 ip H1) as [H2 N']. split; [done|]. by intros [?|?]%elem_of_app.
Qed.

Lemma fresh_timed e k w : quick → ce_at e = clock k → ∃ w' r, fresh_entry clock (Some e) w = (w', Some r).
Proof.
  intros Hq He. unfold fresh_entry, read_clock. specialize (Hq (wb_ticks w) k). rewrite He.
  rewrite (proj2 (Z.leb_gt _ _)); [by eauto|]. unfold entry_ttl, ipAPISuccessTTL, ipAPIFailureTTL, Minute, Second in *. destruct (ce_ok e); lia.
Qed.

Lemma fresh_entry_sent e w w' c : fresh_entry clock e w = (w', c) → wb_sent w' = wb_sent w.
Proof. unfold fresh_entry, read_clock. destruct e; by intros [= <- _]. Qed.

Lemma Locate_asks ip l w l' w' r : Locate clock http ip l w = (l', w', r) → ∃ sent, asks GeoAPI sent l w l' w'.
Proof.
  unfold Locate. destruct (IsGlobal ip) eqn:Hg; cbn [negb]; [|intros [= <- <- _]; exists []; by apply asks_none]. destruct (cached clock ip l w) as [w1 c] eqn:Ec.
  unfold cached in Ec. pose proof (fresh_entry_sent _ _ _ _ Ec) as Hs. destruct c as [r'|]; [intros [= <- <- _]; exists []; by apply asks_none|].
  destruct (fetchURL http (AskIP ip) w1) as [w2 [loc ok]] eqn:Ef. unfold read_clock. intros [= <- <- _]. exists [AskIP ip]. injection Ef as <- _. cbn [wb_sent wb_ticks]. split; cbn [wb_sent lc_cache lc_self]; try done.
  - by rewrite Hs.
  - apply Forall_singleton. by exists ip.
  - intros Hq. split_and!; [apply NoDup_singleton| |].
    + intros ip' [= ->]%list_elem_of_singleton. eexists _, _. cbn [lc_cache]. rewrite lookup_insert_eq. done.
    + intros ip' (e & k & He & Hk). assert (ip' ≠ ip) as Hne.
      { intros ->. rewrite He in Ec. destruct (fresh_timed e k w Hq Hk) as (? & ? & E). congruence. }
      split; [|by intros [= ->]%list_elem_of_singleton]. exists e, k. cbn [lc_cache]. by rewrite lookup_insert_ne.
Qed.

Lemma geo_Locate_asks g ip l w l' w' r : geo_Locate clock http g ip l w = (l', w', r) → ∃ sent, asks g sent l w l' w'.
Proof. destruct g as [| |db]; cbn [geo_Locate]; [intros [= <- <- _]; exists []; by apply asks_none|apply Locate_asks|intros [= <- <- _]; exists []; by apply asks_none]. Qed.

(** A position is shown for a public address, or, for this node behind a NAT, for
    the address the service saw. *)
Definition honest (n : NodeGeo) : Prop := ng_Located n = true → (IsGlobal (ng_IP n) = true ∧ ng_Scope n = "global") ∨ (ng_Self n = true ∧ ng_IP n = AInvalid).

Lemma placeIP_asks g chosen ng l w l' w' n : ng_Located ng = false → placeIP clock http g chosen ng l w = (l', w', n) →
  ∃ sent, asks g sent l w l' w' ∧ honest n ∧ ng_Self n = ng_Self ng ∧ ng_ID n = ng_ID ng ∧ (IsGlobal chosen = true → ng_IP n = chosen ∧ ng_Scope n = "global").
Proof.
  intros Hl. unfold placeIP. destruct (IsValid chosen) eqn:Hv; cbn [negb].
  2:{ intros [= <- <- <-]. exists []. split_and!; [by apply asks_none|by intros ?; congruence|done|done|]. destruct chosen; by cbn. }
  destruct (IsGlobal chosen) eqn:Hg; cbn [negb].
  2:{ intros [= <- <- <-]. exists []. split_and!; [by apply asks_none| |done|done|done]. intros H. cbn in H. congruence. }
  destruct (geo_Locate clock http g chosen l w) as [[l1 w1] [loc ok]] eqn:E. apply geo_Locate_asks in E as [sent Hs]. intros [= <- <- <-]. exists sent.
  split_and!; [done| |by destruct ok..|by destruct ok]. destruct ok; [intros _; by left|]. intros H. cbn in H. congruence.
Qed.

Lemma peer_geos_asks g peers : ∀ l w l' w' out, peer_geos clock http g peers l w = (l', w', out) → ∃ sent, asks g sent l w l' w' ∧ Forall honest out ∧ Forall (λ n, ng_Self n = false) out ∧
  Forall2 (λ p n, ng_ID n = p.1 ∧ (IsGlobal (choose AInvalid (cx_ip <$> p.2)) = true → ng_IP n = choose AInvalid (cx_ip <$> p.2) ∧ ng_Scope n = "global")) peers out.
Proof.
  induction peers as [|[pid conns] peers IH]; intros l w l' w' out; cbn [peer_geos]; [intros [= <- <- <-]; exists []; split_and!; [by apply asks_none|constructor..]|].
  destruct (peer_geo clock http g pid conns l w) as [[l1 w1] n] eqn:E1. unfold peer_geo in E1. apply placeIP_asks in E1 as (s1 & A1 & H1 & S1 & I1 & C1); [|done].
  destruct (peer_geos clock http g peers l1 w1) as [[l2 w2] out'] eqn:E2. apply IH in E2 as (s2 & A2 & H2 & S2 & F2). intros [= <- <- <-].
  exists (s1 ++ s2). split_and!; [by eapply asks_app|by constructor..|]. by constructor.
Qed.

(** The address a node is placed by is public when one of its addresses is. *)
Lemma choose_keeps addrs : ∀ c, IsGlobal c = true → choose c addrs = c.
Proof.
  induction addrs as [|[a|] addrs IH]; intros c Hc; [done| |by apply IH]. cbn [choose foldl]. unfold prefer at 2. rewrite Hc.
  assert (IsValid c = true) as -> by (by destruct c). cbn [negb orb andb]. by apply IH.
Qed.
Lemma choose_global addrs : ∀ c, (∃ a, Some a ∈ addrs ∧ IsGlobal (Unmap a) = true) → IsGlobal (choose c addrs) = true.
Proof.
  induction addrs as [|o addrs IH]; intros c (a & Ha & Hg); [by apply elem_of_nil in Ha|]. cbn [choose foldl]. apply elem_of_cons in Ha as [<-|Ha]; [|apply IH; by exists a].
  unfold prefer. destruct (IsValid c) eqn:Hv; cbn [negb orb].
  - destruct (IsGlobal c) eqn:Hc; cbn [negb andb]; [|rewrite Hg]; fold (choose c addrs); fold (choose (Unmap a) addrs); by rewrite choose_keeps.
  - fold (choose (Unmap a) addrs). by rewrite choose_keeps.
Qed.

Lemma fresh_self_sent l w l' w' r : LocateSelf clock http l w = (l', w', r) → ∃ sent, wb_sent w' = wb_sent w ++ sent ∧ (sent = [] ∨ sent = [AskSelf]).
Proof.
  unfold LocateSelf. destruct (fresh_entry clock (lc_self l) w) as [w1 c] eqn:Ec. apply fresh_entry_sent in Ec. destruct c as [r'|].
  - intros [= <- <- _]. exists []. rewrite app_nil_r. by auto.
  - destruct (fetchURL http AskSelf w1) as [w2 [loc ok]] eqn:Ef. injection Ef as <- _. intros [= <- <- _]. exists [AskSelf]. cbn [wb_sent]. rewrite Ec. by auto.
Qed.

End privacy.

(** ** admin_page.go: the ledger browser *)

(** base64.RawStdEncoding: no padding. *)
Definition RawDecode (s : bytes) : option bytes :=
  let cs := List.filter (λ c, negb (B64.is_newline c)) (Ascii.ascii_of_byte <$> s) in
  if existsb (λ c, bool_decide (c = B64.pad)) cs then None
  else B64.decode (cs ++ replicate (Z.to_nat (- Z.of_nat (length cs) mod 4)) B64.pad).
Definition RawEncode (b : bytes) : bytes := Ascii.byte_of_ascii <$> List.filter (λ c, negb (bool_decide (c = B64.pad))) (B64.encode b).

Definition ledgerPageSize : Z := 100.
Record ledgerRow := mkRow { lr_ShardID : string; lr_Size : Z; lr_Created : Z; lr_Owners : Z; lr_HasStripe : bool; lr_K : Z; lr_M : Z; lr_Siblings : Z }.
(** The links carry the filter, which is the one of the page, and an offset. *)
Record ledgerView := mkView {
  lv_Rows : list ledgerRow; lv_Total : Z; lv_Shown : Z; lv_Offset : Z; lv_OwnerErr : bool; lv_Filtered : bool; lv_Prev : option Z; lv_Next : option Z }.

Definition row_of (e : LedgerEntry) : ledgerRow :=
  mkRow (Hex.EncodeToString (le_ShardID e)) (le_Size e) (le_Created e) (le_OwnerCount e) (le_HasStripe e) (le_K e) (le_M e) (le_Siblings e).

(** The owner filter of a query, and whether it was ill-formed. *)
Definition owner_filter (ownerQuery : bytes) : bytes * bool :=
  if decide (ownerQuery = []) then ([], false) else match RawDecode ownerQuery with Some owner => (owner, false) | None => ([], true) end.

Definition ledgerInfo (d : driver) (l : Ledger) (shardQuery ownerQuery : bytes) (offset : Z) : result ledger_err ledgerView :=
  let '(owner, bad) := owner_filter ownerQuery in
  res ← Entries d (mkFilter shardQuery owner ledgerPageSize offset) l;
  let rows := row_of <$> er_Entries res in
  let shown := Z.of_nat (length rows) in
  Ok (mkView rows (er_Total res) shown offset bad (negb (bool_decide (shardQuery = [])) || negb (bool_decide (ownerQuery = [])))
    (if 0 <? offset then Some (Z.max (offset - ledgerPageSize) 0) else None)
    (if i64 (offset + shown) <? er_Total res then Some (i64 (offset + ledgerPageSize)) else None)).

(** The offset of a request, from the parameter as strconv.Atoi reads it ([None]: it
    is missing or no int), snapped down to a page. *)
Definition admin_offset (loffset : option Z) : Z :=
  match loffset with Some n => if 0 <? n then Z.quot n ledgerPageSize * ledgerPageSize else 0 | None => 0 end.
Definition admin_ledger (d : driver) (l : Ledger) (lshard lowner : bytes) (loffset : option Z) : result ledger_err ledgerView :=
  ledgerInfo d l (TrimSpace lshard) (TrimSpace lowner) (admin_offset loffset).

(** Following the link to the next page until there is none: the rows seen, [None] when
    a page fails or [fuel] pages were not enough. *)
Fixpoint follow (fuel : nat) (d : driver) (l : Ledger) (lshard lowner : bytes) (loffset : option Z) : option (list ledgerRow) :=
  match fuel with
  | O => None
  | S fuel =>
      match admin_ledger d l lshard lowner loffset with
      | Err _ => None
      | Ok v => match lv_Next v with None => Some (lv_Rows v) | Some o => (λ rest, lv_Rows v ++ rest) <$> follow fuel d l lshard lowner (Some o) end
      end
  end.

(** *** Owners as they are shown *)

Lemma encode_raw b : ∃ cs, List.filter (λ c, negb (bool_decide (c = B64.pad))) (B64.encode b) = cs ∧ existsb (λ c, bool_decide (c = B64.pad)) cs = false ∧
  List.filter (λ c, negb (B64.is_newline c)) cs = cs ∧ B64.encode b = cs ++ replicate (Z.to_nat (- Z.of_nat (length cs) mod 4)) B64.pad.
Proof.
  induction b as [|x|x y|x y z b (cs & E1 & E2 & E3 & E4)] using B64.bytes_ind3; [by exists []|..]; cbn [B64.encode].
  - destruct (B64.bounds x x x) as (H1 & _ & H2 & _). destruct (B64.value_digit _ H1) as (_ & P1 & N1), (B64.value_digit _ H2) as (_ & P2 & N2).
    eexists. cbn [List.filter]. rewrite !(bool_decide_false (B64.digit _ = _)) by done. rewrite bool_decide_true by done. cbn [negb]. split_and!; [done| | |done].
    + cbn [existsb]. by rewrite !bool_decide_false by done.
    + cbn [List.filter]. by rewrite N1, N2.
  - destruct (B64.bounds x y x) as (H1 & H2 & _ & _ & H3 & _).
    destruct (B64.value_digit _ H1) as (_ & P1 & N1), (B64.value_digit _ H2) as (_ & P2 & N2), (B64.value_digit _ H3) as (_ & P3 & N3).
    eexists. cbn [List.filter]. rewrite !(bool_decide_false (B64.digit _ = _)) by done. rewrite bool_decide_true by done. cbn [negb]. split_and!; [done| | |done].
    + cbn [existsb]. by rewrite !bool_decide_false by done.
    + cbn [List.filter]. by rewrite N1, N2, N3.
  - destruct (B64.bounds x y z) as (H1 & H2 & _ & H3 & _ & H4).
    destruct (B64.value_digit _ H1) as (_ & P1 & N1), (B64.value_digit _ H2) as (_ & P2 & N2), (B64.value_digit _ H3) as (_ & P3 & N3), (B64.value_digit _ H4) as (_ & P4 & N4).
    eexists. cbn [List.filter]. rewrite !(bool_decide_false (B64.digit _ = _)) by done. cbn [negb]. rewrite E1. split_and!; [done| | |].
    + cbn [existsb]. rewrite !bool_decide_false by done. exact E2.
    + cbn [List.filter]. rewrite N1, N2, N3, N4. cbn [negb]. by rewrite E3.
    + cbn [length app]. rewrite E4 at 1. do 5 f_equal. f_equal. f_equal. rewrite !Nat2Z.inj_succ.
      replace (- Z.succ (Z.succ (Z.succ (Z.succ (Z.of_nat (length cs)))))) with (- Z.of_nat (length cs) + (-1) * 4) by lia. by rewrite Z_mod_plus_full.
Qed.

Lemma RawDecode_Encode b : RawDecode (RawEncode b) = Some b.
Proof.
  destruct (encode_raw b) as (cs & E1 & E2 & E3 & E4). unfold RawDecode, RawEncode. rewrite E1.
  assert (Ascii.ascii_of_byte <$> (Ascii.byte_of_ascii <$> cs) = cs) as ->.
  { rewrite <-list_fmap_compose. rewrite <-(list_fmap_id cs) at 2. apply list_fmap_ext. intros _ c _. apply Ascii.ascii_of_byte_of_ascii. }
  rewrite E3, E2, <-E4. apply B64.decode_encode.
Qed.

(** *** Walking the pages *)

Section browser.
Context (d : driver) (l : Ledger) (lshard lowner : bytes) (Hids : ∀ id s, shards l !! id = Some s → length id = 32%nat).
Abbreviation filter := (mkFilter (TrimSpace lshard) (owner_filter (TrimSpace lowner)).1 0 0).
Abbreviation all := (entry_of l <$> matching d filter l).

(** The page at a multiple of the page size. *)
Lemma admin_page_at loffset (i : nat) : admin_offset loffset = Z.of_nat i * 100 → Z.of_nat (length all) < 2 ^ 62 → (i * 100 ≤ length all)%nat →
  ∃ v, admin_ledger d l lshard lowner loffset = Ok v ∧ lv_Rows v = row_of <$> take 100 (drop (i * 100) all) ∧ lv_Total v = Z.of_nat (length all) ∧
    lv_Next v = (if decide (i * 100 + 100 < length all)%nat then Some (Z.of_nat (S i) * 100) else None) ∧
    lv_Prev v = (match i with O => None | S i => Some (Z.of_nat i * 100) end).
Proof.
  intros Ho Hmax Hi. unfold admin_ledger, ledgerInfo. rewrite Ho. destruct (owner_filter (TrimSpace lowner)) as [owner bad] eqn:Eo. cbn [fst] in *.
  change (mkFilter (TrimSpace lshard) owner ledgerPageSize (Z.of_nat i * 100)) with (page (mkFilter (TrimSpace lshard) owner 0 0) 100 i).
  rewrite Entries_page by done. cbn [mbind result_bind er_Entries er_Total]. change (Z.to_nat 100) with 100%nat. rewrite length_fmap in *. eexists. split; [reflexivity|]. cbn [lv_Rows lv_Total lv_Next lv_Prev].
  split_and!; [done|by rewrite length_fmap| |].
  - rewrite length_fmap, length_take, length_drop, length_fmap. set (n := length _) in *. unfold ledgerPageSize. case_decide as H.
    + rewrite !i64_id by (unfold in_i64; lia). rewrite (proj2 (Z.ltb_lt _ _)) by lia. f_equal. lia.
    + rewrite i64_id by (unfold in_i64; lia). by rewrite (proj2 (Z.ltb_ge _ _)) by lia.
  - unfold ledgerPageSize. destruct i as [|i]; [done|]. rewrite (proj2 (Z.ltb_lt _ _)) by lia. f_equal. lia.
Qed.

Lemma follow_from fuel : ∀ loffset (i : nat), admin_offset loffset = Z.of_nat i * 100 → Z.of_nat (length all) < 2 ^ 62 → (i * 100 ≤ length all)%nat →
  (length all < (i + fuel) * 100)%nat → follow fuel d l lshard lowner loffset = Some (row_of <$> drop (i * 100) all).
Proof.
  induction fuel as [|fuel IH]; intros loffset i Ho Hmax Hi Hf; [lia|]. cbn [follow]. destruct (admin_page_at loffset i Ho Hmax Hi) as (v & -> & Hr & _ & Hn & _). rewrite Hn, Hr. case_decide as H.
  - rewrite (IH (Some (Z.of_nat (S i) * 100)) (S i)); [|..|lia].
    + cbn [fmap option_fmap option_map]. rewrite <-fmap_app. f_equal. f_equal. replace (S i * 100)%nat with (i * 100 + 100)%nat by lia. rewrite <-drop_drop. apply take_drop.
    + unfold admin_offset. rewrite (proj2 (Z.ltb_lt _ _)) by lia. unfold ledgerPageSize. rewrite Z.quot_mul by lia. done.
    + done.
    + lia.
  - f_equal. f_equal. apply take_ge. rewrite length_drop. lia.
Qed.

(** Browsing the dashboard ends and misses nothing. From the first page of a
    filter, following the link to the next page reaches the last one after at
    most one page per hundred shards, and the rows seen are, in order and each
    once, those of the shards that match the filter. On every page the link back
    leads to the page before. An owner written as the page shows owners is read
    as that owner. *)
Theorem admin_browse : Z.of_nat (length all) < 2 ^ 62 →
  (∀ fuel, (length all < fuel * 100)%nat → follow fuel d l lshard lowner None = Some (row_of <$> all)) ∧
  NoDup (le_ShardID <$> all) ∧ (∀ id, id ∈ le_ShardID <$> all ↔ is_Some (shards l !! id) ∧ selected filter l id) ∧
  (∀ i, (i * 100 ≤ length all)%nat → ∃ v, admin_ledger d l lshard lowner (Some (Z.of_nat i * 100)) = Ok v ∧ lv_Total v = Z.of_nat (length all) ∧
     lv_Prev v = (match i with O => None | S i => Some (Z.of_nat i * 100) end)) ∧
  (∀ o, o ≠ [] → owner_filter (RawEncode o) = (o, false)).
Proof.
  intros Hmax. split_and!.
  - intros fuel Hf. by rewrite (follow_from fuel None 0); [|done|done|lia|lia].
  - rewrite matching_ids. apply matching_NoDup.
  - intros id. rewrite matching_ids. apply matching_id_elem.
  - intros i Hi. destruct (admin_page_at (Some (Z.of_nat i * 100)) i) as (v & Hv & _ & Ht & _ & Hp); [|done|done|by exists v].
    unfold admin_offset. destruct i as [|i]; [done|]. rewrite (proj2 (Z.ltb_lt _ _)) by lia. unfold ledgerPageSize. by rewrite Z.quot_mul by lia.
  - intros o Ho. unfold owner_filter. rewrite decide_False; [by rewrite RawDecode_Encode|]. intros E. pose proof (RawDecode_Encode o) as E'. rewrite E in E'. by injection E' as <-.
Qed.
End browser.

(** ** gcstats.go *)

(** The counters of the collector; [gs_lastRun] is [None] until the first cycle. *)
Record GCStats := mkGC { gs_runs : Z; gs_total : Z; gs_reclaimed : Z; gs_dropped : Z; gs_orphans : Z; gs_lastRun : option Z }.
Definition NewGCStats : GCStats := mkGC 0 0 0 0 0 None.
Definition gc_Record (reclaimed dropped orphans now : Z) (g : GCStats) : GCStats :=
  mkGC (i64 (gs_runs g + 1)) (i64 (gs_total g + reclaimed)) reclaimed dropped orphans (Some now).
Record GCSnapshot := mkGCSnap { gn_Runs : Z; gn_Reclaimed : Z; gn_LastReclaimed : Z; gn_LastDropped : Z; gn_LastOrphans : Z; gn_LastRunUnix : Z }.
(** [None]: a nil collector. *)
Definition gc_Snapshot (g : option GCStats) : GCSnapshot :=
  match g with
  | None => mkGCSnap 0 0 0 0 0 0
  | Some g => mkGCSnap (gs_runs g) (gs_total g) (gs_reclaimed g) (gs_dropped g) (gs_orphans g) (match gs_lastRun g with Some t => Unix t | None => 0 end)
  end.

Definition zsum (zs : list Z) : Z := foldr Z.add 0 zs.
Lemma zsum_nonneg zs : Forall (Z.le 0) zs → 0 ≤ zsum zs.
Proof. induction 1 as [|z zs Hz _ IH]; [done|]. cbn. fold (zsum zs). lia. Qed.

(** After a sequence of cycles the collector reports their number, the total they
    reclaimed and the last one, as long as the totals fit. *)
Lemma gc_counts cycles : ∀ g : GCStats, 0 ≤ gs_runs g → 0 ≤ gs_total g → Forall (λ c : Z * Z * Z * Z, 0 ≤ c.1.1.1) cycles →
  gs_runs g + Z.of_nat (length cycles) < 2 ^ 63 → gs_total g + zsum ((λ c, c.1.1.1) <$> cycles) < 2 ^ 63 →
  let g' := foldl (λ g '(a, b, c, t), gc_Record a b c t g) g cycles in
  gs_runs g' = gs_runs g + Z.of_nat (length cycles) ∧ gs_total g' = gs_total g + zsum ((λ c, c.1.1.1) <$> cycles) ∧
  gs_lastRun g' = match last cycles with Some c => Some c.2 | None => gs_lastRun g end.
Proof.
  induction cycles as [|[[[a b] c] t] cycles IH]; intros g Hr Ht HF H1 H2; cbn [foldl]; [by cbn; rewrite !Z.add_0_r|].
  apply Forall_cons in HF as [Ha HF]. cbn [fst snd length fmap list_fmap zsum foldr] in *. fold (zsum ((λ c, c.1.1.1) <$> cycles)) in *.
  assert (0 ≤ zsum ((λ c, c.1.1.1) <$> cycles)) by (apply zsum_nonneg, Forall_fmap; exact HF).
  destruct (IH (gc_Record a b c t g)) as (E1 & E2 & E3); cbn [gc_Record gs_runs gs_total gs_lastRun] in *; rewrite ?i64_id in * by (unfold in_i64; lia); try lia; [done|].
  cbv zeta. rewrite E1, E2, E3. split_and!; [lia|lia|]. rewrite last_cons. by destruct (last cycles).
Qed.

(** ** Witnesses *)

Section examples.
#[local] Instance F64_ser : Ser F64.t.
Proof.
  refine (ser_iso (λ f, match f with SpecFloat.S754_zero s => inl (inl s) | SpecFloat.S754_infinity s => inl (inr s)
      | SpecFloat.S754_nan => inr (inl ()) | SpecFloat.S754_finite s m e => inr (inr (s, m, e)) end)
    (λ x, match x with inl (inl s) => SpecFloat.S754_zero s | inl (inr s) => SpecFloat.S754_infinity s
      | inr (inl _) => SpecFloat.S754_nan | inr (inr (s, m, e)) => SpecFloat.S754_finite s m e end) _).
  by intros [].
Defined.
#[local] Instance geoBody_ser : Ser geoBody.
Proof. refine (ser_iso (λ b, (gb_status b, gb_country b, gb_countryCode b, gb_city b, gb_lat b, gb_lon b)) (λ '(a, b, c, d, e, f), mkBody a b c d e f) _). by intros []. Defined.
#[local] Instance toy_geo_json : Json geoBody := ser_json geoBody.

(** A peer on a private and a public address, one on the LAN, and this node. *)
Definition ex_web (_ : list request) (q : request) : option (Z * bytes) := (λ b, (200, b)) <$> Marshal (mkBody "success" "FR" "fr" "" (F64.of_Z 48) (F64.of_Z 2)).
Definition ex_public : Addr := A4 [Byte.x08; Byte.x08; Byte.x04; Byte.x04].
Definition ex_private : Addr := A4 [Byte.x0a; Byte.x00; Byte.x00; Byte.x01].
Definition ex_dashboard : IPAPILocator * Web * list NodeGeo :=
  admin_nodes (λ k, Z.of_nat k) ex_web GeoAPI "me" AInvalid [("/ip4/10.0.0.1", Some ex_private)]
    [("b", [mkConn "x" (Some ex_private) "inbound"; mkConn "y" (Some ex_public) "outbound"]); ("a", [mkConn "z" (Some ex_private) "inbound"])]
    NewIPAPILocator (mkWeb [] 0).


Lemma admin_browse_witness : follow 1 SQLite ex_ledger (text " aB") [] None = Some (row_of <$> [mkLEntry ex_row_id 9 100 1 false 0 0 0]).
Proof.
  refine (proj1 (admin_browse SQLite ex_ledger (text " aB") [] ex_ledger_ids _) 1%nat _); apply (bool_decide_unpack _); vm_compute; exact I.
Defined.
End examples.
