(* ===== verification/Workspace.v ===== *)
(** * cmd/revika-ctl: keys, roots and shares of a workspace (commands.go, config.go, main.go)

    The secret files of a workspace (plain or sealed at rest), the signed root file
    in its three forms (plain, sealed at rest, sealed to the recipient of a
    share), share itself, renew and ls. A file is its bytes, or is not there. *)

From Stdlib Require Import Ascii.
From S2P Require Import Prelude GoLib Store Crypto Stripe Erasure Chunk Pipeline Blobs Wire Codec Base64 Manifest Namespace Merge.
From S2P Require Import Files Root Device Discovery RootStores Identity Provider Commit Reclaim Move LocalFS Tree Cp Defense.

(** ** Keys and secrets *)

(** Reading a file: it is there, it is not, or the call failed. *)
Inductive read_file := FileIs (data : bytes) | FileAbsent | FileFails.

Inductive ws_err :=
| WsRead | WsAbsent | WsLocked | WsDecrypt (e : AtRest.err) | WsEncrypt (e : AtRest.err) | WsKey | WsPublic | WsParse (e : codec_err) | WsSignature
| WsNeedsKey | WsUnwrap (e : cap_err) | WsNoRoot | WsResolve (e : manifest_err) | WsSign (e : manifest_err) | WsEncode (e : codec_err)
| WsWrap (e : cap_err) | WsCollect (e : manifest_err) | WsLoad (e : manifest_err) | WsFuel.

Definition PrivateKeySize : nat := 64.
Definition SignKeySize : nat := 64.
(** [parseKey] of a text, for a key of [n] bytes. *)
Definition parseKey (n : nat) (s : string) : option bytes :=
  match B64.DecodeString s with Some raw => if decide (length raw = n) then Some raw else None | None => None end.
(** strings.TrimSpace(string(raw)) *)
Definition trimmed (raw : bytes) : string := String.string_of_list_byte (TrimSpace raw).

Section secrets.
Context `{Hgcm : AesGcm} `{Harg : Argon2} `{Hkem : MlKem} (passphrase : option bytes).

(** The bytes writeSecret writes. *)
Definition writeSecret (salt nonce : option bytes) (plaintext : bytes) : result ws_err bytes :=
  match passphrase with Some pp => map_err WsEncrypt (AtRest.Encrypt salt nonce plaintext pp) | None => Ok plaintext end.

Definition readSecret (f : read_file) : result ws_err bytes :=
  match f with
  | FileFails => Err WsRead
  | FileAbsent => Err WsAbsent
  | FileIs raw =>
      if negb (AtRest.IsEncrypted raw) then Ok raw
      else match passphrase with None => Err WsLocked | Some pp => map_err WsDecrypt (AtRest.Decrypt raw pp) end
  end.

Definition readPrivateKey (f : read_file) : result ws_err bytes :=
  raw ← readSecret f; of_option WsKey (parseKey PrivateKeySize (trimmed raw)).

Definition loadSignKey (f : read_file) : result ws_err bytes :=
  raw ← readSecret f; of_option WsKey (parseKey SignKeySize (trimmed raw)).

(** The owner's ML-KEM pair; [None] when the file is not there. *)
Definition ownerMLKEM (f : read_file) : result ws_err (option (bytes * bytes)) :=
  match readSecret f with
  | Err WsAbsent => Ok None
  | Err e => Err e
  | Ok raw =>
      priv ← of_option WsKey (parseKey PrivateKeySize (trimmed raw));
      pub ← map_err (λ _, WsPublic) (PublicOf priv);
      Ok (Some (priv, pub))
  end.
End secrets.

Definition resolveRecipient (f : read_file) : result ws_err bytes :=
  match f with
  | FileIs raw => of_option WsKey (parseKey PublicKeySize (trimmed raw))
  | FileAbsent | FileFails => Err WsRead
  end.

(** ** The root file *)

Section roots.
Context `{Hed : Ed25519} `{Hgcm : AesGcm} `{Harg : Argon2} `{Hkem : MlKem} `{Hcj : Json readCapJSON} `{Hrj : Json rootPointerJSON} `{Hj : DirJson}.
Context (passphrase : option bytes).

(** A decoded pointer must verify. *)
Definition verified (rp : RootPointer) (sealed : bool) : result ws_err (option (RootPointer * bool)) :=
  if root_Verify rp then Ok (Some (rp, sealed)) else Err WsSignature.

(** [loadRoot]: the pointer and whether it came sealed; [None] without a file. [key]
    is the private key file, when -key is given. *)
Definition loadRoot (file : read_file) (key : option read_file) : result ws_err (option (RootPointer * bool)) :=
  match file with
  | FileAbsent => Ok None
  | FileFails => Err WsRead
  | FileIs raw =>
      if AtRest.IsEncrypted raw then
        match passphrase with
        | None => Err WsLocked
        | Some pp =>
            data ← map_err WsDecrypt (AtRest.Decrypt raw pp);
            rp ← map_err WsParse (DecodeRootPointer data);
            verified rp false
        end
      else match DecodeRootPointer raw with
           | Ok rp => verified rp false
           | Err _ =>
               match key with
               | None => Err WsNeedsKey
               | Some k =>
                   priv ← readPrivateKey passphrase k;
                   _ ← map_err (λ _, WsPublic) (PublicOf priv);
                   unwrapped ← map_err WsUnwrap (Unwrap priv raw);
                   rp ← map_err WsParse (DecodeRootPointer unwrapped);
                   verified rp true
               end
           end
  end.

(** ** share *)

Context {W : Type} `{Hb : !Blobs W}.

(** The bytes of the shared root file. *)
Definition cmdShare (rnd nonce : bytes) (now : Z) (signer recipient : bytes) (target : string) (prev : option RootPointer) (w : W) : result ws_err bytes :=
  p ← of_option WsNoRoot prev;
  child ← map_err WsResolve (Resolve (rp_Root p) target w);
  sharedRP ← map_err WsSign (SignRoot signer child 1 now);
  raw ← map_err WsEncode (EncodeRootPointer sharedRP);
  map_err WsWrap (Wrap rnd (Some nonce) recipient raw).

(** ** ls *)

Inductive line := LHeader (dir : string) | LBlank | LEntry (name : string) (st : StatCache).

(** [lsDir] prints as it goes: what was printed, and how it ended. [print_subs] is
    the loop over the subdirectories. *)
Fixpoint print_subs (rec : ReadCap → string → list line * result ws_err unit) (name : string) (es : list Entry) : list line * result ws_err unit :=
  match es with
  | [] => ([], Ok tt)
  | e :: es =>
      if decide (rc_Kind (e_Cap e) = KindDir) then
        let '(out, r) := rec (e_Cap e) (path_Join name (e_Name e)) in
        match r with
        | Err err => (LBlank :: out, Err err)
        | Ok _ => let '(out', r) := print_subs rec name es in (LBlank :: out ++ out', r)
        end
      else print_subs rec name es
  end.

Fixpoint lsDir (fuel : nat) (recurse : bool) (w : W) (dirCap : ReadCap) (name : string) : list line * result ws_err unit :=
  match fuel with
  | O => ([], Err WsFuel)
  | S fuel =>
      match LoadDir dirCap w with
      | Err e => ([], Err (WsLoad e))
      | Ok d =>
          let here := (if recurse then [LHeader name] else []) ++ ((λ e, LEntry (e_Name e) (e_Stat e)) <$> dm_Entries d) in
          if recurse then let '(out, r) := print_subs (lsDir fuel recurse w) name (dm_Entries d) in (here ++ out, r)
          else (here, Ok tt)
      end
  end.

Definition cmdLs (fuel : nat) (recurse : bool) (target : string) (prev : option RootPointer) (w : W) : list line * result ws_err unit :=
  match prev with
  | None => ([], Err WsNoRoot)
  | Some p =>
      match Resolve (rp_Root p) target w with
      | Err e => ([], Err (WsResolve e))
      | Ok c => if decide (rc_Kind c = KindDir) then lsDir fuel recurse w c target
                else ([LEntry (path_Base target) (bareStat (rc_Kind c))], Ok tt)
      end
  end.

(** ** renew *)

(** [renewer id] asks a node that holds the shard to extend its lease; the order of
    map iteration is [order]. *)
Section renew.
Context `{Hfj : !FileJson} (order : gset ShardID → list ShardID) (renewer : ShardID → W → W * bool).

Fixpoint renew_all (ids : list ShardID) (renewed failed : Z) (w : W) : W * (Z * Z) :=
  match ids with
  | [] => (w, (renewed, failed))
  | id :: ids =>
      let '(w, ok) := renewer id w in
      if ok then renew_all ids (renewed + 1) failed w else renew_all ids renewed (failed + 1) w
  end.

Definition cmdRenew (fuel : nat) (target : string) (prev : option RootPointer) (w : W) : W * result ws_err (Z * Z) :=
  match prev with
  | None => (w, Err WsNoRoot)
  | Some p =>
      match Resolve (rp_Root p) target w with
      | Err e => (w, Err (WsResolve e))
      | Ok victim =>
          match collectShards fuel victim w ∅ with
          | Err e => (w, Err (WsCollect e))
          | Ok ids => let '(w, t) := renew_all (order ids) 0 0 w in (w, Ok t)
          end
      end
  end.
End renew.
End roots.

(** ** Secrets and roots *)

Section facts.
Context `{Hed : Ed25519} `{Hgcm : AesGcm} `{Harg : Argon2} `{Hkem : MlKem} `{Hcj : Json readCapJSON} `{Hrj : Json rootPointerJSON} `{Hj : DirJson}.

(** What writeSecret writes, readSecret reads, with the same passphrase; without
    it a sealed secret is refused. A plain secret must not look like a sealed one. *)
Lemma secret_roundtrip passphrase salt nonce plaintext : length salt = 16%nat → length nonce = 12%nat →
  (passphrase = None → AtRest.IsEncrypted plaintext = false) →
  ∃ data, writeSecret passphrase (Some salt) (Some nonce) plaintext = Ok data ∧ readSecret passphrase (FileIs data) = Ok plaintext ∧
    (is_Some passphrase → readSecret None (FileIs data) = Err WsLocked).
Proof.
  intros Hs Hn Hp. unfold writeSecret, readSecret. destruct passphrase as [pp|].
  - destruct (atrest_roundtrip salt nonce plaintext pp Hs Hn) as (file & Ef & _ & Hi & Hd & _). exists file. rewrite Ef. cbn [map_err].
    rewrite Hi. cbn [negb]. rewrite Hd. done.
  - exists plaintext. rewrite (Hp eq_refl). cbn [negb]. by split_and!; [| |intros [? ?]].
Qed.

Lemma decodeOwner_length s o : decodeOwner s = Ok o → length o = SignPubKeySize.
Proof. unfold decodeOwner. destruct (B64.DecodeString s); [|done]. case_decide; [|done]. by intros [= <-]. Qed.

Lemma DecodeRootPointer_typed data rp : DecodeRootPointer data = Ok rp → length (rp_Owner rp) = SignPubKeySize ∧ cap_ok (rp_Root rp).
Proof.
  unfold DecodeRootPointer. destruct (Unmarshal data) as [j|]; [|done]. cbn [of_option mbind result_bind].
  destruct (match rj_root j with Some c => map_err CRoot (cap_of_json c) | None => Ok zeroCap end) as [root|] eqn:Er; [|done]. cbn [mbind result_bind].
  destruct (decodeOwner (rj_owner j)) as [o|] eqn:Eo; [|done]. cbn [mbind result_bind]. destruct (B64.DecodeString (rj_sig j)); [|done].
  intros [= <-]. cbn [rp_Owner rp_Root]. split; [by eapply decodeOwner_length|]. destruct (rj_root j) as [c|].
  - destruct (cap_of_json c) eqn:Ec; [|done]. injection Er as <-. by eapply cap_of_json_typed.
  - injection Er as <-. split; [by vm_compute|]. by split; [constructor|].
Qed.

Lemma verified_Ok rp sealed x : verified rp sealed = Ok x → x = Some (rp, sealed) ∧ root_Verify rp = true.
Proof. unfold verified. destruct (root_Verify rp); [|done]. by intros [= <-]. Qed.

(** Whatever is in the root file, a pointer that comes out of it carries a valid
    signature of its owner and is well typed; it is writable only when it came
    plain, or sealed with the user's own passphrase. *)
Lemma loadRoot_sound passphrase file key rp sealed : loadRoot passphrase file key = Ok (Some (rp, sealed)) →
  root_Verify rp = true ∧ length (rp_Owner rp) = SignPubKeySize ∧ cap_ok (rp_Root rp) ∧ (sealed = true → is_Some key).
Proof.
  unfold loadRoot. destruct file as [raw| |]; [|done|done]. destruct (AtRest.IsEncrypted raw).
  - destruct passphrase as [pp|]; [|done]. destruct (AtRest.Decrypt raw pp) as [data|]; [|done]. cbn [map_err mbind result_bind].
    destruct (DecodeRootPointer data) as [rp'|] eqn:Ed; [|done]. cbn [map_err mbind result_bind]. intros [[= -> ->] Hv]%verified_Ok.
    destruct (DecodeRootPointer_typed _ _ Ed). by split_and!.
  - destruct (DecodeRootPointer raw) as [rp'|] eqn:Ed.
    { intros [[= -> ->] Hv]%verified_Ok. destruct (DecodeRootPointer_typed _ _ Ed). by split_and!. }
    destruct key as [k|]; [|done]. destruct (readPrivateKey passphrase k) as [priv|]; [|done]. cbn [mbind result_bind].
    destruct (PublicOf priv); [|done]. cbn [map_err mbind result_bind]. destruct (Unwrap priv raw) as [u|]; [|done]. cbn [map_err mbind result_bind].
    destruct (DecodeRootPointer u) as [rp'|] eqn:Eu; [|done]. cbn [map_err mbind result_bind]. intros [[= -> ->] Hv]%verified_Ok.
    destruct (DecodeRootPointer_typed _ _ Eu). by split_and!.
Qed.
End facts.

(** ** Shares *)

Section shares.
Context `{Hed : Ed25519} `{Hgcm : AesGcm} `{Harg : Argon2} `{Hkem : MlKem} `{Hcj : Json readCapJSON} `{Hrj : Json rootPointerJSON} `{Hj : DirJson}.
Context {W : Type} `{Hb : !Blobs W}.

Lemma resolve_parts_app (a b : list string) (w : W) : ∀ c, resolve_parts (a ++ b) c w = (c' ← resolve_parts a c w; resolve_parts b c' w).
Proof.
  induction a as [|x a IH]; intros c; cbn [app resolve_parts]; [done|]. case_decide; [done|]. destruct (LoadDir c w) as [d|]; [|done]. cbn [mbind result_bind].
  destruct (Lookup d x); [|done]. apply IH.
Qed.

End shares.

(** ** Listing and renewing *)

Section listing.
Context `{Harg : Argon2} `{Hj : DirJson} `{Hfj : !FileJson} {W : Type} `{Hb : !Blobs W} (cfg : Config).
Context {w_ok clean : W → Prop} {holds : W → Params → ChunkRef → bytes → Prop}.
Context `{HL : !BlobLaws W cfg w_ok clean holds}.
Abbreviation ftree := (ftree cfg (holds := holds)).
Abbreviation leads := (walk (holds := holds)).

(** The loop over subdirectories prints what each of them prints. *)
Lemma print_subs_ok (rec : ReadCap → string → list line * result ws_err unit) name es :
  (∀ e, e ∈ es → rc_Kind (e_Cap e) = KindDir → (rec (e_Cap e) (path_Join name (e_Name e))).2 = Ok tt) →
  (print_subs rec name es).2 = Ok tt ∧ ∀ n st, LEntry n st ∈ (print_subs rec name es).1 ↔
    ∃ e, e ∈ es ∧ rc_Kind (e_Cap e) = KindDir ∧ LEntry n st ∈ (rec (e_Cap e) (path_Join name (e_Name e))).1.
Proof.
  induction es as [|e es IH]; intros Hok; cbn [print_subs].
  { split; [done|]. intros n st. cbn. rewrite elem_of_nil. split; [done|]. by intros (? & ?%elem_of_nil & _). }
  destruct IH as [IH1 IH2]; [intros x Hx; apply Hok; by right|]. case_decide as Hk.
  - pose proof (Hok e ltac:(left) Hk) as He. destruct (rec (e_Cap e) (path_Join name (e_Name e))) as [out [[]|]] eqn:Er; [|done].
    destruct (print_subs rec name es) as [out' r']. split; [done|]. intros n st. cbn [fst] in *. rewrite elem_of_cons, elem_of_app, IH2. split.
    + intros [?|[?|(x & Hx & Hkx & Hin)]]; [done|exists e; rewrite Er; split_and!; [left|done|done]|exists x; split; [by right|done]].
    + intros (x & [->|Hx]%elem_of_cons & Hkx & Hin); [rewrite Er in Hin; auto|]. right. right. eauto.
  - split; [done|]. intros n st. rewrite IH2. split.
    + intros (x & Hx & ?). exists x. split; [by right|done].
    + intros (x & [->|Hx]%elem_of_cons & Hkx & ?); [done|]. eauto.
Qed.

(** ls -R lists a whole directory tree: it succeeds, and shows exactly the entries of
    the directories that paths lead to. *)
Lemma ls_complete n w : w_ok w → ∀ c name, rc_Kind c = KindDir → ftree n w c →
  (lsDir n true w c name).2 = Ok tt ∧ ∀ nm st, LEntry nm st ∈ (lsDir n true w c name).1 ↔
    ∃ parts c' d e, leads w c parts c' ∧ dir_at (holds := holds) w c' d ∧ e ∈ dm_Entries d ∧ e_Name e = nm ∧ e_Stat e = st.
Proof.
  intros Hok. induction n as [|n IH]; intros c name Hk Ht; [done|]. destruct Ht as [(m & x & Hf)|(d & Hd & Hall)]; [destruct Hf; congruence|].
  rewrite Forall_forall in Hall. cbn [lsDir]. rewrite (dir_at_load cfg w c d Hok Hd).
  destruct (print_subs_ok (lsDir n true w) name (dm_Entries d)) as [H1 H2].
  { intros e He Hke. apply (IH (e_Cap e)); [done|by apply Hall]. }
  destruct (print_subs (lsDir n true w) name (dm_Entries d)) as [out r]. cbn [fst snd] in *. split; [done|]. intros nm st.
  rewrite !elem_of_app, list_elem_of_singleton, H2. split.
  - intros [[?|(e & [= -> ->] & He)%list_elem_of_fmap]|(e & He & Hke & Hin)]; [done|exists [], c, d, e; split_and!; [constructor|done..]|].
    apply (IH (e_Cap e) _ Hke (Hall e He)) in Hin as (parts & c' & d' & e' & Hl & Hd' & He' & Hn & Hs).
    exists (e_Name e :: parts), c', d', e'. split; [|done]. econstructor; [exact Hd| |exact Hl].
    pose proof (proj1 (proj2 Hd)) as [Hwf _ _ _]. rewrite Lookup_map by done. apply dir_map_Some; [apply Hwf|done].
  - intros (parts & c' & d' & e' & Hl & Hd' & He' & <- & <-). inversion Hl as [|? d0 x e parts' ? Hd0 Hlk Hl']; subst.
    + left. right. rewrite (dir_at_unique cfg w c' d' d Hok Hd' Hd) in He'. apply list_elem_of_fmap. eauto.
    + rewrite (dir_at_unique cfg w c d0 d Hok Hd0 Hd) in Hlk. pose proof (Lookup_entry d x e (proj1 (proj2 Hd)) Hlk) as He.
      assert (rc_Kind (e_Cap e) = KindDir) as Hke by (inversion Hl'; subst; by eapply dir_at_kind).
      right. exists e. split; [done|]. split; [done|]. apply (IH (e_Cap e) _ Hke (Hall e He)). exists parts', c', d', e'. done.
Qed.

Section renewing.
Context (order : gset ShardID → list ShardID) (Horder : ∀ X, order X ≡ₚ elements X) (renewer : ShardID → W → W * bool).
Context (leased : ShardID → W → Prop).
Context (Hrenews : ∀ id w, (renewer id w).2 = true → leased id (renewer id w).1).
Context (Hkeeps : ∀ id id' w, leased id w → leased id (renewer id' w).1).

Lemma renew_all_kept ids : ∀ a b w id, leased id w → leased id (renew_all renewer ids a b w).1.
Proof.
  induction ids as [|x ids IH]; intros a b w id Hl; cbn [renew_all]; [done|]. pose proof (Hkeeps id x w Hl) as H1.
  destruct (renewer x w) as [w1 []]; by apply IH.
Qed.

Lemma renew_all_spec ids : ∀ a b w, let '(w', (a', b')) := renew_all renewer ids a b w in
  a ≤ a' ∧ b ≤ b' ∧ a' + b' = a + b + Z.of_nat (length ids) ∧ (b' = b → ∀ id, id ∈ ids → leased id w').
Proof.
  induction ids as [|x ids IH]; intros a b w; cbn [renew_all length].
  { split_and!; [lia|lia|lia|]. by intros _ id ?%elem_of_nil. }
  pose proof (Hrenews x w) as Hx. destruct (renewer x w) as [w1 [|]]; cbn [fst snd] in Hx.
  - pose proof (renew_all_kept ids (a + 1) b w1 x (Hx eq_refl)) as Hk. specialize (IH (a + 1) b w1). destruct (renew_all renewer ids (a + 1) b w1) as [w' [a' b']].
    destruct IH as (H1 & H2 & H3 & H4). split_and!; [lia|lia|lia|]. intros Eb id [->|Hid]%elem_of_cons; [done|by apply H4].
  - specialize (IH a (b + 1) w1). destruct (renew_all renewer ids a (b + 1) w1) as [w' [a' b']]. destruct IH as (H1 & H2 & H3 & H4).
    split_and!; [lia|lia|lia|]. intros ->. lia.
Qed.

(** Renewing covers a whole subtree. For a path of a whole tree, renew asks for
    every shard of the subtree (its directories, manifests and chunks) exactly
    once and counts the answers; when it reports no failure, every one of those
    leases has been extended. *)
Theorem renew_covers n target p victim w : w_ok w → Resolve (rp_Root p) target w = Ok victim → ftree n w victim →
  ∃ keep w' renewed failed, cmdRenew order renewer n target (Some p) w = (w', Ok (renewed, failed)) ∧ within cfg (holds := holds) keep n w victim ∧
    0 ≤ renewed ∧ 0 ≤ failed ∧ renewed + failed = Z.of_nat (base.size keep) ∧ (failed = 0 → ∀ id, id ∈ keep → leased id w').
Proof.
  intros Hok Hr Ht. destruct (collect_spec cfg n w Hok victim ∅ Ht) as (keep & Ec & _ & Hw). unfold cmdRenew. rewrite Hr, Ec.
  pose proof (renew_all_spec (order keep) 0 0 w) as Hs. destruct (renew_all renewer (order keep) 0 0 w) as [w' [a b]]. destruct Hs as (H1 & H2 & H3 & H4).
  exists keep, w', a, b. split_and!; [done|done|lia|lia| |].
  - rewrite H3, (Horder keep). unfold base.size, set_size. cbn. lia.
  - intros -> id Hid. apply H4; [done|]. rewrite (Horder keep). by apply elem_of_elements.
Qed.
End renewing.
End listing.

(** ** Witnesses *)

Definition ex_priv : bytes := replicate 64 Byte.x07.
Definition ex_key : read_file := FileIs (str_bytes (B64.EncodeToString ex_priv) ++ [Byte.x0a]).
Definition ex_shared : result ws_err bytes :=
  @cmdShare toy_ed toy_gcm keyed_kem toy_cap_json toy_root_json ex_dj _ ex_blobs [] (replicate 12 Byte.x09) 99 [Byte.x05] ex_priv "f" (Some ex_fp) ex_fstored.1.
Definition ex_share_file : bytes := match ex_shared with Ok f => f | Err _ => [] end.

Lemma ex_key_reads : readPrivateKey (Hgcm := toy_gcm) (Harg := toy_argon) None ex_key = Ok ex_priv.
Proof. vm_compute. reflexivity. Qed.
Lemma ex_share_plain : AtRest.IsEncrypted ex_share_file = false.
Proof. vm_compute. reflexivity. Qed.
Lemma ex_share_opaque : is_ok (@DecodeRootPointer toy_root_json ex_share_file) = false.
Proof. vm_compute. reflexivity. Qed.
Lemma ex_file_resolves : @Resolve ex_dj _ ex_blobs (rp_Root ex_fp) "f" ex_fstored.1 = Ok ex_file_cap.
Proof.
  destruct ex_file_world as (Hok & _). apply (@walk_Resolve ex_dj _ ex_blobs ex_cfg ex_vok ex_clean ex_holds ex_laws _ _ _ ["f"]); [exact Hok|reflexivity|].
  exact ex_leads_f.
Qed.


Definition ex_renewer (id : ShardID) (w : Vault Mem.MemStore) : Vault Mem.MemStore * bool := (mkVault (v_store w) (v_draws w) (v_log w ++ [id]) (v_small w), true).

Lemma renew_covers_witness : ∃ w' renewed failed,
  @cmdRenew ex_dj _ ex_blobs ex_fj ex_elements ex_renewer 1 "f" (Some ex_fp) ex_fstored.1 = (w', Ok (renewed, failed)) ∧ (failed = 0 → ∀ id, id ∈ rc_Shards ex_file_cap → id ∈ v_log w').
Proof.
  destruct ex_file_world as (Hok & _).
  destruct (@renew_covers ex_dj ex_fj _ ex_blobs ex_cfg ex_vok ex_clean ex_holds ex_laws ex_elements (λ _, reflexivity _) ex_renewer (λ id w, id ∈ v_log w))
    with (n := 1%nat) (target := "f") (p := ex_fp) (victim := ex_file_cap) (w := ex_fstored.1) as (keep & w' & a & b & E & Hw & _ & _ & _ & Hl).
  - intros id w _. cbn. apply elem_of_app. right. apply list_elem_of_singleton. reflexivity.
  - intros id id' w H. cbn. apply elem_of_app. left. exact H.
  - exact Hok.
  - exact ex_file_resolves.
  - exact ex_f_tree.
  - exists w', a, b. split; [exact E|]. intros E0 id Hid. apply (Hl E0). destruct Hw as [Ha _]. apply Ha. exact Hid.
Defined.
