(* ===== verification/CtlManifest.v ===== *)
(** * cmd/revika-ctl: the client's own manifest format (manifest.go)

    The JSON form of a file manifest that the client writes itself: versions 1 to 4
    are read, the metadata is a separate object with base64 attribute values and
    hex version tokens, left out when there is nothing to record. A chunk has the
    form it has in internal/manifest. *)

From S2P Require Import Prelude GoLib Store Crypto Stripe Erasure Chunk Pipeline Blobs Codec Base64 Manifest Namespace Files.

Definition manifestVersion : Z := 4.

Record jsonMeta := mkJMeta {
  jt_mode : Z; jt_uid : Z; jt_gid : Z; jt_mtime : Z; jt_ctime : Z; jt_atime : Z; jt_btime : Z; jt_flags : Z;
  jt_content_type : string; jt_symlink_target : string; jt_xattr : gmap string string; jt_content_version : string; jt_meta_version : string }.
Record jsonManifest := mkJManifest {
  jm_version : Z; jm_name : string; jm_chunk_size : Z; jm_k : Z; jm_m : Z; jm_compress : bool; jm_size : Z;
  jm_meta : option jsonMeta; jm_chunks : list fileChunkJSON }.

Inductive ctlm_err := CmManifest (e : manifest_err) | CmContentVersion | CmMetaVersion | CmXattr.

(** Whether there is nothing to record. *)
Definition meta_empty (m : Metadata) : bool :=
  (md_Mode m =? 0) && (md_Uid m =? 0) && (md_Gid m =? 0) && (md_ModTimeNS m =? 0) && (md_ChangeTimeNS m =? 0) && (md_AccessTimeNS m =? 0) &&
  (md_BirthTimeNS m =? 0) && (md_Flags m =? 0) && bool_decide (md_ContentType m = "") && bool_decide (md_SymlinkTarget m = "") &&
  bool_decide (md_Xattr m = ∅) && bool_decide (md_ContentVersion m = []) && bool_decide (md_MetaVersion m = []).

(** A version token: the empty one is left out. *)
Definition token (v : bytes) : string := match v with [] => "" | _ => Hex.EncodeToString v end.

Definition encodeMeta (m : Metadata) : option jsonMeta :=
  if meta_empty m then None
  else Some (mkJMeta (md_Mode m) (md_Uid m) (md_Gid m) (md_ModTimeNS m) (md_ChangeTimeNS m) (md_AccessTimeNS m) (md_BirthTimeNS m) (md_Flags m)
    (md_ContentType m) (md_SymlinkTarget m)
    (if decide (md_Xattr m = ∅) then ∅ else B64.EncodeToString <$> md_Xattr m)
    (token (md_ContentVersion m)) (token (md_MetaVersion m))).

(** The loop over the attributes: in whatever order the map is visited, it succeeds
    when every value decodes. *)
Definition decode_xattr (x : gmap string string) : result ctlm_err (gmap string bytes) :=
  if decide (map_Forall (λ _ s, is_Some (B64.DecodeString s)) x) then Ok (omap B64.DecodeString x) else Err CmXattr.

Definition decodeMeta (jm : option jsonMeta) : result ctlm_err Metadata :=
  match jm with
  | None => Ok zeroMeta
  | Some j =>
      cv ← (if decide (jt_content_version j = "") then Ok [] else of_option CmContentVersion (Hex.DecodeString (jt_content_version j)));
      mv ← (if decide (jt_meta_version j = "") then Ok [] else of_option CmMetaVersion (Hex.DecodeString (jt_meta_version j)));
      x ← (if decide (jt_xattr j = ∅) then Ok ∅ else decode_xattr (jt_xattr j));
      Ok (mkMeta (jt_mode j) (jt_uid j) (jt_gid j) (jt_mtime j) (jt_ctime j) (jt_atime j) (jt_btime j) (jt_flags j) (jt_content_type j) (jt_symlink_target j) x cv mv)
  end.

Section codec.
Context `{Hj : Json jsonManifest}.
Implicit Types (m : FileManifest).

Definition manifest_json m : jsonManifest :=
  mkJManifest manifestVersion (fm_Name m) (cf_ChunkSize (fm_Params m)) (p_K (cf_Params (fm_Params m))) (p_M (cf_Params (fm_Params m))) (cf_Compress (fm_Params m))
    (fm_Size m) (encodeMeta (fm_Meta m)) (chunk_to_json <$> fm_Chunks m).
Definition encodeManifest m : result ctlm_err bytes := of_option (CmManifest MJson) (Marshal (manifest_json m)).

Definition decodeManifest (data : bytes) : result ctlm_err FileManifest :=
  jm ← of_option (CmManifest MJson) (Unmarshal data);
  if (jm_version jm <? 1) || (manifestVersion <? jm_version jm) then Err (CmManifest (MVersion (jm_version jm)))
  else
    meta ← decodeMeta (jm_meta jm);
    if maxManifestChunks <? Z.of_nat (length (jm_chunks jm)) then Err (CmManifest (MChunkCount (length (jm_chunks jm))))
    else if jm_size jm <? 0 then Err (CmManifest (MNegativeSize (jm_size jm)))
    else
      chunks ← map_err CmManifest (chunks_of_json (jm_chunks jm));
      Ok (mkFile (jm_name jm) (mkConfig (jm_chunk_size jm) (Erasure.mkParams (jm_k jm) (jm_m jm)) (jm_compress jm)) (jm_size jm) meta chunks).

Lemma meta_empty_zero (m : Metadata) : meta_empty m = true → m = zeroMeta.
Proof.
  unfold meta_empty. rewrite !andb_true_iff, !Z.eqb_eq, !bool_decide_eq_true. destruct m. cbn.
  by intros ((((((((((((-> & ->) & ->) & ->) & ->) & ->) & ->) & ->) & ->) & ->) & ->) & ->) & ->).
Qed.

Lemma hex_nonempty x v : Hex.EncodeToString (x :: v) ≠ "".
Proof. done. Qed.

Lemma token_roundtrip {E : Type} (e : E) (v : bytes) : (if decide (token v = "") then Ok [] else of_option e (Hex.DecodeString (token v))) = Ok v.
Proof. destruct v as [|x v]; [done|]. rewrite decide_False by apply hex_nonempty. unfold token. by rewrite Hex.Decode_Encode. Qed.

Lemma decodeMeta_encode (m : Metadata) : decodeMeta (encodeMeta m) = Ok m.
Proof.
  unfold encodeMeta. destruct (meta_empty m) eqn:E; [by rewrite (meta_empty_zero m E)|]. unfold decodeMeta. cbn [jt_content_version jt_meta_version jt_xattr].
  rewrite !token_roundtrip. cbn [mbind result_bind].
  assert ((if decide ((if decide (md_Xattr m = ∅) then ∅ else B64.EncodeToString <$> md_Xattr m) = ∅) then Ok ∅
           else decode_xattr (if decide (md_Xattr m = ∅) then ∅ else B64.EncodeToString <$> md_Xattr m)) = Ok (md_Xattr m)) as ->; [|by destruct m].
  destruct (decide (md_Xattr m = ∅)) as [->|Hne]; [done|]. rewrite decide_False by (by rewrite fmap_empty_iff). unfold decode_xattr. rewrite decide_True.
  - f_equal. apply map_eq. intros k. rewrite lookup_omap, lookup_fmap. destruct (md_Xattr m !! k); [|done]. cbn. by rewrite B64.Decode_Encode64.
  - intros k s. rewrite lookup_fmap_Some. intros (v & <- & _). rewrite B64.Decode_Encode64. eauto.
Qed.

(** The client's manifests: what is written is read back, metadata included, unless
    the file has too many chunks; and whatever bytes are read, a manifest that
    comes out of them has 32-byte keys and addresses, no more shards and chunks
    than the limits and a size that is not negative. *)
Theorem ctl_manifest_codec m data :
  (Forall ref_ok (fm_Chunks m) → 0 ≤ fm_Size m → json_ok (manifest_json m) →
   ∃ b, encodeManifest m = Ok b ∧
     decodeManifest b = (if maxManifestChunks <? Z.of_nat (length (fm_Chunks m)) then Err (CmManifest (MChunkCount (length (fm_Chunks m)))) else Ok m)) ∧
  (∀ m', decodeManifest data = Ok m' → 0 ≤ fm_Size m' ∧ Z.of_nat (length (fm_Chunks m')) ≤ maxManifestChunks ∧ Forall ref_ok (fm_Chunks m')).
Proof.
  split.
  - intros Hr Hs Hjs. destruct (json_roundtrip _ Hjs) as (b & Em & Eu). exists b. unfold encodeManifest, decodeManifest. rewrite Em, Eu. split; [done|].
    cbn [of_option mbind result_bind manifest_json jm_version jm_meta jm_chunks jm_size jm_name jm_chunk_size jm_k jm_m jm_compress].
    change ((manifestVersion <? 1) || (manifestVersion <? manifestVersion)) with false. cbv iota. rewrite decodeMeta_encode. cbn [mbind result_bind].
    rewrite length_fmap. destruct (maxManifestChunks <? _); [done|]. destruct (Z.ltb_spec (fm_Size m) 0); [lia|]. rewrite chunks_json_roundtrip by done.
    cbn [map_err mbind result_bind]. by destruct m as [? [? [? ?] ?] ? ? ?].
  - intros m'. unfold decodeManifest. destruct (Unmarshal data) as [jm|]; [|done]. cbn [of_option mbind result_bind]. destruct (_ || _); [done|].
    destruct (decodeMeta _) as [meta|]; [|done]. cbn [mbind result_bind].
    destruct (Z.ltb_spec maxManifestChunks (Z.of_nat (length (jm_chunks jm)))); [done|]. destruct (Z.ltb_spec (jm_size jm) 0); [done|].
    destruct (chunks_of_json (jm_chunks jm)) as [refs|] eqn:Ec; [|done]. intros [= <-]. destruct (chunks_of_json_typed _ _ Ec) as [HF HL]. cbn. split_and!; [lia|lia|done].
Qed.
End codec.
