(* ===== verification/Profile.v ===== *)
(** * cmd/revika-ctl: the workspace folder (config.go, commands.go)

    A workspace is a folder with a connection profile (config.json), the root file
    and the user's four key files. This file models how a workspace is found, how
    its profile is read and written, and how an identity is minted: keygen,
    connect, and the identity created on demand by a first write. The files are a
    finite map from path to content. The host decides about each call of package
    os whether it goes through; a write that fails may leave any beginning of the
    data behind. *)

From Stdlib Require Import Ascii.
From S2P Require Import Prelude GoLib Store Crypto Stripe Erasure Chunk Pipeline Wire Codec Base64 Manifest Merge Root Server Client Device Discovery Params.
From S2P Require Import RootStores Identity Move Commit Defense Browse Workspace.

(** ** Package os *)

Inductive item := IFile (data : bytes) | IDir.
Record Desk := mkDesk { dk_files : gmap string item; dk_calls : nat }.

(** What becomes of a call: it goes through, it is refused, or, for a write, it
    fails after [n] bytes. *)
Inductive fate := Through | Refused | CutAt (n : nat).
Inductive stat_res := StatFile | StatDir | StatAbsent | StatFails.

Inductive ctl_fail :=
| FOverwrite (p : string) | FStat (p : string) | FWrite (p : string) | FMkdir (p : string)
| FIdentity | FMint | FPowFail | FSecret (e : ws_err) | FDifficulty (d : Z) | FNoIdentity (p : string) | FConfirm | FAborted
| FReadConfig | FParseConfig | FEncodeConfig | FNoBootstrap | FErasure | FTooMany (n : Z) | FConfigExists | FHost | FPolicy (e : params_err).

Section os.
Context (host : nat → fate).

Definition files_put (p : string) (data : bytes) (d : Desk) : Desk := mkDesk (<[p := IFile data]> (dk_files d)) (S (dk_calls d)).
Definition tick_desk (d : Desk) : Desk := mkDesk (dk_files d) (S (dk_calls d)).

(** What is at a path. *)
Definition stat_at (p : string) (fs : gmap string item) : stat_res :=
  match fs !! p with Some (IFile _) => StatFile | Some IDir => StatDir | None => StatAbsent end.
Definition os_Stat (p : string) (d : Desk) : Desk * stat_res :=
  (tick_desk d, match host (dk_calls d) with Through => stat_at p (dk_files d) | _ => StatFails end).

Definition content (p : string) (fs : gmap string item) : read_file :=
  match fs !! p with Some (IFile data) => FileIs data | Some IDir => FileFails | None => FileAbsent end.
Definition os_ReadFile (p : string) (d : Desk) : Desk * read_file :=
  (tick_desk d, match host (dk_calls d) with Through => content p (dk_files d) | _ => FileFails end).

(** [os.WriteFile] truncates the file, then writes. *)
Definition os_WriteFile (p : string) (data : bytes) (d : Desk) : Desk * result ctl_fail unit :=
  match dk_files d !! p, host (dk_calls d) with
  | Some IDir, _ | _, Refused => (tick_desk d, Err (FWrite p))
  | _, Through => (files_put p data d, Ok tt)
  | _, CutAt n => (files_put p (take n data) d, Err (FWrite p))
  end.

Definition os_MkdirAll (p : string) (d : Desk) : Desk * result ctl_fail unit :=
  match dk_files d !! p, host (dk_calls d) with
  | Some IDir, Through => (tick_desk d, Ok tt)
  | None, Through => (mkDesk (<[p := IDir]> (dk_files d)) (S (dk_calls d)), Ok tt)
  | _, _ => (tick_desk d, Err (FMkdir p))
  end.
End os.

(** [filepath.Dir] *)
Fixpoint upto_slash (s : string) : string :=
  match s with
  | EmptyString => ""
  | String c s => match upto_slash s with
                  | EmptyString => if decide (c = "/"%char) then "/" else ""
                  | s' => String c s'
                  end
  end.
Definition fp_Dir (p : string) : string := path_Clean (upto_slash p).

(** ** The profile *)

Record Profile := mkProfile {
  pr_Label : string; pr_Bootstrap : list bytes; pr_K : Z; pr_M : Z; pr_Difficulty : Z; pr_DeviceTag : string }.

Record WorkspaceDir := mkWs { ws_Dir : string; ws_RootFile : string; ws_Config : option Profile; ws_fileMode : bool }.

Definition defaultWorkspaceDir : string := ".revika".
Definition configFileName : string := "config.json".
Definition rootFileName : string := "root.json".
Definition devicesFileName : string := "devices.json".

(** [filepath.Join(dir, keysSubdir, keyBasename)]; the last two are constants. *)
Definition key_prefix (dir : string) : string := path_Join dir "keys/user".
Definition keyPrefix (w : WorkspaceDir) : string := key_prefix (ws_Dir w).
Definition signKeyPath (w : WorkspaceDir) (flagVal : string) : string :=
  if decide (flagVal = "") then keyPrefix w +:+ ".sign.key" else flagVal.
Definition devicesPath (w : WorkspaceDir) : option string :=
  if ws_fileMode w then None else Some (path_Join (ws_Dir w) devicesFileName).

(** [PoWConfig.resolve] and [powSettings], on a uint difficulty. *)
Definition pow_resolve (difficulty : Z) : result ctl_fail (Argon2idPuzzle * Z) :=
  if 255 <? difficulty then Err (FDifficulty difficulty) else Ok (DefaultArgon2id, difficulty).
Definition powSettings (w : WorkspaceDir) : result ctl_fail (Argon2idPuzzle * Z) :=
  let diff := match ws_Config w with Some c => pr_Difficulty c | None => 12 end in
  if 255 <? diff then Err (FDifficulty diff) else Ok (DefaultArgon2id, diff).

Definition pipelineConfig (w : WorkspaceDir) : Config :=
  match ws_Config w with
  | Some c => if (0 <? pr_K c) && (0 <? pr_M c) then mkConfig (cf_ChunkSize DefaultConfig) (Erasure.mkParams (pr_K c) (pr_M c)) (cf_Compress DefaultConfig) else DefaultConfig
  | None => DefaultConfig
  end.

(** The node and the bootstrap peers. *)
Definition backend (w : WorkspaceDir) (node : bytes) : bytes * list bytes :=
  if decide (node = []) then
    match ws_Config w with Some c => if decide (pr_Bootstrap c = []) then (node, []) else ([], pr_Bootstrap c) | None => (node, []) end
  else (node, []).

Section profile.
Context `{Hpj : Json Profile} (host : nat → fate).

(** [None] when there is no file. *)
Definition loadConfig (p : string) (d : Desk) : Desk * result ctl_fail (option Profile) :=
  let '(d, f) := os_ReadFile host p d in
  (d, match f with
      | FileAbsent => Ok None
      | FileFails => Err FReadConfig
      | FileIs data => Some <$> of_option FParseConfig (Unmarshal data)
      end).

Definition saveConfig (p : string) (c : Profile) (d : Desk) : Desk * result ctl_fail unit :=
  match Marshal c with
  | None => (d, Err FEncodeConfig)
  | Some data => os_WriteFile host p (data ++ [nl]) d
  end.

(** [env] is $REVIKA_ROOT. *)
Definition resolveWorkspace (env flagVal : string) (d : Desk) : Desk * result ctl_fail WorkspaceDir :=
  let p := if decide (flagVal = "") then env else flagVal in
  let p := if decide (p = "") then defaultWorkspaceDir else p in
  let '(d, st) := os_Stat host p d in
  match st with
  | StatFile => (d, Ok (mkWs defaultWorkspaceDir p None true))
  | StatFails => (d, Err (FStat p))
  | StatDir | StatAbsent =>
      let '(d, cfg) := loadConfig (path_Join p configFileName) d in
      (d, cfg ← cfg; Ok (mkWs p (path_Join p rootFileName) cfg false))
  end.

(** [deviceTag]: the tag, and the workspace with it; [rnd] is what crypto/rand
    gives. A failure to save is ignored. *)
Definition deviceTag (rnd : option bytes) (w : WorkspaceDir) (d : Desk) : Desk * (WorkspaceDir * string) :=
  match ws_Config w with
  | None => (d, (w, ""))
  | Some c =>
      if decide (pr_DeviceTag c = "") then
        match rnd with
        | None => (d, (w, ""))
        | Some b =>
            let tag := Hex.EncodeToString b in
            let c := mkProfile (pr_Label c) (pr_Bootstrap c) (pr_K c) (pr_M c) (pr_Difficulty c) tag in
            let '(d, _) := saveConfig (path_Join (ws_Dir w) configFileName) c d in
            (d, (mkWs (ws_Dir w) (ws_RootFile w) (Some c) (ws_fileMode w), tag))
        end
      else (d, (w, pr_DeviceTag c))
  end.
End profile.

(** ** Identities *)

(** The random draws of a mint: the seed of the ML-KEM pair, the signing keys in the
    order they are tried (until the source fails), and the salts and nonces of the
    two secret files. *)
Record MintDraw := mkMint {
  mi_seed : option bytes; mi_keys : list bytes; mi_salt : nat → option bytes; mi_nonce : nat → option bytes }.

Section identity.
Context `{Hed : Ed25519} `{Hgcm : AesGcm} `{Harg : Argon2} `{Hkem : MlKem} (passphrase : option bytes) (host : nat → fate).

(** [mintSigningKey]: without proof of work the first key is taken. *)
Definition mintSigningKey (puzzle : Argon2idPuzzle) (d : Z) (keys : list bytes) : result ctl_fail (bytes * bytes) :=
  if d =? 0 then of_option FMint ((λ k, (k, Public k)) <$> head keys) else of_option FMint (mint_worker puzzle d keys).

(** The loop of [mintFailingSigningKey] with [n] rounds left. *)
Fixpoint mint_failing (puzzle : Argon2idPuzzle) (d n : Z) (keys : list bytes) : result ctl_fail (bytes * bytes) :=
  if n =? 0 then Err FPowFail
  else match keys with
       | [] => Err FMint
       | k :: keys => if negb (MeetsPoW puzzle (Public k) d) then Ok (k, Public k) else mint_failing puzzle d (n - 1) keys
       end.
Definition mintFailingSigningKey (puzzle : Argon2idPuzzle) (d : Z) (keys : list bytes) : result ctl_fail (bytes * bytes) :=
  if d =? 0 then Err FPowFail else mint_failing puzzle d 1000000 keys.

(** The text of a key file. *)
Definition key_text (key : bytes) : bytes := str_bytes (B64.EncodeToString key) ++ [nl].

(** writeSecret to a path. *)
Definition write_secret (salt nonce : option bytes) (p : string) (plaintext : bytes) (d : Desk) : Desk * result ctl_fail unit :=
  match writeSecret passphrase salt nonce plaintext with
  | Err e => (d, Err (FSecret e))
  | Ok data => os_WriteFile host p data d
  end.

(** The four files of an identity, in the order they are written. *)
Definition write_identity (dr : MintDraw) (prefix : string) (priv pub signKey signPub : bytes) (d : Desk) : Desk * result ctl_fail bytes :=
  let '(d, r) := os_MkdirAll host (fp_Dir (prefix +:+ ".key")) d in
  match r with Err e => (d, Err e) | Ok _ =>
  let '(d, r) := write_secret (mi_salt dr 0) (mi_nonce dr 0) (prefix +:+ ".key") (key_text priv) d in
  match r with Err e => (d, Err e) | Ok _ =>
  let '(d, r) := os_WriteFile host (prefix +:+ ".pub") (key_text pub) d in
  match r with Err e => (d, Err e) | Ok _ =>
  let '(d, r) := write_secret (mi_salt dr 1) (mi_nonce dr 1) (prefix +:+ ".sign.key") (key_text signKey) d in
  match r with Err e => (d, Err e) | Ok _ =>
  let '(d, r) := os_WriteFile host (prefix +:+ ".sign.pub") (key_text signPub) d in
  (d, match r with Err e => Err e | Ok _ => Ok pub end)
  end end end end.

(** The key pairs of a new identity. *)
Definition draw_identity (dr : MintDraw) (puzzle : Argon2idPuzzle) (df : Z) (powFail : bool) : result ctl_fail (bytes * bytes * (bytes * bytes)) :=
  priv ← of_option FIdentity (mi_seed dr);
  pub ← map_err (λ _, FIdentity) (PublicOf priv);
  s ← (if powFail then mintFailingSigningKey else mintSigningKey) puzzle df (mi_keys dr);
  Ok (priv, pub, s).

(** An existing private key is never overwritten. *)
Definition must_be_absent (p : string) (st : stat_res) : result ctl_fail unit :=
  match st with StatFile | StatDir => Err (FOverwrite p) | StatFails => Err (FStat p) | StatAbsent => Ok tt end.

Definition mintAndWriteIdentity (dr : MintDraw) (prefix : string) (puzzle : Argon2idPuzzle) (df : Z) (powFail : bool) (d : Desk) : Desk * result ctl_fail bytes :=
  let '(d, st) := os_Stat host (prefix +:+ ".key") d in
  match must_be_absent (prefix +:+ ".key") st with Err e => (d, Err e) | Ok _ =>
  let '(d, st) := os_Stat host (prefix +:+ ".sign.key") d in
  match must_be_absent (prefix +:+ ".sign.key") st with Err e => (d, Err e) | Ok _ =>
  match draw_identity dr puzzle df powFail with
  | Err e => (d, Err e)
  | Ok (priv, pub, (signKey, signPub)) => write_identity dr prefix priv pub signKey signPub d
  end end end.

Definition cmdKeygen (dr : MintDraw) (prefix : string) (powDifficulty : Z) (powFail : bool) (d : Desk) : Desk * result ctl_fail bytes :=
  if 255 <? powDifficulty then (d, Err (FDifficulty powDifficulty)) else mintAndWriteIdentity dr prefix DefaultArgon2id powDifficulty powFail d.

(** [confirm]: the answer to a prompt, from the line read ([None]: the read failed). *)
Definition confirm (line : option bytes) : result ctl_fail bool :=
  line ← of_option FConfirm line;
  let a := ToLower (TrimSpace line) in Ok (bool_decide (a = text "y" ∨ a = text "yes")).

(** loadSignKey at a path. *)
Definition load_sign (p : string) (d : Desk) : Desk * result ctl_fail bytes :=
  let '(d, f) := os_ReadFile host p d in (d, map_err FSecret (loadSignKey passphrase f)).

(** [tty]: stdin is a terminal; [line]: what the user types. *)
Definition loadOrCreateSignKey (dr : MintDraw) (tty : bool) (line : option bytes) (w : WorkspaceDir) (p : string) (d : Desk) : Desk * result ctl_fail bytes :=
  let '(d, st) := os_Stat host p d in
  match st with
  | StatFile | StatDir => load_sign p d
  | StatFails => (d, Err (FStat p))
  | StatAbsent =>
      if negb tty then (d, Err (FNoIdentity p))
      else match powSettings w with
           | Err e => (d, Err e)
           | Ok (puzzle, df) =>
               match confirm line with
               | Err e => (d, Err e)
               | Ok false => (d, Err FAborted)
               | Ok true =>
                   let '(d, r) := mintAndWriteIdentity dr (TrimSuffix p ".sign.key") puzzle df false d in
                   match r with Err e => (d, Err e) | Ok _ => load_sign p d end
               end
           end
  end.
End identity.

(** ** connect *)

Section connect.
Context `{Hsha : Sha256} `{Hed : Ed25519} `{Hgcm : AesGcm} `{Harg : Argon2} `{Hkem : MlKem} `{Hnj : Json NodeParams} `{Hpj : Json Profile}.
Context (passphrase : option bytes) (host : nat → fate) {W : Type}.
Context (node : bytes → Peer W) (on_params : bytes → W → W * reply) (dial : bytes → W → W * bool) (AddrInfoFromString : bytes → option bytes).

(** [new_host]: NewHost succeeds. *)
Definition fetchNodeParams (new_host : bool) (bootstrap : list bytes) (w : W) : W * result ctl_fail Z :=
  if new_host then
    let '(w, r) := FetchNodePolicy node on_params dial AddrInfoFromString bootstrap w in
    (w, np ← map_err FPolicy r; Ok (pow_Difficulty (np_PoW np)))
  else (w, Err FHost).

(** The identity at the end of connect: kept when it is there. *)
Definition connect_identity (dr : MintDraw) (prefix : string) (difficulty : Z) (d : Desk) : Desk * result ctl_fail (option bytes) :=
  let '(d, st) := os_Stat host (prefix +:+ ".sign.key") d in
  match st with
  | StatFile | StatDir => (d, Ok None)
  | StatFails => (d, Err (FStat (prefix +:+ ".sign.key")))
  | StatAbsent =>
      match pow_resolve difficulty with
      | Err e => (d, Err e)
      | Ok (puzzle, df) =>
          let '(d, r) := mintAndWriteIdentity passphrase host dr prefix puzzle df false d in (d, Some <$> r)
      end
  end.

(** From the check of the profile on: learn the policy, save the profile, mint. *)
Definition connect_to (dr : MintDraw) (new_host : bool) (boots : list bytes) (dir label : string) (k m : Z) (d : Desk) (w : W) : Desk * W * result ctl_fail (option bytes) :=
  let '(w, pow) := fetchNodeParams new_host boots w in
  match pow with Err e => (d, w, Err e) | Ok pow =>
  let '(d, r) := saveConfig host (path_Join dir configFileName) (mkProfile label boots k m pow "") d in
  match r with Err e => (d, w, Err e) | Ok _ =>
  let '(d, r) := connect_identity dr (key_prefix dir) pow d in (d, w, r)
  end end.

(** The flags -k and -m are int: their sum wraps. The key of a new identity is
    returned. *)
Definition cmdConnect (dr : MintDraw) (new_host : bool) (boots : list bytes) (dir label : string) (k m : Z) (force : bool) (d : Desk) (w : W)
    : Desk * W * result ctl_fail (option bytes) :=
  if decide (boots = []) then (d, w, Err FNoBootstrap)
  else if (k <? 1) || (m <? 1) then (d, w, Err FErasure)
  else if 256 <? i64 (k + m) then (d, w, Err (FTooMany (i64 (k + m))))
  else
    let '(d, r) := os_MkdirAll host dir d in
    match r with Err e => (d, w, Err e) | Ok _ =>
    let '(d, st) := os_Stat host (path_Join dir configFileName) d in
    match st, force with
    | StatFile, false | StatDir, false => (d, w, Err FConfigExists)
    | StatFails, _ => (d, w, Err (FStat (path_Join dir configFileName)))
    | _, _ => connect_to dr new_host boots dir label k m d w
    end end.
End connect.

(** ** Paths *)

Lemma join_slash_ends parts b : ∃ x, join_slash (parts ++ [b]) = x +:+ b.
Proof.
  induction parts as [|c parts [x IH]]; [by exists ""|]. cbn [app]. destruct (parts ++ [b]) as [|y l] eqn:E; [by destruct parts|].
  exists (c +:+ String "/" x). change (join_slash (c :: y :: l)) with (c +:+ String "/" (join_slash (y :: l))). rewrite IH. by rewrite str_app_assoc.
Qed.

(** A cleaned path ends with its last component. *)
Lemma path_Clean_ends a b : a ≠ "" → normal b → ∃ x, path_Clean (a +:+ String "/" b) = x +:+ b.
Proof.
  intros Ha Hb. unfold path_Clean. rewrite rel_parts_snoc by done. destruct (join_slash_ends (rel_parts a) b) as [x ->].
  destruct (path_rooted _); [by exists (String "/" x)|]. case_decide as E; [by destruct (rel_parts a)|by exists x].
Qed.

Lemma config_path_ends dir : ∃ x, path_Join dir configFileName = x +:+ "config.json".
Proof.
  unfold path_Join. case_decide; [by exists ""|]. rewrite decide_False by done. apply path_Clean_ends; [done|]. by split_and!; vm_compute.
Qed.

Lemma key_prefix_ends dir : ∃ x, key_prefix dir = x +:+ "user".
Proof.
  unfold key_prefix, path_Join. case_decide; [by exists "keys/"|]. rewrite decide_False by done.
  replace (dir +:+ "/keys/user") with ((dir +:+ "/keys") +:+ "/user") by (by rewrite str_app_assoc).
  apply path_Clean_ends; [by destruct dir|]. by split_and!; vm_compute.
Qed.

Lemma str_bytes_app a b : str_bytes (a +:+ b) = str_bytes a ++ str_bytes b.
Proof. induction a as [|c a IH]; [done|]. change (str_bytes (String c a +:+ b)) with (byte_of_ascii c :: str_bytes (a +:+ b)). by rewrite IH. Qed.

Lemma str_last_neq a x b y c c' : last (str_bytes x) = Some c → last (str_bytes y) = Some c' → c ≠ c' → a +:+ x ≠ b +:+ y.
Proof.
  intros Hx Hy Hc E. apply Hc. apply (f_equal (λ s, last (str_bytes s))) in E. rewrite !str_bytes_app, !last_app, Hx, Hy in E. by injection E.
Qed.

(** The four files of an identity, and the profile, are five files. *)
Definition key_files (prefix : string) : list string := [prefix +:+ ".key"; prefix +:+ ".pub"; prefix +:+ ".sign.key"; prefix +:+ ".sign.pub"].

Lemma key_files_NoDup prefix : NoDup (key_files prefix).
Proof.
  unfold key_files. change [_; _; _; _] with ((λ s, prefix +:+ s) <$> [".key"; ".pub"; ".sign.key"; ".sign.pub"]).
  apply NoDup_fmap_2; [intros x y; apply str_app_inj|]. refine (proj1 (bool_decide_eq_true _) _). vm_compute. reflexivity.
Qed.

Lemma config_not_key dir : path_Join dir configFileName ∉ key_files (key_prefix dir).
Proof.
  destruct (config_path_ends dir) as [x ->], (key_prefix_ends dir) as [y ->]. unfold key_files. rewrite !str_app_assoc.
  rewrite !elem_of_cons, elem_of_nil. intros [E|[E|[E|[E|[]]]]]; revert E; by eapply str_last_neq.
Qed.

(** ** What a call leaves as it was *)

(** Only the files [ps] may have changed, and no directory has become a file. *)
Definition keeps (ps : list string) (d d' : Desk) : Prop :=
  ∀ q x, dk_files d !! q = Some x → q ∉ ps ∨ x = IDir → dk_files d' !! q = Some x.

#[export] Instance keeps_preorder ps : PreOrder (keeps ps).
Proof. split; [by intros d q x|]. intros a b c Hab Hbc q x Hq Hx. by apply Hbc; [apply Hab|]. Qed.

Lemma keeps_mono ps qs d d' : ps ⊆ qs → keeps ps d d' → keeps qs d d'.
Proof. intros Hs Hk q x Hq Hx. apply Hk; [done|]. destruct Hx as [Hx|Hx]; [|by right]. left. intros Hin. by apply Hx, Hs. Qed.

Lemma keeps_same ps d d' : dk_files d' = dk_files d → keeps ps d d'.
Proof. intros E q x Hq _. by rewrite E. Qed.

Section calls.
Context (host : nat → fate).

Lemma WriteFile_keeps p data d : keeps [p] d (os_WriteFile host p data d).1.
Proof.
  intros q x Hq Hx. unfold os_WriteFile. destruct (dk_files d !! p) as [[data'|]|] eqn:Ep; [|done|]; destruct (host (dk_calls d)); cbn [fst dk_files files_put tick_desk]; try done.
  all: rewrite lookup_insert_ne; [done|]; intros ->; rewrite Hq in Ep; destruct Hx as [Hx| ->]; [destruct Hx; by left|done].
Qed.

Lemma WriteFile_Ok p data d d' : os_WriteFile host p data d = (d', Ok tt) → dk_files d' = <[p := IFile data]> (dk_files d).
Proof. unfold os_WriteFile. destruct (dk_files d !! p) as [[]|]; destruct (host (dk_calls d)); intros [= <-]; done. Qed.

Lemma MkdirAll_keeps p d : keeps [] d (os_MkdirAll host p d).1.
Proof.
  intros q x Hq _. unfold os_MkdirAll. destruct (dk_files d !! p) as [[]|] eqn:Ep; destruct (host (dk_calls d)); try done. cbn [fst dk_files].
  rewrite lookup_insert_ne; [done|]. congruence.
Qed.

Lemma MkdirAll_Ok p d d' : os_MkdirAll host p d = (d', Ok tt) → dk_files d' !! p = Some IDir.
Proof. unfold os_MkdirAll. destruct (dk_files d !! p) as [[]|] eqn:Ep; destruct (host (dk_calls d)); intros [= <-]; cbn; [done|]. apply lookup_insert_eq. Qed.

Lemma Stat_spec p d d' st : os_Stat host p d = (d', st) → dk_files d' = dk_files d ∧ (st ≠ StatFails → st = stat_at p (dk_files d)).
Proof. unfold os_Stat. destruct (host (dk_calls d)); intros [= <- <-]; done. Qed.
End calls.

(** ** Identities on disk *)

Lemma digit_ink n : 0 ≤ n < 64 → ink (byte_of_ascii (B64.digit n)) = true.
Proof.
  intros Hn. assert (forallb (λ k, ink (byte_of_ascii (B64.digit (Z.of_nat k)))) (seq 0 64) = true) as H by (vm_compute; reflexivity).
  rewrite forallb_forall in H. rewrite <-(Z2Nat.id n) by lia. apply H, in_seq. lia.
Qed.

Lemma encode_ink b : forallb ink (byte_of_ascii <$> B64.encode b) = true.
Proof.
  induction b as [|x|x y|x y z b IH] using B64.bytes_ind3; [done|..]; cbn [B64.encode fmap list_fmap forallb].
  - destruct (B64.bounds x x x) as (H1 & _ & H2 & _). by rewrite !digit_ink.
  - destruct (B64.bounds x y x) as (H1 & H2 & _ & _ & H3 & _). by rewrite !digit_ink.
  - destruct (B64.bounds x y z) as (H1 & H2 & _ & H3 & _ & H4). rewrite !digit_ink by done. exact IH.
Qed.

Lemma key_text_b64 key : key_text key = (byte_of_ascii <$> B64.encode key) ++ [nl].
Proof.
  unfold key_text, str_bytes, B64.EncodeToString. f_equal. induction (B64.encode key) as [|c l IH]; [done|].
  cbn [String.string_of_list_ascii fmap list_fmap]. change (String.list_byte_of_string (String c ?s)) with (byte_of_ascii c :: String.list_byte_of_string s). by rewrite IH.
Qed.

(** A key file that holds the text of a key is plain, and parses as that key. *)
Lemma key_text_plain key : AtRest.IsEncrypted (key_text key) = false.
Proof.
  apply bool_decide_eq_false. intros E. assert (Byte.x01 ∈ key_text key) as Hin.
  { assert (Byte.x01 ∈ take 8 (key_text key)) as H by (rewrite E; refine (proj1 (bool_decide_eq_true _) _); vm_compute; reflexivity).
    by apply elem_of_take in H as (i & H & _); apply list_elem_of_lookup_2 in H. }
  rewrite key_text_b64 in Hin. apply elem_of_app in Hin as [Hin|Hin%list_elem_of_singleton]; [|done].
  pose proof (encode_ink key) as H. rewrite forallb_forall in H. by apply list_elem_of_In, H in Hin.
Qed.

Lemma key_text_parses key n : length key = S n → parseKey (S n) (trimmed (key_text key)) = Some key.
Proof.
  intros Hl. unfold trimmed. rewrite key_text_b64, TrimSpace_tail; [|by destruct key as [|?[|?[|? ?]]]|apply encode_ink|by repeat constructor; right].
  assert (str_bytes (B64.EncodeToString key) = byte_of_ascii <$> B64.encode key) as <-.
  { pose proof (key_text_b64 key) as E. unfold key_text in E. by apply app_inv_tail in E. }
  unfold str_bytes. rewrite String.string_of_list_byte_of_string. unfold parseKey. rewrite B64.Decode_Encode64. by rewrite decide_True.
Qed.

Section identities.
Context `{Hed : Ed25519} `{Hgcm : AesGcm} `{Harg : Argon2} `{Hkem : MlKem} (passphrase : option bytes) (host : nat → fate).

(** The draws have the sizes of their Go types. *)
Record draws_ok (dr : MintDraw) : Prop := {
  do_seed : ∀ s, mi_seed dr = Some s → length s = PrivateKeySize ∧ ∀ pub, PublicOf s = Ok pub → length pub = PublicKeySize;
  do_keys : Forall (λ k, length k = SignKeySize) (mi_keys dr);
  do_salt : ∀ i s, mi_salt dr i = Some s → length s = 16%nat;
  do_nonce : ∀ i s, mi_nonce dr i = Some s → length s = 12%nat;
}.

Lemma written_secret salt nonce pt data : (∀ s, salt = Some s → length s = 16%nat) → (∀ s, nonce = Some s → length s = 12%nat) →
  AtRest.IsEncrypted pt = false → writeSecret passphrase salt nonce pt = Ok data → readSecret passphrase (FileIs data) = Ok pt.
Proof.
  intros Hs Hn Hp E. unfold writeSecret in E. destruct passphrase as [pp|] eqn:Epp.
  - destruct salt as [s|]; [|done]. destruct nonce as [n|]; [|done].
    destruct (secret_roundtrip (Some pp) s n pt (Hs _ eq_refl) (Hn _ eq_refl) ltac:(done)) as (data' & E' & Hr & _). unfold writeSecret in E'. rewrite E in E'.
    by injection E' as <-.
  - injection E as <-. unfold readSecret. by rewrite Hp.
Qed.

Lemma mint_worker_Some pz d keys k pk : mint_worker pz d keys = Some (k, pk) → k ∈ keys ∧ pk = Public k ∧ MeetsPoW pz pk d = true.
Proof.
  induction keys as [|k0 keys IH]; [done|]. cbn [mint_worker]. destruct (MeetsPoW pz (Public k0) d) eqn:E.
  - intros [= <- <-]. by split_and!; [left| |].
  - intros (? & ? & ?)%IH. by split_and!; [right| |].
Qed.

Lemma MeetsPoW_mono pz pk d d' : d' ≤ d → MeetsPoW pz pk d = true → MeetsPoW pz pk d' = true.
Proof.
  unfold MeetsPoW. pose proof (leadingZeroBits_range (Sum pz pk)). destruct (Z.eqb_spec d' 0); [done|]. destruct (Z.eqb_spec d 0); rewrite !Z.leb_le; lia.
Qed.

Lemma mintSigningKey_Ok pz d keys k pk : mintSigningKey pz d keys = Ok (k, pk) → k ∈ keys ∧ pk = Public k ∧ MeetsPoW pz pk d = true.
Proof.
  unfold mintSigningKey. destruct (Z.eqb_spec d 0) as [-> |].
  - destruct keys as [|k0 keys]; [done|]. intros [= <- <-]. by split_and!; [left| |].
  - destruct (mint_worker pz d keys) as [[? ?]|] eqn:E; [|done]. intros [= -> ->]. by apply mint_worker_Some.
Qed.
End identities.

Section minting.
Context `{Hed : Ed25519} `{Hgcm : AesGcm} `{Harg : Argon2} `{Hkem : MlKem} (passphrase : option bytes) (host : nat → fate).
Implicit Types (dr : MintDraw) (prefix : string) (d : Desk).

Lemma write_secret_keeps salt nonce p pt d : keeps [p] d (write_secret passphrase host salt nonce p pt d).1.
Proof. unfold write_secret. destruct (writeSecret _ _ _ _); [apply WriteFile_keeps|by apply keeps_same]. Qed.

Lemma write_secret_Ok salt nonce p pt d d' : write_secret passphrase host salt nonce p pt d = (d', Ok tt) →
  ∃ data, writeSecret passphrase salt nonce pt = Ok data ∧ dk_files d' = <[p := IFile data]> (dk_files d).
Proof. unfold write_secret. destruct (writeSecret _ _ _ _) as [data|]; [|done]. intros E%WriteFile_Ok. by exists data. Qed.

Lemma keeps_key prefix p d d1 d2 : p ∈ key_files prefix → keeps (key_files prefix) d d1 → keeps [p] d1 d2 → keeps (key_files prefix) d d2.
Proof. intros Hp K1 K2. etransitivity; [exact K1|]. eapply keeps_mono; [|exact K2]. by intros x ->%list_elem_of_singleton. Qed.

Lemma write_identity_keeps dr prefix priv pub sk sp d : keeps (key_files prefix) d (write_identity passphrase host dr prefix priv pub sk sp d).1.
Proof.
  unfold write_identity. pose proof (keeps_mono _ (key_files prefix) _ _ (list_subseteq_nil _) (MkdirAll_keeps host (fp_Dir (prefix +:+ ".key")) d)) as K.
  destruct (os_MkdirAll host _ d) as [d1 [[]|]]; [|done].
  pose proof (keeps_key _ _ _ _ _ ltac:(left) K (write_secret_keeps (mi_salt dr 0) (mi_nonce dr 0) (prefix +:+ ".key") (key_text priv) d1)) as K2.
  destruct (write_secret _ _ _ _ _ _ d1) as [d2 [[]|]]; [|done].
  pose proof (keeps_key _ _ _ _ _ ltac:(right; left) K2 (WriteFile_keeps host (prefix +:+ ".pub") (key_text pub) d2)) as K3.
  destruct (os_WriteFile host _ _ d2) as [d3 [[]|]]; [|done].
  pose proof (keeps_key _ _ _ _ _ ltac:(do 2 right; left) K3 (write_secret_keeps (mi_salt dr 1) (mi_nonce dr 1) (prefix +:+ ".sign.key") (key_text sk) d3)) as K4.
  destruct (write_secret _ _ _ _ _ _ d3) as [d4 [[]|]]; [|done].
  pose proof (keeps_key _ _ _ _ _ ltac:(do 3 right; left) K4 (WriteFile_keeps host (prefix +:+ ".sign.pub") (key_text sp) d4)) as K5.
  by destruct (os_WriteFile host _ _ d4).
Qed.

(** A complete write: every file holds its key. *)
Lemma write_identity_Ok dr prefix priv pub sk sp d d' o : write_identity passphrase host dr prefix priv pub sk sp d = (d', Ok o) →
  o = pub ∧ ∃ e1 e2, writeSecret passphrase (mi_salt dr 0) (mi_nonce dr 0) (key_text priv) = Ok e1 ∧ writeSecret passphrase (mi_salt dr 1) (mi_nonce dr 1) (key_text sk) = Ok e2 ∧
    dk_files d' !! (prefix +:+ ".key") = Some (IFile e1) ∧ dk_files d' !! (prefix +:+ ".pub") = Some (IFile (key_text pub)) ∧
    dk_files d' !! (prefix +:+ ".sign.key") = Some (IFile e2) ∧ dk_files d' !! (prefix +:+ ".sign.pub") = Some (IFile (key_text sp)).
Proof.
  unfold write_identity. destruct (os_MkdirAll host _ d) as [d1 [[]|]]; [|done].
  destruct (write_secret _ _ _ _ _ _ d1) as [d2 [[]|]] eqn:E2; [|done]. destruct (os_WriteFile host _ _ d2) as [d3 [[]|]] eqn:E3; [|done].
  destruct (write_secret _ _ _ _ _ _ d3) as [d4 [[]|]] eqn:E4; [|done]. destruct (os_WriteFile host _ _ d4) as [d5 [[]|]] eqn:E5; [|done].
  apply write_secret_Ok in E2 as (e1 & W1 & F1), E4 as (e2 & W2 & F2). apply WriteFile_Ok in E3, E5. intros [= <- <-]. split; [done|].
  exists e1, e2. rewrite E5, F2, E3, F1. pose proof (str_app_inj prefix) as Hi.
  split_and!; [done|done|..]; repeat (rewrite lookup_insert_ne; [|intros E%Hi; discriminate E]); apply lookup_insert_eq.
Qed.

(** Nothing at all is written when a private key is there. *)
Lemma mint_refuses dr prefix pz df pf d : is_Some (dk_files d !! (prefix +:+ ".key")) ∨ is_Some (dk_files d !! (prefix +:+ ".sign.key")) →
  dk_files (mintAndWriteIdentity passphrase host dr prefix pz df pf d).1 = dk_files d.
Proof.
  intros Hex. unfold mintAndWriteIdentity. destruct (os_Stat host _ d) as [d1 s1] eqn:E1. apply Stat_spec in E1 as [F1 S1].
  destruct s1; cbn [must_be_absent fst]; [done|done| |done]. destruct (os_Stat host _ d1) as [d2 s2] eqn:E2. apply Stat_spec in E2 as [F2 S2].
  destruct s2; cbn [must_be_absent fst]; try congruence. exfalso. specialize (S1 ltac:(done)). specialize (S2 ltac:(done)). rewrite F1 in S2. unfold stat_at in S1, S2.
  destruct Hex as [[x Hx]|[x Hx]]; rewrite Hx in *; by destruct x.
Qed.

Lemma mint_keeps dr prefix pz df pf d : keeps (key_files prefix) d (mintAndWriteIdentity passphrase host dr prefix pz df pf d).1.
Proof.
  unfold mintAndWriteIdentity. destruct (os_Stat host _ d) as [d1 s1] eqn:E1. apply Stat_spec in E1 as [F1 _].
  destruct (must_be_absent _ s1); [|by apply keeps_same]. destruct (os_Stat host _ d1) as [d2 s2] eqn:E2. apply Stat_spec in E2 as [F2 _].
  assert (keeps (key_files prefix) d d2) as K by (apply keeps_same; congruence). destruct (must_be_absent _ s2); [|done].
  destruct (draw_identity _ _ _ _) as [[[priv pub] [sk sp]]|]; [|done]. etransitivity; [exact K|]. apply write_identity_keeps.
Qed.

(** A minted identity reads back: the signing key, which meets the difficulty, and
    the encryption pair. *)
Lemma mint_Ok dr prefix pz df d d' pub : draws_ok dr → mintAndWriteIdentity passphrase host dr prefix pz df false d = (d', Ok pub) →
  ∃ priv sk, loadSignKey passphrase (content (prefix +:+ ".sign.key") (dk_files d')) = Ok sk ∧ MeetsPoW pz (Public sk) df = true ∧
    ownerMLKEM passphrase (content (prefix +:+ ".key") (dk_files d')) = Ok (Some (priv, pub)) ∧
    resolveRecipient (content (prefix +:+ ".pub") (dk_files d')) = Ok pub.
Proof.
  intros Hd. unfold mintAndWriteIdentity. destruct (os_Stat host _ d) as [d1 s1]. destruct (must_be_absent _ s1); [|done].
  destruct (os_Stat host _ d1) as [d2 s2]. destruct (must_be_absent _ s2); [|done]. unfold draw_identity.
  destruct (mi_seed dr) as [priv|] eqn:Es; [|done]. cbn [of_option mbind result_bind]. destruct (PublicOf priv) as [pub'|] eqn:Ep; [|done].
  cbn [map_err mbind result_bind]. destruct (mintSigningKey _ _ _) as [[sk sp]|] eqn:Em; [|done]. cbn [mbind result_bind].
  intros (-> & e1 & e2 & W1 & W2 & F1 & F2 & F3 & _)%write_identity_Ok. apply mintSigningKey_Ok in Em as (Hk & -> & Hm).
  destruct Hd as [Hseed Hkeys Hsalt Hnonce]. destruct (Hseed _ Es) as [Hl Hpl]. rewrite Forall_forall in Hkeys.
  exists priv, sk. unfold content. rewrite F1, F2, F3. unfold loadSignKey, ownerMLKEM, resolveRecipient.
  rewrite (written_secret passphrase _ _ _ _ (Hsalt _) (Hnonce _) (key_text_plain _) W1), (written_secret passphrase _ _ _ _ (Hsalt _) (Hnonce _) (key_text_plain _) W2).
  cbn [mbind result_bind]. unfold SignKeySize, PrivateKeySize, PublicKeySize in *. rewrite !key_text_parses by auto. cbn [of_option mbind result_bind]. rewrite Ep. done.
Qed.
End minting.

(** ** A connected workspace *)

Section connected.
Context `{Hsha : Sha256} `{Hed : Ed25519} `{Hgcm : AesGcm} `{Harg : Argon2} `{Hkem : MlKem} `{Hnj : Json NodeParams} `{Hpj : Json Profile} `{Hpt : !JsonText Profile}.
Context (passphrase : option bytes) (host : nat → fate) {W : Type}.
Context (node : bytes → Peer W) (on_params : bytes → W → W * reply) (dial : bytes → W → W * bool) (AddrInfoFromString : bytes → option bytes).

Lemma connect_identity_keeps dr prefix df d :
  keeps (key_files prefix) d (connect_identity passphrase host dr prefix df d).1 ∧
  (is_Some (dk_files d !! (prefix +:+ ".key")) ∨ is_Some (dk_files d !! (prefix +:+ ".sign.key")) →
   dk_files (connect_identity passphrase host dr prefix df d).1 = dk_files d).
Proof.
  unfold connect_identity. destruct (os_Stat host _ d) as [d1 st] eqn:E. apply Stat_spec in E as [F _].
  assert (keeps (key_files prefix) d d1) as K by (by apply keeps_same). destruct st; [done|done| |done].
  destruct (pow_resolve df) as [[pz df']|]; [|done].
  pose proof (mint_keeps passphrase host dr prefix pz df' false d1) as Km. pose proof (mint_refuses passphrase host dr prefix pz df' false d1) as Hm. rewrite F in Hm.
  destruct (mintAndWriteIdentity _ _ _ _ _ _ _ d1) as [d2 r]. cbn [fst] in *. split; [by etransitivity|done].
Qed.

(** What connect has done when it comes to the identity. *)
Record profiled (boots : list bytes) (dir label : string) (k m : Z) (w : W) (d : Desk) (np : NodeParams) (j : bytes) : Prop := {
  pd_policy : (FetchNodePolicy node on_params dial AddrInfoFromString boots w).2 = Ok np;
  pd_dir : dk_files d !! dir = Some IDir;
  pd_json : Marshal (mkProfile label boots k m (pow_Difficulty (np_PoW np)) "") = Some j;
  pd_file : dk_files d !! path_Join dir configFileName = Some (IFile (j ++ [nl]));
}.

Lemma connect_to_run dr new_host boots dir label k m d w d' w' r : dk_files d !! dir = Some IDir →
  connect_to passphrase host node on_params dial AddrInfoFromString dr new_host boots dir label k m d w = (d', w', r) →
  (keeps [path_Join dir configFileName] d d' ∧ is_ok r = false) ∨
  ∃ d1 np j, keeps [path_Join dir configFileName] d d1 ∧ profiled boots dir label k m w d1 np j ∧
    connect_identity passphrase host dr (key_prefix dir) (pow_Difficulty (np_PoW np)) d1 = (d', r).
Proof.
  intros Hdir. unfold connect_to, fetchNodeParams. destruct new_host; [|intros [= <- <- <-]; by left].
  destruct (FetchNodePolicy _ _ _ _ _ w) as [w1 [np|]] eqn:Ep; cbn [map_err mbind result_bind]; [|intros [= <- <- <-]; by left].
  unfold saveConfig. destruct (Marshal _) as [j|] eqn:Ej; [|intros [= <- <- <-]; by left]. set (cp := path_Join _ _).
  pose proof (WriteFile_keeps host cp (j ++ [nl]) d) as K. destruct (os_WriteFile host cp _ d) as [d1 [[]|]] eqn:Ew; cbn [fst] in K; [|intros [= <- <- <-]; by left].
  apply WriteFile_Ok in Ew. destruct (connect_identity _ _ _ _ _ d1) as [d2 r2] eqn:Ei. intros [= <- <- <-]. right. exists d1, np, j. split_and!; [done| |done].
  split; [by rewrite Ep|apply K; [done|by right]|done|by rewrite Ew, lookup_insert_eq].
Qed.

Lemma connect_run dr new_host boots dir label k m force d w d' w' r :
  cmdConnect passphrase host node on_params dial AddrInfoFromString dr new_host boots dir label k m force d w = (d', w', r) →
  (keeps [path_Join dir configFileName] d d' ∧ is_ok r = false) ∨
  ∃ d1 np j, keeps [path_Join dir configFileName] d d1 ∧ boots ≠ [] ∧ 1 ≤ k ∧ 1 ≤ m ∧ profiled boots dir label k m w d1 np j ∧
    connect_identity passphrase host dr (key_prefix dir) (pow_Difficulty (np_PoW np)) d1 = (d', r).
Proof.
  unfold cmdConnect. case_decide; [intros [= <- <- <-]; by left|]. destruct (Z.ltb_spec k 1), (Z.ltb_spec m 1); cbn [orb]; try (intros [= <- <- <-]; by left).
  destruct (256 <? _); [intros [= <- <- <-]; by left|]. set (cp := path_Join _ _).
  pose proof (keeps_mono _ [cp] _ _ (list_subseteq_nil _) (MkdirAll_keeps host dir d)) as K1.
  destruct (os_MkdirAll host dir d) as [d1 [[]|]] eqn:E1; cbn [fst] in K1; [|intros [= <- <- <-]; by left].
  apply MkdirAll_Ok in E1. destruct (os_Stat host cp d1) as [d2 st] eqn:E2. apply Stat_spec in E2 as [F2 _].
  assert (keeps [cp] d d2) as K2 by (etransitivity; [exact K1|by apply keeps_same]). rewrite <-F2 in E1.
  destruct st, force; intros E; try (injection E as <- <- <-; by left).
  all: destruct (connect_to_run _ _ _ _ _ _ _ _ _ _ _ _ E1 E) as [[K ?]|(d3 & np & j & K & HP & Ei)]; [left; split; [by etransitivity|done]|].
  all: right; exists d3, np, j; split_and!; try done; by etransitivity.
Qed.

(** The identity step. *)
Lemma connect_identity_Ok dr prefix df d d' o : draws_ok dr → connect_identity passphrase host dr prefix df d = (d', Ok o) →
  match o with
  | None => is_Some (dk_files d !! (prefix +:+ ".sign.key")) ∧ dk_files d' = dk_files d
  | Some pub => ∃ priv sk, loadSignKey passphrase (content (prefix +:+ ".sign.key") (dk_files d')) = Ok sk ∧ MeetsPoW DefaultArgon2id (Public sk) df = true ∧
      ownerMLKEM passphrase (content (prefix +:+ ".key") (dk_files d')) = Ok (Some (priv, pub)) ∧
      resolveRecipient (content (prefix +:+ ".pub") (dk_files d')) = Ok pub
  end.
Proof.
  intros Hd. unfold connect_identity. destruct (os_Stat host _ d) as [d1 st] eqn:E. apply Stat_spec in E as [F S]. unfold stat_at in S.
  destruct st; try done; try specialize (S ltac:(done)).
  1, 2: intros [= <- <-]; split; [|done]; by destruct (dk_files d !! _).
  unfold pow_resolve. destruct (255 <? df); [done|]. destruct (mintAndWriteIdentity _ _ _ _ _ _ _ d1) as [d2 [pub|]] eqn:Em; [|done]. intros [= <- <-].
  by eapply mint_Ok.
Qed.

End connected.

(** ** Witnesses *)

(** A KEM whose public keys have the size of ML-KEM's. *)
Definition sized_kem : MlKem.
Proof.
  refine {| kem_public seed := Some (replicate 1120 Byte.x00 ++ last_bytes 64 seed);
            kem_encap pk rnd := Some (last_bytes 32 rnd, toy_kem_ct rnd);
            kem_decap seed ct := Some (drop 1056 ct) |}.
  - intros. eauto.
  - intros pk rnd k ct [E1 E2]%(inj Some)%pair_eq. rewrite <-E1, <-E2. split; [apply length_last_bytes|apply toy_kem_ct_spec].
  - intros seed pk rnd k ct _ [E1 E2]%(inj Some)%pair_eq. rewrite <-E1, <-E2. apply (f_equal Some), toy_kem_ct_spec.
Defined.

#[export] Instance Profile_ser : Ser Profile.
Proof.
  refine (ser_iso (λ c, (pr_Label c, pr_Bootstrap c, pr_K c, pr_M c, pr_Difficulty c, pr_DeviceTag c)) (λ '(a, b, c, d, e, f), mkProfile a b c d e f) _). by intros [].
Defined.
Definition text_profile : Json Profile := text_json Profile.
Definition text_profile_text : @JsonText Profile text_profile := text_json_text Profile.

(** The second signing key meets the difficulty of 12 bits. *)
Definition ex_mint : MintDraw :=
  mkMint (Some (replicate 64 Byte.x07)) [replicate 64 Byte.xff; replicate 64 Byte.x00] (λ _, Some (replicate 16 Byte.x01)) (λ _, Some (replicate 12 Byte.x02)).

Lemma ex_mint_ok : @draws_ok sized_kem ex_mint.
Proof.
  split.
  - intros s [= <-]. split; [reflexivity|]. intros pub [= <-]. vm_compute. reflexivity.
  - repeat constructor.
  - intros i s [= <-]. reflexivity.
  - intros i s [= <-]. reflexivity.
Qed.

Definition ex_connect : Desk * unit * result ctl_fail (option bytes) :=
  @cmdConnect toy_ed toy_gcm toy_argon sized_kem toy_params_json text_profile (Some [Byte.x70]) (λ _, Through) unit
    ex_peers ex_on_params (λ _ w, (w, true)) Some ex_mint true [[Byte.x01]; [Byte.x02]] "home/ws" "mine" 3 2 false (mkDesk ∅ 0) tt.

Lemma ex_connect_minted : is_ok ex_connect.2 = true ∧ (∀ o, ex_connect.2 = Ok o → o ≠ None).
Proof. split; [vm_compute; reflexivity|]. intros o E. apply (f_equal (λ r, match r with Ok None => true | _ => false end)) in E. intros ->. vm_compute in E. discriminate. Qed.

