(* ===== verification/DeviceCmd.v ===== *)
(** * cmd/revika-ctl: the device commands (device.go, config.go, commands.go)

    devices.json holds the signed list of the devices that may open the root
    companion. The commands change the list with the owner's key, save it, mirror
    it to the DHT and commit the current root again, so that a companion sealed to
    the new list replaces the old one. The state is the workspace folder and the
    three parts a commit works on; the root file is a FileRootStore. *)

From S2P Require Import Prelude GoLib Store Crypto Stripe Erasure Chunk Pipeline Blobs Wire Codec Base64 Manifest Namespace Merge Files.
From S2P Require Import Root Device Discovery RootStores Identity Commit Move Defense Browse Workspace Profile.

(** [deviceAuthPublisher] *)
Class DevicePublisher (D : Type) := { dp_PutDeviceAuth : Auth → D → D * result net_err unit }.
#[export] Instance discovery_device `{Sha256, Ed25519, Json deviceAuthJSON} {D} `{!Dht D} : DevicePublisher D := {| dp_PutDeviceAuth := PutDeviceAuth |}.

Inductive dev_err :=
| DcBare | DcRead | DcParse (e : codec_err) | DcSignature | DcEncode (e : codec_err) | DcDesk (e : ctl_fail) | DcKey (e : ws_err) | DcNoKey
| DcExists | DcNoRecord | DcForeign | DcDevice (e : device_err) | DcNoBackend | DcBackend | DcSingleNode
| DcRoot (e : ws_err) | DcShared | DcForeignRoot | DcCommit (e : commit_err).

(** What a command is given besides its arguments: the -signkey flag, the draws of
    an identity minted on demand, the terminal and what is typed, the device tag's
    randomness, whether dialling succeeds, the draws of the commit and its fuel. *)
Record Input := mkInput {
  in_signkey : string; in_mint : MintDraw; in_tty : bool; in_line : option bytes; in_tag : option bytes; in_up : bool; in_draws : nat → Draw; in_fuel : nat }.

(** How the record was made effective. *)
Inductive reseal := SavedLocally | NoRootYet | Resealed (conflicts : list string).

(** The workspace folder, and what a commit works on. *)
Record Station (W D : Type) := mkStation { st_desk : Desk; st_site : Site W D FileRootStore }.
Arguments mkStation {W D}. Arguments st_desk {W D}. Arguments st_site {W D}.

Section device_cmd.
Context `{Hsha : Sha256} `{Hed : Ed25519} `{Hgcm : AesGcm} `{Harg : Argon2} `{Hkem : MlKem}.
Context `{Hcj : Json readCapJSON} `{Hrj : Json rootPointerJSON} `{Haj : Json deviceAuthJSON} `{Hpj : Json Profile} `{Hj : DirJson}.
Context {W D : Type} `{Hb : !Blobs W} `{Hpub : !FullRootPublisher D} `{Hdp : !DevicePublisher D}.
Context (passphrase : option bytes) (host : nat → fate).
Implicit Types (ws : WorkspaceDir) (d : Desk) (a : Auth) (signer : bytes) (i : Input).

Definition with_desk (d : Desk) (s : Station W D) : Station W D := mkStation d (st_site s).

(** What devices.json says: [None] when there is none. *)
Definition read_auth (f : read_file) : result dev_err (option Auth) :=
  match f with
  | FileAbsent => Ok None
  | FileFails => Err DcRead
  | FileIs data =>
      a ← map_err DcParse (DecodeDeviceAuth data);
      if negb (auth_Verify a) then Err DcSignature else Ok (Some a)
  end.
Definition loadDeviceAuth ws d : Desk * result dev_err (option Auth) :=
  match devicesPath ws with
  | None => (d, Ok None)
  | Some p => let '(d, f) := os_ReadFile host p d in (d, read_auth f)
  end.

Definition saveDeviceAuth ws a d : Desk * result dev_err unit :=
  match devicesPath ws with
  | None => (d, Err DcBare)
  | Some p =>
      match EncodeDeviceAuth a with
      | Err e => (d, Err (DcEncode e))
      | Ok data => let '(d, r) := os_WriteFile host p (data ++ [nl]) d in (d, map_err DcDesk r)
      end
  end.

(** ownerMLKEM of the workspace. *)
Definition own_pair ws d : Desk * result dev_err (option (bytes * bytes)) :=
  let '(d, f) := os_ReadFile host (keyPrefix ws +:+ ".key") d in (d, map_err DcKey (ownerMLKEM passphrase f)).

Definition thisDevicePub ws d : Desk * result dev_err bytes :=
  let '(d, r) := own_pair ws d in
  (d, keys ← r; match keys with None => Err DcNoKey | Some (_, pub) => Ok pub end).

(** Its recipients, from the record that is loaded. *)
Definition recipients_of signer (selfPub : bytes) (auth : option Auth) : list bytes :=
  match auth with
  | None => []
  | Some a =>
      if bool_decide (au_Members a = []) || bool_decide (au_Owner a ≠ Public signer) then []
      else if bool_decide (selfPub ∈ Recipients a) then Recipients a else Recipients a ++ [selfPub]
  end.
Definition companionRecipients ws signer (selfPub : bytes) (mlkemOK : bool) d : Desk * result dev_err (list bytes) :=
  if negb mlkemOK then (d, Ok [])
  else let '(d, r) := loadDeviceAuth ws d in (d, auth ← r; Ok (recipients_of signer selfPub auth)).

Definition newCommitConfig i ws signer d : Desk * result dev_err commitConfig :=
  let '(d, keys) := own_pair ws d in
  match keys with Err e => (d, Err e) | Ok keys =>
  let priv := from_option fst [] keys in
  let pub := from_option snd [] keys in
  let ok := bool_decide (is_Some keys) in
  let '(d, rcpts) := companionRecipients ws signer pub ok d in
  match rcpts with Err e => (d, Err e) | Ok rcpts =>
  let '(d, (ws, tag)) := deviceTag host (in_tag i) ws d in
  (d, Ok (mkCC signer ok priv pub (deviceLabeler tag) (pipelineConfig ws) rcpts))
  end end.

(** loadRoot of the workspace's root file, without a key. *)
Definition load_root (f : FileRootStore) : FileRootStore * result dev_err (option (RootPointer * bool)) :=
  let file := if io_read_fails (fs_env f (fs_calls f)) then FileFails else match fs_path f with Some data => FileIs data | None => FileAbsent end in
  (tick f, map_err DcRoot (loadRoot passphrase file None)).

(** From the recovered publisher on: mirror the record, then commit the root again. *)
Definition reseal_root i ws signer a (s : Station W D) : Station W D * result dev_err reseal :=
  let '(dht, _) := dp_PutDeviceAuth a (si_dht (st_site s)) in
  let '(f, root) := load_root (si_file (st_site s)) in
  let site := mkSite (si_blobs (st_site s)) dht f in
  let s := mkStation (st_desk s) site in
  match root with
  | Err e => (s, Err e)
  | Ok None => (s, Ok NoRootYet)
  | Ok (Some (prev, true)) => (s, Err DcShared)
  | Ok (Some (prev, false)) =>
      if bool_decide (rp_Owner prev ≠ Public signer) then (s, Err DcForeignRoot)
      else
        let '(d, cc) := newCommitConfig i ws signer (st_desk s) in
        match cc with
        | Err e => (with_desk d s, Err e)
        | Ok cc =>
            let '(site, r) := commitRoot cc (in_draws i) (in_fuel i) (rp_Root prev) (Some prev) false PubFull
              (mkSite (si_blobs site) (si_dht site) (newRootStore passphrase (si_file site))) in
            (mkStation d site, match r with Ok c => Ok (Resealed c) | Err e => Err (DcCommit e) end)
        end
  end.

(** A store over -node has no publisher; the one over the DHT has all three kinds. *)
Definition deviceReseal i ws signer a (node : bytes) (requireNet : bool) (s : Station W D) : Station W D * result dev_err reseal :=
  let '(eNode, eBootstrap) := backend ws node in
  if bool_decide (eNode = []) && bool_decide (eBootstrap = []) then (s, if requireNet then Err DcNoBackend else Ok SavedLocally)
  else if negb (in_up i) then (s, if requireNet then Err DcBackend else Ok SavedLocally)
  else if negb (bool_decide (eNode = [])) then (s, if requireNet then Err DcSingleNode else Ok SavedLocally)
  else reseal_root i ws signer a s.

(** ** The commands *)

Definition master i ws d : Desk * result dev_err bytes :=
  let '(d, r) := loadOrCreateSignKey passphrase host (in_mint i) (in_tty i) (in_line i) ws (signKeyPath ws (in_signkey i)) d in (d, map_err DcDesk r).

(** Sign a new version of the record, save it and make it effective. *)
Definition advance i ws signer a (node : bytes) (requireNet : bool) (s : Station W D) : Station W D * result dev_err (Auth * reseal) :=
  let a := auth_Sign signer a in
  let '(d, r) := saveDeviceAuth ws a (st_desk s) in
  let s := with_desk d s in
  match r with
  | Err e => (s, Err e)
  | Ok _ => let '(s, r) := deviceReseal i ws signer a node requireNet s in (s, match r with Ok x => Ok (a, x) | Err e => Err e end)
  end.

(** [hostname]: what os.Hostname gives. *)
Definition cmdDeviceInit i (hostname : option string) ws (node : bytes) (label : string) (s : Station W D) : Station W D * result dev_err (Auth * reseal) :=
  match devicesPath ws with None => (s, Err DcBare) | Some _ =>
  let '(d, auth) := loadDeviceAuth ws (st_desk s) in
  match auth with Err e => (with_desk d s, Err e) | Ok (Some _) => (with_desk d s, Err DcExists) | Ok None =>
  let '(d, signer) := master i ws d in
  match signer with Err e => (with_desk d s, Err e) | Ok signer =>
  let '(d, pub) := thisDevicePub ws d in
  match pub with Err e => (with_desk d s, Err e) | Ok pub =>
  let lbl := if decide (label = "") then default "" hostname else label in
  match With (mkAuth (replicate SignPubKeySize Byte.x00) 0 [] []) pub lbl with
  | Err e => (with_desk d s, Err (DcDevice e))
  | Ok a => advance i ws signer a node false (with_desk d s)
  end end end end end.

(** The record a change starts from, and the master key. *)
Definition current i ws d : Desk * result dev_err (bytes * Auth) :=
  let '(d, signer) := master i ws d in
  match signer with Err e => (d, Err e) | Ok signer =>
  let '(d, auth) := loadDeviceAuth ws d in
  (d, auth ← auth; a ← of_option DcNoRecord auth; if bool_decide (au_Owner a ≠ Public signer) then Err DcForeign else Ok (signer, a))
  end.

(** [file]: the public key file of the new device. *)
Definition cmdDeviceEnroll i ws (node : bytes) (file : read_file) (label : string) (s : Station W D) : Station W D * result dev_err (Auth * reseal) :=
  match resolveRecipient file with Err e => (s, Err (DcKey e)) | Ok newPub =>
  let '(d, cur) := current i ws (st_desk s) in
  match cur with Err e => (with_desk d s, Err e) | Ok (signer, a) =>
  match With a newPub label with
  | Err e => (with_desk d s, Err (DcDevice e))
  | Ok a => advance i ws signer a node true (with_desk d s)
  end end end.

Definition cmdDeviceRevoke i ws (node : bytes) (handle : string) (s : Station W D) : Station W D * result dev_err (Auth * reseal) :=
  let '(d, cur) := current i ws (st_desk s) in
  match cur with Err e => (with_desk d s, Err e) | Ok (signer, a) =>
  match Resolve_handle a handle with
  | Err e => (with_desk d s, Err (DcDevice e))
  | Ok m =>
      match Without a (mb_ID m) with
      | Err e => (with_desk d s, Err (DcDevice e))
      | Ok a => advance i ws signer a node true (with_desk d s)
      end
  end end.

(** What id prints: the ID, and whether the record lists it. *)
Definition cmdDeviceID ws d : Desk * result dev_err (bytes * option bool) :=
  let '(d, pub) := thisDevicePub ws d in
  match pub with Err e => (d, Err e) | Ok pub =>
  let '(d, auth) := loadDeviceAuth ws d in
  (d, auth ← auth; Ok (NewID pub, option_map (λ a, Authorized a (NewID pub)) auth))
  end.

(** What list prints: the members, this device marked. *)
Definition cmdDeviceList ws d : Desk * result dev_err (option (list (bool * Member))) :=
  let '(d, auth) := loadDeviceAuth ws d in
  match auth with Err e => (d, Err e) | Ok None => (d, Ok None) | Ok (Some a) =>
  let '(d, self) := thisDevicePub ws d in
  let mark m := match self with Ok pub => bool_decide (mb_ID m = NewID pub) | Err _ => false end in
  (d, Ok (Some ((λ m, (mark m, m)) <$> au_Members a)))
  end.
End device_cmd.

(** ** What a commit puts into the DHT *)

Section puts.
Context `{Hed : Ed25519} `{Hgcm : AesGcm} `{Hkem : MlKem} `{Hcj : Json readCapJSON} `{Hj : DirJson}.
Context {W D F : Type} `{Hb : !Blobs W} `{Hpub : !FullRootPublisher D} `{Hrs : !RootStore F}.
Implicit Types (P : D → Prop) (s : Site W D F) (cc : commitConfig).

(** Reading roots and putting a root pointer keep [P]. *)
Record dht_frame P : Prop := {
  df_get : ∀ o d, P d → P (pub_GetRoot o d).1;
  df_full : ∀ o k c d, P d → P (frp_GetFullRoot o k c d).1;
  df_put : ∀ rp d, P d → P (pub_PutRoot rp d).1;
}.

Lemma local_only_frame P cc dr newRoot prev b s : dht_frame P → P (si_dht s) → P (si_dht (commitLocalOnly cc dr newRoot prev b s).1).
Proof.
  intros HP Hs. unfold commitLocalOnly. destruct (SignRoot _ _ _ _) as [rp|]; [|done]. destruct b.
  - unfold multi_Save. cbn [mu_primary mu_mirrors]. destruct (rs_Save rp (si_file s)) as [f [[]|e]]; cbn [fst si_dht mu_mirrors fmap list_fmap head]; [|done].
    unfold option_fmap, option_map, default, from_option, id. unfold rs_Save, dht_root_store, dht_Save. cbn [ds_owner ds_pub].
    destruct (negb (root_Verify rp)); [done|]. case_decide; [done|]. pose proof (df_get P HP (Public (cc_signer cc)) (si_dht s) Hs) as Hg.
    destruct (pub_GetRoot _ _) as [d1 g]. cbn [fst] in Hg. pose proof (df_put P HP rp d1 Hg) as Hp. destruct (pub_PutRoot rp d1) as [d2 r2]. cbn [fst] in Hp.
    destruct g as [[cur|]|]; [destruct (_ <=? _)|..]; done.
  - by destruct (rs_Save rp (si_file s)).
Qed.

Lemma fold_remote_frame P cc fuel prev localTip remote s : dht_frame P → P (si_dht s) → P (si_dht (fold_remote cc fuel prev localTip remote s).1).
Proof.
  intros HP Hs. unfold fold_remote. destruct remote as [rem|]; [|done]. destruct (forked _ _); [|done].
  pose proof (df_full P HP (Public (cc_signer cc)) (cc_priv cc) (rp_Root rem) (si_dht s) Hs) as Hg. destruct (frp_GetFullRoot _ _ _ _) as [d [[c|]|]]; [|done..].
  by destruct (Merge3 _ _ _ _ _ _ _).
Qed.

(** Of the companions, only those [sealCompanion] makes are put. *)
Lemma publish_frame P cc dr merged newSeq conf s : dht_frame P → P (si_dht s) →
  (∀ rec d, sealCompanion cc dr merged newSeq = Ok rec → P d → P (frp_PutFullRoot rec d).1) → P (si_dht (publish_root cc dr merged newSeq conf s).1).
Proof.
  intros HP Hs Hput. unfold publish_root. destruct (SignRoot _ _ _ _) as [rp|]; [|done]. destruct (sealCompanion _ _ _ _) as [rec|] eqn:Es; [|done].
  pose proof (Hput rec (si_dht s) eq_refl Hs) as H1. destruct (frp_PutFullRoot rec _) as [d1 ?]. pose proof (df_put P HP rp d1 H1) as H2. destruct (pub_PutRoot rp d1) as [d2 ?].
  pose proof (df_get P HP (Public (cc_signer cc)) d2 H2) as H3. destruct (pub_GetRoot _ d2) as [d3 cur]. cbn [si_file with_dht].
  destruct (rs_Save rp (si_file s)) as [f sv]. destruct cur as [[cur|]|]; [destruct (_ && _)|..]; done.
Qed.

Lemma commit_frame P cc draws fuel newRoot prev sealed pub s : dht_frame P →
  (cc_mlkemOK cc = true → ∀ dr root seq rec d, sealCompanion cc dr root seq = Ok rec → P d → P (frp_PutFullRoot rec d).1) →
  P (si_dht s) → P (si_dht (commitRoot cc draws fuel newRoot prev sealed pub s).1).
Proof.
  intros HP Hput Hs. assert (cc_mlkemOK cc = true → ∀ n i localTip prevSeq s, P (si_dht s) → P (si_dht (commit_loop cc draws fuel prev n i localTip prevSeq s).1)) as Hloop.
  { clear s Hs. intros Hk. specialize (Hput Hk). induction n as [|n IH]; intros i localTip prevSeq s Hs; [done|]. cbn [commit_loop].
    assert (P (si_dht (commit_attempt cc (draws i) fuel prev localTip prevSeq s).1)) as Ha.
    { unfold commit_attempt. pose proof (df_get P HP (Public (cc_signer cc)) (si_dht s) Hs) as Hg. destruct (pub_GetRoot _ _) as [d [remote|e]]; cbn [fst] in Hg.
      - pose proof (fold_remote_frame P cc fuel prev localTip remote (with_dht d s) HP Hg) as Hf. destruct (fold_remote _ _ _ _ _ _) as [s1 [[merged conf]|]]; [|done].
        apply publish_frame; [done..|]. intros rec d' Es. by eapply Hput.
      - pose proof (local_only_frame P cc (draws i) localTip prev true (with_dht d s) HP Hg) as Hl. by destruct (commitLocalOnly _ _ _ _ _ _). }
    destruct (commit_attempt _ _ _ _ _ _ _) as [s1 [?|merged sq]]; [done|]. by apply IH. }
  unfold commitRoot. destruct sealed; [done|]. destruct (match prev with Some _ => _ | None => _ end); [done|].
  assert (∀ b, P (si_dht (let '(s, r) := commitLocalOnly cc (draws 0%nat) newRoot prev b s in (s, match r with Ok _ => Ok [] | Err e => @Err _ (list string) e end)).1)) as Hl.
  { intros b. pose proof (local_only_frame P cc (draws 0%nat) newRoot prev b s HP Hs) as Hl. by destruct (commitLocalOnly _ _ _ _ _ _). }
  destruct pub; [apply Hl..|]. destruct (cc_mlkemOK cc); [by apply Hloop|apply Hl].
Qed.

(** A commit that succeeds over a DHT that answers has put a companion. *)
Lemma commit_puts Q cc draws fuel newRoot prev s s' conf : dht_frame Q → cc_mlkemOK cc = true → (∀ o d, is_ok (pub_GetRoot o d).2 = true) →
  (∀ dr root seq rec d, sealCompanion cc dr root seq = Ok rec → Q (frp_PutFullRoot rec d).1) →
  commitRoot cc draws fuel newRoot prev false PubFull s = (s', Ok conf) → Q (si_dht s').
Proof.
  intros HQ Hk Hget Hput. unfold commitRoot. destruct (match prev with Some _ => _ | None => _ end); [done|]. rewrite Hk. generalize commitMaxAttempts. intros n.
  generalize (match prev with Some p => rp_Seq p | None => 0 end). generalize 0%nat. revert newRoot s.
  induction n as [|n IH]; intros localTip s i prevSeq; [done|]. cbn [commit_loop].
  destruct (commit_attempt _ _ _ _ _ _ _) as [s1 [r|merged sq]] eqn:Ea; [|apply IH]. intros [= -> ->]. revert Ea. unfold commit_attempt.
  specialize (Hget (Public (cc_signer cc)) (si_dht s)). destruct (pub_GetRoot _ _) as [d [remote|e]]; [|done]. destruct (fold_remote _ _ _ _ _ _) as [s2 [[merged conf']|]]; [|done].
  unfold publish_root. destruct (SignRoot _ _ _ _) as [rp|]; [|done]. destruct (sealCompanion _ _ _ _) as [rec|] eqn:Es; [|done].
  pose proof (Hput _ _ _ rec (si_dht s2) Es) as H1. destruct (frp_PutFullRoot rec _) as [d1 ?]. pose proof (df_put Q HQ rp d1 H1) as H2. destruct (pub_PutRoot rp d1) as [d2 ?].
  pose proof (df_get Q HQ (Public (cc_signer cc)) d2 H2) as H3. destruct (pub_GetRoot _ d2) as [d3 cur]. cbn [si_file with_dht].
  destruct (rs_Save rp (si_file s2)) as [f [?|?]]; destruct cur as [[cur|]|]; try destruct (_ && _); intros [= <- _]; done.
Qed.
End puts.

(** ** The record on disk *)

Section records.
Context `{Hsha : Sha256} `{Hed : Ed25519} `{Haj : Json deviceAuthJSON} `{Hat : !JsonText deviceAuthJSON}.
Implicit Types (a : Auth).

(** What the decoder guarantees: every member is listed under the ID of its key. *)
Definition decoded_auth a : Prop :=
  length (au_Owner a) = SignPubKeySize ∧ Forall (λ m, mb_ID m = NewID (mb_Pub m) ∧ length (mb_Pub m) = PublicKeySize) (au_Members a).

Lemma decode_members_typed js : ∀ ms, decode_members js = Ok ms → Forall (λ m, mb_ID m = NewID (mb_Pub m) ∧ length (mb_Pub m) = PublicKeySize) ms.
Proof.
  induction js as [|j js IH]; intros ms; cbn [decode_members]; [by intros [= <-]|]. unfold ParsePublicKey.
  destruct (B64.DecodeString (mj_pub j)) as [pub|]; [|done]. case_decide; [|done]. cbn [of_option mbind result_bind].
  destruct (decode_members js) as [r|]; [|done]. intros [= <-]. constructor; [done|]. by apply IH.
Qed.

Lemma DecodeDeviceAuth_typed data a : DecodeDeviceAuth data = Ok a → decoded_auth a.
Proof.
  unfold DecodeDeviceAuth. destruct (Unmarshal data) as [j|]; [|done]. cbn [of_option mbind result_bind].
  destruct (decodeOwner (aj_owner j)) as [o|] eqn:Eo; [|done]. cbn [mbind result_bind]. destruct (B64.DecodeString (aj_sig j)); [|done]. cbn [of_option mbind result_bind].
  destruct (decode_members _) as [ms|] eqn:Em; [|done]. intros [= <-]. split; [by eapply decodeOwner_length|by eapply decode_members_typed].
Qed.

Lemma decode_members_enc ms : Forall (λ m, mb_ID m = NewID (mb_Pub m) ∧ length (mb_Pub m) = PublicKeySize) ms → decode_members (aj_members (auth_json (mkAuth [] 0 ms []))) = Ok ms.
Proof.
  induction 1 as [|m ms [Hi Hl] _ IH]; [done|]. cbn [auth_json aj_members au_Members fmap list_fmap decode_members mj_pub mj_label mj_added] in IH |- *.
  unfold ParsePublicKey. rewrite B64.Decode_Encode64, decide_True by done. cbn [of_option mbind result_bind]. rewrite IH. cbn [mbind result_bind]. rewrite <-Hi. by destruct m.
Qed.

(** A saved record is read back. *)
Lemma auth_codec a : decoded_auth a → json_ok (auth_json a) → ∃ b, EncodeDeviceAuth a = Ok b ∧ DecodeDeviceAuth (b ++ [nl]) = Ok a.
Proof.
  intros [Ho Hm] Hj. destruct (json_roundtrip _ Hj) as (b & Em & Eu). exists b. unfold EncodeDeviceAuth, DecodeDeviceAuth. rewrite Em. split; [done|].
  unfold nl. rewrite (json_newline _ _ Em), Eu. cbn [of_option mbind result_bind auth_json aj_owner aj_seq aj_members aj_sig]. rewrite decodeOwner_enc by done. cbn [mbind result_bind].
  rewrite B64.Decode_Encode64. cbn [of_option mbind result_bind]. pose proof (decode_members_enc _ Hm) as E. cbn [auth_json aj_members au_Members] in E. rewrite E. by destruct a.
Qed.

Lemma Without_Ok a id a' : Without a id = Ok a' → decoded_auth a →
  decoded_auth a' ∧ au_Owner a' = au_Owner a ∧ au_Seq a' = u64 (au_Seq a + 1) ∧ ∀ pub, pub ∈ Recipients a' ↔ pub ∈ Recipients a ∧ NewID pub ≠ id.
Proof.
  unfold Without. destruct (negb _); [done|]. intros [= <-] [Ho Hm]. unfold Recipients. cbn [au_Members au_Owner au_Seq]. rewrite Forall_forall in Hm.
  split_and!; [|done|done|].
  - split; [done|]. cbn [au_Members]. apply Forall_forall. intros m [Hin _]%elem_of_List_filter. by apply Hm.
  - intros pub. rewrite !list_elem_of_fmap. setoid_rewrite elem_of_List_filter. setoid_rewrite negb_true_iff. setoid_rewrite bool_decide_eq_false. split.
    + intros (m & -> & Hin & Hne). split; [by eauto|]. by rewrite <-(proj1 (Hm m Hin)).
    + intros ((m & -> & Hin) & Hne). exists m. split_and!; [done..|]. by rewrite (proj1 (Hm m Hin)).
Qed.

Lemma signed_verifies signer a : decoded_auth a → auth_Verify (auth_Sign signer a) = true ∧ decoded_auth (auth_Sign signer a).
Proof.
  intros [_ Hm]. split.
  - apply auth_Verify_derived. eapply Forall_impl; [exact Hm|]. by intros m [? _].
  - split; [apply ed_public_length|done].
Qed.
End records.

Lemma length_str_bytes s : length (str_bytes s) = String.length s.
Proof. induction s as [|c s IH]; [done|]. change (S (length (str_bytes s)) = S (String.length s)). by rewrite IH. Qed.

Lemma str_app_same a x b y : String.length x = String.length y → a +:+ x = b +:+ y → x = y.
Proof. intros Hl E. apply (f_equal str_bytes) in E. rewrite !str_bytes_app in E. apply app_inj_2 in E as [_ E]; [by apply str_bytes_inj|by rewrite !length_str_bytes]. Qed.

Lemma devices_path_ends dir : ∃ x, path_Join dir devicesFileName = x +:+ "devices.json".
Proof.
  unfold path_Join. case_decide; [by exists ""|]. rewrite decide_False by done. apply path_Clean_ends; [done|]. by split_and!; vm_compute.
Qed.

Lemma devices_not_key dir prefix : path_Join dir devicesFileName ∉ key_files prefix.
Proof.
  destruct (devices_path_ends dir) as [x ->]. unfold key_files.
  rewrite !elem_of_cons, elem_of_nil. intros [E|[E|[E|[E|[]]]]]; revert E; by eapply str_last_neq.
Qed.

Lemma devices_not_config dir dir' : path_Join dir devicesFileName ≠ path_Join dir' configFileName.
Proof.
  destruct (devices_path_ends dir) as [x ->], (config_path_ends dir') as [y ->]. intros E.
  change "devices.json" with ("device" +:+ "s.json") in E. change "config.json" with ("confi" +:+ "g.json") in E. rewrite <-!str_app_assoc in E.
  by apply str_app_same in E.
Qed.

(** ** Changing the record *)

Section changes.
Context `{Hsha : Sha256} `{Hed : Ed25519} `{Hgcm : AesGcm} `{Harg : Argon2} `{Hkem : MlKem}.
Context `{Hcj : Json readCapJSON} `{Hrj : Json rootPointerJSON} `{Haj : Json deviceAuthJSON} `{Hat : !JsonText deviceAuthJSON} `{Hpj : Json Profile} `{Hj : DirJson}.
Context {W D : Type} `{Hb : !Blobs W} `{Hpub : !FullRootPublisher D} `{Hdp : !DevicePublisher D}.
Context (passphrase : option bytes) (host : nat → fate).
Implicit Types (ws : WorkspaceDir) (d : Desk) (a : Auth) (signer : bytes) (i : Input) (rec : FullRootRecord).

(** A companion with one seal for each of [rcpts]. *)
Definition sealed_to (rcpts : list bytes) rec : Prop := ∃ rnd nonce signer root seq,
  SealFullRootFor rnd nonce signer rcpts root seq = Ok rec ∨ ∃ pub, rcpts = [pub] ∧ SealFullRoot (rnd 0%nat) (nonce 0%nat) signer pub root seq = Ok rec.

(** This device's key, from its key file. *)
Definition own_key ws (fs : gmap string item) : result ws_err (option (bytes * bytes)) := ownerMLKEM passphrase (content (keyPrefix ws +:+ ".key") fs).

(** A companion sealed to exactly the devices of [a] and this device. *)
Definition companion_of ws (fs : gmap string item) a rec : Prop := ∃ priv self rcpts,
  own_key ws fs = Ok (Some (priv, self)) ∧ sealed_to rcpts rec ∧ ∀ pub, pub ∈ rcpts ↔ pub ∈ Recipients a ∨ pub = self.

Lemma own_pair_Ok ws d d' keys : own_pair passphrase host ws d = (d', Ok keys) → dk_files d' = dk_files d ∧ own_key ws (dk_files d) = Ok keys.
Proof.
  unfold own_pair, os_ReadFile, own_key. destruct (host (dk_calls d)); intros [= <- E]; split; try done.
  destruct (ownerMLKEM _ _); [|done]. by injection E as <-.
Qed.

Lemma loadDeviceAuth_Ok ws p d d' o : devicesPath ws = Some p → loadDeviceAuth host ws d = (d', Ok o) → dk_files d' = dk_files d ∧ read_auth (content p (dk_files d)) = Ok o.
Proof. intros Hp. unfold loadDeviceAuth. rewrite Hp. unfold os_ReadFile. destruct (host (dk_calls d)); intros [= <- E]; done. Qed.

Lemma saveDeviceAuth_Ok ws p a d d' : devicesPath ws = Some p → decoded_auth a → auth_Verify a = true → json_ok (auth_json a) → saveDeviceAuth host ws a d = (d', Ok tt) →
  read_auth (content p (dk_files d')) = Ok (Some a) ∧ ∀ q, q ≠ p → dk_files d' !! q = dk_files d !! q.
Proof.
  intros Hp Hd Hv Hjs. unfold saveDeviceAuth. rewrite Hp. destruct (auth_codec a Hd Hjs) as (b & -> & Ed). destruct (os_WriteFile host p _ d) as [d1 [[]|]] eqn:Ew; [|done].
  intros [= <-]. apply WriteFile_Ok in Ew. split; [|intros q Hq; rewrite Ew; by apply lookup_insert_ne].
  unfold content. rewrite Ew, lookup_insert_eq. unfold read_auth. rewrite Ed. cbn [map_err mbind result_bind]. by rewrite Hv.
Qed.

Lemma deviceTag_files ws rnd d q : q ≠ path_Join (ws_Dir ws) configFileName → dk_files (deviceTag host rnd ws d).1 !! q = dk_files d !! q.
Proof.
  intros Hq. unfold deviceTag. destruct (ws_Config ws) as [c|]; [|done]. case_decide; [|done]. destruct rnd as [b|]; [|done]. unfold saveConfig. destruct (Marshal _) as [j|]; [|done].
  unfold os_WriteFile. destruct (dk_files d !! path_Join _ _) as [[]|]; destruct (host (dk_calls d)); cbn [fst dk_files files_put tick_desk]; try done.
  all: by apply lookup_insert_ne.
Qed.

(** The recipients of the companion are the devices of the record and this one. *)
Lemma seal_recipients signer a self cc : au_Owner a = Public signer → cc_pub cc = self → cc_recipients cc = recipients_of signer self (Some a) →
  ∀ dr root seq rec, sealCompanion cc dr root seq = Ok rec → ∃ rcpts, sealed_to rcpts rec ∧ ∀ pub, pub ∈ rcpts ↔ pub ∈ Recipients a ∨ pub = self.
Proof.
  intros Ho Hc Hr dr root seq rec. unfold sealCompanion. rewrite Hr. unfold recipients_of. rewrite (bool_decide_false (au_Owner a ≠ _)) by (by intros []). rewrite orb_false_r.
  destruct (au_Members a) as [|m ms] eqn:Em.
  - rewrite bool_decide_true by done. intros E. exists [self]. split.
    + exists (dr_rnd dr), (dr_nonce dr), (cc_signer cc), root, seq. right. exists self. by rewrite <-Hc.
    + intros pub. unfold Recipients. rewrite Em, list_elem_of_singleton. cbn. rewrite elem_of_nil. tauto.
  - rewrite bool_decide_false by done. set (rcpts := if bool_decide _ then _ else _). destruct rcpts as [|x l] eqn:Er.
    { unfold rcpts in Er. destruct (bool_decide _); unfold Recipients in Er; rewrite Em in Er; done. }
    rewrite <-Er. clear x l Er. intros E. exists rcpts. split; [exists (dr_rnd dr), (dr_nonce dr), (cc_signer cc), root, seq; by left|].
    intros pub. unfold rcpts. case_bool_decide as Hin; [split; [by left|intros [?| ->]; done]|]. rewrite elem_of_app, list_elem_of_singleton. done.
Qed.

Lemma newCommitConfig_Ok i ws p signer a d d' cc : devicesPath ws = Some p → read_auth (content p (dk_files d)) = Ok (Some a) → au_Owner a = Public signer →
  newCommitConfig passphrase host i ws signer d = (d', Ok cc) →
  content p (dk_files d') = content p (dk_files d) ∧ (cc_mlkemOK cc = true → ∀ dr root seq rec, sealCompanion cc dr root seq = Ok rec → companion_of ws (dk_files d) a rec) ∧
  (∀ keys, own_key ws (dk_files d) = Ok (Some keys) → cc_mlkemOK cc = true).
Proof.
  intros Hp Ha Ho. unfold newCommitConfig. destruct (own_pair passphrase host ws d) as [d1 [keys|]] eqn:Ek; [|done]. apply own_pair_Ok in Ek as [F1 Ek].
  destruct (companionRecipients host ws signer _ _ d1) as [d2 [rcpts|]] eqn:Er; [|done]. pose proof (deviceTag_files ws (in_tag i) d2 p) as Ht.
  destruct (deviceTag host (in_tag i) ws d2) as [d3 [ws' tag]]. intros [= <- <-]. cbn [fst cc_mlkemOK] in Ht |- *.
  assert (p ≠ path_Join (ws_Dir ws) configFileName) as Hpc.
  { unfold devicesPath in Hp. destruct (ws_fileMode ws); [done|]. injection Hp as <-. apply devices_not_config. }
  assert (dk_files d2 = dk_files d ∧ ∀ priv pub, keys = Some (priv, pub) → rcpts = recipients_of signer pub (Some a)) as [F2 Hr].
  { revert Er. unfold companionRecipients. destruct keys as [[priv pub]|]; cbn [negb bool_decide decide_rel].
    - rewrite bool_decide_true by eauto. cbn [negb]. destruct (loadDeviceAuth host ws d1) as [d4 [auth|]] eqn:El; [|done]. apply (loadDeviceAuth_Ok _ _ _ _ _ Hp) in El as [F4 El].
      rewrite F1, Ha in El. injection El as <-. intros [= <- <-]. split; [congruence|]. intros ? ? [= -> ->]. done.
    - rewrite bool_decide_false by (by intros [? ?]). intros [= <- <-]. done. }
  split_and!.
  - unfold content. by rewrite Ht, F2 by done.
  - intros [[priv pub] ->]%bool_decide_eq_true dr root seq rec E. eapply (seal_recipients signer a pub) in E as (rs & Hs & Hin); [|done|done|by eapply Hr]. by exists priv, pub, rs.
  - intros keys' E. rewrite Ek in E. injection E as ->. apply bool_decide_eq_true. eauto.
Qed.

(** Of companions, only those that satisfy [ok] were put on the way from [t] to [t']:
    whatever property of the DHT is kept by the other calls, and by putting those,
    is kept. *)
Definition puts_only (ok : FullRootRecord → Prop) (t t' : D) : Prop := ∀ P : D → Prop, dht_frame P → (∀ x u, P u → P (dp_PutDeviceAuth x u).1) →
  (∀ rec u, ok rec → P u → P (frp_PutFullRoot rec u).1) → P t → P t'.
(** A companion that satisfies [ok] was put: whatever putting one establishes, and
    the other calls keep, holds. *)
Definition has_put (ok : FullRootRecord → Prop) (t : D) : Prop := ∀ Q : D → Prop, dht_frame Q → (∀ rec u, ok rec → Q (frp_PutFullRoot rec u).1) → Q t.
(** Reading a root always gets an answer. *)
Definition answering : Prop := ∀ o (t : D), is_ok (pub_GetRoot o t).2 = true.

Lemma puts_only_refl ok t : puts_only ok t t.
Proof. by intros P _ _ _. Qed.
#[local] Hint Resolve puts_only_refl : core.

Lemma puts_only_auth ok x t : puts_only ok t (dp_PutDeviceAuth x t).1.
Proof. intros P _ HP _. apply HP. Qed.

(** What resealing does to the DHT and to the record. *)
Lemma reseal_root_spec i ws p signer a (s s' : Station W D) r : devicesPath ws = Some p → read_auth (content p (dk_files (st_desk s))) = Ok (Some a) → au_Owner a = Public signer →
  reseal_root passphrase host i ws signer a s = (s', r) →
  let ok := companion_of ws (dk_files (st_desk s)) a in
  puts_only ok (si_dht (st_site s)) (si_dht (st_site s')) ∧
  ∀ x, r = Ok x → content p (dk_files (st_desk s')) = content p (dk_files (st_desk s)) ∧
    ∀ conf keys, x = Resealed conf → own_key ws (dk_files (st_desk s)) = Ok (Some keys) → answering → has_put ok (si_dht (st_site s')).
Proof.
  intros Hp Ha Ho E ok. unfold reseal_root in E. pose proof (puts_only_auth ok a (si_dht (st_site s))) as Hdht.
  destruct (dp_PutDeviceAuth a (si_dht (st_site s))) as [dht ra]. cbn [fst] in Hdht.
  destruct (load_root passphrase _) as [f [[[prev sealed]|]|]]; cbn [si_blobs si_dht si_file st_desk] in E; [|injection E as <- <-; split; [done|by intros x [= <-]]..].
  destruct sealed; [by injection E as <- <-|]. destruct (bool_decide _); [by injection E as <- <-|].
  destruct (newCommitConfig _ _ _ _ _ _) as [d1 [cc|]] eqn:Ec; [|by injection E as <- <-].
  apply (newCommitConfig_Ok i ws p signer a) in Ec as (Hcont & Hcomp & Hkey); [|done..].
  set (site := mkSite _ dht _) in E. destruct (commitRoot cc _ _ _ _ _ _ site) as [site' rc] eqn:Er. injection E as <- <-. split.
  - intros P HF HP Hput Hs. cbn [st_site]. pose proof (commit_frame P cc (in_draws i) (in_fuel i) (rp_Root prev) (Some prev) false PubFull site HF) as Hc. rewrite Er in Hc. apply Hc.
    + intros Hk dr root seq rec u Es. by eapply Hput, Hcomp.
    + exact (Hdht P HF HP Hput Hs).
  - intros x Hx. split; [done|]. intros conf keys -> Hk Hget Q HF Hput. destruct rc as [c|]; [|done]. eapply (commit_puts Q cc); [done|by eapply Hkey|done| |exact Er].
    intros dr root seq rec u Es. eapply Hput, Hcomp; [by eapply Hkey|done].
Qed.

Lemma companion_of_ext ws fs fs' a a' rec : own_key ws fs = own_key ws fs' → Recipients a = Recipients a' → companion_of ws fs a rec → companion_of ws fs' a' rec.
Proof. intros Hk Hr. unfold companion_of. by rewrite Hk, Hr. Qed.

Lemma advance_spec i ws p signer a node req (s s' : Station W D) r : devicesPath ws = Some p → decoded_auth a → json_ok (auth_json (auth_Sign signer a)) →
  advance passphrase host i ws signer a node req s = (s', r) →
  let ok := companion_of ws (dk_files (st_desk s)) a in
  puts_only ok (si_dht (st_site s)) (si_dht (st_site s')) ∧
  ∀ a' x, r = Ok (a', x) → a' = auth_Sign signer a ∧ read_auth (content p (dk_files (st_desk s'))) = Ok (Some a') ∧
    ∀ conf keys, x = Resealed conf → own_key ws (dk_files (st_desk s)) = Ok (Some keys) → answering → has_put ok (si_dht (st_site s')).
Proof.
  intros Hp Hd Hjs E ok. unfold advance in E. destruct (signed_verifies signer a Hd) as [Hv Hds].
  destruct (saveDeviceAuth host ws (auth_Sign signer a) (st_desk s)) as [d1 [[]|]] eqn:Es; [|by injection E as <- <-].
  destruct (saveDeviceAuth_Ok _ _ _ _ _ Hp Hds Hv Hjs Es) as [Hr Hq].
  assert (own_key ws (dk_files d1) = own_key ws (dk_files (st_desk s))) as Hkey.
  { unfold own_key, content. rewrite Hq; [done|]. intros E'. unfold devicesPath in Hp. destruct (ws_fileMode ws); [done|]. injection Hp as <-.
    apply (devices_not_key (ws_Dir ws) (keyPrefix ws)). rewrite <-E'. left. }
  destruct (deviceReseal _ _ _ _ _ _ _ _ _) as [s1 r1] eqn:E1. injection E as <- <-. unfold deviceReseal in E1. destruct (backend ws node) as [eNode eBoot].
  assert (∀ e, s1 = with_desk d1 s ∧ r1 = (if req then Err e else Ok SavedLocally) → puts_only ok (si_dht (st_site s)) (si_dht (st_site s1)) ∧
    ∀ a' x, match r1 with Ok x => Ok (auth_Sign signer a, x) | Err e => Err e end = Ok (a', x) → a' = auth_Sign signer a ∧
      read_auth (content p (dk_files (st_desk s1))) = Ok (Some a') ∧ ∀ conf keys, x = Resealed conf → own_key ws (dk_files (st_desk s)) = Ok (Some keys) → answering → has_put ok (si_dht (st_site s1))) as Hlocal.
  { intros e [-> ->]. split; [done|]. intros a' x Ex. destruct req; [done|]. by injection Ex as <- <-. }
  destruct (_ && _); [eapply Hlocal; by injection E1 as <- <-|]. destruct (negb (in_up i)); [eapply Hlocal; by injection E1 as <- <-|].
  destruct (negb _); [eapply Hlocal; by injection E1 as <- <-|]. clear Hlocal.
  destruct (reseal_root_spec i ws p signer (auth_Sign signer a) (with_desk d1 s) s1 r1 Hp Hr eq_refl E1) as [H1 H2]. cbn [st_desk with_desk st_site] in H1, H2. split.
  - intros P HF HP Hput. apply H1; [done|done|]. intros rec u Hrec. apply Hput. exact (companion_of_ext _ _ _ (auth_Sign signer a) a rec Hkey eq_refl Hrec).
  - intros a' x Ex. destruct r1 as [y|]; [|done]. injection Ex as <- <-. destruct (H2 _ eq_refl) as [Hc H3]. split_and!; [done|by rewrite Hc|].
    intros conf keys Hy Hk Hget Q HF Hput. eapply H3; [done|by rewrite Hkey|done|done|]. intros rec u Hrec. apply Hput. exact (companion_of_ext _ _ _ (auth_Sign signer a) a rec Hkey eq_refl Hrec).
Qed.

Lemma current_Ok i ws p d d1 signer a : devicesPath ws = Some p → current passphrase host i ws d = (d1, Ok (signer, a)) →
  decoded_auth a ∧ auth_Verify a = true ∧ au_Owner a = Public signer ∧ read_auth (content p (dk_files d1)) = Ok (Some a).
Proof.
  intros Hp. unfold current. destruct (master passphrase host i ws d) as [d2 [k|]]; [|done]. destruct (loadDeviceAuth host ws d2) as [d3 [o|]] eqn:El; [|done].
  apply (loadDeviceAuth_Ok _ _ _ _ _ Hp) in El as [F El]. destruct o as [a'|]; [|done]. cbn [mbind result_bind of_option]. destruct (decide (au_Owner a' = Public k)) as [Ho|Ho]; [rewrite bool_decide_false by (by intros [])|by rewrite bool_decide_true]. intros [= <- <- <-].
  rewrite F. assert (decoded_auth a' ∧ auth_Verify a' = true) as [? ?]; [|split_and!; done].
  revert El. unfold read_auth. destruct (content p _) as [data| |]; [|done|done]. destruct (DecodeDeviceAuth data) as [b|] eqn:Ed; [|done]. cbn [map_err mbind result_bind].
  destruct (auth_Verify b) eqn:Ev; [|done]. intros [= <-]. split; [by eapply DecodeDeviceAuth_typed|done].
Qed.

(** [C36] Revoking a device. With the record and the master key at hand, revoke
    writes back a record that is signed, is read back by every later command, has
    the next sequence number and lists exactly the other devices. During the
    command no companion reaches the DHT but those sealed to exactly the
    remaining devices and this one, whatever fails; and when it reports that it
    resealed, over a DHT that answers, such a companion was put. (The workspace
    has its encryption key; without it revoke has nothing to seal with.) *)
Theorem revoke_reseals i ws p node handle (s s' : Station W D) r d1 signer a m :
  devicesPath ws = Some p → current passphrase host i ws (st_desk s) = (d1, Ok (signer, a)) → Resolve_handle a handle = Ok m →
  (∀ a', Without a (mb_ID m) = Ok a' → json_ok (auth_json (auth_Sign signer a'))) →
  cmdDeviceRevoke passphrase host i ws node handle s = (s', r) →
  let remaining pub := pub ∈ Recipients a ∧ NewID pub ≠ mb_ID m in
  let ok rec := ∃ priv self rcpts, own_key ws (dk_files d1) = Ok (Some (priv, self)) ∧ sealed_to rcpts rec ∧ ∀ pub, pub ∈ rcpts ↔ remaining pub ∨ pub = self in
  puts_only ok (si_dht (st_site s)) (si_dht (st_site s')) ∧
  ∀ a' x, r = Ok (a', x) →
    au_Owner a' = Public signer ∧ au_Seq a' = u64 (au_Seq a + 1) ∧ auth_Verify a' = true ∧ (∀ pub, pub ∈ Recipients a' ↔ remaining pub) ∧
    read_auth (content p (dk_files (st_desk s'))) = Ok (Some a') ∧
    ∀ conf keys, x = Resealed conf → own_key ws (dk_files d1) = Ok (Some keys) → answering → has_put ok (si_dht (st_site s')).
Proof.
  intros Hp Hc Hm Hjs E remaining ok. unfold cmdDeviceRevoke in E. rewrite Hc, Hm in E. destruct (current_Ok _ _ _ _ _ _ _ Hp Hc) as (Hd & _ & Ho & _).
  destruct (Without a (mb_ID m)) as [a1|] eqn:Ew; [|by injection E as <- <-]. destruct (Without_Ok _ _ _ Ew Hd) as (Hd1 & _ & Hs & Hrec).
  destruct (advance_spec i ws p signer a1 node true (with_desk d1 s) s' r Hp Hd1 (Hjs _ eq_refl) E) as [H1 H2]. cbn [st_desk with_desk st_site] in H1, H2.
  assert (∀ rec, companion_of ws (dk_files d1) a1 rec → ok rec) as Hok.
  { intros rec (priv & self & rcpts & Hk & Hse & Hin). exists priv, self, rcpts. split_and!; [done..|]. intros pub. rewrite Hin. unfold remaining. by rewrite Hrec. }
  split; [intros P HF HP Hput; apply H1; [done|done|]; intros rec u Hr; by apply Hput, Hok|].
  intros a' x ->. destruct (H2 _ _ eq_refl) as (-> & Hread & Hput). split_and!; [done|done|by apply signed_verifies|exact Hrec|done|].
  intros conf keys Hx Hk Hget Q HF HQ. eapply Hput; [done..|]. intros rec u Hr. by apply HQ, Hok.
Qed.
End changes.

(** ** Witnesses *)

Section examples.
#[local] Existing Instances pad_sha toy_ed toy_gcm toy_argon sized_kem toy_cap_json text_root_json text_profile text_profile_text ex_dj ex_blobs.
#[local] Instance text_auth : Json deviceAuthJSON := text_json deviceAuthJSON.
#[local] Instance text_auth_text : @JsonText deviceAuthJSON text_auth := text_json_text deviceAuthJSON.

(** A DHT that remembers the companions it was given. *)
#[local] Instance companions_dht : FullRootPublisher (list FullRootRecord) := {|
  frp_root := {| pub_PutRoot _ t := (t, Ok tt); pub_GetRoot _ t := (t, Ok None) |};
  frp_PutFullRoot r t := (r :: t, Ok tt);
  frp_GetFullRoot _ _ _ t := (t, Ok None) |}.
#[local] Instance companions_devices : DevicePublisher (list FullRootRecord) := {| dp_PutDeviceAuth _ t := (t, Ok tt) |}.

(** This device, a lost one, and the master key. *)
Definition ex_self : bytes := replicate 1120 Byte.x00 ++ replicate 64 Byte.x07.
Definition ex_lost : bytes := replicate PublicKeySize Byte.x06.
Definition ex_master : bytes := replicate 64 Byte.x05.
Definition ex_devices : Auth := auth_Sign ex_master (mkAuth (replicate 32 Byte.x00) 2 [mkMember (NewID ex_self) ex_self "desk" 1; mkMember (NewID ex_lost) ex_lost "phone" 2] []).
Definition ex_devices_file : bytes := match EncodeDeviceAuth ex_devices with Ok b => b ++ [nl] | Err _ => [] end.
Definition ex_root_text : bytes :=
  match SignRoot ex_master (ex_cap Byte.x01) 1 99 with
  | Ok rp => match EncodeRootPointer rp with Ok b => b ++ [nl] | Err _ => [] end
  | Err _ => []
  end.

Definition ex_ws : WorkspaceDir := mkWs "ws" "ws/root.json" (Some (mkProfile "" [[Byte.x01]] 4 2 0 "ab")) false.
Definition ex_station : Station (Vault Mem.MemStore) (list FullRootRecord) :=
  mkStation (mkDesk (list_to_map [("ws/devices.json", IFile ex_devices_file); ("ws/keys/user.key", IFile (key_text (replicate 64 Byte.x07)));
                                  ("ws/keys/user.sign.key", IFile (key_text ex_master))]) 0)
    (mkSite ex_fstored.1 [] (mkFileRoot (Some ex_root_text) None None (λ _, ex_env) 0)).
Definition ex_input : Input := mkInput "" ex_mint false None None true ex_draw 1.
Definition ex_revoked : Station (Vault Mem.MemStore) (list FullRootRecord) * result dev_err (Auth * reseal) :=
  cmdDeviceRevoke None (λ _, Through) ex_input ex_ws [] "0606" ex_station.

Lemma ex_json (a : Auth) : json_ok (auth_json a).
Proof. exact I. Qed.

Lemma ex_devices_ok : decoded_auth ex_devices ∧ auth_Verify ex_devices = true.
Proof. apply and_comm, signed_verifies. split; [reflexivity|]. repeat constructor. Qed.

Lemma ex_devices_read : read_auth (FileIs ex_devices_file) = Ok (Some ex_devices).
Proof.
  destruct ex_devices_ok as [Hd Hv]. destruct (auth_codec ex_devices Hd (ex_json _)) as (b & Eb & Ed). unfold ex_devices_file, read_auth. rewrite Eb, Ed. cbn [map_err mbind result_bind]. by rewrite Hv.
Qed.

Lemma ex_files : let fs := dk_files (st_desk ex_station) in
  content "ws/devices.json" fs = FileIs ex_devices_file ∧ content "ws/keys/user.key" fs = FileIs (key_text (replicate 64 Byte.x07)) ∧
  content "ws/keys/user.sign.key" fs = FileIs (key_text ex_master) ∧ stat_at "ws/keys/user.sign.key" fs = StatFile.
Proof. unfold content, stat_at, ex_station. cbn [st_desk dk_files list_to_map foldr uncurry fst snd]. split_and!; rewrite ?lookup_insert_ne by done; by rewrite lookup_insert_eq. Qed.

Lemma ex_current : current None (λ _, Through) ex_input ex_ws (st_desk ex_station) = (mkDesk (dk_files (st_desk ex_station)) 3, Ok (ex_master, ex_devices)).
Proof.
  destruct ex_files as (F1 & _ & F3 & F4). unfold current, master, loadOrCreateSignKey, os_Stat, load_sign, loadDeviceAuth, os_ReadFile.
  change (signKeyPath ex_ws (in_signkey ex_input)) with "ws/keys/user.sign.key". rewrite F4. cbn [tick_desk dk_files dk_calls]. rewrite F3. unfold loadSignKey, readSecret.
  rewrite key_text_plain. cbn [negb mbind result_bind]. change SignKeySize with (S 63). rewrite (key_text_parses ex_master 63) by reflexivity. cbn [of_option map_err].
  change (devicesPath ex_ws) with (Some "ws/devices.json"). cbn [dk_files]. rewrite F1, ex_devices_read. cbn [mbind result_bind of_option]. by rewrite bool_decide_false by (by intros []).
Qed.

Lemma ex_own_key : own_key None ex_ws (dk_files (st_desk ex_station)) = Ok (Some (replicate 64 Byte.x07, ex_self)).
Proof.
  destruct ex_files as (_ & F2 & _). unfold own_key. change (keyPrefix ex_ws +:+ ".key") with "ws/keys/user.key". rewrite F2. unfold ownerMLKEM, readSecret. rewrite key_text_plain.
  cbn [negb]. change PrivateKeySize with (S 63). rewrite (key_text_parses (replicate 64 Byte.x07) 63) by reflexivity. reflexivity.
Qed.

Lemma ex_resolves : Resolve_handle ex_devices "0606" = Ok (mkMember (NewID ex_lost) ex_lost "phone" 2).
Proof. reflexivity. Qed.

Lemma ex_run : cmdDeviceRevoke None (λ _, Through) ex_input ex_ws [] "0606" ex_station = (ex_revoked.1, ex_revoked.2).
Proof. exact (surjective_pairing ex_revoked). Qed.

Lemma revoke_reseals_witness : Forall (λ rec, ∃ rcpts, sealed_to rcpts rec ∧ ex_self ∈ rcpts ∧ ex_lost ∉ rcpts) (si_dht (st_site ex_revoked.1)).
Proof.
  apply Forall_forall.
  destruct (revoke_reseals None (λ _, Through) ex_input ex_ws "ws/devices.json" [] "0606" ex_station ex_revoked.1 ex_revoked.2 _ ex_master ex_devices _
    eq_refl ex_current ex_resolves (λ _ _, ex_json _) ex_run) as [H _].
  apply (H (λ t, ∀ rec, rec ∈ t → ∃ rcpts, sealed_to rcpts rec ∧ ex_self ∈ rcpts ∧ ex_lost ∉ rcpts)); clear H.
  - split; [intros o u Hu|intros o k c u Hu|intros rp u Hu]; exact Hu.
  - intros x u Hu. exact Hu.
  - intros rec u (priv & self & rcpts & Hk & Hs & Hin) Hu rec' [-> | Hrec]%elem_of_cons; [|exact (Hu _ Hrec)]. exists rcpts. cbn [dk_files] in Hk.
    rewrite ex_own_key in Hk. assert (self = ex_self) as -> by congruence. split; [exact Hs|]. split; [apply Hin; right; reflexivity|].
    intros [[_ Hne]|E]%Hin; [exact (Hne eq_refl)|]. apply (f_equal head) in E. discriminate E.
  - intros rec Hrec. destruct (not_elem_of_nil _ Hrec).
Defined.
End examples.
