(* ===== verification/Upkeep.v ===== *)
(** * cmd/revika-node/main.go: what a node runs beside its server

    Settings: environment overrides, the bootstrap file, the policy a joining node
    takes over, the limiters, the reported load. Upkeep: one repair cycle
    over the recorded stripes, the collector's loop, and [supervise], which
    restarts a loop that ends. A context is a sequence of answers to its checks. *)

From Stdlib Require Import Ascii.
From S2P Require Import Prelude GoLib Store Crypto Stripe Erasure Chunk Pipeline Repair Ledger RateLimit Server Node Placement Defense Rebalance Params Browse.

(** ** Flags *)

(** A flag as package flag keeps it: its [Value] behind the interface's Set,
    which returns what it leaves in the value and whether it succeeded. *)
Inductive fval := VBool (b : bool) | VStr (s : bytes) | VMulti (l : list bytes).
Record Flag := mkFlag { fl_name : bytes; fl_set : bytes → fval → fval * bool; fl_val : fval }.

(** [multiFlag.Set], and package flag's values of strings and of booleans: the
    latter stores what strconv.ParseBool returned, false, also when that failed. *)
Definition multi_Set (v : bytes) (x : fval) : fval * bool :=
  match x with VMulti l => (VMulti (l ++ [v]), true) | _ => (x, false) end.
Definition string_Set (v : bytes) (_ : fval) : fval * bool := (VStr v, true).
Definition ParseBool (s : bytes) : bool * bool :=
  if decide (s ∈ (text <$> ["1"; "t"; "T"; "true"; "TRUE"; "True"])) then (true, true)
  else if decide (s ∈ (text <$> ["0"; "f"; "F"; "false"; "FALSE"; "False"])) then (false, true)
  else (false, false).
Definition bool_Set (v : bytes) (_ : fval) : fval * bool := let '(b, ok) := ParseBool v in (VBool b, ok).

Definition is_multi (f : Flag) : bool := match fl_val f with VMulti _ => true | _ => false end.
Definition with_val (f : Flag) (x : fval) : Flag := mkFlag (fl_name f) (fl_set f) x.

Definition envName (name : bytes) : bytes :=
  text "REVIKA_" ++ ToUpper ((λ c, if decide (c = chr "-") then chr "_" else c) <$> name).

(** The parts of a repeatable flag's variable, set one after the other. *)
Fixpoint set_parts (env : bytes) (parts : list bytes) (f : Flag) (applied : list bytes) : Flag * list bytes :=
  match parts with
  | [] => (f, applied)
  | p :: parts =>
      let part := TrimSpace p in
      if decide (part = []) then set_parts env parts f applied
      else
        let '(x, ok) := fl_set f part (fl_val f) in
        set_parts env parts (with_val f x) (if (ok : bool) then applied ++ [env ++ text "=" ++ part] else applied)
  end.

Definition override (cliSet : gset bytes) (getenv : bytes → bytes) (f : Flag) (applied : list bytes) : Flag * list bytes :=
  if decide (fl_name f ∈ cliSet) then (f, applied)
  else
    let env := envName (fl_name f) in
    let val := getenv env in
    if decide (val = []) then (f, applied)
    else if is_multi f then set_parts env (Inet.split_on (chr ",") val) f applied
    else
      let '(x, ok) := fl_set f val (fl_val f) in
      (with_val f x, if (ok : bool) then applied ++ [env ++ text "=" ++ val] else applied).

(** [VisitAll] over the flags of the command. *)
Fixpoint visit_all (cliSet : gset bytes) (getenv : bytes → bytes) (fs : list Flag) (applied : list bytes) : list Flag * list bytes :=
  match fs with
  | [] => ([], applied)
  | f :: fs =>
      let '(f, applied) := override cliSet getenv f applied in
      let '(fs, applied) := visit_all cliSet getenv fs applied in
      (f :: fs, applied)
  end.

Definition applyEnvOverrides (cliSet : gset bytes) (getenv : bytes → bytes) (fs : list Flag) : list Flag * list bytes :=
  visit_all cliSet getenv fs [].

(** ** The bootstrap file *)

Inductive slurp := SMissing | SFailed | SData (b : bytes).

Definition readBootstrapFile (f : slurp) : option (list bytes) :=
  match f with
  | SMissing => Some []
  | SFailed => None
  | SData data =>
      Some (List.filter (λ l, negb (bool_decide (l = [])) && negb (starts_with (text "#") l))
              (TrimSpace <$> Inet.split_on nl data))
  end.

(** The peers of a node: the flag's, or else the file's. *)
Definition bootstrap_peers (flags : list bytes) (f : slurp) : list bytes :=
  match flags with
  | [] => match readBootstrapFile f with Some addrs => addrs | None => flags end
  | _ => flags
  end.

Definition nodeRole (joining : bool) : string := if joining then "joining" else "seed".

(** ** Policy, limits and load *)

Record Upkeep := mkUpkeep {
  up_diff : Z; up_repairOn : bool; up_repairEvery : Z;
  up_rebalOn : bool; up_rebalEvery : Z; up_rebalThresh : F64.t }.

(** The policy in effect: the node's own [own], or, on a joining node, what its
    bootstrap peers advertise; a period that is not positive is not adopted. *)
Definition effective (own : Upkeep) (np : option NodeParams) : Upkeep :=
  match np with
  | None => own
  | Some np =>
      let rep := np_Repair np in let reb := np_Rebalance np in
      mkUpkeep (pow_Difficulty (np_PoW np)) (rep_Enabled rep)
        (if 0 <? rep_Interval rep then rep_Interval rep else up_repairEvery own)
        (reb_Enabled reb)
        (if 0 <? reb_Interval reb then reb_Interval reb else up_rebalEvery own)
        (if reb_Enabled reb then reb_Threshold reb else up_rebalThresh own)
  end.

(** The bar on PUT: [None] when the node refuses to start. *)
Definition admission (effDiff : Z) : option Z := if 0 <? effDiff then (if 255 <? effDiff then None else Some effDiff) else Some 0.

(** What the node advertises. *)
Definition advertised (dhtOn : bool) (u : Upkeep) : RepairInfo * RebalanceInfo :=
  (mkRepair (dhtOn && up_repairOn u) (up_repairEvery u),
   mkRebal (dhtOn && up_rebalOn u) (up_rebalEvery u) (up_rebalThresh u)).

Definition subnetBurstFactor : Z := 4.
Definition write_limiter (rate burst : F64.t) : option limiter :=
  if F64.ltb (F64.of_Z 0) rate then NewOwnerRateLimiter rate (if F64.leb burst (F64.of_Z 0) then rate else burst) else None.
Definition flow_limiter (rate burst : F64.t) (prefix4 prefix6 : Z) : option subnet_limiter :=
  if F64.ltb (F64.of_Z 0) rate
  then NewSubnetRateLimiter rate (if F64.leb burst (F64.of_Z 0) then F64.mul (F64.of_Z subnetBurstFactor) rate else burst) prefix4 prefix6
  else None.

(** [store.Usage] *)
Record Usage := mkUsage { us_Total : Z; us_Avail : Z }.

(** [diskUsage] on Linux: statfs counts in blocks. *)
Definition diskUsage (st : option (Z * Z * Z)) : option Usage :=
  '(bsize, blocks, bavail) ← st;
  let bs := u64 bsize in Some (mkUsage (u64 (blocks * bs)) (u64 (bavail * bs))).

(** [loadSource] *)
Definition loadSource (capacity : Z) (usage : option Usage) (l : Ledger) : LoadReport :=
  let ls := Stats l in
  let budget :=
    match usage with
    | Some u => if 0 <? us_Total u then i64 (phys_bytes ls + i64 (us_Avail u)) else 0
    | None => 0
    end in
  let budget := if (0 <? capacity) && ((budget =? 0) || (capacity <? budget)) then capacity else budget in
  let budget := if budget <? phys_bytes ls then phys_bytes ls else budget in
  mkReport (phys_bytes ls) budget (n_shards ls).

(** ** Loops *)

(** What one run of a supervised function came to: it panicked or returned, the
    context was live then, the wait before the restart ran to its end. *)
Record Run := mkRun { ru_panicked : bool; ru_live : bool; ru_waited : bool }.
Definition maxBackoff : Z := 30 * Second.

(** [supervise]: the waits before the restarts, and whether it stopped. *)
Fixpoint supervise (backoff : Z) (runs : list Run) : list Z * bool :=
  match runs with
  | [] => ([], false)
  | r :: runs =>
      if negb (ru_live r) then ([], true)
      else
        let wait := if ru_panicked r then backoff else Second in
        if negb (ru_waited r) then ([wait], true)
        else
          let next := if ru_panicked r then Z.min (backoff * 2) maxBackoff else Second in
          let '(ds, stopped) := supervise next runs in (wait :: ds, stopped)
  end.

Section gc_loop.
Context `{Hsha : Sha256} {S : Type} `{Hst : !Store S} `{Hls : !Lister S}.

(** One tick: the time, and what the node's other activity did to the store and
    the ledger since the last one. *)
Record Tick := mkTick { tk_now : Z; tk_between : S * Ledger → S * Ledger }.
(** What a cycle found and left. *)
Record Cycle := mkCycle { cy_now : Z; cy_before : S * Ledger; cy_ids : list ShardID; cy_after : S * Ledger }.

Fixpoint gcLoop (expireLeases : bool) (prev : list ShardID) (ticks : list Tick) (n : S * Ledger) : list Cycle :=
  match ticks with
  | [] => []
  | t :: ticks =>
      let n := tk_between t n in
      let '(ids, s, l) := runGC (tk_now t) expireLeases prev n.1 n.2 in
      mkCycle (tk_now t) n ids (s, l) :: gcLoop expireLeases ids ticks (s, l)
  end.
End gc_loop.
Arguments Tick : clear implicits.
Arguments Cycle : clear implicits.

Section repair_loop.
Context `{Hsha : Sha256} `{Hrs : ReedSolomon} {W : Type} `{Hnet : !Store W}.
(** The network as this node reads it, and how it places a shard of a stripe under
    the stripe's grant ([RepairStore.Put]). *)
Context (place : Descriptor → bytes → bytes → W → W * result store_err ShardID).

(** [NewRepairStore] for a row: reads go to the network, writes carry the grant. *)
Definition repair_view (d : Descriptor) (grant : bytes) : Store W :=
  {| Put := place d grant; Get := Get; Has := Has; Delete := Delete |}.

Definition row_desc (row : StripeRow) : Descriptor := mkDesc (sr_K row) (sr_M row) (sr_siblings row).
Definition row_manifest (row : StripeRow) : FileManifest :=
  mkFile "" (mkConfig 0 (Erasure.mkParams (sr_K row) (sr_M row)) false) 0 zeroMeta [mkRef [] false (d_Shards (row_desc row))].

(** What the cycle logs of a row. *)
Inductive row_log :=
| LBadDescriptor | LSeen | LCheckFailed | LHealthy | LUnrecoverable (present : nat)
| LRestored | LPartial (missing : nat).

(** The part of the loop's body after the context's check: [seen] holds the encoded
    descriptors of the cycle; [None] ends the cycle. *)
Definition repair_row (jitter : bool) (row : StripeRow) (seen : gset bytes) (w : W) : gset bytes * W * option row_log :=
  let desc := row_desc row in
  match MarshalBinary desc with
  | Err _ => (seen, w, Some LBadDescriptor)
  | Ok key =>
      if decide (key ∈ seen) then (seen, w, Some LSeen)
      else
        let seen := {[key]} ∪ seen in
        let rs := repair_view desc (sr_grant row) in
        let man := row_manifest row in
        match Check (Hst := rs) man w with
        | Err _ => (seen, w, Some LCheckFailed)
        | Ok rep =>
            if Healthy rep then (seen, w, Some LHealthy)
            else
              match rep with
              | [] => (seen, w, None)
              | st :: _ =>
                  if negb (cs_Recoverable st (sr_K row)) then (seen, w, Some (LUnrecoverable (cs_Present st)))
                  else if negb jitter then (seen, w, None)
                  else
                    let '(w, fixed, _) := Repair.Repair (Hst := rs) man w in
                    (seen, w, Some (if Healthy fixed then LRestored else LPartial (MissingShards fixed)))
              end
        end
  end.

(** [live i] and [jitter i]: the context at the [i]-th check, the outcome of the
    sleep before the [i]-th row's repair. *)
Fixpoint repair_rows (live jitter : nat → bool) (i : nat) (rows : list StripeRow) (seen : gset bytes) (w : W) : W * list row_log :=
  match rows with
  | [] => (w, [])
  | row :: rows =>
      if negb (live i) then (w, [])
      else
        match repair_row (jitter i) row seen w with
        | (_, w, None) => (w, [])
        | (seen, w, Some e) =>
            let '(w, log) := repair_rows live jitter (Datatypes.S i) rows seen w in (w, e :: log)
        end
  end.

Definition runRepair (live jitter : nat → bool) (led : Ledger) (w : W) : W * list row_log :=
  match Stripes led with
  | Err _ => (w, [])
  | Ok rows => repair_rows live jitter 0 rows ∅ w
  end.
End repair_loop.

(** ** Settings *)

Lemma set_parts_name env parts f a : fl_name (set_parts env parts f a).1 = fl_name f.
Proof.
  revert f a. induction parts as [|p ps IH]; intros f a; cbn [set_parts]; [done|]. case_decide; [apply IH|].
  destruct (fl_set f _ _) as [x o]. by rewrite IH.
Qed.

Lemma override_name cli env f a : fl_name (override cli env f a).1 = fl_name f.
Proof.
  unfold override. repeat case_decide; try done. destruct (is_multi f); [apply set_parts_name|by destruct (fl_set f _ _)].
Qed.

Lemma override_applied cli env f a a' : (override cli env f a).1 = (override cli env f a').1.
Proof.
  unfold override. repeat case_decide; try done. destruct (is_multi f); [|by destruct (fl_set f _ _)].
  generalize (Inet.split_on (chr ",") (env (envName (fl_name f)))). generalize (envName (fl_name f)). intros e parts. clear.
  revert f a a'. induction parts as [|p ps IH]; intros f a a'; cbn [set_parts]; [done|]. case_decide; [apply IH|].
  destruct (fl_set f _ _) as [x o]. apply IH.
Qed.

Lemma set_parts_multi env parts f l a : fl_set f = multi_Set → fl_val f = VMulti l →
  fl_val (set_parts env parts f a).1 = VMulti (l ++ List.filter (λ p, negb (bool_decide (p = []))) (TrimSpace <$> parts)).
Proof.
  revert f l a. induction parts as [|p ps IH]; intros f l a Hs Hv; cbn [set_parts fmap list_fmap List.filter].
  { by rewrite app_nil_r. }
  case_decide as Hp; [rewrite Hp, bool_decide_true by done; by apply IH|]. rewrite bool_decide_false by done. cbn [negb].
  rewrite Hs, Hv. cbn [multi_Set]. rewrite (IH _ (l ++ [TrimSpace p])) by done. by rewrite <-app_assoc.
Qed.

Lemma visit_all_map cli env fs a : (visit_all cli env fs a).1 = (λ f, (override cli env f []).1) <$> fs.
Proof.
  revert a. induction fs as [|f fs IH]; intros a; [done|]. cbn [visit_all fmap list_fmap].
  rewrite (override_applied _ _ _ [] a). destruct (override cli env f a) as [f' a']. specialize (IH a').
  destruct (visit_all cli env fs a') as [fs' a'']. cbn [fst] in *. by rewrite IH.
Qed.

(** The command line wins over the environment, which wins over the defaults: the
    flags keep their names and order; one given on the command line, or
    whose variable is unset or empty, keeps its value; any other takes what its Set
    makes of the variable, and a repeatable one is extended by the non-empty
    trimmed parts between the commas. *)
Theorem env_overrides (cli : gset bytes) (env : bytes → bytes) (fs : list Flag) (i : nat) (f : Flag) :
  fs !! i = Some f →
  length (applyEnvOverrides cli env fs).1 = length fs ∧
  ∃ f', (applyEnvOverrides cli env fs).1 !! i = Some f' ∧ fl_name f' = fl_name f ∧
  let val := env (envName (fl_name f)) in
  (fl_name f ∈ cli ∨ val = [] → f' = f) ∧
  (fl_name f ∉ cli → val ≠ [] →
     match fl_val f with
     | VMulti l => fl_set f = multi_Set →
         fl_val f' = VMulti (l ++ List.filter (λ p, negb (bool_decide (p = []))) (TrimSpace <$> Inet.split_on (chr ",") val))
     | x => fl_val f' = (fl_set f val x).1
     end).
Proof.
  intros Hf. unfold applyEnvOverrides. rewrite visit_all_map, length_fmap. split; [done|].
  exists (override cli env f []).1. rewrite list_lookup_fmap, Hf. split; [done|]. split; [apply override_name|]. cbn zeta.
  unfold override. split.
  - intros [H|H]; [by rewrite decide_True|]. case_decide; [done|]. by rewrite decide_True.
  - intros Hc Hv. rewrite !decide_False by done. unfold is_multi. destruct (fl_val f) eqn:E; [by destruct (fl_set f _ _)..|].
    intros Hs. by apply set_parts_multi.
Qed.

(** A boolean variable that strconv.ParseBool does not read turns its flag off: the
    repair loop, on by default, does not run under REVIKA_REPAIR=yes, and the list
    of applied overrides does not mention it. *)
Example env_yes_disables :
  let fs := [mkFlag (text "repair") bool_Set (VBool true)] in
  let env := λ n, if decide (n = text "REVIKA_REPAIR") then text "yes" else [] in
  fl_val <$> (applyEnvOverrides ∅ env fs).1 = [VBool false] ∧ (applyEnvOverrides ∅ env fs).2 = [].
Proof. by vm_compute. Qed.

(** A file of one address per line is read back, comments and blank lines aside. *)
Definition address (a : bytes) : Prop := a ≠ [] ∧ forallb ink a = true ∧ starts_with (text "#") a = false.

Lemma ink_no_nl a : forallb ink a = true → nl ∉ a.
Proof. rewrite forallb_forall. intros H Hin%list_elem_of_In%H. done. Qed.

Lemma bootstrap_file_lines (addrs : list bytes) :
  Forall address addrs → readBootstrapFile (SData (addrs ≫= (λ a, a ++ [nl]))) = Some addrs.
Proof.
  intros H. cbn [readBootstrapFile]. f_equal. induction H as [|a addrs (Hne & Hi & Hc) _ IH]; [done|].
  cbn [mbind list_bind]. rewrite <-app_assoc. cbn [app]. rewrite split_on_sep, fmap_app, List.filter_app, IH.
  rewrite split_on_none by by apply ink_no_nl. cbn [fmap list_fmap List.filter].
  pose proof (TrimSpace_tail a [] Hne Hi ltac:(constructor)) as Ht. rewrite app_nil_r in Ht. rewrite Ht.
  rewrite bool_decide_false by done. by rewrite Hc.
Qed.

(** The flag wins over the file, and a file that is missing or unreadable leaves a seed. *)
Lemma bootstrap_role (flags : list bytes) (f : slurp) :
  bootstrap_peers flags f = [] ↔ flags = [] ∧ (readBootstrapFile f = None ∨ readBootstrapFile f = Some []).
Proof.
  destruct flags as [|x flags]; cbn; [|split; [done|by intros [? _]]].
  destruct (readBootstrapFile f) as [[|]|]; split; try done; try (by intros [_ [?|?]]); split; auto.
Qed.

(** A joining node advertises what it inherited, so that a node that joins through
    it runs the same schedule; and its periods are positive if its own are. *)
Lemma inherited_policy (own : Upkeep) (np : NodeParams) :
  0 < up_repairEvery own → 0 < up_rebalEvery own →
  let u := effective own (Some np) in
  0 < up_repairEvery u ∧ 0 < up_rebalEvery u ∧
  (0 < rep_Interval (np_Repair np) → (advertised true u).1 = np_Repair np) ∧
  (0 < reb_Interval (np_Rebalance np) → reb_Enabled (np_Rebalance np) = true → (advertised true u).2 = np_Rebalance np).
Proof.
  intros H1 H2. cbn. destruct np as [pw [re ri] [be bi bt]]; cbn. destruct (Z.ltb_spec 0 ri), (Z.ltb_spec 0 bi); split_and!; intros; try lia; by subst.
Qed.

(** The reported load never claims negative free space, whatever the
    filesystem answers and however the sum wraps; a budget bounds the capacity
    unless the node already holds more. *)
Lemma load_bounds (capacity : Z) (usage : option Usage) (l : Ledger) :
  let r := loadSource capacity usage l in
  UsedBytes r ≤ CapacityBytes r ∧ (0 < capacity → CapacityBytes r ≤ Z.max capacity (UsedBytes r)).
Proof.
  cbn. set (b := match usage with Some _ => _ | None => _ end). generalize b. clear b. intros b.
  destruct (Z.ltb_spec 0 capacity), (Z.eqb_spec b 0), (Z.ltb_spec capacity b); cbn [andb orb];
    match goal with |- context [if ?x <? ?y then _ else _] => destruct (Z.ltb_spec x y) end; lia.
Qed.

(** ** Supervision *)

(** The panics in a row before the [n]-th run, [j] of them before the first. *)
Fixpoint streak (j : nat) (runs : list Run) (n : nat) : nat :=
  match n, runs with
  | Datatypes.S n, r :: runs => streak (if ru_panicked r then Datatypes.S j else 0) runs n
  | _, _ => j
  end.

Definition backoff_after (j : nat) : Z := Z.min (2 ^ Z.of_nat j) 30 * Second.

Lemma backoff_double j : Z.min (backoff_after j * 2) maxBackoff = backoff_after (Datatypes.S j).
Proof.
  unfold backoff_after, maxBackoff. rewrite Nat2Z.inj_succ, Z.pow_succ_r by lia. unfold Second.
  pose proof (Z.pow_pos_nonneg 2 (Z.of_nat j)). lia.
Qed.

Definition carries_on (r : Run) : Prop := ru_live r = true ∧ ru_waited r = true.

(** The waits after [runs], [j] panics in a row before the first of them. *)
Definition waits (j : nat) (runs : list Run) : list Z :=
  imap (λ n r, if ru_panicked r then backoff_after (streak j runs n) else Second) runs.

Lemma waits_cons j r runs :
  waits j (r :: runs) = (if ru_panicked r then backoff_after j else Second) :: waits (if ru_panicked r then Datatypes.S j else 0) runs.
Proof. unfold waits. cbn [imap streak]. done. Qed.

Lemma supervise_app j runs tail : Forall carries_on runs →
  supervise (backoff_after j) (runs ++ tail) =
    let '(ds, stopped) := supervise (backoff_after (streak j runs (length runs))) tail in (waits j runs ++ ds, stopped).
Proof.
  intros H. revert j. induction H as [|r runs [Hl Hw] _ IH]; intros j; [cbn; by destruct (supervise _ _)|].
  rewrite waits_cons. cbn [app supervise length streak]. rewrite Hl, Hw. cbn [negb].
  destruct (ru_panicked r); [rewrite backoff_double, IH|change (supervise Second) with (supervise (backoff_after 0)); rewrite IH];
    by destruct (supervise _ tail).
Qed.

Lemma backoff_range j : Second ≤ backoff_after j ≤ maxBackoff.
Proof. unfold backoff_after, maxBackoff, Second. pose proof (Z.pow_pos_nonneg 2 (Z.of_nat j)). lia. Qed.

(** A supervised loop is restarted every time it ends, for as long as the context
    lives: the wait after a clean exit is a second; after a panic it is a
    second doubled for each panic in a row before it, at most thirty; a context
    that ends stops it, after the run or during the wait. *)
Theorem supervise_restarts (runs : list Run) :
  Forall carries_on runs →
  supervise Second runs = (waits 0 runs, false) ∧ length (waits 0 runs) = length runs ∧
  Forall (λ d, Second ≤ d ≤ maxBackoff) (waits 0 runs) ∧
  (∀ r tail, ¬ carries_on r → ∃ ds, supervise Second (runs ++ r :: tail) = (waits 0 runs ++ ds, true) ∧ (length ds ≤ 1)%nat).
Proof.
  change (supervise Second) with (supervise (backoff_after 0)). intros H. split_and!.
  - rewrite <-(app_nil_r runs) at 1. rewrite supervise_app by done. cbn. by rewrite app_nil_r.
  - apply length_imap.
  - apply Forall_lookup. intros n d Hd. unfold waits in Hd. rewrite list_lookup_imap in Hd.
    destruct (runs !! n) as [r|]; [|done]. injection Hd as <-. destruct (ru_panicked r); [apply backoff_range|]. unfold maxBackoff, Second. lia.
  - intros r tail Hr. rewrite supervise_app by done. cbn [supervise].
    destruct (ru_live r) eqn:El, (ru_waited r) eqn:Ew; cbn [negb]; [by destruct Hr|eexists; split; [done|cbn; lia]..].
Qed.

(** ** Collection, cycle after cycle *)

Section gc_facts.
Context `{Hsha : Sha256} {S : Type} `{Hst : !Store S} {ok : S → Prop} `{Hlaws : !StoreLaws S ok}.
Context `{Hls : !Lister S} `{Hll : !ListerLaws S ok}.

Definition sound (n : S * Ledger) : Prop := ok n.1 ∧ backed n.1 n.2.

(** Everything about one cycle of the loop, given the baseline of the one before. *)
Record cycle_ok (ex : bool) (prev : list ShardID) (c : Cycle S) : Prop := {
  co_before : sound (cy_before c);
  co_after : sound (cy_after c);
  co_ids : cy_ids c = Collectible (cy_now c) ex (cy_before c).2;
  co_effect : ∀ id,
    if decide (id ∈ cy_ids c ∧ id ∈ prev) then Get id (cy_after c).1 = Err ErrNotFound ∧ shards (cy_after c).2 !! id = None
    else Get id (cy_after c).1 = Get id (cy_before c).1 ∧ shards (cy_after c).2 !! id = shards (cy_before c).2 !! id;
}.

Lemma gcLoop_cycles ex prev ticks n :
  sound n → (∀ t m, t ∈ ticks → sound m → sound (tk_between t m)) →
  ∀ i c, gcLoop ex prev ticks n !! i = Some c →
    cycle_ok ex (match i with O => prev | Datatypes.S j => match gcLoop ex prev ticks n !! j with Some b => cy_ids b | None => [] end end) c.
Proof.
  revert prev n. induction ticks as [|t ticks IH]; intros prev n Hn Hb i c; [done|]. cbn [gcLoop].
  pose proof (Hb t n ltac:(by left) Hn) as [Ho Hk].
  pose proof (runGC_effect (ok := ok) (tk_now t) ex prev (tk_between t n).1 (tk_between t n).2 Ho Hk) as He.
  destruct (runGC _ _ _ _ _) as [[ids s] l]. destruct He as (Hids & Hos & Hbs & Heff).
  destruct i as [|i]; cbn.
  - intros [= <-]. split; [done|done|done|]. cbn. intros id. specialize (Heff id). case_decide; tauto.
  - intros Hc. specialize (IH ids (s, l) ltac:(done) ltac:(intros; apply Hb; [by right|done]) i c Hc). by destruct i.
Qed.
End gc_facts.

(** The grace of the collector, over its whole run beside whatever keeps the
    store and the ledger in step: the first cycle removes nothing; a later cycle
    removes a shard, blob and record, exactly if it finds the shard collectible and
    the cycle before found it so too; every other shard reads as before. *)
Theorem gc_grace `{Sha256} {S : Type} `{!Store S} {ok : S → Prop} `{!StoreLaws S ok} `{!Lister S} `{!ListerLaws S ok}
    (ex : bool) (ticks : list (Tick S)) (n : S * Ledger) (i : nat) (c : Cycle S) (id : ShardID) :
  sound (ok := ok) n → (∀ t m, t ∈ ticks → sound (ok := ok) m → sound (ok := ok) (tk_between t m)) →
  gcLoop ex [] ticks n !! i = Some c →
  let doomed c := id ∈ Collectible (cy_now c) ex (cy_before c).2 in
  sound (ok := ok) (cy_after c) ∧
  (Get id (cy_after c).1 = Err ErrNotFound ∧ shards (cy_after c).2 !! id = None ∧
     (∃ j b, i = Datatypes.S j ∧ gcLoop ex [] ticks n !! j = Some b ∧ doomed b ∧ doomed c) ∨
   Get id (cy_after c).1 = Get id (cy_before c).1 ∧ shards (cy_after c).2 !! id = shards (cy_before c).2 !! id ∧
     ¬ (∃ j b, i = Datatypes.S j ∧ gcLoop ex [] ticks n !! j = Some b ∧ doomed b ∧ doomed c)).
Proof.
  intros Hn Hb Hc. cbn. pose proof (gcLoop_cycles (ok := ok) ex [] ticks n Hn Hb) as Hall.
  destruct (Hall i c Hc) as [_ Ha Hi He]. split; [done|]. specialize (He id). rewrite Hi in He.
  destruct i as [|j].
  { rewrite decide_False in He by (by intros [_ []%elem_of_nil]). right. destruct He. split_and!; [done..|]. by intros (? & ? & ? & _). }
  destruct (lookup_lt_is_Some_2 (gcLoop ex [] ticks n) j) as [b Eb].
  { apply lookup_lt_Some in Hc. lia. }
  rewrite Eb in He. rewrite (co_ids _ _ _ (Hall j b Eb)) in He. case_decide as Hd.
  - left. destruct He. split_and!; [done..|]. exists j, b. tauto.
  - right. destruct He. split_and!; [done..|]. intros (j' & b' & [= <-] & Eb' & Hbb & Hcc). simplify_eq. by apply Hd.
Qed.

(** ** The repair cycle *)

Section repair_facts.
Context `{Hsha : Sha256} `{Hgcm : AesGcm} `{Hfl : Deflate} `{Hrs : ReedSolomon}.
Context {W : Type} `{Hnet : !Store W} {ok : W → Prop} `{Hlaws : !StoreLaws W ok}.
Context (place : Descriptor → bytes → bytes → W → W * result store_err ShardID).
Implicit Types (w : W) (row : StripeRow) (U : list bytes).

Lemma view_laws d g : put_like (ok := ok) (place d g) → StoreLaws (H := Hsha) (Store0 := repair_view place d g) W ok.
Proof. intros [P1 P2 P3]. split; cbn; [exact P1|apply get_sound|apply get_errors|exact P2|exact P3|apply has_get|apply delete_ok|apply delete_result|apply delete_get_same|apply delete_get_other]. Qed.

Definition row_params row : Erasure.Params := Erasure.mkParams (sr_K row) (sr_M row).
Definition row_ref row : ChunkRef := mkRef [] false (sr_siblings row).

(** A row as a client's upload leaves it, with a grant the network still accepts. *)
Record good_row U row : Prop := {
  gr_coded : ∃ shards, coded_chunk (row_params row) (row_ref row) shards ∧ (∀ sh, sh ∈ shards → sh ∈ U);
  gr_desc : desc_ok (row_desc row);
  gr_place : put_like (ok := ok) (place (row_desc row) (sr_grant row));
}.

Lemma hashes_are_ids (l : list bytes) : Forall is_id (HashOf <$> l).
Proof. apply Forall_fmap, Forall_true. apply HashOf_is_id. Qed.

Definition whole row w : Prop := ∀ id, id ∈ sr_siblings row → is_ok (Get id w) = true.

Lemma whole_keeps row w w' : keeps w w' → whole row w → whole row w'.
Proof. intros [Hk _] Hw id Hid. specialize (Hw id Hid). destruct (Get id w) eqn:E; [|done]. by rewrite (Hk _ _ E). Qed.

(** Probing a stripe counts the shards that can be read. *)
Lemma row_check row w : ok w →
  Check (Hst := repair_view place (row_desc row) (sr_grant row)) (row_manifest row) w =
    Ok [mkStatus 0 (length (List.filter (λ id, is_ok (Get id w)) (sr_siblings row))) (length (sr_siblings row))
          (absent (λ id, is_ok (Get id w)) 0 (sr_siblings row))].
Proof.
  intros Hok. unfold Check. cbn [row_manifest fm_Chunks check_chunks row_desc d_Shards cr_Shards].
  rewrite (check_shards_has (Hst := repair_view place (row_desc row) (sr_grant row)) 0 0 _ _ w (λ id, is_ok (Get id w))); [done|].
  intros id _. cbn. by apply (has_get (ok := ok)).
Qed.

Lemma row_healthy row w st : cs_Missing st = absent (λ id, is_ok (Get id w)) 0 (sr_siblings row) →
  Healthy [st] = true ↔ whole row w.
Proof.
  intros E. cbn. rewrite andb_true_r. unfold cs_Healthy. rewrite E. unfold whole.
  rewrite <-(absent_nil (λ id, is_ok (Get id w)) 0). by destruct (absent _ _ _).
Qed.

Lemma row_repair U row w : good_row U row → ok w → coll_free U w → sr_K row ≤ present w (sr_siblings row) →
  ∃ w' st, Repair.Repair (Hst := repair_view place (row_desc row) (sr_grant row)) (row_manifest row) w = (w', [st], []) ∧
    ok w' ∧ coll_free U w' ∧ keeps w w' ∧ whole row w' ∧ Healthy [st] = true.
Proof.
  intros [(shards & Hc & HU) Hd Hp] Hok Hcf HK. set (v := repair_view _ _ _). pose proof (view_laws _ _ Hp) as Hv. fold v in Hv.
  destruct (repairChunk_ok (Hst := v) ok U (row_params row) 0 (row_ref row) shards w Hc Hok Hcf HU) as [HA _].
  destruct (HA HK) as (w' & Ew & Hok' & Hcf' & Hk & Hst').
  assert (whole row w') as Hw.
  { intros id Hid. destruct Hc as [Es _]. cbn in Es. rewrite Es in Hid. apply list_elem_of_fmap in Hid as (sh & -> & Hsh).
    specialize (Hst' sh Hsh). cbn in Hst'. by rewrite Hst'. }
  exists w', (mkStatus 0 (length (List.filter (λ id, is_ok (Get id w')) (sr_siblings row))) (length (sr_siblings row))
          (absent (λ id, is_ok (Get id w')) 0 (sr_siblings row))). split_and!; [|done..|by apply (row_healthy row w')].
  unfold Repair.Repair. cbn [row_manifest fm_Params cf_Params fm_Chunks repair_chunks].
  fold (row_params row). change (mkRef [] false (d_Shards (row_desc row))) with (row_ref row). rewrite Ew.
  unfold v. by rewrite row_check.
Qed.

(** One row: nothing is lost, and if it is the first of its stripe, a stripe
    with K shards left is whole. *)
Lemma repair_row_ok U row seen w : good_row U row → ok w → coll_free U w →
  ∃ key w' e, MarshalBinary (row_desc row) = Ok key ∧ repair_row place true row seen w = ({[key]} ∪ seen, w', Some e) ∧
    ok w' ∧ coll_free U w' ∧ keeps w w' ∧ (key ∉ seen → sr_K row ≤ present w (sr_siblings row) → whole row w').
Proof.
  intros Hg Hok Hcf.
  assert (∃ key, MarshalBinary (row_desc row) = Ok key) as [key Ek] by (eexists; apply MarshalBinary_Ok; split; [apply (gr_desc _ _ Hg)|done]).
  exists key. unfold repair_row. rewrite Ek. case_decide as Hs.
  { exists w, LSeen. split; [done|]. split_and!; [|done..|apply keeps_refl|done]. do 2 f_equal. set_solver. }
  rewrite row_check by done. set (st := mkStatus _ _ _ _). destruct (Healthy [st]) eqn:Eh.
  { exists w, LHealthy. split_and!; try done. intros _ _. by apply (row_healthy row w st). }
  unfold cs_Recoverable. change (Z.of_nat (cs_Present st)) with (present w (sr_siblings row)).
  destruct (Z.leb_spec (sr_K row) (present w (sr_siblings row))) as [HK|HK]; cbn [negb].
  - destruct (row_repair U row w Hg Hok Hcf HK) as (w' & st' & -> & ? & ? & ? & ? & Hh). rewrite Hh. exists w', LRestored. by split_and!.
  - eexists w, _. split_and!; try done. lia.
Qed.

(** The rows whose stripe was handled and had K shards left at the start are whole. *)
Lemma repair_rows_ok U w0 live i rows : ∀ seen w,
  (∀ j, live j = true) → Forall (good_row U) rows → ok w → coll_free U w → keeps w0 w →
  (∀ row, row ∈ rows → ∀ key, MarshalBinary (row_desc row) = Ok key → key ∈ seen →
     sr_K row ≤ present w0 (sr_siblings row) → whole row w) →
  ∃ w' log, repair_rows place live (λ _, true) i rows seen w = (w', log) ∧ length log = length rows ∧
    ok w' ∧ keeps w w' ∧ ∀ row, row ∈ rows → sr_K row ≤ present w0 (sr_siblings row) → whole row w'.
Proof.
  revert i. induction rows as [|row rows IH]; intros i seen w Hl Hg Hok Hcf Hk Hseen.
  { exists w, []. split_and!; [done..|apply keeps_refl|by intros ? []%elem_of_nil]. }
  apply Forall_cons in Hg as [Hr Hg]. cbn [repair_rows]. rewrite Hl. cbn [negb].
  destruct (repair_row_ok U row seen w Hr Hok Hcf) as (key & w1 & e & Ek & -> & Hok1 & Hcf1 & Hk1 & Hw1).
  assert (sr_K row ≤ present w0 (sr_siblings row) → whole row w1) as Hrow.
  { intros HK. destruct (decide (key ∈ seen)) as [Hin|Hin].
    - apply (whole_keeps row w); [done|]. eapply Hseen; [by left|done..].
    - apply Hw1; [done|]. pose proof (present_keeps w0 w (sr_siblings row) Hk). lia. }
  destruct (IH (Datatypes.S i) ({[key]} ∪ seen) w1 Hl Hg Hok1 Hcf1 (keeps_trans _ _ _ Hk Hk1)) as (w' & log & -> & Hlen & Hok' & Hk' & Hall).
  { intros row' Hin key' Ek' [->%elem_of_singleton|Hin']%elem_of_union HK.
    - assert (row_desc row' = row_desc row) as Ed.
      { apply (MarshalBinary_inj _ _ key); [..|done|done].
        all: cbn [row_desc d_Shards].
        - rewrite Forall_forall in Hg. destruct (gr_coded _ _ (Hg row' Hin)) as (shards & [Es _] & _). cbn in Es. rewrite Es. by apply hashes_are_ids.
        - destruct (gr_coded _ _ Hr) as (shards & [Es _] & _). cbn in Es. rewrite Es. by apply hashes_are_ids. }
      injection Ed as EK _ ES. unfold whole in *. rewrite ES in *. rewrite EK in HK. by apply Hrow.
    - apply (whole_keeps row' w); [done|]. eapply Hseen; [by right|done..]. }
  exists w', (e :: log). split_and!; [done|cbn; by rewrite Hlen|done|by eapply keeps_trans|].
  intros row' [->|Hin]%elem_of_cons HK; [apply (whole_keeps row w1); [done|by apply Hrow]|by apply Hall].
Qed.
End repair_facts.


(** Of several rows of one stripe only the first one's grant is ever tried. *)
Lemma second_grant_unused `{Sha256, ReedSolomon} {W : Type} `{!Store W}
    (place : Descriptor → bytes → bytes → W → W * result store_err ShardID) live jitter i row row' seen w :
  row_desc row' = row_desc row →
  (repair_rows place live jitter i [row; row'] seen w).1 = (repair_rows place live jitter i [row] seen w).1.
Proof.
  intros Ed. cbn [repair_rows]. destruct (live i); cbn [negb]; [|done].
  destruct (repair_row place (jitter i) row seen w) as [[seen1 w1] [e|]] eqn:E; [|done]. cbn [fst].
  destruct (live (Datatypes.S i)); cbn [negb]; [|done].
  assert (∃ e', repair_row place (jitter (Datatypes.S i)) row' seen1 w1 = (seen1, w1, Some e')) as [e' ->]; [|done].
  unfold repair_row in *. rewrite Ed. destruct (MarshalBinary (row_desc row)) as [key|]; [|by eexists].
  assert (key ∈ seen1) as Hin; [|rewrite decide_True by done; by eexists].
  case_decide; [by simplify_eq|]. repeat case_match; simplify_eq; set_solver.
Qed.

Section examples.
#[local] Existing Instances pad_sha toy_gcm toy_deflate Xor.coder.

(** Two blobs and their parity, recorded twice; the first blob is lost. *)
Definition ex_sealed : bytes := text "revika data".
Definition ex_coded : list bytes :=
  match Encode (Erasure.mkParams 2 1) ex_sealed with Ok sh => sh | Err _ => [] end.
Definition ex_sibs : list ShardID := HashOf <$> ex_coded.
Definition ex_left : Mem.MemStore := foldl (λ s d, (Put d s).1) Mem.NewMemStore (drop 1 ex_coded).
Definition ex_books : Ledger :=
  let id n := default [] (ex_sibs !! n) in
  let row := mkStripeRec 2 1 (concat ex_sibs) [Byte.x07] in
  mkLedger ∅ ∅ ∅ {[id 1%nat := row; id 2%nat := row]} ∅.
Definition ex_place (_ : Descriptor) (_ : bytes) (d : bytes) (w : Mem.MemStore) := Put d w.

End examples.
