(* ===== verification/Status.v ===== *)
(** * internal/net: a node's identity and its status (host.go, publicip.go, metrics.go)

    The key file that makes a node's peer ID stable, the addresses a node announces
    when it knows its public IP, and the snapshot that /status and /metrics render.
    libp2p's keys and multiaddrs are parameters. The workspace's model of package
    os ([Profile.Desk]) is used for the key file. *)

From Stdlib Require Import Ascii.
From S2P Require Import Prelude GoLib Store Crypto Stripe Ledger Codec Base64 RateLimit Placement Defense Rebalance Params Browse Admin Workspace Profile.

(** ** host.go: the key file *)

Inductive host_err := HGenerate | HMarshal | HMkdir | HWrite | HParse | HRead | HExists | HStat.

(** libp2p's encoding of private keys. *)
Class KeyCodec := { MarshalPrivateKey : bytes → option bytes; UnmarshalPrivateKey : bytes → option bytes }.
Class KeyCodecLaws `{KeyCodec} := { key_roundtrip : ∀ k raw, MarshalPrivateKey k = Some raw → UnmarshalPrivateKey raw = Some k }.

Section identity.
Context `{Hk : KeyCodec} (host : nat → fate).

(** [draw]: what GenerateEd25519Key gives. *)
Definition generateAndPersistIdentity (draw : option bytes) (path : string) (d : Desk) : Desk * result host_err bytes :=
  match draw with
  | None => (d, Err HGenerate)
  | Some priv =>
      match MarshalPrivateKey priv with
      | None => (d, Err HMarshal)
      | Some raw =>
          let '(d, r) := os_MkdirAll host (fp_Dir path) d in
          match r with
          | Err _ => (d, Err HMkdir)
          | Ok _ =>
              let '(d, r) := os_WriteFile host path raw d in
              (d, match r with Err _ => Err HWrite | Ok _ => Ok priv end)
          end
      end
  end.

Definition loadOrCreateIdentity (draw : option bytes) (path : string) (d : Desk) : Desk * result host_err bytes :=
  if decide (path = "") then (d, of_option HGenerate draw)
  else
    let '(d, f) := os_ReadFile host path d in
    match f with
    | FileIs data => (d, of_option HParse (UnmarshalPrivateKey data))
    | FileFails => (d, Err HRead)
    | FileAbsent => generateAndPersistIdentity draw path d
    end.

(** The peer ID is a function of the key that is returned. *)
Definition GenerateIdentityFile (draw : option bytes) (path : string) (d : Desk) : Desk * result host_err bytes :=
  let '(d, st) := os_Stat host path d in
  match st with
  | StatFile | StatDir => (d, Err HExists)
  | StatFails => (d, Err HStat)
  | StatAbsent => generateAndPersistIdentity draw path d
  end.
End identity.

(** ** Announced addresses *)

Section addresses.
Context {M C : Type}.
(** Multiaddrs: their first component and the rest, its protocol's code, prepending a
    component, their text; the component of an IP address. *)
Context (SplitFirst : M → option C * option M) (Code : C → Z) (Encapsulate : C → M → M) (Text : M → bytes).
Context (ip_component : bytes → option C).

Definition P_IP4 : Z := 4.
Definition P_IP6 : Z := 41.

(** The public variant of an address. *)
Definition variant (pub : C) (a : M) : option M :=
  match SplitFirst a with
  | (Some first, Some rest) => if (Code first =? P_IP4) || (Code first =? P_IP6) then Some (Encapsulate pub rest) else None
  | _ => None
  end.

(** The closure [add], on what was seen and what is listed. *)
Definition add_addr (st : gset bytes * list M) (a : M) : gset bytes * list M :=
  let '(seen, out) := st in
  if decide (Text a ∈ seen) then st else ({[Text a]} ∪ seen, out ++ [a]).

Definition announce_public (pub : C) (addrs : list M) : list M :=
  (foldl add_addr (foldl add_addr (∅, []) (omap (variant pub) addrs)) addrs).2.

Definition publicAddrsFactory (publicIP : bytes) : option (list M → list M) :=
  ip ← Inet.ParseIP publicIP; pub ← ip_component ip; Some (announce_public pub).
End addresses.

(** The service's answer: none, or its status and its body as far as it could be read. *)
Definition discoverPublicIP (resp : option (Z * option bytes)) : option bytes :=
  '(status, body) ← resp;
  if negb (status =? 200) then None
  else b ← body; Inet.ParseIP (TrimSpace (take 64 b)).

(** ** metrics.go *)

Inductive Direction := DirUnknown | DirInbound | DirOutbound.
Definition connDirection (d : Direction) : string :=
  match d with DirInbound => "inbound" | DirOutbound => "outbound" | DirUnknown => "unknown" end.

Record PeerInfo := mkPeerInfo { pi_ID : string; pi_Addrs : list string; pi_Direction : string }.
Record NetworkInfo := mkNetInfo { ni_Connected : Z; ni_RoutingTableSize : Z; ni_DHT : bool; ni_Peers : list PeerInfo }.

(** A peer with its connections; the last one's direction is shown. *)
Definition peer_info (p : string * list (string * Direction)) : PeerInfo :=
  foldl (λ pi c, mkPeerInfo (pi_ID pi) (pi_Addrs pi ++ [c.1]) (connDirection c.2)) (mkPeerInfo p.1 [] "unknown") p.2.

(** [table]: the size of the routing table, [None] without a DHT. *)
Definition networkInfo (table : option Z) (peers : list (string * list (string * Direction))) : NetworkInfo :=
  mkNetInfo (Z.of_nat (length peers)) (default 0 table) (bool_decide (is_Some table)) (sort_by pi_ID (peer_info <$> peers)).

Record OwnerInfo := mkOwnerInfo { oi_Owner : bytes; oi_BytesUsed : Z; oi_ShardCount : Z }.
Record StorageInfo := mkStorage {
  si_Shards : Z; si_BytesUsed : Z; si_QuotaBytes : Z; si_Clients : Z;
  si_CapacityBytes : Z; si_FreeBytes : Z; si_Load : F64.t; si_Owners : list OwnerInfo }.

Record SubnetLimitInfo := mkSubnetInfo { sl_Enabled : bool; sl_Rate : F64.t; sl_Burst : F64.t; sl_Prefix4 : Z; sl_Prefix6 : Z }.
Record WriteLimitInfo := mkWriteInfo { wl_Enabled : bool; wl_Rate : F64.t; wl_Burst : F64.t }.
Record PutConcurrencyInfo := mkPutInfo { pc_Enabled : bool; pc_Limit : Z }.
Record QuotaRampInfo := mkRampInfo { qr_Enabled : bool; qr_Ramp : Z; qr_InitialFraction : F64.t }.
Record DefenseInfo := mkDefense {
  di_Subnet : SubnetLimitInfo; di_Write : WriteLimitInfo; di_Put : PutConcurrencyInfo; di_Ramp : QuotaRampInfo }.

(** What the server is told before it serves; [ms_loadSrc] is [None] if unset. *)
Record MetricsServer := mkMetrics {
  ms_version : string; ms_buildDate : string; ms_started : Z; ms_pow : PoWInfo;
  ms_repair : RepairInfo; ms_rebalance : RebalanceInfo; ms_defense : DefenseInfo; ms_loadSrc : option LoadSource; ms_protocols : list string }.

Definition SetPoW (minBits : Z) (m : MetricsServer) : MetricsServer :=
  mkMetrics (ms_version m) (ms_buildDate m) (ms_started m) (if minBits =? 0 then mkPoW false 0 else mkPoW true minBits)
    (ms_repair m) (ms_rebalance m) (ms_defense m) (ms_loadSrc m) (ms_protocols m).
Definition SetProtocols (ps : list string) (m : MetricsServer) : MetricsServer :=
  mkMetrics (ms_version m) (ms_buildDate m) (ms_started m) (ms_pow m) (ms_repair m) (ms_rebalance m) (ms_defense m) (ms_loadSrc m) (sort_by id ps).
Definition SetMaintenance (repair : RepairInfo) (rebalance : RebalanceInfo) (m : MetricsServer) : MetricsServer :=
  mkMetrics (ms_version m) (ms_buildDate m) (ms_started m) (ms_pow m) repair rebalance (ms_defense m) (ms_loadSrc m) (ms_protocols m).
Definition SetDefenses (d : DefenseInfo) (m : MetricsServer) : MetricsServer :=
  mkMetrics (ms_version m) (ms_buildDate m) (ms_started m) (ms_pow m) (ms_repair m) (ms_rebalance m) d (ms_loadSrc m) (ms_protocols m).

Record Status := mkStatus {
  st_PeerID : string; st_Version : string; st_BuildDate : string; st_Uptime : F64.t;
  st_ListenAddrs : list string; st_Bootstrap : list string; st_Protocols : list string;
  st_PoW : PoWInfo; st_Repair : RepairInfo; st_Rebalance : RebalanceInfo; st_Defense : DefenseInfo;
  st_Storage : StorageInfo; st_Network : NetworkInfo; st_GC : GCSnapshot }.

Definition storage_info (opts : Options) (load : option LoadSource) (l : Ledger) : StorageInfo :=
  let ls := Stats l in
  let mk cap free frac :=
    mkStorage (n_shards ls) (phys_bytes ls) (QuotaBytes opts) (clients ls) cap free frac
      ((λ '(o, b, c), mkOwnerInfo (RawEncode o) b c) <$> per_owner ls) in
  match load with
  | Some (Ok rep) => mk (CapacityBytes rep) (FreeBytes rep) (report_Frac rep)
  | _ => mk 0 0 (F64.of_Z 0)
  end.

(** [snapshot] on a ledger that answers: the host's ID, addresses and connections,
    the clock and the collector's counters are arguments. *)
Definition snapshot (m : MetricsServer) (opts : Options) (now : Z) (self : string) (addrs : list string)
    (table : option Z) (peers : list (string * list (string * Direction))) (gc : option GCStats) (l : Ledger) : Status :=
  mkStatus self (ms_version m) (ms_buildDate m) (Seconds (Sub now (ms_started m)))
    addrs ((λ a, a +:+ "/p2p/" +:+ self) <$> addrs) (ms_protocols m) (ms_pow m) (ms_repair m) (ms_rebalance m) (ms_defense m)
    (storage_info opts (ms_loadSrc m) l) (networkInfo table peers) (gc_Snapshot gc).

(** The status code of /readyz. *)
Definition handleReadyz (table : option Z) : Z :=
  match table with None => 200 | Some n => if 0 <? n then 200 else 503 end.

(** ** The identity is stable *)

Section identity_facts.
Context `{Hk : KeyCodec} `{Hl : !KeyCodecLaws} (host : nat → fate).

Lemma persist_Ok draw p d d' k : generateAndPersistIdentity host draw p d = (d', Ok k) →
  ∃ raw, MarshalPrivateKey k = Some raw ∧ dk_files d' !! p = Some (IFile raw).
Proof.
  unfold generateAndPersistIdentity. destruct draw as [priv|]; [|done]. destruct (MarshalPrivateKey priv) as [raw|] eqn:Em; [|done].
  destruct (os_MkdirAll host (fp_Dir p) d) as [d1 [[]|]]; [|done]. destruct (os_WriteFile host p raw d1) as [d2 [[]|]] eqn:Ew; [|done].
  intros [= <- <-]. exists raw. split; [done|]. apply WriteFile_Ok in Ew. by rewrite Ew, lookup_insert_eq.
Qed.

Lemma load_Ok draw p d d' k : p ≠ "" → loadOrCreateIdentity host draw p d = (d', Ok k) →
  ∃ raw, UnmarshalPrivateKey raw = Some k ∧ dk_files d' !! p = Some (IFile raw).
Proof.
  intros Hp. unfold loadOrCreateIdentity. rewrite decide_False by done. unfold os_ReadFile, content.
  destruct (host (dk_calls d)); try done. destruct (dk_files d !! p) as [[raw|]|] eqn:Ef; [|done|].
  - destruct (UnmarshalPrivateKey raw) as [k'|] eqn:Eu; [|done]. intros [= <- <-]. by exists raw.
  - intros (raw & Em & E)%persist_Ok. exists raw. split; [by apply key_roundtrip|done].
Qed.

Lemma load_present draw p d raw : p ≠ "" → dk_files d !! p = Some (IFile raw) →
  dk_files (loadOrCreateIdentity host draw p d).1 = dk_files d ∧
  (host (dk_calls d) = Through → (loadOrCreateIdentity host draw p d).2 = of_option HParse (UnmarshalPrivateKey raw)).
Proof.
  intros Hp Ef. unfold loadOrCreateIdentity. rewrite decide_False by done. unfold os_ReadFile, content. rewrite Ef.
  by destruct (host (dk_calls d)).
Qed.
End identity_facts.

(** A node keeps its peer ID: once a start has ended with the key [k], every later
    start whose read goes through ends with [k], whatever key it would have drawn;
    and no later start and no attempt to generate an identity over it changes the
    file, whatever calls fail. *)
Theorem node_identity_stable `{KeyCodecLaws} (host : nat → fate) (draw : option bytes) (p : string) (d d1 : Desk) (k : bytes) :
  p ≠ "" → loadOrCreateIdentity host draw p d = (d1, Ok k) →
  ∀ (host' : nat → fate) (draw' : option bytes) (d2 : Desk), dk_files d2 !! p = dk_files d1 !! p →
    (host' (dk_calls d2) = Through → (loadOrCreateIdentity host' draw' p d2).2 = Ok k) ∧
    dk_files (loadOrCreateIdentity host' draw' p d2).1 = dk_files d2 ∧
    dk_files (GenerateIdentityFile host' draw' p d2).1 = dk_files d2 ∧ is_ok (GenerateIdentityFile host' draw' p d2).2 = false.
Proof.
  intros Hp (raw & Eu & Ef)%load_Ok host' draw' d2 E2; [|done]. rewrite Ef in E2.
  destruct (load_present host' draw' p d2 raw Hp E2) as [H1 H2]. rewrite Eu in H2. split; [done|]. split; [done|].
  unfold GenerateIdentityFile, os_Stat, stat_at. rewrite E2. by destruct (host' (dk_calls d2)).
Qed.

(** A first start whose write is cut short leaves a file that no later start can
    read as a key, if the beginning of a key is not one. *)
Lemma torn_identity_stops `{KeyCodec} (host : nat → fate) (draw : option bytes) (p : string) (d : Desk) (raw : bytes) (n : nat) :
  p ≠ "" → dk_files d !! p = Some (IFile (take n raw)) → UnmarshalPrivateKey (take n raw) = None →
  is_ok (loadOrCreateIdentity host draw p d).2 = false.
Proof.
  intros Hp Ef Eu. unfold loadOrCreateIdentity. rewrite decide_False by done. unfold os_ReadFile, content. rewrite Ef.
  destruct (host (dk_calls d)); cbn; try done. by rewrite Eu.
Qed.

(** ** Announced addresses *)

Section address_facts.
Context {M C : Type} (SplitFirst : M → option C * option M) (Code : C → Z) (Encapsulate : C → M → M) (Text : M → bytes).

(** What the closure has listed: the texts are the ones seen, each once. *)
Definition listed (st : gset bytes * list M) : Prop := NoDup (Text <$> st.2) ∧ ∀ t, t ∈ st.1 ↔ t ∈ Text <$> st.2.

Lemma add_all l : ∀ st, listed st →
  let st' := foldl (add_addr Text) st l in
  listed st' ∧ (∃ tail, st'.2 = st.2 ++ tail ∧ ∀ a, a ∈ tail → a ∈ l) ∧ ∀ a, a ∈ l → Text a ∈ Text <$> st'.2.
Proof.
  induction l as [|a l IH]; intros [seen out] [Hn Hs]; cbn [foldl].
  { split; [done|]. split; [|by intros ? []%elem_of_nil]. exists []. rewrite app_nil_r. split; [done|by intros ? []%elem_of_nil]. }
  cbn [fst snd] in *.
  assert (∃ ext, (add_addr Text (seen, out) a).2 = out ++ ext ∧ (∀ b, b ∈ ext → b = a) ∧ listed (add_addr Text (seen, out) a) ∧
    Text a ∈ Text <$> (add_addr Text (seen, out) a).2) as (ext & Eo & He & Hl & Ha).
  { unfold add_addr. case_decide as Hin.
    - exists []. rewrite app_nil_r. split_and!; [done|by intros ? []%elem_of_nil|done|by apply Hs].
    - exists [a]. split_and!; [done|by intros ? ->%list_elem_of_singleton| |cbn [snd]; rewrite fmap_app; set_solver].
      split; cbn [fst snd]; rewrite fmap_app.
      + apply NoDup_app. split; [done|]. split; [|apply NoDup_singleton]. intros t Ht ->%list_elem_of_singleton. apply Hin. by apply Hs.
      + intros t. rewrite elem_of_app, elem_of_union, Hs. set_solver. }
  destruct (IH _ Hl) as (Hl' & (tail & Et & Htail) & Hall). split; [done|]. split.
  - exists (ext ++ tail). rewrite app_assoc, <-Eo. split; [done|]. intros b [Hb|Hb]%elem_of_app; [rewrite (He b Hb); by left|right; by apply Htail].
  - intros b [->|Hb]%elem_of_cons; [|by apply Hall]. rewrite Et, fmap_app. apply elem_of_app. by left.
Qed.

(** The public variants come first, then the node's own addresses; no text twice;
    nothing is left out. *)
Lemma announced (pub : C) (addrs : list M) :
  let out := announce_public SplitFirst Code Encapsulate Text pub addrs in
  NoDup (Text <$> out) ∧ (∀ a, a ∈ addrs → Text a ∈ Text <$> out) ∧
  ∃ front back, out = front ++ back ∧ (∀ a, a ∈ back → a ∈ addrs) ∧
    (∀ b, b ∈ front → ∃ a, a ∈ addrs ∧ variant SplitFirst Code Encapsulate pub a = Some b) ∧
    (∀ a b, a ∈ addrs → variant SplitFirst Code Encapsulate pub a = Some b → Text b ∈ Text <$> front).
Proof.
  unfold announce_public. cbn zeta.
  destruct (add_all (omap (variant SplitFirst Code Encapsulate pub) addrs) (∅, [])) as (H1 & (front & E1 & Hf) & Hv); [by split; [constructor|set_solver]|].
  destruct (add_all addrs _ H1) as ([Hn _] & (back & E2 & Hb) & Ha). split; [done|]. split; [done|].
  exists front, back. rewrite E2, E1. split_and!; [done|done|..].
  - intros b Hin%Hf. by apply list_elem_of_omap in Hin.
  - intros a b Hin Ev. rewrite E1 in Hv. apply Hv. apply list_elem_of_omap. by exists a.
Qed.
End address_facts.

(** ** The status page tells the truth *)

Lemma lookup_account_claims l o : wf l →
  (∃ a, accounts l !! o = Some a) ↔ 0 < count_by l o.
Proof.
  intros Hw. split.
  - intros [a Ea]. destruct (wf_account _ Hw o a Ea) as (_ & <- & H). done.
  - intros Hc. destruct (accounts l !! o) as [a|] eqn:Ea; [by exists a|]. pose proof (wf_no_account _ Hw o Ea). lia.
Qed.

Lemma RawEncode_inj a b : RawEncode a = RawEncode b → a = b.
Proof. intros E. apply (f_equal RawDecode) in E. rewrite !RawDecode_Encode in E. by injection E. Qed.

Lemma per_owner_perm l :
  per_owner (Stats l) ≡ₚ (λ '(o, a), (o, bytes_used a, shard_count a)) <$> map_to_list (accounts l).
Proof. apply sort_by2_perm. Qed.

Lemma elem_of_per_owner l o b c : wf l →
  (o, b, c) ∈ per_owner (Stats l) ↔ 0 < count_by l o ∧ b = used_by l o ∧ c = count_by l o.
Proof.
  intros Hw. rewrite per_owner_perm, list_elem_of_fmap. split.
  - intros ([o' a] & [= -> -> ->] & Hin%elem_of_map_to_list). destruct (wf_account _ Hw _ _ Hin) as (E1 & E2 & E3). lia.
  - intros (Hc & -> & ->). apply lookup_account_claims in Hc as [a Ea]; [|done]. destruct (wf_account _ Hw _ _ Ea) as (E1 & E2 & E3).
    exists (o, a). split; [by rewrite E1, E2|]. by apply elem_of_map_to_list.
Qed.

Lemma peer_info_ID p : pi_ID (peer_info p) = p.1.
Proof.
  unfold peer_info. change p.1 with (pi_ID (mkPeerInfo p.1 [] "unknown")) at 2. generalize (mkPeerInfo p.1 [] "unknown").
  induction p.2 as [|c cs IH]; intros x; [done|]. cbn [foldl]. by rewrite IH.
Qed.

(** The status is the ledger's and the host's: on a ledger in order, every owner with
    a claim has exactly one line, with the bytes and the number of its claims, the
    largest first, and nobody else has one; the addresses to join by are the
    listening ones with the ID attached; each connected peer is shown once, in the
    order of the IDs; and the free space of a load report that does not claim more
    than its capacity is the difference. *)
Theorem status_truthful (m : MetricsServer) (opts : Options) (now : Z) (self : string) (addrs : list string)
    (table : option Z) (peers : list (string * list (string * Direction))) (gc : option GCStats) (l : Ledger) :
  wf l →
  let st := snapshot m opts now self addrs table peers gc l in
  let si := st_Storage st in
  si_Clients si = Z.of_nat (length (si_Owners si)) ∧ NoDup (oi_Owner <$> si_Owners si) ∧
  StronglySorted (λ x y, oi_BytesUsed y ≤ oi_BytesUsed x) (si_Owners si) ∧
  (∀ x, x ∈ si_Owners si ↔ ∃ o, 0 < count_by l o ∧ x = mkOwnerInfo (RawEncode o) (used_by l o) (count_by l o)) ∧
  ni_Connected (st_Network st) = Z.of_nat (length (ni_Peers (st_Network st))) ∧
  pi_ID <$> ni_Peers (st_Network st) ≡ₚ peers.*1 ∧
  StronglySorted (key_le pi_ID) (ni_Peers (st_Network st)) ∧
  length (st_Bootstrap st) = length (st_ListenAddrs st) ∧
  (∀ rep, ms_loadSrc m = Some (Ok rep) → in_i64 (CapacityBytes rep) → 0 ≤ UsedBytes rep ≤ CapacityBytes rep →
     si_FreeBytes si = CapacityBytes rep - UsedBytes rep).
Proof.
  intros Hw. cbn zeta. unfold snapshot. cbn [st_Storage st_Network st_Bootstrap st_ListenAddrs].
  assert (si_Owners (storage_info opts (ms_loadSrc m) l) = (λ '(o, b, c), mkOwnerInfo (RawEncode o) b c) <$> per_owner (Stats l)) as ->
    by (unfold storage_info; repeat case_match; done).
  assert (si_Clients (storage_info opts (ms_loadSrc m) l) = Z.of_nat (length (per_owner (Stats l)))) as ->
    by (unfold storage_info; repeat case_match; done).
  split_and!.
  - by rewrite length_fmap.
  - rewrite <-list_fmap_compose. rewrite (fmap_Permutation _ _ _ (per_owner_perm l)), <-list_fmap_compose.
    apply NoDup_fmap_2_strong; [|apply NoDup_map_to_list]. intros [o a] [o' a'] H1%elem_of_map_to_list H2%elem_of_map_to_list E.
    cbn in E. apply RawEncode_inj in E as ->. congruence.
  - pose proof (sort_by2_sorted (λ '(o, b, c), - b) (λ '(o, b, c), bytes_key o)
      ((λ '(o, a), (o, bytes_used a, shard_count a)) <$> map_to_list (accounts l))) as Hs.
    change (sort_by2 _ _ _) with (per_owner (Stats l)) in Hs. induction Hs as [|[[o b] c] os Hs IH Hf]; [constructor|]. cbn [fmap list_fmap].
    constructor; [apply IH|]. apply Forall_fmap. eapply Forall_impl; [exact Hf|]. intros [[o' b'] c'] Hle. cbn. unfold lex_le in Hle. lia.
  - intros x. rewrite list_elem_of_fmap. split.
    + intros ([[o b] c] & -> & Hin). apply elem_of_per_owner in Hin as (Hc & -> & ->); [|done]. by exists o.
    + intros (o & Hc & ->). exists (o, used_by l o, count_by l o). split; [done|]. by apply elem_of_per_owner.
  - cbn. by rewrite (Permutation_length (sort_by_perm _ _)), length_fmap.
  - cbn. rewrite (fmap_Permutation _ _ _ (sort_by_perm _ _)), <-list_fmap_compose. apply reflexive_eq, list_fmap_ext. intros _ x _. apply peer_info_ID.
  - apply sort_by_sorted.
  - by rewrite length_fmap.
  - intros rep E Hi Hu. unfold storage_info. rewrite E. cbn. unfold FreeBytes, Free. cbn. rewrite i64_id; [|unfold in_i64 in *; lia].
    case_match eqn:Eb; [done|]. apply Z.ltb_ge in Eb. lia.
Qed.
